(* ===== verification/_CoqProject ===== *)
-Q . S2P
Prelude.v
Js.v
AuthorityContracts.v
AuthorityAdmission.v
AuthorityLedger.v
AuthorityRefinement.v
CredentialPublication.v
AuthoritySafety.v
AuthorityQuota.v
AuthorityProgress.v
AuthorityStore.v
AuthorityTransact.v
AuthorityTheorems.v
KvStore.v
KvLogic.v
KernelQuota.v
KernelStore.v
KernelRows.v
KernelSafety.v
KernelGuarantee.v
KernelTheorems.v
KernelLease.v
KernelLeaseTheorems.v
NativePaid.v
PaidLedger.v
PaidSafety.v
PaidGuarantee.v
PaidTheorems.v
PaidUsage.v
InferenceAdmission.v
InferenceFairness.v
TelemetryQueue.v
TelemetrySafety.v
CodexContracts.v
CodexCapacity.v
CodexRouting.v
CodexMutations.v
CodexSlots.v
CodexNormalization.v
CodexAdmission.v
CodexTheorems.v
JsonText.v
JsonScan.v
WebText.v
HttpDate.v
Codex429.v
ApiKeyUsage.v
ApiKeyStore.v
ApiKeyRows.v
ApiKeySafety.v
ApiKeyGuarantee.v
ApiKeyAlone.v
ApiKeyTheorems.v
ApiKeyCache.v
JsonPrint.v
JsonRoundTrip.v
SseStream.v
SseFraming.v
ResponsesEvents.v
SseRoundTrip.v
ResponsesOwned.v
ResponsesSafety.v
ResponsesTheorems.v
SseRelay.v
SseKeepalive.v
BankedReset.v
BankedResetStore.v
BankedResetRows.v
BankedResetLogic.v
BankedResetGuarantee.v
BankedResetAlone.v
BankedResetTheorems.v
BankedResetPool.v
BankedResetPoolTheorems.v
