(* ===== verification/Prelude.v ===== *)
(** * Verification of the ai.ubq.fi gateway core

    The program is a TypeScript gateway in front of AI providers.  Its own logic,
    as opposed to the HTTP surface and the provider adapters, decides who may send
    a request, who pays for it, and how both are recorded so that a crash, a
    retry or a second process neither loses a charge nor counts it twice.  This
    development models that logic and proves what it guarantees.

    ** The parts of the program and the files that model them

    - The portable authority: [src/authority/contracts.ts],
      [admission-state.ts], [delivery-outbox.ts].  One state value holds the
      accounts, principals, windows, admissions and attempts; each method of
      [PortableAuthority] is an action on it.  AuthorityContracts.v has the data
      and its helpers, AuthorityAdmission.v every method, AuthorityLedger.v and
      AuthorityRefinement.v the abstract ledger and the refinement to it,
      AuthoritySafety.v, AuthorityQuota.v and AuthorityProgress.v the lemmas.
    - Credential publication, [src/authority/credential-publication.ts]:
      CredentialPublication.v.
    - The durable store and its transactions, [src/authority/durable-store.ts]
      and [PortableAuthority._transact]: AuthorityStore.v has the validating
      guards, the row and the class [AuthorityStore] that the loop relies on;
      AuthorityTransact.v the compare-and-swap loops.
    - The key-value store under the adapters is the package [@deno/kv]:
      KvStore.v states its documented behaviour as the class [KvStoreOf] with an
      in-memory instance, and the monad [KvM] in which other clients act at
      every [await]; KvLogic.v is a small rely-guarantee logic for it.
    - Kernel quota: the decisions of [src/authority/native-kernel.ts] and its
      contracts are KernelQuota.v; the adapters of [src/kernel/quota-*.ts] are
      KernelStore.v; the in-process lease context of
      [src/kernel/quota-reservations.ts] is KernelLease.v.  KernelRows.v,
      KernelSafety.v and KernelGuarantee.v prove what every adapter call keeps.
    - Paid fallback: the plans of [src/authority/native-paid*.ts] are
      NativePaid.v; the ledger of [src/paid-fallback/] is PaidLedger.v.
      PaidSafety.v and PaidGuarantee.v prove what every adapter call keeps.
    - Codex pool routing, [src/authority/native-codex*.ts]: CodexContracts.v has
      the rows and their parsers, CodexCapacity.v one slot's quota classes, the
      normalization of a stored state and the capacity observations,
      CodexRouting.v the evaluation of an account and the serial admission,
      CodexMutations.v what a response, a probe or a refresh does to a slot;
      CodexSlots.v has the lemmas on class maps.  Codex429.v reads a 429
      response, [native-codex-429.ts], over JsonText.v (JSON text and the scan
      for repeated keys, with its lemmas in JsonScan.v), WebText.v (UTF-8 and
      the white space of [trim]) and HttpDate.v.
    - API-key usage quota: the policies and plans of
      [src/authority/native-api-key.ts] and [native-api-key-policy.ts] are
      ApiKeyUsage.v; the adapters of [src/api-key-policy.ts], with the
      reservation objects and the policy cache, are ApiKeyStore.v.
      ApiKeyRows.v, ApiKeySafety.v and ApiKeyGuarantee.v prove what every call
      keeps, ApiKeyAlone.v what a reservation answers without interference.
    - Codex banked resets, which spend an upstream credit to reopen an
      account's quota: the records, the policy and the checks of
      [src/codex/banked-reset.ts], [banked-reset-claim.ts] and
      [banked-reset-provider.ts] are BankedReset.v; the claim, submission,
      renewal, redemption and reconciliation of [banked-reset-claim.ts] and
      [banked-reset-submission.ts], with the settings of [reset-settings.ts],
      are BankedResetStore.v.  There a storage call may also throw, before or
      after it took effect.  BankedResetRows.v says how the rows may change,
      BankedResetLogic.v what one call may see of another,
      BankedResetGuarantee.v what every call keeps, BankedResetAlone.v what a
      call does without interference.  [banked-reset-pool.ts], which evaluates
      a blocked cohort of accounts, is BankedResetPool.v.
    - Finite admission in the process, [src/inference-admission.ts]:
      InferenceAdmission.v.
    - The optional telemetry queue, [src/optional-telemetry-queue.ts]:
      TelemetryQueue.v.
    - Responses streaming: [src/responses-stream.ts] is SseStream.v (the byte
      framer, the parser of an event block, the reading session) and SseRelay.v
      (the preflight, the proxy, the keepalive frames);
      [src/responses-failover-stream.ts] is ResponsesEvents.v (which events carry
      output or progress, the buffer before the commit, the events the gateway
      writes and rewrites) and ResponsesOwned.v (the stream the client reads,
      with [src/codex/responses-error.ts]).  WebText.v and JsonPrint.v have the
      text coding, the ordered objects and [JSON.stringify] they use, with the
      round trip of JSON in JsonRoundTrip.v; ResponsesSafety.v has the invariant.
    - Js.v has the JavaScript values and number parsing the normalizers of
      untyped rows use; this file the record updates, exceptions, sums over
      maps and tactics that all of them share.

    A request passes the parts in this order: the finite admission guard lets it
    in; the authority (or, on the older path, the kernel quota) admits it
    against its principal's quota; the Codex router picks the subscription; an
    attempt is reserved on it or, when the pool is exhausted, against the paid
    budget; it is dispatched once; what the provider streams is buffered until it carries
    output, then relayed to the client with at most one terminal event; what it
    reports settles the attempt, the reservation and the ledger.  Telemetry is
    recorded beside it.  When an account's quota is exhausted, a banked reset may
    reopen it.

    ** How the code is represented

    A pure function is a function, [throw] is [Err], a method on the authority
    state takes and returns it, adapter code runs in [KvM], and an object whose
    callbacks share variables (the lease context, the admission guard, the
    telemetry queue, the client's stream) is a record with one function per callback and an event
    per task or promise continuation.  Timers are tasks and continuations are
    microtasks.  Names follow the source; where a name is taken by Rocq or by
    another part, the definition says which function it is.  Amounts and clocks
    are [Z] with the code's safe-integer guards; JSON numbers are exact
    rationals or the non-finite values; [performance.now] is a rational.  A
    class map of a Codex slot is an association list in insertion order, as
    [Object.keys] sees it; where the code compares slots by identity,
    normalization also returns which stored slot each result is.  Used
    percentages are exact rationals, so a headroom is the exact difference.

    Two history variables, which no code reads, tie what a theorem says of a
    run to the run: [kv_log] of a store has the entries before and after every
    commit (KvStore.v), and [w_trace] of a call for banked resets what the call
    itself read, committed, asked its providers and redeemed, in order
    (BankedResetStore.v).

    ** The theorems

    - AuthorityTheorems.v (C1 to C5, C7, C9, C13 to C15): the counters of every window are the sums
      of its admissions in every reachable state; quotas and the paid budget
      hold; no operation meets a missing window; an attempt is dispatched once;
      a transaction that returns a value is one swap of the store;
      observations can be replayed; evidence is final; account selection and
      the fences; an admission that was not dispatched can be cancelled;
      publications only move forward; the compare-and-swap loop is linearizable
      and lock-free; the store reads back what it wrote.
    - KernelTheorems.v (C18, C19): under any interleaving with clients that
      keep the same rely, aggregates count their rows, the commit of a
      reservation finds room within the limit, a policy change keeps reservations, settlement happens
      once and terminates, rows round-trip, corrupt policies fail closed.
    - KernelLeaseTheorems.v (C37): what the lease context reports as
      settled is in the store, an intent is never lost, retries recover.
    - PaidTheorems.v and PaidUsage.v (C25, C26, C34): the
      reserved amount of every window is what its requests hold, an admission
      under a limit is committed within the budget and one without a limit
      reserves nothing, billing is final, admission and settlement are
      idempotent, rollups are exact sums, each request is counted once, and a
      key is deleted only when nothing is outstanding.
    - CodexNormalization.v, CodexTheorems.v (C32) and
      CodexAdmission.v (C36): a circuit follows its account through a reorder and
      normalization is idempotent; a half-open probe excludes others; a 429
      fences its own quota class and shortens no fence; the serial admission
      implements [serial_spec] and reports an exhausted cohort exactly when every
      account is, and the account it admits passes the dispatch
      fence of the row it leaves.
    - Codex429.v (C10): a reset is believed exactly when an unambiguous
      body states it, and a Retry-After header is read exactly, dates included.
    - ApiKeyTheorems.v (C6, C22, C23, C31, C38): the counters of a key are its
      requests under any interleaving, the commit of a new reservation finds
      room within the limit under a policy in force, a request is dispatched once, rows keep their types, and a reservation
      answers exactly by the live usage.  ApiKeyCache.v bounds the age of a
      cached policy where it is bounded.
    - SseFraming.v (C11), SseRoundTrip.v (C12) and SseKeepalive.v (C39): the
      events read do not depend on how the bytes were cut and are those of the
      stream cut at its empty lines; what the gateway writes is read back;
      keepalives are invisible and lose nothing, a proxy passes on every event.
    - ResponsesTheorems.v (C8, C16, C17, C20, C28): the buffer before the commit
      holds exactly the undecided events within its limits; of the events that
      are enqueued ([os_delivered], events and not bytes) at most one is terminal and none follows it, whatever cancels or aborts;
      a stream that is read ends; an empty completion is not passed off as an
      answer; the numbers of a rewritten stream are consecutive.
    - BankedResetTheorems.v (C21, C29, C35): a credit is redeemed at most once
      per quota window and per account and day, after the one commit of the call
      that uses both, which is pinned in its trace; every call moves the records forward only, under its own tokens, and a
      reconciliation redeems nothing; without interference and faults, in the
      half minute of a lease, the credit is redeemed exactly once and the record
      ends verified.
    - BankedResetPoolTheorems.v (C27): a blocked cohort redeems one credit at
      most, an earliest of those that the inventories in its trace offer, while
      every fence of every account of the cohort is current.
    - InferenceFairness.v (C24, C30): bounds, work conservation, no lost
      request, and bounded overtaking.
    - TelemetrySafety.v (C33, C40): charges are exact and bounded, entries are
      conserved, shutdown neither hangs nor writes after giving up.

    ** Bounds and fuel

    Retry loops run exactly as often as the source's constants say: eight
    compare-and-swap attempts, [MAX_KV_RETRIES], [MAX_CAS_ATTEMPTS], and the
    settlement attempts of the kernel quota.  [admitLoop] gets one turn per waiter and per turn of the
    list and [dispatchLoop] one per queued entry; the proofs show that both end
    before the fuel does.  Reading JSON text takes two units of fuel per
    character and two more, and [json_fuel] and [scan_ends] show that this is
    enough; the depth of the JavaScript stack is not modelled, and the body is
    bounded at 64 KiB before it is read.  An event of a stream is bounded at
    [MAX_RESPONSES_SSE_EVENT_BYTES] by the code.  The digits of a printed number
    have the fuel of its size.  Deletions run in the source's batches over a finite
    key list.

    ** Assumptions

    Other clients of a store are any clients that keep the stated rely
    ([evolves], [ledger_evolves], [row_final], [usage_evolves], [reset_rely]).
    The modelled adapter calls are proved to keep it, with these provisos: a
    kernel reservation keeps [evolves] when its time is safe and its window runs
    or is a new one ([clock_ok]), and [setPolicy] when the window it begins is a
    new one ([fresh]); [row_final] is about one
    row, the reservation of the lease context; a call of the paid ledger meets
    [call_ok]; and [usage_evolves] and [ledger_evolves] exclude the deletion and
    the expiry of a key's rows, so that "any later store" in the theorems on
    them is any store without these.  Calls for banked resets have different
    owner tokens, which the code draws from [crypto.randomUUID].  A listing is
    read at one point.  Entries do not expire while they are used.  A JavaScript
    object used as a map is a finite map, so no key of it is the text
    [__proto__], which in JavaScript sets the prototype and no own property.
    Sums of a usage rollup, which the code adds as numbers without a guard, are
    exact.  The telemetry writer does not call back into
    the queue before it returns its promise.  The accounts of a Codex pool are
    distinct and named by the digests the parser of the active row accepts, and
    generations stay below the largest safe integer.  The deadlines of a stream
    are endings of a read that the environment may choose at any point; the
    callbacks of a stream do not call back into it.

    ** Not modelled

    The in-process locks of [withKernelQuotaLock] and [withApiKeyUsageWindowLock]
    (any interleaving of the store calls is covered instead); the sweep cursors around the backfill of one row
    and its queue; reconciliation against the providers; the admin listings and
    projections, which only read; the SQL adapters of [native-authority]; key
    hashing; how the bytes of a 429 body are streamed and
    the adapters that commit the router's plans; the chain of abort signals
    around a proxied stream.  The HTTP surface,
    the providers, the translation between their protocols, the front end, the compaction library
    and the tools are I/O, rendering, or code without shared state of its own.
    Of the banked resets: the listing of shadow decisions, the manual control,
    the upstream HTTP adapter and telemetry.  The API-key
    administration, the adapters of [native-authority-codex.ts], the backfill
    sweep and reconciliation remain to be modelled over [KvM] in the same way. *)

From stdpp Require Import base gmap strings list list_numbers fin_maps pretty.
From Stdlib Require Import ZArith Lia.

Declare Scope gateway_scope.
Delimit Scope gateway_scope with gateway.
Open Scope Z_scope.

(** ** Record updates

    TypeScript's [{ ...record, field: value }] and in-place assignment both
    become [record <| field := value |>]. *)

Class Eta (R : Type) := eta_expand : R -> R.

Class Setter {R E : Type} (getter : R -> E) := setter : forall (f : E -> E) (record : R), R.

Definition set_field {R E : Type} (getter : R -> E) {S : Setter getter}
    (value : E) (record : R) : R := setter (fun _ => value) record.
Arguments set_field {R E} getter {S} value record /.
Arguments setter {R E getter} {_} f record /.

(** [make_setter g] abstracts the projection [g] out of the eta expansion of
    its record, which leaves the setter of that one field. *)
Ltac make_setter getter :=
  lazymatch type of getter with
  | ?R -> ?E =>
      let expansion := constr:(_ : Eta R) in
      let expansion := eval hnf in expansion in
      let abstracted := eval pattern getter in expansion in
      lazymatch abstracted with
      | ?context_of _ =>
          let body := constr:(fun (f : E -> E) (r : R) => context_of (fun x => f (getter x)) r) in
          let body := eval cbv beta in body in
          exact body
      end
  end.

#[export] Hint Extern 1 (Setter ?getter) => make_setter getter : typeclass_instances.

Notation "r <| f := v |>" := (set_field f v r)
  (at level 12, f constr at level 0, v constr at level 99, left associativity,
   format "r  <|  f  :=  v  |>") : gateway_scope.
Open Scope gateway_scope.

(** ** Exceptions

    A call that may throw returns [Result E A]. *)

Inductive Result (E A : Type) : Type :=
| Err (e : E)
| Ok (a : A).
Arguments Err {E A} e.
Arguments Ok {E A} a.

#[export] Instance result_ret {E} : MRet (Result E) := fun _ a => Ok a.
#[export] Instance result_bind {E} : MBind (Result E) := fun _ _ k m =>
  match m with Ok a => k a | Err e => Err e end.

Definition is_ok {E A} (m : Result E A) : bool :=
  match m with Ok _ => true | Err _ => false end.

(** [throw_if b e]: the guard [if (b) throw e]. *)
Definition throw_if {E} (b : bool) (e : E) : Result E unit :=
  if b then Err e else Ok tt.

(** [or_throw o e]: a lookup whose absence throws. *)
Definition or_throw {E A} (o : option A) (e : E) : Result E A :=
  match o with Some a => Ok a | None => Err e end.

Lemma bind_ok {E A B} (m : Result E A) (k : A -> Result E B) b :
  (m ≫= k) = Ok b <-> exists a, m = Ok a /\ k a = Ok b.
Proof. destruct m; naive_solver. Qed.

Lemma throw_if_ok {E} b (e : E) u : throw_if b e = Ok u <-> b = false.
Proof. destruct b, u; naive_solver. Qed.

Lemma or_throw_ok {E A} (o : option A) (e : E) a : or_throw o e = Ok a <-> o = Some a.
Proof. destruct o; naive_solver. Qed.

(** [inv_ok] turns a successful run [_ = Ok _] in the context into the facts
    its guards established. *)
Ltac inv_ok_step :=
  match goal with
  | H : (_ ≫= _) = Ok _ |- _ =>
      apply bind_ok in H as (? & ? & ?)
  | H : throw_if _ _ = Ok _ |- _ => apply throw_if_ok in H
  | H : or_throw _ _ = Ok _ |- _ => apply or_throw_ok in H
  | H : Ok _ = Ok _ |- _ => injection H as H; try subst
  | H : Err _ = Ok _ |- _ => discriminate H
  | H : false = true |- _ => discriminate H
  | H : true = false |- _ => discriminate H
  | H : mret _ = Ok _ |- _ => injection H as H; try subst
  | H : (if negb true then _ else _) = Ok _ |- _ => cbn [negb] in H
  | H : (if negb false then _ else _) = Ok _ |- _ => cbn [negb] in H
  | H : (if true then _ else _) = Ok _ |- _ => cbv iota in H
  | H : (if false then _ else _) = Ok _ |- _ => cbv iota in H
  | x : unit |- _ => destruct x
  | H : (let '(_, _) := ?x in _) = Ok _ |- _ => destruct x
  | H : (_, _) = (_, _) |- _ => injection H as H; try subst
  | H : (_ || _)%bool = false |- _ => apply orb_false_iff in H as [? ?]
  | H : (_ && _)%bool = true |- _ => apply andb_true_iff in H as [? ?]
  | H : negb _ = false |- _ => apply negb_false_iff in H
  | H : negb _ = true |- _ => apply negb_true_iff in H
  | H : bool_decide _ = true |- _ => apply bool_decide_eq_true in H
  | H : bool_decide _ = false |- _ => apply bool_decide_eq_false in H
  end.
Ltac inv_ok := repeat inv_ok_step.

(** ** Safe integers *)

Definition MAX_SAFE_INTEGER : Z := 2 ^ 53 - 1.
Definition isSafeInteger (z : Z) : bool :=
  (- MAX_SAFE_INTEGER <=? z) && (z <=? MAX_SAFE_INTEGER).

Lemma isSafeInteger_spec z :
  isSafeInteger z = true <-> - MAX_SAFE_INTEGER <= z <= MAX_SAFE_INTEGER.
Proof. unfold isSafeInteger. lia. Qed.

Lemma bool_decide_Some {A} `{EqDecision A} (a b : A) :
  bool_decide (Some a = Some b) = bool_decide (a = b).
Proof. apply bool_decide_ext. split; congruence. Qed.

Definition b2z (b : bool) : Z := if b then 1 else 0.

Lemma b2z_le_1 b : b2z b <= 1.
Proof. destruct b; cbn; lia. Qed.

Lemma b2z_nonneg b : 0 <= b2z b.
Proof. destruct b; cbn; lia. Qed.

(** ** Arrays *)

(** [array.splice(array.indexOf(x), 1)], nothing if it is absent. *)
Fixpoint remove_first {A} (p : A -> bool) (l : list A) : list A :=
  match l with [] => [] | a :: l => if p a then l else a :: remove_first p l end.

(** ** Objects used as maps

    [Record<string, T>] is [gmap string T].  [Object.values] is only used
    under [some], [every], [filter(...).length] and on singletons, so the order
    in which it lists the values is immaterial. *)

Definition obj_values {K A} `{Countable K} (m : gmap K A) : list A := (map_to_list m).*2.

Definition obj_some {K A} `{Countable K} (p : A -> bool) (m : gmap K A) : bool :=
  existsb p (obj_values m).

Definition obj_count {K A} `{Countable K} (p : A -> bool) (m : gmap K A) : Z :=
  Z.of_nat (length (List.filter p (obj_values m))).

(** Weighted sums over a map, the specification side of every counter. *)
Definition msum {K A} `{Countable K} (f : A -> Z) (m : gmap K A) : Z :=
  map_fold (fun _ a acc => f a + acc) 0 m.

Section msum.
Context {K A : Type} `{Countable K}.
Implicit Types (m : gmap K A) (f g : A -> Z).

Lemma msum_empty f : msum f (∅ : gmap K A) = 0.
Proof. apply map_fold_empty. Qed.

Lemma msum_insert_None f m i a :
  m !! i = None -> msum f (<[i := a]> m) = f a + msum f m.
Proof.
  intros Hi. unfold msum. rewrite map_fold_insert_L; [done | | done]. intros; lia.
Qed.

Lemma msum_delete f m i a :
  m !! i = Some a -> msum f m = f a + msum f (delete i m).
Proof.
  intros Hi. rewrite <- (insert_delete_id m i a Hi) at 1.
  apply msum_insert_None, lookup_delete_eq.
Qed.

(** Replacing an entry moves the sum by the difference of the weights. *)
Lemma msum_insert_Some f m i a b :
  m !! i = Some a -> msum f (<[i := b]> m) = msum f m - f a + f b.
Proof.
  intros Hi. rewrite (msum_delete f m i a Hi), <- insert_delete_eq.
  rewrite msum_insert_None by apply lookup_delete_eq. lia.
Qed.

Lemma msum_ext f g m :
  (forall i a, m !! i = Some a -> f a = g a) -> msum f m = msum g m.
Proof.
  induction m as [|i a m Hi IH] using map_ind; intros Hfg.
  - by rewrite !msum_empty.
  - rewrite !msum_insert_None by done.
    rewrite (Hfg i a) by apply lookup_insert_eq. f_equal. apply IH.
    intros j b Hj. apply (Hfg j). rewrite lookup_insert_ne; congruence.
Qed.

Lemma msum_nonneg f m :
  (forall i a, m !! i = Some a -> 0 <= f a) -> 0 <= msum f m.
Proof.
  induction m as [|i a m Hi IH] using map_ind; intros Hf.
  - by rewrite msum_empty.
  - rewrite msum_insert_None by done.
    pose proof (Hf i a (lookup_insert_eq _ _ _)).
    enough (0 <= msum f m) by lia. apply IH.
    intros j b Hj. apply (Hf j). rewrite lookup_insert_ne; congruence.
Qed.

Lemma msum_le f g m :
  (forall i a, m !! i = Some a -> f a <= g a) -> msum f m <= msum g m.
Proof.
  induction m as [|i a m Hi IH] using map_ind; intros Hfg.
  - by rewrite !msum_empty.
  - rewrite !msum_insert_None by done.
    pose proof (Hfg i a (lookup_insert_eq _ _ _)).
    enough (msum f m <= msum g m) by lia. apply IH.
    intros j b Hj. apply (Hfg j). rewrite lookup_insert_ne; congruence.
Qed.

Lemma msum_zero m : msum (fun _ : A => 0) m = 0.
Proof.
  induction m as [|i a m Hi IH] using map_ind; [by rewrite msum_empty|].
  rewrite msum_insert_None by done. lia.
Qed.

Lemma msum_fmap {B} (h : B -> A) f (m : gmap K B) : msum f (h <$> m) = msum (fun b => f (h b)) m.
Proof. unfold msum. rewrite map_fold_fmap. done. Qed.

Lemma obj_values_Permutation_insert m i a :
  m !! i = None -> obj_values (<[i := a]> m) ≡ₚ a :: obj_values m.
Proof. intros Hi. unfold obj_values. by rewrite map_to_list_insert. Qed.

Lemma elem_of_obj_values m a : a ∈ obj_values m <-> exists i, m !! i = Some a.
Proof.
  unfold obj_values. rewrite list_elem_of_fmap. split.
  - intros ([i b] & -> & Hin%elem_of_map_to_list). eauto.
  - intros (i & Hi). exists (i, a). by rewrite elem_of_map_to_list.
Qed.

(** [Object.values(m).filter(p).length] is the sum of indicators. *)
Lemma obj_count_msum (p : A -> bool) m : obj_count p m = msum (fun a => b2z (p a)) m.
Proof.
  unfold obj_count. induction m as [|i a m Hi IH] using map_ind.
  - by rewrite msum_empty.
  - rewrite msum_insert_None by done. rewrite <- IH.
    assert (forall l k : list A, l ≡ₚ k ->
              length (List.filter p l) = length (List.filter p k)) as Hperm.
    { induction 1; cbn; repeat case_match; cbn; congruence. }
    rewrite (Hperm _ _ (obj_values_Permutation_insert m i a Hi)). cbn.
    destruct (p a); cbn; lia.
Qed.

Lemma obj_some_spec (p : A -> bool) m :
  obj_some p m = true <-> exists i a, m !! i = Some a /\ p a = true.
Proof.
  unfold obj_some. rewrite existsb_exists. split.
  - intros (a & Hin%list_elem_of_In & Hp). apply elem_of_obj_values in Hin as [i Hi]. eauto.
  - intros (i & a & Hi & Hp). exists a. split; [|done].
    apply list_elem_of_In, elem_of_obj_values. eauto.
Qed.

Lemma obj_some_false (p : A -> bool) m :
  obj_some p m = false <-> forall i a, m !! i = Some a -> p a = false.
Proof.
  split.
  - intros Hf i a Hi. destruct (p a) eqn:Hp; [|done].
    assert (obj_some p m = true) by (apply obj_some_spec; eauto). congruence.
  - intros Hall. destruct (obj_some p m) eqn:E; [|done].
    apply obj_some_spec in E as (i & a & Hi & Hp). rewrite (Hall i a Hi) in Hp. done.
Qed.
End msum.

Create HintDb gateway.
#[export] Hint Resolve b2z_nonneg msum_nonneg : gateway.
Create Rewrite HintDb gateway_rw.
#[export] Hint Rewrite @msum_empty : gateway_rw.
