(* ===== verification/Js.v ===== *)
(** * JavaScript values

    The values the gateway's normalizers receive as [unknown]: numbers are
    IEEE doubles, of which the finite ones are exact rationals ([-0] is not
    told apart from [0]); strings are sequences of code units (those up to
    0xFF); an object is the list of its own enumerable properties in order,
    with distinct keys. *)

From stdpp Require Import base strings list.
From Stdlib Require Import ZArith QArith Qround Lia Ascii.
From S2P Require Import Prelude.
Open Scope Z_scope.

Inductive number :=
| NaN
| Infinity (negative : bool)
| Fin (q : Q).

Inductive jsval :=
| JUndefined
| JNull
| JBool (b : bool)
| JNum (n : number)
| JStr (s : string)
| JArr (items : list jsval)
| JObj (fields : list (string * jsval)).

(** ** Numbers *)

Definition num_of_Z (z : Z) : number := Fin (inject_Z z).

Definition isFinite (n : number) : bool :=
  match n with Fin _ => true | _ => false end.

(** [Math.trunc] of a finite number. *)
Definition trunc (q : Q) : Z := Z.quot (Qnum q) (Zpos (Qden q)).

Definition is_integer (q : Q) : bool := Qnum q mod Zpos (Qden q) =? 0.

(** The integer a number is, when it is a safe one: [Number.isSafeInteger]
    together with the value it admits. *)
Definition safe_integer (n : number) : option Z :=
  match n with
  | Fin q => if is_integer q && isSafeInteger (trunc q) then Some (trunc q) else None
  | _ => None
  end.

(** Strict equality with an integer constant. *)
Definition num_eqb_Z (n : number) (z : Z) : bool :=
  match n with Fin q => Qnum q =? z * Zpos (Qden q) | _ => false end.

Lemma trunc_Z z : trunc (inject_Z z) = z.
Proof. unfold trunc, inject_Z. cbn. apply Z.quot_1_r. Qed.

Lemma is_integer_Z z : is_integer (inject_Z z) = true.
Proof. unfold is_integer, inject_Z. cbn. by rewrite Z.mod_1_r. Qed.

Lemma safe_integer_of_Z z : isSafeInteger z = true -> safe_integer (num_of_Z z) = Some z.
Proof. intros Hz. unfold safe_integer, num_of_Z. by rewrite is_integer_Z, trunc_Z, Hz. Qed.

Lemma safe_integer_range n z : safe_integer n = Some z -> isSafeInteger z = true.
Proof.
  unfold safe_integer. destruct n; try done.
  destruct (is_integer q && isSafeInteger (trunc q)) eqn:E; [|done].
  intros [= <-]. by apply andb_true_iff in E as [_ ?].
Qed.

Lemma num_eqb_Z_spec z w : num_eqb_Z (num_of_Z z) w = (z =? w).
Proof. unfold num_eqb_Z, num_of_Z, inject_Z. cbn. by rewrite Z.mul_1_r. Qed.

(** ** Rounding to a double

    The nearest double of an exact rational, ties to even, subnormals and
    overflow included: the result of one arithmetic operation, or of reading a
    decimal literal. *)

Definition pow2 (e : Z) : Z := 2 ^ e.

(** The quotient [n / d] rounded to an integer, ties to even. *)
Definition round_half_even (n d : Z) : Z :=
  let f := n / d in
  let r := n - f * d in
  if 2 * r <? d then f
  else if d <? 2 * r then f + 1
  else if Z.even f then f else f + 1.

(** The exponent of the unit in the last place of a positive [n / d]. *)
Definition ulp_exponent (n d : Z) : Z :=
  let guess := Z.log2 n - Z.log2 d in
  let e := if n * pow2 (Z.max 0 (- guess)) <? d * pow2 (Z.max 0 guess) then guess - 1 else guess in
  Z.max (e - 52) (- 1074).

Definition round_positive (n d : Z) : number :=
  let e := ulp_exponent n d in
  let m := round_half_even (n * pow2 (Z.max 0 (- e))) (d * pow2 (Z.max 0 e)) in
  if pow2 1024 <=? m * pow2 (Z.max 0 e) then Infinity false
  else Fin (Qmake (m * pow2 (Z.max 0 e)) (Z.to_pos (pow2 (Z.max 0 (- e))))).

Definition neg (n : number) : number :=
  match n with NaN => NaN | Infinity b => Infinity (negb b) | Fin q => Fin (Qopp q) end.

Definition round64 (q : Q) : number :=
  match Qnum q with
  | Z0 => Fin 0
  | Zpos p => round_positive (Zpos p) (Zpos (Qden q))
  | Zneg p => neg (round_positive (Zpos p) (Zpos (Qden q)))
  end.

(** ** Arithmetic

    One operation on doubles: the exact result, rounded.  ([-0] is [0]: a
    quotient by zero takes the sign of the dividend.) *)

Definition negative (n : number) : bool :=
  match n with NaN => false | Infinity b => b | Fin q => Qnum q <? 0 end.
Definition is_zero (n : number) : bool :=
  match n with Fin q => Qnum q =? 0 | _ => false end.

Definition num_add (a b : number) : number :=
  match a, b with
  | NaN, _ | _, NaN => NaN
  | Infinity x, Infinity y => if Bool.eqb x y then Infinity x else NaN
  | Infinity x, Fin _ | Fin _, Infinity x => Infinity x
  | Fin p, Fin q => round64 (p + q)
  end.

Definition num_mul (a b : number) : number :=
  match a, b with
  | NaN, _ | _, NaN => NaN
  | Fin p, Fin q => round64 (p * q)
  | _, _ => if is_zero a || is_zero b then NaN else Infinity (xorb (negative a) (negative b))
  end.

Definition num_div (a b : number) : number :=
  match a, b with
  | NaN, _ | _, NaN => NaN
  | Infinity _, Infinity _ => NaN
  | Infinity x, Fin _ => Infinity (xorb x (negative b))
  | Fin _, Infinity _ => Fin 0
  | Fin p, Fin q =>
      if Qnum q =? 0 then (if Qnum p =? 0 then NaN else Infinity (Qnum p <? 0)) else round64 (p / q)
  end.

(** [Math.round]: the nearest integer, a tie towards positive infinity. *)
Definition math_round (n : number) : number :=
  match n with Fin q => num_of_Z (Qfloor (q + (1 # 2))) | _ => n end.

(** [n >= 0]. *)
Definition nonneg (n : number) : bool :=
  match n with NaN => false | _ => negb (negative n) end.

(** ** 32-bit integers *)

Definition to_uint32 (z : Z) : Z := z mod 2 ^ 32.
Definition to_int32 (z : Z) : Z :=
  let u := to_uint32 z in if 2 ^ 31 <=? u then u - 2 ^ 32 else u.
(** [Math.imul] *)
Definition imul (a b : Z) : Z := to_int32 (to_int32 a * to_int32 b).

Lemma to_int32_mod z : to_int32 z mod 2 ^ 32 = z mod 2 ^ 32.
Proof.
  unfold to_int32, to_uint32. destruct (2 ^ 31 <=? _); [|by rewrite Z.mod_mod by lia].
  rewrite <- (Z.mod_add _ 1) by lia. rewrite Z.mul_1_l, Z.sub_add. by rewrite Z.mod_mod by lia.
Qed.

(** ** Strings *)

Fixpoint string_of_list (l : list ascii) : string :=
  match l with [] => EmptyString | c :: r => String c (string_of_list r) end.

Fixpoint list_of_string (s : string) : list ascii :=
  match s with EmptyString => [] | String c r => c :: list_of_string r end.

Definition code_unit (c : ascii) : Z := Z.of_nat (nat_of_ascii c).

(** White space and line terminators among the code units. *)
Definition is_white (c : ascii) : bool :=
  let n := code_unit c in
  ((9 <=? n) && (n <=? 13)) || (n =? 32) || (n =? 160).

Fixpoint drop_white (l : list ascii) : list ascii :=
  match l with c :: r => if is_white c then drop_white r else l | [] => [] end.

Definition trim (s : string) : string :=
  string_of_list (rev (drop_white (rev (drop_white (list_of_string s))))).

(** [s.slice(0, n)]. *)
Definition slice0 (s : string) (n : nat) : string := string_of_list (take n (list_of_string s)).

Definition empty (s : string) : bool := bool_decide (s = EmptyString).

Definition str_length (s : string) : Z := Z.of_nat (length (list_of_string s)).

(** ** [Number(string)] *)

Definition digit_in (radix : Z) (c : ascii) : option Z :=
  let n := code_unit c in
  let v := if (48 <=? n) && (n <=? 57) then n - 48
           else if (97 <=? n) && (n <=? 122) then n - 87
           else if (65 <=? n) && (n <=? 90) then n - 55 else radix in
  if v <? radix then Some v else None.

(** The digits at the front of the input: value, count, rest. *)
Fixpoint scan_digits (radix acc : Z) (count : nat) (l : list ascii) : Z * nat * list ascii :=
  match l with
  | c :: r => match digit_in radix c with
              | Some v => scan_digits radix (radix * acc + v) (S count) r
              | None => (acc, count, l)
              end
  | [] => (acc, count, [])
  end.

Definition scan_sign (l : list ascii) : bool * list ascii :=
  match l with
  | c :: r => if code_unit c =? 45 then (true, r) else if code_unit c =? 43 then (false, r) else (false, l)
  | [] => (false, [])
  end.

(** The exponent part; [None] when it is malformed. *)
Definition scan_exponent (l : list ascii) : option (Z * list ascii) :=
  match l with
  | c :: r =>
      if (code_unit c =? 101) || (code_unit c =? 69) then
        let '(negative, r) := scan_sign r in
        let '(v, count, rest) := scan_digits 10 0 0 r in
        match count with O => None | _ => Some ((if negative then - v else v), rest) end
      else Some (0, l)
  | [] => Some (0, [])
  end.

(** [digits * 10^exponent] as a double. *)
Definition decimal_value (digits exponent : Z) : number :=
  if 0 <=? exponent then round64 (inject_Z (digits * 10 ^ exponent))
  else round64 (Qmake digits (Z.to_pos (10 ^ (- exponent)))).

Definition unsigned_decimal (l : list ascii) : number :=
  if bool_decide (string_of_list l = "Infinity"%string) then Infinity false else
  let '(int, n_int, rest) := scan_digits 10 0 0 l in
  let '(mant, n_frac, rest) :=
    match rest with
    | c :: r => if code_unit c =? 46 then scan_digits 10 int 0 r else (int, O, rest)
    | [] => (int, O, [])
    end in
  match (n_int + n_frac)%nat with
  | O => NaN
  | _ => match scan_exponent rest with
         | Some (e, []) => decimal_value mant (e - Z.of_nat n_frac)
         | _ => NaN
         end
  end.

Definition radix_literal (radix : Z) (l : list ascii) : number :=
  match scan_digits radix 0 0 l with
  | (v, S _, []) => round64 (inject_Z v)
  | _ => NaN
  end.

Definition number_of_string (s : string) : number :=
  match list_of_string (trim s) with
  | [] => num_of_Z 0
  | z :: x :: r =>
      let l := z :: x :: r in
      if code_unit z =? 48 then
        let n := code_unit x in
        if (n =? 120) || (n =? 88) then radix_literal 16 r
        else if (n =? 111) || (n =? 79) then radix_literal 8 r
        else if (n =? 98) || (n =? 66) then radix_literal 2 r
        else unsigned_decimal l
      else let '(negative, rest) := scan_sign l in
           if negative then neg (unsigned_decimal rest) else unsigned_decimal rest
  | l => unsigned_decimal l
  end.

Example number_of_string_1 :
  match number_of_string " 12.50 " with Fin q => Qeq_bool q (25 # 2) | _ => false end = true.
Proof. vm_compute. reflexivity. Qed.
Example number_of_string_2 : number_of_string "0x1F" = number_of_string "31".
Proof. vm_compute. reflexivity. Qed.
Example number_of_string_3 : number_of_string "-" = NaN /\ number_of_string "1e999" = Infinity false.
Proof. vm_compute. done. Qed.

(** ** Objects *)

Fixpoint assoc {A} (k : string) (l : list (string * A)) : option A :=
  match l with
  | [] => None
  | (k', v) :: r => if String.eqb k k' then Some v else assoc k r
  end.

(** [isRecord] of [src/utils.ts]: arrays are records, [null] is not. *)
Definition isRecord (v : jsval) : bool :=
  match v with JObj _ | JArr _ => true | _ => false end.

(** [value.key] on a record. *)
Definition prop (v : jsval) (k : string) : jsval :=
  match v with JObj fs => default JUndefined (assoc k fs) | _ => JUndefined end.

Definition hasOwn (v : jsval) (k : string) : bool :=
  match v with JObj fs => match assoc k fs with Some _ => true | None => false end | _ => false end.

(** [value === literal]. *)
Definition is_str (v : jsval) (s : string) : bool :=
  match v with JStr t => bool_decide (t = s) | _ => false end.
Definition is_int (v : jsval) (z : Z) : bool :=
  match v with JNum n => num_eqb_Z n z | _ => false end.
Definition is_null (v : jsval) : bool := match v with JNull => true | _ => false end.
Definition is_undefined (v : jsval) : bool := match v with JUndefined => true | _ => false end.

(** A safe integer of at least [min], as a number the code goes on to use. *)
Definition safe_at_least (min : Z) (v : jsval) : option Z :=
  match v with
  | JNum n => z ← safe_integer n; if min <=? z then Some z else None
  | _ => None
  end.

Definition nonNegativeSafeInteger : jsval -> option Z := safe_at_least 0.
Definition positiveSafeInteger : jsval -> option Z := safe_at_least 1.

Definition jint (z : Z) : jsval := JNum (num_of_Z z).

#[global] Arguments safe_at_least : simpl never.
#[global] Arguments jint : simpl never.
#[global] Arguments nonNegativeSafeInteger : simpl never.
#[global] Arguments positiveSafeInteger : simpl never.

Lemma safe_at_least_jint min z :
  safe_at_least min (jint z) = Some z <-> isSafeInteger z = true /\ min <= z.
Proof.
  unfold safe_at_least, jint. split.
  - destruct (isSafeInteger z) eqn:Hz.
    + rewrite (safe_integer_of_Z z Hz). cbn. case_match; [|done]. intros _. lia.
    + unfold safe_integer, num_of_Z. by rewrite is_integer_Z, trunc_Z, Hz.
  - intros [Hz Hmin]. rewrite (safe_integer_of_Z z Hz). cbn.
    by rewrite (proj2 (Z.leb_le _ _) Hmin).
Qed.

Lemma safe_at_least_range min v z :
  safe_at_least min v = Some z -> isSafeInteger z = true /\ min <= z.
Proof.
  unfold safe_at_least. destruct v; try done.
  destruct (safe_integer n) as [y|] eqn:E; cbn; [|done].
  case_match; [|done]. intros [= <-]. split; [by eapply safe_integer_range|lia].
Qed.

Lemma is_int_jint z w : is_int (jint z) w = (z =? w).
Proof. apply num_eqb_Z_spec. Qed.

Lemma is_str_spec s t : is_str (JStr s) t = true <-> s = t.
Proof. apply bool_decide_eq_true. Qed.

Lemma safe_at_least_jint_inv min z y : safe_at_least min (jint z) = Some y -> y = z.
Proof.
  intros H. unfold safe_at_least, jint, safe_integer, num_of_Z in H.
  rewrite is_integer_Z, trunc_Z in H. destruct (isSafeInteger z); cbn in H; [|done].
  destruct (min <=? z); congruence.
Qed.

Lemma safe_at_least_jint_ok min z :
  isSafeInteger z = true -> min <= z -> safe_at_least min (jint z) = Some z.
Proof. intros. by apply safe_at_least_jint. Qed.
