(* ===== verification/AuthorityContracts.v ===== *)
(** * Contracts of the portable authority

    The types and helpers of [src/authority/contracts.ts].  A JavaScript
    number that the code treats as an amount, a version, a generation or a
    millisecond clock is a [Z]; a number that is not a safe integer fails
    [assertAmount] and the storage guard alike.  [sameEvidence] compares
    [JSON.stringify] images, which is structural equality on values of one
    declared shape; [windowKey], the string [JSON.stringify([principalId,
    resetAtMs])], is kept as the pair that it encodes injectively.  A record
    used as a map ([admissions], [attempts], [publications] and the like) is a
    finite map: the one key on which the two differ, [__proto__], is excluded. *)

From stdpp Require Import base gmap strings list.
From Stdlib Require Import ZArith Lia.
From S2P Require Import Prelude.
Open Scope Z_scope.

Record AuthorityScope := mkScope { namespace : string; epoch : Z }.

Inductive GatewayRoute := RouteResponses | RouteChatCompletions.
Inductive DispatchProvider := Codex | Surplus | Openlux.
Inductive DeliveryOutcome := Delivered | Interrupted | Unobserved.
Inductive SemanticTerminal := Completed | Incomplete | Failed | Cancelled.
Inductive ProofKind := QuotaExhausted | CredentialInvalid | Transient.
Inductive FallbackKind := FallbackQuotaExhausted | FallbackCapacityExhausted.
Inductive AttemptState := Reserved | DispatchIntent | Dispatched | NotDispatched.

Record AccountProof := mkProof {
  kind : ProofKind;
  proof_model : string;
  proof_fingerprint : string;
  observedAtMs : Z;
  validUntilMs : Z }.

Record AccountBinding := mkBinding {
  accountId : string;
  fingerprint : string;
  credentialGeneration : Z;
  routingGeneration : Z;
  resetGeneration : Z;
  overageVersion : Z;
  overageEnabled : bool;
  enabled : bool;
  models : list string;
  proof : option AccountProof }.

Record ActiveAccount := mkActive {
  active_accountId : string;
  active_fingerprint : string;
  generation : Z }.

Record PrincipalPolicy := mkPolicy {
  policy_principalId : string;
  version : Z;
  deleted : bool;
  windowResetAtMs : Z;
  requestLimit : Z;
  kernelLimit : Z;
  concurrencyLimit : Z;
  paidLimitMicrocredits : Z }.

Record PrincipalWindow := mkWindow {
  reserved : Z;
  dispatched : Z;
  kernelReserved : Z;
  kernelCompleted : Z;
  active : Z;
  paidReservedMicrocredits : Z;
  paidSettledMicrocredits : Z }.

Record AdmissionHandle := mkHandle {
  handle_scope : AuthorityScope;
  requestId : string;
  fence : Z }.

Record AttemptInput := mkAttemptInput {
  attemptId : string;
  provider : DispatchProvider;
  maximumExposureMicrocredits : Z;
  input_account : option AccountBinding }.

Record TerminalEvidence := mkEvidence {
  outcome : SemanticTerminal;
  providerRequestId : option string;
  spendMicrocredits : option Z;
  fallback : option FallbackKind }.

Record AccessAuthorization := mkAuthorization {
  auth_ownerId : string;
  auth_ownerEpoch : Z;
  auth_accountId : string;
  auth_workspaceId : string;
  auth_generation : Z;
  auth_nativeRefreshedAtNs : string;
  auth_fingerprint : string;
  auth_accessToken : string;
  auth_idToken : string;
  auth_issuedAtMs : Z;
  auth_expiresAtMs : Z }.

Record AttemptRecord := mkAttempt {
  input : AttemptInput;
  attempt_state : AttemptState;
  terminal : option TerminalEvidence;
  billingSettled : bool;
  settledSpendMicrocredits : option Z }.

Definition WindowKey : Type := string * Z.

Record AdmissionRecord := mkAdmission {
  handle : AdmissionHandle;
  principalId : string;
  policyVersion : Z;
  windowKey : string * Z;
  digest : string;
  route : GatewayRoute;
  model : string;
  account : option AccountBinding;
  activeGeneration : option Z;
  attempts : gmap string AttemptRecord;
  request_dispatched : bool;
  semantic : option SemanticTerminal;
  kernelSettled : bool;
  delivery : option DeliveryOutcome;
  settled : bool }.

Record AuthorityState := mkState {
  scope : AuthorityScope;
  sequence : Z;
  accounts : list AccountBinding;
  active_account : option ActiveAccount;
  policies : gmap string PrincipalPolicy;
  windows : gmap (string * Z) PrincipalWindow;
  admissions : gmap string AdmissionRecord;
  publications : gmap string AccessAuthorization }.

Record AdmitInput := mkAdmitInput {
  admit_scope : AuthorityScope;
  admit_requestId : string;
  admit_principalId : string;
  admit_policyVersion : Z;
  admit_digest : string;
  admit_route : GatewayRoute;
  admit_model : string;
  admit_nowMs : Z }.

#[export] Instance eta_AccountBinding : Eta AccountBinding := fun r =>
  mkBinding (accountId r) (fingerprint r) (credentialGeneration r) (routingGeneration r)
    (resetGeneration r) (overageVersion r) (overageEnabled r) (enabled r) (models r) (proof r).
#[export] Instance eta_ActiveAccount : Eta ActiveAccount := fun r =>
  mkActive (active_accountId r) (active_fingerprint r) (generation r).
#[export] Instance eta_PrincipalWindow : Eta PrincipalWindow := fun r =>
  mkWindow (reserved r) (dispatched r) (kernelReserved r) (kernelCompleted r) (active r)
    (paidReservedMicrocredits r) (paidSettledMicrocredits r).
#[export] Instance eta_AttemptRecord : Eta AttemptRecord := fun r =>
  mkAttempt (input r) (attempt_state r) (terminal r) (billingSettled r) (settledSpendMicrocredits r).
#[export] Instance eta_AdmissionRecord : Eta AdmissionRecord := fun r =>
  mkAdmission (handle r) (principalId r) (policyVersion r) (windowKey r) (digest r) (route r)
    (model r) (account r) (activeGeneration r) (attempts r) (request_dispatched r) (semantic r)
    (kernelSettled r) (delivery r) (settled r).
#[export] Instance eta_AuthorityState : Eta AuthorityState := fun r =>
  mkState (scope r) (sequence r) (accounts r) (active_account r) (policies r) (windows r)
    (admissions r) (publications r).

#[export] Instance AuthorityScope_eq_dec : EqDecision AuthorityScope.
Proof. solve_decision. Defined.
#[export] Instance GatewayRoute_eq_dec : EqDecision GatewayRoute.
Proof. solve_decision. Defined.
#[export] Instance DispatchProvider_eq_dec : EqDecision DispatchProvider.
Proof. solve_decision. Defined.
#[export] Instance DeliveryOutcome_eq_dec : EqDecision DeliveryOutcome.
Proof. solve_decision. Defined.
#[export] Instance SemanticTerminal_eq_dec : EqDecision SemanticTerminal.
Proof. solve_decision. Defined.
#[export] Instance ProofKind_eq_dec : EqDecision ProofKind.
Proof. solve_decision. Defined.
#[export] Instance FallbackKind_eq_dec : EqDecision FallbackKind.
Proof. solve_decision. Defined.
#[export] Instance AttemptState_eq_dec : EqDecision AttemptState.
Proof. solve_decision. Defined.
#[export] Instance AccountProof_eq_dec : EqDecision AccountProof.
Proof. solve_decision. Defined.
#[export] Instance AccountBinding_eq_dec : EqDecision AccountBinding.
Proof. solve_decision. Defined.
#[export] Instance AttemptInput_eq_dec : EqDecision AttemptInput.
Proof. solve_decision. Defined.
#[export] Instance TerminalEvidence_eq_dec : EqDecision TerminalEvidence.
Proof. solve_decision. Defined.
#[export] Instance AccessAuthorization_eq_dec : EqDecision AccessAuthorization.
Proof. solve_decision. Defined.

(** What an authority operation can throw: the code's [AuthorityError], the
    [TypeError] of reading a property of an absent window, or the
    [SyntaxError] of [BigInt] on a string that is no integer. *)
Inductive exn :=
| AuthorityError (code : string) (status : Z)
| TypeError
| SyntaxError.

#[export] Instance exn_eq_dec : EqDecision exn.
Proof. solve_decision. Defined.

(** [new AuthorityError(code)]: the status defaults to 409. *)
Definition authorityError (code : string) : exn := AuthorityError code 409.

Definition sameScope (left right : AuthorityScope) : bool :=
  bool_decide (namespace left = namespace right) && (epoch left =? epoch right).

Definition assertAmount (value : Z) : Result exn unit :=
  throw_if (negb (isSafeInteger value) || (value <? 0)) (AuthorityError "invalid_amount" 400).

Definition sameEvidence {A} `{EqDecision A} (left right : A) : bool :=
  bool_decide (left = right).

Definition lookup_own {A} (values : gmap string A) (key : string) : option A := values !! key.

Lemma sameScope_spec a b : sameScope a b = true <-> a = b.
Proof.
  unfold sameScope. destruct a, b; cbn. rewrite andb_true_iff, bool_decide_eq_true, Z.eqb_eq.
  naive_solver.
Qed.

Lemma assertAmount_ok z u : assertAmount z = Ok u <-> 0 <= z <= MAX_SAFE_INTEGER.
Proof.
  unfold assertAmount. rewrite throw_if_ok, orb_false_iff, negb_false_iff, isSafeInteger_spec.
  unfold MAX_SAFE_INTEGER. lia.
Qed.

Lemma sameEvidence_refl {A} `{EqDecision A} (a : A) : sameEvidence a a = true.
Proof. by apply bool_decide_eq_true. Qed.

Lemma sameEvidence_spec {A} `{EqDecision A} (a b : A) : sameEvidence a b = true <-> a = b.
Proof. apply bool_decide_eq_true. Qed.

#[export] Hint Rewrite sameScope_spec assertAmount_ok @sameEvidence_spec : gateway_rw.
