(* ===== verification/AuthorityAdmission.v ===== *)
(** * The portable authority: admission state machine

    [src/authority/admission-state.ts].  Every method of [PortableAuthority]
    runs one action on a private copy of the state inside [_transact]; here an
    action is a function [AuthorityState -> Result exn (A * AuthorityState)].
    A thrown action leaves no trace because the copy is dropped, which is the
    [Err] case.  The transaction loop itself is in AuthorityTransact.v. *)

From stdpp Require Import base gmap strings list.
From Stdlib Require Import ZArith Lia.
From S2P Require Import Prelude AuthorityContracts.
Open Scope Z_scope.

Definition emptyWindow : PrincipalWindow := mkWindow 0 0 0 0 0 0 0.

Definition createAuthorityState (sc : AuthorityScope) (accs : list AccountBinding)
    (pols : list PrincipalPolicy) : AuthorityState :=
  (* [Object.fromEntries]: a later duplicate principal wins. *)
  mkState sc 0 accs None
    (list_to_map (reverse ((fun p => (policy_principalId p, p)) <$> pols))) ∅ ∅ ∅.

(** ** Account proofs and selection *)

Definition applicableProof (a : AccountBinding) (m : string) (now : Z) : option AccountProof :=
  match proof a with
  | Some p =>
      if bool_decide (proof_fingerprint p = fingerprint a) && bool_decide (proof_model p = m)
         && (observedAtMs p <=? now) && (now <? validUntilMs p)
      then Some p else None
  | None => None
  end.

Definition supports (a : AccountBinding) (m : string) : bool := bool_decide (m ∈ models a).

Definition cohort (st : AuthorityState) (m : string) : list AccountBinding :=
  List.filter (fun a => enabled a && supports a m) (accounts st).

Definition unavailable (m : string) (now : Z) (a : AccountBinding) : bool :=
  match applicableProof a m now with
  | Some p => bool_decide (kind p = QuotaExhausted) || bool_decide (kind p = CredentialInvalid)
  | None => false
  end.

(** [selected.length === 0 || !selected.every(unavailable)], negated. *)
Definition pool_exhausted (st : AuthorityState) (m : string) (now : Z) : bool :=
  negb (bool_decide (cohort st m = [])) && forallb (unavailable m now) (cohort st m).

Definition has_proof (m : string) (now : Z) (a : AccountBinding) : bool :=
  match applicableProof a m now with Some _ => true | None => false end.

Definition current_account (st : AuthorityState) : option AccountBinding :=
  List.find (fun a => enabled a &&
    match active_account st with
    | Some act => bool_decide (accountId a = active_accountId act)
    | None => false
    end) (accounts st).

Definition active_generation (st : AuthorityState) : option Z := generation <$> active_account st.

(** The part of [selectAccount] after the sticky account was ruled out. *)
Definition select_next (st : AuthorityState) (m : string) (now : Z)
    : Result exn (option AccountBinding * AuthorityState) :=
  match List.find (fun a => negb (has_proof m now a)) (cohort st m) with
  | Some next =>
      Ok (Some next, st <| active_account := Some (mkActive (accountId next) (fingerprint next)
                                                      (default 0 (active_generation st) + 1)) |>)
  | None =>
      _ ← throw_if (negb (pool_exhausted st m now)) (AuthorityError "routing_unavailable" 503);
      Ok (None, st)
  end.

Definition selectAccount (st : AuthorityState) (m : string) (now : Z)
    : Result exn (option AccountBinding * AuthorityState) :=
  match current_account st with
  | Some current =>
      _ ← throw_if (negb (supports current m)) (AuthorityError "active_model_unavailable" 503);
      _ ← throw_if (match applicableProof current m now with
                    | Some p => bool_decide (kind p = Transient) | None => false end)
            (AuthorityError "routing_unavailable" 503);
      if negb (unavailable m now current)
      then Ok (Some current, st <| active_account := Some (mkActive (accountId current)
                 (fingerprint current) (default 1 (active_generation st))) |>)
      else select_next st m now
  | None => select_next st m now
  end.

(** ** Helpers of the transaction bodies *)

Definition find_account (st : AuthorityState) (id : string) : option (nat * AccountBinding) :=
  list_find (fun a => accountId a = id) (accounts st).

Definition _request (st : AuthorityState) (h : AdmissionHandle) : Result exn AdmissionRecord :=
  r ← or_throw (lookup_own (admissions st) (requestId h)) (authorityError "admission_fence_mismatch");
  _ ← throw_if (negb (fence (handle r) =? fence h)) (authorityError "admission_fence_mismatch");
  Ok r.

Definition put_request (st : AuthorityState) (h : AdmissionHandle) (r : AdmissionRecord)
    : AuthorityState :=
  st <| admissions := <[requestId h := r]> (admissions st) |>.

Definition put_attempt (r : AdmissionRecord) (id : string) (a : AttemptRecord) : AdmissionRecord :=
  r <| attempts := <[id := a]> (attempts r) |>.

(** Mutation through [state.windows[key]]. *)
Definition with_window (st : AuthorityState) (key : string * Z)
    (f : PrincipalWindow -> PrincipalWindow) : Result exn AuthorityState :=
  w ← or_throw (windows st !! key) TypeError;
  Ok (st <| windows := <[key := f w]> (windows st) |>).

(** [!policy || policy.deleted || policy.version !== request.policyVersion]. *)
Definition current_policy (st : AuthorityState) (principal : string) (ver : Z)
    : Result exn PrincipalPolicy :=
  p ← or_throw (lookup_own (policies st) principal) (AuthorityError "principal_policy_changed" 403);
  _ ← throw_if (deleted p || negb (version p =? ver)) (AuthorityError "principal_policy_changed" 403);
  Ok p.

Definition window_changed (r : AdmissionRecord) (p : PrincipalPolicy) (now : Z) : bool :=
  (windowResetAtMs p <=? now)
  || negb (bool_decide (windowKey r = (principalId r, windowResetAtMs p))).

(** ** [admit] *)

Definition same_request (prev : AdmissionRecord) (i : AdmitInput) : bool :=
  bool_decide (digest prev = admit_digest i) && bool_decide (principalId prev = admit_principalId i)
  && bool_decide (model prev = admit_model i) && bool_decide (route prev = admit_route i)
  && (policyVersion prev =? admit_policyVersion i).

Definition active_requests (st : AuthorityState) (principal : string) : Z :=
  obj_count (fun r => bool_decide (principalId r = principal) && negb (settled r)) (admissions st).

Definition over_quota (w : PrincipalWindow) (p : PrincipalPolicy) (act : Z) : bool :=
  (requestLimit p <=? reserved w + dispatched w)
  || (kernelLimit p <=? kernelReserved w + kernelCompleted w)
  || (concurrencyLimit p <=? act).

Definition new_admission (i : AdmitInput) (h : AdmissionHandle) (key : string * Z)
    (acc : option AccountBinding) (gen : option Z) : AdmissionRecord :=
  mkAdmission h (admit_principalId i) (admit_policyVersion i) key (admit_digest i) (admit_route i)
    (admit_model i) acc gen ∅ false None false None false.

Definition admit_fresh (i : AdmitInput) (st : AuthorityState)
    : Result exn (AdmissionHandle * AuthorityState) :=
  p ← current_policy st (admit_principalId i) (admit_policyVersion i);
  _ ← throw_if (windowResetAtMs p <=? admit_nowMs i)
        (AuthorityError "quota_window_requires_refresh" 503);
  _ ← assertAmount (requestLimit p);
  _ ← assertAmount (kernelLimit p);
  _ ← assertAmount (concurrencyLimit p);
  _ ← assertAmount (paidLimitMicrocredits p);
  let key := (admit_principalId i, windowResetAtMs p) in
  let w := default emptyWindow (windows st !! key) in
  _ ← throw_if (over_quota w p (active_requests st (admit_principalId i)))
        (AuthorityError "principal_quota_exceeded" 429);
  '(acc, st) ← selectAccount st (admit_model i) (admit_nowMs i);
  let h := mkHandle (admit_scope i) (admit_requestId i) (sequence st + 1) in
  let st := st <| sequence := sequence st + 1 |> in
  let st := put_request st h (new_admission i h key acc (active_generation st)) in
  Ok (h, st <| windows := <[key := w <| reserved := reserved w + 1 |>
                                     <| kernelReserved := kernelReserved w + 1 |>
                                     <| active := active w + 1 |>]> (windows st) |>).

Definition authority_admit (i : AdmitInput) (st : AuthorityState)
    : Result exn (AdmissionHandle * AuthorityState) :=
  match lookup_own (admissions st) (admit_requestId i) with
  | Some prev =>
      _ ← throw_if (negb (same_request prev i)) (authorityError "request_identity_conflict");
      Ok (handle prev, st)
  | None => admit_fresh i st
  end.

(** ** [reserveAttempt] *)

Definition reserveSubscription (st : AuthorityState) (r : AdmissionRecord) (i : AttemptInput)
    (now : Z) : Result exn unit :=
  acc ← or_throw (input_account i) (authorityError "account_fence_mismatch");
  _ ← throw_if (negb (sameEvidence (Some acc) (account r))
                || negb (maximumExposureMicrocredits i =? 0))
        (authorityError "account_fence_mismatch");
  '(_, current) ← or_throw (find_account st (accountId acc)) (authorityError "account_fence_mismatch");
  act ← or_throw (active_account st) (authorityError "account_fence_mismatch");
  _ ← throw_if (negb (sameEvidence current acc)
                || negb (bool_decide (Some (generation act) = activeGeneration r))
                || negb (bool_decide (active_accountId act = accountId current)))
        (authorityError "account_fence_mismatch");
  throw_if (has_proof (model r) now current) (AuthorityError "routing_unavailable" 503).

Definition is_paid (a : AttemptRecord) : bool := negb (bool_decide (provider (input a) = Codex)).

Definition paid_attempts (r : AdmissionRecord) : list AttemptRecord :=
  List.filter is_paid (obj_values (attempts r)).

(** [paid.length !== 1 || paid[0].provider !== "surplus" || !paid[0].terminal?.fallback]. *)
Definition surplus_fell_back (paid : list AttemptRecord) : bool :=
  match paid with
  | [a] => bool_decide (provider (input a) = Surplus)
           && match terminal a ≫= fallback with Some _ => true | None => false end
  | _ => false
  end.

Definition reservePaid (st : AuthorityState) (r : AdmissionRecord) (i : AttemptInput)
    (p : PrincipalPolicy) (now : Z) : Result exn AuthorityState :=
  _ ← throw_if (match input_account i with Some _ => true | None => false end)
        (authorityError "paid_account_binding_forbidden");
  _ ← throw_if (negb (pool_exhausted st (model r) now)) (AuthorityError "paid_pool_proof_required" 503);
  let paid := paid_attempts r in
  _ ← throw_if (bool_decide (provider i = Surplus) && negb (bool_decide (paid = [])))
        (authorityError "provider_order_conflict");
  _ ← throw_if (bool_decide (provider i = Openlux) && negb (surplus_fell_back paid))
        (AuthorityError "paid_capacity_proof_required" 503);
  w ← or_throw (windows st !! windowKey r) TypeError;
  _ ← throw_if (paidLimitMicrocredits p
                <? paidReservedMicrocredits w + paidSettledMicrocredits w
                   + maximumExposureMicrocredits i)
        (AuthorityError "paid_limit_exceeded" 429);
  Ok (st <| windows := <[windowKey r :=
        w <| paidReservedMicrocredits :=
               paidReservedMicrocredits w + maximumExposureMicrocredits i |>]> (windows st) |>).

Definition outcome_pending (a : AttemptRecord) : bool :=
  negb (bool_decide (attempt_state a = NotDispatched)) && bool_decide (terminal a = None).

Definition admission_closed (r : AdmissionRecord) : bool :=
  settled r || negb (bool_decide (semantic r = None)).

Definition reserveAttempt (h : AdmissionHandle) (i : AttemptInput) (now : Z) (st : AuthorityState)
    : Result exn (unit * AuthorityState) :=
  _ ← assertAmount (maximumExposureMicrocredits i);
  r ← _request st h;
  _ ← throw_if (admission_closed r) (authorityError "admission_closed");
  match lookup_own (attempts r) (attemptId i) with
  | Some existing =>
      _ ← throw_if (negb (sameEvidence (input existing) i)) (authorityError "attempt_identity_conflict");
      Ok (tt, st)
  | None =>
      _ ← throw_if (obj_some outcome_pending (attempts r)) (authorityError "attempt_outcome_pending");
      p ← current_policy st (principalId r) (policyVersion r);
      _ ← throw_if (window_changed r p now) (AuthorityError "quota_window_changed" 409);
      st ← (if bool_decide (provider i = Codex)
            then _ ← reserveSubscription st r i now; Ok st
            else reservePaid st r i p now);
      Ok (tt, put_request st h (put_attempt r (attemptId i) (mkAttempt i Reserved None false None)))
  end.

(** ** Dispatch *)

Definition beginDispatch (h : AdmissionHandle) (id : string) (now : Z) (st : AuthorityState)
    : Result exn (bool * AuthorityState) :=
  r ← _request st h;
  a ← or_throw (lookup_own (attempts r) id) (authorityError "attempt_missing");
  if negb (bool_decide (attempt_state a = Reserved)) then Ok (false, st) else
  p ← current_policy st (principalId r) (policyVersion r);
  _ ← throw_if (settled r) (AuthorityError "principal_policy_changed" 403);
  _ ← throw_if (window_changed r p now) (AuthorityError "quota_window_changed" 409);
  _ ← match input_account (input a) with
      | Some acc =>
          throw_if (negb (sameEvidence (snd <$> find_account st (accountId acc)) (Some acc))
                    || negb (bool_decide (active_generation st = activeGeneration r)))
            (authorityError "account_fence_mismatch")
      | None =>
          throw_if (negb (pool_exhausted st (model r) now)) (AuthorityError "paid_pool_proof_required" 503)
      end;
  Ok (true, put_request st h (put_attempt r id (a <| attempt_state := DispatchIntent |>))).

Definition selection (h : AdmissionHandle) (st : AuthorityState)
    : Result exn ((option AccountBinding * string * GatewayRoute) * AuthorityState) :=
  r ← _request st h;
  Ok ((account r, model r, route r), st).

Definition reselectSubscription (h : AdmissionHandle) (now : Z) (st : AuthorityState)
    : Result exn (option AccountBinding * AuthorityState) :=
  r ← _request st h;
  _ ← throw_if (admission_closed r) (authorityError "admission_closed");
  _ ← throw_if (obj_some is_paid (attempts r)) (authorityError "provider_order_conflict");
  _ ← throw_if (negb (obj_some (fun a => bool_decide (attempt_state a = Dispatched)
                        && sameEvidence (input_account (input a)) (account r)) (attempts r))
                || obj_some (fun a => negb (bool_decide (attempt_state a = NotDispatched))
                        && (negb (bool_decide (attempt_state a = Dispatched))
                            || bool_decide (terminal a = None))) (attempts r))
        (authorityError "attempt_outcome_pending");
  p ← current_policy st (principalId r) (policyVersion r);
  _ ← throw_if (window_changed r p now) (authorityError "quota_window_changed");
  binding ← or_throw (account r) (authorityError "account_fence_mismatch");
  '(_, current) ← or_throw (find_account st (accountId binding)) (authorityError "account_fence_mismatch");
  _ ← throw_if (negb (sameEvidence (current <| proof := proof binding |>) binding))
        (authorityError "account_fence_mismatch");
  _ ← throw_if (negb (unavailable (model r) now current)) (AuthorityError "subscription_proof_required" 503);
  '(acc, st) ← selectAccount st (model r) now;
  Ok (acc, put_request st h (r <| account := acc |> <| activeGeneration := active_generation st |>)).

Definition confirmDispatched (h : AdmissionHandle) (id : string) (st : AuthorityState)
    : Result exn (unit * AuthorityState) :=
  r ← _request st h;
  a ← or_throw (lookup_own (attempts r) id) (authorityError "dispatch_state_conflict");
  _ ← throw_if (negb (bool_decide (attempt_state a = DispatchIntent))
                && negb (bool_decide (attempt_state a = Dispatched)))
        (authorityError "dispatch_state_conflict");
  let r' := put_attempt r id (a <| attempt_state := Dispatched |>) in
  if negb (request_dispatched r) then
    st ← with_window st (windowKey r)
           (fun w => w <| reserved := reserved w - 1 |> <| dispatched := dispatched w + 1 |>);
    Ok (tt, put_request st h (r' <| request_dispatched := true |>))
  else Ok (tt, put_request st h r').

Definition releaseBeforeDispatch (h : AdmissionHandle) (id : string) (st : AuthorityState)
    : Result exn (unit * AuthorityState) :=
  r ← _request st h;
  match lookup_own (attempts r) id with
  | None => Ok (tt, st)
  | Some a =>
      if bool_decide (attempt_state a = NotDispatched) then Ok (tt, st) else
      _ ← throw_if (negb (bool_decide (attempt_state a = Reserved)))
            (authorityError "dispatch_indeterminate");
      st ← with_window st (windowKey r)
             (fun w => w <| paidReservedMicrocredits :=
                 paidReservedMicrocredits w - maximumExposureMicrocredits (input a) |>);
      Ok (tt, put_request st h (put_attempt r id (a <| attempt_state := NotDispatched |>)))
  end.

(** ** Observations *)

Definition proof_fence_matches (current binding : AccountBinding) (pr : AccountProof) (m : string)
    : bool :=
  bool_decide (fingerprint current = fingerprint binding)
  && (credentialGeneration current =? credentialGeneration binding)
  && (routingGeneration current =? routingGeneration binding)
  && (resetGeneration current =? resetGeneration binding)
  && (overageVersion current =? overageVersion binding)
  && bool_decide (proof_fingerprint pr = fingerprint current)
  && bool_decide (proof_model pr = m).

Definition observeProof (h : AdmissionHandle) (id : string) (pr : AccountProof) (st : AuthorityState)
    : Result exn (unit * AuthorityState) :=
  _ ← throw_if (negb (isSafeInteger (observedAtMs pr)) || negb (isSafeInteger (validUntilMs pr))
                || (validUntilMs pr <=? observedAtMs pr)) (AuthorityError "invalid_proof" 400);
  r ← _request st h;
  a ← or_throw (lookup_own (attempts r) id) (authorityError "proof_without_dispatch");
  _ ← throw_if (negb (bool_decide (attempt_state a = Dispatched)))
        (authorityError "proof_without_dispatch");
  binding ← or_throw (input_account (input a)) (authorityError "proof_fence_mismatch");
  '(index, current) ← or_throw (find_account st (accountId binding)) (authorityError "proof_fence_mismatch");
  _ ← throw_if (negb (proof_fence_matches current binding pr (model r)))
        (authorityError "proof_fence_mismatch");
  _ ← throw_if (match proof current with
                | Some old => observedAtMs pr <? observedAtMs old | None => false end)
        (authorityError "stale_proof");
  Ok (tt, st <| accounts := <[index := current <| proof := Some pr |>]> (accounts st) |>).

(** The kernel part of a final terminal observation. *)
Definition settle_kernel (st : AuthorityState) (r : AdmissionRecord) (o : SemanticTerminal)
    : Result exn (AdmissionRecord * AuthorityState) :=
  if kernelSettled r then Ok (r, st) else
  st ← with_window st (windowKey r) (fun w =>
         let w := w <| kernelReserved := kernelReserved w - 1 |> in
         if bool_decide (o = Completed) then w <| kernelCompleted := kernelCompleted w + 1 |> else w);
  Ok (r <| kernelSettled := true |>, st).

(** The billing part of a terminal observation. *)
Definition settle_billing (st : AuthorityState) (r : AdmissionRecord) (a : AttemptRecord)
    (spend : option Z) : Result exn (AttemptRecord * AuthorityState) :=
  match spend with
  | Some s =>
      if billingSettled a then Ok (a, st) else
      st ← with_window st (windowKey r) (fun w =>
             let w := w <| paidReservedMicrocredits :=
                        paidReservedMicrocredits w - maximumExposureMicrocredits (input a) |> in
             if is_paid a then w <| paidSettledMicrocredits := paidSettledMicrocredits w + s |> else w);
      Ok (a <| billingSettled := true |> <| settledSpendMicrocredits := Some s |>, st)
  | None => Ok (a, st)
  end.

Definition assert_spend (e : TerminalEvidence) : Result exn unit :=
  match spendMicrocredits e with Some s => assertAmount s | None => Ok tt end.

Definition observeTerminal (h : AdmissionHandle) (id : string) (e : TerminalEvidence)
    (finalAttempt : bool) (st : AuthorityState) : Result exn (unit * AuthorityState) :=
  _ ← assert_spend e;
  r ← _request st h;
  a ← or_throw (lookup_own (attempts r) id) (authorityError "terminal_without_dispatch");
  _ ← throw_if (negb (bool_decide (attempt_state a = Dispatched)))
        (authorityError "terminal_without_dispatch");
  _ ← throw_if (match terminal a with Some t => negb (sameEvidence t e) | None => false end)
        (authorityError "terminal_evidence_conflict");
  _ ← throw_if (finalAttempt && match semantic r with
                                | Some o => negb (bool_decide (o = outcome e)) | None => false end)
        (authorityError "terminal_evidence_conflict");
  let a := a <| terminal := Some e |> in
  '(r, st) ← (if finalAttempt
              then settle_kernel st (r <| semantic := Some (outcome e) |>) (outcome e)
              else Ok (r, st));
  '(a, st) ← settle_billing st r a (spendMicrocredits e);
  Ok (tt, put_request st h (put_attempt r id a)).

Definition observeDelivery (h : AdmissionHandle) (o : DeliveryOutcome) (st : AuthorityState)
    : Result exn (unit * AuthorityState) :=
  r ← _request st h;
  _ ← throw_if (match delivery r with
                | Some d => negb (bool_decide (d = Unobserved)) && negb (bool_decide (d = o))
                | None => false end)
        (authorityError "delivery_evidence_conflict");
  if negb (bool_decide (o = Unobserved)) || bool_decide (delivery r = None)
  then Ok (tt, put_request st h (r <| delivery := Some o |>))
  else Ok (tt, st).

Record UsageObservation := mkUsage { usage_providerRequestId : string; usage_spendMicrocredits : Z }.

Definition observeUsage (h : AdmissionHandle) (id : string) (u : UsageObservation)
    (st : AuthorityState) : Result exn (unit * AuthorityState) :=
  _ ← assertAmount (usage_spendMicrocredits u);
  r ← _request st h;
  a ← or_throw (lookup_own (attempts r) id) (authorityError "usage_correlation_mismatch");
  t ← or_throw (terminal a) (authorityError "usage_correlation_mismatch");
  _ ← throw_if (negb (bool_decide (attempt_state a = Dispatched)) || negb (is_paid a)
                || negb (bool_decide (providerRequestId t = Some (usage_providerRequestId u))))
        (authorityError "usage_correlation_mismatch");
  if billingSettled a then
    _ ← throw_if (negb (bool_decide (settledSpendMicrocredits a = Some (usage_spendMicrocredits u))))
          (authorityError "usage_evidence_conflict");
    Ok (tt, st)
  else
    st ← with_window st (windowKey r) (fun w =>
           w <| paidReservedMicrocredits :=
                  paidReservedMicrocredits w - maximumExposureMicrocredits (input a) |>
             <| paidSettledMicrocredits :=
                  paidSettledMicrocredits w + usage_spendMicrocredits u |>);
    Ok (tt, put_request st h (put_attempt r id
              (a <| billingSettled := true |>
                 <| settledSpendMicrocredits := Some (usage_spendMicrocredits u) |>))).

Definition resetEligible (h : AdmissionHandle) (now : Z) (st : AuthorityState)
    : Result exn (bool * AuthorityState) :=
  r ← _request st h;
  let selected := cohort st (model r) in
  Ok (negb (bool_decide (selected = []))
      && forallb (fun a => match applicableProof a (model r) now with
                           | Some p => bool_decide (kind p = QuotaExhausted) | None => false end) selected,
      st).

(** ** Settlement and cancellation *)

Inductive SettleOutcome := Settled | Pending.

Definition attempt_open (a : AttemptRecord) : bool :=
  bool_decide (attempt_state a = Reserved) || bool_decide (attempt_state a = DispatchIntent)
  || (bool_decide (attempt_state a = Dispatched) && bool_decide (terminal a = None)).

Definition settle (h : AdmissionHandle) (st : AuthorityState)
    : Result exn (SettleOutcome * AuthorityState) :=
  r ← _request st h;
  if settled r then Ok (Settled, st) else
  match semantic r, delivery r with
  | Some o, Some _ =>
      if obj_some attempt_open (attempts r) then Ok (Pending, st) else
      st ← with_window st (windowKey r) (fun w =>
             let w := if request_dispatched r then w else w <| reserved := reserved w - 1 |> in
             let w := if kernelSettled r then w else
                        let w := w <| kernelReserved := kernelReserved w - 1 |> in
                        if bool_decide (o = Completed)
                        then w <| kernelCompleted := kernelCompleted w + 1 |> else w in
             w <| active := active w - 1 |>);
      Ok (Settled, put_request st h (r <| kernelSettled := true |> <| settled := true |>))
  | _, _ => Ok (Pending, st)
  end.

Definition is_reserved (a : AttemptRecord) : bool := bool_decide (attempt_state a = Reserved).

(** First transaction of [cancelUndispatched]; the second is [settle]. *)
Definition cancelUndispatched_release (h : AdmissionHandle) (st : AuthorityState)
    : Result exn (unit * AuthorityState) :=
  r ← _request st h;
  _ ← throw_if (obj_some (fun a => bool_decide (attempt_state a = DispatchIntent)
                                   || bool_decide (attempt_state a = Dispatched)) (attempts r))
        (authorityError "dispatch_indeterminate");
  st ← (if obj_some is_reserved (attempts r)
        then with_window st (windowKey r) (fun w =>
               w <| paidReservedMicrocredits := paidReservedMicrocredits w
                      - msum (fun a => if is_reserved a
                                       then maximumExposureMicrocredits (input a) else 0)
                          (attempts r) |>)
        else Ok st);
  Ok (tt, put_request st h
        (r <| attempts := (fun a => a <| attempt_state := NotDispatched |>) <$> attempts r |>
           <| semantic := Some (default Cancelled (semantic r)) |>
           <| delivery := Some (default Interrupted (delivery r)) |>)).

Definition cancelUndispatched (h : AdmissionHandle) (st : AuthorityState)
    : Result exn (SettleOutcome * AuthorityState) :=
  '(_, st) ← cancelUndispatched_release h st;
  settle h st.

(** ** The delivery outbox ([src/authority/delivery-outbox.ts])

    Each method is two transactions in a row; the composition below is the run
    without interference in between. *)

Definition outbox_terminal (h : AdmissionHandle) (id : string) (e : TerminalEvidence)
    (finalAttempt : bool) (st : AuthorityState) : Result exn (SettleOutcome * AuthorityState) :=
  '(_, st) ← observeTerminal h id e finalAttempt st;
  settle h st.

Definition outbox_delivery (h : AdmissionHandle) (o : DeliveryOutcome) (st : AuthorityState)
    : Result exn (SettleOutcome * AuthorityState) :=
  '(_, st) ← observeDelivery h o st;
  settle h st.
