(* ===== verification/AuthorityLedger.v ===== *)
(** * The ledger specification of the portable authority

    The code keeps seven running counters per principal window and adjusts
    them in a dozen places.  The specification keeps no counter: a window is
    what the admission records add up to ([window_total]), and an operation is
    one step of one record ([rstep]).  This file states the specification, the
    record invariant and its preservation; AuthorityRefinement.v proves that
    every operation of AuthorityAdmission.v implements it. *)

From stdpp Require Import base gmap strings list.
From Stdlib Require Import ZArith Lia.
From S2P Require Import Prelude AuthorityContracts AuthorityAdmission.
Open Scope Z_scope.

(** ** What one record contributes to its window *)

Definition exposure (a : AttemptRecord) : Z := maximumExposureMicrocredits (input a).

(** Exposure still held: reserved or sent, and not billed yet. *)
Definition held_exposure (a : AttemptRecord) : Z :=
  if bool_decide (attempt_state a = NotDispatched) || billingSettled a then 0 else exposure a.

Definition billed_spend (a : AttemptRecord) : Z :=
  if is_paid a && billingSettled a then default 0 (settledSpendMicrocredits a) else 0.

(** What providers billed beyond the exposure that was admitted for them. *)
Definition overspend (a : AttemptRecord) : Z :=
  if is_paid a && billingSettled a
  then Z.max 0 (default 0 (settledSpendMicrocredits a) - exposure a) else 0.

Definition contribution (r : AdmissionRecord) : PrincipalWindow :=
  mkWindow
    (b2z (negb (request_dispatched r) && negb (settled r)))
    (b2z (request_dispatched r))
    (b2z (negb (kernelSettled r)))
    (b2z (kernelSettled r && bool_decide (semantic r = Some Completed)))
    (b2z (negb (settled r)))
    (msum held_exposure (attempts r))
    (msum billed_spend (attempts r)).

Definition wadd (v w : PrincipalWindow) : PrincipalWindow :=
  mkWindow (reserved v + reserved w) (dispatched v + dispatched w)
    (kernelReserved v + kernelReserved w) (kernelCompleted v + kernelCompleted w)
    (active v + active w) (paidReservedMicrocredits v + paidReservedMicrocredits w)
    (paidSettledMicrocredits v + paidSettledMicrocredits w).

Definition wopp (w : PrincipalWindow) : PrincipalWindow :=
  mkWindow (- reserved w) (- dispatched w) (- kernelReserved w) (- kernelCompleted w) (- active w)
    (- paidReservedMicrocredits w) (- paidSettledMicrocredits w).

Definition total_of (f : AdmissionRecord -> Z) (k : string * Z) (adm : gmap string AdmissionRecord)
    : Z :=
  msum (fun r => if bool_decide (windowKey r = k) then f r else 0) adm.

Definition window_total (k : string * Z) (adm : gmap string AdmissionRecord) : PrincipalWindow :=
  mkWindow
    (total_of (fun r => reserved (contribution r)) k adm)
    (total_of (fun r => dispatched (contribution r)) k adm)
    (total_of (fun r => kernelReserved (contribution r)) k adm)
    (total_of (fun r => kernelCompleted (contribution r)) k adm)
    (total_of (fun r => active (contribution r)) k adm)
    (total_of (fun r => paidReservedMicrocredits (contribution r)) k adm)
    (total_of (fun r => paidSettledMicrocredits (contribution r)) k adm).

Lemma total_of_insert_None f k adm i r :
  adm !! i = None ->
  total_of f k (<[i := r]> adm) = (if bool_decide (windowKey r = k) then f r else 0) + total_of f k adm.
Proof. apply msum_insert_None. Qed.

Lemma total_of_insert_Some f k adm i r r' :
  adm !! i = Some r -> windowKey r' = windowKey r ->
  total_of f k (<[i := r']> adm)
  = total_of f k adm + (if bool_decide (windowKey r = k) then f r' - f r else 0).
Proof.
  intros Hi Hk. unfold total_of. rewrite (msum_insert_Some _ adm i r r' Hi), Hk.
  case_bool_decide; lia.
Qed.

(** A record moves the total of its own window by the change of its
    contribution, and no other window. *)
Lemma window_total_update k adm i r r' :
  adm !! i = Some r -> windowKey r' = windowKey r ->
  window_total k (<[i := r']> adm)
  = if bool_decide (windowKey r = k)
    then wadd (window_total k adm) (wadd (contribution r') (wopp (contribution r)))
    else window_total k adm.
Proof.
  intros Hi Hk. unfold window_total. rewrite !(total_of_insert_Some _ _ _ _ _ _ Hi Hk).
  case_bool_decide; unfold wadd, wopp; cbn [reserved dispatched kernelReserved kernelCompleted active
    paidReservedMicrocredits paidSettledMicrocredits]; f_equal; lia.
Qed.

Lemma window_total_new k adm i r :
  adm !! i = None ->
  window_total k (<[i := r]> adm)
  = if bool_decide (windowKey r = k) then wadd (window_total k adm) (contribution r)
    else window_total k adm.
Proof.
  intros Hi. unfold window_total. rewrite !(total_of_insert_None _ _ _ _ _ Hi).
  case_bool_decide; unfold wadd; cbn [reserved dispatched kernelReserved kernelCompleted active
    paidReservedMicrocredits paidSettledMicrocredits]; f_equal; lia.
Qed.

(** ** The record invariant *)

Record attempt_ok (disp stl : bool) (id : string) (a : AttemptRecord) : Prop := {
  aok_id : attemptId (input a) = id;
  aok_exposure : 0 <= exposure a <= MAX_SAFE_INTEGER;
  aok_codex : provider (input a) = Codex -> exposure a = 0;
  aok_dispatched : attempt_state a = Dispatched -> disp = true;
  aok_settled : stl = true -> attempt_open a = false;
  aok_terminal : terminal a <> None -> attempt_state a = Dispatched;
  aok_billed : billingSettled a = true ->
    attempt_state a = Dispatched /\
    exists s, settledSpendMicrocredits a = Some s /\ 0 <= s <= MAX_SAFE_INTEGER;
  aok_unbilled : billingSettled a = false -> settledSpendMicrocredits a = None }.

Record rec_ok (r : AdmissionRecord) : Prop := {
  rok_window : fst (windowKey r) = principalId r;
  rok_kernel : kernelSettled r = true -> semantic r <> None;
  rok_settled : settled r = true -> kernelSettled r = true /\ delivery r <> None;
  rok_attempts : map_Forall (attempt_ok (request_dispatched r) (settled r)) (attempts r) }.

(** ** The steps of one record *)

Definition bill (a : AttemptRecord) (spend : option Z) : AttemptRecord :=
  match spend with
  | Some s => if billingSettled a then a
              else a <| billingSettled := true |> <| settledSpendMicrocredits := Some s |>
  | None => a
  end.

Definition spend_ok (spend : option Z) : Prop :=
  match spend with Some s => 0 <= s <= MAX_SAFE_INTEGER | None => True end.

Definition conclude (r : AdmissionRecord) (e : TerminalEvidence) (final : bool) : AdmissionRecord :=
  if final then r <| semantic := Some (outcome e) |> <| kernelSettled := true |> else r.

(** [rstep r paid r'] is one step of a record; [paid] marks the one step that
    takes paid budget, the reservation of a paid attempt. *)
Inductive rstep (r : AdmissionRecord) : bool -> AdmissionRecord -> Prop :=
| rs_reserve i :
    admission_closed r = false ->
    attempts r !! attemptId i = None ->
    obj_some outcome_pending (attempts r) = false ->
    0 <= maximumExposureMicrocredits i <= MAX_SAFE_INTEGER ->
    (provider i = Codex -> maximumExposureMicrocredits i = 0) ->
    rstep r (negb (bool_decide (provider i = Codex))) (put_attempt r (attemptId i) (mkAttempt i Reserved None false None))
| rs_begin id a :
    attempts r !! id = Some a -> attempt_state a = Reserved -> settled r = false ->
    rstep r false (put_attempt r id (a <| attempt_state := DispatchIntent |>))
| rs_reselect acc gen :
    admission_closed r = false ->
    rstep r false (r <| account := acc |> <| activeGeneration := gen |>)
| rs_confirm id a :
    attempts r !! id = Some a ->
    attempt_state a = DispatchIntent \/ attempt_state a = Dispatched ->
    rstep r false (put_attempt r id (a <| attempt_state := Dispatched |>) <| request_dispatched := true |>)
| rs_release id a :
    attempts r !! id = Some a -> attempt_state a = Reserved ->
    rstep r false (put_attempt r id (a <| attempt_state := NotDispatched |>))
| rs_terminal id a e final :
    attempts r !! id = Some a -> attempt_state a = Dispatched ->
    terminal a = None \/ terminal a = Some e ->
    (final = true -> semantic r = None \/ semantic r = Some (outcome e)) ->
    spend_ok (spendMicrocredits e) ->
    rstep r false (put_attempt (conclude r e final) id (bill (a <| terminal := Some e |>) (spendMicrocredits e)))
| rs_delivery o :
    delivery r = None \/ delivery r = Some Unobserved \/ delivery r = Some o ->
    rstep r false (r <| delivery := Some o |>)
| rs_usage id a s :
    attempts r !! id = Some a -> attempt_state a = Dispatched -> is_paid a = true ->
    terminal a <> None -> billingSettled a = false -> spend_ok (Some s) ->
    rstep r false (put_attempt r id (bill a (Some s)))
| rs_settle :
    settled r = false -> semantic r <> None -> delivery r <> None ->
    obj_some attempt_open (attempts r) = false ->
    rstep r false (r <| kernelSettled := true |> <| settled := true |>)
| rs_cancel :
    (forall id a, attempts r !! id = Some a ->
       attempt_state a = Reserved \/ attempt_state a = NotDispatched) ->
    rstep r false (r <| attempts := (fun a => a <| attempt_state := NotDispatched |>) <$> attempts r |>
               <| semantic := Some (default Cancelled (semantic r)) |>
               <| delivery := Some (default Interrupted (delivery r)) |>).

(** ** Attempt-level lemmas *)

Section attempts.
Context (disp stl : bool) (id : string).

Lemma attempt_ok_weaken disp' a :
  (disp = true -> disp' = true) -> attempt_ok disp stl id a -> attempt_ok disp' stl id a.
Proof. intros Hd [*]. constructor; auto. Qed.

Lemma attempt_ok_settle a :
  attempt_open a = false -> attempt_ok disp stl id a -> attempt_ok disp true id a.
Proof. intros Ho [*]. constructor; auto. Qed.

Lemma attempt_ok_new i :
  stl = false -> attemptId i = id -> 0 <= maximumExposureMicrocredits i <= MAX_SAFE_INTEGER ->
  (provider i = Codex -> maximumExposureMicrocredits i = 0) ->
  attempt_ok disp stl id (mkAttempt i Reserved None false None).
Proof. intros -> **. constructor; cbn; congruence || auto. Qed.

Lemma attempt_ok_begin a :
  stl = false -> attempt_state a = Reserved -> attempt_ok disp stl id a ->
  attempt_ok disp stl id (a <| attempt_state := DispatchIntent |>).
Proof.
  intros -> Hs [?????? Hb ?]. constructor; cbn; try done.
  - intros Ht. specialize (aok_terminal0 Ht). congruence.
  - intros Hbill. destruct (Hb Hbill). congruence.
Qed.

Lemma attempt_ok_confirm a :
  attempt_state a = DispatchIntent \/ attempt_state a = Dispatched -> attempt_ok disp stl id a ->
  attempt_ok true stl id (a <| attempt_state := Dispatched |>).
Proof.
  intros Hs [???? Ho ? Hb ?]. constructor; cbn; try done.
  - intros Hstl. specialize (Ho Hstl). unfold attempt_open in *; cbn in *.
    destruct Hs as [E | E]; rewrite E in Ho; cbn in *; done.
  - intros Hbill. destruct (Hb Hbill) as [_ ?]. done.
Qed.

Lemma attempt_ok_release a :
  attempt_state a = Reserved \/ attempt_state a = NotDispatched -> attempt_ok disp stl id a ->
  attempt_ok disp stl id (a <| attempt_state := NotDispatched |>).
Proof.
  intros Hs [????? Ht Hb ?]. constructor; cbn; try done.
  - intros Hter. specialize (Ht Hter). destruct Hs; congruence.
  - intros Hbill. destruct (Hb Hbill). destruct Hs; congruence.
Qed.

Lemma attempt_ok_bill a s :
  attempt_state a = Dispatched -> terminal a <> None -> spend_ok s -> attempt_ok disp stl id a ->
  attempt_ok disp stl id (bill a s).
Proof.
  intros Hs Ht Hok Ha. unfold bill. destruct s as [s|]; [|done].
  destruct (billingSettled a) eqn:E; [done|]. destruct Ha. constructor; cbn; try done. eauto.
Qed.

Lemma attempt_ok_terminal a e :
  attempt_state a = Dispatched -> attempt_ok disp stl id a ->
  attempt_ok disp stl id (a <| terminal := Some e |>).
Proof.
  intros Hs [????????]. constructor; cbn; try done.
  intros _. unfold attempt_open. cbn. rewrite Hs. cbn. done.
Qed.
End attempts.

#[export] Hint Resolve attempt_ok_new attempt_ok_begin attempt_ok_confirm attempt_ok_release
  attempt_ok_bill attempt_ok_terminal attempt_ok_settle attempt_ok_weaken : gateway.

(** ** Preservation of the record invariant *)

Lemma admission_closed_false r :
  admission_closed r = false <-> settled r = false /\ semantic r = None.
Proof.
  unfold admission_closed. rewrite orb_false_iff, negb_false_iff, bool_decide_eq_true. done.
Qed.

Lemma put_attempt_ok r id a :
  rec_ok r -> attempt_ok (request_dispatched r) (settled r) id a -> rec_ok (put_attempt r id a).
Proof.
  intros [????] Ha. constructor; cbn; try done. by apply map_Forall_insert_2.
Qed.

Lemma rstep_rec_ok r b r' : rstep r b r' -> rec_ok r -> rec_ok r'.
Proof.
  intros Hstep Hok. pose proof (rok_attempts _ Hok) as Hatt.
  destruct Hstep as [i Hc Hn Hp He Hx | id a Ha Hs Hset | acc gen Hc | id a Ha Hs | id a Ha Hs
    | id a e final Ha Hs Ht Hsem Hsp | o Hd | id a s Ha Hs Hpaid Ht Hb Hsp | Hset Hsem Hdel Ho
    | Hcan]; try pose proof (Hatt id a Ha) as Haok.
  - apply admission_closed_false in Hc as [? _]. apply put_attempt_ok; auto with gateway.
  - apply put_attempt_ok; auto with gateway.
  - destruct Hok; constructor; done.
  - destruct Hok; constructor; cbn; try done. apply map_Forall_insert_2; [eauto with gateway|].
    eapply map_Forall_impl; [done|]. intros; eapply attempt_ok_weaken; [|done]; done.
  - apply put_attempt_ok; auto with gateway.
  - assert (rec_ok (conclude r e final)) as Hc.
    { unfold conclude. destruct final; [|done]. destruct Hok as [???]; constructor; cbn; try done. naive_solver. }
    apply put_attempt_ok; [done|].
    assert (request_dispatched (conclude r e final) = request_dispatched r
            /\ settled (conclude r e final) = settled r) as [-> ->] by (by destruct final).
    apply attempt_ok_bill; auto with gateway; done.
  - destruct Hok as [?? Hd']; constructor; cbn; try done. naive_solver.
  - apply put_attempt_ok; auto with gateway.
  - destruct Hok; constructor; cbn; try done. intros id a Ha.
    eapply attempt_ok_settle; [|by apply Hatt]. by eapply obj_some_false.
  - destruct Hok as [? Hk Hd ?]; constructor; cbn; try done.
    + naive_solver.
    + intros id a. rewrite lookup_fmap_Some. intros (b & <- & Hb).
      apply attempt_ok_release; eauto.
Qed.

Lemma rstep_identity r b r' :
  rstep r b r' -> handle r' = handle r /\ windowKey r' = windowKey r /\ principalId r' = principalId r
    /\ policyVersion r' = policyVersion r /\ digest r' = digest r /\ route r' = route r
    /\ model r' = model r.
Proof. destruct 1; cbn; try done. by destruct final. Qed.
