(* ===== verification/AuthorityRefinement.v ===== *)
(** * The operations implement the ledger specification

    [inv] is the invariant of a stored authority state; [lstep] is one step of
    the specification (nothing, one record moves, one record is admitted) with
    the windows following the records.  Every operation is an [lstep], every
    [lstep] preserves [inv]. *)

From stdpp Require Import base gmap strings list.
From Stdlib Require Import ZArith Lia.
From S2P Require Import Prelude AuthorityContracts AuthorityAdmission AuthorityLedger.
Open Scope Z_scope.

(** ** The state invariant *)

Record record_in (st : AuthorityState) (rid : string) (r : AdmissionRecord) : Prop := {
  ri_ok : rec_ok r;
  ri_id : requestId (handle r) = rid;
  ri_fence : 1 <= fence (handle r) <= sequence st;
  ri_window : is_Some (windows st !! windowKey r) }.

Record inv (st : AuthorityState) : Prop := {
  inv_sequence : 0 <= sequence st;
  inv_records : map_Forall (record_in st) (admissions st);
  inv_ledger : map_Forall (fun k w => w = window_total k (admissions st)) (windows st);
  inv_fences : forall i j r q, admissions st !! i = Some r -> admissions st !! j = Some q ->
    fence (handle r) = fence (handle q) -> i = j }.

(** ** One step of the specification *)

Definition delta (r r' : AdmissionRecord) : PrincipalWindow :=
  wadd (contribution r') (wopp (contribution r)).

(** The budget check a paid reservation passed. *)
Definition within_budget (st : AuthorityState) (principal : string) (w : PrincipalWindow) : Prop :=
  forall p, policies st !! principal = Some p ->
    paidReservedMicrocredits w + paidSettledMicrocredits w <= paidLimitMicrocredits p.

Inductive lstep (st st' : AuthorityState) : Prop :=
| l_frame :
    policies st' = policies st -> sequence st' = sequence st ->
    admissions st' = admissions st -> windows st' = windows st -> lstep st st'
| l_update rid r r' w b :
    admissions st' = <[rid := r']> (admissions st) ->
    policies st' = policies st -> sequence st' = sequence st ->
    admissions st !! rid = Some r -> rstep r b r' ->
    windows st !! windowKey r = Some w ->
    (b = true -> within_budget st (principalId r) (wadd w (delta r r'))) ->
    windows st' = <[windowKey r := wadd w (delta r r')]> (windows st) -> lstep st st'
| l_admit r p :
    policies st' = policies st ->
    sequence st' = sequence st + 1 ->
    admissions st !! requestId (handle r) = None ->
    policies st !! principalId r = Some p ->
    windowKey r = (principalId r, windowResetAtMs p) ->
    attempts r = ∅ -> request_dispatched r = false -> semantic r = None ->
    kernelSettled r = false -> delivery r = None -> settled r = false ->
    fence (handle r) = sequence st + 1 ->
    0 <= requestLimit p -> 0 <= kernelLimit p -> 0 <= concurrencyLimit p ->
    0 <= paidLimitMicrocredits p ->
    over_quota (default emptyWindow (windows st !! windowKey r)) p
      (active_requests st (principalId r)) = false ->
    admissions st' = <[requestId (handle r) := r]> (admissions st) ->
    windows st' = <[windowKey r := wadd (default emptyWindow (windows st !! windowKey r))
                                     (contribution r)]> (windows st) -> lstep st st'.

(** ** Contributions of updated records *)

Lemma contribution_put_Some r id a a' :
  attempts r !! id = Some a ->
  contribution (put_attempt r id a') =
  contribution r
    <| paidReservedMicrocredits :=
         paidReservedMicrocredits (contribution r) - held_exposure a + held_exposure a' |>
    <| paidSettledMicrocredits :=
         paidSettledMicrocredits (contribution r) - billed_spend a + billed_spend a' |>.
Proof.
  intros Ha. unfold contribution. cbn.
  by rewrite !(msum_insert_Some _ _ _ _ _ Ha).
Qed.

Lemma contribution_put_None r id a :
  attempts r !! id = None ->
  contribution (put_attempt r id a) =
  contribution r
    <| paidReservedMicrocredits := held_exposure a + paidReservedMicrocredits (contribution r) |>
    <| paidSettledMicrocredits := billed_spend a + paidSettledMicrocredits (contribution r) |>.
Proof. intros Ha. unfold contribution. cbn. by rewrite !msum_insert_None. Qed.

Lemma held_new i : held_exposure (mkAttempt i Reserved None false None) = maximumExposureMicrocredits i.
Proof. done. Qed.

Lemma billed_new i : billed_spend (mkAttempt i Reserved None false None) = 0.
Proof. unfold billed_spend. cbn. by rewrite andb_false_r. Qed.

Lemma held_restate a s :
  (attempt_state a = NotDispatched <-> s = NotDispatched) ->
  held_exposure (a <| attempt_state := s |>) = held_exposure a.
Proof.
  intros E. unfold held_exposure. cbn. by rewrite (bool_decide_ext _ _ E).
Qed.

Lemma billed_restate a s : billed_spend (a <| attempt_state := s |>) = billed_spend a.
Proof. done. Qed.

Lemma wadd_delta_same w r r' : contribution r' = contribution r -> wadd w (delta r r') = w.
Proof.
  intros E. unfold delta. rewrite E. destruct w, (contribution r). unfold wadd, wopp; cbn.
  f_equal; lia.
Qed.

(** The windows untouched: the record kept its contribution. *)
Lemma l_update_same st st' rid r r' :
  inv st -> admissions st' = <[rid := r']> (admissions st) ->
  policies st' = policies st -> sequence st' = sequence st ->
  admissions st !! rid = Some r -> rstep r false r' -> contribution r' = contribution r ->
  windows st' = windows st -> lstep st st'.
Proof.
  intros Hinv Ha Hp Hs Hr Hstep Hc Hw.
  destruct (ri_window _ _ _ (inv_records _ Hinv _ _ Hr)) as [w Hlw].
  eapply (l_update _ _ rid r r' w false); try done.
  rewrite (wadd_delta_same w r r' Hc), Hw. symmetry. by apply insert_id.
Qed.

Lemma with_window_ok st k f st' :
  with_window st k f = Ok st' ->
  exists w, windows st !! k = Some w /\ st' = st <| windows := <[k := f w]> (windows st) |>.
Proof. unfold with_window. intros H. inv_ok. eauto. Qed.

Lemma _request_ok st h r :
  _request st h = Ok r <-> admissions st !! requestId h = Some r /\ fence (handle r) = fence h.
Proof.
  unfold _request, lookup_own. rewrite bind_ok. setoid_rewrite bind_ok.
  setoid_rewrite or_throw_ok. setoid_rewrite throw_if_ok. setoid_rewrite negb_false_iff.
  setoid_rewrite Z.eqb_eq. split.
  - intros (x & Hx & u & Hf & E). injection E as ->. done.
  - intros [? ?]. exists r. split; [done|]. exists tt. done.
Qed.

Lemma inv_attempt st rid r id a :
  inv st -> admissions st !! rid = Some r -> attempts r !! id = Some a ->
  attempt_ok (request_dispatched r) (settled r) id a.
Proof.
  intros Hinv Hr Ha. exact (rok_attempts _ (ri_ok _ _ _ (inv_records _ Hinv _ _ Hr)) _ _ Ha).
Qed.

Lemma selectAccount_frame st m now acc st' :
  selectAccount st m now = Ok (acc, st') ->
  policies st' = policies st /\ sequence st' = sequence st /\ admissions st' = admissions st
  /\ windows st' = windows st /\ accounts st' = accounts st /\ scope st' = scope st
  /\ publications st' = publications st.
Proof.
  unfold selectAccount, select_next. intros H.
  repeat (case_match; inv_ok); by subst.
Qed.

Lemma insert_window_eq (k : string * Z) (w w' : PrincipalWindow) (ws : gmap (string * Z) PrincipalWindow) :
  w = w' -> <[k := w]> ws = <[k := w']> ws.
Proof. by intros ->. Qed.

Ltac open_request :=
  match goal with
  | H : _request _ _ = Ok ?x |- _ =>
      let r := fresh "r" in rename x into r; apply _request_ok in H as [Hr Hfence]
  end.

Ltac open_attempt :=
  match goal with
  | H : attempts ?r !! _ = Some ?x |- _ =>
      let a := fresh "a" in rename x into a; rename H into Ha
  end.

Ltac open_window :=
  match goal with
  | H : with_window _ _ _ = Ok _ |- _ => apply with_window_ok in H as (w & Hw & ->)
  end.

Ltac open_selection :=
  match goal with
  | H : selectAccount _ _ _ = Ok _ |- _ =>
      apply selectAccount_frame in H as (Ep & Es & Ea & Ew & _)
  end.

(** ** Every operation is a step of the specification *)

Lemma frame_refl st : lstep st st.
Proof. by apply l_frame. Qed.

Section operations.
Context (st st' : AuthorityState) (Hinv : inv st).

Lemma admit_lstep i x : authority_admit i st = Ok (x, st') -> lstep st st'.
Proof.
  unfold authority_admit, lookup_own. intros H. case_match eqn:Hprev; [inv_ok; apply frame_refl|].
  unfold admit_fresh, current_policy, lookup_own in H. inv_ok.
  repeat match goal with H : assertAmount _ = Ok _ |- _ => apply assertAmount_ok in H end.
  open_selection. rewrite Es.
  eapply (l_admit _ _ (new_admission i (mkHandle (admit_scope i) (admit_requestId i) (sequence st + 1))
    _ _ _)); cbn; rewrite ?Ea, ?Ew; try done; try lia.
  f_equal. destruct (default _ _). unfold wadd; cbn. rewrite !msum_empty. f_equal; lia.
Qed.

Lemma reserveAttempt_lstep h i now x : reserveAttempt h i now st = Ok (x, st') -> lstep st st'.
Proof.
  unfold reserveAttempt, lookup_own. intros H. inv_ok. open_request.
  apply assertAmount_ok in H.
  destruct (attempts r !! attemptId i) as [a|] eqn:Ha; inv_ok; [apply frame_refl|].
  case_bool_decide as Hprov.
  - unfold reserveSubscription in *. inv_ok.
    eapply (l_update_same _ _ (requestId h) r (put_attempt r (attemptId i) _));
      try done.
    { pose proof (rs_reserve r i) as Hstep. rewrite Hprov in Hstep.
      apply Hstep; done || (intros; lia). }
    rewrite contribution_put_None, held_new, billed_new by done.
    destruct (contribution r); cbn; f_equal; lia.
  - unfold reservePaid in *. inv_ok.
    match goal with H : windows _ !! windowKey r = Some ?v |- _ => rename v into w, H into Hw end.
    assert (wadd w (delta r (put_attempt r (attemptId i) (mkAttempt i Reserved None false None)))
            = w <| paidReservedMicrocredits :=
                     paidReservedMicrocredits w + maximumExposureMicrocredits i |>) as Hw'.
    { unfold delta. rewrite contribution_put_None, held_new, billed_new by done.
      unfold wadd, wopp; cbn; f_equal; lia. }
    eapply (l_update _ _ (requestId h) r (put_attempt r (attemptId i) _)); try done;
      [by apply rs_reserve| | by rewrite Hw'].
    rewrite Hw'. intros _ p' Hp'. unfold current_policy, lookup_own in *. inv_ok. cbn.
    simplify_eq. lia.
Qed.

Lemma beginDispatch_lstep h id now x : beginDispatch h id now st = Ok (x, st') -> lstep st st'.
Proof.
  unfold beginDispatch, lookup_own. intros H. inv_ok. open_request. open_attempt.
  case_bool_decide as Hs; inv_ok; [|apply frame_refl].
  eapply (l_update_same _ _ (requestId h) r (put_attempt r id (a <| attempt_state := DispatchIntent |>)));
    try done; [by apply rs_begin|].
  rewrite (contribution_put_Some _ _ _ _ Ha), held_restate, billed_restate by (split; congruence).
  destruct (contribution _); cbn; f_equal; lia.
Qed.

Lemma selection_lstep h x : selection h st = Ok (x, st') -> lstep st st'.
Proof. unfold selection. intros H. inv_ok. apply frame_refl. Qed.

Lemma resetEligible_lstep h now x : resetEligible h now st = Ok (x, st') -> lstep st st'.
Proof. unfold resetEligible. intros H. inv_ok. apply frame_refl. Qed.

Lemma reselectSubscription_lstep h now x : reselectSubscription h now st = Ok (x, st') -> lstep st st'.
Proof.
  unfold reselectSubscription. intros H. inv_ok. open_request. open_selection.
  eapply (l_update_same _ _ (requestId h) r (r <| account := _ |> <| activeGeneration := _ |>));
    cbn; rewrite ?Ea; try done; by apply rs_reselect.
Qed.

Lemma confirmDispatched_lstep h id x : confirmDispatched h id st = Ok (x, st') -> lstep st st'.
Proof.
  unfold confirmDispatched, lookup_own. intros H. inv_ok. open_request. open_attempt.
  assert (attempt_state a = DispatchIntent \/ attempt_state a = Dispatched) as Hs.
  { apply andb_false_iff in H1. rewrite !negb_false_iff, !bool_decide_eq_true in H1. done. }
  pose proof (inv_attempt _ _ _ _ _ Hinv Hr Ha) as Haok.
  assert (held_exposure (a <| attempt_state := Dispatched |>) = held_exposure a) as Hheld.
  { apply held_restate. destruct Hs; split; congruence. }
  set (r' := put_attempt r id (a <| attempt_state := Dispatched |>)) in *.
  assert (contribution r' = contribution r) as Hc.
  { subst r'. rewrite (contribution_put_Some _ _ _ _ Ha), Hheld, billed_restate.
    destruct (contribution _); cbn; f_equal; lia. }
  assert (rstep r false (r' <| request_dispatched := true |>)) as Hstep by by apply rs_confirm.
  destruct (request_dispatched r) eqn:Hd; inv_ok.
  - assert (r' <| request_dispatched := true |> = r') as E by (subst r'; unfold put_attempt; cbn; by rewrite Hd).
    rewrite E in Hstep. by eapply (l_update_same _ _ (requestId h) r r').
  - open_window.
    assert (settled r = false) as Hset.
    { destruct (settled r) eqn:E; [|done]. pose proof (aok_settled _ _ _ _ Haok eq_refl) as Ho.
      unfold attempt_open in Ho. destruct Hs as [Hs|Hs]; [by rewrite Hs in Ho|].
      pose proof (aok_dispatched _ _ _ _ Haok Hs). congruence. }
    eapply (l_update _ _ (requestId h) r (r' <| request_dispatched := true |>) w false); try done.
    cbn. f_equal. unfold delta, contribution, wadd, wopp in *. subst r'. cbn in *.
    injection Hc as ? ?. rewrite Hd, Hset. cbn. f_equal; lia.
Qed.

Lemma releaseBeforeDispatch_lstep h id x : releaseBeforeDispatch h id st = Ok (x, st') -> lstep st st'.
Proof.
  unfold releaseBeforeDispatch, lookup_own. intros H. inv_ok. open_request.
  destruct (attempts r !! id) as [a|] eqn:Ha; [|inv_ok; apply frame_refl].
  case_bool_decide; inv_ok; [apply frame_refl|]. open_window.
  pose proof (inv_attempt _ _ _ _ _ Hinv Hr Ha) as Haok.
  assert (billingSettled a = false) as Hb.
  { destruct (billingSettled a) eqn:E; [|done]. destruct (aok_billed _ _ _ _ Haok E). congruence. }
  eapply (l_update _ _ (requestId h) r (put_attempt r id (a <| attempt_state := NotDispatched |>)));
    try done; [by apply rs_release|done|].
  apply insert_window_eq. unfold delta. rewrite (contribution_put_Some _ _ _ _ Ha), billed_restate.
  assert (held_exposure a = exposure a) as ->.
  { unfold held_exposure. rewrite Hb, orb_false_r. case_bool_decide; congruence. }
  assert (held_exposure (a <| attempt_state := NotDispatched |>) = 0) as -> by done.
  unfold wadd, wopp, exposure; cbn. f_equal; lia.
Qed.

Lemma observeProof_lstep h id pr x : observeProof h id pr st = Ok (x, st') -> lstep st st'.
Proof. unfold observeProof. intros H. inv_ok. by apply l_frame. Qed.

Lemma observeDelivery_lstep h o x : observeDelivery h o st = Ok (x, st') -> lstep st st'.
Proof.
  unfold observeDelivery. intros H. inv_ok. open_request.
  destruct (negb (bool_decide (o = Unobserved)) || bool_decide (delivery r = None)) eqn:E;
    inv_ok; [|apply frame_refl].
  eapply (l_update_same _ _ (requestId h) r (r <| delivery := Some o |>)); try done.
  apply rs_delivery. destruct (delivery r) as [d|]; [|by left].
  apply andb_false_iff in H0. rewrite !negb_false_iff, !bool_decide_eq_true in H0.
  destruct H0; subst; auto.
Qed.

Lemma settle_lstep h x : settle h st = Ok (x, st') -> lstep st st'.
Proof.
  unfold settle. intros H. inv_ok. open_request.
  destruct (settled r) eqn:Hset; [inv_ok; apply frame_refl|].
  destruct (semantic r) as [o|] eqn:Hsem; [|inv_ok; apply frame_refl].
  destruct (delivery r) as [d|] eqn:Hdel; [|inv_ok; apply frame_refl].
  destruct (obj_some attempt_open (attempts r)) eqn:Ho; inv_ok; [apply frame_refl|]. open_window.
  eapply (l_update _ _ (requestId h) r (r <| kernelSettled := true |> <| settled := true |>));
    try done; [apply rs_settle; congruence|done|].
  cbn. f_equal. unfold delta, contribution, wadd, wopp. cbn. rewrite Hset, Hsem.
  rewrite bool_decide_Some.
  destruct (request_dispatched r), (kernelSettled r); cbn;
    repeat case_bool_decide; cbn; f_equal; lia.
Qed.
End operations.

(** ** Terminal observations, usage and cancellation *)

Lemma settle_kernel_ok st r o r' st' w :
  windows st !! windowKey r = Some w -> settle_kernel st r o = Ok (r', st') ->
  r' = r <| kernelSettled := true |> /\
  st' = st <| windows := <[windowKey r :=
    w <| kernelReserved := kernelReserved w - b2z (negb (kernelSettled r)) |>
      <| kernelCompleted := kernelCompleted w
           + b2z (negb (kernelSettled r) && bool_decide (o = Completed)) |>]> (windows st) |>.
Proof.
  intros Hw. unfold settle_kernel. destruct (kernelSettled r) eqn:E; intros H; inv_ok.
  - split; [destruct r'; cbn in *; by subst|].
    rewrite insert_id; [by destruct st'|]. rewrite Hw. f_equal. destruct w; cbn; f_equal; lia.
  - apply with_window_ok in H as (w' & Hw' & ->). rewrite Hw in Hw'. injection Hw' as <-.
    split; [done|]. cbn. do 2 f_equal. case_bool_decide; cbn; f_equal; lia.
Qed.

Lemma settle_billing_ok st r a s a' st' w disp stl id :
  windows st !! windowKey r = Some w -> attempt_ok disp stl id a -> attempt_state a = Dispatched ->
  settle_billing st r a s = Ok (a', st') ->
  a' = bill a s /\
  st' = st <| windows := <[windowKey r :=
    w <| paidReservedMicrocredits :=
           paidReservedMicrocredits w - held_exposure a + held_exposure (bill a s) |>
      <| paidSettledMicrocredits :=
           paidSettledMicrocredits w - billed_spend a + billed_spend (bill a s) |>]> (windows st) |>.
Proof.
  intros Hw Haok Hs. unfold settle_billing, bill. destruct s as [s|].
  2: { intros H; inv_ok. split; [done|]. rewrite insert_id; [by destruct st'|].
       rewrite Hw. f_equal. destruct w; cbn; f_equal; lia. }
  destruct (billingSettled a) eqn:E; intros H; inv_ok.
  - split; [done|]. rewrite insert_id; [by destruct st'|].
    rewrite Hw. f_equal. destruct w; cbn; f_equal; lia.
  - apply with_window_ok in H as (w' & Hw' & ->). rewrite Hw in Hw'. injection Hw' as <-.
    split; [done|]. cbn. do 2 f_equal.
    unfold held_exposure, billed_spend, is_paid, exposure; cbn. rewrite Hs, E.
    rewrite (bool_decide_false (Dispatched = NotDispatched)) by done. cbn.
    destruct (bool_decide (provider (input a) = Codex)); cbn; f_equal; lia.
Qed.

Section observations.
Context (st st' : AuthorityState) (Hinv : inv st).

Lemma inv_window_of rid r :
  admissions st !! rid = Some r -> exists w, windows st !! windowKey r = Some w.
Proof. intros Hr. exact (ri_window _ _ _ (inv_records _ Hinv _ _ Hr)). Qed.

(** The kernel counters follow the record that [conclude] produces. *)
Lemma conclude_window r e final w :
  rec_ok r -> (final = true -> semantic r = None \/ semantic r = Some (outcome e)) ->
  w <| kernelReserved := kernelReserved w - b2z (final && negb (kernelSettled r)) |>
    <| kernelCompleted := kernelCompleted w
         + b2z (final && (negb (kernelSettled r) && bool_decide (outcome e = Completed))) |>
  = wadd w (delta r (conclude r e final)).
Proof.
  intros Hok Hsem. unfold delta, contribution, conclude, wadd, wopp.
  destruct final; cbn; [|f_equal; lia].
  rewrite bool_decide_Some.
  destruct (kernelSettled r) eqn:Hk; cbn; [|f_equal; lia].
  pose proof (rok_kernel _ Hok Hk). destruct (Hsem eq_refl) as [?| ->]; [done|].
  rewrite bool_decide_Some.
  f_equal; lia.
Qed.

Lemma observeTerminal_kernel r e (final : bool) r1 st1 w :
  windows st !! windowKey r = Some w ->
  (if final then settle_kernel st (r <| semantic := Some (outcome e) |>) (outcome e) else Ok (r, st))
    = Ok (r1, st1) ->
  r1 = conclude r e final /\
  st1 = st <| windows := <[windowKey r :=
    w <| kernelReserved := kernelReserved w - b2z (final && negb (kernelSettled r)) |>
      <| kernelCompleted := kernelCompleted w
           + b2z (final && (negb (kernelSettled r) && bool_decide (outcome e = Completed))) |>]>
    (windows st) |>.
Proof.
  intros Hw. destruct final; intros H.
  - by eapply settle_kernel_ok in H as [-> ->].
  - inv_ok. split; [done|]. rewrite insert_id; [by destruct st1|].
    rewrite Hw. f_equal. destruct w; cbn; f_equal; lia.
Qed.

Lemma observeTerminal_lstep h id e final x :
  observeTerminal h id e final st = Ok (x, st') -> lstep st st'.
Proof.
  unfold observeTerminal, lookup_own, assert_spend. intros H. inv_ok. open_request. open_attempt.
  rename a3 into at0, a into r1, a0 into st1, a1 into at1, a2 into st2.
  pose proof (inv_attempt _ _ _ _ _ Hinv Hr Ha) as Haok.
  destruct (inv_window_of _ _ Hr) as [w Hw].
  assert (final = true -> semantic r = None \/ semantic r = Some (outcome e)) as Hsem.
  { intros ->. destruct (semantic r); [|by left]. cbn in H4. inv_ok. subst. by right. }
  apply (observeTerminal_kernel r e final r1 st1 w Hw) in H5 as [-> ->].
  assert (windowKey (conclude r e final) = windowKey r) as Hk by by destruct final.
  eapply settle_billing_ok in H6 as [-> ->]; [| | by apply attempt_ok_terminal | done].
  2: { rewrite Hk. cbn. apply lookup_insert_eq. }
  eapply (l_update _ _ (requestId h) r (put_attempt (conclude r e final) id _)); try done.
  - apply rs_terminal; try done.
    + destruct (terminal at0) as [t|]; [|by left]. inv_ok.
      right. f_equal. by apply (proj1 (sameEvidence_spec t e)).
    + unfold spend_ok. destruct (spendMicrocredits e); [|done]. by apply assertAmount_ok in H.
  - done.
  - rewrite Hk. cbn [windows set_field setter]. rewrite insert_insert_eq. apply insert_window_eq.
    pose proof (conclude_window r e final w (ri_ok _ _ _ (inv_records _ Hinv _ _ Hr)) Hsem) as Hcw.
    assert (attempts (conclude r e final) !! id = Some at0) as Ha' by by destruct final.
    unfold delta in *. rewrite (contribution_put_Some _ _ _ _ Ha').
    change (held_exposure (mkAttempt _ _ (Some e) _ _)) with (held_exposure at0).
    change (billed_spend (mkAttempt _ _ (Some e) _ _)) with (billed_spend at0).
    set (at1 := bill _ _). generalize (held_exposure at1), (billed_spend at1). clearbody at1.
    destruct (contribution r), (contribution (conclude r e final)), w; intros hx bs.
    unfold wadd, wopp in *; cbn in *. injection Hcw as ????. f_equal; lia.
Qed.

Lemma observeUsage_lstep h id u x : observeUsage h id u st = Ok (x, st') -> lstep st st'.
Proof.
  unfold observeUsage, lookup_own. intros H. inv_ok. open_request. open_attempt.
  rename H into Hamt. apply assertAmount_ok in Hamt.
  destruct (billingSettled a) eqn:Hb; inv_ok; [apply frame_refl|]. open_window.
  pose proof (inv_attempt _ _ _ _ _ Hinv Hr Ha) as Haok.
  assert (a <| billingSettled := true |> <| settledSpendMicrocredits := Some (usage_spendMicrocredits u) |>
          = bill a (Some (usage_spendMicrocredits u))) as E by (unfold bill; by rewrite Hb).
  eapply (l_update _ _ (requestId h) r (put_attempt r id (bill a (Some (usage_spendMicrocredits u)))));
    try done; [by rewrite <- E | apply rs_usage; congruence || done | done |].
  apply insert_window_eq. unfold delta. rewrite (contribution_put_Some _ _ _ _ Ha).
  assert (held_exposure a = exposure a) as ->.
  { unfold held_exposure. rewrite Hb, orb_false_r. case_bool_decide; congruence. }
  rewrite <- E.
  assert (billed_spend a = 0) as -> by (unfold billed_spend; by rewrite Hb, andb_false_r).
  unfold held_exposure, billed_spend; cbn. rewrite orb_true_r, andb_true_r.
  change (is_paid _) with (is_paid a).
  match goal with Hp : is_paid a = true |- _ => rewrite Hp end.
  unfold wadd, wopp, exposure; cbn. f_equal; lia.
Qed.

(** Cancelling releases exactly the exposure of the reserved attempts. *)
Lemma cancel_contribution (r : AdmissionRecord) :
  rec_ok r ->
  (forall id a, attempts r !! id = Some a -> attempt_state a = Reserved \/ attempt_state a = NotDispatched) ->
  msum held_exposure ((fun a => a <| attempt_state := NotDispatched |>) <$> attempts r) = 0
  /\ msum billed_spend ((fun a => a <| attempt_state := NotDispatched |>) <$> attempts r)
     = msum billed_spend (attempts r)
  /\ msum (fun a => if is_reserved a then exposure a else 0) (attempts r)
     = msum held_exposure (attempts r).
Proof.
  intros Hok Hcan. rewrite !msum_fmap. split_and!.
  - transitivity (msum (fun _ : AttemptRecord => 0) (attempts r)); [by apply msum_ext|].
    apply msum_zero.
  - by apply msum_ext.
  - apply msum_ext. intros id a Ha. pose proof (rok_attempts _ Hok _ _ Ha) as Haok.
    unfold is_reserved, held_exposure.
    destruct (billingSettled a) eqn:Hb.
    + destruct (aok_billed _ _ _ _ Haok Hb) as [Hs _]. destruct (Hcan _ _ Ha); congruence.
    + destruct (Hcan _ _ Ha) as [-> | ->]; done.
Qed.

Lemma cancelUndispatched_release_lstep h x :
  cancelUndispatched_release h st = Ok (x, st') -> lstep st st'.
Proof.
  unfold cancelUndispatched_release. intros H. inv_ok. open_request.
  pose proof (ri_ok _ _ _ (inv_records _ Hinv _ _ Hr)) as Hok.
  rename H0 into Hno. rewrite obj_some_false in Hno.
  assert (forall id a, attempts r !! id = Some a ->
            attempt_state a = Reserved \/ attempt_state a = NotDispatched) as Hcan.
  { intros id a Ha. specialize (Hno id a Ha). inv_ok. destruct (attempt_state a); auto; done. }
  destruct (cancel_contribution r Hok Hcan) as (Hh & Hb & Hrel).
  destruct (inv_window_of _ _ Hr) as [w Hw].
  match goal with
  | H : (if obj_some is_reserved _ then _ else _) = Ok ?s |- _ => rename s into st1, H into Hst1
  end.
  match goal with |- lstep _ (put_request _ _ ?q) => set (r' := q) end.
  assert (wadd w (delta r r') = w <| paidReservedMicrocredits := paidReservedMicrocredits w
            - msum (fun a => if is_reserved a then maximumExposureMicrocredits (input a) else 0)
                (attempts r) |>) as Hw'.
  { unfold delta, contribution, wadd, wopp, exposure in *; subst r'; cbn in *. rewrite Hh, Hb, Hrel.
    assert (bool_decide (semantic r = Some Completed)
            = bool_decide (Some (default Cancelled (semantic r)) = Some Completed)) as ->
      by (destruct (semantic r); done).
    f_equal; lia. }
  assert (windows st1 = <[windowKey r := wadd w (delta r r')]> (windows st)
          /\ admissions st1 = admissions st /\ policies st1 = policies st /\ sequence st1 = sequence st)
    as (Ewin & Eadm & Epol & Eseq).
  { destruct (obj_some is_reserved (attempts r)) eqn:Hres.
    - apply with_window_ok in Hst1 as (w0 & Hw0 & ->). rewrite Hw in Hw0. injection Hw0 as <-.
      rewrite Hw'. done.
    - inv_ok. split_and!; try done. rewrite Hw', insert_id; [done|]. rewrite Hw. f_equal.
      rewrite obj_some_false in Hres.
      assert (msum (fun a => if is_reserved a then maximumExposureMicrocredits (input a) else 0)
                (attempts r) = 0) as ->.
      { rewrite (msum_ext _ (fun _ => 0)); [apply msum_zero|]. intros i a Ha. by rewrite (Hres i a Ha). }
      destruct w; cbn; f_equal; lia. }
  eapply (l_update _ _ (requestId h) r r' w false); cbn; rewrite ?Eadm, ?Ewin; try done.
  by apply rs_cancel.
Qed.
End observations.
