(* ===== verification/CredentialPublication.v ===== *)
(** * Credential publication

    [src/authority/credential-publication.ts]: the owner of an account
    publishes access-only credentials into the authority state.  The injected
    verifier is a parameter; the store loop of [publish] is the same
    transaction loop as the authority's and is in AuthorityTransact.v. *)

From stdpp Require Import base gmap strings list.
From Stdlib Require Import ZArith Lia Ascii.
From S2P Require Import Prelude AuthorityContracts AuthorityAdmission AuthorityLedger AuthorityRefinement.
Open Scope Z_scope.

Record CredentialOwnerBinding := mkOwner {
  binding_scope : AuthorityScope;
  binding_ownerId : string;
  binding_ownerEpoch : Z;
  binding_accountId : string;
  binding_workspaceId : string;
  minimumNativeRefreshedAtNs : string }.

(** [Reflect.ownKeys] lists string and symbol keys. *)
Inductive PropertyKey := KeyString (s : string) | KeySymbol.

Record AccessPublication := mkPublication {
  authorization : AccessAuthorization;
  previousGeneration : Z;
  ownKeys : list PropertyKey }.

Record VerifiedAccessIdentity := mkIdentity {
  identity_accountId : string;
  identity_workspaceId : string;
  identity_fingerprint : string;
  identity_issuedAtMs : Z;
  identity_expiresAtMs : Z }.

Definition FIELDS : list string :=
  ["ownerId"; "ownerEpoch"; "accountId"; "workspaceId"; "generation"; "previousGeneration";
   "nativeRefreshedAtNs"; "fingerprint"; "accessToken"; "idToken"; "issuedAtMs"; "expiresAtMs"]%string.

(** ** Decimal strings: [/^\d+$/] and [BigInt] *)

Definition digit_value (c : ascii) : option Z :=
  let n := Z.of_nat (nat_of_ascii c) in
  if (48 <=? n) && (n <=? 57) then Some (n - 48) else None.

Fixpoint parse_digits (acc : Z) (s : string) : option Z :=
  match s with
  | EmptyString => Some acc
  | String c rest => d ← digit_value c; parse_digits (10 * acc + d) rest
  end.

(** The value of a string of the form [\d+], and [None] on any other. *)
Definition decimal (s : string) : option Z :=
  match s with EmptyString => None | _ => parse_digits 0 s end.

Definition isDecimal (s : string) : bool :=
  match decimal s with Some _ => true | None => false end.

(** [BigInt(left) <= BigInt(right)] on decimal strings, the only ones
    [_validateGeneration] lets through and an owner binding is configured with;
    any other string throws. *)
Definition bigint_le (left right : string) : Result exn bool :=
  l ← or_throw (decimal left) SyntaxError;
  r ← or_throw (decimal right) SyntaxError;
  Ok (l <=? r).

(** ** Validation *)

Definition unexpected_key (k : PropertyKey) : bool :=
  match k with KeyString s => negb (bool_decide (s ∈ FIELDS)) | KeySymbol => true end.

Definition _validateBinding (b : CredentialOwnerBinding) (i : AccessPublication) : Result exn unit :=
  let a := authorization i in
  _ ← throw_if (existsb unexpected_key (ownKeys i)) (AuthorityError "unexpected_credential_field" 400);
  throw_if (negb (bool_decide (auth_ownerId a = binding_ownerId b))
            || negb (auth_ownerEpoch a =? binding_ownerEpoch b)
            || negb (bool_decide (auth_accountId a = binding_accountId b))
            || negb (bool_decide (auth_workspaceId a = binding_workspaceId b)))
    (AuthorityError "credential_owner_binding_mismatch" 403).

Definition is_empty (s : string) : bool := bool_decide (s = EmptyString).

Definition _validateGeneration (i : AccessPublication) (now : Z) : Result exn unit :=
  let a := authorization i in
  throw_if (negb (isSafeInteger (auth_generation a)) || (auth_generation a <? 1)
            || negb (previousGeneration i =? auth_generation a - 1)
            || negb (isDecimal (auth_nativeRefreshedAtNs a))
            || is_empty (auth_accessToken a) || is_empty (auth_idToken a)
            || is_empty (auth_fingerprint a)
            || negb (isSafeInteger (auth_expiresAtMs a)) || negb (isSafeInteger (auth_issuedAtMs a))
            || (now <? auth_issuedAtMs a) || (auth_expiresAtMs a <=? now + 120000))
    (AuthorityError "credential_generation_invalid" 403).

Inductive PublishOutcome := Published | Duplicate.

(** ** The transaction body *)

Definition owner_changed (b : CredentialOwnerBinding) (cur : AccessAuthorization) : bool :=
  negb (bool_decide (auth_ownerId cur = binding_ownerId b))
  || negb (auth_ownerEpoch cur =? binding_ownerEpoch b)
  || negb (bool_decide (auth_workspaceId cur = binding_workspaceId b)).

(** [current && (BigInt(...) <= BigInt(...) || expires < current.expires)]. *)
Definition regresses (i : AccessPublication) (cur : option AccessAuthorization) : Result exn bool :=
  match cur with
  | None => Ok false
  | Some c =>
      older ← bigint_le (auth_nativeRefreshedAtNs (authorization i)) (auth_nativeRefreshedAtNs c);
      Ok (older || (auth_expiresAtMs (authorization i) <? auth_expiresAtMs c))
  end.

Definition generation_taken (cur : option AccessAuthorization) (g : Z) : option AccessAuthorization :=
  c ← cur; if auth_generation c =? g then Some c else None.

Definition _applyPublication (b : CredentialOwnerBinding) (i : AccessPublication)
    (st : AuthorityState) : Result exn (PublishOutcome * AuthorityState) :=
  let a := authorization i in
  let id := auth_accountId a in
  let cur := lookup_own (publications st) id in
  '(index, acc) ← or_throw (find_account st id) (AuthorityError "credential_account_missing" 403);
  match generation_taken cur (auth_generation a) with
  | Some c =>
      _ ← throw_if (negb (sameEvidence c a)) (authorityError "credential_generation_conflict");
      Ok (Duplicate, st)
  | None =>
      _ ← throw_if (match cur with Some c => owner_changed b c | None => false end)
            (AuthorityError "credential_owner_binding_mismatch" 403);
      _ ← throw_if (negb (default (credentialGeneration acc) (auth_generation <$> cur)
                          =? previousGeneration i))
            (authorityError "credential_generation_conflict");
      back ← regresses i cur;
      _ ← throw_if back (authorityError "credential_generation_conflict");
      let st := st <| publications := <[id := a]> (publications st) |> in
      let st := st <| accounts := <[index := acc <| fingerprint := auth_fingerprint a |>
                                             <| credentialGeneration := auth_generation a |>
                                             <| proof := None |>]> (accounts st) |> in
      match active_account st with
      | Some act =>
          if bool_decide (active_accountId act = id)
          then Ok (Published, st <| active_account :=
                     Some (act <| active_fingerprint := auth_fingerprint a |>) |>)
          else Ok (Published, st)
      | None => Ok (Published, st)
      end
  end.

(** ** [publish] up to the transaction loop *)

Section publish.
(** The injected access verifier; a rejection is its [Err]. *)
Context (verifyAccess : AccessPublication -> Result exn VerifiedAccessIdentity).

Definition publish_checks (b : CredentialOwnerBinding) (i : AccessPublication) (now : Z)
    : Result exn unit :=
  let a := authorization i in
  _ ← _validateBinding b i;
  _ ← _validateGeneration i now;
  ident ← verifyAccess i;
  let mismatch := negb (bool_decide (identity_accountId ident = auth_accountId a))
    || negb (bool_decide (identity_workspaceId ident = auth_workspaceId a))
    || negb (bool_decide (identity_fingerprint ident = auth_fingerprint a))
    || negb (identity_issuedAtMs ident =? auth_issuedAtMs a)
    || negb (identity_expiresAtMs ident =? auth_expiresAtMs a) in
  _ ← throw_if mismatch (AuthorityError "credential_identity_mismatch" 403);
  stale ← bigint_le (auth_nativeRefreshedAtNs a) (minimumNativeRefreshedAtNs b);
  throw_if stale (AuthorityError "credential_identity_mismatch" 403).
End publish.

(** ** Facts about a publication *)

Lemma publication_lstep b i st x st' : _applyPublication b i st = Ok (x, st') -> lstep st st'.
Proof.
  unfold _applyPublication. intros H. inv_ok.
  repeat (case_match; inv_ok); by apply l_frame.
Qed.
