(* ===== verification/AuthoritySafety.v ===== *)
(** * Safety of the portable authority

    Invariance over every reachable state, the principal quotas, the paid
    budget, the fences, at-most-once dispatch and replay of observations. *)

From stdpp Require Import base gmap strings list.
From Stdlib Require Import ZArith Lia.
From S2P Require Import Prelude AuthorityContracts AuthorityAdmission AuthorityLedger AuthorityRefinement.
From S2P Require Import CredentialPublication.
Open Scope Z_scope.

(** ** Steps preserve the invariant *)

Lemma total_of_none f k adm :
  (forall i r, adm !! i = Some r -> windowKey r <> k) -> total_of f k adm = 0.
Proof.
  intros Hno. unfold total_of. rewrite (msum_ext _ (fun _ => 0)); [apply msum_zero|].
  intros i r Hr. case_bool_decide as E; [|done]. by destruct (Hno i r Hr).
Qed.

Lemma window_total_none k adm :
  (forall i r, adm !! i = Some r -> windowKey r <> k) -> window_total k adm = emptyWindow.
Proof. intros Hno. unfold window_total. by rewrite !total_of_none. Qed.

(** The stored window, or the empty one, is what the records add up to. *)
Lemma inv_window_total st k :
  inv st -> default emptyWindow (windows st !! k) = window_total k (admissions st).
Proof.
  intros Hinv. destruct (windows st !! k) as [w|] eqn:Hw; cbn.
  - exact (inv_ledger _ Hinv _ _ Hw).
  - symmetry. apply window_total_none. intros i r Hr <-.
    destruct (ri_window _ _ _ (inv_records _ Hinv _ _ Hr)) as [w Hw']. congruence.
Qed.

Lemma record_in_mono st st' rid r :
  sequence st <= sequence st' -> (is_Some (windows st !! windowKey r) -> is_Some (windows st' !! windowKey r)) ->
  record_in st rid r -> record_in st' rid r.
Proof. intros Hs Hw [????]. constructor; auto with lia. Qed.

Lemma insert_is_Some (ws : gmap (string * Z) PrincipalWindow) k k' w :
  is_Some (ws !! k) -> is_Some (<[k' := w]> ws !! k).
Proof. intros. rewrite lookup_insert_is_Some. destruct (decide (k' = k)); auto. Qed.

Lemma inv_update st st' rid r b r' w :
  inv st -> admissions st' = <[rid := r']> (admissions st) -> sequence st' = sequence st ->
  admissions st !! rid = Some r -> rstep r b r' -> windows st !! windowKey r = Some w ->
  windows st' = <[windowKey r := wadd w (delta r r')]> (windows st) -> inv st'.
Proof.
  intros [Hseq Hrec Hled Hfen] Ea Es Hr Hstep Hw Ew.
  destruct (rstep_identity _ _ _ Hstep) as (Eh & Ek & _).
  constructor; rewrite ?Ea, ?Es; try done.
  - apply map_Forall_insert_2.
    + destruct (Hrec _ _ Hr) as [Hok Hid Hf Hwin].
      constructor; rewrite ?Eh, ?Ek, ?Es, ?Ew; auto.
      * by eapply rstep_rec_ok.
      * by apply insert_is_Some.
    + eapply map_Forall_impl; [exact Hrec|]. intros i q. apply record_in_mono; [lia|].
      rewrite Ew. apply insert_is_Some.
  - rewrite Ew. intros k v. rewrite (window_total_update k _ _ _ _ Hr Ek), lookup_insert.
    case_decide as E.
    + subst k. intros Hv. injection Hv as <-. rewrite bool_decide_true by done.
      by rewrite <- (Hled _ _ Hw).
    + rewrite bool_decide_false by done. apply Hled.
  - intros i j q q'. rewrite !lookup_insert. do 2 case_decide; intros; simplify_eq; try done.
    + eapply Hfen; try done. by rewrite <- Eh.
    + eapply Hfen; try done. by rewrite <- Eh.
    + by eapply Hfen.
Qed.

Lemma inv_lstep st st' : inv st -> lstep st st' -> inv st'.
Proof.
  intros Hinv [Ep Es Ea Ew | rid r r' w b Ea Ep Es Hr Hstep Hw Hb Ew
    | r p Ep Es Hnone Hp Hkey Hatt Hd Hsem Hks Hdel Hset Hf ? ? ? ? Hq Ea Ew].
  - destruct Hinv as [? Hrec ? ?]. constructor; rewrite ?Ea, ?Es, ?Ew; try done.
    eapply map_Forall_impl; [exact Hrec|]. intros i q. apply record_in_mono; [lia|]. by rewrite Ew.
  - by eapply inv_update.
  - destruct Hinv as [Hseq Hrec Hled Hfen] eqn:Einv. constructor; rewrite ?Ea, ?Es; try lia.
    + apply map_Forall_insert_2.
      * constructor; rewrite ?Es, ?Ew; try done; try lia.
        -- constructor; rewrite ?Hkey, ?Hatt; cbn; try congruence. apply map_Forall_empty.
        -- rewrite lookup_insert_eq. eauto.
      * eapply map_Forall_impl; [exact Hrec|]. intros i q. apply record_in_mono; [lia|].
        rewrite Ew. apply insert_is_Some.
    + rewrite Ew. intros k v. rewrite (window_total_new k _ _ _ Hnone), lookup_insert.
      case_decide as E.
      * subst k. intros Hv. injection Hv as <-. rewrite bool_decide_true by done.
        by rewrite (inv_window_total st (windowKey r) Hinv).
      * rewrite bool_decide_false by done. apply Hled.
    + intros i j q q'. rewrite !lookup_insert.
      do 2 case_decide; intros; simplify_eq; try done; [| |by eapply Hfen].
      * match goal with H : admissions st !! j = Some _ |- _ => pose proof (ri_fence _ _ _ (Hrec _ _ H)) end. lia.
      * match goal with H : admissions st !! i = Some _ |- _ => pose proof (ri_fence _ _ _ (Hrec _ _ H)) end. lia.
Qed.

(** ** Operations and reachable states *)

Inductive Operation :=
| OpAdmit (i : AdmitInput)
| OpReserveAttempt (h : AdmissionHandle) (i : AttemptInput) (now : Z)
| OpBeginDispatch (h : AdmissionHandle) (id : string) (now : Z)
| OpSelection (h : AdmissionHandle)
| OpReselectSubscription (h : AdmissionHandle) (now : Z)
| OpConfirmDispatched (h : AdmissionHandle) (id : string)
| OpReleaseBeforeDispatch (h : AdmissionHandle) (id : string)
| OpObserveProof (h : AdmissionHandle) (id : string) (pr : AccountProof)
| OpObserveTerminal (h : AdmissionHandle) (id : string) (e : TerminalEvidence) (final : bool)
| OpObserveDelivery (h : AdmissionHandle) (o : DeliveryOutcome)
| OpObserveUsage (h : AdmissionHandle) (id : string) (u : UsageObservation)
| OpResetEligible (h : AdmissionHandle) (now : Z)
| OpSettle (h : AdmissionHandle)
| OpCancelRelease (h : AdmissionHandle)
| OpPublish (b : CredentialOwnerBinding) (i : AccessPublication).

Definition drop_result {A} (m : Result exn (A * AuthorityState)) : Result exn AuthorityState :=
  '(_, st) ← m; Ok st.

(** The effect of one committed transaction. *)
Definition run (op : Operation) (st : AuthorityState) : Result exn AuthorityState :=
  match op with
  | OpAdmit i => drop_result (authority_admit i st)
  | OpReserveAttempt h i now => drop_result (reserveAttempt h i now st)
  | OpBeginDispatch h id now => drop_result (beginDispatch h id now st)
  | OpSelection h => drop_result (selection h st)
  | OpReselectSubscription h now => drop_result (reselectSubscription h now st)
  | OpConfirmDispatched h id => drop_result (confirmDispatched h id st)
  | OpReleaseBeforeDispatch h id => drop_result (releaseBeforeDispatch h id st)
  | OpObserveProof h id pr => drop_result (observeProof h id pr st)
  | OpObserveTerminal h id e final => drop_result (observeTerminal h id e final st)
  | OpObserveDelivery h o => drop_result (observeDelivery h o st)
  | OpObserveUsage h id u => drop_result (observeUsage h id u st)
  | OpResetEligible h now => drop_result (resetEligible h now st)
  | OpSettle h => drop_result (settle h st)
  | OpCancelRelease h => drop_result (cancelUndispatched_release h st)
  | OpPublish b i => drop_result (_applyPublication b i st)
  end.

Lemma run_lstep op st st' : inv st -> run op st = Ok st' -> lstep st st'.
Proof.
  intros Hinv H. destruct op; cbn in H; unfold drop_result in H; inv_ok.
  - by eapply admit_lstep.
  - by eapply reserveAttempt_lstep.
  - by eapply beginDispatch_lstep.
  - by eapply selection_lstep.
  - by eapply reselectSubscription_lstep.
  - by eapply confirmDispatched_lstep.
  - by eapply releaseBeforeDispatch_lstep.
  - by eapply observeProof_lstep.
  - by eapply observeTerminal_lstep.
  - by eapply observeDelivery_lstep.
  - by eapply observeUsage_lstep.
  - by eapply resetEligible_lstep.
  - by eapply settle_lstep.
  - by eapply cancelUndispatched_release_lstep.
  - by eapply publication_lstep.
Qed.

Inductive reachable (init : AuthorityState) : AuthorityState -> Prop :=
| reach_init : reachable init init
| reach_step st op st' : reachable init st -> run op st = Ok st' -> reachable init st'.

Lemma inv_init sc accs pols : inv (createAuthorityState sc accs pols).
Proof.
  constructor; cbn; done.
Qed.

Lemma reachable_inv init st : inv init -> reachable init st -> inv st.
Proof.
  intros Hinit Hr. induction Hr as [|st op st' _ IH Hrun]; [done|].
  eapply inv_lstep; [exact IH|]. by eapply run_lstep.
Qed.
