(* ===== verification/AuthorityQuota.v ===== *)
(** * Quotas and budgets of the portable authority

    What the counters are for: in every reachable state no principal window
    exceeds its request, kernel or concurrency limit, and the paid budget is
    exceeded by at most what providers billed beyond the admitted exposure. *)

From stdpp Require Import base gmap strings list.
From Stdlib Require Import ZArith Lia.
From S2P Require Import Prelude AuthorityContracts AuthorityAdmission AuthorityLedger AuthorityRefinement.
From S2P Require Import CredentialPublication AuthoritySafety.
Open Scope Z_scope.

Definition record_overspend (r : AdmissionRecord) : Z := msum overspend (attempts r).

Definition overspend_total (st : AuthorityState) (k : string * Z) : Z :=
  total_of record_overspend k (admissions st).

(** ** How one record step moves the counters *)

Definition requests_of (w : PrincipalWindow) : Z := reserved w + dispatched w.
Definition kernel_of (w : PrincipalWindow) : Z := kernelReserved w + kernelCompleted w.
Definition paid_of (w : PrincipalWindow) : Z := paidReservedMicrocredits w + paidSettledMicrocredits w.

Lemma requests_mono r b r' :
  rec_ok r -> rstep r b r' -> requests_of (contribution r') <= requests_of (contribution r).
Proof.
  intros Hok Hstep. unfold requests_of.
  destruct Hstep as [ | | | id a Ha Hs | | id a e final | | | | ]; cbn; try lia.
  - pose proof (rok_attempts _ Hok _ _ Ha) as Haok.
    destruct (request_dispatched r) eqn:Hd; cbn; [lia|]. destruct (settled r) eqn:Hset; cbn; [|lia].
    exfalso. pose proof (aok_settled _ _ _ _ Haok eq_refl) as Ho. unfold attempt_open in Ho.
    destruct Hs as [Hs|Hs]; [by rewrite Hs in Ho|].
    pose proof (aok_dispatched _ _ _ _ Haok Hs). congruence.
  - destruct final; cbn; lia.
  - destruct (request_dispatched r), (settled r); cbn; lia.
Qed.

Lemma kernel_mono r b r' :
  rec_ok r -> rstep r b r' -> kernel_of (contribution r') <= kernel_of (contribution r).
Proof.
  intros Hok Hstep. unfold kernel_of.
  destruct Hstep as [ | | | | | id a e final Ha Hs Ht Hsem Hsp | | | | ]; cbn; try lia.
  - destruct final; cbn; [|lia]. rewrite bool_decide_Some.
    destruct (kernelSettled r) eqn:Hk; cbn.
    + pose proof (rok_kernel _ Hok Hk). destruct (Hsem eq_refl) as [?| ->]; [done|].
      rewrite bool_decide_Some. lia.
    + case_bool_decide; cbn; lia.
  - destruct (kernelSettled r); cbn; repeat case_bool_decide; cbn; lia.
  - destruct (kernelSettled r) eqn:Hk; cbn; [|lia].
    pose proof (rok_kernel _ Hok Hk). destruct (semantic r); [cbn; lia|done].
Qed.

Lemma settled_mono r b r' : rstep r b r' -> settled r = true -> settled r' = true.
Proof. destruct 1; cbn; try done. by destruct final. Qed.

(** One attempt's paid claim net of overspend; it never grows once reserved. *)
Definition net_claim (a : AttemptRecord) : Z := held_exposure a + billed_spend a - overspend a.

Lemma net_claim_restate a s :
  (attempt_state a = NotDispatched -> s = NotDispatched) -> 0 <= exposure a ->
  net_claim (a <| attempt_state := s |>) <= net_claim a.
Proof.
  intros Hs He. unfold net_claim, held_exposure, billed_spend, overspend, is_paid.
  change (exposure (a <| attempt_state := s |>)) with (exposure a). cbn.
  repeat (case_bool_decide || case_match); cbn in *; try lia; naive_solver.
Qed.

Lemma net_claim_bill a s disp stl id :
  attempt_ok disp stl id a -> attempt_state a = Dispatched -> net_claim (bill a s) <= net_claim a.
Proof.
  intros Haok Hs. unfold bill. destruct s as [s|]; [|lia].
  destruct (billingSettled a) eqn:Hb; [lia|].
  pose proof (aok_exposure _ _ _ _ Haok) as He. pose proof (aok_codex _ _ _ _ Haok) as Hc.
  unfold net_claim, held_exposure, billed_spend, overspend.
  change (exposure (_ <| billingSettled := _ |> <| settledSpendMicrocredits := _ |>)) with (exposure a).
  change (is_paid (_ <| billingSettled := _ |> <| settledSpendMicrocredits := _ |>)) with (is_paid a).
  cbn. rewrite Hs, Hb, orb_true_r, !andb_false_r, !andb_true_r, orb_false_r.
  rewrite (bool_decide_false (Dispatched = NotDispatched)) by done.
  unfold is_paid. case_bool_decide; cbn; lia.
Qed.

Lemma record_net r :
  paid_of (contribution r) - record_overspend r = msum net_claim (attempts r).
Proof.
  unfold paid_of, record_overspend. cbn. unfold net_claim.
  induction (attempts r) as [|i a m Hi IH] using map_ind; [by rewrite !msum_empty|].
  rewrite !msum_insert_None by done. lia.
Qed.

Lemma net_claim_mono r r' :
  rec_ok r -> rstep r false r' ->
  paid_of (contribution r') - record_overspend r' <= paid_of (contribution r) - record_overspend r.
Proof.
  intros Hok Hstep. rewrite !record_net. pose proof (rok_attempts _ Hok) as Hatt.
  remember false as b eqn:Hb.
  destruct Hstep as [i Hc Hn Hp He Hx | id a Ha Hs Hset | acc gen Hc | id a Ha Hs | id a Ha Hs
    | id a e final Ha Hs Ht Hsem Hsp | o Hd | id a s Ha Hs Hpaid Ht Hbs Hsp | Hset Hsem Hdel Ho
    | Hcan]; cbn; try lia; try (pose proof (Hatt _ _ Ha) as Haok; pose proof (aok_exposure _ _ _ _ Haok)).
  - rewrite msum_insert_None by done. apply negb_false_iff, bool_decide_eq_true in Hb.
    unfold net_claim at 1. rewrite held_new, billed_new, (Hx Hb).
    unfold overspend. cbn. rewrite andb_false_r. lia.
  - rewrite (msum_insert_Some _ _ _ _ _ Ha).
    pose proof (net_claim_restate a DispatchIntent ltac:(congruence) ltac:(lia)). cbn in *. lia.
  - rewrite (msum_insert_Some _ _ _ _ _ Ha).
    assert (attempt_state a = NotDispatched -> Dispatched = NotDispatched) by (destruct Hs; congruence).
    pose proof (net_claim_restate a Dispatched ltac:(done) ltac:(lia)). cbn in *. lia.
  - rewrite (msum_insert_Some _ _ _ _ _ Ha).
    pose proof (net_claim_restate a NotDispatched ltac:(done) ltac:(lia)). cbn in *. lia.
  - assert (attempts (conclude r e final) = attempts r) as -> by by destruct final.
    rewrite (msum_insert_Some _ _ _ _ _ Ha).
    pose proof (net_claim_bill (a <| terminal := Some e |>) (spendMicrocredits e) _ _ _
      (attempt_ok_terminal _ _ _ _ e Hs Haok) Hs).
    change (net_claim (a <| terminal := Some e |>)) with (net_claim a) in *. cbn in *. lia.
  - rewrite (msum_insert_Some _ _ _ _ _ Ha).
    pose proof (net_claim_bill a (Some s) _ _ _ Haok Hs). cbn in *. lia.
  - rewrite msum_fmap. apply msum_le. intros id a Ha. pose proof (Hatt _ _ Ha) as Haok.
    pose proof (aok_exposure _ _ _ _ Haok). apply net_claim_restate; [done|lia].
Qed.

Lemma overspend_nonneg a : 0 <= overspend a.
Proof. unfold overspend. case_match; lia. Qed.

Lemma record_overspend_nonneg r : 0 <= record_overspend r.
Proof. apply msum_nonneg. intros. apply overspend_nonneg. Qed.

#[export] Hint Resolve overspend_nonneg record_overspend_nonneg : gateway.

Lemma overspend_total_nonneg st k : 0 <= overspend_total st k.
Proof.
  apply msum_nonneg. intros. case_bool_decide; [apply record_overspend_nonneg|lia].
Qed.

(** ** The limits as an invariant *)

Definition window_limits (st : AuthorityState) (p : PrincipalPolicy) (k : string * Z)
    (w : PrincipalWindow) : Prop :=
  requests_of w <= requestLimit p /\ kernel_of w <= kernelLimit p
  /\ paid_of w <= paidLimitMicrocredits p + overspend_total st k.

Definition within_limits (st : AuthorityState) : Prop :=
  forall pid p, policies st !! pid = Some p ->
    (forall w, windows st !! (pid, windowResetAtMs p) = Some w ->
       window_limits st p (pid, windowResetAtMs p) w)
    /\ active_requests st pid <= Z.max 0 (concurrencyLimit p).

Lemma active_requests_update st st' rid r r' pid :
  admissions st' = <[rid := r']> (admissions st) -> admissions st !! rid = Some r ->
  principalId r' = principalId r -> (settled r = true -> settled r' = true) ->
  active_requests st' pid <= active_requests st pid.
Proof.
  intros Ea Hr Hp Hs. unfold active_requests. rewrite Ea, !obj_count_msum.
  rewrite (msum_insert_Some _ _ _ _ _ Hr), Hp.
  case_bool_decide; cbn; [|lia]. destruct (settled r); cbn; [rewrite Hs by done; cbn; lia|].
  pose proof (b2z_nonneg (negb (settled r'))). destruct (settled r'); cbn; lia.
Qed.

Lemma active_requests_new st st' r pid :
  admissions st' = <[requestId (handle r) := r]> (admissions st) ->
  admissions st !! requestId (handle r) = None -> settled r = false ->
  active_requests st' pid = active_requests st pid + b2z (bool_decide (principalId r = pid)).
Proof.
  intros Ea Hr Hs. unfold active_requests. rewrite Ea, !obj_count_msum.
  rewrite msum_insert_None by done. rewrite Hs. cbn. rewrite andb_true_r. lia.
Qed.

Lemma overspend_total_update st st' rid r r' k :
  admissions st' = <[rid := r']> (admissions st) -> admissions st !! rid = Some r ->
  windowKey r' = windowKey r ->
  overspend_total st' k = overspend_total st k
    + (if bool_decide (windowKey r = k) then record_overspend r' - record_overspend r else 0).
Proof. intros Ea Hr Hk. unfold overspend_total. rewrite Ea. by apply total_of_insert_Some. Qed.

Lemma within_limits_update st st' rid r b r' w :
  inv st -> within_limits st -> admissions st' = <[rid := r']> (admissions st) ->
  policies st' = policies st -> admissions st !! rid = Some r -> rstep r b r' ->
  windows st !! windowKey r = Some w ->
  (b = true -> within_budget st (principalId r) (wadd w (delta r r'))) ->
  windows st' = <[windowKey r := wadd w (delta r r')]> (windows st) -> within_limits st'.
Proof.
  intros Hinv Hlim Ea Ep Hr Hstep Hw Hb Ew pid p. rewrite Ep. intros Hp.
  destruct (rstep_identity _ _ _ Hstep) as (_ & Ek & Epr & _).
  destruct (Hlim pid p Hp) as [Hwin Hact].
  pose proof (ri_ok _ _ _ (inv_records _ Hinv _ _ Hr)) as Hok.
  split.
  2: { pose proof (active_requests_update st st' rid r r' pid Ea Hr Epr (settled_mono _ _ _ Hstep)). lia. }
  intros w'. rewrite Ew, lookup_insert. unfold window_limits.
  rewrite (overspend_total_update st st' rid r r' _ Ea Hr Ek).
  case_decide as E; [|rewrite bool_decide_false by done; rewrite Z.add_0_r; apply Hwin].
  intros Hw'. injection Hw' as <-. rewrite bool_decide_true by done.
  rewrite E in Hw. destruct (Hwin w Hw) as (H1 & H2 & H3).
  pose proof (requests_mono _ _ _ Hok Hstep). pose proof (kernel_mono _ _ _ Hok Hstep).
  unfold requests_of, kernel_of, paid_of, delta, wadd, wopp in *. cbn in *.
  split_and!; [lia|lia|]. destruct b.
  - pose proof (rok_window _ Hok) as Hkp. rewrite E in Hkp. cbn in Hkp. subst pid.
    pose proof (Hb eq_refl p Hp) as Hbud. cbn in Hbud.
    pose proof (overspend_total_nonneg st' (principalId r, windowResetAtMs p)) as Hnn.
    rewrite (overspend_total_update st st' rid r r' _ Ea Hr Ek), bool_decide_true in Hnn by done. lia.
  - pose proof (net_claim_mono _ _ Hok Hstep) as Hnet. unfold paid_of in Hnet. cbn in Hnet. lia.
Qed.

Lemma within_limits_admit st st' r p :
  inv st -> within_limits st -> policies st' = policies st ->
  admissions st !! requestId (handle r) = None -> policies st !! principalId r = Some p ->
  windowKey r = (principalId r, windowResetAtMs p) ->
  attempts r = ∅ -> request_dispatched r = false -> kernelSettled r = false -> settled r = false ->
  0 <= paidLimitMicrocredits p ->
  over_quota (default emptyWindow (windows st !! windowKey r)) p (active_requests st (principalId r)) = false ->
  admissions st' = <[requestId (handle r) := r]> (admissions st) ->
  windows st' = <[windowKey r := wadd (default emptyWindow (windows st !! windowKey r))
                                   (contribution r)]> (windows st) -> within_limits st'.
Proof.
  intros Hinv Hlim Ep Hnone Hp Hkey Hatt Hd Hks Hset Hpl Hq Ea Ew pid q. rewrite Ep. intros Hq'.
  destruct (Hlim pid q Hq') as [Hwin Hact]. unfold over_quota in Hq. inv_ok. split.
  2: { rewrite (active_requests_new st st' r pid Ea Hnone Hset). case_bool_decide; cbn; [|lia].
       subst pid. rewrite Hp in Hq'. injection Hq' as <-. lia. }
  intros w'. rewrite Ew, lookup_insert. unfold window_limits, overspend_total. rewrite Ea.
  rewrite total_of_insert_None by done. unfold record_overspend at 1. rewrite Hatt, msum_empty.
  assert (forall k, (if bool_decide (windowKey r = k) then 0 else 0) = 0) as -> by (intros; by case_match).
  case_decide as E; [|rewrite Z.add_0_l; apply Hwin].
  intros Hw'. injection Hw' as <-. rewrite Hkey in E. injection E as Hpid Hreset. subst pid.
  rewrite Hp in Hq'. injection Hq' as <-.
  pose proof (overspend_total_nonneg st (principalId r, windowResetAtMs p)) as Hnn.
  unfold overspend_total in Hnn.
  rewrite Hkey in *.
  unfold requests_of, kernel_of, paid_of, contribution, wadd in *. cbn.
  rewrite Hd, Hks, Hset, Hatt, !msum_empty. cbn.
  destruct (windows st !! (principalId r, windowResetAtMs p)) as [w|] eqn:Hw; cbn in *; [|lia].
  destruct (Hwin w eq_refl) as (? & ? & ?). unfold requests_of, kernel_of, paid_of, overspend_total in *. lia.
Qed.

Lemma within_limits_lstep st st' : inv st -> within_limits st -> lstep st st' -> within_limits st'.
Proof.
  intros Hinv Hlim [Ep Es Ea Ew | rid r r' w b Ea Ep Es Hr Hstep Hw Hb Ew
    | r p Ep Es Hnone Hp Hkey Hatt Hd Hsem Hks Hdel Hset Hf ? ? ? ? Hq Ea Ew].
  - unfold within_limits, window_limits, overspend_total, active_requests in *.
    by rewrite Ep, Ea, Ew.
  - by eapply within_limits_update.
  - by eapply within_limits_admit.
Qed.

Lemma within_limits_init sc accs pols : within_limits (createAuthorityState sc accs pols).
Proof.
  intros pid p Hp. split; [done|]. unfold active_requests. rewrite obj_count_msum.
  unfold createAuthorityState. cbn [admissions]. rewrite msum_empty. lia.
Qed.

Lemma reachable_within_limits sc accs pols st :
  reachable (createAuthorityState sc accs pols) st -> within_limits st.
Proof.
  intros Hr. induction Hr as [|st op st' Hreach IH Hrun]; [apply within_limits_init|].
  assert (inv st) as Hinv by (eapply reachable_inv; [apply inv_init|done]).
  eapply within_limits_lstep; [done|exact IH|]. by eapply run_lstep.
Qed.
