(* ===== verification/AuthorityProgress.v ===== *)
(** * Progress and replay of the portable authority

    Attempts only move forward, a dispatch is won once, observations can be
    repeated after a lost acknowledgment, no operation trips over a missing
    window, and a request that never dispatched can always be cancelled. *)

From stdpp Require Import base gmap strings list.
From Stdlib Require Import ZArith Lia.
From S2P Require Import Prelude AuthorityContracts AuthorityAdmission AuthorityLedger AuthorityRefinement.
From S2P Require Import CredentialPublication AuthoritySafety.
Open Scope Z_scope.

(** ** Attempts move forward *)

Inductive attempt_le : AttemptState -> AttemptState -> Prop :=
| le_refl s : attempt_le s s
| le_reserved s : attempt_le Reserved s
| le_intent : attempt_le DispatchIntent Dispatched.

#[export] Hint Constructors attempt_le : gateway.

Lemma attempt_le_trans s1 s2 s3 : attempt_le s1 s2 -> attempt_le s2 s3 -> attempt_le s1 s3.
Proof. intros H1 H2. destruct H1; [done|constructor|]. inversion H2; constructor. Qed.

(** Every attempt of [r] is still in [r'], with the same input and no earlier. *)
Definition attempts_advance (r r' : AdmissionRecord) : Prop :=
  forall id a, attempts r !! id = Some a ->
    exists a', attempts r' !! id = Some a' /\ input a' = input a
               /\ attempt_le (attempt_state a) (attempt_state a').

Lemma attempts_advance_refl r : attempts_advance r r.
Proof. intros id a Ha. eauto with gateway. Qed.

Lemma attempts_advance_put r r0 id a a' :
  attempts r0 = attempts r -> attempts r !! id = Some a -> input a' = input a ->
  attempt_le (attempt_state a) (attempt_state a') -> attempts_advance r (put_attempt r0 id a').
Proof.
  intros E Ha Hin Hle id' b Hb. cbn. rewrite E, lookup_insert. case_decide as Hid.
  - subst id'. rewrite Ha in Hb. injection Hb as <-. eauto.
  - eauto with gateway.
Qed.

Lemma bill_input a s : input (bill a s) = input a.
Proof. unfold bill. by repeat case_match. Qed.

Lemma bill_state a s : attempt_state (bill a s) = attempt_state a.
Proof. unfold bill. by repeat case_match. Qed.

Lemma rstep_advance r b r' : rstep r b r' -> attempts_advance r r'.
Proof.
  destruct 1 as [i Hc Hn Hp He Hx | id a Ha Hs Hset | acc gen Hc | id a Ha Hs | id a Ha Hs
    | id a e final Ha Hs Ht Hsem Hsp | o Hd | id a s Ha Hs Hpaid Ht Hbs Hsp | Hset Hsem Hdel Ho
    | Hcan];
    try (intros ? x Hx; exists x; split_and!; [exact Hx|done|constructor]).
  - intros id a Ha. cbn. rewrite lookup_insert_ne by congruence. eauto with gateway.
  - eapply attempts_advance_put; try done. rewrite Hs. constructor.
  - eapply attempts_advance_put; try done. cbn. destruct Hs as [-> | ->]; constructor.
  - eapply attempts_advance_put; try done. rewrite Hs. constructor.
  - eapply attempts_advance_put; try done; [by destruct final| |].
    + by rewrite bill_input.
    + rewrite bill_state. constructor.
  - eapply attempts_advance_put; try done; [by rewrite bill_input|]. rewrite bill_state. constructor.
  - intros id a Ha. cbn. rewrite lookup_fmap, Ha. cbn. eexists. split_and!; [done|done|].
    cbn. destruct (Hcan _ _ Ha) as [-> | ->]; constructor.
Qed.

(** [advances st st']: every attempt known in [st] is known in [st'], under the
    same handle, and no earlier. *)
Definition advances (st st' : AuthorityState) : Prop :=
  forall rid r, admissions st !! rid = Some r ->
    exists r', admissions st' !! rid = Some r' /\ handle r' = handle r /\ attempts_advance r r'.

Lemma state_advances_refl st : advances st st.
Proof. intros rid r Hr. eauto using attempts_advance_refl. Qed.

Lemma state_advances_trans st1 st2 st3 : advances st1 st2 -> advances st2 st3 -> advances st1 st3.
Proof.
  intros H1 H2 rid r Hr. destruct (H1 _ _ Hr) as (r2 & Hr2 & Eh2 & Ha2).
  destruct (H2 _ _ Hr2) as (r3 & Hr3 & Eh3 & Ha3). exists r3. split_and!; [done|congruence|].
  intros id a Ha. destruct (Ha2 _ _ Ha) as (a2 & ? & ? & ?).
  destruct (Ha3 id a2) as (a3 & ? & ? & ?); [done|]. exists a3.
  split_and!; [done|congruence|by eapply attempt_le_trans].
Qed.

Lemma advances_lstep st st' : lstep st st' -> advances st st'.
Proof.
  intros [Ep Es Ea Ew | rid r r' w b Ea Ep Es Hr Hstep Hw Hb Ew
    | r p Ep Es Hnone Hp Hkey Hatt Hd Hsem Hks Hdel Hset Hf ? ? ? ? Hq Ea Ew] i q Hq'.
  - rewrite Ea. eauto using attempts_advance_refl.
  - rewrite Ea, lookup_insert. case_decide as E.
    + subst i. rewrite Hr in Hq'. injection Hq' as <-.
      destruct (rstep_identity _ _ _ Hstep) as (? & _). eauto using rstep_advance.
    + eauto using attempts_advance_refl.
  - rewrite Ea, lookup_insert_ne by congruence. eauto using attempts_advance_refl.
Qed.

Lemma reachable_advances st st' : inv st -> reachable st st' -> advances st st'.
Proof.
  intros Hinv Hr. induction Hr as [|st1 op st2 Hreach IH Hrun]; [apply state_advances_refl|].
  eapply state_advances_trans; [exact IH|]. eapply advances_lstep, run_lstep; [|done].
  by eapply reachable_inv.
Qed.

Lemma beginDispatch_true h id now st st' :
  beginDispatch h id now st = Ok (true, st') ->
  exists r a, admissions st' !! requestId h = Some r /\ attempts r !! id = Some a
              /\ attempt_state a = DispatchIntent.
Proof.
  unfold beginDispatch, lookup_own. intros H. inv_ok. open_request.
  case_bool_decide; inv_ok. exists (put_attempt r id (x0 <| attempt_state := DispatchIntent |>)).
  eexists. cbn. rewrite lookup_insert_eq. split_and!; [done|apply lookup_insert_eq|done].
Qed.

(** A dispatch that was won stays won: whatever runs in between, the next
    [beginDispatch] of that attempt does not win. *)
Lemma dispatch_won_once h id now st st1 st2 h' now' st3 b :
  inv st -> beginDispatch h id now st = Ok (true, st1) -> reachable st1 st2 ->
  requestId h' = requestId h -> beginDispatch h' id now' st2 = Ok (b, st3) -> b = false.
Proof.
  intros Hinv Hwin Hreach Hid H2.
  assert (inv st1) as Hinv1.
  { eapply inv_lstep; [exact Hinv|]. by eapply (beginDispatch_lstep st). }
  destruct (beginDispatch_true _ _ _ _ _ Hwin) as (q & a & Hq & Ha & Hs).
  destruct (reachable_advances _ _ Hinv1 Hreach _ _ Hq) as (r2 & Hr2 & _ & Hadv).
  destruct (Hadv _ _ Ha) as (a2 & Ha2 & _ & Hle). rewrite Hs in Hle.
  unfold beginDispatch, lookup_own in H2. inv_ok. open_request.
  rewrite Hid, Hr2 in Hr. injection Hr as <-.
  match goal with H : attempts r2 !! id = Some ?x |- _ => rewrite Ha2 in H; injection H as <- end.
  case_bool_decide as E; inv_ok; [|done]. rewrite E in Hle. inversion Hle.
Qed.

(** ** Evidence is written once *)

(** The terminal evidence and the bill of an attempt, once there, stay. *)
Definition attempt_kept (a a' : AttemptRecord) : Prop :=
  (forall t, terminal a = Some t -> terminal a' = Some t)
  /\ (billingSettled a = true ->
        billingSettled a' = true /\ settledSpendMicrocredits a' = settledSpendMicrocredits a).

Record evidence_kept (r r' : AdmissionRecord) : Prop := {
  ek_semantic o : semantic r = Some o -> semantic r' = Some o;
  ek_delivery d : delivery r = Some d -> d <> Unobserved -> delivery r' = Some d;
  ek_settled : settled r = true -> settled r' = true;
  ek_attempts id a : attempts r !! id = Some a ->
    exists a', attempts r' !! id = Some a' /\ attempt_kept a a' }.

Lemma attempt_kept_refl a : attempt_kept a a.
Proof. by split. Qed.

Lemma attempt_kept_trans a1 a2 a3 : attempt_kept a1 a2 -> attempt_kept a2 a3 -> attempt_kept a1 a3.
Proof.
  intros [Ht Hb] [Ht' Hb']. split; [by auto|]. intros H. destruct (Hb H) as [H2 E].
  destruct (Hb' H2) as [H3 E']. split; congruence.
Qed.

Lemma attempt_kept_bill a s : attempt_kept a (bill a s).
Proof. unfold bill. destruct s; [|by split]. destruct (billingSettled a) eqn:E; split; cbn; auto; congruence. Qed.

Lemma evidence_kept_refl r : evidence_kept r r.
Proof. constructor; eauto using attempt_kept_refl. Qed.

Lemma evidence_kept_trans r1 r2 r3 : evidence_kept r1 r2 -> evidence_kept r2 r3 -> evidence_kept r1 r3.
Proof.
  intros [S1 D1 T1 A1] [S2 D2 T2 A2]. constructor; eauto.
  intros id a Ha. destruct (A1 _ _ Ha) as (a2 & Ha2 & K2). destruct (A2 _ _ Ha2) as (a3 & Ha3 & K3).
  eauto using attempt_kept_trans.
Qed.

Lemma evidence_kept_put r r0 id a a' :
  attempts r0 = attempts r -> attempts r !! id = Some a -> attempt_kept a a' ->
  (forall o, semantic r = Some o -> semantic r0 = Some o) -> delivery r0 = delivery r ->
  settled r0 = settled r -> evidence_kept r (put_attempt r0 id a').
Proof.
  intros Ea Ha Hk Hs Hd Hset. constructor; cbn; rewrite ?Hd, ?Hset; auto.
  intros i b Hb. rewrite Ea, lookup_insert. case_decide; simplify_eq; eauto using attempt_kept_refl.
Qed.

Lemma rstep_evidence r b r' : rstep r b r' -> evidence_kept r r'.
Proof.
  destruct 1 as [i Hc Hn Hp He Hx | id a Ha Hs Hset | acc gen Hc | id a Ha Hs | id a Ha Hs
    | id a e final Ha Hs Ht Hsem Hsp | o Hd | id a s Ha Hs Hpaid Ht Hb Hsp | Hset Hsem Hdel Ho | Hcan].
  - constructor; cbn; try done. intros id a Ha. rewrite lookup_insert_ne by congruence.
    eauto using attempt_kept_refl.
  - by eapply evidence_kept_put.
  - constructor; cbn; eauto using attempt_kept_refl.
  - pose proof (evidence_kept_put r r id a (a <| attempt_state := Dispatched |>)) as K.
    destruct K; try done.
  - by eapply evidence_kept_put.
  - eapply evidence_kept_put; try done; try by destruct final.
    + eapply attempt_kept_trans; [|apply attempt_kept_bill]. split; cbn; [|done].
      destruct Ht as [-> | ->]; congruence.
    + destruct final; [|done]. cbn. intros o Ho. destruct (Hsem eq_refl); congruence.
  - constructor; cbn; eauto using attempt_kept_refl. intros d Hd' Hne. naive_solver.
  - eapply evidence_kept_put; try done. apply attempt_kept_bill.
  - constructor; cbn; eauto using attempt_kept_refl.
  - constructor; cbn; try (by intros ? ->); try done.
    intros id a Ha. rewrite lookup_fmap, Ha. eexists. split; [done|]. by split.
Qed.

Definition keeps_evidence (st st' : AuthorityState) : Prop :=
  forall rid r, admissions st !! rid = Some r ->
    exists r', admissions st' !! rid = Some r' /\ evidence_kept r r'.

Lemma keeps_evidence_lstep st st' : lstep st st' -> keeps_evidence st st'.
Proof.
  intros [Ep Es Ea Ew | rid r r' w b Ea Ep Es Hr Hstep Hw Hb Ew
    | r p Ep Es Hnone Hp Hkey Hatt Hd Hsem Hks Hdel Hset Hf ? ? ? ? Hq Ea Ew] i q Hq'; rewrite Ea.
  - eauto using evidence_kept_refl.
  - rewrite lookup_insert. case_decide; simplify_eq; eauto using evidence_kept_refl, rstep_evidence.
  - rewrite lookup_insert_ne by congruence. eauto using evidence_kept_refl.
Qed.

Lemma reachable_evidence st st' : inv st -> reachable st st' -> keeps_evidence st st'.
Proof.
  intros Hinv Hr. induction Hr as [|st1 op st2 Hreach IH Hrun]; [intros ?; eauto using evidence_kept_refl|].
  intros rid r Hrid. destruct (IH _ _ Hrid) as (r1 & Hr1 & K1).
  assert (lstep st1 st2) as Hl by (eapply run_lstep; [by eapply reachable_inv|done]).
  destruct (keeps_evidence_lstep _ _ Hl _ _ Hr1) as (r2 & Hr2 & K2). eauto using evidence_kept_trans.
Qed.

(** ** No operation meets a missing window *)

Lemma bind_err {E A B} (m : Result E A) (k : A -> Result E B) e :
  (m ≫= k) = Err e -> m = Err e \/ exists a, m = Ok a /\ k a = Err e.
Proof. destruct m; cbn; naive_solver. Qed.

Lemma with_window_no_error st k f e : is_Some (windows st !! k) -> with_window st k f <> Err e.
Proof. intros [w Hw]. unfold with_window. by rewrite Hw. Qed.

Lemma throw_if_code b c s : throw_if b (AuthorityError c s) <> Err TypeError.
Proof. by destruct b. Qed.

Lemma or_throw_code {A} (o : option A) c s : or_throw o (AuthorityError c s) <> Err TypeError.
Proof. by destruct o. Qed.

(** [no_type_error] walks a failing run guard by guard; only a missing window
    is left. *)
Ltac no_type_error :=
  repeat match goal with
  | H : (_ ≫= _) = Err TypeError |- _ => apply bind_err in H as [H | (? & ? & H)]
  | H : throw_if _ (authorityError _) = Err TypeError |- _ => by destruct (throw_if_code _ _ _ H)
  | H : throw_if _ (AuthorityError _ _) = Err TypeError |- _ => by destruct (throw_if_code _ _ _ H)
  | H : or_throw _ (authorityError _) = Err TypeError |- _ => by destruct (or_throw_code _ _ _ H)
  | H : or_throw _ (AuthorityError _ _) = Err TypeError |- _ => by destruct (or_throw_code _ _ _ H)
  | H : or_throw ?o SyntaxError = Err TypeError |- _ => destruct o; discriminate H
  | H : assertAmount _ = Err TypeError |- _ => by destruct (throw_if_code _ _ _ H)
  | H : Ok _ = Err _ |- _ => discriminate H
  | H : _request _ _ = Ok _ |- _ => apply _request_ok in H as [? ?]
  | H : (let '(_, _) := ?x in _) = Err _ |- _ => destruct x
  | H : (if ?b then _ else _) = Err _ |- _ => destruct b eqn:?
  | H : match ?x with _ => _ end = Err _ |- _ => destruct x eqn:?
  end.

Lemma _request_no_type_error st h : _request st h <> Err TypeError.
Proof. unfold _request. intros H. no_type_error. Qed.

Lemma current_policy_no_type_error st pid v : current_policy st pid v <> Err TypeError.
Proof. unfold current_policy. intros H. no_type_error. Qed.

Lemma selectAccount_no_type_error st m now : selectAccount st m now <> Err TypeError.
Proof. unfold selectAccount, select_next. intros H. no_type_error. Qed.

Lemma reserveSubscription_no_type_error st r i now : reserveSubscription st r i now <> Err TypeError.
Proof. unfold reserveSubscription. intros H. no_type_error. Qed.

Ltac no_type_error_calls :=
  no_type_error;
  repeat match goal with
  | H : _request _ _ = Err TypeError |- _ => by destruct (_request_no_type_error _ _ H)
  | H : current_policy _ _ _ = Err TypeError |- _ => by destruct (current_policy_no_type_error _ _ _ H)
  | H : selectAccount _ _ _ = Err TypeError |- _ => by destruct (selectAccount_no_type_error _ _ _ H)
  | H : reserveSubscription _ _ _ _ = Err TypeError |- _ =>
      by destruct (reserveSubscription_no_type_error _ _ _ _ H)
  end.

Section no_type_error.
Context (st : AuthorityState) (Hinv : inv st).

Lemma window_of rid r : admissions st !! rid = Some r -> is_Some (windows st !! windowKey r).
Proof. intros Hr. exact (ri_window _ _ _ (inv_records _ Hinv _ _ Hr)). Qed.

Lemma missing_window rid r f e :
  admissions st !! rid = Some r -> with_window st (windowKey r) f = Err e -> False.
Proof. intros Hr. apply with_window_no_error. by eapply window_of. Qed.

Lemma reservePaid_no_type_error rid r i p now :
  admissions st !! rid = Some r -> reservePaid st r i p now <> Err TypeError.
Proof.
  intros Hr H. destruct (window_of _ _ Hr) as [w Hw]. unfold reservePaid in H. no_type_error.
  by rewrite Hw in H.
Qed.

Lemma observeTerminal_no_type_error h id e final :
  observeTerminal h id e final st <> Err TypeError.
Proof.
  unfold observeTerminal, assert_spend. intros H. no_type_error_calls.
  - unfold settle_kernel in H. no_type_error. by eapply missing_window.
  - match goal with Hr : admissions st !! _ = Some _ |- _ => destruct (window_of _ _ Hr) as [w Hw] end.
    match goal with Hk : _ = Ok (_, _) |- _ =>
      apply (observeTerminal_kernel st Hinv _ _ _ _ _ w Hw) in Hk as [-> ->] end.
    unfold settle_billing in H. no_type_error.
    eapply with_window_no_error; [|exact H].
    assert (windowKey (conclude x0 e final) = windowKey x0) as -> by by destruct final.
    cbn. rewrite lookup_insert_eq. eauto.
Qed.

Lemma run_no_type_error op : run op st <> Err TypeError.
Proof.
  intros H. destruct op; cbn in H; unfold drop_result in H; no_type_error.
  - unfold authority_admit, admit_fresh in H. no_type_error_calls.
  - unfold reserveAttempt in H. no_type_error_calls. by eapply reservePaid_no_type_error.
  - unfold beginDispatch in H. no_type_error_calls.
  - unfold selection in H. no_type_error_calls.
  - unfold reselectSubscription in H. no_type_error_calls.
  - unfold confirmDispatched in H. no_type_error_calls. by eapply missing_window.
  - unfold releaseBeforeDispatch in H. no_type_error_calls. by eapply missing_window.
  - unfold observeProof in H. no_type_error_calls.
  - by eapply observeTerminal_no_type_error.
  - unfold observeDelivery in H. no_type_error_calls.
  - unfold observeUsage in H. no_type_error_calls. by eapply missing_window.
  - unfold resetEligible in H. no_type_error_calls.
  - unfold settle in H. no_type_error_calls. by eapply missing_window.
  - unfold cancelUndispatched_release in H. no_type_error_calls. by eapply missing_window.
  - unfold _applyPublication, regresses, bigint_le in H. no_type_error_calls.
Qed.
End no_type_error.

(** ** Observations can be replayed *)

(** The operations a client repeats after a lost response. *)
Definition replayable (op : Operation) : bool :=
  match op with
  | OpAdmit _ | OpReserveAttempt _ _ _ | OpConfirmDispatched _ _ | OpReleaseBeforeDispatch _ _
  | OpObserveTerminal _ _ _ _ | OpObserveDelivery _ _ | OpObserveUsage _ _ _ | OpSettle _
  | OpSelection _ | OpResetEligible _ _ | OpCancelRelease _ => true
  | _ => false
  end.

Lemma put_request_id st h r : admissions st !! requestId h = Some r -> put_request st h r = st.
Proof. intros Hr. unfold put_request. cbn. rewrite insert_id by done. by destruct st. Qed.

Lemma put_attempt_id r id a : attempts r !! id = Some a -> put_attempt r id a = r.
Proof. intros Ha. unfold put_attempt. cbn. rewrite insert_id by done. by destruct r. Qed.

Lemma request_after_put st h r : fence (handle r) = fence h -> _request (put_request st h r) h = Ok r.
Proof. intros Hf. apply _request_ok. split; [apply lookup_insert_eq|done]. Qed.

Lemma same_request_new i h k acc gen : same_request (new_admission i h k acc gen) i = true.
Proof. unfold same_request. cbn. rewrite !bool_decide_true by done. by rewrite Z.eqb_refl. Qed.

Ltac replay_start :=
  match goal with H : drop_result _ = Ok _ |- _ => unfold drop_result in H |- *; inv_ok end.

Section replay.
Context (st st' : AuthorityState).

Lemma admit_replay i : drop_result (authority_admit i st) = Ok st' -> drop_result (authority_admit i st') = Ok st'.
Proof.
  intros H. replay_start. unfold authority_admit, lookup_own in *.
  destruct (admissions st !! admit_requestId i) as [prev|] eqn:Hprev.
  - inv_ok. rewrite Hprev.
    match goal with H : same_request _ _ = true |- _ => by rewrite H end.
  - unfold admit_fresh in *. inv_ok. cbn. rewrite lookup_insert_eq. cbn.
    by rewrite same_request_new.
Qed.

Lemma reserveAttempt_replay h i now :
  drop_result (reserveAttempt h i now st) = Ok st' ->
  drop_result (reserveAttempt h i now st') = Ok st'.
Proof.
  intros H. replay_start. unfold reserveAttempt, lookup_own in *. inv_ok.
  match goal with H : assertAmount _ = Ok _ |- _ => rewrite H end. cbn. open_request.
  destruct (attempts r !! attemptId i) as [a|] eqn:Ha; inv_ok.
  - rewrite (proj2 (_request_ok _ _ _) (conj Hr Hfence)). cbn.
    match goal with H : admission_closed _ = false |- _ => rewrite H end. cbn. rewrite Ha.
    match goal with H : sameEvidence _ _ = true |- _ => by rewrite H end.
  - rewrite request_after_put by done. cbn.
    change (admission_closed _) with (admission_closed r).
    match goal with H : admission_closed _ = false |- _ => rewrite H end. cbn.
    rewrite lookup_insert_eq. cbn. by rewrite sameEvidence_refl.
Qed.

Lemma confirmDispatched_replay h id :
  drop_result (confirmDispatched h id st) = Ok st' ->
  drop_result (confirmDispatched h id st') = Ok st'.
Proof.
  intros H. replay_start. unfold confirmDispatched, lookup_own in *. inv_ok. open_request.
  assert (forall s r', handle r' = handle r ->
    attempts r' = <[id := x0 <| attempt_state := Dispatched |>]> (attempts r) ->
    request_dispatched r' = true ->
    (confirmDispatched h id (put_request s h r')) = Ok (tt, put_request s h r')) as Hagain.
  { intros s r' Eh Ea Ed. unfold confirmDispatched, lookup_own.
    rewrite request_after_put by congruence. cbn. rewrite Ea, lookup_insert_eq. cbn.
    rewrite (bool_decide_true (Dispatched = Dispatched)), andb_false_r by done. cbn.
    rewrite Ed. cbn. rewrite put_attempt_id by (rewrite Ea; apply lookup_insert_eq).
    do 2 f_equal. apply put_request_id, lookup_insert_eq. }
  destruct (request_dispatched r) eqn:Hd; inv_ok; fold (confirmDispatched h id);
    match goal with |- context [put_request ?s h ?q] => pose proof (Hagain s q) as Hq end;
    unfold confirmDispatched, lookup_own in Hq; by rewrite Hq.
Qed.

Lemma releaseBeforeDispatch_replay h id :
  drop_result (releaseBeforeDispatch h id st) = Ok st' ->
  drop_result (releaseBeforeDispatch h id st') = Ok st'.
Proof.
  intros H. replay_start. unfold releaseBeforeDispatch, lookup_own in *. inv_ok. open_request.
  pose proof (proj2 (_request_ok _ _ _) (conj Hr Hfence)) as Hreq.
  destruct (attempts r !! id) as [a|] eqn:Ha; [|inv_ok; rewrite Hreq; cbn; by rewrite Ha].
  case_bool_decide as E; inv_ok.
  - rewrite Hreq. cbn. by rewrite Ha, E.
  - rewrite request_after_put by done. cbn. by rewrite lookup_insert_eq.
Qed.

Lemma observeDelivery_replay h o :
  drop_result (observeDelivery h o st) = Ok st' -> drop_result (observeDelivery h o st') = Ok st'.
Proof.
  intros H. replay_start. unfold observeDelivery in *. inv_ok. open_request.
  pose proof (proj2 (_request_ok _ _ _) (conj Hr Hfence)) as Hreq.
  destruct (negb (bool_decide (o = Unobserved)) || bool_decide (delivery r = None)) eqn:E; inv_ok.
  - rewrite request_after_put by done. cbn. rewrite (bool_decide_true (o = o)) by done.
    rewrite andb_false_r. cbn.
    match goal with |- context [put_request (put_request st h ?q) h ?q'] =>
      rewrite (put_request_id (put_request st h q) h q') by apply lookup_insert_eq end.
    destruct (negb (bool_decide (o = Unobserved)) || false); reflexivity.
  - rewrite Hreq. cbn.
    match goal with H : match delivery r with _ => _ end = false |- _ => rewrite H end. cbn.
    by rewrite (bool_decide_true (o = Unobserved)), (bool_decide_false (delivery r = None)) by done.
Qed.

Lemma settle_replay h : drop_result (settle h st) = Ok st' -> drop_result (settle h st') = Ok st'.
Proof.
  intros H. replay_start. unfold settle in *. inv_ok. open_request.
  pose proof (proj2 (_request_ok _ _ _) (conj Hr Hfence)) as Hreq.
  destruct (settled r) eqn:Hset; [inv_ok; rewrite Hreq; cbn; by rewrite Hset|].
  destruct (semantic r) eqn:Hsem; [|inv_ok; rewrite Hreq; cbn; by rewrite Hset, Hsem].
  destruct (delivery r) eqn:Hdel; [|inv_ok; rewrite Hreq; cbn; by rewrite Hset, Hsem, Hdel].
  destruct (obj_some attempt_open (attempts r)) eqn:Ho; inv_ok.
  - rewrite Hreq. cbn. by rewrite Hset, Hsem, Hdel, Ho.
  - by rewrite request_after_put.
Qed.

Lemma observeUsage_replay h id u :
  drop_result (observeUsage h id u st) = Ok st' -> drop_result (observeUsage h id u st') = Ok st'.
Proof.
  intros H. replay_start. unfold observeUsage, lookup_own in *. inv_ok. open_request. open_attempt.
  match goal with H : assertAmount _ = Ok _ |- _ => rewrite H end. cbn.
  pose proof (proj2 (_request_ok _ _ _) (conj Hr Hfence)) as Hreq.
  destruct (billingSettled a) eqn:Hb; inv_ok.
  - rewrite Hreq. cbn. rewrite Ha. cbn.
    match goal with H : terminal a = Some _ |- _ => rewrite H end. cbn.
    repeat match goal with H : ?x = _ |- context [bool_decide (?x = _)] => rewrite H end.
    match goal with H : is_paid a = true |- _ => rewrite H end.
    rewrite !bool_decide_true by done. cbn. by rewrite Hb.
  - rewrite request_after_put by done. cbn. rewrite lookup_insert_eq. cbn.
    match goal with H : terminal a = Some _ |- _ => rewrite H end. cbn.
    repeat match goal with H : ?x = _ |- context [bool_decide (?x = _)] => rewrite H end.
    change (is_paid (mkAttempt (input a) _ _ _ _)) with (is_paid a).
    match goal with H : is_paid a = true |- _ => rewrite H end.
    by rewrite !bool_decide_true by done.
Qed.

Lemma cancelUndispatched_release_replay h :
  drop_result (cancelUndispatched_release h st) = Ok st' ->
  drop_result (cancelUndispatched_release h st') = Ok st'.
Proof.
  intros H. replay_start. unfold cancelUndispatched_release in *. inv_ok. open_request.
  rewrite request_after_put by done. cbn.
  repeat (match goal with |- context [obj_some ?p ?m] =>
    assert (obj_some p m = false) as ->
      by (apply obj_some_false; intros id b; rewrite lookup_fmap_Some; by intros (c & <- & _)) end; cbn).
  cbn. rewrite put_request_id; [done|]. cbn. rewrite lookup_insert_eq. do 2 f_equal.
  rewrite <- map_fmap_compose. by apply map_fmap_ext.
Qed.

Lemma terminal_after_put s h id e final r0 (a : AttemptRecord) :
  fence (handle r0) = fence h -> attempts r0 !! id = Some a ->
  attempt_state a = Dispatched -> terminal a = Some e ->
  (final = true -> semantic r0 = Some (outcome e) /\ kernelSettled r0 = true) ->
  (forall x, spendMicrocredits e = Some x -> assertAmount x = Ok tt /\ billingSettled a = true) ->
  observeTerminal h id e final (put_request s h r0) = Ok (tt, put_request s h r0).
Proof.
  intros Hf Ha Hs Ht Hsem Hbill. unfold observeTerminal, assert_spend, lookup_own.
  assert (match spendMicrocredits e with Some x => assertAmount x | None => Ok tt end = Ok tt) as ->.
  { destruct (spendMicrocredits e) as [x|]; [|done]. by apply (Hbill x). }
  cbn. rewrite request_after_put by done. cbn. rewrite Ha. cbn. rewrite Hs, Ht.
  rewrite (bool_decide_true (Dispatched = Dispatched)), sameEvidence_refl by done. cbn.
  assert (final && match semantic r0 with
           | Some o => negb (bool_decide (o = outcome e)) | None => false end = false) as ->.
  { destruct final; [|done]. destruct (Hsem eq_refl) as [-> _]. cbn.
    by rewrite bool_decide_true. }
  cbn.
  assert ((if final then settle_kernel (put_request s h r0) (r0 <| semantic := Some (outcome e) |>)
             (outcome e) else Ok (r0, put_request s h r0)) = Ok (r0, put_request s h r0)) as E.
  { destruct final; [|done]. destruct (Hsem eq_refl) as [E1 E2]. unfold settle_kernel. cbn.
    rewrite E2. do 2 f_equal. destruct r0; cbn in *; by subst. }
  cbn in E. rewrite E. cbn.
  assert (mkAttempt (input a) Dispatched (Some e) (billingSettled a) (settledSpendMicrocredits a) = a) as ->.
  { destruct a; cbn in *; by subst. }
  unfold settle_billing.
  assert (match spendMicrocredits e with
          | Some _ => billingSettled a = true | None => True end) as Hb.
  { destruct (spendMicrocredits e) as [x|]; [|done]. by apply (Hbill x). }
  destruct (spendMicrocredits e); [rewrite Hb|]; cbn;
    rewrite (put_attempt_id _ _ _ Ha), put_request_id; by try apply lookup_insert_eq.
Qed.
End replay.

Lemma settle_kernel_record s r o r1 s1 :
  settle_kernel s r o = Ok (r1, s1) -> r1 = r <| kernelSettled := true |>.
Proof.
  unfold settle_kernel. destruct (kernelSettled r) eqn:E; intros H; inv_ok; [|done].
  destruct r1; cbn in *; by subst.
Qed.

Lemma settle_billing_attempt s r a sp a1 s1 : settle_billing s r a sp = Ok (a1, s1) -> a1 = bill a sp.
Proof. unfold settle_billing, bill. intros H. repeat (case_match; inv_ok); done. Qed.

Lemma bill_terminal a s : terminal (bill a s) = terminal a.
Proof. unfold bill. by repeat case_match. Qed.

Lemma bill_settled a x : billingSettled (bill a (Some x)) = true.
Proof. cbn. destruct (billingSettled a) eqn:E; done. Qed.

Lemma observeTerminal_replay st st' h id e final :
  drop_result (observeTerminal h id e final st) = Ok st' ->
  drop_result (observeTerminal h id e final st') = Ok st'.
Proof.
  intros H. replay_start. fold (observeTerminal h id e final st') in *.
  unfold observeTerminal, lookup_own in H. inv_ok. open_request. open_attempt.
  rename a3 into at0, a into r1, a0 into st1, a1 into at1, a2 into st2.
  assert (r1 = conclude r e final) as ->.
  { destruct final; [|by inv_ok].
    match goal with H : settle_kernel _ _ _ = _ |- _ => by apply settle_kernel_record in H end. }
  match goal with H : settle_billing _ _ _ _ = _ |- _ => apply settle_billing_attempt in H as -> end.
  rewrite (terminal_after_put st2 h id e final _ (bill (at0 <| terminal := Some e |>) (spendMicrocredits e)));
    try done.
  - by destruct final.
  - apply lookup_insert_eq.
  - by rewrite bill_state.
  - by rewrite bill_terminal.
  - by intros ->.
  - intros x Hx. unfold assert_spend in *. rewrite Hx in *. split; [done|apply bill_settled].
Qed.

Lemma run_replay op st st' : replayable op = true -> run op st = Ok st' -> run op st' = Ok st'.
Proof.
  destruct op; cbn; try done; intros _.
  - apply admit_replay.
  - apply reserveAttempt_replay.
  - intros H. replay_start. unfold selection in *. inv_ok. open_request.
    by rewrite (proj2 (_request_ok _ _ _) (conj Hr Hfence)).
  - apply confirmDispatched_replay.
  - apply releaseBeforeDispatch_replay.
  - apply observeTerminal_replay.
  - apply observeDelivery_replay.
  - apply observeUsage_replay.
  - intros H. replay_start. unfold resetEligible in *. inv_ok. open_request.
    by rewrite (proj2 (_request_ok _ _ _) (conj Hr Hfence)).
  - apply settle_replay.
  - apply cancelUndispatched_release_replay.
Qed.

(** ** Cancellation always releases *)

Lemma cancel_settles st h r :
  inv st -> admissions st !! requestId h = Some r -> fence (handle r) = fence h -> settled r = false ->
  (forall id a, attempts r !! id = Some a -> attempt_state a = Reserved \/ attempt_state a = NotDispatched) ->
  exists st' r', cancelUndispatched h st = Ok (Settled, st')
    /\ admissions st' !! requestId h = Some r' /\ settled r' = true
    /\ reserved (contribution r') = 0 /\ kernelReserved (contribution r') = 0
    /\ active (contribution r') = 0 /\ paidReservedMicrocredits (contribution r') = 0
    /\ delivery r' <> None.
Proof.
  intros Hinv Hr Hf Hset Hcan.
  pose proof (ri_ok _ _ _ (inv_records _ Hinv _ _ Hr)) as Hok.
  destruct (cancel_contribution r Hok Hcan) as (Hh & _ & _).
  destruct (window_of _ Hinv _ _ Hr) as [w Hw].
  unfold cancelUndispatched, cancelUndispatched_release.
  rewrite (proj2 (_request_ok _ _ _) (conj Hr Hf)). cbn.
  assert (obj_some (fun a => bool_decide (attempt_state a = DispatchIntent)
            || bool_decide (attempt_state a = Dispatched)) (attempts r) = false) as ->.
  { apply obj_some_false. intros id a Ha. by destruct (Hcan _ _ Ha) as [-> | ->]. }
  cbn.
  assert (exists s, (if obj_some is_reserved (attempts r)
      then with_window st (windowKey r) (fun w => w <| paidReservedMicrocredits :=
             paidReservedMicrocredits w - msum (fun a => if is_reserved a
               then maximumExposureMicrocredits (input a) else 0) (attempts r) |>)
      else Ok st) = Ok s /\ is_Some (windows s !! windowKey r)) as (s & Es & w' & Hw').
  { destruct (obj_some is_reserved (attempts r)); [|eauto]. unfold with_window. rewrite Hw. cbn.
    eexists. split; [done|]. cbn. rewrite lookup_insert_eq. eauto. }
  cbn in Es. rewrite Es. cbn. unfold settle. rewrite request_after_put by done. cbn. rewrite Hset.
  match goal with |- context [obj_some ?p ?m] => assert (obj_some p m = false) as ->
    by (apply obj_some_false; intros id b; rewrite lookup_fmap_Some; by intros (c & <- & _)) end.
  unfold with_window. cbn. rewrite Hw'. cbn. do 2 eexists. split; [done|]. cbn.
  rewrite lookup_insert_eq. split; [done|]. cbn. rewrite andb_false_r. cbn in Hh. rewrite Hh. done.
Qed.
