(* ===== verification/AuthorityStore.v ===== *)
(** * The durable authority store

    [src/authority/durable-store.ts]: one SQL row holds the whole authority
    state as JSON, behind a shape guard, a byte bound and a revision that
    compare-and-swap advances.  [AuthorityStore] is the interface the
    transaction loop relies on; [DurableAuthorityStore] implements it. *)

From stdpp Require Import base gmap strings list pretty.
From Stdlib Require Import ZArith Lia Ascii.
From S2P Require Import Prelude Js AuthorityContracts.
Open Scope string_scope.
Open Scope Z_scope.

(** ** Shape guards *)

Module Guards.

Definition Guard : Type := jsval -> bool.

Definition record (v : jsval) : bool := match v with JObj _ => true | _ => false end.
Definition text : Guard := fun v => match v with JStr _ => true | _ => false end.
Definition number : Guard := fun v => match nonNegativeSafeInteger v with Some _ => true | None => false end.
Definition boolean : Guard := fun v => match v with JBool _ => true | _ => false end.

(** [oneOf] is only called with string literals and [null]. *)
Definition oneOf (null_allowed : bool) (values : list string) : Guard := fun v =>
  match v with
  | JStr s => bool_decide (s ∈ values)
  | JNull => null_allowed
  | _ => false
  end.

Definition nullable (g : Guard) : Guard := fun v => is_null v || g v.

Definition array (g : Guard) : Guard := fun v =>
  match v with JArr items => forallb g items | _ => false end.

Definition dictionary (g : Guard) : Guard := fun v =>
  match v with JObj fs => forallb (fun kv => g (snd kv)) fs | _ => false end.

Definition fields (shape : list (string * Guard)) : Guard := fun v =>
  match v with
  | JObj fs => bool_decide (length fs = length shape)
               && forallb (fun kg => hasOwn v (fst kg) && snd kg (prop v (fst kg))) shape
  | _ => false
  end.

Definition scopeGuard : Guard := fields [("namespace", text); ("epoch", number)].

Definition proof : Guard := fields
  [("kind", oneOf false ["quota_exhausted"; "credential_invalid"; "transient"]); ("model", text);
   ("fingerprint", text); ("observedAtMs", number); ("validUntilMs", number)].

Definition account : Guard := fields
  [("accountId", text); ("fingerprint", text); ("credentialGeneration", number);
   ("routingGeneration", number); ("resetGeneration", number); ("overageVersion", number);
   ("overageEnabled", boolean); ("enabled", boolean); ("models", array text);
   ("proof", nullable proof)].

Definition handle : Guard := fields [("scope", scopeGuard); ("requestId", text); ("fence", number)].

Definition terminal : Guard := fields
  [("outcome", oneOf false ["completed"; "incomplete"; "failed"; "cancelled"]);
   ("providerRequestId", nullable text); ("spendMicrocredits", nullable number);
   ("fallback", oneOf true ["quota_exhausted"; "capacity_exhausted"])].

Definition attempt_input : Guard := fields
  [("attemptId", text); ("provider", oneOf false ["codex"; "surplus"; "openlux"]);
   ("maximumExposureMicrocredits", number); ("account", nullable account)].

Definition attempt : Guard := fields
  [("input", attempt_input);
   ("state", oneOf false ["reserved"; "dispatch_intent"; "dispatched"; "not_dispatched"]);
   ("terminal", nullable terminal); ("billingSettled", boolean);
   ("settledSpendMicrocredits", nullable number)].

Definition admission : Guard := fields
  [("handle", handle); ("principalId", text); ("policyVersion", number); ("windowKey", text);
   ("digest", text); ("route", oneOf false ["/v1/responses"; "/v1/chat/completions"]);
   ("model", text); ("account", nullable account); ("activeGeneration", nullable number);
   ("attempts", dictionary attempt); ("dispatched", boolean);
   ("semantic", oneOf true ["completed"; "incomplete"; "failed"; "cancelled"]);
   ("kernelSettled", boolean); ("delivery", oneOf true ["delivered"; "interrupted"; "unobserved"]);
   ("settled", boolean)].

Definition active : Guard := fields [("accountId", text); ("fingerprint", text); ("generation", number)].

Definition policy : Guard := fields
  [("principalId", text); ("version", number); ("deleted", boolean); ("windowResetAtMs", number);
   ("requestLimit", number); ("kernelLimit", number); ("concurrencyLimit", number);
   ("paidLimitMicrocredits", number)].

Definition window : Guard := fields
  [("reserved", number); ("dispatched", number); ("kernelReserved", number);
   ("kernelCompleted", number); ("active", number); ("paidReservedMicrocredits", number);
   ("paidSettledMicrocredits", number)].

Definition publication : Guard := fields
  [("ownerId", text); ("ownerEpoch", number); ("accountId", text); ("workspaceId", text);
   ("generation", number); ("nativeRefreshedAtNs", text); ("fingerprint", text);
   ("accessToken", text); ("idToken", text); ("issuedAtMs", number); ("expiresAtMs", number)].

Definition stateGuard : Guard := fields
  [("scope", scopeGuard); ("sequence", number); ("accounts", array account);
   ("active", nullable active); ("policies", dictionary policy); ("windows", dictionary window);
   ("admissions", dictionary admission); ("publications", dictionary publication)].

End Guards.

(** ** The JSON image of a state *)

Definition jopt {A} (f : A -> jsval) (o : option A) : jsval :=
  match o with Some a => f a | None => JNull end.

Definition jdict {A} (f : A -> jsval) (m : gmap string A) : jsval :=
  JObj ((fun '(k, a) => (k, f a)) <$> map_to_list m).

Definition json_scope (s : AuthorityScope) : jsval :=
  JObj [("namespace", JStr (namespace s)); ("epoch", jint (epoch s))].

Definition json_kind (k : ProofKind) : jsval :=
  JStr match k with QuotaExhausted => "quota_exhausted" | CredentialInvalid => "credential_invalid"
       | Transient => "transient" end.

Definition json_proof (p : AccountProof) : jsval :=
  JObj [("kind", json_kind (kind p)); ("model", JStr (proof_model p));
        ("fingerprint", JStr (proof_fingerprint p)); ("observedAtMs", jint (observedAtMs p));
        ("validUntilMs", jint (validUntilMs p))].

Definition json_account (a : AccountBinding) : jsval :=
  JObj [("accountId", JStr (accountId a)); ("fingerprint", JStr (fingerprint a));
        ("credentialGeneration", jint (credentialGeneration a));
        ("routingGeneration", jint (routingGeneration a));
        ("resetGeneration", jint (resetGeneration a)); ("overageVersion", jint (overageVersion a));
        ("overageEnabled", JBool (overageEnabled a)); ("enabled", JBool (enabled a));
        ("models", JArr (JStr <$> models a)); ("proof", jopt json_proof (proof a))].

Definition json_handle (h : AdmissionHandle) : jsval :=
  JObj [("scope", json_scope (handle_scope h)); ("requestId", JStr (requestId h));
        ("fence", jint (fence h))].

Definition json_semantic (o : SemanticTerminal) : jsval :=
  JStr match o with Completed => "completed" | Incomplete => "incomplete" | Failed => "failed"
       | Cancelled => "cancelled" end.

Definition json_terminal (t : TerminalEvidence) : jsval :=
  JObj [("outcome", json_semantic (outcome t)); ("providerRequestId", jopt JStr (providerRequestId t));
        ("spendMicrocredits", jopt jint (spendMicrocredits t));
        ("fallback", jopt (fun f => JStr match f with FallbackQuotaExhausted => "quota_exhausted"
                             | FallbackCapacityExhausted => "capacity_exhausted" end) (fallback t))].

Definition json_provider (p : DispatchProvider) : jsval :=
  JStr match p with Codex => "codex" | Surplus => "surplus" | Openlux => "openlux" end.

Definition json_attempt_state (s : AttemptState) : jsval :=
  JStr match s with Reserved => "reserved" | DispatchIntent => "dispatch_intent"
       | Dispatched => "dispatched" | NotDispatched => "not_dispatched" end.

Definition json_attempt (a : AttemptRecord) : jsval :=
  JObj [("input", JObj [("attemptId", JStr (attemptId (input a)));
                        ("provider", json_provider (provider (input a)));
                        ("maximumExposureMicrocredits", jint (maximumExposureMicrocredits (input a)));
                        ("account", jopt json_account (input_account (input a)))]);
        ("state", json_attempt_state (attempt_state a)); ("terminal", jopt json_terminal (terminal a));
        ("billingSettled", JBool (billingSettled a));
        ("settledSpendMicrocredits", jopt jint (settledSpendMicrocredits a))].

Definition json_delivery (d : DeliveryOutcome) : jsval :=
  JStr match d with Delivered => "delivered" | Interrupted => "interrupted"
       | Unobserved => "unobserved" end.

Definition json_route (r : GatewayRoute) : jsval :=
  JStr match r with RouteResponses => "/v1/responses" | RouteChatCompletions => "/v1/chat/completions" end.

(** ** [JSON.stringify] *)

Definition hex_digit (n : nat) : ascii :=
  ascii_of_nat (if Nat.ltb n 10 then 48 + n else 87 + n)%nat.

Definition escape (c : ascii) : string :=
  let n := nat_of_ascii c in
  match n with
  | 34%nat => String (ascii_of_nat 92) (String c "")
  | 92%nat => String (ascii_of_nat 92) (String c "")
  | 8%nat => "\b" | 9%nat => "\t" | 10%nat => "\n" | 12%nat => "\f" | 13%nat => "\r"
  | _ => if Nat.ltb n 32 then "\u00" ++ String (hex_digit (n / 16)) (String (hex_digit (n mod 16)) "")
         else String c ""
  end.

Definition quote (s : string) : string :=
  let q := String (ascii_of_nat 34) "" in
  q ++ String.concat "" (escape <$> list_of_string s) ++ q.

(** The numbers of a state are integers; a non-finite number prints as null. *)
Definition print_number (n : Js.number) : string :=
  match n with Fin q => pretty (trunc q) | _ => "null" end.

Fixpoint stringify (v : jsval) : string :=
  match v with
  | JUndefined => ""
  | JNull => "null"
  | JBool b => if b then "true" else "false"
  | JNum n => print_number n
  | JStr s => quote s
  | JArr items => "[" ++ String.concat "," (List.map stringify items) ++ "]"
  | JObj fs => "{" ++ String.concat "," (List.map (fun '(k, x) => quote k ++ ":" ++ stringify x) fs) ++ "}"
  end.

(** [new TextEncoder().encode(text).byteLength]: two bytes per code unit from 0x80. *)
Definition byteLength (s : string) : Z :=
  foldr (fun c n => (if code_unit c <? 128 then 1 else 2) + n) 0 (list_of_string s).

Definition json_window_key (k : string * Z) : string := stringify (JArr [JStr (fst k); jint (snd k)]).

Definition json_admission (r : AdmissionRecord) : jsval :=
  JObj [("handle", json_handle (handle r)); ("principalId", JStr (principalId r));
        ("policyVersion", jint (policyVersion r)); ("windowKey", JStr (json_window_key (windowKey r)));
        ("digest", JStr (digest r)); ("route", json_route (route r)); ("model", JStr (model r));
        ("account", jopt json_account (account r)); ("activeGeneration", jopt jint (activeGeneration r));
        ("attempts", jdict json_attempt (attempts r)); ("dispatched", JBool (request_dispatched r));
        ("semantic", jopt json_semantic (semantic r)); ("kernelSettled", JBool (kernelSettled r));
        ("delivery", jopt json_delivery (delivery r)); ("settled", JBool (settled r))].

Definition json_policy (p : PrincipalPolicy) : jsval :=
  JObj [("principalId", JStr (policy_principalId p)); ("version", jint (version p));
        ("deleted", JBool (deleted p)); ("windowResetAtMs", jint (windowResetAtMs p));
        ("requestLimit", jint (requestLimit p)); ("kernelLimit", jint (kernelLimit p));
        ("concurrencyLimit", jint (concurrencyLimit p));
        ("paidLimitMicrocredits", jint (paidLimitMicrocredits p))].

Definition json_window (w : PrincipalWindow) : jsval :=
  JObj [("reserved", jint (reserved w)); ("dispatched", jint (dispatched w));
        ("kernelReserved", jint (kernelReserved w)); ("kernelCompleted", jint (kernelCompleted w));
        ("active", jint (active w)); ("paidReservedMicrocredits", jint (paidReservedMicrocredits w));
        ("paidSettledMicrocredits", jint (paidSettledMicrocredits w))].

Definition json_publication (a : AccessAuthorization) : jsval :=
  JObj [("ownerId", JStr (auth_ownerId a)); ("ownerEpoch", jint (auth_ownerEpoch a));
        ("accountId", JStr (auth_accountId a)); ("workspaceId", JStr (auth_workspaceId a));
        ("generation", jint (auth_generation a)); ("nativeRefreshedAtNs", JStr (auth_nativeRefreshedAtNs a));
        ("fingerprint", JStr (auth_fingerprint a)); ("accessToken", JStr (auth_accessToken a));
        ("idToken", JStr (auth_idToken a)); ("issuedAtMs", jint (auth_issuedAtMs a));
        ("expiresAtMs", jint (auth_expiresAtMs a))].

Definition json_active (a : ActiveAccount) : jsval :=
  JObj [("accountId", JStr (active_accountId a)); ("fingerprint", JStr (active_fingerprint a));
        ("generation", jint (generation a))].

Definition to_json (st : AuthorityState) : jsval :=
  JObj [("scope", json_scope (scope st)); ("sequence", jint (sequence st));
        ("accounts", JArr (json_account <$> accounts st));
        ("active", jopt json_active (active_account st));
        ("policies", jdict json_policy (policies st));
        ("windows", JObj ((fun '(k, w) => (json_window_key k, json_window w)) <$> map_to_list (windows st)));
        ("admissions", jdict json_admission (admissions st));
        ("publications", jdict json_publication (publications st))].

(** ** The store *)

(** The text of a row: the JSON image of a state, or a text that does not
    parse or does not pass the guard.  Every row the store writes is of the
    first kind. *)
Inductive StateText :=
| TextOf (st : AuthorityState)
| TextOther (bytes : Z).

Definition text_bytes (t : StateText) : Z :=
  match t with TextOf st => byteLength (stringify (to_json st)) | TextOther n => n end.

#[global] Arguments text_bytes : simpl never.
#[global] Arguments to_json : simpl never.
#[global] Arguments Guards.stateGuard : simpl never.

Record Row := mkRow { schema_version : Z; revision : Z; state_json : StateText }.

Definition SCHEMA_VERSION : Z := 1.

(** The table holds at most the row [id = 1]. *)
Record DurableAuthorityStore := mkStore {
  store_scope : AuthorityScope;
  maximumStateBytes : Z;
  row : option Row }.

#[export] Instance eta_DurableAuthorityStore : Eta DurableAuthorityStore := fun s =>
  mkStore (store_scope s) (maximumStateBytes s) (row s).

Definition _bounded (s : DurableAuthorityStore) (t : StateText) : Result exn unit :=
  throw_if (maximumStateBytes s <? text_bytes t) (AuthorityError "authority_state_too_large" 503).

Definition _encode (s : DurableAuthorityStore) (st : AuthorityState) : Result exn StateText :=
  _ ← throw_if (negb (Guards.stateGuard (to_json st))) (AuthorityError "invalid_authority_state" 503);
  _ ← throw_if (negb (sameScope (scope st) (store_scope s)))
        (AuthorityError "namespace_or_epoch_mismatch" 403);
  _ ← _bounded s (TextOf st);
  Ok (TextOf st).

(** [_read]; a text that fails to parse and one that fails the guard give one
    and the same error. *)
Definition _read (s : DurableAuthorityStore) : Result exn (Z * AuthorityState) :=
  r ← or_throw (row s) (AuthorityError "authority_schema_mismatch" 503);
  _ ← throw_if (negb (schema_version r =? SCHEMA_VERSION)) (AuthorityError "authority_schema_mismatch" 503);
  _ ← throw_if (negb (isSafeInteger (revision r)) || (revision r <? 0))
        (AuthorityError "invalid_authority_record" 503);
  _ ← _bounded s (state_json r);
  match state_json r with
  | TextOther _ => Err (AuthorityError "invalid_authority_state" 503)
  | TextOf st =>
      _ ← throw_if (negb (Guards.stateGuard (to_json st))) (AuthorityError "invalid_authority_state" 503);
      _ ← throw_if (negb (sameScope (scope st) (store_scope s)))
            (AuthorityError "namespace_or_epoch_mismatch" 403);
      Ok (revision r, st)
  end.

(** The constructor, on the row the database already holds. *)
Definition openStore (existing : option Row) (initial : AuthorityState) (maxBytes : Z)
    : Result exn DurableAuthorityStore :=
  _ ← throw_if (negb (isSafeInteger maxBytes) || (maxBytes <? 1))
        (AuthorityError "invalid_authority_storage_bound" 400);
  let s := mkStore (scope initial) maxBytes existing in
  encoded ← _encode s initial;
  let s := match existing with
           | None => s <| row := Some (mkRow SCHEMA_VERSION 0 encoded) |>
           | Some _ => s
           end in
  _ ← _read s;
  Ok s.

Definition compareAndSwap (rev : Z) (st : AuthorityState) (s : DurableAuthorityStore)
    : Result exn (bool * DurableAuthorityStore) :=
  _ ← throw_if (negb (isSafeInteger rev) || (rev <? 0) || (MAX_SAFE_INTEGER <=? rev))
        (AuthorityError "invalid_authority_revision" 400);
  encoded ← _encode s st;
  '(current, _) ← _read s;
  if negb (current =? rev) then Ok (false, s) else
  Ok (true, s <| row := Some (mkRow (default 0 (schema_version <$> row s)) (rev + 1) encoded) |>).

(** ** The interface *)

(** What [_transact] relies on: a coherent snapshot with its revision, and a
    swap that commits exactly when the revision is still the current one. *)
Class AuthorityStore (S : Type) := {
  store_read : S -> Result exn (Z * AuthorityState);
  store_cas : Z -> AuthorityState -> S -> Result exn (bool * S);
  store_cas_commit rev st s s' :
    store_cas rev st s = Ok (true, s') ->
    (exists st0, store_read s = Ok (rev, st0)) /\ store_read s' = Ok (rev + 1, st);
  store_cas_reject rev st s s' :
    store_cas rev st s = Ok (false, s') ->
    s' = s /\ exists cur st0, store_read s = Ok (cur, st0) /\ cur <> rev;
  store_read_error s c n : store_read s = Err (AuthorityError c n) -> c <> "concurrent_update";
  store_cas_error rev st s c n :
    store_cas rev st s = Err (AuthorityError c n) -> c <> "concurrent_update" }.

Lemma durable_cas_commit rev st s s' :
  compareAndSwap rev st s = Ok (true, s') ->
  (exists st0, _read s = Ok (rev, st0)) /\ _read s' = Ok (rev + 1, st).
Proof.
  unfold compareAndSwap. intros H. inv_ok.
  match goal with H : _read s = Ok (?c, ?t) |- _ => rename c into cur, t into st0, H into Hread end.
  destruct (cur =? rev) eqn:E; cbn in *; inv_ok. apply Z.eqb_eq in E. subst cur. split; [eauto|].
  unfold _encode, _bounded in *. inv_ok.
  unfold _read in Hread |- *. inv_ok. cbn.
  match goal with H : row s = Some ?r |- _ => rewrite H; cbn;
    match goal with H2 : (schema_version r =? _) = true |- _ => rewrite H2 end end. cbn.
  assert (isSafeInteger (rev + 1) = true) as ->.
  { match goal with H : isSafeInteger rev = true |- _ => apply isSafeInteger_spec in H end.
    apply isSafeInteger_spec. unfold MAX_SAFE_INTEGER in *. lia. }
  rewrite (proj2 (Z.ltb_ge _ _)) by lia. cbn. unfold _bounded. cbn.
  repeat match goal with H : ?b = ?v |- context [?b] => lazymatch v with true => rewrite H | false => rewrite H end; cbn end.
  done.
Qed.

Lemma durable_cas_reject rev st s s' :
  compareAndSwap rev st s = Ok (false, s') ->
  s' = s /\ exists cur st0, _read s = Ok (cur, st0) /\ cur <> rev.
Proof.
  unfold compareAndSwap. intros H. inv_ok.
  destruct (negb _) eqn:E; inv_ok. apply Z.eqb_neq in E. eauto.
Qed.

Lemma throw_if_err b (e e' : exn) : throw_if b e = Err e' -> e' = e.
Proof. destruct b; cbn; congruence. Qed.

Ltac store_errors :=
  repeat match goal with
         | H : throw_if _ _ ≫= _ = Err _ |- _ =>
             let E := fresh in destruct (throw_if _ _) eqn:E in H; cbn in H; [apply throw_if_err in E|]
         | H : throw_if _ _ = Err _ |- _ => apply throw_if_err in H
         end; simplify_eq; try done.

Lemma _bounded_error s t c n : _bounded s t = Err (AuthorityError c n) -> c <> "concurrent_update".
Proof. unfold _bounded. intros H. store_errors. Qed.

Lemma durable_read_error s c n : _read s = Err (AuthorityError c n) -> c <> "concurrent_update".
Proof.
  unfold _read. intros H. destruct (row s) as [r|]; cbn in H; [|by simplify_eq]. store_errors.
  destruct (_bounded s _) eqn:Hb; cbn in H; [simplify_eq; by apply _bounded_error in Hb|].
  destruct (state_json r); [|by simplify_eq]. store_errors.
Qed.

Lemma durable_cas_error rev st s c n :
  compareAndSwap rev st s = Err (AuthorityError c n) -> c <> "concurrent_update".
Proof.
  unfold compareAndSwap, _encode. intros H. store_errors.
  destruct (_bounded s _) eqn:Hb; cbn in H; [simplify_eq; by apply _bounded_error in Hb|].
  destruct (_read s) as [e|[cur st0]] eqn:Hr; cbn in H; [simplify_eq; by apply durable_read_error in Hr|].
  by destruct (cur =? rev).
Qed.

#[export] Instance durable_store : AuthorityStore DurableAuthorityStore := {
  store_read := _read;
  store_cas := compareAndSwap;
  store_cas_commit := durable_cas_commit;
  store_cas_reject := durable_cas_reject;
  store_read_error := durable_read_error;
  store_cas_error := durable_cas_error }.
