(* ===== verification/AuthorityTransact.v ===== *)
(** * Transactions over the authority store

    [PortableAuthority._transact] and the loop of [publish]: read a snapshot,
    run the operation on a private copy, compare-and-swap, at most eight times.
    Other clients may act on the store at every [await]; they are the
    [Interference] of a call, and the steps of other clients in a [World]. *)

From stdpp Require Import base gmap strings list.
From Stdlib Require Import ZArith Lia.
From S2P Require Import Prelude Js AuthorityContracts AuthorityAdmission AuthorityLedger AuthorityRefinement.
From S2P Require Import CredentialPublication AuthoritySafety AuthorityStore.
Open Scope Z_scope.

Definition concurrent_update : exn := AuthorityError "concurrent_update" 503.

(** What other clients do to the store before the read and before the swap of
    attempt [k]. *)
Record Interference (S : Type) := mkInterference {
  before_read : nat -> S -> S;
  before_swap : nat -> S -> S }.
Arguments before_read {S}.
Arguments before_swap {S}.

Section transact.
Context {S : Type} `{Store : AuthorityStore S}.

(** One pass of the loop body: [None] asks for another attempt. *)
Definition attempt_once {T} (env : Interference S) (k : nat) (sc : AuthorityScope)
    (action : AuthorityState -> Result exn (T * AuthorityState)) (s : S)
    : option (Result exn T) * S :=
  let s := before_read env k s in
  match store_read s with
  | Err e => (Some (Err e), s)
  | Ok (rev, snapshot) =>
      if negb (sameScope (scope snapshot) sc)
      then (Some (Err (AuthorityError "namespace_or_epoch_mismatch" 403)), s)
      else match action snapshot with
           | Err e => (Some (Err e), s)
           | Ok (result, st) =>
               let s := before_swap env k s in
               match store_cas rev st s with
               | Err e => (Some (Err e), s)
               | Ok (true, s) => (Some (Ok result), s)
               | Ok (false, s) => (None, s)
               end
           end
  end.

(** [for (let attempt = k; attempt < k + tries; attempt += 1)]. *)
Fixpoint retry {T} (env : Interference S) (k tries : nat) (sc : AuthorityScope)
    (action : AuthorityState -> Result exn (T * AuthorityState)) (s : S)
    : Result exn T * S :=
  match tries with
  | O => (Err concurrent_update, s)
  | Datatypes.S tries =>
      match attempt_once env k sc action s with
      | (Some result, s) => (result, s)
      | (None, s) => retry env (Datatypes.S k) tries sc action s
      end
  end.

Definition _transact {T} (env : Interference S) (bound sc : AuthorityScope)
    (action : AuthorityState -> Result exn (T * AuthorityState)) (s : S) : Result exn T * S :=
  if negb (sameScope sc bound)
  then (Err (AuthorityError "namespace_or_epoch_mismatch" 403), s)
  else retry env 0 8 sc action s.

(** [AccessCredentialPublisher.publish] *)
Definition publish (verifyAccess : AccessPublication -> Result exn VerifiedAccessIdentity)
    (env : Interference S) (b : CredentialOwnerBinding) (i : AccessPublication) (now : Z) (s : S)
    : Result exn PublishOutcome * S :=
  match publish_checks verifyAccess b i now with
  | Err e => (Err e, s)
  | Ok _ => retry env 0 8 (binding_scope b) (_applyPublication b i) s
  end.

(** ** What a call does to the store *)

(** An attempt that commits: its snapshot was still current at the swap, and
    the store now holds what the action made of it. *)
Definition committed {T} (sc : AuthorityScope)
    (action : AuthorityState -> Result exn (T * AuthorityState)) (x : T) (s_read s_swap s' : S)
    : Prop :=
  exists rev snap st, store_read s_read = Ok (rev, snap)
    /\ sameScope (scope snap) sc = true /\ action snap = Ok (x, st)
    /\ (exists cur, store_read s_swap = Ok (rev, cur)) /\ store_read s' = Ok (rev + 1, st).

Lemma attempt_once_cases {T} env k sc (action : _ -> Result exn (T * _)) s res s' :
  attempt_once env k sc action s = (res, s') ->
  let s_read := before_read env k s in
  let s_swap := before_swap env k s_read in
  match res with
  | Some (Ok x) => committed sc action x s_read s_swap s'
  | Some (Err e) => s' = s_read \/ s' = s_swap
  | None => s' = s_swap
            /\ exists rev snap, store_read s_read = Ok (rev, snap)
               /\ forall cur, store_read s_swap <> Ok (rev, cur)
  end.
Proof.
  unfold attempt_once. intros H. cbn.
  destruct (store_read (before_read env k s)) as [e|[rev snap]] eqn:Hr; [by simplify_eq; left|].
  destruct (sameScope (scope snap) sc) eqn:Hsc; cbn in H; [|by simplify_eq; left].
  destruct (action snap) as [e|[x st]] eqn:Ha; [by simplify_eq; left|].
  destruct (store_cas rev st _) as [e|[[] s1]] eqn:Hc; simplify_eq; [by right| |].
  - destruct (store_cas_commit _ _ _ _ Hc) as [Hcur Hr']. unfold committed. eauto 10.
  - destruct (store_cas_reject _ _ _ _ Hc) as [-> (cur & st0 & Hcur & Hne)]. split; [done|].
    exists rev, snap. split; [done|]. intros c. congruence.
Qed.

(** What the other clients alone make of the store by the start of attempt [k]. *)
Fixpoint interfered (env : Interference S) (k : nat) (s : S) : S :=
  match k with
  | O => s
  | Datatypes.S k => before_swap env k (before_read env k (interfered env k s))
  end.

(** The store as attempt [k] reads it and as it swaps, if nothing but the other
    clients has written before. *)
Definition at_read (env : Interference S) (k : nat) (s : S) : S := before_read env k (interfered env k s).
Definition at_swap (env : Interference S) (k : nat) (s : S) : S := before_swap env k (at_read env k s).

(** A revision that moved between the read and the swap of attempt [k]. *)
Definition overtaken (env : Interference S) (k : nat) (s : S) : Prop :=
  exists rev snap, store_read (at_read env k s) = Ok (rev, snap) /\ forall cur, store_read (at_swap env k s) <> Ok (rev, cur).

(** How a call that starts at attempt [k] ends: with the one swap of an attempt
    [j], or without any. *)
Definition swapped_once {T} (env : Interference S) (sc : AuthorityScope)
    (action : AuthorityState -> Result exn (T * AuthorityState)) (j : nat) (s : S) (x : T) (s' : S) : Prop :=
  exists rev snap st, store_read (at_read env j s) = Ok (rev, snap) /\ sameScope (scope snap) sc = true /\ action snap = Ok (x, st)
    /\ store_cas rev st (at_swap env j s) = Ok (true, s').

Definition untouched (env : Interference S) (tries : nat) (s s' : S) : Prop :=
  exists j, (j <= tries)%nat /\ (s' = interfered env j s \/ (j < tries)%nat /\ s' = at_read env j s).

Lemma retry_cases {T} env tries k sc (action : _ -> Result exn (T * _)) s res s' :
  retry env k tries sc action (interfered env k s) = (res, s') ->
  match res with
  | Ok x => exists j, (k <= j < k + tries)%nat /\ (forall i, (k <= i < j)%nat -> overtaken env i s) /\ swapped_once env sc action j s x s'
  | Err _ => untouched env (k + tries) s s'
  end.
Proof.
  revert k. induction tries as [|tries IH]; intros k; cbn [retry].
  { intros [= <- <-]. exists k. split; [lia|by left]. }
  destruct (attempt_once env k sc action (interfered env k s)) as [[r|] s1] eqn:E; intros H.
  - simplify_eq. unfold attempt_once in E. destruct (store_read _) as [e|[rev snap]] eqn:Hr.
    { simplify_eq. exists k. split; [lia|right]. split; [lia|done]. }
    destruct (sameScope (scope snap) sc) eqn:Hsc; cbn in E; [|simplify_eq; exists k; split; [lia|right; split; [lia|done]]].
    destruct (action snap) as [e|[x st]] eqn:Ha; [simplify_eq; exists k; split; [lia|right; split; [lia|done]]|].
    destruct (store_cas rev st _) as [e|[[] s2]] eqn:Hc; simplify_eq.
    + exists (Datatypes.S k). split; [lia|by left].
    + exists k. split_and!; [lia|lia|lia|]. by exists rev, snap, st.
  - pose proof (attempt_once_cases _ _ _ _ _ _ _ E) as [-> Hne]. cbn in Hne.
    specialize (IH (Datatypes.S k) H). destruct res as [e|x]; [by rewrite Nat.add_succ_r|].
    destruct IH as (j & Hj & Hov & Hs). exists j. split; [lia|]. split; [|done]. intros i Hi.
    destruct (decide (i = k)) as [->|]; [exact Hne|apply Hov; lia].
Qed.

(** Without interference the first attempt decides. *)
Definition alone : Interference S := mkInterference S (fun _ s => s) (fun _ s => s).

(** An attempt during which the store stands still is the last one. *)
Lemma attempt_once_quiet {T} env k sc (action : _ -> Result exn (T * _)) s s' :
  (forall s, before_swap env k s = s) -> attempt_once env k sc action s <> (None, s').
Proof.
  intros Hq E. apply attempt_once_cases in E as (_ & rev & snap & Hr & Hne).
  rewrite Hq in Hne. by destruct (Hne _ Hr).
Qed.

Lemma attempt_once_error {T} env k sc (action : _ -> Result exn (T * _)) s s' :
  attempt_once env k sc action s = (Some (Err concurrent_update), s') ->
  exists snap, action snap = Err concurrent_update.
Proof.
  unfold attempt_once. intros H.
  destruct (store_read _) as [e|[rev snap]] eqn:Hr;
    [by simplify_eq; apply store_read_error in Hr|].
  destruct (sameScope _ _); cbn in H; [|done].
  destruct (action snap) as [e|[x st]] eqn:Ha; [by simplify_eq; eauto|].
  destruct (store_cas rev st _) as [e|[[] s1]] eqn:Hc; simplify_eq.
  by apply store_cas_error in Hc.
Qed.

Lemma retry_quiet {T} env tries k j sc (action : _ -> Result exn (T * _)) s s' :
  (k <= j < k + tries)%nat -> (forall s, before_swap env j s = s) ->
  (forall snap, action snap <> Err concurrent_update) ->
  retry env k tries sc action s <> (Err concurrent_update, s').
Proof.
  intros Hj Hq Ha. revert k s Hj. induction tries as [|tries IH]; intros k s Hj; [lia|]. cbn [retry].
  destruct (attempt_once env k sc action s) as [[r|] s1] eqn:E; intros H.
  - simplify_eq. apply attempt_once_error in E as (snap & Hs). by apply (Ha snap).
  - destruct (decide (j = k)) as [->|Hne]; [by apply attempt_once_quiet in E|].
    apply (IH (Datatypes.S k) s1); [lia|done].
Qed.

(** ** Concurrent clients *)

(** A client between its read and its swap. *)
Record Pending := mkPending {
  pending_op : Operation;
  pending_revision : Z;
  pending_snapshot : AuthorityState }.

(** [committed_ops] is a history variable: the operations in commit order. *)
Record World := mkWorld {
  store : S;
  pending : gmap nat Pending;
  committed_ops : list Operation }.

Inductive wstep : World -> World -> Prop :=
| w_read w c op rev snap :
    store_read (store w) = Ok (rev, snap) ->
    wstep w (mkWorld (store w) (<[c := mkPending op rev snap]> (pending w)) (committed_ops w))
| w_throw w c :
    wstep w (mkWorld (store w) (delete c (pending w)) (committed_ops w))
| w_commit w c p st s' :
    pending w !! c = Some p -> run (pending_op p) (pending_snapshot p) = Ok st ->
    store_cas (pending_revision p) st (store w) = Ok (true, s') ->
    wstep w (mkWorld s' (delete c (pending w)) (committed_ops w ++ [pending_op p]))
| w_conflict w c p st s' :
    pending w !! c = Some p -> run (pending_op p) (pending_snapshot p) = Ok st ->
    store_cas (pending_revision p) st (store w) = Ok (false, s') ->
    wstep w (mkWorld s' (delete c (pending w)) (committed_ops w)).

(** The sequential specification: the operations one after the other. *)
Fixpoint runs (ops : list Operation) (st : AuthorityState) : Result exn AuthorityState :=
  match ops with
  | [] => Ok st
  | op :: ops => st ← run op st; runs ops st
  end.

Lemma runs_snoc ops op st st1 st2 :
  runs ops st = Ok st1 -> run op st1 = Ok st2 -> runs (ops ++ [op]) st = Ok st2.
Proof.
  revert st. induction ops as [|o ops IH]; intros st; cbn [runs app].
  - intros [= <-] H. by rewrite H.
  - intros H Hop. destruct (run o st) as [e|st'] eqn:E; [done|]. exact (IH st' H Hop).
Qed.

Lemma runs_reachable ops st st' : runs ops st = Ok st' -> reachable st st'.
Proof.
  revert st'. induction ops as [|op ops IH] using rev_ind; intros st'; cbn.
  - intros [= <-]. constructor.
  - intros H. enough (exists st1, runs ops st = Ok st1 /\ run op st1 = Ok st') as (st1 & ? & ?).
    { econstructor; eauto. }
    clear IH. revert st H. induction ops as [|o ops IH]; intros st H; cbn in *.
    + exists st. split; [done|]. by destruct (run op st).
    + destruct (run o st) as [e|st1]; [done|]. exact (IH st1 H).
Qed.

Definition linearized (st0 : AuthorityState) (rev0 : Z) (w : World) : Prop :=
  exists st, store_read (store w) = Ok (rev0 + Z.of_nat (length (committed_ops w)), st)
    /\ runs (committed_ops w) st0 = Ok st
    /\ map_Forall (fun _ p =>
         let now := rev0 + Z.of_nat (length (committed_ops w)) in
         pending_revision p <= now
         /\ (pending_revision p = now -> pending_snapshot p = st)) (pending w).

Lemma linearized_wstep st0 rev0 w w' : linearized st0 rev0 w -> wstep w w' -> linearized st0 rev0 w'.
Proof.
  intros (st & Hread & Hruns & Hpend) Hstep. unfold linearized.
  destruct Hstep as [w c op rev snap Hr | w c | w c p st1 s' Hp Hop Hcas | w c p st1 s' Hp Hop Hcas]; cbn.
  - exists st. split; [done|]. split; [done|]. apply map_Forall_insert_2; [|done]. cbn.
    rewrite Hr in Hread. injection Hread as -> ->. split; [lia|done].
  - exists st. split; [done|]. split; [done|]. by apply map_Forall_delete.
  - destruct (store_cas_commit _ _ _ _ Hcas) as [(cur & Hcur) Hread']. exists st1.
    rewrite Hread in Hcur. injection Hcur as Hrev <-.
    destruct (Hpend _ _ Hp) as [_ Hsnap]. rewrite Hsnap in Hop by done.
    rewrite length_app, Nat2Z.inj_add. cbn. split; [|split].
    + rewrite Hread', <- Hrev. f_equal. f_equal. lia.
    + by eapply runs_snoc.
    + apply map_Forall_delete. eapply map_Forall_impl; [exact Hpend|].
      intros i q [Hle _]. cbn in Hle. split; lia.
  - destruct (store_cas_reject _ _ _ _ Hcas) as [-> _]. exists st.
    split; [done|]. split; [done|]. by apply map_Forall_delete.
Qed.

Definition initial_world (s : S) : World := mkWorld s ∅ [].

Lemma linearized_reachable s rev0 st0 w :
  store_read s = Ok (rev0, st0) -> rtc wstep (initial_world s) w -> linearized st0 rev0 w.
Proof.
  intros Hs Hw. assert (linearized st0 rev0 (initial_world s)) as Hinit.
  { exists st0. cbn. rewrite Z.add_0_r. split; [done|]. split; [done|]. apply map_Forall_empty. }
  induction Hw; eauto using linearized_wstep.
Qed.
End transact.
