(* ===== verification/AuthorityTheorems.v ===== *)
(** * What the portable authority guarantees

    The theorems of the admission state machine, the credential publisher, the
    transaction loop and the durable store, each at a concrete instance. *)

From stdpp Require Import base gmap strings list.
From Stdlib Require Import ZArith Lia.
From S2P Require Import Prelude Js AuthorityContracts AuthorityAdmission AuthorityLedger AuthorityRefinement.
From S2P Require Import CredentialPublication AuthoritySafety AuthorityQuota AuthorityProgress AuthorityStore.
From S2P Require Import AuthorityTransact.
Open Scope Z_scope.

(** ** A concrete run

    One subscription account; its quota proof sends the request to the paid
    provider, which completes and is billed. *)

Module Demo.

Definition sc : AuthorityScope := mkScope "prod" 1.
Definition acc : AccountBinding := mkBinding "acct" "fp" 1 1 1 1 false true ["gpt"%string] None.
Definition pol : PrincipalPolicy := mkPolicy "key" 1 false 1000 2 2 2 100.
Definition st0 : AuthorityState := createAuthorityState sc [acc] [pol].
Definition adm : AdmitInput := mkAdmitInput sc "req" "key" 1 "digest" RouteResponses "gpt" 10.
Definition h : AdmissionHandle := mkHandle sc "req" 1.
Definition codex : AttemptInput := mkAttemptInput "a1" Codex 0 (Some acc).
Definition paid : AttemptInput := mkAttemptInput "a2" Surplus 60 None.
Definition exhausted : AccountProof := mkProof QuotaExhausted "gpt" "fp" 20 900.

(** Up to the reservation of the paid attempt. *)
Definition subscription_ops : list Operation :=
  [OpAdmit adm; OpReserveAttempt h codex 11; OpBeginDispatch h "a1" 12; OpConfirmDispatched h "a1";
   OpObserveProof h "a1" exhausted; OpObserveTerminal h "a1" (mkEvidence Failed None None None) false;
   OpReselectSubscription h 30].

Definition paid_ops : list Operation :=
  [OpReserveAttempt h paid 31; OpBeginDispatch h "a2" 32; OpConfirmDispatched h "a2";
   OpObserveTerminal h "a2" (mkEvidence Completed (Some "p1"%string) (Some 50) None) true;
   OpObserveDelivery h Delivered; OpSettle h].

Definition run_or (ops : list Operation) (st : AuthorityState) : AuthorityState :=
  match runs ops st with Ok st' => st' | Err _ => st end.

Definition st_admitted : AuthorityState := run_or [OpAdmit adm] st0.
Definition st_reserved : AuthorityState := run_or [OpAdmit adm; OpReserveAttempt h codex 11] st0.
Definition st_exhausted : AuthorityState := run_or subscription_ops st0.
Definition st_settled : AuthorityState := run_or (subscription_ops ++ paid_ops) st0.

Lemma run_or_reachable ops st : (exists st', runs ops st = Ok st') -> reachable st (run_or ops st).
Proof. intros [st' H]. unfold run_or. rewrite H. by eapply runs_reachable. Qed.

Definition ran (ops : list Operation) : bool := match runs ops st0 with Ok _ => true | Err _ => false end.

Lemma ran_reachable ops : ran ops = true -> reachable st0 (run_or ops st0).
Proof.
  unfold ran. intros H. apply run_or_reachable. destruct (runs ops st0); [done|eauto].
Qed.

Lemma ran_inv ops : ran ops = true -> inv (run_or ops st0).
Proof. intros H. eapply reachable_inv; [apply inv_init|]. by apply ran_reachable. Qed.

End Demo.

(** ** The ledger *)

Lemma total_of_nonneg f k adm : (forall i r, adm !! i = Some r -> 0 <= f r) -> 0 <= total_of f k adm.
Proof. intros H. apply msum_nonneg. intros i r Hr. case_bool_decide; eauto with lia. Qed.

Lemma contribution_nonneg r : rec_ok r ->
  let w := contribution r in
  0 <= reserved w /\ 0 <= dispatched w /\ 0 <= kernelReserved w /\ 0 <= kernelCompleted w
  /\ 0 <= active w /\ 0 <= paidReservedMicrocredits w /\ 0 <= paidSettledMicrocredits w.
Proof.
  intros Hok. cbn. split_and!; try apply b2z_nonneg; apply msum_nonneg; intros id a Ha;
    destruct (rok_attempts _ Hok _ _ Ha) as [? He ???? Hb ?].
  - unfold held_exposure. case_match; lia.
  - unfold billed_spend. case_match eqn:E; [|lia]. apply andb_true_iff in E as [_ E].
    destruct (Hb E) as (_ & s & -> & ?). cbn. lia.
Qed.

(** C1: in every state reachable from a fresh authority, each principal window
    is exactly the sum over the admission records of that window of what they
    hold, dispatched, completed and were billed, and no counter is negative. *)
Theorem authority_ledger_exact sc accs pols st k w :
  reachable (createAuthorityState sc accs pols) st -> windows st !! k = Some w ->
  w = window_total k (admissions st)
  /\ 0 <= reserved w /\ 0 <= dispatched w /\ 0 <= kernelReserved w /\ 0 <= kernelCompleted w
  /\ 0 <= active w /\ 0 <= paidReservedMicrocredits w /\ 0 <= paidSettledMicrocredits w.
Proof.
  intros Hr Hw. assert (inv st) as Hinv by (eapply reachable_inv; [apply inv_init|done]).
  rewrite (inv_ledger _ Hinv _ _ Hw). split; [done|]. cbn [window_total reserved dispatched
    kernelReserved kernelCompleted active paidReservedMicrocredits paidSettledMicrocredits].
  split_and!; apply total_of_nonneg; intros i r Hi;
    destruct (contribution_nonneg r (ri_ok _ _ _ (inv_records _ Hinv _ _ Hi))) as (?&?&?&?&?&?&?); done.
Qed.

Lemma authority_ledger_exact_witness :
  windows Demo.st_settled !! ("key"%string, 1000) = Some (mkWindow 0 1 0 1 0 0 50)
  /\ mkWindow 0 1 0 1 0 0 50 = window_total ("key"%string, 1000) (admissions Demo.st_settled).
Proof.
  assert (windows Demo.st_settled !! ("key"%string, 1000) = Some (mkWindow 0 1 0 1 0 0 50)) as Hw
    by (vm_compute; reflexivity).
  split; [exact Hw|].
  eapply (authority_ledger_exact Demo.sc [Demo.acc] [Demo.pol]); [|exact Hw].
  apply Demo.ran_reachable. vm_compute. reflexivity.
Defined.

(** C2: no sequence of operations admits a principal beyond its policy: the
    requests reserved or dispatched in its window stay within the request
    limit, the kernel requests reserved or completed within the kernel limit,
    and its open admissions within the concurrency limit. *)
Theorem authority_quota sc accs pols st pid p :
  reachable (createAuthorityState sc accs pols) st -> policies st !! pid = Some p ->
  (forall w, windows st !! (pid, windowResetAtMs p) = Some w ->
     reserved w + dispatched w <= requestLimit p
     /\ kernelReserved w + kernelCompleted w <= kernelLimit p)
  /\ active_requests st pid <= Z.max 0 (concurrencyLimit p).
Proof.
  intros Hr Hp. destruct (reachable_within_limits _ _ _ _ Hr _ _ Hp) as [Hw Ha]. split; [|done].
  intros w Hk. destruct (Hw _ Hk) as (? & ? & _). done.
Qed.

Lemma authority_quota_witness :
  policies Demo.st_settled !! "key"%string = Some Demo.pol
  /\ active_requests Demo.st_settled "key" <= Z.max 0 (concurrencyLimit Demo.pol).
Proof.
  assert (policies Demo.st_settled !! "key"%string = Some Demo.pol) as Hp by (vm_compute; reflexivity).
  split; [exact Hp|].
  eapply (authority_quota Demo.sc [Demo.acc] [Demo.pol]); [|exact Hp].
  apply Demo.ran_reachable. vm_compute. reflexivity.
Defined.

(** C3: the paid budget of a window is respected up to what providers billed
    beyond the exposure that was admitted for them: reserved plus settled
    microcredits never exceed the limit plus that overspend. *)
Theorem authority_paid_budget sc accs pols st pid p w :
  reachable (createAuthorityState sc accs pols) st -> policies st !! pid = Some p ->
  windows st !! (pid, windowResetAtMs p) = Some w ->
  paidReservedMicrocredits w + paidSettledMicrocredits w
  <= paidLimitMicrocredits p + overspend_total st (pid, windowResetAtMs p).
Proof.
  intros Hr Hp Hw. destruct (reachable_within_limits _ _ _ _ Hr _ _ Hp) as [Hl _].
  destruct (Hl _ Hw) as (_ & _ & ?). done.
Qed.

Lemma authority_paid_budget_witness :
  windows Demo.st_settled !! ("key"%string, 1000) = Some (mkWindow 0 1 0 1 0 0 50)
  /\ 0 + 50 <= 100 + overspend_total Demo.st_settled ("key"%string, 1000).
Proof.
  assert (windows Demo.st_settled !! ("key"%string, 1000) = Some (mkWindow 0 1 0 1 0 0 50)) as Hw
    by (vm_compute; reflexivity).
  split; [exact Hw|].
  refine (authority_paid_budget Demo.sc [Demo.acc] [Demo.pol] _ _ Demo.pol _ _ _ Hw).
  - apply Demo.ran_reachable. vm_compute. reflexivity.
  - vm_compute. reflexivity.
Defined.

(** C4: no operation on a reachable state reads a property of an absent
    window: whatever it throws is an [AuthorityError] (or a [SyntaxError] of a
    malformed big integer), never a [TypeError]. *)
Theorem authority_no_type_error sc accs pols st op :
  reachable (createAuthorityState sc accs pols) st -> run op st <> Err TypeError.
Proof. intros Hr. apply run_no_type_error. eapply reachable_inv; [apply inv_init|done]. Qed.

Lemma authority_no_type_error_witness :
  run (OpConfirmDispatched Demo.h "a1") Demo.st_admitted <> Err TypeError.
Proof.
  apply (authority_no_type_error Demo.sc [Demo.acc] [Demo.pol]).
  apply Demo.ran_reachable. vm_compute. reflexivity.
Defined.

(** C5: a dispatch is won at most once: after [beginDispatch] answered true for
    an attempt, every later [beginDispatch] of that attempt, by any handle and
    after any operations, answers false. *)
Theorem authority_dispatch_once sc accs pols st h id now st1 st2 h' now' st3 b :
  reachable (createAuthorityState sc accs pols) st ->
  beginDispatch h id now st = Ok (true, st1) -> reachable st1 st2 ->
  requestId h' = requestId h -> beginDispatch h' id now' st2 = Ok (b, st3) -> b = false.
Proof.
  intros Hr. apply dispatch_won_once. eapply reachable_inv; [apply inv_init|done].
Qed.

Lemma authority_dispatch_once_witness :
  exists st1, beginDispatch Demo.h "a1" 12 Demo.st_reserved = Ok (true, st1)
    /\ forall b st3, beginDispatch Demo.h "a1" 13 st1 = Ok (b, st3) -> b = false.
Proof.
  exists (Demo.run_or [OpBeginDispatch Demo.h "a1" 12] Demo.st_reserved).
  assert (beginDispatch Demo.h "a1" 12 Demo.st_reserved
          = Ok (true, Demo.run_or [OpBeginDispatch Demo.h "a1" 12] Demo.st_reserved)) as Hb
    by (vm_compute; reflexivity).
  split; [exact Hb|]. intros b st3 H3.
  refine (authority_dispatch_once Demo.sc [Demo.acc] [Demo.pol] _ _ _ _ _ _ _ _ _ _ _ Hb _ _ H3).
  - apply Demo.ran_reachable. vm_compute. reflexivity.
  - constructor.
  - reflexivity.
Defined.

(** An operation whose response was lost can be repeated: run again on the
    state it produced, it succeeds and changes nothing. *)
Theorem authority_replay op st st' :
  replayable op = true -> run op st = Ok st' -> run op st' = Ok st'.
Proof. apply run_replay. Qed.

Lemma authority_replay_witness :
  run (OpSettle Demo.h) Demo.st_settled = Ok Demo.st_settled
  /\ run (OpAdmit Demo.adm) Demo.st_admitted = Ok Demo.st_admitted.
Proof.
  split; [vm_compute; reflexivity|].
  apply (authority_replay (OpAdmit Demo.adm) Demo.st0); vm_compute; reflexivity.
Defined.

(** C7: evidence is written once.  Whatever runs afterwards, a semantic
    outcome, an observed delivery, a settlement, the terminal evidence of an
    attempt and its billed spend stay what they were. *)
Theorem authority_evidence_final sc accs pols st st' rid r :
  reachable (createAuthorityState sc accs pols) st -> reachable st st' ->
  admissions st !! rid = Some r ->
  exists r', admissions st' !! rid = Some r' /\ evidence_kept r r'.
Proof.
  intros Hr Hr' Hrid. eapply reachable_evidence; [|done|done].
  eapply reachable_inv; [apply inv_init|done].
Qed.

Lemma authority_evidence_final_witness :
  exists r r', admissions Demo.st_exhausted !! "req"%string = Some r
    /\ admissions Demo.st_settled !! "req"%string = Some r' /\ evidence_kept r r'.
Proof.
  assert (exists r, admissions Demo.st_exhausted !! "req"%string = Some r) as [r Hr]
    by (eexists; vm_compute; reflexivity).
  exists r.
  destruct (authority_evidence_final Demo.sc [Demo.acc] [Demo.pol] Demo.st_exhausted
              Demo.st_settled "req" r) as (r' & Hr' & Hk).
  - apply Demo.ran_reachable. vm_compute. reflexivity.
  - apply (runs_reachable Demo.paid_ops). vm_compute. reflexivity.
  - exact Hr.
  - exists r'. repeat split; try exact Hr; try exact Hr'; apply Hk.
Defined.

(** ** Account selection *)

Lemma find_some_elem {A} (p : A -> bool) l x : List.find p l = Some x -> x ∈ l /\ p x = true.
Proof. intros H. apply List.find_some in H as [H1 H2]. split; [by apply list_elem_of_In|done]. Qed.

Lemma cohort_spec st m a : a ∈ cohort st m <-> a ∈ accounts st /\ enabled a = true /\ m ∈ models a.
Proof.
  unfold cohort, supports. rewrite list_elem_of_In, filter_In, <- list_elem_of_In.
  by rewrite andb_true_iff, bool_decide_eq_true.
Qed.

Lemma pool_exhausted_spec st m now :
  pool_exhausted st m now = true <->
  cohort st m <> [] /\ forall a, a ∈ cohort st m -> unavailable m now a = true.
Proof.
  unfold pool_exhausted. rewrite andb_true_iff, negb_true_iff, bool_decide_eq_false, forallb_forall.
  setoid_rewrite list_elem_of_In. done.
Qed.

Lemma available_no_proof m now a :
  unavailable m now a = false ->
  (match applicableProof a m now with Some p => bool_decide (kind p = Transient) | None => false end) = false ->
  applicableProof a m now = None.
Proof.
  unfold unavailable. destruct (applicableProof a m now) as [p|]; [|done]. by destruct (kind p).
Qed.

Lemma select_next_sound st m now acc st' :
  select_next st m now = Ok (acc, st') ->
  match acc with
  | Some a => a ∈ accounts st /\ enabled a = true /\ m ∈ models a /\ applicableProof a m now = None
      /\ active_account st' = Some (mkActive (accountId a) (fingerprint a)
                                      (default 0 (active_generation st) + 1))
  | None => st' = st /\ pool_exhausted st m now = true
  end.
Proof.
  unfold select_next. intros H. case_match eqn:Hf; inv_ok; [|done].
  apply find_some_elem in Hf as [Hin Hp]. apply cohort_spec in Hin as (? & ? & ?).
  unfold has_proof in Hp. by destruct (applicableProof a m now).
Qed.

(** Account selection is sound and sticky.  The account returned is an
    enabled account of the pool that supports the model and has no proof
    against it now; the active account is kept with its generation unless it
    is disabled or has a proof, and a switch advances the generation by one; no account
    at all is returned only when every capable account is proved unavailable. *)
Theorem selectAccount_sound st m now acc st' :
  selectAccount st m now = Ok (acc, st') ->
  match acc with
  | Some a =>
      a ∈ accounts st /\ enabled a = true /\ m ∈ models a /\ applicableProof a m now = None
      /\ (exists act, active_account st' = Some act /\ active_accountId act = accountId a
            /\ active_fingerprint act = fingerprint a
            /\ (generation act = default 1 (active_generation st)
                /\ active_accountId <$> active_account st = Some (accountId a)
                \/ generation act = default 0 (active_generation st) + 1
                   /\ forall c, current_account st = Some c -> unavailable m now c = true))
  | None => st' = st /\ pool_exhausted st m now = true
  end.
Proof.
  unfold selectAccount. intros H. destruct (current_account st) as [c|] eqn:Ec.
  - inv_ok. destruct (unavailable m now c) eqn:Hu; cbn in *.
    + apply select_next_sound in H1. destruct acc; [|done].
      destruct H1 as (?&?&?&?&Hact). rewrite Hact. split_and!; try done.
      eexists. split_and!; [done..|]. right. split; [done|]. congruence.
    + inv_ok. unfold current_account in Ec. apply find_some_elem in Ec as [Hin Hp].
      apply andb_true_iff in Hp as [Hen Hid]. unfold supports in *. rewrite bool_decide_eq_true in *.
      destruct (active_account st) as [act|] eqn:Ea; [|done]. apply bool_decide_eq_true in Hid.
      split_and!; try done; [by apply available_no_proof|].
      eexists. split; [done|]. cbn. unfold active_generation. rewrite Ea. cbn. rewrite Hid. auto.
  - apply select_next_sound in H. destruct acc; [|done].
    destruct H as (?&?&?&?&Hact). rewrite Hact. split_and!; try done.
    eexists. split_and!; [done..|]. right. split; [done|]. congruence.
Qed.

Lemma selectAccount_sound_witness :
  exists st', selectAccount Demo.st0 "gpt" 10 = Ok (Some Demo.acc, st')
    /\ applicableProof Demo.acc "gpt" 10 = None.
Proof.
  eexists. split; [vm_compute; reflexivity|].
  eapply (selectAccount_sound Demo.st0 "gpt" 10 (Some Demo.acc)). vm_compute. reflexivity.
Defined.

(** ** Paid fallback and dispatch fences *)

Lemma surplus_fell_back_spec l :
  surplus_fell_back l = true ->
  exists a t f, l = [a] /\ provider (input a) = Surplus /\ terminal a = Some t /\ fallback t = Some f.
Proof.
  unfold surplus_fell_back. destruct l as [|a [|]]; try done.
  rewrite andb_true_iff, bool_decide_eq_true. intros [Hp Hf].
  destruct (terminal a) as [t|] eqn:Et; cbn in Hf; [|done].
  destruct (fallback t) as [f|] eqn:Ef; [|done]. by exists a, t, f.
Qed.

(** C9: a paid attempt is reserved only when the whole subscription pool for
    the model is proved unavailable, without an account binding, in provider
    order (surplus first, openlux only after the one surplus attempt reported
    a capacity or quota fallback), while no other attempt is pending, and
    within the paid limit of the current policy. *)
Theorem paid_reservation_sound h i now st st' r :
  reserveAttempt h i now st = Ok (tt, st') -> provider i <> Codex ->
  _request st h = Ok r -> attempts r !! attemptId i = None ->
  pool_exhausted st (model r) now = true /\ input_account i = None
  /\ obj_some outcome_pending (attempts r) = false
  /\ (provider i = Surplus -> paid_attempts r = [])
  /\ (provider i = Openlux -> exists a t f, paid_attempts r = [a] /\ provider (input a) = Surplus
        /\ terminal a = Some t /\ fallback t = Some f)
  /\ exists p w, policies st !! principalId r = Some p /\ version p = policyVersion r
       /\ deleted p = false /\ now < windowResetAtMs p /\ windows st !! windowKey r = Some w
       /\ paidReservedMicrocredits w + paidSettledMicrocredits w + maximumExposureMicrocredits i
          <= paidLimitMicrocredits p.
Proof.
  intros H Hprov Hreq Hnew. unfold reserveAttempt, lookup_own in H. inv_ok.
  rewrite Hreq in *. inv_ok. rewrite Hnew in *. inv_ok. rewrite bool_decide_false in * by done.
  unfold reservePaid in *. inv_ok. unfold current_policy, lookup_own, window_changed in *. inv_ok.
  destruct (input_account i) eqn:Ei; [done|].
  split_and!; try done.
  - intros Es. rewrite bool_decide_true in H6 by done. by apply negb_false_iff, bool_decide_eq_true in H6.
  - intros Eo. rewrite bool_decide_true in H7 by done. apply negb_false_iff in H7.
    by apply surplus_fell_back_spec.
  - do 2 eexists. split_and!; try done; lia.
Qed.

Lemma paid_reservation_sound_witness :
  exists st', reserveAttempt Demo.h Demo.paid 31 Demo.st_exhausted = Ok (tt, st')
    /\ pool_exhausted Demo.st_exhausted "gpt" 31 = true.
Proof.
  exists (Demo.run_or [OpReserveAttempt Demo.h Demo.paid 31] Demo.st_exhausted).
  assert (exists r, _request Demo.st_exhausted Demo.h = Ok r /\ model r = "gpt"%string
            /\ attempts r !! "a2"%string = None) as (r & Hr & Hm & Hn)
    by (eexists; split; [vm_compute; reflexivity|split; vm_compute; reflexivity]).
  assert (reserveAttempt Demo.h Demo.paid 31 Demo.st_exhausted
    = Ok (tt, Demo.run_or [OpReserveAttempt Demo.h Demo.paid 31] Demo.st_exhausted)) as H
    by (vm_compute; reflexivity).
  split; [exact H|]. rewrite <- Hm.
  refine (proj1 (paid_reservation_sound _ _ _ _ _ _ H _ Hr Hn)). discriminate.
Defined.

(** A dispatch is won only under the fences it was admitted with: the
    request is open, its policy version is still current and undeleted and its
    quota window has not rolled over; a subscription attempt still has exactly
    the account it was bound to, under the same active generation; a paid
    attempt still has every capable account proved unavailable. *)
Theorem dispatch_fenced h id now st st' :
  beginDispatch h id now st = Ok (true, st') ->
  exists r a p, _request st h = Ok r /\ attempts r !! id = Some a /\ attempt_state a = Reserved
    /\ settled r = false /\ policies st !! principalId r = Some p /\ deleted p = false
    /\ version p = policyVersion r /\ now < windowResetAtMs p
    /\ windowKey r = (principalId r, windowResetAtMs p)
    /\ match input_account (input a) with
       | Some acc => acc ∈ accounts st /\ active_generation st = activeGeneration r
       | None => pool_exhausted st (model r) now = true
       end.
Proof.
  unfold beginDispatch, lookup_own. intros H. inv_ok.
  destruct (negb (bool_decide (attempt_state x0 = Reserved))) eqn:Es; inv_ok.
  unfold current_policy, lookup_own, window_changed in *. inv_ok.
  do 3 eexists. split_and!; try done; try lia.
  destruct (input_account (input x0)) as [acc|] eqn:Ea; inv_ok; [|done].
  apply bool_decide_eq_true in H4. destruct (find_account st (accountId acc)) as [[n c]|] eqn:Ef; [|done].
  change (Some c = Some acc) in H4. simplify_eq. apply list_find_Some in Ef as (Hn & _ & _).
  split; [by eapply list_elem_of_lookup_2|done].
Qed.

Lemma dispatch_fenced_witness :
  exists st', beginDispatch Demo.h "a1" 12 Demo.st_reserved = Ok (true, st')
    /\ exists r, _request Demo.st_reserved Demo.h = Ok r /\ settled r = false.
Proof.
  assert (exists st', beginDispatch Demo.h "a1" 12 Demo.st_reserved = Ok (true, st')) as [st' H]
    by (eexists; vm_compute; reflexivity).
  exists st'. split; [exact H|].
  destruct (dispatch_fenced _ _ _ _ _ H) as (r & a & p & Hr & _ & _ & Hs & _).
  exists r. split; assumption.
Defined.

(** A request that never reached the dispatch intent can always be
    cancelled: [cancelUndispatched] succeeds, settles the request and leaves
    it holding no request, kernel, concurrency or paid reservation. *)
Theorem cancel_always_releases sc accs pols st h r :
  reachable (createAuthorityState sc accs pols) st -> _request st h = Ok r -> settled r = false ->
  (forall id a, attempts r !! id = Some a -> attempt_state a = Reserved \/ attempt_state a = NotDispatched) ->
  exists st' r', cancelUndispatched h st = Ok (Settled, st')
    /\ admissions st' !! requestId h = Some r' /\ settled r' = true
    /\ reserved (contribution r') = 0 /\ kernelReserved (contribution r') = 0
    /\ active (contribution r') = 0 /\ paidReservedMicrocredits (contribution r') = 0
    /\ delivery r' <> None.
Proof.
  intros Hreach Hreq Hs Hcan. apply _request_ok in Hreq as [Hr Hf]. eapply cancel_settles; try done.
  eapply reachable_inv; [apply inv_init|done].
Qed.

Lemma cancel_always_releases_witness :
  exists st' r', cancelUndispatched Demo.h Demo.st_reserved = Ok (Settled, st')
    /\ admissions st' !! "req"%string = Some r' /\ settled r' = true.
Proof.
  assert (exists r, _request Demo.st_reserved Demo.h = Ok r /\ settled r = false
     /\ attempts r = {["a1"%string := mkAttempt Demo.codex Reserved None false None]}) as (r & Hr & Hs & Ha)
    by (eexists; split; [vm_compute; reflexivity|split; vm_compute; reflexivity]).
  destruct (cancel_always_releases Demo.sc [Demo.acc] [Demo.pol] Demo.st_reserved Demo.h r)
    as (st' & r' & H1 & H2 & H3 & _).
  - apply Demo.ran_reachable. vm_compute. reflexivity.
  - exact Hr.
  - exact Hs.
  - intros id a Hid. rewrite Ha in Hid. apply lookup_singleton_Some in Hid as [_ <-]. left. reflexivity.
  - exists st', r'. repeat split; assumption.
Defined.

(** Admission is idempotent by request id and fenced.  A request id that
    is known returns its old handle and changes nothing; a new one gets a
    fence above every fence issued before, is recorded under it with its
    window counted once, and was below every limit of the current policy. *)
Theorem admit_fences sc accs pols st i h st' :
  reachable (createAuthorityState sc accs pols) st -> authority_admit i st = Ok (h, st') ->
  match admissions st !! admit_requestId i with
  | Some prev => st' = st /\ h = handle prev /\ same_request prev i = true
  | None =>
      (forall rid r, admissions st !! rid = Some r -> fence (handle r) < fence h)
      /\ exists p w acc st1, policies st !! admit_principalId i = Some p
         /\ selectAccount st (admit_model i) (admit_nowMs i) = Ok (acc, st1)
         /\ _request st' h = Ok (new_admission i h (admit_principalId i, windowResetAtMs p) acc
                                   (active_generation st1))
         /\ w = default emptyWindow (windows st !! (admit_principalId i, windowResetAtMs p))
         /\ reserved w + dispatched w < requestLimit p
         /\ kernelReserved w + kernelCompleted w < kernelLimit p
         /\ active_requests st (admit_principalId i) < concurrencyLimit p
         /\ windows st' !! (admit_principalId i, windowResetAtMs p)
            = Some (wadd w (mkWindow 1 0 1 0 1 0 0))
  end.
Proof.
  intros Hreach H. assert (inv st) as Hinv by (eapply reachable_inv; [apply inv_init|done]).
  unfold authority_admit, lookup_own in H. destruct (admissions st !! admit_requestId i) as [prev|] eqn:Ep.
  { inv_ok. done. }
  unfold admit_fresh in H. inv_ok. unfold current_policy, lookup_own, over_quota in *. inv_ok.
  match goal with H : selectAccount _ _ _ = Ok (?a, ?s) |- _ =>
    rename H into Hsel; destruct (selectAccount_frame _ _ _ _ _ Hsel) as (Epol & Eseq & Eadm & Ewin & _) end.
  split.
  - intros rid r Hr. pose proof (ri_fence _ _ _ (inv_records _ Hinv _ _ Hr)). cbn. lia.
  - do 4 eexists. split_and!; [done|exact Hsel| |done|lia..|].
    + apply _request_ok. cbn. rewrite lookup_insert_eq. done.
    + cbn. rewrite lookup_insert_eq. unfold wadd. cbn. f_equal. f_equal; lia.
Qed.

Lemma admit_fences_witness :
  exists st', authority_admit Demo.adm Demo.st0 = Ok (Demo.h, st')
    /\ forall rid r, admissions Demo.st0 !! rid = Some r -> fence (handle r) < 1.
Proof.
  assert (exists st', authority_admit Demo.adm Demo.st0 = Ok (Demo.h, st')) as [st' H]
    by (eexists; vm_compute; reflexivity).
  exists st'. split; [exact H|].
  exact (proj1 (admit_fences Demo.sc [Demo.acc] [Demo.pol] Demo.st0 Demo.adm Demo.h st'
                  (reach_init _) H)).
Defined.

(** ** Credential publication *)

Lemma bigint_le_ok l r b : bigint_le l r = Ok b ->
  exists x y, decimal l = Some x /\ decimal r = Some y /\ b = (x <=? y).
Proof. unfold bigint_le. intros H. inv_ok. eauto. Qed.

Lemma publish_checks_ok verify b i now u :
  publish_checks verify b i now = Ok u ->
  previousGeneration i = auth_generation (authorization i) - 1
  /\ now + 120000 < auth_expiresAtMs (authorization i)
  /\ auth_ownerId (authorization i) = binding_ownerId b
  /\ auth_ownerEpoch (authorization i) = binding_ownerEpoch b
  /\ auth_workspaceId (authorization i) = binding_workspaceId b.
Proof.
  unfold publish_checks, _validateBinding, _validateGeneration. intros H. inv_ok.
  split_and!; try done; lia.
Qed.

(** C13: a published credential only moves forward.  After the checks of
    [publish], a publication that takes effect is the direct successor of the
    stored generation (or of the account's, when none was published), was
    refreshed strictly later and expires no earlier than the stored one, comes
    from the same owner, binds the account to the new fingerprint with its
    proof cleared, and leaves the other publications and the active generation
    alone. *)
Theorem publication_forward verify b i now st st' u :
  publish_checks verify b i now = Ok u -> _applyPublication b i st = Ok (Published, st') ->
  exists n acc, accounts st !! n = Some acc /\ accountId acc = auth_accountId (authorization i)
  /\ publications st' = <[auth_accountId (authorization i) := authorization i]> (publications st)
  /\ accounts st' = <[n := acc <| fingerprint := auth_fingerprint (authorization i) |>
                             <| credentialGeneration := auth_generation (authorization i) |>
                             <| proof := None |>]> (accounts st)
  /\ active_generation st' = active_generation st
  /\ now + 120000 < auth_expiresAtMs (authorization i)
  /\ match publications st !! auth_accountId (authorization i) with
     | None => auth_generation (authorization i) = credentialGeneration acc + 1
     | Some c =>
         auth_generation (authorization i) = auth_generation c + 1
         /\ auth_expiresAtMs c <= auth_expiresAtMs (authorization i)
         /\ auth_ownerId c = auth_ownerId (authorization i)
         /\ auth_ownerEpoch c = auth_ownerEpoch (authorization i)
         /\ auth_workspaceId c = auth_workspaceId (authorization i)
         /\ exists t0 t1, decimal (auth_nativeRefreshedAtNs c) = Some t0
              /\ decimal (auth_nativeRefreshedAtNs (authorization i)) = Some t1 /\ t0 < t1
     end.
Proof.
  intros Hc H. apply publish_checks_ok in Hc as (Hprev & Hexp & Hown & Hepoch & Hws).
  unfold _applyPublication, lookup_own in H. inv_ok.
  match goal with H : find_account _ _ = Some (?n, ?a) |- _ =>
    apply list_find_Some in H as (Hn & Hid & _); rename n into n, a into acc end.
  destruct (generation_taken _ _); inv_ok; [done|]. exists n, acc. split; [done|]. split; [done|].
  assert (publications st' = <[auth_accountId (authorization i) := authorization i]> (publications st)
    /\ accounts st' = <[n := acc <| fingerprint := auth_fingerprint (authorization i) |>
                             <| credentialGeneration := auth_generation (authorization i) |>
                             <| proof := None |>]> (accounts st)
    /\ active_generation st' = active_generation st) as (-> & -> & ->).
  { cbn in H3. destruct (active_account st) as [act|] eqn:Ea; [case_bool_decide|];
      simplify_eq; unfold active_generation; cbn; rewrite Ea; done. }
  split_and!; try done. clear H3 Hn. destruct (publications st !! _) as [c|]; cbn in *; [|lia].
  inv_ok. apply bigint_le_ok in H1 as (t1 & t0 & Ht1 & Ht0 & ->).
  unfold owner_changed in *. inv_ok. split_and!; try congruence; try lia.
  exists t0, t1. split_and!; try done. lia.
Qed.

Module DemoPublication.

Definition owner : CredentialOwnerBinding := mkOwner Demo.sc "owner" 1 "acct" "ws" "100".
Definition auth (gen : Z) (refreshed : string) : AccessAuthorization :=
  mkAuthorization "owner" 1 "acct" "ws" gen refreshed "fp2" "access" "id" 5 500000.
Definition pub (gen : Z) (refreshed : string) : AccessPublication :=
  mkPublication (auth gen refreshed) (gen - 1) (KeyString <$> FIELDS).
(** A verifier that reads the identity off the publication. *)
Definition verify (i : AccessPublication) : Result exn VerifiedAccessIdentity :=
  Ok (mkIdentity (auth_accountId (authorization i)) (auth_workspaceId (authorization i))
        (auth_fingerprint (authorization i)) (auth_issuedAtMs (authorization i))
        (auth_expiresAtMs (authorization i))).
Definition st1 : AuthorityState := Demo.run_or [OpPublish owner (pub 2 "200")] Demo.st_admitted.

End DemoPublication.

Lemma publication_forward_witness :
  exists st', _applyPublication DemoPublication.owner (DemoPublication.pub 3 "300") DemoPublication.st1
              = Ok (Published, st')
    /\ publications st' = <["acct"%string := DemoPublication.auth 3 "300"]>
                            (publications DemoPublication.st1).
Proof.
  assert (exists st', _applyPublication DemoPublication.owner (DemoPublication.pub 3 "300")
            DemoPublication.st1 = Ok (Published, st')) as [st' H]
    by (eexists; vm_compute; reflexivity).
  exists st'. split; [exact H|].
  destruct (publication_forward DemoPublication.verify DemoPublication.owner
              (DemoPublication.pub 3 "300") 10 DemoPublication.st1 st' tt) as (n & acc & _ & _ & Hp & _).
  - vm_compute. reflexivity.
  - exact H.
  - exact Hp.
Defined.

(** ** Transactions *)

(** C14: the store is linearizable.  However the reads, swaps, conflicts and
    failures of any number of clients interleave, the stored state is the
    result of running the committed operations one after the other, in commit
    order, from the initial state; the revision counts them; and a client
    whose revision is still current holds the current state. *)
Theorem authority_linearizable s rev0 st0 (w : World) :
  _read s = Ok (rev0, st0) -> rtc wstep (initial_world s) w ->
  exists st, _read (store w) = Ok (rev0 + Z.of_nat (length (committed_ops w)), st)
    /\ runs (committed_ops w) st0 = Ok st /\ reachable st0 st
    /\ forall c p, pending w !! c = Some p ->
         pending_revision p = rev0 + Z.of_nat (length (committed_ops w)) -> pending_snapshot p = st.
Proof.
  intros Hs Hw. destruct (linearized_reachable (Store := durable_store) s rev0 st0 w Hs Hw) as (st & Hr & Hruns & Hp).
  exists st. split_and!; [done|done|by eapply runs_reachable|].
  intros c p Hc. exact (proj2 (Hp c p Hc)).
Qed.

Module DemoStore.

Definition s0 : DurableAuthorityStore :=
  match openStore None Demo.st0 100000 with Ok s => s | Err _ => mkStore Demo.sc 0 None end.
Definition s1 : DurableAuthorityStore :=
  match compareAndSwap 0 Demo.st_admitted s0 with Ok (_, s) => s | Err _ => s0 end.
Definition op : Operation := OpAdmit Demo.adm.
(** Client 1 read, committed an admission; client 2 still holds the old snapshot. *)
Definition w2 : World := mkWorld s0 {[2%nat := mkPending op 0 Demo.st0]} [].
Definition w3 : World := mkWorld s0 (<[1%nat := mkPending op 0 Demo.st0]> (pending w2)) [].
Definition w4 : World := mkWorld s1 (delete 1%nat (pending w3)) [op].

Lemma reads0 : _read s0 = Ok (0, Demo.st0).
Proof. vm_compute. reflexivity. Qed.

Lemma steps : rtc wstep (initial_world s0) w4.
Proof.
  eapply rtc_l; [exact (w_read (initial_world s0) 2 op 0 Demo.st0 reads0)|].
  eapply rtc_l; [exact (w_read w2 1 op 0 Demo.st0 reads0)|].
  apply rtc_once. apply (w_commit w3 1 (mkPending op 0 Demo.st0) Demo.st_admitted s1).
  - reflexivity.
  - vm_compute. reflexivity.
  - vm_compute. reflexivity.
Qed.

End DemoStore.

Lemma authority_linearizable_witness :
  exists st, _read DemoStore.s1 = Ok (0 + 1, st) /\ run DemoStore.op Demo.st0 = Ok st.
Proof.
  destruct (authority_linearizable DemoStore.s0 0 Demo.st0 DemoStore.w4 DemoStore.reads0
              DemoStore.steps) as (st & Hr & Hruns & _).
  exists st. split; [exact Hr|].
  change (committed_ops DemoStore.w4) with [DemoStore.op] in Hruns. cbn [runs] in Hruns.
  destruct (run DemoStore.op Demo.st0); exact Hruns.
Defined.

(** C15: a transaction that returns a value wrote the store exactly once.
    [interfered env k s] is what the other clients alone make of [s] by attempt
    [k].  The value was computed on the snapshot that attempt [k] read, at most
    the eighth; the revision moved under every earlier attempt; at the swap the
    revision was still the one that was read, and the store that is left is that
    single swap of the action's result, at the next revision, on what the other
    clients left.  A transaction that throws leaves nothing but what the other
    clients did. *)
Theorem transact_commits {T} env bound sc (action : AuthorityState -> Result exn (T * AuthorityState))
    (s s' : DurableAuthorityStore) res :
  _transact env bound sc action s = (res, s') ->
  match res with
  | Ok x =>
      exists k rev snap st, (k < 8)%nat
      /\ (forall i, (i < k)%nat -> exists rev' snap', _read (before_read env i (interfered env i s)) = Ok (rev', snap')
            /\ forall cur, _read (before_swap env i (before_read env i (interfered env i s))) <> Ok (rev', cur))
      /\ _read (before_read env k (interfered env k s)) = Ok (rev, snap) /\ scope snap = bound
      /\ action snap = Ok (x, st)
      /\ (exists cur, _read (interfered env (S k) s) = Ok (rev, cur))
      /\ compareAndSwap rev st (interfered env (S k) s) = Ok (true, s')
      /\ _read s' = Ok (rev + 1, st)
  | Err _ => exists k, (k <= 8)%nat
      /\ (s' = interfered env k s \/ (k < 8)%nat /\ s' = before_read env k (interfered env k s))
  end.
Proof.
  unfold _transact. destruct (sameScope sc bound) eqn:Hsc; cbn [negb].
  2:{ intros [= <- <-]. exists O. split; [lia|by left]. }
  apply sameScope_spec in Hsc as ->. intros H. apply (retry_cases env 8 0 bound action s) in H. destruct res as [e|x]; [exact H|].
  destruct H as (k & Hk & Hov & rev & snap & st & Hr & Hs & Ha & Hc). apply sameScope_spec in Hs.
  destruct (store_cas_commit _ _ _ _ Hc) as [Hcur Hr']. exists k, rev, snap, st. split_and!; [lia| |done..].
  intros i Hi. apply Hov. lia.
Qed.

(** Another client bumps the revision before the swap of every attempt but the
    last. *)
Definition busy : Interference DurableAuthorityStore :=
  mkInterference _ (fun _ s => s) (fun k s =>
    if Nat.eqb k 7 then s else
    match _read s with
    | Ok (rev, st) => match compareAndSwap rev st s with Ok (_, s) => s | Err _ => s end
    | Err _ => s
    end).

Lemma transact_commits_witness :
  exists s', _transact busy Demo.sc Demo.sc (authority_admit Demo.adm) DemoStore.s0 = (Ok Demo.h, s')
    /\ exists k rev st, (k < 8)%nat /\ compareAndSwap rev st (interfered busy (S k) DemoStore.s0) = Ok (true, s')
       /\ _read s' = Ok (rev + 1, st).
Proof.
  assert (exists s', _transact busy Demo.sc Demo.sc (authority_admit Demo.adm) DemoStore.s0 = (Ok Demo.h, s'))
    as [s' H] by (eexists; vm_compute; reflexivity).
  exists s'. split; [exact H|].
  destruct (transact_commits _ _ _ _ _ _ _ H) as (k & rev & snap & st & Hk & _ & _ & _ & _ & _ & Hc & Hr).
  exists k, rev, st. exact (conj Hk (conj Hc Hr)).
Defined.

(** A transaction gives up with [concurrent_update] only when other
    clients got in the way every time: if the store stands still between the
    read and the swap of any one of the eight attempts, and the action does
    not raise that error itself, the transaction does not end with it. *)
Theorem transact_lock_free {T} env bound sc (action : AuthorityState -> Result exn (T * AuthorityState))
    (s s' : DurableAuthorityStore) k :
  (k < 8)%nat -> (forall s, before_swap env k s = s) ->
  (forall snap, action snap <> Err concurrent_update) ->
  _transact env bound sc action s <> (Err concurrent_update, s').
Proof.
  intros Hk Hq Ha. unfold _transact. destruct (sameScope sc bound); cbn [negb]; [|done].
  apply (retry_quiet env 8 0 k); [lia|done|done].
Qed.

Lemma transact_lock_free_witness :
  (exists s', _transact busy Demo.sc Demo.sc (selection Demo.h) DemoStore.s1
              = (Ok (Some Demo.acc, "gpt"%string, RouteResponses), s'))
  /\ forall s', _transact busy Demo.sc Demo.sc (selection Demo.h) DemoStore.s1
                <> (Err concurrent_update, s').
Proof.
  split; [eexists; vm_compute; reflexivity|]. intros s'.
  apply (transact_lock_free busy Demo.sc Demo.sc (selection Demo.h) DemoStore.s1 s' 7).
  - lia.
  - reflexivity.
  - intros snap. unfold selection, _request, lookup_own.
    destruct (admissions snap !! _) as [r|]; [|discriminate].
    cbn. destruct (negb (fence (handle r) =? _)); discriminate.
Defined.

Lemma openStore_facts existing init maxBytes s :
  openStore existing init maxBytes = Ok s ->
  store_scope s = scope init /\ maximumStateBytes s = maxBytes
  /\ (existing = None -> _read s = Ok (0, init)).
Proof.
  unfold openStore. intros H. inv_ok. split; [by destruct existing|]. split; [by destruct existing|].
  intros ->. unfold _encode in *. inv_ok.
  match goal with H : _read _ = Ok ?v |- _ =>
    enough (v = (0, init)) as <- by exact H; unfold _read in H end.
  inv_ok. cbn in *. simplify_eq. cbn in *. inv_ok. done.
Qed.

(** The durable store opens on what it will read back.  A store opened
    on an empty table holds the initial state at revision zero, opened on an
    existing row it holds that row, and every state a successful swap wrote
    reads back as it was at the next revision, bounded in bytes and of the
    bound scope. *)
Theorem store_open_and_swap existing init maxBytes s rev st s' :
  openStore existing init maxBytes = Ok s -> compareAndSwap rev st s = Ok (true, s') ->
  (existing = None -> _read s = Ok (0, init))
  /\ _read s' = Ok (rev + 1, st) /\ scope st = scope init
  /\ text_bytes (TextOf st) <= maxBytes
  /\ exists cur, _read s = Ok (rev, cur).
Proof.
  intros Ho Hc. destruct (durable_cas_commit _ _ _ _ Hc) as [Hcur Hread].
  destruct (openStore_facts _ _ _ _ Ho) as (Hscope & Hmax & Hinit).
  unfold compareAndSwap, _encode, _bounded in Hc. inv_ok.
  match goal with H : sameScope _ _ = true |- _ => apply sameScope_spec in H as Hst end.
  rewrite Hscope in Hst. split_and!; try done. lia.
Qed.

Lemma store_open_and_swap_witness :
  openStore None Demo.st0 100000 = Ok DemoStore.s0
  /\ compareAndSwap 0 Demo.st_admitted DemoStore.s0 = Ok (true, DemoStore.s1)
  /\ _read DemoStore.s1 = Ok (0 + 1, Demo.st_admitted).
Proof.
  assert (openStore None Demo.st0 100000 = Ok DemoStore.s0) as Ho by (vm_compute; reflexivity).
  assert (compareAndSwap 0 Demo.st_admitted DemoStore.s0 = Ok (true, DemoStore.s1)) as Hc
    by (vm_compute; reflexivity).
  split; [exact Ho|split; [exact Hc|]].
  exact (proj1 (proj2 (store_open_and_swap _ _ _ _ _ _ _ Ho Hc))).
Defined.
