(* ===== verification/KvStore.v ===== *)
(** * The key-value store the adapters run on

    The store is [@deno/kv], a third-party package: here it is any type with a
    [KvStore] instance, whose laws are its documented behaviour (versionstamped
    entries, prefix listings, atomic commits guarded by version checks,
    versionstamps that only grow).  Entry expiry is not part of the interface.
    The kernel quota stores untyped JSON and validates what it reads; the paid
    ledger reads typed rows: the value type is a parameter, with the value an
    absent entry has.  [kv_log] is a history variable: the entries before and
    after every commit, which no code reads.  Adapter code runs in the monad [KvM]: every storage call
    is an [await], at which other clients may act on the store first. *)

From stdpp Require Import base gmap strings list sorting.
From Stdlib Require Import ZArith Lia.
From S2P Require Import Prelude.
Open Scope Z_scope.

(** ** Keys *)

Inductive KeyPart := KStr (s : string) | KNum (z : Z).

#[export] Instance KeyPart_eq_dec : EqDecision KeyPart.
Proof. solve_decision. Defined.
#[export] Instance KeyPart_countable : Countable KeyPart.
Proof.
  apply (inj_countable' (fun k => match k with KStr s => inl s | KNum z => inr z end)
    (fun x => match x with inl s => KStr s | inr z => KNum z end)). by intros [].
Defined.

Definition KvKey : Type := list KeyPart.

Fixpoint has_prefix (p k : KvKey) : bool :=
  match p, k with
  | [], _ => true
  | a :: p, b :: k => bool_decide (a = b) && has_prefix p k
  | _ :: _, [] => false
  end.

(** ** Entries, checks and mutations *)

(** The value of an absent entry. *)
Class Nullable (V : Type) := null : V.

Notation KvMapOf V := (@gmap KvKey list_eq_dec list_countable (V * Z)).

(** [KvEntryMaybe]: an absent entry has a null value and no versionstamp. *)
Record KvEntryOf (V : Type) := mkEntry {
  entry_key : KvKey;
  entry_value : V;
  versionstamp : option Z }.
Arguments mkEntry {V} _ _ _.
Arguments entry_key {V} _.
Arguments entry_value {V} _.
Arguments versionstamp {V} _.

Inductive KvMutationOf (V : Type) :=
| MSet (k : KvKey) (v : V) (expireIn : option Z)
| MDelete (k : KvKey).
Arguments MSet {V} _ _ _.
Arguments MDelete {V} _.

Section entries.
Context {V : Type} `{Null : Nullable V}.

Definition entry_at (m : KvMapOf V) (k : KvKey) : KvEntryOf V :=
  match m !! k with
  | Some (v, n) => mkEntry k v (Some n)
  | None => mkEntry k null None
  end.

Definition mutation_key (mu : KvMutationOf V) : KvKey :=
  match mu with MSet k _ _ => k | MDelete k => k end.

Definition apply_mutation (n : Z) (m : KvMapOf V) (mu : KvMutationOf V) : KvMapOf V :=
  match mu with MSet k v _ => <[k := (v, n)]> m | MDelete k => delete k m end.

Definition apply_mutations (n : Z) (ms : list (KvMutationOf V)) (m : KvMapOf V) : KvMapOf V :=
  foldl (apply_mutation n) m ms.

Definition checks_hold (m : KvMapOf V) (cs : list (KvEntryOf V)) : bool :=
  forallb (fun c => bool_decide (versionstamp (entry_at m (entry_key c)) = versionstamp c)) cs.

Definition entries_under (m : KvMapOf V) (p : KvKey) : list (KvEntryOf V) :=
  (fun '(k, (v, n)) => mkEntry k v (Some n))
    <$> filter (fun kv => has_prefix p (fst kv) = true) (map_to_list m).
End entries.

(** ** The interface *)

(** [kv_log] is a history variable: the commits that were made through the
    interface, each with the entries before and after it.  What other clients do
    is not made through it. *)

Class KvStoreOf (V : Type) `{Nullable V} (S : Type) := {
  kv_map : S -> KvMapOf V;
  kv_version : S -> Z;
  kv_log : S -> list (KvMapOf V * KvMapOf V);
  kv_get : S -> KvKey -> KvEntryOf V;
  kv_list : S -> KvKey -> list (KvEntryOf V);
  kv_commit : list (KvEntryOf V) -> list (KvMutationOf V) -> S -> bool * S;
  kv_version_bound s k v n : kv_map s !! k = Some (v, n) -> n <= kv_version s;
  kv_get_spec s k : kv_get s k = entry_at (kv_map s) k;
  kv_list_spec s p : kv_list s p ≡ₚ entries_under (kv_map s) p;
  kv_commit_ok cs ms s s' :
    kv_commit cs ms s = (true, s') ->
    checks_hold (kv_map s) cs = true /\ kv_version s < kv_version s'
    /\ kv_map s' = apply_mutations (kv_version s') ms (kv_map s);
  kv_commit_logged cs ms s s' : kv_commit cs ms s = (true, s') -> kv_log s' = (kv_log s ++ [(kv_map s, kv_map s')])%list;
  kv_commit_failed cs ms s s' : kv_commit cs ms s = (false, s') -> s' = s;
  kv_commit_holds cs ms s : checks_hold (kv_map s) cs = true -> fst (kv_commit cs ms s) = true }.

(** ** An in-memory store *)

Record MemoryKvOf (V : Type) := mkMemory { mem_map : KvMapOf V; mem_version : Z; mem_log : list (KvMapOf V * KvMapOf V);
  mem_bound : map_Forall (fun _ e => snd e <= mem_version) mem_map }.
Arguments mkMemory {V} _ _ _ _.
Arguments mem_map {V} _.
Arguments mem_version {V} _.
Arguments mem_log {V} _.
Arguments mem_bound {V} _.

Section memory.
Context {V : Type} `{Null : Nullable V}.

Lemma apply_mutations_bound n ms m :
  map_Forall (fun _ (e : V * Z) => snd e <= n) m ->
  map_Forall (fun _ e => snd e <= n) (apply_mutations n ms m).
Proof.
  revert m. induction ms as [|mu ms IH]; intros m Hm; cbn; [done|]. apply IH.
  destruct mu; cbn; [by apply map_Forall_insert_2; cbn; [lia|]|by apply map_Forall_delete].
Qed.

Lemma memory_next_bound (s : MemoryKvOf V) ms :
  map_Forall (fun _ e => snd e <= mem_version s + 1)
    (apply_mutations (mem_version s + 1) ms (mem_map s)).
Proof.
  apply apply_mutations_bound. eapply map_Forall_impl; [exact (mem_bound s)|]. cbn. lia.
Qed.

Definition memory_commit (cs : list (KvEntryOf V)) (ms : list (KvMutationOf V)) (s : MemoryKvOf V)
    : bool * MemoryKvOf V :=
  if checks_hold (mem_map s) cs
  then let m := apply_mutations (mem_version s + 1) ms (mem_map s) in
       (true, mkMemory m (mem_version s + 1) (mem_log s ++ [(mem_map s, m)]) (memory_next_bound s ms))
  else (false, s).

Definition memory_empty : MemoryKvOf V := mkMemory ∅ 0 [] (map_Forall_empty _).

#[export] Program Instance memory_kv : KvStoreOf V (MemoryKvOf V) := {
  kv_map := mem_map;
  kv_version := mem_version;
  kv_log := mem_log;
  kv_get s k := entry_at (mem_map s) k;
  kv_list s p := entries_under (mem_map s) p;
  kv_commit := memory_commit }.
Next Obligation. intros s k v n H. exact (mem_bound s k (v, n) H). Qed.
Next Obligation. done. Qed.
Next Obligation. done. Qed.
Next Obligation.
  intros cs ms s s'. unfold memory_commit. destruct (checks_hold _ _) eqn:E; [|done].
  intros [= <-]. cbn. split_and!; [done|lia|done].
Qed.
Next Obligation.
  intros cs ms s s'. unfold memory_commit. destruct (checks_hold _ _); [|done]. by intros [= <-].
Qed.
Next Obligation.
  intros cs ms s s'. unfold memory_commit. destruct (checks_hold _ _); [done|]. by intros [= <-].
Qed.
Next Obligation. intros cs ms s H. unfold memory_commit. cbn in H. by rewrite H. Qed.
End memory.

(** ** Adapter code *)

(** What other clients do at the [n]-th storage call. *)
Definition Clients (S : Type) : Type := nat -> S -> S.

(** The number of the next storage call, and the store. *)
Definition KvM (S A : Type) : Type := nat * S -> Result string A * (nat * S).

Section monad.
Context {S : Type}.

Definition kv_ret {A} (a : A) : KvM S A := fun w => (Ok a, w).
Definition kv_throw {A} (message : string) : KvM S A := fun w => (Err message, w).
Definition kv_bind {A B} (m : KvM S A) (k : A -> KvM S B) : KvM S B := fun w =>
  match m w with
  | (Ok a, w) => k a w
  | (Err e, w) => (Err e, w)
  end.
Definition kv_lift {A} (r : Result string A) : KvM S A := fun w => (r, w).
(** [try { m } catch { handler }]. *)
Definition kv_catch {A} (m : KvM S A) (handler : string -> KvM S A) : KvM S A := fun w =>
  match m w with
  | (Ok a, w) => (Ok a, w)
  | (Err e, w) => handler e w
  end.

(** [Date.now()] before the [n]-th storage call. *)
Definition date_now (clock : nat -> Z) : KvM S Z := fun '(n, s) => (Ok (clock n), (n, s)).

Context {V : Type} `{Null : Nullable V} `{Kv : !KvStoreOf V S} (others : Clients S).

(** [await kv.get(key, { consistency: "strong" })]. *)
Definition get (k : KvKey) : KvM S (KvEntryOf V) := fun '(n, s) =>
  let s := others n s in (Ok (kv_get s k), (Datatypes.S n, s)).

(** [for await (const entry of kv.list({ prefix }))], read at one point. *)
Definition list_prefix (p : KvKey) : KvM S (list (KvEntryOf V)) := fun '(n, s) =>
  let s := others n s in (Ok (kv_list s p), (Datatypes.S n, s)).

(** [await kv.atomic().check(...).set(...).commit()], its [ok]. *)
Definition commit (cs : list (KvEntryOf V)) (ms : list (KvMutationOf V)) : KvM S bool := fun '(n, s) =>
  let s := others n s in
  let '(ok, s) := kv_commit cs ms s in (Ok ok, (Datatypes.S n, s)).
End monad.

Declare Scope kv_scope.
Delimit Scope kv_scope with kv.
Notation "'let!' x := m 'in' k" := (kv_bind m (fun x => k))
  (at level 10, x name, m at level 100, k at level 200) : kv_scope.
Notation "'let!' ' p := m 'in' k" := (kv_bind m (fun x => let p := x in k))
  (at level 10, p pattern, m at level 100, k at level 200) : kv_scope.
