(* ===== verification/KvLogic.v ===== *)
(** * Reasoning about adapter code

    How a store advances under any clients, and a small rely-guarantee logic
    for [KvM]: a triple says what holds of the result and of the store at the
    end, whatever the other clients do meanwhile within their rely. *)

From stdpp Require Import base gmap strings list.
From Stdlib Require Import ZArith Lia.
From S2P Require Import Prelude KvStore.
Open Scope Z_scope.

(** ** How a store advances *)

Section advances.
Context {V S : Type} `{Null : Nullable V} `{Kv : !KvStoreOf V S}.
Local Notation at_ s k := (entry_at (kv_map s) k).

Lemma entry_at_key (m : KvMapOf V) k : entry_key (entry_at m k) = k.
Proof. unfold entry_at. by destruct (m !! k) as [[]|]. Qed.

Lemma versionstamp_bound s k n : versionstamp (at_ s k) = Some n -> n <= kv_version s.
Proof.
  unfold entry_at. destruct (kv_map s !! k) as [[v m]|] eqn:E; [|done].
  cbn. intros [= <-]. by eapply kv_version_bound.
Qed.

Lemma absent_entry (m : KvMapOf V) k :
  versionstamp (entry_at m k) = None -> entry_at m k = mkEntry k null None.
Proof. unfold entry_at. by destruct (m !! k) as [[]|]. Qed.

(** Versions never come back: every entry is the old one, absent, or newer
    than the old store. *)
Record advances (s s' : S) : Prop := {
  adv_version : kv_version s <= kv_version s';
  adv_entry k : at_ s' k = at_ s k \/ versionstamp (at_ s' k) = None
                \/ exists n, versionstamp (at_ s' k) = Some n /\ kv_version s < n }.

Lemma advances_refl s : advances s s.
Proof. constructor; auto; lia. Qed.

Lemma advances_trans s1 s2 s3 : advances s1 s2 -> advances s2 s3 -> advances s1 s3.
Proof.
  intros H12 H23. constructor.
  - pose proof (adv_version _ _ H12). pose proof (adv_version _ _ H23). lia.
  - intros k. destruct (adv_entry _ _ H23 k) as [E|[E|(n & E & Hn)]]; [|by auto|].
    + rewrite E. apply (adv_entry _ _ H12).
    + right. right. exists n. split; [done|]. pose proof (adv_version _ _ H12). lia.
Qed.

(** An entry whose version did not change did not change. *)
Lemma unchanged s s' k :
  advances s s' -> versionstamp (at_ s' k) = versionstamp (at_ s k) -> at_ s' k = at_ s k.
Proof.
  intros Hev Heq. destruct (adv_entry _ _ Hev k) as [E|[E|(n & E & Hn)]]; [done| |].
  - rewrite (absent_entry _ _ E). symmetry. apply absent_entry. congruence.
  - rewrite E in Heq. symmetry in Heq. apply versionstamp_bound in Heq. lia.
Qed.

(** An entry that is the same at the end was the same all along. *)
Lemma unchanged_between s1 s2 s3 k n :
  advances s1 s2 -> advances s2 s3 -> versionstamp (at_ s1 k) = Some n -> at_ s3 k = at_ s1 k ->
  at_ s2 k = at_ s1 k.
Proof.
  intros H12 H23 Hn Heq. pose proof (versionstamp_bound _ _ _ Hn).
  pose proof (adv_version _ _ H12). rewrite <- Heq in Hn.
  destruct (adv_entry _ _ H12 k) as [E|[E|(n2 & E & Hn2)]]; [done| |];
    destruct (adv_entry _ _ H23 k) as [E'|[E'|(n3 & E' & Hn3)]]; try congruence.
  all: assert (n3 = n) by congruence; lia.
Qed.

(** ** Effects of a commit *)

Lemma apply_mutations_cons n (mu : KvMutationOf V) ms m :
  apply_mutations n (mu :: ms) m = apply_mutations n ms (apply_mutation n m mu).
Proof. done. Qed.
Lemma apply_mutations_app n (ms ms' : list (KvMutationOf V)) m :
  apply_mutations n (ms ++ ms') m = apply_mutations n ms' (apply_mutations n ms m).
Proof. apply foldl_app. Qed.

Lemma apply_mutations_other (n : Z) (ms : list (KvMutationOf V)) (m : KvMapOf V) k :
  Forall (fun mu => mutation_key mu <> k) ms -> apply_mutations n ms m !! k = m !! k.
Proof.
  revert m. induction ms as [|mu ms IH]; intros m H; [done|]. inversion_clear H.
  change (apply_mutations n ms (apply_mutation n m mu) !! k = m !! k). rewrite IH by done.
  destruct mu; cbn in *; [by apply lookup_insert_ne|by apply lookup_delete_ne].
Qed.

(** Every entry is the old one, absent, or carries the new version. *)
Lemma apply_mutations_entry n ms (m : KvMapOf V) k :
  entry_at (apply_mutations n ms m) k = entry_at m k
  \/ versionstamp (entry_at (apply_mutations n ms m) k) = None
  \/ versionstamp (entry_at (apply_mutations n ms m) k) = Some n.
Proof.
  revert m. induction ms as [|mu ms IH]; intros m; [by left|].
  change (apply_mutations n (mu :: ms) m) with (apply_mutations n ms (apply_mutation n m mu)).
  destruct (IH (apply_mutation n m mu)) as [E|[E|E]]; [|by auto..]. rewrite E.
  destruct mu as [k' v e|k']; cbn; destruct (decide (k' = k)) as [->|Hne].
  - right. right. unfold entry_at. by rewrite lookup_insert_eq.
  - left. unfold entry_at. by rewrite lookup_insert_ne.
  - right. left. unfold entry_at. by rewrite lookup_delete_eq.
  - left. unfold entry_at. by rewrite lookup_delete_ne.
Qed.

Lemma commit_advances cs ms s s' : kv_commit cs ms s = (true, s') -> advances s s'.
Proof.
  intros Hc. destruct (kv_commit_ok _ _ _ _ Hc) as (_ & Hv & Hm). constructor; [lia|].
  intros k. rewrite Hm.
  destruct (apply_mutations_entry (kv_version s') ms (kv_map s) k) as [E|[E|E]]; [by left|by auto|].
  right. right. exists (kv_version s'). split; [done|lia].
Qed.

Lemma checked cs ms s s' e :
  kv_commit cs ms s = (true, s') -> e ∈ cs ->
  versionstamp (at_ s (entry_key e)) = versionstamp e.
Proof.
  intros Hc He. destruct (kv_commit_ok _ _ _ _ Hc) as (Hchk & _ & _).
  unfold checks_hold in Hchk. rewrite forallb_forall in Hchk.
  by specialize (Hchk e (proj1 (list_elem_of_In _ _) He)); apply bool_decide_eq_true in Hchk.
Qed.

(** What was read earlier and passes its check is what the store holds. *)
Lemma checked_unchanged cs ms s0 s s' k :
  advances s0 s -> kv_commit cs ms s = (true, s') -> at_ s0 k ∈ cs -> at_ s k = at_ s0 k.
Proof.
  intros Hev Hc He. apply unchanged; [done|].
  pose proof (checked _ _ _ _ _ Hc He) as E. by rewrite entry_at_key in E.
Qed.
End advances.

(** ** Sums over a prefix *)

Section sums.
Context {V : Type} `{Null : Nullable V} (f : V -> Z) (p : KvKey).

Definition prefix_sum (m : KvMapOf V) : Z :=
  msum (fun e : V * Z => f (fst e)) (filter (fun kv => has_prefix p (fst kv) = true) m).

(** What a key contributes, and what it contributes once it holds [v]. *)
Definition key_weight (m : KvMapOf V) (k : KvKey) : Z :=
  if has_prefix p k then match m !! k with Some (v, _) => f v | None => 0 end else 0.
Definition value_weight (k : KvKey) (v : V) : Z := if has_prefix p k then f v else 0.

Lemma prefix_sum_set m k v n :
  prefix_sum (<[k := (v, n)]> m) = prefix_sum m - key_weight m k + value_weight k v.
Proof.
  unfold prefix_sum, key_weight, value_weight. destruct (has_prefix p k) eqn:Hk.
  - rewrite map_filter_insert_True by done. destruct (m !! k) as [[v0 n0]|] eqn:E.
    + rewrite (msum_insert_Some _ _ _ (v0, n0)); cbn; [lia|]. by apply map_lookup_filter_Some.
    + rewrite msum_insert_None; cbn; [lia|]. apply map_lookup_filter_None. by left.
  - rewrite map_filter_insert_not'; [lia| |]; cbn; [congruence|]. intros y Hy. cbn. congruence.
Qed.

Lemma prefix_sum_delete_out m k : has_prefix p k = false -> prefix_sum (delete k m) = prefix_sum m.
Proof.
  intros Hk. unfold prefix_sum. rewrite map_filter_delete_not; [done|]. intros y Hy. cbn. congruence.
Qed.

Lemma prefix_sum_mutations_out n ms m :
  Forall (fun mu => has_prefix p (mutation_key mu) = false) ms ->
  prefix_sum (apply_mutations n ms m) = prefix_sum m.
Proof.
  revert m. induction ms as [|mu ms IH]; intros m H; [done|]. inversion_clear H as [|? ? Hmu Hms].
  change (prefix_sum (apply_mutations n ms (apply_mutation n m mu)) = prefix_sum m).
  rewrite IH by done. destruct mu; cbn in *; [|by apply prefix_sum_delete_out].
  rewrite prefix_sum_set. unfold key_weight, value_weight. rewrite Hmu. lia.
Qed.

Lemma prefix_sum_nonneg m :
  (forall k v n, m !! k = Some (v, n) -> 0 <= f v) -> 0 <= prefix_sum m.
Proof.
  intros H. apply msum_nonneg. intros k [v n] Hk. apply map_lookup_filter_Some in Hk as [Hk _].
  by apply (H k v n).
Qed.

Lemma key_weight_le m k :
  (forall k v n, m !! k = Some (v, n) -> 0 <= f v) -> key_weight m k <= prefix_sum m.
Proof.
  intros H. unfold key_weight. destruct (has_prefix p k) eqn:Hp; [|by apply prefix_sum_nonneg].
  destruct (m !! k) as [[v n]|] eqn:E; [|by apply prefix_sum_nonneg]. unfold prefix_sum.
  rewrite (msum_delete _ _ k (v, n)) by (by apply map_lookup_filter_Some). cbn.
  match goal with |- context [msum ?g ?d] => assert (0 <= msum g d) end; [|lia].
  apply msum_nonneg. intros k' [v' n'] Hk. apply lookup_delete_Some in Hk as [_ Hk].
  apply map_lookup_filter_Some in Hk as [Hk _]. by apply (H k' v' n').
Qed.
End sums.

(** ** Triples *)

Section triples.
Context {S : Type}.

Definition triple {A} (m : KvM S A) (s : S) (Q : Result string A -> S -> Prop) : Prop :=
  forall n, let '(r, (_, s')) := m (n, s) in Q r s'.

Lemma triple_run {A} (m : KvM S A) n s Q r n' s' :
  triple m s Q -> m (n, s) = (r, (n', s')) -> Q r s'.
Proof. intros Hm E. specialize (Hm n). by rewrite E in Hm. Qed.

Lemma triple_mono {A} (m : KvM S A) s (Q R : Result string A -> S -> Prop) :
  triple m s Q -> (forall r s', Q r s' -> R r s') -> triple m s R.
Proof. intros Hm HQ n. specialize (Hm n). destruct (m (n, s)) as [r [n' s']]. auto. Qed.

Lemma triple_ret {A} (a : A) s (Q : Result string A -> S -> Prop) : Q (Ok a) s -> triple (kv_ret a) s Q.
Proof. intros H n. exact H. Qed.

Lemma triple_throw {A} e s (Q : Result string A -> S -> Prop) : Q (Err e) s -> triple (kv_throw e) s Q.
Proof. intros H n. exact H. Qed.

Lemma triple_lift {A} (r : Result string A) s Q : Q r s -> triple (kv_lift r) s Q.
Proof. intros H n. exact H. Qed.

Lemma triple_bind {A B} (m : KvM S A) (k : A -> KvM S B) s (Q : Result string B -> S -> Prop) :
  triple m s (fun r s' => match r with Ok a => triple (k a) s' Q | Err e => Q (Err e) s' end) ->
  triple (kv_bind m k) s Q.
Proof.
  intros Hm n. specialize (Hm n). unfold kv_bind. destruct (m (n, s)) as [[e|a] [n' s']]; [done|].
  exact (Hm n').
Qed.

Lemma triple_catch {A} (m : KvM S A) h s (Q : Result string A -> S -> Prop) :
  triple m s (fun r s' => match r with Ok a => Q (Ok a) s' | Err e => triple (h e) s' Q end) ->
  triple (kv_catch m h) s Q.
Proof.
  intros Hm n. specialize (Hm n). unfold kv_catch. destruct (m (n, s)) as [[e|a] [n' s']]; [|done].
  exact (Hm n').
Qed.

Lemma triple_now clock s (Q : Result string Z -> S -> Prop) :
  (forall z, Q (Ok z) s) -> triple (date_now clock) s Q.
Proof. intros H n. apply H. Qed.
End triples.

(** ** Storage calls are counted *)

Section forward.
Context {S : Type}.

(** The counter of storage calls, which indexes the clock, never goes back. *)
Definition forward {A} (m : KvM S A) : Prop := forall n s, (n <= fst (snd (m (n, s))))%nat.

Lemma forward_ret {A} (a : A) : forward (kv_ret a).
Proof. by intros n s. Qed.
Lemma forward_throw {A} e : forward (kv_throw (A := A) e).
Proof. by intros n s. Qed.
Lemma forward_lift {A} (r : Result string A) : forward (kv_lift r).
Proof. by intros n s. Qed.
Lemma forward_now clock : forward (date_now clock).
Proof. by intros n s. Qed.

Lemma forward_bind {A B} (m : KvM S A) (k : A -> KvM S B) :
  forward m -> (forall a, forward (k a)) -> forward (kv_bind m k).
Proof.
  intros Hm Hk n s. specialize (Hm n s). unfold kv_bind. destruct (m (n, s)) as [[e|a] [n' s']]; cbn in *; [done|].
  specialize (Hk a n' s'). lia.
Qed.

Lemma forward_catch {A} (m : KvM S A) h : forward m -> (forall e, forward (h e)) -> forward (kv_catch m h).
Proof.
  intros Hm Hh n s. specialize (Hm n s). unfold kv_catch. destruct (m (n, s)) as [[e|a] [n' s']]; cbn in *; [|done].
  specialize (Hh e n' s'). lia.
Qed.

Context {V : Type} `{Null : Nullable V} `{Kv : !KvStoreOf V S} (others : Clients S).

Lemma forward_get k : forward (get others k).
Proof. intros n s. cbn. lia. Qed.
Lemma forward_list p : forward (list_prefix others p).
Proof. intros n s. cbn. lia. Qed.
Lemma forward_commit cs ms : forward (commit others cs ms).
Proof. intros n s. cbn. destruct (kv_commit _ _ _). cbn. lia. Qed.
End forward.

#[export] Hint Resolve forward_ret forward_throw forward_lift forward_now forward_bind forward_catch forward_get
  forward_list forward_commit : gateway.

(** ** Rely and guarantee *)

(** What the other clients may do: they stay within a relation on stores. *)
Class RelyOn {S : Type} (rely : S -> S -> Prop) (others : Clients S) : Prop :=
  relies n s : rely s (others n s).

Section rely.
Context {V S : Type} `{Null : Nullable V} `{Kv : !KvStoreOf V S}.
Context {rely : S -> S -> Prop} `{Hpre : !PreOrder rely}.
Context {others : Clients S} `{Hothers : !RelyOn rely others}.

Lemma triple_get k s (Q : Result string (KvEntryOf V) -> S -> Prop) :
  (forall s1, rely s s1 -> Q (Ok (entry_at (kv_map s1) k)) s1) -> triple (get others k) s Q.
Proof. intros H n. cbn. rewrite kv_get_spec. apply H, relies. Qed.

Lemma triple_list p s (Q : Result string (list (KvEntryOf V)) -> S -> Prop) :
  (forall s1, rely s s1 -> Q (Ok (kv_list s1 p)) s1) -> triple (list_prefix others p) s Q.
Proof. intros H n. cbn. apply H, relies. Qed.

Lemma triple_commit cs ms s (Q : Result string bool -> S -> Prop) :
  (forall s1 s2, rely s s1 -> kv_commit cs ms s1 = (true, s2) -> Q (Ok true) s2) ->
  (forall s1, rely s s1 -> Q (Ok false) s1) -> triple (commit others cs ms) s Q.
Proof.
  intros Ht Hf n. cbn. destruct (kv_commit cs ms (others n s)) as [[] s2] eqn:E.
  - eapply Ht; [apply relies|done].
  - apply kv_commit_failed in E as ->. apply Hf, relies.
Qed.

(** A call that stays within the rely on every path. *)
Definition guarantees {A} (m : KvM S A) : Prop := forall s, triple m s (fun _ s' => rely s s').

Lemma guarantees_ret {A} (a : A) : guarantees (kv_ret a).
Proof using Hpre. intros s. apply triple_ret. reflexivity. Qed.
Lemma guarantees_throw {A} e : guarantees (@kv_throw S A e).
Proof using Hpre. intros s. apply triple_throw. reflexivity. Qed.
Lemma guarantees_lift {A} (r : Result string A) : guarantees (kv_lift r).
Proof using Hpre. intros s. apply triple_lift. reflexivity. Qed.
Lemma guarantees_now clock : guarantees (date_now clock).
Proof using Hpre. intros s. apply triple_now. reflexivity. Qed.
Lemma guarantees_get k : guarantees (get others k).
Proof. intros s. apply triple_get. auto. Qed.
Lemma guarantees_list p : guarantees (list_prefix others p).
Proof. intros s. apply triple_list. auto. Qed.

Lemma guarantees_bind {A B} (m : KvM S A) (k : A -> KvM S B) :
  guarantees m -> (forall a, guarantees (k a)) -> guarantees (kv_bind m k).
Proof using Hpre.
  intros Hm Hk s. apply triple_bind. eapply triple_mono; [apply Hm|]. intros [e|a] s1 H1; [done|].
  eapply triple_mono; [apply Hk|]. cbn. intros. by etrans.
Qed.

Lemma guarantees_catch {A} (m : KvM S A) h :
  guarantees m -> (forall e, guarantees (h e)) -> guarantees (kv_catch m h).
Proof using Hpre.
  intros Hm Hh s. apply triple_catch. eapply triple_mono; [apply Hm|]. intros [e|a] s1 H1; [|done].
  eapply triple_mono; [apply Hh|]. cbn. intros. by etrans.
Qed.
End rely.
Arguments guarantees {S} rely {A} m.

#[export] Hint Extern 1 (guarantees _ (kv_ret _)) => apply guarantees_ret : gateway.
#[export] Hint Extern 1 (guarantees _ (kv_throw _)) => apply guarantees_throw : gateway.
#[export] Hint Extern 1 (guarantees _ (kv_lift _)) => apply guarantees_lift : gateway.
#[export] Hint Extern 1 (guarantees _ (date_now _)) => apply guarantees_now : gateway.
#[export] Hint Extern 1 (guarantees _ (get _ _)) => apply guarantees_get : gateway.
#[export] Hint Extern 1 (guarantees _ (list_prefix _ _)) => apply guarantees_list : gateway.
#[export] Hint Extern 1 (guarantees _ (kv_bind _ _)) => apply guarantees_bind : gateway.
#[export] Hint Extern 1 (guarantees _ (kv_catch _ _)) => apply guarantees_catch : gateway.

(** ** Running alone *)

Section quiet.
Context {V S : Type} `{Null : Nullable V} `{Kv : !KvStoreOf V S}.

Definition quiet : Clients S := fun _ s => s.

Lemma bind_step {A B} (m : KvM S A) (k : A -> KvM S B) w a w' :
  m w = (Ok a, w') -> kv_bind m k w = k a w'.
Proof. intros E. unfold kv_bind. by rewrite E. Qed.

Lemma get_quiet k n s : get quiet k (n, s) = (Ok (entry_at (kv_map s) k), (Datatypes.S n, s)).
Proof. unfold get, quiet. by rewrite kv_get_spec. Qed.

Lemma commit_quiet cs ms n s :
  checks_hold (kv_map s) cs = true ->
  exists s', commit quiet cs ms (n, s) = (Ok true, (Datatypes.S n, s'))
    /\ kv_commit cs ms s = (true, s')
    /\ kv_map s' = apply_mutations (kv_version s') ms (kv_map s).
Proof.
  intros Hc. cbn. unfold quiet. destruct (kv_commit cs ms s) as [ok s'] eqn:E.
  pose proof (kv_commit_holds cs ms s Hc) as Hok. rewrite E in Hok. cbn in Hok. subst ok.
  exists s'. split; [done|]. split; [done|]. by destruct (kv_commit_ok _ _ _ _ E) as (_ & _ & ?).
Qed.

(** Entries just read pass their checks. *)
Lemma checks_current (m : KvMapOf V) cs :
  Forall (fun e => exists k, e = entry_at m k) cs -> checks_hold m cs = true.
Proof.
  unfold checks_hold. rewrite forallb_forall, Forall_forall. intros H e He.
  apply list_elem_of_In, H in He as [k ->]. by rewrite entry_at_key, bool_decide_true.
Qed.

Lemma checks_now s ks : checks_hold (kv_map s) (entry_at (kv_map s) <$> ks) = true.
Proof. apply checks_current, Forall_fmap, Forall_true. intros k. by exists k. Qed.

Lemma triple_commit_quiet cs ms s (Q : Result string bool -> S -> Prop) :
  checks_hold (kv_map s) cs = true -> (forall s', kv_commit cs ms s = (true, s') -> Q (Ok true) s') ->
  triple (commit quiet cs ms) s Q.
Proof. intros Hc H n. destruct (commit_quiet cs ms n s Hc) as (s' & -> & E & _). by apply H. Qed.

#[export] Instance quiet_relies_eq : RelyOn eq (quiet : Clients S).
Proof. by intros n s. Qed.
End quiet.
