(* ===== verification/KernelQuota.v ===== *)
(** * Kernel quota decisions

    [src/authority/native-kernel.ts] and [native-kernel-contracts.ts]: the pure
    decisions behind the per-repository and per-organization request quotas.
    Rows arrive as [unknown] JSON and pass a normalizer; decisions return a plan
    that the adapter of KernelStore.v commits.  [throw new Error(message)] is
    [Err message].  Clock sums are exact integers; a sum beyond the safe range
    is refused by the normalizer of the next reader. *)

From stdpp Require Import base gmap strings list.
From Stdlib Require Import ZArith QArith Lia Ascii.
From S2P Require Import Prelude Js KvStore.
Open Scope string_scope.
Open Scope Z_scope.

(** ** Contracts *)

Inductive KernelQuotaScope := ScopeRepo | ScopeOrg.

#[export] Instance KernelQuotaScope_eq_dec : EqDecision KernelQuotaScope.
Proof. solve_decision. Defined.

Record KernelQuotaIdentity := mkIdentity {
  scope : KernelQuotaScope;
  owner : string;
  repo : option string }.

Record KernelQuotaConstants := mkConstants { noUsageLimit : Z; noExpirationMs : Z }.

(** A storage read; an absent entry has the value [null] and no revision. *)
Record KernelQuotaRead := mkRead { value : jsval; read_revision : option Z }.

Record KernelQuotaDefaults := mkDefaults { limit : Z; windowMs : Z }.

Record KernelQuotaPolicyV2 := mkPolicyV2 {
  p_scope : KernelQuotaScope;
  p_owner : string;
  p_repo : option string;
  usage_limit_requests : Z;
  window_ms : Z;
  p_expires_at_ms : Z;
  p_created_at_ms : Z;
  p_updated_at_ms : Z }.

Record KernelQuotaWindowV2 := mkWindowV2 {
  w_scope : KernelQuotaScope;
  w_owner : string;
  w_repo : option string;
  usage_requests : Z;
  reserved_requests : Z;
  usage_reset_at_ms : Z;
  applied_window_ms : Z;
  w_created_at_ms : Z;
  w_updated_at_ms : Z }.

Inductive TerminalState := TCommitted | TReleased.
Inductive ReservationState := RReserved | RCommitted | RReleased.

#[export] Instance TerminalState_eq_dec : EqDecision TerminalState.
Proof. solve_decision. Defined.
#[export] Instance ReservationState_eq_dec : EqDecision ReservationState.
Proof. solve_decision. Defined.

Record KernelQuotaReservationRowV2 := mkRow {
  r_scope : KernelQuotaScope;
  r_owner : string;
  r_repo : option string;
  request_id : string;
  route : string;
  window_created_at_ms : Z;
  window_reset_at_ms : Z;
  state : ReservationState;
  terminal_intent : option TerminalState;
  reserved_at_ms : Z;
  lease_expires_at_ms : Z;
  committed_at_ms : option Z;
  released_at_ms : option Z;
  release_reason : option string }.

Record KernelDefaultWindowCutoverV2 := mkCutover {
  cutover_id : string;
  cutover_created_at_ms : Z;
  cutover_expires_at_ms : Z }.

Inductive PolicySource := SourceDefault | SourceKv.

Record KernelQuotaEffectivePolicy := mkEffective {
  policy : option KernelQuotaPolicyV2;
  eff_limit : Z;
  eff_windowMs : Z;
  expiresAtMs : Z;
  source : PolicySource }.

Record KernelQuotaEffectiveWindow := mkEffectiveWindow { window : KernelQuotaWindowV2; needsWrite : bool }.

(** Optional properties are [option]; a caller passes numbers. *)
Record KernelQuotaPolicySetOptions := mkSetOptions {
  resetUsage : bool;
  opt_windowMs : option number;
  opt_expiresAtMs : option number }.

Inductive KernelReservationSettlement :=
| Settled | TerminalMismatch | Missing | Invalid | Conflict.

Record KernelQuotaReservationIdentity := mkReservationIdentity {
  res_identity : KernelQuotaIdentity;
  requestId : string;
  res_route : string;
  windowCreatedAtMs : Z }.

Inductive ExpectedRepoPolicy := ExpectPresent | ExpectAbsent.

#[export] Instance ExpectedRepoPolicy_eq_dec : EqDecision ExpectedRepoPolicy.
Proof. solve_decision. Defined.

Record KernelQuotaEligibilitySnapshot := mkEligibilitySnapshot {
  snap_policy : KernelQuotaRead;
  repoGuard : option KernelQuotaRead;
  defaultCutover : KernelQuotaRead;
  expectedRepoPolicy : option ExpectedRepoPolicy }.

Inductive KernelQuotaEligibilityPlan :=
| EligibilityRefused (status : Z) (message : string)
| Eligible (effective : KernelQuotaEffectivePolicy).

Inductive KernelQuotaReservePlan :=
| ReserveRefused (status : Z) (message : string)
| ReserveFull (w : KernelQuotaWindowV2) (lim : Z)
| Reserve (reservation : KernelQuotaReservationRowV2) (w : KernelQuotaWindowV2) (expireIn : Z).

Inductive KernelQuotaTerminalPlan :=
| TerminalUnchanged (outcome : KernelReservationSettlement)
| TerminalIntent (reservation : KernelQuotaReservationRowV2) (expireIn leaseExpiresAtMs : Z).

Inductive KernelQuotaSettlePlan :=
| SettleUnchanged (outcome : KernelReservationSettlement)
| Settle (reservation : KernelQuotaReservationRowV2) (w : option KernelQuotaWindowV2) (expireIn : Z).

Inductive CutoverRefusal := ConcurrentChange | Unavailable.

Inductive KernelQuotaCutoverPlan :=
| CutoverRefused (reason : CutoverRefusal)
| CutoverAcquire (marker : KernelDefaultWindowCutoverV2) (expireIn : Z).

Record KernelQuotaPolicyWritePlan := mkWritePlan {
  plan_policy : KernelQuotaPolicyV2;
  plan_window : KernelQuotaWindowV2 }.

#[export] Instance eta_Window : Eta KernelQuotaWindowV2 := fun w =>
  mkWindowV2 (w_scope w) (w_owner w) (w_repo w) (usage_requests w) (reserved_requests w)
    (usage_reset_at_ms w) (applied_window_ms w) (w_created_at_ms w) (w_updated_at_ms w).
#[export] Instance eta_Row : Eta KernelQuotaReservationRowV2 := fun r =>
  mkRow (r_scope r) (r_owner r) (r_repo r) (request_id r) (route r) (window_created_at_ms r)
    (window_reset_at_ms r) (state r) (terminal_intent r) (reserved_at_ms r) (lease_expires_at_ms r)
    (committed_at_ms r) (released_at_ms r) (release_reason r).

(** ** Keys *)

Definition KERNEL_QUOTA_V2_PREFIX : KvKey := [KStr "uos_ai"; KStr "kernel_quota"; KStr "v2"].
Definition KERNEL_REPO_POLICY_V2_PREFIX : KvKey := (KERNEL_QUOTA_V2_PREFIX ++ [KStr "repo_policy"])%list.
Definition KERNEL_ORG_POLICY_V2_PREFIX : KvKey := (KERNEL_QUOTA_V2_PREFIX ++ [KStr "org_policy"])%list.
Definition KERNEL_REPO_WINDOW_V2_PREFIX : KvKey := (KERNEL_QUOTA_V2_PREFIX ++ [KStr "repo_window"])%list.
Definition KERNEL_ORG_WINDOW_V2_PREFIX : KvKey := (KERNEL_QUOTA_V2_PREFIX ++ [KStr "org_window"])%list.
Definition KERNEL_REPO_RESERVATION_V2_PREFIX : KvKey := (KERNEL_QUOTA_V2_PREFIX ++ [KStr "repo_reservation"])%list.
Definition KERNEL_ORG_RESERVATION_V2_PREFIX : KvKey := (KERNEL_QUOTA_V2_PREFIX ++ [KStr "org_reservation"])%list.
Definition KERNEL_DEFAULT_WINDOW_CUTOVER_V2_KEY : KvKey := (KERNEL_QUOTA_V2_PREFIX ++ [KStr "default_window_cutover"])%list.
Definition KERNEL_QUOTA_RESERVATION_LEASE_MS : Z := 5 * 60000.
Definition KERNEL_QUOTA_RESERVATION_RENEWAL_MS : Z := 60000.
Definition KERNEL_QUOTA_RESERVATION_RETENTION_MS : Z := 7 * 24 * 60 * 60000.
Definition KERNEL_DEFAULT_WINDOW_CUTOVER_LEASE_MS : Z := 5 * 60000.
Definition KERNEL_QUOTA_SETTLEMENT_RETRY_MS : Z := 1000.
Definition MAX_KV_RETRIES : nat := 3.

Definition kernelRepoPolicyKey (o r : string) : KvKey := (KERNEL_REPO_POLICY_V2_PREFIX ++ [KStr o; KStr r])%list.
Definition kernelOrgPolicyKey (o : string) : KvKey := (KERNEL_ORG_POLICY_V2_PREFIX ++ [KStr o])%list.
Definition kernelRepoWindowKey (o r : string) : KvKey := (KERNEL_REPO_WINDOW_V2_PREFIX ++ [KStr o; KStr r])%list.
Definition kernelOrgWindowKey (o : string) : KvKey := (KERNEL_ORG_WINDOW_V2_PREFIX ++ [KStr o])%list.
Definition kernelRepoReservationKey (o r : string) (created : Z) (id : string) : KvKey :=
  (KERNEL_REPO_RESERVATION_V2_PREFIX ++ [KStr o; KStr r; KNum created; KStr id])%list.
Definition kernelOrgReservationKey (o : string) (created : Z) (id : string) : KvKey :=
  (KERNEL_ORG_RESERVATION_V2_PREFIX ++ [KStr o; KNum created; KStr id])%list.

Definition kernelRepoPart (r : option string) : Result string string :=
  or_throw r "Kernel quota repo scope requires a repo".

Definition kernelScopedPolicyKey (i : KernelQuotaIdentity) : Result string KvKey :=
  match scope i with
  | ScopeRepo => r ← kernelRepoPart (repo i); Ok (kernelRepoPolicyKey (owner i) r)
  | ScopeOrg => Ok (kernelOrgPolicyKey (owner i))
  end.

Definition kernelScopedWindowKey (i : KernelQuotaIdentity) : Result string KvKey :=
  match scope i with
  | ScopeRepo => r ← kernelRepoPart (repo i); Ok (kernelRepoWindowKey (owner i) r)
  | ScopeOrg => Ok (kernelOrgWindowKey (owner i))
  end.

Definition kernelPolicyKeys (i : KernelQuotaIdentity) : Result string (KvKey * KvKey) :=
  p ← kernelScopedPolicyKey i; w ← kernelScopedWindowKey i; Ok (p, w).

Definition hasLiveKernelReservations (w : option KernelQuotaWindowV2) (nowMs : Z) : bool :=
  match w with
  | Some w => (nowMs <? usage_reset_at_ms w) && (0 <? reserved_requests w)
  | None => false
  end.

(** ** Normalizers *)

(** [if (typeof value === "string") value = Number(value); typeof value ===
    "number" && Number.isFinite(value)]: the truncated number, when there is one. *)
Definition parsed_number (v : jsval) : option Z :=
  match v with
  | JNum (Fin q) => Some (trunc q)
  | JStr s => match number_of_string s with Fin q => Some (trunc q) | _ => None end
  | _ => None
  end.

(** The accepted value of [normalizeUsageLimit], [None] for its fallback. *)
Definition parse_usage_limit (v : jsval) (no_limit : Z) : option Z :=
  parsed ← parsed_number v;
  if parsed =? no_limit then Some parsed else if 0 <=? parsed then Some parsed else None.

Definition normalizeUsageLimit (v : jsval) (fallback no_limit : Z) : Z :=
  default fallback (parse_usage_limit v no_limit).

Definition normalizeWindow (v : jsval) (fallback : Z) : Z :=
  match parsed_number v with
  | Some parsed => if 0 <? parsed then parsed else fallback
  | None => fallback
  end.

(** Unlike the other two, [normalizeExpiration] does not read strings. *)
Definition normalizeExpiration (v : jsval) (no_expiration : Z) : Z :=
  match v with
  | JNum (Fin q) =>
      if (trunc q =? no_expiration) || (0 <=? trunc q) then trunc q else no_expiration
  | _ => no_expiration
  end.

Definition scope_name (s : KernelQuotaScope) : string :=
  match s with ScopeRepo => "repo" | ScopeOrg => "org" end.

(** [value.repo === repo] where [repo] may be undefined. *)
Definition same_repo (v : jsval) (r : option string) : bool :=
  match r with Some r => is_str v r | None => is_undefined v end.

Definition validIdentity (i : KernelQuotaIdentity) (v : jsval) : bool :=
  is_int (prop v "v") 2 && is_str (prop v "scope") (scope_name (scope i))
  && is_str (prop v "owner") (owner i)
  && match scope i with
     | ScopeOrg => is_undefined (prop v "repo") || is_null (prop v "repo")
     | ScopeRepo => same_repo (prop v "repo") (repo i)
     end.

(** [...(scope === "repo" ? { repo } : {})]. *)
Definition stored_repo (i : KernelQuotaIdentity) : option string :=
  match scope i with ScopeRepo => repo i | ScopeOrg => None end.

Definition guard (b : bool) : option unit := if b then Some tt else None.

Definition normalizeKernelQuotaPolicyV2 (v : jsval) (i : KernelQuotaIdentity)
    (c : KernelQuotaConstants) : option KernelQuotaPolicyV2 :=
  _ ← guard (isRecord v && validIdentity i v);
  created ← nonNegativeSafeInteger (prop v "created_at_ms");
  updated ← nonNegativeSafeInteger (prop v "updated_at_ms");
  let wms := normalizeWindow (prop v "window_ms") 0 in
  lim ← parse_usage_limit (prop v "usage_limit_requests") (noUsageLimit c);
  _ ← guard (isSafeInteger wms && (0 <? wms)
             && ((lim =? noUsageLimit c) || (isSafeInteger lim && (0 <=? lim))));
  Some (mkPolicyV2 (scope i) (owner i) (stored_repo i) lim wms
          (normalizeExpiration (prop v "expires_at_ms") (noExpirationMs c)) created updated).

Definition normalizeKernelQuotaWindowV2 (v : jsval) (i : KernelQuotaIdentity)
    : option KernelQuotaWindowV2 :=
  _ ← guard (isRecord v && validIdentity i v);
  let reserved := if is_undefined (prop v "reserved_requests") then jint 0
                  else prop v "reserved_requests" in
  usage ← nonNegativeSafeInteger (prop v "usage_requests");
  res ← nonNegativeSafeInteger reserved;
  reset ← positiveSafeInteger (prop v "usage_reset_at_ms");
  applied ← positiveSafeInteger (prop v "applied_window_ms");
  created ← nonNegativeSafeInteger (prop v "created_at_ms");
  updated ← nonNegativeSafeInteger (prop v "updated_at_ms");
  Some (mkWindowV2 (scope i) (owner i) (stored_repo i) usage res reset applied created updated).

Definition newWindow (i : KernelQuotaIdentity) (wms nowMs : Z) : KernelQuotaWindowV2 :=
  mkWindowV2 (scope i) (owner i) (stored_repo i) 0 0 (nowMs + wms) wms nowMs nowMs.

Definition windowForEffectivePolicy (existing : option KernelQuotaWindowV2)
    (i : KernelQuotaIdentity) (effectiveWindowMs nowMs : Z) : KernelQuotaEffectiveWindow :=
  match existing with
  | Some w =>
      if negb (applied_window_ms w =? effectiveWindowMs) || (usage_reset_at_ms w <=? nowMs)
      then mkEffectiveWindow (newWindow i effectiveWindowMs nowMs) true
      else mkEffectiveWindow w false
  | None => mkEffectiveWindow (newWindow i effectiveWindowMs nowMs) true
  end.

Definition policyFor (entry : KernelQuotaRead) (i : KernelQuotaIdentity)
    (d : KernelQuotaDefaults) (c : KernelQuotaConstants) : Result string KernelQuotaEffectivePolicy :=
  if is_null (value entry)
  then Ok (mkEffective None (limit d) (windowMs d) (noExpirationMs c) SourceDefault)
  else
    p ← or_throw (normalizeKernelQuotaPolicyV2 (value entry) i c) "kernel quota policy is malformed";
    Ok (mkEffective (Some p) (usage_limit_requests p) (window_ms p) (p_expires_at_ms p) SourceKv).

Definition isExpired (expires nowMs no_expiration : Z) : bool :=
  negb (expires =? no_expiration) && (expires <=? nowMs).

Definition kernelReservationRetentionMs (windowResetAtMs nowMs : Z) : Z :=
  Z.max 1 (windowResetAtMs + KERNEL_QUOTA_RESERVATION_RETENTION_MS - nowMs).

Definition kernelReservationKey (i : KernelQuotaIdentity) (created : Z) (id : string)
    : Result string KvKey :=
  match scope i with
  | ScopeRepo => r ← kernelRepoPart (repo i); Ok (kernelRepoReservationKey (owner i) r created id)
  | ScopeOrg => Ok (kernelOrgReservationKey (owner i) created id)
  end.

Definition kernelReservationWindowPrefix (i : KernelQuotaIdentity) (created : Z)
    : Result string KvKey :=
  match scope i with
  | ScopeRepo => r ← kernelRepoPart (repo i);
                 Ok (KERNEL_REPO_RESERVATION_V2_PREFIX ++ [KStr (owner i); KStr r; KNum created])%list
  | ScopeOrg => Ok (KERNEL_ORG_RESERVATION_V2_PREFIX ++ [KStr (owner i); KNum created])%list
  end.

(** ** Reservation rows *)

Definition reservation_state (v : jsval) : option ReservationState :=
  if is_str v "reserved" then Some RReserved
  else if is_str v "committed" then Some RCommitted
  else if is_str v "released" then Some RReleased else None.

(** [undefined] and [null] are the absent intent. *)
Definition intent_state (v : jsval) : option (option TerminalState) :=
  if is_undefined v || is_null v then Some None
  else if is_str v "committed" then Some (Some TCommitted)
  else if is_str v "released" then Some (Some TReleased) else None.

Definition nullable_time (v : jsval) : option (option Z) :=
  if is_null v then Some None else z ← nonNegativeSafeInteger v; Some (Some z).

Definition nullable_text (v : jsval) : option (option string) :=
  match v with JNull => Some None | JStr s => Some (Some s) | _ => None end.

Definition nonempty_text (v : jsval) : option string :=
  match v with JStr s => if empty s then None else Some s | _ => None end.

#[global] Arguments reservation_state : simpl never.
#[global] Arguments intent_state : simpl never.
#[global] Arguments nullable_time : simpl never.
#[global] Arguments nullable_text : simpl never.
#[global] Arguments nonempty_text : simpl never.

(** The fields of a state agree with it. *)
Definition consistent_state (st : ReservationState) (intent : option TerminalState)
    (committed released : option Z) (reason : option string) : bool :=
  match st with
  | RReserved => bool_decide (committed = None) && bool_decide (released = None)
                 && bool_decide (reason = None)
  | RCommitted => negb (bool_decide (committed = None)) && bool_decide (released = None)
                  && bool_decide (reason = None) && negb (bool_decide (intent = Some TReleased))
  | RReleased => bool_decide (committed = None) && negb (bool_decide (released = None))
                 && match reason with Some s => negb (empty (trim s)) | None => false end
                 && negb (bool_decide (intent = Some TCommitted))
  end.

(** The row keeps the properties it names; the source's spread would also carry
    along unknown ones, which no reader looks at. *)
Definition normalizeKernelQuotaReservationRowV2 (v : jsval) (i : KernelQuotaIdentity)
    : option KernelQuotaReservationRowV2 :=
  _ ← guard (isRecord v && validIdentity i v);
  id ← nonempty_text (prop v "request_id");
  rt ← nonempty_text (prop v "route");
  created ← nonNegativeSafeInteger (prop v "window_created_at_ms");
  reset ← positiveSafeInteger (prop v "window_reset_at_ms");
  st ← reservation_state (prop v "state");
  intent ← intent_state (prop v "terminal_intent");
  reserved_at ← nonNegativeSafeInteger (prop v "reserved_at_ms");
  lease ← positiveSafeInteger (prop v "lease_expires_at_ms");
  committed ← nullable_time (prop v "committed_at_ms");
  released ← nullable_time (prop v "released_at_ms");
  reason ← nullable_text (prop v "release_reason");
  _ ← guard ((created <? reset) && (reserved_at <? lease)
             && consistent_state st intent committed released reason);
  Some (mkRow (scope i) (owner i) (stored_repo i) id rt created reset st intent reserved_at lease
          committed released reason).

Definition kernelReservationMatchesRequest (r : option KernelQuotaReservationRowV2)
    (id rt : string) (created : Z) : option KernelQuotaReservationRowV2 :=
  r ← r;
  if bool_decide (request_id r = id) && bool_decide (route r = rt) && (window_created_at_ms r =? created)
  then Some r else None.

Definition requireKernelReservationRow (key : KvKey) (v : jsval) (i : KernelQuotaIdentity)
    (created : Z) : Result string KernelQuotaReservationRowV2 :=
  let bad := "Kernel quota reservation is malformed" in
  r ← or_throw (normalizeKernelQuotaReservationRowV2 v i) bad;
  match last key with
  | Some (KStr id) =>
      _ ← throw_if (negb (bool_decide (id = request_id r)) || negb (window_created_at_ms r =? created)) bad;
      Ok r
  | _ => Err bad
  end.

Definition state_of (t : TerminalState) : ReservationState :=
  match t with TCommitted => RCommitted | TReleased => RReleased end.

Definition kernelReservationPrecondition (r : KernelQuotaReservationRowV2) (id rt : string)
    (created : Z) (t : TerminalState) : option KernelReservationSettlement :=
  match kernelReservationMatchesRequest (Some r) id rt created with
  | None => Some Invalid
  | Some r =>
      if negb (bool_decide (state r = RReserved))
      then Some (if bool_decide (state r = state_of t) then Settled else TerminalMismatch)
      else match terminal_intent r with
           | Some intent => if bool_decide (intent = t) then None else Some TerminalMismatch
           | None => None
           end
  end.

Definition settledKernelReservationRow (r : KernelQuotaReservationRowV2) (t : TerminalState)
    (reason : string) (nowMs : Z) : KernelQuotaReservationRowV2 :=
  match t with
  | TCommitted => r <| state := RCommitted |> <| terminal_intent := Some TCommitted |>
                    <| committed_at_ms := Some nowMs |>
  | TReleased =>
      let cut := slice0 reason 120 in
      r <| state := RReleased |> <| terminal_intent := Some TReleased |>
        <| released_at_ms := Some nowMs |>
        <| release_reason := Some (if empty cut then "request_incomplete" else cut) |>
  end.

Definition normalizeKernelDefaultWindowCutoverV2 (v : jsval) : option KernelDefaultWindowCutoverV2 :=
  _ ← guard (isRecord v && is_int (prop v "v") 2);
  id ← nonempty_text (prop v "id");
  created ← nonNegativeSafeInteger (prop v "created_at_ms");
  expires ← positiveSafeInteger (prop v "expires_at_ms");
  _ ← guard (created <? expires);
  Some (mkCutover id created expires).

(** Owner and repo encoded in a listed window key. *)
Definition kernelWindowScopeTarget (s : KernelQuotaScope) (key prefix : KvKey)
    : Result string (string * option string) :=
  let text n := match key !! n with
                | Some (KStr t) => if empty t then None else Some t
                | _ => None end in
  o ← or_throw (text (length prefix)) "Kernel quota window key is malformed";
  match s with
  | ScopeRepo => r ← or_throw (text (length prefix + 1)%nat) "Kernel repo quota window key is malformed";
                 Ok (o, Some r)
  | ScopeOrg => Ok (o, None)
  end.

(** ** Decisions *)

Definition decideKernelQuotaScope (repoPolicy orgPolicy : KernelQuotaRead) (o r : string)
    (c : KernelQuotaConstants) : Result string (KernelQuotaScope * bool) :=
  let bad e i := negb (is_null (value e)) &&
    match normalizeKernelQuotaPolicyV2 (value e) i c with Some _ => false | None => true end in
  _ ← throw_if (bad repoPolicy (mkIdentity ScopeRepo o (Some r))) "Kernel repo quota policy is malformed";
  _ ← throw_if (bad orgPolicy (mkIdentity ScopeOrg o None)) "Kernel org quota policy is malformed";
  Ok (if negb (is_null (value repoPolicy)) then (ScopeRepo, true)
      else (ScopeOrg, negb (is_null (value orgPolicy)))).

Definition kernelQuotaDefaultCutoverBlocks (current : KernelQuotaEffectivePolicy)
    (marker : KernelQuotaRead) : bool :=
  match source current with SourceDefault => negb (is_null (value marker)) | SourceKv => false end.

Definition scope_changed (s : KernelQuotaEligibilitySnapshot) : bool :=
  (bool_decide (expectedRepoPolicy s = Some ExpectPresent) && is_null (value (snap_policy s)))
  || (bool_decide (expectedRepoPolicy s = Some ExpectAbsent)
      && match repoGuard s with Some g => negb (is_null (value g)) | None => false end).

Definition decideKernelQuotaEligibility (i : KernelQuotaIdentity)
    (s : KernelQuotaEligibilitySnapshot) (d : KernelQuotaDefaults) (c : KernelQuotaConstants)
    (nowMs : Z) : Result string KernelQuotaEligibilityPlan :=
  if scope_changed s
  then Ok (EligibilityRefused 503 "Kernel quota policy scope changed; retry")
  else
    effective ← policyFor (snap_policy s) i d c;
    if kernelQuotaDefaultCutoverBlocks effective (defaultCutover s)
    then Ok (EligibilityRefused 503 "Kernel quota defaults are changing; retry")
    else if isExpired (expiresAtMs effective) nowMs (noExpirationMs c)
    then Ok (EligibilityRefused 429 "Kernel auth usage limit expired; update it via /admin/kernel-usage.")
    else if eff_limit effective =? 0
    then Ok (EligibilityRefused 429 "Kernel auth usage limit is 0; update it via /admin/kernel-usage.")
    else Ok (Eligible effective).

Definition new_reservation (i : KernelQuotaIdentity) (w : KernelQuotaWindowV2) (id rt : string)
    (nowMs : Z) : KernelQuotaReservationRowV2 :=
  mkRow (scope i) (owner i) (stored_repo i) id rt (w_created_at_ms w) (usage_reset_at_ms w) RReserved
    None nowMs (nowMs + KERNEL_QUOTA_RESERVATION_LEASE_MS) None None None.

Definition decideKernelQuotaReserve (i : KernelQuotaIdentity) (effective : KernelQuotaEffectivePolicy)
    (w : KernelQuotaWindowV2) (reservationEntry : KernelQuotaRead) (id rt : string)
    (no_limit nowMs : Z) : KernelQuotaReservePlan :=
  if negb (is_null (value reservationEntry)) then
    let existing := normalizeKernelQuotaReservationRowV2 (value reservationEntry) i in
    match kernelReservationMatchesRequest existing id rt (w_created_at_ms w) with
    | None => ReserveRefused 503 "Kernel quota request identity conflicts"
    | Some _ => ReserveRefused 503 "Kernel quota request already has a reservation"
    end
  else if negb (eff_limit effective =? no_limit)
          && (eff_limit effective <=? usage_requests w + reserved_requests w)
  then ReserveFull w (eff_limit effective)
  else
    let reservedWindow := w <| reserved_requests := reserved_requests w + 1 |>
                            <| w_updated_at_ms := nowMs |> in
    Reserve (new_reservation i w id rt nowMs) reservedWindow
      (kernelReservationRetentionMs (usage_reset_at_ms reservedWindow) nowMs).

Definition decideKernelQuotaTerminalIntent (i : KernelQuotaReservationIdentity)
    (snapshot : KernelQuotaRead) (t : TerminalState) (nowMs : Z) : KernelQuotaTerminalPlan :=
  match normalizeKernelQuotaReservationRowV2 (value snapshot) (res_identity i) with
  | None => TerminalUnchanged (if is_null (value snapshot) then Missing else Invalid)
  | Some r =>
      match kernelReservationPrecondition r (requestId i) (res_route i) (windowCreatedAtMs i) t with
      | Some outcome => TerminalUnchanged outcome
      | None =>
          let lease := nowMs + KERNEL_QUOTA_RESERVATION_LEASE_MS in
          TerminalIntent (r <| terminal_intent := Some t |> <| lease_expires_at_ms := lease |>)
            (kernelReservationRetentionMs (window_reset_at_ms r) nowMs) lease
      end
  end.

Definition decideKernelQuotaSettlement (r : KernelQuotaReservationRowV2)
    (w : option KernelQuotaWindowV2) (windowPresent : bool) (t : TerminalState) (reason : string)
    (nowMs : Z) : KernelQuotaSettlePlan :=
  if windowPresent && bool_decide (w = None) then SettleUnchanged Invalid else
  let expireIn := kernelReservationRetentionMs (window_reset_at_ms r) nowMs in
  match w with
  | Some w =>
      if negb (w_created_at_ms w =? window_created_at_ms r)
      then Settle (settledKernelReservationRow r t reason nowMs) None expireIn
      else if reserved_requests w <? 1 then SettleUnchanged Invalid
      else Settle (settledKernelReservationRow r t reason nowMs)
             (Some (w <| usage_requests := usage_requests w + b2z (bool_decide (t = TCommitted)) |>
                      <| reserved_requests := reserved_requests w - 1 |>
                      <| w_updated_at_ms := nowMs |>)) expireIn
  | None => Settle (settledKernelReservationRow r t reason nowMs) None expireIn
  end.

Definition decideKernelQuotaRenewal (i : KernelQuotaReservationIdentity) (snapshot : KernelQuotaRead)
    (nowMs : Z) : Result string (KernelQuotaReservationRowV2 * Z * Z) :=
  r ← or_throw (kernelReservationMatchesRequest
                  (normalizeKernelQuotaReservationRowV2 (value snapshot) (res_identity i))
                  (requestId i) (res_route i) (windowCreatedAtMs i))
        "Kernel quota reservation is missing or malformed";
  _ ← match state r with
      | RReserved => Ok tt
      | RCommitted => Err "Kernel quota reservation was already committed"
      | RReleased => Err "Kernel quota reservation was already released"
      end;
  let lease := nowMs + KERNEL_QUOTA_RESERVATION_LEASE_MS in
  Ok (r <| lease_expires_at_ms := lease |>, kernelReservationRetentionMs (window_reset_at_ms r) nowMs, lease).

Definition decideKernelQuotaReclaim (r : KernelQuotaReservationRowV2) (nowMs : Z) : option TerminalState :=
  if negb (bool_decide (state r = RReserved)) || (nowMs <? lease_expires_at_ms r) then None
  else Some (default TReleased (terminal_intent r)).

Definition decideKernelDefaultWindowCutover (snapshot : KernelQuotaRead) (id : string) (nowMs : Z)
    : KernelQuotaCutoverPlan :=
  if negb (is_null (value snapshot)) then
    CutoverRefused (match normalizeKernelDefaultWindowCutoverV2 (value snapshot) with
                    | Some _ => ConcurrentChange | None => Unavailable end)
  else CutoverAcquire (mkCutover id nowMs (nowMs + KERNEL_DEFAULT_WINDOW_CUTOVER_LEASE_MS))
         KERNEL_DEFAULT_WINDOW_CUTOVER_LEASE_MS.

Definition kernelDefaultWindowCutoverAcquired (snapshot : KernelQuotaRead) (id : string) : bool :=
  bool_decide (cutover_id <$> normalizeKernelDefaultWindowCutoverV2 (value snapshot) = Some id)
  && negb (bool_decide (read_revision snapshot = None)).

Definition resolveKernelPolicyTiming (o : KernelQuotaPolicySetOptions)
    (current : KernelQuotaEffectivePolicy) (no_expiration : Z) : Z * Z :=
  (match opt_windowMs o with
   | None => eff_windowMs current
   | Some n => normalizeWindow (JNum n) (eff_windowMs current) end,
   match opt_expiresAtMs o with
   | None => expiresAtMs current
   | Some n => normalizeExpiration (JNum n) no_expiration end).

Inductive PolicyWindowGuard := GuardAbort | GuardProceed | GuardReclaim (w : KernelQuotaWindowV2).

Definition decideKernelPolicyWindowGuard (w : option KernelQuotaWindowV2)
    (windowPresent reset : bool) (nowMs : Z) : PolicyWindowGuard :=
  match w with
  | None => if windowPresent then GuardAbort else GuardProceed
  | Some win => if reset && hasLiveKernelReservations w nowMs then GuardReclaim win else GuardProceed
  end.

Definition makeKernelQuotaPolicy (i : KernelQuotaIdentity) (current : KernelQuotaEffectivePolicy)
    (usageLimitRequests : number) (timing : Z * Z) (no_limit nowMs : Z) : KernelQuotaPolicyV2 :=
  mkPolicyV2 (scope i) (owner i) (stored_repo i)
    (normalizeUsageLimit (JNum usageLimitRequests) (eff_limit current) no_limit)
    (fst timing) (snd timing) (default nowMs (p_created_at_ms <$> policy current)) nowMs.

Definition decideKernelQuotaPolicyWrite (i : KernelQuotaIdentity) (p : KernelQuotaPolicyV2)
    (currentWindow : option KernelQuotaWindowV2) (reset : bool) (nowMs : Z)
    : KernelQuotaPolicyWritePlan :=
  let base := if reset then newWindow i (window_ms p) nowMs
              else window (windowForEffectivePolicy currentWindow i (window_ms p) nowMs) in
  mkWritePlan p (if reset then base else base <| w_updated_at_ms := nowMs |>).

Definition decideKernelQuotaPolicyDeleteWindow (i : KernelQuotaIdentity)
    (current : KernelQuotaEffectivePolicy) (d : KernelQuotaDefaults)
    (oldWindow : option KernelQuotaWindowV2) (nowMs : Z) : KernelQuotaWindowV2 :=
  if eff_windowMs current =? windowMs d
  then window (windowForEffectivePolicy oldWindow i (windowMs d) nowMs)
  else newWindow i (windowMs d) nowMs.

Definition kernelQuotaPolicyResetRequested (o : KernelQuotaPolicySetOptions)
    (currentWindowMs nextWindowMs : Z) : bool :=
  resetUsage o || negb (currentWindowMs =? nextWindowMs).

Inductive DeletePrecondition := DeleteAbsent | DeleteConflict | DeleteProceed.

Definition decideKernelQuotaPolicyDeletePrecondition (p cutover : KernelQuotaRead) : DeletePrecondition :=
  if is_null (value p) then DeleteAbsent
  else if is_null (value cutover) then DeleteProceed else DeleteConflict.
