(* ===== verification/KernelStore.v ===== *)
(** * The kernel quota adapters

    [src/kernel/quota-v2.ts], [quota-reservations.ts], [quota-reserve.ts] and
    [quota-write.ts]: the code that reads rows, asks KernelQuota.v for a plan and
    commits it under version checks.  The in-process lock of
    [withKernelQuotaLock] only narrows the interleavings and is left out;
    the lease timers of [kernelReservationContext], whose storage calls
    ([renewKernelReservation], the terminal intent and the settlement) are here,
    are in KernelLease.v.
    [console.warn] is dropped. *)

From stdpp Require Import base gmap strings list.
From Stdlib Require Import ZArith Lia.
From S2P Require Import Prelude Js KvStore KernelQuota.
Open Scope string_scope.
Open Scope Z_scope.

(** The quota's rows are stored as JSON. *)
#[export] Instance jsval_null : Nullable jsval := JNull.
Notation KvMap := (KvMapOf jsval).
Notation KvEntry := (KvEntryOf jsval).
Notation KvMutation := (KvMutationOf jsval).
Notation KvStore := (KvStoreOf jsval).
Notation MemoryKv := (MemoryKvOf jsval).


(** ** Rows as stored *)

Definition json_repo (r : option string) : list (string * jsval) :=
  match r with Some r => [("repo", JStr r)] | None => [] end.

Definition json_identity (s : KernelQuotaScope) (o : string) (r : option string)
    : list (string * jsval) :=
  ([("v", jint 2); ("scope", JStr (scope_name s)); ("owner", JStr o)] ++ json_repo r)%list.

Definition json_or_null {A} (f : A -> jsval) (o : option A) : jsval :=
  match o with Some a => f a | None => JNull end.

Definition json_policy (p : KernelQuotaPolicyV2) : jsval :=
  JObj (json_identity (p_scope p) (p_owner p) (p_repo p) ++
    [("usage_limit_requests", jint (usage_limit_requests p)); ("window_ms", jint (window_ms p));
     ("expires_at_ms", jint (p_expires_at_ms p)); ("created_at_ms", jint (p_created_at_ms p));
     ("updated_at_ms", jint (p_updated_at_ms p))])%list.

Definition json_window (w : KernelQuotaWindowV2) : jsval :=
  JObj (json_identity (w_scope w) (w_owner w) (w_repo w) ++
    [("usage_requests", jint (usage_requests w)); ("reserved_requests", jint (reserved_requests w));
     ("usage_reset_at_ms", jint (usage_reset_at_ms w));
     ("applied_window_ms", jint (applied_window_ms w));
     ("created_at_ms", jint (w_created_at_ms w)); ("updated_at_ms", jint (w_updated_at_ms w))])%list.

Definition json_state (s : ReservationState) : jsval :=
  JStr match s with RReserved => "reserved" | RCommitted => "committed" | RReleased => "released" end.

Definition json_intent (t : TerminalState) : jsval :=
  JStr match t with TCommitted => "committed" | TReleased => "released" end.

Definition json_row (r : KernelQuotaReservationRowV2) : jsval :=
  JObj (json_identity (r_scope r) (r_owner r) (r_repo r) ++
    [("request_id", JStr (request_id r)); ("route", JStr (route r));
     ("window_created_at_ms", jint (window_created_at_ms r));
     ("window_reset_at_ms", jint (window_reset_at_ms r)); ("state", json_state (state r));
     ("terminal_intent", json_or_null json_intent (terminal_intent r));
     ("reserved_at_ms", jint (reserved_at_ms r));
     ("lease_expires_at_ms", jint (lease_expires_at_ms r));
     ("committed_at_ms", json_or_null jint (committed_at_ms r));
     ("released_at_ms", json_or_null jint (released_at_ms r));
     ("release_reason", json_or_null JStr (release_reason r))])%list.

Definition json_cutover (c : KernelDefaultWindowCutoverV2) : jsval :=
  JObj [("v", jint 2); ("id", JStr (cutover_id c)); ("created_at_ms", jint (cutover_created_at_ms c));
        ("expires_at_ms", jint (cutover_expires_at_ms c))].

(** ** Shared reads *)

Definition API_KEY_NO_EXPIRATION_MS : Z := -1.
Definition API_KEY_NO_USAGE_LIMIT : Z := -1.
Definition KERNEL_QUOTA_CONSTANTS : KernelQuotaConstants :=
  mkConstants API_KEY_NO_USAGE_LIMIT API_KEY_NO_EXPIRATION_MS.

Definition DEFAULT_KERNEL_POLICY_LIMIT_KEY : KvKey := [KStr "default"; KStr "kernel_policy_limit_requests"].
Definition DEFAULT_KERNEL_POLICY_WINDOW_KEY : KvKey := [KStr "default"; KStr "kernel_policy_window_ms"].
Definition DEFAULT_KERNEL_POLICY_LIMIT_REQUESTS : Z := API_KEY_NO_USAGE_LIMIT.
Definition USAGE_RESET_PERIOD_MS : Z := 7 * 24 * 60 * 60 * 1000.
Definition DEFAULT_KERNEL_POLICY_WINDOW_MS : Z := USAGE_RESET_PERIOD_MS.

Definition kernelQuotaRead (e : KvEntry) : KernelQuotaRead := mkRead (entry_value e) (versionstamp e).

Record KernelDefaults := mkKernelDefaults {
  defaults : KernelQuotaDefaults;
  limitEntry : KvEntry;
  windowEntry : KvEntry }.

(** ** Outcomes *)

(** What a reservation call answers; the reservation's own handle is the row's
    identity and its lease. *)
Inductive Decision :=
| ReservationGranted (id : KernelQuotaReservationIdentity) (leaseExpiresAtMs : Z)
| UnavailableResponse (message : string)
| LimitBlocked (admitted lim resetAtMs : Z)
| LimitMessage (message : string).

Inductive CapacityOutcome :=
| OutcomeDecision (d : Decision)
| OutcomeRetry (reclaimedCapacity : bool).

Record KernelQuotaReserveOptions := mkReserveOptions {
  opt_nowMs : option Z;
  opt_expectedRepoPolicy : option ExpectedRepoPolicy;
  guardedRepo : option string }.

Record KernelQuotaReservationEntries := mkEntries {
  e_defaults : KernelDefaults;
  policyEntry : KvEntry;
  e_windowEntry : KvEntry;
  repoGuardEntry : option KvEntry;
  defaultCutoverEntry : KvEntry;
  e_windowKey : KvKey }.

Record KernelQuotaReservationTarget := mkTarget {
  t_entries : KernelQuotaReservationEntries;
  effective : KernelQuotaEffectivePolicy;
  resolved : KernelQuotaEffectiveWindow }.

Inductive Steer := SProceed | SRetry | SAbort.

Record KernelQuotaPolicyRequest := mkPolicyRequest {
  req_identity : KernelQuotaIdentity;
  usageLimitRequests : number;
  req_options : KernelQuotaPolicySetOptions }.

Record KernelQuotaPolicyWriteEntries := mkWriteEntries {
  wr_defaults : KernelDefaults;
  wr_policyEntry : KvEntry;
  wr_windowEntry : KvEntry;
  orgPolicyEntry : option KvEntry;
  orgWindowEntry : option KvEntry;
  wr_defaultCutoverEntry : KvEntry }.

Inductive PolicyWriteAttempt := PolicyWritten (p : KernelQuotaPolicyV2) (w : KernelQuotaWindowV2)
| PolicySteer (s : Steer).

Inductive DeleteOutcome := Deleted | DeletedAbsent | DeletedConflict | DeletedRetry | DeletedAbort.

Section adapters.
Context {S : Type} `{Kv : KvStore S}.
(** The other clients and [Date.now()]. *)
Context (others : Clients S) (clock : nat -> Z).
Local Notation get := (get others).
Local Notation list_prefix := (list_prefix others).
Local Notation commit := (commit others).
Local Notation now := (date_now clock).
Local Open Scope kv_scope.

Definition loadDefaults : KvM S KernelDefaults :=
  let! le := get DEFAULT_KERNEL_POLICY_LIMIT_KEY in
  let! we := get DEFAULT_KERNEL_POLICY_WINDOW_KEY in
  kv_ret (mkKernelDefaults
    (mkDefaults (normalizeUsageLimit (entry_value le) DEFAULT_KERNEL_POLICY_LIMIT_REQUESTS API_KEY_NO_USAGE_LIMIT)
                (normalizeWindow (entry_value we) DEFAULT_KERNEL_POLICY_WINDOW_MS)) le we).

Definition readKernelQuotaPolicyState (o r : string) : KvM S (KernelQuotaScope * bool) :=
  let! re := get (kernelRepoPolicyKey o r) in
  let! oe := get (kernelOrgPolicyKey o) in
  kv_lift (decideKernelQuotaScope (kernelQuotaRead re) (kernelQuotaRead oe) o r KERNEL_QUOTA_CONSTANTS).

(** The rows still reserved among the listed ones; a malformed row throws. *)
Fixpoint count_reserved (i : KernelQuotaIdentity) (created : Z) (es : list KvEntry)
    : Result string Z :=
  match es with
  | [] => Ok 0
  | e :: es =>
      r ← requireKernelReservationRow (entry_key e) (entry_value e) i created;
      n ← count_reserved i created es;
      Ok (b2z (bool_decide (state r = RReserved)) + n)
  end.

Definition reconcileKernelQuotaWindowReservations (e : KvEntry) (i : KernelQuotaIdentity)
    : KvM S (option KernelQuotaWindowV2) :=
  match normalizeKernelQuotaWindowV2 (entry_value e) i with
  | None => kv_ret None
  | Some w =>
      if isRecord (entry_value e) && hasOwn (entry_value e) "reserved_requests"
      then kv_ret (Some w)
      else
        let! p := kv_lift (kernelReservationWindowPrefix i (w_created_at_ms w)) in
        let! es := list_prefix p in
        let! n := kv_lift (count_reserved i (w_created_at_ms w) es) in
        kv_ret (Some (w <| reserved_requests := n |>))
  end.

(** *** Terminal intent, settlement and renewal *)

(** The lease expiry when the intent was written, or the settlement outcome. *)
Definition recordKernelReservationTerminalIntentUnlocked (i : KernelQuotaReservationIdentity)
    (t : TerminalState) (nowMs : Z) : KvM S (KernelReservationSettlement + Z) :=
  let! key := kv_lift (kernelReservationKey (res_identity i) (windowCreatedAtMs i) (requestId i)) in
  let! e := get key in
  match decideKernelQuotaTerminalIntent i (kernelQuotaRead e) t nowMs with
  | TerminalUnchanged outcome => kv_ret (inl outcome)
  | TerminalIntent r expireIn lease =>
      let! ok := commit [e] [MSet key (json_row r) (Some expireIn)] in
      kv_ret (if (ok : bool) then inr lease else inl Conflict)
  end.

Definition already (t : TerminalState) : string :=
  match t with
  | TCommitted => "Kernel quota reservation was already released"
  | TReleased => "Kernel quota reservation was already committed"
  end.

(** [None] asks for another attempt. *)
Definition attemptRecordKernelReservationTerminalIntent (i : KernelQuotaReservationIdentity)
    (t : TerminalState) (nowMs : Z) : KvM S (option (option Z)) :=
  let! outcome := recordKernelReservationTerminalIntentUnlocked i t nowMs in
  match outcome with
  | inr lease => kv_ret (Some (Some lease))
  | inl Settled => kv_ret (Some None)
  | inl Conflict => kv_ret None
  | inl TerminalMismatch => kv_throw (already t)
  | inl Missing => kv_throw "Kernel quota reservation is missing"
  | inl Invalid => kv_throw "Kernel quota reservation is malformed"
  end.

(** [for (attempt < MAX_KV_RETRIES) try { ... } catch { lastError }]. *)
Fixpoint with_retries {A} (tries : nat) (attempt : KvM S (option A)) (failed : string) : KvM S A :=
  match tries with
  | O => kv_throw failed
  | Datatypes.S tries =>
      let! r := kv_catch attempt (fun _ => kv_ret None) in
      match r with
      | Some a => kv_ret a
      | None => with_retries tries attempt failed
      end
  end.

Definition recordKernelReservationTerminalIntent (i : KernelQuotaReservationIdentity)
    (t : TerminalState) : KvM S (option Z) :=
  with_retries MAX_KV_RETRIES
    (let! nowMs := now in attemptRecordKernelReservationTerminalIntent i t nowMs)
    "Kernel quota reservation terminal intent could not be recorded".

Definition settleKernelReservationUnlocked (i : KernelQuotaReservationIdentity)
    (t : TerminalState) (reason : string) (nowMs : Z) : KvM S KernelReservationSettlement :=
  let! windowKey := kv_lift (kernelScopedWindowKey (res_identity i)) in
  let! key := kv_lift (kernelReservationKey (res_identity i) (windowCreatedAtMs i) (requestId i)) in
  let! we := get windowKey in
  let! e := get key in
  match normalizeKernelQuotaReservationRowV2 (entry_value e) (res_identity i) with
  | None => kv_ret (if is_null (entry_value e) then Missing else Invalid)
  | Some r =>
      match kernelReservationPrecondition r (requestId i) (res_route i) (windowCreatedAtMs i) t with
      | Some outcome => kv_ret outcome
      | None =>
          let! w := reconcileKernelQuotaWindowReservations we (res_identity i) in
          match decideKernelQuotaSettlement r w (negb (is_null (entry_value we))) t reason nowMs with
          | SettleUnchanged outcome => kv_ret outcome
          | Settle r' w' expireIn =>
              let! ok := commit [we; e]
                ((match w' with Some w' => [MSet windowKey (json_window w') (Some expireIn)] | None => [] end)
                 ++ [MSet key (json_row r') (Some expireIn)])%list in
              kv_ret (if (ok : bool) then Settled else Conflict)
          end
      end
  end.

Definition settleKernelReservation (i : KernelQuotaReservationIdentity) (t : TerminalState)
    (reason : string) : KvM S unit :=
  with_retries MAX_KV_RETRIES
    (let! nowMs := now in
     let! outcome := settleKernelReservationUnlocked i t reason nowMs in
     match outcome with
     | Settled => kv_ret (Some tt)
     | Conflict => kv_ret None
     | TerminalMismatch => kv_throw (already t)
     | Missing => kv_throw "Kernel quota reservation is missing"
     | Invalid => kv_throw "Kernel quota reservation is malformed"
     end)
    "Kernel quota reservation could not be settled".

Definition renewKernelReservation (i : KernelQuotaReservationIdentity) : KvM S Z :=
  with_retries MAX_KV_RETRIES
    (let! key := kv_lift (kernelReservationKey (res_identity i) (windowCreatedAtMs i) (requestId i)) in
     let! e := get key in
     let! nowMs := now in
     let! '(r, expireIn, lease) := kv_lift (decideKernelQuotaRenewal i (kernelQuotaRead e) nowMs) in
     let! ok := commit [e] [MSet key (json_row r) (Some expireIn)] in
     kv_ret (if (ok : bool) then Some lease else None))
    "Kernel quota reservation lease could not be renewed".

(** *** Reclaiming expired leases *)

Definition row_identity (i : KernelQuotaIdentity) (created : Z) (r : KernelQuotaReservationRowV2)
    : KernelQuotaReservationIdentity := mkReservationIdentity i (request_id r) (route r) created.

Fixpoint settleExpiredKernelReservation (tries : nat) (i : KernelQuotaIdentity)
    (w : KernelQuotaWindowV2) (r : KernelQuotaReservationRowV2) (t : TerminalState) (nowMs : Z)
    : KvM S bool :=
  match tries with
  | O => kv_ret false
  | Datatypes.S tries =>
      let! outcome := settleKernelReservationUnlocked (row_identity i (w_created_at_ms w) r) t
        (match t with TCommitted => "completed" | TReleased => "lease_expired" end) nowMs in
      match outcome with
      | Conflict => settleExpiredKernelReservation tries i w r t nowMs
      | Invalid => kv_throw "Kernel quota reservation is malformed"
      | _ => kv_ret true
      end
  end.

Fixpoint reclaim_listed (i : KernelQuotaIdentity) (w : KernelQuotaWindowV2) (nowMs : Z)
    (sawExpired : bool) (es : list KvEntry) : KvM S bool :=
  match es with
  | [] => if sawExpired then kv_throw "Kernel quota reservation changed concurrently" else kv_ret false
  | e :: es =>
      let! r := kv_lift (requireKernelReservationRow (entry_key e) (entry_value e) i (w_created_at_ms w)) in
      match decideKernelQuotaReclaim r nowMs with
      | None => reclaim_listed i w nowMs sawExpired es
      | Some t =>
          let! done := settleExpiredKernelReservation MAX_KV_RETRIES i w r t nowMs in
          if (done : bool) then kv_ret true else reclaim_listed i w nowMs true es
      end
  end.

Definition reclaimExpiredKernelReservationUnlocked (i : KernelQuotaIdentity)
    (w : KernelQuotaWindowV2) (nowMs : Z) : KvM S bool :=
  let! p := kv_lift (kernelReservationWindowPrefix i (w_created_at_ms w)) in
  let! es := list_prefix p in
  reclaim_listed i w nowMs false es.

(** *** Reserving *)

Definition loadKernelQuotaReservationEntries (keys : KvKey * KvKey) (i : KernelQuotaIdentity)
    (o : KernelQuotaReserveOptions) : KvM S KernelQuotaReservationEntries :=
  let! d := loadDefaults in
  let! pe := get (fst keys) in
  let! we := get (snd keys) in
  let! ge := match opt_expectedRepoPolicy o, guardedRepo o with
             | Some ExpectAbsent, Some r =>
                 if empty r then kv_ret None
                 else let! e := get (kernelRepoPolicyKey (owner i) r) in kv_ret (Some e)
             | _, _ => kv_ret None
             end in
  let! ce := get KERNEL_DEFAULT_WINDOW_CUTOVER_V2_KEY in
  kv_ret (mkEntries d pe we ge ce (snd keys)).

Definition evaluateKernelQuotaEligibility (es : KernelQuotaReservationEntries)
    (i : KernelQuotaIdentity) (o : KernelQuotaReserveOptions) (nowMs : Z)
    : KvM S (Decision + KernelQuotaReservationTarget) :=
  let snapshot := mkEligibilitySnapshot (kernelQuotaRead (policyEntry es))
    (kernelQuotaRead <$> repoGuardEntry es) (kernelQuotaRead (defaultCutoverEntry es))
    (opt_expectedRepoPolicy o) in
  let! plan := kv_lift (decideKernelQuotaEligibility i snapshot (defaults (e_defaults es))
                          KERNEL_QUOTA_CONSTANTS nowMs) in
  match plan with
  | EligibilityRefused status message =>
      kv_ret (inl (if status =? 503 then UnavailableResponse message else LimitMessage message))
  | Eligible eff =>
      let! existing := reconcileKernelQuotaWindowReservations (e_windowEntry es) i in
      if negb (is_null (entry_value (e_windowEntry es))) && bool_decide (existing = None)
      then kv_ret (inl (UnavailableResponse "Kernel quota aggregate is malformed"))
      else kv_ret (inr (mkTarget es eff
             (windowForEffectivePolicy existing i (eff_windowMs eff) nowMs)))
  end.

Definition quotaExceeded (w : KernelQuotaWindowV2) (lim : Z) : Decision :=
  LimitBlocked (usage_requests w + reserved_requests w) lim (usage_reset_at_ms w).

Definition reclaimKernelQuotaCapacity (i : KernelQuotaIdentity) (w : KernelQuotaWindowV2)
    (lim nowMs : Z) (reclaimedExpiredReservation : bool) : KvM S CapacityOutcome :=
  if reclaimedExpiredReservation then kv_ret (OutcomeDecision (quotaExceeded w lim)) else
  kv_catch
    (let! reclaimed := reclaimExpiredKernelReservationUnlocked i w nowMs in
     kv_ret (if (reclaimed : bool) then OutcomeRetry true else OutcomeDecision (quotaExceeded w lim)))
    (fun _ => kv_ret (OutcomeDecision (UnavailableResponse "Kernel quota is unavailable"))).

(** Every entry the reservation was decided on. *)
Definition reserve_checks (t : KernelQuotaReservationTarget) (e : KvEntry) : list KvEntry :=
  let es := t_entries t in
  ([policyEntry es; e_windowEntry es; e]
   ++ (match repoGuardEntry es with Some g => [g] | None => [] end)
   ++ (match source (effective t) with
       | SourceDefault => [limitEntry (e_defaults es); windowEntry (e_defaults es); defaultCutoverEntry es]
       | SourceKv => [] end))%list.

Definition commitKernelQuotaReservation (i : KernelQuotaIdentity) (id rt : string)
    (t : KernelQuotaReservationTarget) (nowMs : Z) (reclaimedExpiredReservation : bool)
    : KvM S CapacityOutcome :=
  let created := w_created_at_ms (window (resolved t)) in
  let! key := kv_lift (kernelReservationKey i created id) in
  let! e := get key in
  match decideKernelQuotaReserve i (effective t) (window (resolved t)) (kernelQuotaRead e) id rt
          (noUsageLimit KERNEL_QUOTA_CONSTANTS) nowMs with
  | ReserveRefused _ message => kv_ret (OutcomeDecision (UnavailableResponse message))
  | ReserveFull w lim => reclaimKernelQuotaCapacity i w lim nowMs reclaimedExpiredReservation
  | Reserve r w expireIn =>
      let! ok := commit (reserve_checks t e)
        [MSet (e_windowKey (t_entries t)) (json_window w) (Some expireIn);
         MSet key (json_row r) (Some expireIn)] in
      kv_ret (if (ok : bool)
              then OutcomeDecision (ReservationGranted (mkReservationIdentity i id rt (w_created_at_ms w))
                                      (lease_expires_at_ms r))
              else OutcomeRetry false)
  end.

Definition attemptReserveKernelQuota (i : KernelQuotaIdentity) (id rt : string)
    (o : KernelQuotaReserveOptions) (nowMs : Z) (reclaimedExpiredReservation : bool)
    : KvM S CapacityOutcome :=
  let! keys := kv_lift (kernelPolicyKeys i) in
  let! es := loadKernelQuotaReservationEntries keys i o in
  let! eligibility := evaluateKernelQuotaEligibility es i o nowMs in
  match eligibility with
  | inl d => kv_ret (OutcomeDecision d)
  | inr t => commitKernelQuotaReservation i id rt t nowMs reclaimedExpiredReservation
  end.

Fixpoint reserve_loop (tries : nat) (i : KernelQuotaIdentity) (id rt : string)
    (o : KernelQuotaReserveOptions) (reclaimed : bool) : KvM S Decision :=
  match tries with
  | O => kv_ret (UnavailableResponse "Kernel quota changed concurrently; retry")
  | Datatypes.S tries =>
      let! nowMs := match opt_nowMs o with Some n => kv_ret n | None => now end in
      let! outcome := attemptReserveKernelQuota i id rt o nowMs reclaimed in
      match outcome with
      | OutcomeRetry r => reserve_loop tries i id rt o (r || reclaimed)
      | OutcomeDecision d => kv_ret d
      end
  end.

Definition reserveLimit (i : KernelQuotaIdentity) (id rt : string) (o : KernelQuotaReserveOptions)
    : KvM S Decision :=
  kv_catch
    (if empty id || empty rt
     then kv_ret (UnavailableResponse "Kernel quota reservation requires a request id and route")
     else reserve_loop MAX_KV_RETRIES i id rt o false)
    (fun _ => kv_ret (UnavailableResponse "Kernel quota is unavailable")).

Definition reserveKernelOrgUsageLimit (o id rt : string) (nowMs : option Z) : KvM S Decision :=
  reserveLimit (mkIdentity ScopeOrg o None) id rt (mkReserveOptions nowMs None None).

Definition reserveEffectiveKernelUsageLimit (o r id rt : string) (nowMs : option Z)
    : KvM S Decision :=
  kv_catch
    (let! '(sc, _) := readKernelQuotaPolicyState o r in
     match sc with
     | ScopeRepo => reserveLimit (mkIdentity ScopeRepo o (Some r)) id rt
                      (mkReserveOptions nowMs (Some ExpectPresent) None)
     | ScopeOrg => reserveLimit (mkIdentity ScopeOrg o None) id rt
                      (mkReserveOptions nowMs (Some ExpectAbsent) (Some r))
     end)
    (fun _ => kv_ret (UnavailableResponse "Kernel quota is unavailable")).

(** *** Policies *)

Definition steer_guard (i : KernelQuotaIdentity) (g : PolicyWindowGuard) (nowMs : Z) : KvM S Steer :=
  match g with
  | GuardAbort => kv_ret SAbort
  | GuardProceed => kv_ret SProceed
  | GuardReclaim w =>
      let! reclaimed := reclaimExpiredKernelReservationUnlocked i w nowMs in
      kv_ret (if (reclaimed : bool) then SRetry else SAbort)
  end.

Definition reconcileKernelPolicyOrgInheritance (i : KernelQuotaIdentity)
    (es : KernelQuotaPolicyWriteEntries) (nowMs : Z) : KvM S Steer :=
  match scope i, orgPolicyEntry es, orgWindowEntry es with
  | ScopeRepo, Some pe, Some we =>
      if negb (is_null (entry_value (wr_policyEntry es))) then kv_ret SProceed else
      let org := mkIdentity ScopeOrg (owner i) None in
      let! _ := kv_lift (policyFor (kernelQuotaRead pe) org (defaults (wr_defaults es)) KERNEL_QUOTA_CONSTANTS) in
      let! w := reconcileKernelQuotaWindowReservations we org in
      steer_guard org (decideKernelPolicyWindowGuard w (negb (is_null (entry_value we))) true nowMs) nowMs
  | _, _, _ => kv_ret SProceed
  end.

Definition guardKernelPolicyWindowReset (i : KernelQuotaIdentity)
    (w : option KernelQuotaWindowV2) (nowMs : Z) (reset : bool) : KvM S Steer :=
  steer_guard i (decideKernelPolicyWindowGuard w false reset nowMs) nowMs.

Definition kernelPolicyWriteAtomic (i : KernelQuotaIdentity) (es : KernelQuotaPolicyWriteEntries)
    (current : KernelQuotaEffectivePolicy) : list KvEntry :=
  ([wr_policyEntry es; wr_windowEntry es]
   ++ (match source current with
       | SourceDefault => [limitEntry (wr_defaults es); windowEntry (wr_defaults es); wr_defaultCutoverEntry es]
       | SourceKv => [] end)
   ++ (match scope i, orgPolicyEntry es, orgWindowEntry es with
       | ScopeRepo, Some pe, Some we => if is_null (entry_value (wr_policyEntry es)) then [pe; we] else []
       | _, _, _ => [] end))%list.

Definition org_entry (i : KernelQuotaIdentity) (key : string -> KvKey) : KvM S (option KvEntry) :=
  match scope i with
  | ScopeRepo => let! e := get (key (owner i)) in kv_ret (Some e)
  | ScopeOrg => kv_ret None
  end.

Definition attemptSetKernelQuotaPolicy (request : KernelQuotaPolicyRequest) (keys : KvKey * KvKey)
    : KvM S PolicyWriteAttempt :=
  let i := req_identity request in
  let o := req_options request in
  let! nowMs := now in
  let! d := loadDefaults in
  let! pe := get (fst keys) in
  let! we := get (snd keys) in
  let! ope := org_entry i kernelOrgPolicyKey in
  let! owe := org_entry i kernelOrgWindowKey in
  let! ce := get KERNEL_DEFAULT_WINDOW_CUTOVER_V2_KEY in
  let es := mkWriteEntries d pe we ope owe ce in
  let! current := kv_lift (policyFor (kernelQuotaRead pe) i (defaults d) KERNEL_QUOTA_CONSTANTS) in
  if kernelQuotaDefaultCutoverBlocks current (kernelQuotaRead ce) then kv_ret (PolicySteer SAbort) else
  let timing := resolveKernelPolicyTiming o current (noExpirationMs KERNEL_QUOTA_CONSTANTS) in
  let p := makeKernelQuotaPolicy i current (usageLimitRequests request) timing
             (noUsageLimit KERNEL_QUOTA_CONSTANTS) nowMs in
  let! w := reconcileKernelQuotaWindowReservations we i in
  if negb (is_null (entry_value we)) && bool_decide (w = None) then kv_ret (PolicySteer SAbort) else
  let! inheritance := reconcileKernelPolicyOrgInheritance i es nowMs in
  match inheritance with
  | SRetry | SAbort => kv_ret (PolicySteer inheritance)
  | SProceed =>
      let reset := kernelQuotaPolicyResetRequested o (eff_windowMs current) (fst timing) in
      let! resetGuard := guardKernelPolicyWindowReset i w nowMs reset in
      match resetGuard with
      | SRetry | SAbort => kv_ret (PolicySteer resetGuard)
      | SProceed =>
          let w' := plan_window (decideKernelQuotaPolicyWrite i p w reset nowMs) in
          let! ok := commit (kernelPolicyWriteAtomic i es current)
            [MSet (fst keys) (json_policy p) None; MSet (snd keys) (json_window w') None] in
          kv_ret (if (ok : bool) then PolicyWritten p w' else PolicySteer SRetry)
      end
  end.

Fixpoint set_policy_loop (tries : nat) (request : KernelQuotaPolicyRequest) (keys : KvKey * KvKey)
    : KvM S (option (KernelQuotaPolicyV2 * KernelQuotaWindowV2)) :=
  match tries with
  | O => kv_ret None
  | Datatypes.S tries =>
      let! r := attemptSetKernelQuotaPolicy request keys in
      match r with
      | PolicyWritten p w => kv_ret (Some (p, w))
      | PolicySteer SRetry => set_policy_loop tries request keys
      | PolicySteer _ => kv_ret None
      end
  end.

Definition setPolicy (request : KernelQuotaPolicyRequest)
    : KvM S (option (KernelQuotaPolicyV2 * KernelQuotaWindowV2)) :=
  kv_catch
    (let! keys := kv_lift (kernelPolicyKeys (req_identity request)) in
     set_policy_loop MAX_KV_RETRIES request keys)
    (fun _ => kv_ret None).

Definition attemptDeleteKernelQuotaPolicy (i : KernelQuotaIdentity) (keys : KvKey * KvKey)
    : KvM S DeleteOutcome :=
  let! nowMs := now in
  let! d := loadDefaults in
  let! pe := get (fst keys) in
  let! we := get (snd keys) in
  let! ce := get KERNEL_DEFAULT_WINDOW_CUTOVER_V2_KEY in
  match decideKernelQuotaPolicyDeletePrecondition (kernelQuotaRead pe) (kernelQuotaRead ce) with
  | DeleteAbsent => kv_ret DeletedAbsent
  | DeleteConflict => kv_ret DeletedConflict
  | DeleteProceed =>
      let! current := kv_lift (policyFor (kernelQuotaRead pe) i (defaults d) KERNEL_QUOTA_CONSTANTS) in
      let! w := reconcileKernelQuotaWindowReservations we i in
      match decideKernelPolicyWindowGuard w (negb (is_null (entry_value we))) true nowMs with
      | GuardAbort => kv_ret DeletedAbort
      | GuardReclaim win =>
          let! reclaimed := reclaimExpiredKernelReservationUnlocked i win nowMs in
          kv_ret (if (reclaimed : bool) then DeletedRetry else DeletedConflict)
      | GuardProceed =>
          let! ok := commit [pe; we; limitEntry d; windowEntry d; ce]
            [MDelete (fst keys);
             MSet (snd keys) (json_window (decideKernelQuotaPolicyDeleteWindow i current (defaults d) w nowMs)) None] in
          kv_ret (if (ok : bool) then Deleted else DeletedRetry)
      end
  end.

(** [None] is the [null] of an aborted or repeatedly lost delete. *)
Fixpoint delete_policy_loop (tries : nat) (i : KernelQuotaIdentity) (keys : KvKey * KvKey)
    : KvM S (option DeleteOutcome) :=
  match tries with
  | O => kv_ret None
  | Datatypes.S tries =>
      let! r := attemptDeleteKernelQuotaPolicy i keys in
      match r with
      | DeletedRetry => delete_policy_loop tries i keys
      | DeletedAbort => kv_ret None
      | _ => kv_ret (Some r)
      end
  end.

Definition deletePolicy (i : KernelQuotaIdentity) : KvM S (option DeleteOutcome) :=
  kv_catch
    (let! keys := kv_lift (kernelPolicyKeys i) in delete_policy_loop MAX_KV_RETRIES i keys)
    (fun _ => kv_ret None).

(** *** The default-window cutover *)

Definition releaseKernelDefaultWindowCutover (guard_entry : KvEntry) : KvM S unit :=
  kv_catch (let! _ := commit [guard_entry] [MDelete KERNEL_DEFAULT_WINDOW_CUTOVER_V2_KEY] in kv_ret tt)
    (fun _ => kv_ret tt).

Definition kernelScopeHasPolicy (i : KernelQuotaIdentity) : KvM S bool :=
  let! key := kv_lift (kernelScopedPolicyKey i) in
  let! e := get key in
  if is_null (entry_value e) then kv_ret false else
  match normalizeKernelQuotaPolicyV2 (entry_value e) i KERNEL_QUOTA_CONSTANTS with
  | None => kv_throw "Kernel quota policy is malformed"
  | Some _ => kv_ret true
  end.

Fixpoint kernelWindowHasLiveReservations (tries : nat) (i : KernelQuotaIdentity) : KvM S bool :=
  match tries with
  | O => kv_throw "Kernel quota reservations changed concurrently"
  | Datatypes.S tries =>
      let! key := kv_lift (kernelScopedWindowKey i) in
      let! nowMs := now in
      let! we := get key in
      let! w := reconcileKernelQuotaWindowReservations we i in
      match w with
      | None => if is_null (entry_value we) then kv_ret false
                else kv_throw "Kernel quota window is malformed"
      | Some win =>
          if negb (hasLiveKernelReservations w nowMs) then kv_ret false else
          let! reclaimed := reclaimExpiredKernelReservationUnlocked i win nowMs in
          if (reclaimed : bool) then kernelWindowHasLiveReservations tries i else kv_ret true
      end
  end.

Fixpoint live_default_backed (sc : KernelQuotaScope) (prefix : KvKey)
    (es : list KvEntry) : KvM S bool :=
  match es with
  | [] => kv_ret false
  | e :: es =>
      let! '(o, r) := kv_lift (kernelWindowScopeTarget sc (entry_key e) prefix) in
      let i := mkIdentity sc o r in
      let! has_policy := kernelScopeHasPolicy i in
      let! live := if (has_policy : bool) then kv_ret false
                   else kernelWindowHasLiveReservations MAX_KV_RETRIES i in
      if (live : bool) then kv_ret true else live_default_backed sc prefix es
  end.

Definition hasLiveDefaultBackedKernelReservations : KvM S bool :=
  let! es := list_prefix KERNEL_REPO_WINDOW_V2_PREFIX in
  let! live := live_default_backed ScopeRepo KERNEL_REPO_WINDOW_V2_PREFIX es in
  if (live : bool) then kv_ret true else
  let! es := list_prefix KERNEL_ORG_WINDOW_V2_PREFIX in
  live_default_backed ScopeOrg KERNEL_ORG_WINDOW_V2_PREFIX es.

Inductive CutoverDecision := CutoverGuarded (guard_entry : KvEntry) | CutoverActiveReservations
| CutoverRejected (reason : CutoverRefusal).

(** The part of [acquireKernelDefaultWindowCutover] up to the guard; [uuid] is
    [crypto.randomUUID()]. *)
Definition acquire_marker (limit_entry window_entry : KvEntry) (uuid : string)
    : KvM S (CutoverRefusal + KvEntry) :=
  let! me := get KERNEL_DEFAULT_WINDOW_CUTOVER_V2_KEY in
  let! nowMs := now in
  match decideKernelDefaultWindowCutover (kernelQuotaRead me) uuid nowMs with
  | CutoverRefused reason => kv_ret (inl reason)
  | CutoverAcquire marker expireIn =>
      let! ok := commit [me; limit_entry; window_entry]
        [MSet KERNEL_DEFAULT_WINDOW_CUTOVER_V2_KEY (json_cutover marker) (Some expireIn)] in
      if negb ok then kv_ret (inl ConcurrentChange) else
      let! ae := get KERNEL_DEFAULT_WINDOW_CUTOVER_V2_KEY in
      if negb (kernelDefaultWindowCutoverAcquired (kernelQuotaRead ae) (cutover_id marker))
      then kv_ret (inl Unavailable) else kv_ret (inr ae)
  end.

Definition acquireKernelDefaultWindowCutover (limit_entry window_entry : KvEntry) (uuid : string)
    : KvM S CutoverDecision :=
  let! marker := kv_catch (acquire_marker limit_entry window_entry uuid)
                   (fun _ => kv_ret (inl Unavailable)) in
  match marker with
  | inl reason => kv_ret (CutoverRejected reason)
  | inr guard_entry =>
      kv_catch
        (let! live := hasLiveDefaultBackedKernelReservations in
         if (live : bool)
         then let! _ := releaseKernelDefaultWindowCutover guard_entry in kv_ret CutoverActiveReservations
         else kv_ret (CutoverGuarded guard_entry))
        (fun _ => let! _ := releaseKernelDefaultWindowCutover guard_entry in
                  kv_ret (CutoverRejected Unavailable))
  end.
End adapters.
