(* ===== verification/KernelRows.v ===== *)
(** * Rows of a quota scope

    What the stored rows of one scope add up to: the keys of a scope, the
    number of its reservation rows in a state, how a commit moves that number,
    and what a stored row reads back as. *)

From stdpp Require Import base gmap strings list.
From Stdlib Require Import ZArith Lia.
From S2P Require Import Prelude Js KvStore KvLogic KernelQuota KernelStore.
Open Scope string_scope.
Open Scope Z_scope.

(** ** Canonical identities and their keys *)

(** The identities the callers build: a repo scope has its repo, an org scope
    has none. *)
Definition canonical (i : KernelQuotaIdentity) : Prop :=
  match scope i with ScopeRepo => is_Some (repo i) | ScopeOrg => repo i = None end.

Definition window_key (i : KernelQuotaIdentity) : KvKey :=
  match scope i with
  | ScopeRepo => kernelRepoWindowKey (owner i) (default "" (repo i))
  | ScopeOrg => kernelOrgWindowKey (owner i)
  end.

Definition policy_key (i : KernelQuotaIdentity) : KvKey :=
  match scope i with
  | ScopeRepo => kernelRepoPolicyKey (owner i) (default "" (repo i))
  | ScopeOrg => kernelOrgPolicyKey (owner i)
  end.

Definition row_prefix (i : KernelQuotaIdentity) (created : Z) : KvKey :=
  match scope i with
  | ScopeRepo => (KERNEL_REPO_RESERVATION_V2_PREFIX ++ [KStr (owner i); KStr (default "" (repo i)); KNum created])%list
  | ScopeOrg => (KERNEL_ORG_RESERVATION_V2_PREFIX ++ [KStr (owner i); KNum created])%list
  end.

Definition row_key (i : KernelQuotaIdentity) (created : Z) (id : string) : KvKey :=
  (row_prefix i created ++ [KStr id])%list.

Section keys.
Context (i : KernelQuotaIdentity) (Hi : canonical i).

Lemma kernelScopedWindowKey_canonical : kernelScopedWindowKey i = Ok (window_key i).
Proof.
  unfold canonical, kernelScopedWindowKey, window_key in *.
  destruct (scope i); [|done]. by destruct Hi as [r ->].
Qed.

Lemma kernelScopedPolicyKey_canonical : kernelScopedPolicyKey i = Ok (policy_key i).
Proof.
  unfold canonical, kernelScopedPolicyKey, policy_key in *.
  destruct (scope i); [|done]. by destruct Hi as [r ->].
Qed.

Lemma kernelPolicyKeys_canonical : kernelPolicyKeys i = Ok (policy_key i, window_key i).
Proof.
  unfold kernelPolicyKeys.
  rewrite kernelScopedPolicyKey_canonical, kernelScopedWindowKey_canonical. done.
Qed.

Lemma kernelReservationKey_canonical created id :
  kernelReservationKey i created id = Ok (row_key i created id).
Proof.
  unfold canonical, kernelReservationKey, row_key, row_prefix in *.
  destruct (scope i); [|done]. by destruct Hi as [r ->].
Qed.

Lemma kernelReservationWindowPrefix_canonical created :
  kernelReservationWindowPrefix i created = Ok (row_prefix i created).
Proof.
  unfold canonical, kernelReservationWindowPrefix, row_prefix in *.
  destruct (scope i); [|done]. by destruct Hi as [r ->].
Qed.
End keys.

Lemma window_key_inj i j : canonical i -> canonical j -> window_key i = window_key j -> i = j.
Proof.
  unfold canonical, window_key. destruct i as [[] o r], j as [[] o' r']; cbn; try done.
  - intros [? ->] [? ->] [= -> ->]. done.
  - intros -> -> [= ->]. done.
Qed.

(** A row key lies under the prefix of its own scope and window only. *)
Lemma row_key_prefix i j c d id :
  canonical i -> canonical j -> has_prefix (row_prefix i c) (row_key j d id) = true <-> i = j /\ c = d.
Proof.
  unfold canonical, row_key, row_prefix. destruct i as [[] o r], j as [[] o' r']; cbn.
  - intros [? ->] [? ->]. cbn. rewrite !andb_true_iff, !bool_decide_eq_true. naive_solver.
  - intros _ _. rewrite !andb_true_iff, !bool_decide_eq_true. naive_solver.
  - intros _ _. rewrite !andb_true_iff, !bool_decide_eq_true. naive_solver.
  - intros -> ->. rewrite !andb_true_iff, !bool_decide_eq_true. naive_solver.
Qed.

Lemma row_key_prefix_ne i j c d id :
  canonical i -> canonical j -> ~ (i = j /\ c = d) -> has_prefix (row_prefix i c) (row_key j d id) = false.
Proof.
  intros Hi Hj Hne. destruct (has_prefix _ _) eqn:E; [|done].
  by destruct Hne; apply (row_key_prefix i j c d id Hi Hj).
Qed.

(** Keys that are no reservation rows. *)
Definition not_row (k : KvKey) : Prop := forall i c, has_prefix (row_prefix i c) k = false.

Lemma not_row_window i : not_row (window_key i).
Proof.
  intros j c. unfold row_prefix, window_key. destruct (scope i), (scope j); done.
Qed.
Lemma not_row_policy i : not_row (policy_key i).
Proof.
  intros j c. unfold row_prefix, policy_key. destruct (scope i), (scope j); done.
Qed.
Lemma not_row_cutover : not_row KERNEL_DEFAULT_WINDOW_CUTOVER_V2_KEY.
Proof. intros j c. unfold row_prefix. by destruct (scope j). Qed.

Definition not_window (k : KvKey) : Prop := forall i, k <> window_key i.

Lemma not_window_row i c id : not_window (row_key i c id).
Proof. intros j. unfold row_key, row_prefix, window_key. by destruct (scope i), (scope j). Qed.
Lemma not_window_policy i : not_window (policy_key i).
Proof. intros j. unfold policy_key, window_key. by destruct (scope i), (scope j). Qed.
Lemma not_window_cutover : not_window KERNEL_DEFAULT_WINDOW_CUTOVER_V2_KEY.
Proof. intros j. unfold window_key. by destruct (scope j). Qed.

#[export] Hint Resolve not_row_window not_row_policy not_row_cutover not_window_row not_window_policy
  not_window_cutover : gateway.

(** ** Counting rows *)

Definition in_state (st : ReservationState) (i : KernelQuotaIdentity) (v : jsval) : bool :=
  match normalizeKernelQuotaReservationRowV2 v i with
  | Some r => bool_decide (state r = st)
  | None => false
  end.

(** How many of the rows under a window are well formed and in a state. *)
Definition row_count (st : ReservationState) (i : KernelQuotaIdentity) (created : Z) (m : KvMap) : Z :=
  prefix_sum (fun v => b2z (in_state st i v)) (row_prefix i created) m.

Section counts.
Context (st : ReservationState) (i : KernelQuotaIdentity) (created : Z).
Local Notation count := (row_count st i created).
Local Notation under k := (has_prefix (row_prefix i created) k).

Definition weight (m : KvMap) (k : KvKey) : Z :=
  match m !! k with Some (v, _) => b2z (in_state st i v) | None => 0 end.

Lemma row_count_set_in m k v n :
  under k = true -> count (<[k := (v, n)]> m) = count m - weight m k + b2z (in_state st i v).
Proof.
  intros Hk. unfold row_count, weight. rewrite prefix_sum_set. unfold key_weight, value_weight.
  by rewrite Hk.
Qed.

Lemma row_count_set_out m k v n : under k = false -> count (<[k := (v, n)]> m) = count m.
Proof.
  intros Hk. unfold row_count. rewrite prefix_sum_set. unfold key_weight, value_weight. rewrite Hk. lia.
Qed.

Lemma row_count_nonneg m : 0 <= count m.
Proof. apply prefix_sum_nonneg. intros. apply b2z_nonneg. Qed.

Lemma row_count_mutations_out n ms m :
  Forall (fun mu => under (mutation_key mu) = false) ms -> count (apply_mutations n ms m) = count m.
Proof. apply prefix_sum_mutations_out. Qed.
End counts.

(** ** The listed count *)

Definition sum_entries (f : KvEntry -> Z) (es : list KvEntry) : Z := foldr (fun e n => f e + n) 0 es.

Lemma sum_entries_perm f es es' : es ≡ₚ es' -> sum_entries f es = sum_entries f es'.
Proof. unfold sum_entries. induction 1; cbn in *; lia. Qed.

Lemma count_reserved_sum i created es n :
  count_reserved i created es = Ok n ->
  n = sum_entries (fun e => b2z (in_state RReserved i (entry_value e))) es.
Proof.
  revert n. induction es as [|e es IH]; intros n H; cbn in H; inv_ok; [done|].
  cbn [sum_entries foldr]. fold (sum_entries (fun e => b2z (in_state RReserved i (entry_value e))) es).
  rewrite <- (IH _ H0). f_equal. unfold in_state.
  unfold requireKernelReservationRow in H. inv_ok.
  match goal with H : normalizeKernelQuotaReservationRowV2 _ _ = Some _ |- _ => rewrite H end.
  repeat case_match; inv_ok; done.
Qed.

Lemma sum_entries_under m p f :
  sum_entries (fun e => f (entry_value e)) (entries_under m p)
  = msum (fun e : jsval * Z => f (fst e)) (filter (fun kv => has_prefix p (fst kv) = true) m).
Proof.
  unfold entries_under. induction m as [|k e m Hk IH] using map_ind.
  - rewrite map_filter_empty, msum_empty. by rewrite map_to_list_empty.
  - destruct e as [v n].
    rewrite (sum_entries_perm _ _ ((fun '(k0, (v0, n0)) => mkEntry k0 v0 (Some n0))
      <$> filter (fun kv => has_prefix p (fst kv) = true) ((k, (v, n)) :: map_to_list m))).
    2:{ apply fmap_Permutation, filter_Permutation. by apply map_to_list_insert. }
    rewrite filter_cons. cbn [fst]. case_decide as E.
    + rewrite map_filter_insert_True by done. rewrite msum_insert_None by
        (apply map_lookup_filter_None; by left). cbn. f_equal. exact IH.
    + rewrite map_filter_insert_not by done. exact IH.
Qed.

Section listing.
Context {S : Type} `{Kv : KvStore S}.

Lemma count_reserved_listed (s : S) i created n :
  count_reserved i created (kv_list s (row_prefix i created)) = Ok n ->
  n = row_count RReserved i created (kv_map s).
Proof.
  intros H. rewrite (count_reserved_sum _ _ _ _ H), (sum_entries_perm _ _ _ (kv_list_spec _ _)).
  apply (sum_entries_under _ _ (fun v => b2z (in_state RReserved i v))).
Qed.
End listing.

(** ** Stored rows read back *)


(** The identity fields of a stored row. *)
Lemma validIdentity_stored i s o r rest :
  validIdentity i (JObj (json_identity s o r ++ rest)%list) = true ->
  (forall v, assoc "repo" rest = Some v -> False) ->
  s = scope i /\ o = owner i /\ r = stored_repo i.
Proof.
  intros H Hrest. unfold validIdentity, json_identity, stored_repo in *.
  destruct i as [si oi ri]. cbn [scope owner repo] in *.
  assert (assoc "repo" rest = None) as Hnone by (destruct (assoc "repo" rest); [by destruct (Hrest _ eq_refl)|done]).
  destruct r as [r|]; cbn in H; repeat (apply andb_true_iff in H as [H ?]);
    destruct s, si; cbn in *; inv_ok; simplify_eq; try done; rewrite ?Hnone in *; cbn in *;
    repeat case_match; inv_ok; simplify_eq; cbn in *; inv_ok; simplify_eq; try done.
  all: destruct ri; cbn in *; inv_ok; simplify_eq; done.
Qed.

(** A window that reads back reads back as it was written. *)
Lemma window_readback w i w1 : normalizeKernelQuotaWindowV2 (json_window w) i = Some w1 -> w1 = w.
Proof.
  intros H. unfold normalizeKernelQuotaWindowV2 in H.
  destruct (isRecord (json_window w) && validIdentity i (json_window w)) eqn:Hid; [|done].
  apply andb_true_iff in Hid as [_ Hid]. cbn [guard] in H.
  apply validIdentity_stored in Hid as (Es & Eo & Er); [|by intros v].
  unfold json_window, json_identity in H. destruct w as [ws wo wr u re rs ap cr up].
  cbn [w_scope w_owner w_repo usage_requests reserved_requests usage_reset_at_ms applied_window_ms
    w_created_at_ms w_updated_at_ms] in *.
  unfold nonNegativeSafeInteger, positiveSafeInteger in H.
  destruct wr; cbn in H; change (is_undefined (jint re)) with false in H; cbv iota in H;
    repeat match type of H with context [safe_at_least ?m (jint ?z)] =>
      let E := fresh "E" in destruct (safe_at_least m (jint z)) eqn:E; cbn in H; [|done];
      apply safe_at_least_jint_inv in E; subst end; congruence.
Qed.

Lemma window_has_reserved w :
  isRecord (json_window w) && hasOwn (json_window w) "reserved_requests" = true.
Proof. unfold json_window, json_identity. by destruct (w_repo w). Qed.

(** A row that reads back reads back in the state it was written in. *)
Lemma row_readback r i st : in_state st i (json_row r) = true -> state r = st.
Proof.
  unfold in_state. destruct (normalizeKernelQuotaReservationRowV2 (json_row r) i) as [r1|] eqn:H; [|done].
  intros Hs%bool_decide_eq_true. rewrite <- Hs. clear Hs.
  unfold normalizeKernelQuotaReservationRowV2 in H.
  repeat match type of H with (?m ≫= _) = Some _ => destruct m eqn:?; cbn [mbind option_bind] in H; [|done] end.
  injection H as <-. cbn [state].
  match goal with E : reservation_state _ = Some _ |- _ => revert E end.
  unfold json_row, json_identity. destruct (r_repo r), (state r); cbn; by intros [= <-].
Qed.

(** ** Round trips *)

Definition time_ok (z : Z) : Prop := 0 <= z <= MAX_SAFE_INTEGER.

Definition opt_time_ok (o : option Z) : Prop := match o with Some z => time_ok z | None => True end.

Record row_wf (i : KernelQuotaIdentity) (r : KernelQuotaReservationRowV2) : Prop := {
  rw_scope : r_scope r = scope i;
  rw_owner : r_owner r = owner i;
  rw_repo : r_repo r = stored_repo i;
  rw_id : request_id r <> "";
  rw_route : route r <> "";
  rw_created : time_ok (window_created_at_ms r);
  rw_reset : window_created_at_ms r < window_reset_at_ms r <= MAX_SAFE_INTEGER;
  rw_reserved : time_ok (reserved_at_ms r);
  rw_lease : reserved_at_ms r < lease_expires_at_ms r <= MAX_SAFE_INTEGER;
  rw_committed : opt_time_ok (committed_at_ms r);
  rw_released : opt_time_ok (released_at_ms r);
  rw_state : consistent_state (state r) (terminal_intent r) (committed_at_ms r) (released_at_ms r)
               (release_reason r) = true }.

Record window_wf (i : KernelQuotaIdentity) (w : KernelQuotaWindowV2) : Prop := {
  ww_scope : w_scope w = scope i;
  ww_owner : w_owner w = owner i;
  ww_repo : w_repo w = stored_repo i;
  ww_usage : time_ok (usage_requests w);
  ww_reserved : time_ok (reserved_requests w);
  ww_reset : 0 < usage_reset_at_ms w <= MAX_SAFE_INTEGER;
  ww_applied : 0 < applied_window_ms w <= MAX_SAFE_INTEGER;
  ww_created : time_ok (w_created_at_ms w);
  ww_updated : time_ok (w_updated_at_ms w) }.

Lemma time_ok_read z : time_ok z -> nonNegativeSafeInteger (jint z) = Some z.
Proof.
  unfold time_ok, MAX_SAFE_INTEGER. intros H. apply safe_at_least_jint_ok; [|lia].
  apply isSafeInteger_spec. unfold MAX_SAFE_INTEGER. lia.
Qed.

Lemma positive_read z : 0 < z <= MAX_SAFE_INTEGER -> positiveSafeInteger (jint z) = Some z.
Proof.
  unfold MAX_SAFE_INTEGER. intros H. apply safe_at_least_jint_ok; [|lia].
  apply isSafeInteger_spec. unfold MAX_SAFE_INTEGER. lia.
Qed.

Lemma nullable_time_read o : opt_time_ok o -> nullable_time (json_or_null jint o) = Some o.
Proof.
  destruct o as [z|]; [|done]. intros H. unfold nullable_time. cbn [json_or_null].
  change (is_null (jint z)) with false. by rewrite (time_ok_read z H).
Qed.

Lemma nullable_text_read o : nullable_text (json_or_null JStr o) = Some o.
Proof. by destruct o. Qed.

Lemma intent_read o : intent_state (json_or_null json_intent o) = Some o.
Proof. by destruct o as [[]|]. Qed.

Lemma reservation_state_read st : reservation_state (json_state st) = Some st.
Proof. by destruct st. Qed.

Lemma nonempty_text_read s : s <> "" -> nonempty_text (JStr s) = Some s.
Proof. intros H. unfold nonempty_text, empty. by rewrite bool_decide_false. Qed.

Lemma validIdentity_read i rest :
  (forall v, assoc "repo" rest = Some v -> False) ->
  validIdentity i (JObj (json_identity (scope i) (owner i) (stored_repo i) ++ rest)%list) = true.
Proof.
  intros Hrest.
  assert (assoc "repo" rest = None) as Hnone by (destruct (assoc "repo" rest); [by destruct (Hrest _ eq_refl)|done]).
  destruct i as [si oi ri]. unfold validIdentity, json_identity, stored_repo. cbn [scope owner repo].
  destruct si; [destruct ri|]; cbn; rewrite ?Hnone; cbn; rewrite !bool_decide_true by done; done.
Qed.

Lemma row_roundtrip i r : row_wf i r -> normalizeKernelQuotaReservationRowV2 (json_row r) i = Some r.
Proof.
  intros [Es Eo Er Hid Hrt Hcr Hrs Hra Hle Hco Hre Hst]. destruct r as [s o rp id rt cr rs st ti ra le co re rn].
  cbn in *. subst s o rp. unfold normalizeKernelQuotaReservationRowV2.
  assert (guard (isRecord (json_row (mkRow (scope i) (owner i) (stored_repo i) id rt cr rs st ti ra le co re rn))
    && validIdentity i (json_row (mkRow (scope i) (owner i) (stored_repo i) id rt cr rs st ti ra le co re rn)))
    = Some tt) as ->.
  { unfold json_row. cbn [r_scope r_owner r_repo]. rewrite validIdentity_read by (by intros v). done. }
  assert (0 < rs <= MAX_SAFE_INTEGER) as Hrs' by (unfold time_ok in *; lia).
  assert (0 < le <= MAX_SAFE_INTEGER) as Hle' by (unfold time_ok in *; lia).
  unfold json_row, json_identity. cbn [r_scope r_owner r_repo].
  destruct (stored_repo i); cbn;
    rewrite (nonempty_text_read id Hid), (nonempty_text_read rt Hrt), (time_ok_read cr Hcr),
      (positive_read rs Hrs'); cbn;
    rewrite (reservation_state_read st), (intent_read ti), (time_ok_read ra Hra), (positive_read le Hle'),
      (nullable_time_read co Hco), (nullable_time_read re Hre), (nullable_text_read rn); cbn;
    rewrite Hst, (proj2 (Z.ltb_lt cr rs)), (proj2 (Z.ltb_lt ra le)) by lia; done.
Qed.

Lemma window_roundtrip i w : window_wf i w -> normalizeKernelQuotaWindowV2 (json_window w) i = Some w.
Proof.
  intros [Es Eo Er Hu Hre Hrs Hap Hcr Hup]. destruct w as [s o rp u re rs ap cr up].
  cbn in *. subst s o rp. unfold normalizeKernelQuotaWindowV2.
  assert (guard (isRecord (json_window (mkWindowV2 (scope i) (owner i) (stored_repo i) u re rs ap cr up))
    && validIdentity i (json_window (mkWindowV2 (scope i) (owner i) (stored_repo i) u re rs ap cr up)))
    = Some tt) as ->.
  { unfold json_window. cbn [w_scope w_owner w_repo]. rewrite validIdentity_read by (by intros v). done. }
  unfold json_window, json_identity. cbn [w_scope w_owner w_repo].
  destruct (stored_repo i); cbn; change (is_undefined (jint re)) with false; cbv iota;
    rewrite (time_ok_read u Hu), (time_ok_read re Hre), (positive_read rs Hrs), (positive_read ap Hap),
      (time_ok_read cr Hcr), (time_ok_read up Hup); done.
Qed.

(** ** What normalization establishes *)

Lemma nonempty_text_ok v s : nonempty_text v = Some s -> s <> "".
Proof.
  unfold nonempty_text, empty. destruct v as [| | | |x| |]; try done. case_bool_decide; [done|].
  by intros [= <-].
Qed.

Lemma time_read_ok v z : nonNegativeSafeInteger v = Some z -> time_ok z.
Proof. intros [Hs Hz]%safe_at_least_range. apply isSafeInteger_spec in Hs. unfold time_ok. lia. Qed.

Lemma positive_read_ok v z : positiveSafeInteger v = Some z -> 0 < z <= MAX_SAFE_INTEGER.
Proof. intros [Hs Hz]%safe_at_least_range. apply isSafeInteger_spec in Hs. lia. Qed.

Lemma nullable_time_ok v o : nullable_time v = Some o -> opt_time_ok o.
Proof.
  unfold nullable_time. destruct (is_null v); [by intros [= <-]|].
  destruct (nonNegativeSafeInteger v) eqn:E; [|done]. cbn. intros [= <-]. by eapply time_read_ok.
Qed.

Lemma guard_ok b u : guard b = Some u -> b = true.
Proof. by destruct b. Qed.

(** Opens a chain of option binds in a hypothesis. *)
Ltac open_option H :=
  repeat match type of H with (?m ≫= _) = Some _ =>
    let E := fresh "E" in destruct m eqn:E; cbn [mbind option_bind] in H; [|discriminate H] end.

Lemma row_normalized_wf i v r : normalizeKernelQuotaReservationRowV2 v i = Some r -> row_wf i r.
Proof.
  unfold normalizeKernelQuotaReservationRowV2. intros H. open_option H. injection H as <-.
  match goal with E : guard (_ && _ && _) = Some _ |- _ => apply guard_ok in E;
    rewrite !andb_true_iff, !Z.ltb_lt in E; destruct E as [[Ha Hb] Hc] end.
  constructor; cbn; eauto using nonempty_text_ok, time_read_ok, nullable_time_ok.
  - split; [done|]. eapply positive_read_ok; eauto.
  - split; [done|]. eapply positive_read_ok; eauto.
Qed.

Lemma window_normalized_wf i v w :
  normalizeKernelQuotaWindowV2 v i = Some w -> window_wf i w.
Proof.
  unfold normalizeKernelQuotaWindowV2. intros H.
  open_option H. injection H as <-.
  constructor; cbn; eauto using time_read_ok, positive_read_ok.
Qed.
