(* ===== verification/KernelSafety.v ===== *)
(** * The kernel quota under concurrency

    [quota_inv]: the aggregate of every scope counts its rows.  [evolves]: what
    one client may rely on and must guarantee about the store (versions only
    grow, rows change their reserved number only together with the window,
    [quota_inv] is kept).  Every adapter call is shown to evolve the store from
    the moment it started, whatever the other clients do meanwhile. *)

From stdpp Require Import base gmap strings list.
From Stdlib Require Import ZArith Lia.
From S2P Require Import Prelude Js KvStore KvLogic KernelQuota KernelStore KernelRows.
Open Scope string_scope.
Open Scope Z_scope.

(** ** Invariant and rely *)

Definition has_reserved (v : jsval) : bool := isRecord v && hasOwn v "reserved_requests".

Definition entry_of (m : KvMap) (i : KernelQuotaIdentity) : jsval := entry_value (entry_at m (window_key i)).

(** The current window of a scope counts its committed rows among its usage,
    ends after it began, and, when it carries the aggregate, its reserved
    number is the number of its reserved rows. *)
Definition scope_inv (m : KvMap) (i : KernelQuotaIdentity) (v : jsval) : Prop :=
  forall w, normalizeKernelQuotaWindowV2 v i = Some w ->
    w_created_at_ms w < usage_reset_at_ms w
    /\ row_count RCommitted i (w_created_at_ms w) m <= usage_requests w
    /\ (has_reserved v = true ->
        row_count RReserved i (w_created_at_ms w) m = reserved_requests w).

Definition quota_inv (m : KvMap) : Prop := forall i, canonical i -> scope_inv m i (entry_of m i).

Section evolves.
Context {S : Type} `{Kv : KvStore S}.
Local Notation at_ s k := (entry_at (kv_map s) k).

Record evolves (s s' : S) : Prop := {
  ev_advances : advances s s';
  ev_count i w : canonical i -> normalizeKernelQuotaWindowV2 (entry_of (kv_map s) i) i = Some w ->
    at_ s' (window_key i) = at_ s (window_key i) ->
    row_count RReserved i (w_created_at_ms w) (kv_map s')
    = row_count RReserved i (w_created_at_ms w) (kv_map s);
  ev_inv : quota_inv (kv_map s) -> quota_inv (kv_map s') }.

Lemma evolves_refl s : evolves s s.
Proof. constructor; auto using advances_refl. Qed.

Lemma window_present m i w :
  normalizeKernelQuotaWindowV2 (entry_of m i) i = Some w ->
  exists n, versionstamp (entry_at m (window_key i)) = Some n.
Proof. unfold entry_of, entry_at. destruct (m !! window_key i) as [[]|]; [|done]. cbn. eauto. Qed.

Lemma evolves_trans s1 s2 s3 : evolves s1 s2 -> evolves s2 s3 -> evolves s1 s3.
Proof.
  intros H12 H23. constructor.
  - eapply advances_trans; by apply ev_advances.
  - intros i w Hi Hw Heq. destruct (window_present _ _ _ Hw) as [n Hn].
    pose proof (unchanged_between _ _ _ _ _ (ev_advances _ _ H12) (ev_advances _ _ H23) Hn Heq) as E2.
    rewrite (ev_count _ _ H23 i w Hi); [by apply (ev_count _ _ H12)| |congruence].
    unfold entry_of in *. by rewrite E2.
  - intros Hinv. apply (ev_inv _ _ H23), (ev_inv _ _ H12), Hinv.
Qed.

#[export] Instance evolves_preorder : PreOrder evolves.
Proof. split; [exact evolves_refl|exact evolves_trans]. Qed.

Lemma commit_evolves cs ms s s' :
  kv_commit cs ms s = (true, s') ->
  (forall i w, canonical i -> normalizeKernelQuotaWindowV2 (entry_of (kv_map s) i) i = Some w ->
     at_ s' (window_key i) = at_ s (window_key i) ->
     row_count RReserved i (w_created_at_ms w) (kv_map s')
     = row_count RReserved i (w_created_at_ms w) (kv_map s)) ->
  (quota_inv (kv_map s) -> quota_inv (kv_map s')) -> evolves s s'.
Proof.
  intros Hc Hcount Hinv. constructor; try done. by eapply commit_advances.
Qed.

(** A checked entry that was read earlier still holds at the commit. *)
Lemma checked_entry cs ms s0 s s' k :
  evolves s0 s -> kv_commit cs ms s = (true, s') -> at_ s0 k ∈ cs -> at_ s k = at_ s0 k.
Proof.
  intros Hev. apply checked_unchanged. by apply ev_advances.
Qed.

(** ** Commits that leave rows and windows alone *)

Lemma other_keys_evolve cs ms s s' :
  kv_commit cs ms s = (true, s') ->
  Forall (fun mu => not_row (mutation_key mu) /\ not_window (mutation_key mu)) ms -> evolves s s'.
Proof.
  intros Hc Hms. destruct (kv_commit_ok _ _ _ _ Hc) as (_ & Hv & Hm).
  assert (forall st i c, row_count st i c (kv_map s') = row_count st i c (kv_map s)) as Hcount.
  { intros. rewrite Hm. apply row_count_mutations_out. eapply Forall_impl; [exact Hms|].
    intros mu [Hr _]. apply Hr. }
  assert (forall i, entry_of (kv_map s') i = entry_of (kv_map s) i) as Hent.
  { intros i. unfold entry_of, entry_at. rewrite Hm, apply_mutations_other; [done|].
    eapply Forall_impl; [exact Hms|]. intros mu [_ Hw]. apply Hw. }
  eapply commit_evolves; [done|auto|].
  intros Hinv i Hi. rewrite Hent. intros w Hw. rewrite !Hcount. by apply (Hinv i Hi).
Qed.

(** ** Commits within one scope *)

(** Keys whose change concerns scope [i] only. *)
Definition scoped (i : KernelQuotaIdentity) (k : KvKey) : Prop :=
  k = window_key i \/ (exists d id, k = row_key i d id) \/ (not_row k /\ not_window k).

Lemma scoped_other_rows i j c ms s s' cs st :
  kv_commit cs ms s = (true, s') -> canonical i -> canonical j -> j <> i ->
  Forall (fun mu => scoped i (mutation_key mu)) ms ->
  row_count st j c (kv_map s') = row_count st j c (kv_map s).
Proof.
  intros Hc Hi Hj Hne Hms. destruct (kv_commit_ok _ _ _ _ Hc) as (_ & _ & ->).
  apply row_count_mutations_out. eapply Forall_impl; [exact Hms|].
  intros mu [->|[(d & id & ->)|[Hr _]]]; [apply not_row_window| |apply Hr].
  apply row_key_prefix_ne; [done|done|]. by intros [-> _].
Qed.

Lemma scoped_other_window i j ms s s' cs :
  kv_commit cs ms s = (true, s') -> canonical i -> canonical j -> j <> i ->
  Forall (fun mu => scoped i (mutation_key mu)) ms ->
  entry_at (kv_map s') (window_key j) = entry_at (kv_map s) (window_key j).
Proof.
  intros Hc Hi Hj Hne Hms. destruct (kv_commit_ok _ _ _ _ Hc) as (_ & _ & Hm).
  unfold entry_at. rewrite Hm, apply_mutations_other; [done|]. eapply Forall_impl; [exact Hms|].
  intros mu [->|[(d & id & ->)|[_ Hw]]]; [|apply not_window_row|apply Hw].
  intros E. by destruct Hne; apply window_key_inj.
Qed.

(** What is left to show of a commit within scope [i]. *)
Lemma scoped_evolves i cs ms s s' :
  kv_commit cs ms s = (true, s') -> canonical i ->
  Forall (fun mu => scoped i (mutation_key mu)) ms ->
  (forall w, normalizeKernelQuotaWindowV2 (entry_of (kv_map s) i) i = Some w ->
     at_ s' (window_key i) = at_ s (window_key i) ->
     row_count RReserved i (w_created_at_ms w) (kv_map s')
     = row_count RReserved i (w_created_at_ms w) (kv_map s)) ->
  (quota_inv (kv_map s) -> scope_inv (kv_map s') i (entry_of (kv_map s') i)) -> evolves s s'.
Proof.
  intros Hc Hi Hms Hcount Hinv. eapply commit_evolves; [done| |].
  - intros j w Hj Hw Heq. destruct (decide (window_key j = window_key i)) as [E|E].
    + assert (j = i) as -> by (by apply window_key_inj). auto.
    + assert (j <> i) by (by intros ->). by apply (scoped_other_rows i j _ ms s s' cs).
  - intros Hq j Hj. destruct (decide (window_key j = window_key i)) as [E|E].
    + assert (j = i) as -> by (by apply window_key_inj). auto.
    + assert (j <> i) by (by intros ->). unfold entry_of, scope_inv.
      rewrite (scoped_other_window i j ms s s' cs) by done. intros w Hw.
      rewrite !(scoped_other_rows i j _ ms s s' cs) by done. by apply (Hq j Hj).
Qed.

Lemma scoped_window i : scoped i (window_key i).
Proof. by left. Qed.
Lemma scoped_row i d id : scoped i (row_key i d id).
Proof. right. left. eauto. Qed.
Lemma scoped_policy i : scoped i (policy_key i).
Proof. right. right. auto with gateway. Qed.
Hint Resolve scoped_window scoped_row scoped_policy : gateway.

Lemma entry_of_set m i v n : entry_of (<[window_key i := (v, n)]> m) i = v.
Proof. unfold entry_of, entry_at. by rewrite lookup_insert_eq. Qed.

Lemma entry_of_row m i j d id e : entry_of (<[row_key j d id := e]> m) i = entry_of m i.
Proof.
  unfold entry_of, entry_at. rewrite lookup_insert_ne; [done|].
  apply not_window_row.
Qed.

Lemma row_under i d id : canonical i -> has_prefix (row_prefix i d) (row_key i d id) = true.
Proof. intros Hi. by apply row_key_prefix. Qed.

(** The number of rows after one row was rewritten. *)
Lemma row_count_row st i d id v n m :
  canonical i ->
  row_count st i d (<[row_key i d id := (v, n)]> m)
  = row_count st i d m - weight st i m (row_key i d id) + b2z (in_state st i v).
Proof. intros Hi. apply row_count_set_in. by apply row_under. Qed.

Lemma row_count_window st i d j e m : row_count st i d (<[window_key j := e]> m) = row_count st i d m.
Proof. destruct e. apply row_count_set_out, not_row_window. Qed.

Lemma weight_window st i m j e k : not_window k -> weight st i (<[window_key j := e]> m) k = weight st i m k.
Proof. intros Hk. unfold weight. rewrite lookup_insert_ne; [done|]. apply not_eq_sym, Hk. Qed.

(** A row that keeps its state, or belongs to another window. *)
Lemma row_only_evolves i d id v e cs s s' :
  kv_commit cs [MSet (row_key i d id) v e] s = (true, s') -> canonical i ->
  (forall w st, normalizeKernelQuotaWindowV2 (entry_of (kv_map s) i) i = Some w ->
     w_created_at_ms w = d -> st = RReserved \/ st = RCommitted ->
     b2z (in_state st i v) = weight st i (kv_map s) (row_key i d id)) ->
  evolves s s'.
Proof.
  intros Hc Hi Hsame. destruct (kv_commit_ok _ _ _ _ Hc) as (_ & _ & Hm). cbn in Hm.
  assert (forall w st, normalizeKernelQuotaWindowV2 (entry_of (kv_map s) i) i = Some w ->
    st = RReserved \/ st = RCommitted ->
    row_count st i (w_created_at_ms w) (kv_map s') = row_count st i (w_created_at_ms w) (kv_map s)) as Hcount.
  { intros w st Hw Hst. rewrite Hm. destruct (decide (w_created_at_ms w = d)) as [Ed|Ed].
    - rewrite Ed, row_count_row by done. rewrite <- (Hsame w st) by done. lia.
    - apply row_count_set_out, row_key_prefix_ne; [done|done|]. by intros [_ ?]. }
  eapply scoped_evolves; [done|done| | |].
  - apply Forall_singleton. cbn. auto with gateway.
  - intros w Hw _. auto.
  - intros Hinv. rewrite Hm, entry_of_row, <- Hm. intros w Hw. rewrite !Hcount by auto.
    by apply (Hinv i Hi).
Qed.

(** The window is rewritten, and with it possibly one of its rows. *)
Lemma window_changes cs ms s s' i v n :
  kv_commit cs ms s = (true, s') -> kv_map s' !! window_key i = Some (v, n) -> n = kv_version s' ->
  at_ s' (window_key i) <> at_ s (window_key i).
Proof.
  intros Hc Hl Hn. destruct (kv_commit_ok _ _ _ _ Hc) as (_ & Hv & _). intros E.
  assert (versionstamp (at_ s (window_key i)) = Some n) as Hs
    by (rewrite <- E; unfold entry_at; by rewrite Hl).
  apply versionstamp_bound in Hs. lia.
Qed.

Lemma window_row_evolves i id w r e1 e2 cs s s' :
  kv_commit cs [MSet (window_key i) (json_window w) e1;
                MSet (row_key i (w_created_at_ms w) id) (json_row r) e2] s = (true, s') ->
  canonical i ->
  (quota_inv (kv_map s) -> window_wf i w ->
     let d := w_created_at_ms w in
     let moved st := row_count st i d (kv_map s) - weight st i (kv_map s) (row_key i d id)
                     + b2z (in_state st i (json_row r)) in
     d < usage_reset_at_ms w /\ moved RCommitted <= usage_requests w
     /\ moved RReserved = reserved_requests w) ->
  evolves s s'.
Proof.
  intros Hc Hi Hw. destruct (kv_commit_ok _ _ _ _ Hc) as (_ & _ & Hm). cbn in Hm.
  eapply scoped_evolves; [done|done| | |].
  - apply Forall_cons. split; [|apply Forall_singleton]; cbn; auto with gateway.
  - intros w0 _ E. exfalso. revert E. eapply window_changes; [done| |done].
    rewrite Hm, lookup_insert_ne by apply not_window_row. apply lookup_insert_eq.
  - intros Hinv. rewrite Hm, entry_of_row, entry_of_set.
    intros w1 Hw1. pose proof (window_readback _ _ _ Hw1) as ->.
    destruct (Hw Hinv (window_normalized_wf _ _ _ Hw1)) as (H1 & H2 & H3). rewrite !row_count_row by done.
    rewrite !weight_window by apply not_window_row. rewrite !row_count_window. auto.
Qed.

Lemma window_only_evolves i mu w e cs s s' :
  kv_commit cs [mu; MSet (window_key i) (json_window w) e] s = (true, s') -> canonical i ->
  mutation_key mu = policy_key i ->
  (quota_inv (kv_map s) -> window_wf i w ->
     w_created_at_ms w < usage_reset_at_ms w
     /\ row_count RCommitted i (w_created_at_ms w) (kv_map s) <= usage_requests w
     /\ row_count RReserved i (w_created_at_ms w) (kv_map s) = reserved_requests w) ->
  evolves s s'.
Proof.
  intros Hc Hi Hmu Hw. destruct (kv_commit_ok _ _ _ _ Hc) as (_ & _ & Hm). cbn in Hm.
  eapply scoped_evolves; [done|done| | |].
  - apply Forall_cons. split; [rewrite Hmu|apply Forall_singleton; cbn]; auto with gateway.
  - intros w0 _ E. exfalso. revert E. eapply window_changes; [done| |done].
    rewrite Hm. apply lookup_insert_eq.
  - intros Hinv. rewrite Hm, entry_of_set.
    intros w1 Hw1. pose proof (window_readback _ _ _ Hw1) as ->.
    destruct (Hw Hinv (window_normalized_wf _ _ _ Hw1)) as (H1 & H2 & H3). rewrite !row_count_window.
    assert (forall st c, row_count st i c (apply_mutation (kv_version s') (kv_map s) mu)
                         = row_count st i c (kv_map s)) as Hout.
    { intros. apply (row_count_mutations_out st i c (kv_version s') [mu]).
      repeat constructor. rewrite Hmu. apply not_row_policy. }
    rewrite !Hout. auto.
Qed.
End evolves.

#[export] Hint Resolve evolves_refl evolves_trans : gateway.
