(* ===== verification/KernelGuarantee.v ===== *)
(** * What the kernel quota adapters guarantee

    The guarantee of every adapter call: from the store it started on to the
    store it leaves, the store [evolves]. *)

From stdpp Require Import base gmap strings list.
From Stdlib Require Import ZArith Lia.
From S2P Require Import Prelude Js KvStore KvLogic KernelQuota KernelStore KernelRows KernelSafety.
Open Scope string_scope.
Open Scope Z_scope.

Section guarantee.
Context {S : Type} `{Kv : KvStore S}.
Context (others : Clients S) (clock : nat -> Z).
(** The other clients are adapters too. *)
Context `{Hothers : !RelyOn evolves others}.
Local Notation at_ s k := (entry_at (kv_map s) k).

Local Notation guarantees := (guarantees evolves).

Lemma guarantees_retries {A} tries (m : KvM S (option A)) e :
  guarantees m -> guarantees (with_retries tries m e).
Proof.
  intros Hm. induction tries as [|tries IH]; cbn; [apply guarantees_throw|].
  apply guarantees_bind; [apply guarantees_catch; auto with gateway|].
  intros [a|]; auto with gateway.
Qed.

(** A commit to keys that are neither rows nor windows. *)
Lemma guarantees_commit_other cs ms :
  Forall (fun mu => not_row (mutation_key mu) /\ not_window (mutation_key mu)) ms ->
  guarantees (commit others cs ms).
Proof.
  intros Hms s. apply triple_commit; [|done]. intros s1 s2 H1 Hc.
  eapply evolves_trans; [done|]. by eapply other_keys_evolve.
Qed.

Hint Resolve guarantees_retries : gateway.

(** ** Reconciled windows *)

(** [w] is the window the entry holds, with the reserved number it carries
    or, when it carries none, the number counted at [s1]. *)
Definition reconciled (v : jsval) (i : KernelQuotaIdentity) (w : KernelQuotaWindowV2) (s1 : S) : Prop :=
  exists w0, normalizeKernelQuotaWindowV2 v i = Some w0
    /\ w = w0 <| reserved_requests := reserved_requests w |>
    /\ if has_reserved v then reserved_requests w = reserved_requests w0
       else reserved_requests w = row_count RReserved i (w_created_at_ms w0) (kv_map s1).

Lemma reconcile_spec e i s (Q : Result string (option KernelQuotaWindowV2) -> S -> Prop) :
  canonical i ->
  (forall s1 w, evolves s s1 -> reconciled (entry_value e) i w s1 -> Q (Ok (Some w)) s1) ->
  (normalizeKernelQuotaWindowV2 (entry_value e) i = None -> Q (Ok None) s) ->
  (forall s1 msg, evolves s s1 -> Q (Err msg) s1) ->
  triple (reconcileKernelQuotaWindowReservations others e i) s Q.
Proof.
  intros Hi Hsome Hnone Herr. unfold reconcileKernelQuotaWindowReservations.
  destruct (normalizeKernelQuotaWindowV2 (entry_value e) i) as [w0|] eqn:Hw; [|by apply triple_ret; auto].
  fold (has_reserved (entry_value e)). destruct (has_reserved (entry_value e)) eqn:Hr.
  - apply triple_ret, Hsome; [apply evolves_refl|]. exists w0. rewrite Hr. by destruct w0.
  - apply triple_bind, triple_lift. rewrite (kernelReservationWindowPrefix_canonical i Hi).
    apply triple_bind, triple_list. intros s1 H1. apply triple_bind, triple_lift.
    destruct (count_reserved _ _ _) as [msg|n] eqn:Hn; [by apply Herr|].
    apply triple_ret, Hsome; [done|]. exists w0. rewrite Hr. cbn.
    apply count_reserved_listed in Hn. by destruct w0.
Qed.

Lemma guarantees_reconcile e i :
  canonical i -> guarantees (reconcileKernelQuotaWindowReservations others e i).
Proof. intros Hi s. apply reconcile_spec; auto using evolves_refl. Qed.

Lemma reconcile_result e i s :
  canonical i ->
  triple (reconcileKernelQuotaWindowReservations others e i) s (fun r s1 => evolves s s1
    /\ forall ow, r = Ok ow ->
         match ow with
         | Some w => reconciled (entry_value e) i w s1
         | None => normalizeKernelQuotaWindowV2 (entry_value e) i = None
         end).
Proof.
  intros Hi. apply reconcile_spec; [done|..].
  - intros s1 w H1 Hr. split; [done|]. by intros ow [= <-].
  - intros Hn. split; [apply evolves_refl|]. by intros ow [= <-].
  - intros s1 m H1. by split.
Qed.

(** A reconciled window is exact at the commit that checked its entry. *)
Lemma reconciled_exact i w s0 s1 s2 :
  canonical i -> evolves s0 s1 -> evolves s1 s2 -> at_ s2 (window_key i) = at_ s0 (window_key i) ->
  quota_inv (kv_map s2) -> reconciled (entry_of (kv_map s0) i) i w s1 ->
  w_created_at_ms w < usage_reset_at_ms w
  /\ row_count RCommitted i (w_created_at_ms w) (kv_map s2) <= usage_requests w
  /\ row_count RReserved i (w_created_at_ms w) (kv_map s2) = reserved_requests w.
Proof.
  intros Hi H01 H12 Heq Hinv (w0 & Hw0 & Ew & Hres).
  assert (entry_of (kv_map s2) i = entry_of (kv_map s0) i) as E20 by (unfold entry_of; by rewrite Heq).
  assert (normalizeKernelQuotaWindowV2 (entry_of (kv_map s2) i) i = Some w0) as Hw2 by by rewrite E20.
  destruct (Hinv i Hi w0 Hw2) as (Hlt & Hcom & Hr).
  rewrite Ew. cbn. split; [done|]. split; [done|].
  destruct (has_reserved (entry_of (kv_map s0) i)) eqn:Hh.
  - rewrite Hres. apply Hr. by rewrite E20.
  - rewrite Hres. destruct (window_present _ _ _ Hw0) as [n Hn].
    pose proof (unchanged_between _ _ _ _ _ (ev_advances _ _ H01) (ev_advances _ _ H12) Hn Heq) as E10.
    apply (ev_count _ _ H12); [done| |congruence]. unfold entry_of in *. by rewrite E10.
Qed.

(** ** Settlement *)

Lemma precondition_none r id rt created t :
  kernelReservationPrecondition r id rt created t = None ->
  state r = RReserved /\ window_created_at_ms r = created /\ request_id r = id /\ route r = rt
  /\ (terminal_intent r = None \/ terminal_intent r = Some t).
Proof.
  unfold kernelReservationPrecondition, kernelReservationMatchesRequest. cbn.
  destruct (bool_decide (request_id r = id)) eqn:E1; cbn; [|done].
  destruct (bool_decide (route r = rt)) eqn:E2; cbn; [|done].
  destruct (Z.eqb_spec (window_created_at_ms r) created); [|done]. inv_ok.
  case_bool_decide; [|done]. cbn. destruct (terminal_intent r); [|by intros _; auto 10].
  case_bool_decide; naive_solver.
Qed.

Lemma settled_row_state r t reason nowMs :
  state (settledKernelReservationRow r t reason nowMs) = state_of t.
Proof. by destruct t. Qed.

Lemma in_state_readback st i r : b2z (in_state st i (json_row r)) <= b2z (bool_decide (state r = st)).
Proof.
  destruct (in_state st i (json_row r)) eqn:E; [|apply b2z_nonneg].
  apply row_readback in E. by rewrite bool_decide_true.
Qed.

(** The weight of a stored row. *)
Lemma weight_row st i s k r :
  normalizeKernelQuotaReservationRowV2 (entry_value (at_ s k)) i = Some r ->
  weight st i (kv_map s) k = b2z (bool_decide (state r = st)).
Proof.
  unfold weight, entry_at, in_state. destruct (kv_map s !! k) as [[v n]|]; [|done].
  cbn. by intros ->.
Qed.

(** The settlement plan when it moves the window. *)
Lemma settlement_window r w present t reason nowMs r' w' e :
  decideKernelQuotaSettlement r (Some w) present t reason nowMs = Settle r' (Some w') e ->
  w_created_at_ms w = window_created_at_ms r /\ 1 <= reserved_requests w
  /\ r' = settledKernelReservationRow r t reason nowMs
  /\ w_created_at_ms w' = w_created_at_ms w /\ usage_reset_at_ms w' = usage_reset_at_ms w
  /\ usage_requests w' = usage_requests w + b2z (bool_decide (t = TCommitted))
  /\ reserved_requests w' = reserved_requests w - 1.
Proof.
  unfold decideKernelQuotaSettlement. rewrite bool_decide_false, andb_false_r by done.
  destruct (Z.eqb_spec (w_created_at_ms w) (window_created_at_ms r)); cbn; [|done].
  destruct (Z.ltb_spec (reserved_requests w) 1); [done|].
  intros [= <- <- <-]. cbn. split_and!; try done; lia.
Qed.

(** The settlement plan when it leaves the window alone. *)
Lemma settlement_row r w present t reason nowMs r' e :
  decideKernelQuotaSettlement r w present t reason nowMs = Settle r' None e ->
  r' = settledKernelReservationRow r t reason nowMs
  /\ forall w0, w = Some w0 -> w_created_at_ms w0 <> window_created_at_ms r.
Proof.
  unfold decideKernelQuotaSettlement. destruct w as [w|].
  - rewrite bool_decide_false, andb_false_r by done.
    destruct (Z.eqb_spec (w_created_at_ms w) (window_created_at_ms r)); cbn; [by case_match|].
    intros [= <- <-]. split; [done|]. intros w0 [= <-]. done.
  - case_match; [done|]. intros [= <- <-]. done.
Qed.

Lemma reconciled_created v i w s1 w0 :
  reconciled v i w s1 -> normalizeKernelQuotaWindowV2 v i = Some w0 ->
  w_created_at_ms w = w_created_at_ms w0.
Proof. intros (w1 & Hw1 & -> & _) Hw. cbn. congruence. Qed.

(** Settling a row of the current window: one reserved row less, and one
    committed row more when it commits. *)
Lemma settle_window_evolves i id r w w' s1 s2 s3 s4 s5 t reason nowMs present r' e e1 e2 cs :
  canonical i -> evolves s1 s2 -> evolves s2 s3 -> evolves s3 s4 ->
  at_ s1 (window_key i) ∈ cs -> at_ s2 (row_key i (window_created_at_ms r) id) ∈ cs ->
  normalizeKernelQuotaReservationRowV2
    (entry_value (at_ s2 (row_key i (window_created_at_ms r) id))) i = Some r ->
  state r = RReserved -> reconciled (entry_of (kv_map s1) i) i w s3 ->
  decideKernelQuotaSettlement r (Some w) present t reason nowMs = Settle r' (Some w') e ->
  kv_commit cs [MSet (window_key i) (json_window w') e1;
                MSet (row_key i (window_created_at_ms r) id) (json_row r') e2] s4 = (true, s5) ->
  evolves s4 s5.
Proof.
  intros Hi H12 H23 H34 Hcw Hcr Hr Hst Hrec Hplan Hc.
  pose proof (settlement_window _ _ _ _ _ _ _ _ _ Hplan) as (Ecr & Hres & Er' & Ecw & Ers & Eu & Erq).
  assert (evolves s1 s4) as H14 by eauto using evolves_trans.
  assert (evolves s2 s4) as H24 by eauto using evolves_trans.
  pose proof (checked_entry _ _ _ _ _ _ H14 Hc Hcw) as Ew4.
  pose proof (checked_entry _ _ _ _ _ _ H24 Hc Hcr) as Er4.
  rewrite <- Ecr, <- Ecw in Hc, Er4, Hr.
  eapply window_row_evolves; [exact Hc|done|]. intros Hinv _. cbv beta zeta.
  assert (evolves s1 s3) as H13 by eauto using evolves_trans.
  destruct (reconciled_exact i w s1 s3 s4 Hi H13 H34 Ew4 Hinv Hrec) as (H1 & H2 & H3).
  rewrite <- Er4 in Hr. rewrite !(weight_row _ _ _ _ _ Hr), Hst, Ecw.
  pose proof (in_state_readback RCommitted i r') as Hc1.
  pose proof (in_state_readback RReserved i r') as Hc2. pose proof (b2z_nonneg (in_state RReserved i (json_row r'))).
  rewrite Er', settled_row_state in Hc1, Hc2.
  assert (b2z (bool_decide (state_of t = RReserved)) = 0) as E0 by by destruct t.
  assert (b2z (bool_decide (state_of t = RCommitted)) = b2z (bool_decide (t = TCommitted))) as E1 by by destruct t.
  rewrite <- Er' in Hc1, Hc2. cbn [bool_decide]. rewrite Eu, Erq, Ers.
  rewrite !(bool_decide_false (RReserved = RCommitted)), !(bool_decide_true (RReserved = RReserved)) by done.
  cbn [b2z]. split_and!; lia.
Qed.

(** Settling a row of another window, or with no window left. *)
Lemma settle_row_evolves i id r ow s1 s4 s5 t reason nowMs present r' e e2 cs :
  canonical i -> evolves s1 s4 ->
  at_ s1 (window_key i) ∈ cs ->
  (forall w, normalizeKernelQuotaWindowV2 (entry_of (kv_map s1) i) i = Some w ->
     exists w1, ow = Some w1 /\ w_created_at_ms w1 = w_created_at_ms w) ->
  decideKernelQuotaSettlement r ow present t reason nowMs = Settle r' None e ->
  kv_commit cs [MSet (row_key i (window_created_at_ms r) id) (json_row r') e2] s4 = (true, s5) ->
  evolves s4 s5.
Proof.
  intros Hi H14 Hcw How Hplan Hc.
  pose proof (settlement_row _ _ _ _ _ _ _ _ Hplan) as [_ Hne].
  pose proof (checked_entry _ _ _ _ _ _ H14 Hc Hcw) as Ew4.
  eapply row_only_evolves; [exact Hc|done|]. intros w st Hw Ed _.
  unfold entry_of in Hw. rewrite Ew4 in Hw. destruct (How w Hw) as (w1 & E & Ecr).
  destruct (Hne w1 E). congruence.
Qed.

Lemma guarantees_settle_unlocked i t reason nowMs :
  canonical (res_identity i) ->
  guarantees (settleKernelReservationUnlocked others i t reason nowMs).
Proof.
  intros Hi s. unfold settleKernelReservationUnlocked.
  apply triple_bind, triple_lift. rewrite (kernelScopedWindowKey_canonical _ Hi).
  apply triple_bind, triple_lift. rewrite (kernelReservationKey_canonical _ Hi).
  apply triple_bind, triple_get. intros s1 H1. apply triple_bind, triple_get. intros s2 H2.
  assert (evolves s s2) as H02 by eauto using evolves_trans.
  destruct (normalizeKernelQuotaReservationRowV2 _ _) as [r|] eqn:Hr; [|by apply triple_ret].
  destruct (kernelReservationPrecondition _ _ _ _ _) as [o|] eqn:Hp; [by apply triple_ret|].
  apply precondition_none in Hp as (Hst & Ecr & _).
  apply triple_bind, reconcile_spec; [done| | |].
  - intros s3 w H3 Hrec. destruct (decideKernelQuotaSettlement _ _ _ _ _ _) as [o|r' w' e] eqn:Hplan;
      [apply triple_ret; eauto using evolves_trans|].
    apply triple_bind, triple_commit; intros s4; [intros s5 H4 Hc|intros H4];
      apply triple_ret; [|eauto using evolves_trans].
    assert (evolves s s4) as H04 by eauto using evolves_trans. eapply evolves_trans; [exact H04|].
    rewrite <- Ecr in *. destruct w' as [w'|]; cbn [app] in Hc.
    + eapply (settle_window_evolves (res_identity i) (requestId i) r w w' s1 s2 s3 s4); eauto; set_solver.
    + eapply (settle_row_evolves (res_identity i) (requestId i) r (Some w) s1 s4);
        eauto using evolves_trans; [set_solver|].
      intros w0 Hw0. exists w. split; [done|]. by eapply reconciled_created.
  - intros Hnone. destruct (decideKernelQuotaSettlement _ _ _ _ _ _) as [o|r' w' e] eqn:Hplan;
      [by apply triple_ret|].
    apply triple_bind, triple_commit; intros s4; [intros s5 H4 Hc|intros H4];
      apply triple_ret; [|eauto using evolves_trans].
    assert (evolves s s4) as H04 by eauto using evolves_trans. eapply evolves_trans; [exact H04|].
    assert (w' = None) as ->.
    { unfold decideKernelQuotaSettlement in Hplan.
      destruct (_ && bool_decide _) in Hplan; [discriminate Hplan|]. by injection Hplan as _ <- _. }
    cbn [app] in Hc. rewrite <- Ecr in *.
    eapply (settle_row_evolves (res_identity i) (requestId i) r None s1 s4);
      eauto using evolves_trans, evolves_refl; [set_solver|].
    intros w0 Hw0. unfold entry_of in Hw0. congruence.
  - intros s3 msg H3. eauto using evolves_trans.
Qed.

Lemma guarantees_settle i t reason :
  canonical (res_identity i) -> guarantees (settleKernelReservation others clock i t reason).
Proof.
  intros Hi. unfold settleKernelReservation. apply guarantees_retries.
  apply guarantees_bind; [apply guarantees_now|]. intros nowMs.
  apply guarantees_bind; [by apply guarantees_settle_unlocked|].
  intros []; auto with gateway.
Qed.

(** ** Reclaiming *)

Lemma guarantees_settle_expired tries i w r t nowMs :
  canonical i -> guarantees (settleExpiredKernelReservation others tries i w r t nowMs).
Proof.
  intros Hi. induction tries as [|tries IH]; cbn; [apply guarantees_ret|].
  apply guarantees_bind; [by apply guarantees_settle_unlocked|].
  intros []; auto with gateway.
Qed.

Lemma guarantees_reclaim_listed i w nowMs saw es :
  canonical i -> guarantees (reclaim_listed others i w nowMs saw es).
Proof.
  intros Hi. revert saw. induction es as [|e es IH]; intros saw; cbn [reclaim_listed].
  - destruct saw; auto with gateway.
  - apply guarantees_bind; [apply guarantees_lift|]. intros r.
    destruct (decideKernelQuotaReclaim r nowMs); [|apply IH].
    apply guarantees_bind; [by apply guarantees_settle_expired|].
    intros []; auto with gateway.
Qed.

Lemma guarantees_reclaim i w nowMs :
  canonical i -> guarantees (reclaimExpiredKernelReservationUnlocked others i w nowMs).
Proof.
  intros Hi. apply guarantees_bind; [apply guarantees_lift|]. intros p.
  apply guarantees_bind; [apply guarantees_list|]. intros es. by apply guarantees_reclaim_listed.
Qed.

(** ** Lease updates *)

(** The clock makes a new lease well formed: it ends after the reservation
    began and within the safe integers. *)
Definition lease_ok (nowMs : Z) (m : KvMap) : Prop :=
  nowMs + KERNEL_QUOTA_RESERVATION_LEASE_MS <= MAX_SAFE_INTEGER
  /\ forall k i r, normalizeKernelQuotaReservationRowV2 (entry_value (entry_at m k)) i = Some r ->
       reserved_at_ms r < nowMs + KERNEL_QUOTA_RESERVATION_LEASE_MS.

(** At most one commit, at a store [sc] that evolved from the start; if the
    clock is sane there, that commit evolves the store too. *)
Definition one_commit (ok : S -> Prop) (s s' : S) : Prop :=
  exists sc, evolves s sc /\ (s' = sc \/ (ok sc -> evolves sc s')).

Lemma one_commit_none ok s s' : evolves s s' -> one_commit ok s s'.
Proof. intros H. exists s'. auto. Qed.

Lemma one_commit_after ok s s1 s' : evolves s s1 -> one_commit ok s1 s' -> one_commit ok s s'.
Proof. intros H (sc & Hsc & Hor). exists sc. eauto using evolves_trans. Qed.

(** A reserved row with a new lease and any intent. *)
Lemma lease_update_evolves i d id r t lease s2 s4 s5 e cs :
  canonical i -> evolves s2 s4 -> at_ s2 (row_key i d id) ∈ cs ->
  normalizeKernelQuotaReservationRowV2 (entry_value (at_ s2 (row_key i d id))) i = Some r ->
  state r = RReserved -> reserved_at_ms r < lease <= MAX_SAFE_INTEGER ->
  kv_commit cs [MSet (row_key i d id)
    (json_row (r <| terminal_intent := t |> <| lease_expires_at_ms := lease |>)) e] s4 = (true, s5) ->
  evolves s4 s5.
Proof.
  intros Hi H24 Hcr Hr Hst Hlease Hc.
  pose proof (checked_entry _ _ _ _ _ _ H24 Hc Hcr) as Er4.
  eapply row_only_evolves; [exact Hc|done|]. intros w st _ _ _.
  rewrite <- Er4 in Hr. rewrite (weight_row _ _ _ _ _ Hr). f_equal.
  assert (row_wf i (r <| terminal_intent := t |> <| lease_expires_at_ms := lease |>)) as Hwf.
  { destruct (row_normalized_wf _ _ _ Hr) as [? ? ? ? ? ? ? ? ? ? ? Hcons].
    constructor; cbn; try done. rewrite Hst in *. exact Hcons. }
  unfold in_state. by rewrite (row_roundtrip i _ Hwf).
Qed.

Lemma intent_one_commit i t nowMs s :
  canonical (res_identity i) ->
  triple (recordKernelReservationTerminalIntentUnlocked others i t nowMs) s
    (fun _ s' => one_commit (fun sc => lease_ok nowMs (kv_map sc)) s s').
Proof.
  intros Hi. unfold recordKernelReservationTerminalIntentUnlocked.
  apply triple_bind, triple_lift. rewrite (kernelReservationKey_canonical _ Hi).
  apply triple_bind, triple_get. intros s1 H1. unfold decideKernelQuotaTerminalIntent. cbn [value kernelQuotaRead].
  destruct (normalizeKernelQuotaReservationRowV2 _ _) as [r|] eqn:Hr; [|by apply triple_ret, one_commit_none].
  destruct (kernelReservationPrecondition _ _ _ _ _) as [o|] eqn:Hp; [by apply triple_ret, one_commit_none|].
  apply precondition_none in Hp as (Hst & Ecr & _).
  apply triple_bind, triple_commit; [intros s4 s5 H4 Hc|intros s4 H4]; apply triple_ret.
  - exists s4. split; [eauto using evolves_trans|]. right. intros [Hmax Hrows].
    eapply lease_update_evolves; [done|exact H4| |exact Hr|done| |exact Hc]; [set_solver|].
    split; [|done]. eapply Hrows.
    rewrite (checked_entry _ _ _ _ _ (row_key (res_identity i) (windowCreatedAtMs i) (requestId i)) H4 Hc);
      [exact Hr|set_solver].
  - apply one_commit_none. eauto using evolves_trans.
Qed.

(** ** Policies and the cutover marker *)

Lemma guarantees_load_defaults : guarantees (loadDefaults others).
Proof. unfold loadDefaults. auto 10 with gateway. Qed.

Lemma guarantees_org_entry i key : guarantees (org_entry others i key).
Proof. unfold org_entry. destruct (scope i); auto 10 with gateway. Qed.

Lemma guarantees_release e : guarantees (releaseKernelDefaultWindowCutover others e).
Proof.
  unfold releaseKernelDefaultWindowCutover. apply guarantees_catch; [|auto with gateway].
  apply guarantees_bind; [|auto with gateway]. apply guarantees_commit_other.
  apply Forall_singleton. cbn. auto with gateway.
Qed.

Lemma guarantees_live_reservations tries i :
  canonical i -> guarantees (kernelWindowHasLiveReservations others clock tries i).
Proof.
  intros Hi. induction tries as [|tries IH]; cbn [kernelWindowHasLiveReservations]; [apply guarantees_throw|].
  apply guarantees_bind; [apply guarantees_lift|]. intros key.
  apply guarantees_bind; [apply guarantees_now|]. intros nowMs.
  apply guarantees_bind; [apply guarantees_get|]. intros we.
  apply guarantees_bind; [by apply guarantees_reconcile|]. intros [w|].
  - destruct (negb _); [apply guarantees_ret|].
    apply guarantees_bind; [by apply guarantees_reclaim|]. intros []; auto with gateway.
  - destruct (is_null _); auto with gateway.
Qed.

Lemma window_target_canonical sc key prefix o r :
  kernelWindowScopeTarget sc key prefix = Ok (o, r) -> canonical (mkIdentity sc o r).
Proof. unfold kernelWindowScopeTarget, canonical. destruct sc; cbn; intros H; inv_ok; eauto. Qed.

Lemma guarantees_live_default sc prefix es :
  guarantees (live_default_backed others clock sc prefix es).
Proof.
  induction es as [|e es IH]; cbn [live_default_backed]; [apply guarantees_ret|]. intros s.
  apply triple_bind, triple_lift. destruct (kernelWindowScopeTarget _ _ _) as [m|[o r]] eqn:E; [apply evolves_refl|].
  apply window_target_canonical in E. revert s.
  match goal with |- forall s, triple ?m s _ => change (guarantees m) end.
  apply guarantees_bind.
  { unfold kernelScopeHasPolicy. apply guarantees_bind; [auto with gateway|]. intros k.
    apply guarantees_bind; [auto with gateway|]. intros en. repeat case_match; auto with gateway. }
  intros b. apply guarantees_bind; [destruct b; [auto with gateway|by apply guarantees_live_reservations]|].
  intros []; auto with gateway.
Qed.

Lemma guarantees_cutover le we uuid : guarantees (acquireKernelDefaultWindowCutover others clock le we uuid).
Proof.
  unfold acquireKernelDefaultWindowCutover. apply guarantees_bind.
  - apply guarantees_catch; [|auto with gateway]. unfold acquire_marker.
    apply guarantees_bind; [auto with gateway|]. intros me.
    apply guarantees_bind; [auto with gateway|]. intros nowMs.
    destruct (decideKernelDefaultWindowCutover _ _ _); [auto with gateway|].
    apply guarantees_bind.
    { apply guarantees_commit_other, Forall_singleton. cbn. auto with gateway. }
    intros ok. destruct (negb ok); [auto with gateway|].
    apply guarantees_bind; [auto with gateway|]. intros ae. destruct (negb _); auto with gateway.
  - intros [|guard_entry]; [auto with gateway|]. apply guarantees_catch.
    + apply guarantees_bind.
      { unfold hasLiveDefaultBackedKernelReservations.
        apply guarantees_bind; [auto with gateway|]. intros es.
        apply guarantees_bind; [apply guarantees_live_default|]. intros []; [auto with gateway|].
        apply guarantees_bind; [auto with gateway|]. intros es'. apply guarantees_live_default. }
      intros []; [|auto with gateway]. apply guarantees_bind; [apply guarantees_release|auto with gateway].
    + intros e. apply guarantees_bind; [apply guarantees_release|auto with gateway].
Qed.

(** ** Reserving *)

Definition defaults_at (m : KvMap) : KernelQuotaDefaults :=
  mkDefaults
    (normalizeUsageLimit (entry_value (entry_at m DEFAULT_KERNEL_POLICY_LIMIT_KEY))
       DEFAULT_KERNEL_POLICY_LIMIT_REQUESTS API_KEY_NO_USAGE_LIMIT)
    (normalizeWindow (entry_value (entry_at m DEFAULT_KERNEL_POLICY_WINDOW_KEY)) DEFAULT_KERNEL_POLICY_WINDOW_MS).

(** The policy in force for a scope. *)
Definition effective_at (m : KvMap) (i : KernelQuotaIdentity) : Result string KernelQuotaEffectivePolicy :=
  policyFor (kernelQuotaRead (entry_at m (policy_key i))) i (defaults_at m) KERNEL_QUOTA_CONSTANTS.

(** No row belongs to a window begun at this very millisecond. *)
Definition fresh (i : KernelQuotaIdentity) (nowMs : Z) (m : KvMap) : Prop :=
  forall st, row_count st i nowMs m = 0.

(** The window of the policy in force is still running. *)
Definition running (i : KernelQuotaIdentity) (nowMs wms : Z) (m : KvMap) : Prop :=
  exists w, normalizeKernelQuotaWindowV2 (entry_of m i) i = Some w
    /\ applied_window_ms w = wms /\ nowMs < usage_reset_at_ms w.

(** A sane clock: times are safe integers, and a window is opened only at a
    millisecond at which none of the scope was opened before. *)
Definition clock_ok (i : KernelQuotaIdentity) (nowMs : Z) (m : KvMap) : Prop :=
  0 <= nowMs /\ nowMs + KERNEL_QUOTA_RESERVATION_LEASE_MS <= MAX_SAFE_INTEGER
  /\ forall eff, effective_at m i = Ok eff -> running i nowMs (eff_windowMs eff) m \/ fresh i nowMs m.

Lemma normalizeWindow_pos v d : 0 < d -> 0 < normalizeWindow v d.
Proof. unfold normalizeWindow. intros. repeat case_match; lia. Qed.

Lemma effective_window_pos m i eff : effective_at m i = Ok eff -> 0 < eff_windowMs eff.
Proof.
  unfold effective_at, policyFor. destruct (is_null _); intros H; inv_ok; cbn.
  - apply normalizeWindow_pos. done.
  - match goal with H : normalizeKernelQuotaPolicyV2 _ _ _ = Some _ |- _ =>
      unfold normalizeKernelQuotaPolicyV2 in H; open_option H; injection H as <- end.
    match goal with E : guard (_ && _ && _) = Some _ |- _ => apply guard_ok in E;
      rewrite !andb_true_iff, Z.ltb_lt in E end. cbn. tauto.
Qed.

(** The window a reservation is decided on is exact at its commit. *)
Lemma resolved_exact i (existing : option KernelQuotaWindowV2) wms nowMs s0 s1 s2 :
  canonical i -> evolves s0 s1 -> evolves s1 s2 -> at_ s2 (window_key i) = at_ s0 (window_key i) ->
  quota_inv (kv_map s2) -> 0 < wms -> running i nowMs wms (kv_map s2) \/ fresh i nowMs (kv_map s2) ->
  match existing with
  | Some w => reconciled (entry_of (kv_map s0) i) i w s1
  | None => normalizeKernelQuotaWindowV2 (entry_of (kv_map s0) i) i = None
  end ->
  let w := window (windowForEffectivePolicy existing i wms nowMs) in
  w_created_at_ms w < usage_reset_at_ms w
  /\ row_count RCommitted i (w_created_at_ms w) (kv_map s2) <= usage_requests w
  /\ row_count RReserved i (w_created_at_ms w) (kv_map s2) = reserved_requests w.
Proof.
  intros Hi H01 H12 Heq Hinv Hwms Hrun Hex.
  assert (entry_of (kv_map s2) i = entry_of (kv_map s0) i) as E20 by (unfold entry_of; by rewrite Heq).
  assert (forall w, existing = Some w -> running i nowMs wms (kv_map s2) ->
            applied_window_ms w = wms /\ nowMs < usage_reset_at_ms w) as Hkeep.
  { intros w -> (w2 & Hw2 & ? & ?). destruct Hex as (w0 & Hw0 & -> & _). cbn.
    rewrite E20 in Hw2. assert (w2 = w0) as -> by congruence. done. }
  assert (fresh i nowMs (kv_map s2) ->
    w_created_at_ms (newWindow i wms nowMs) < usage_reset_at_ms (newWindow i wms nowMs)
    /\ row_count RCommitted i (w_created_at_ms (newWindow i wms nowMs)) (kv_map s2)
       <= usage_requests (newWindow i wms nowMs)
    /\ row_count RReserved i (w_created_at_ms (newWindow i wms nowMs)) (kv_map s2)
       = reserved_requests (newWindow i wms nowMs)) as Hnew.
  { intros Hf. cbn. rewrite !Hf. lia. }
  destruct existing as [w|]; cbn [windowForEffectivePolicy].
  - pose proof (reconciled_exact i w s0 s1 s2 Hi H01 H12 Heq Hinv Hex) as Hold.
    destruct (negb _ || _) eqn:E; cbn [window]; [|done]. apply Hnew.
    destruct Hrun as [Hrun|]; [|done]. destruct (Hkeep w eq_refl Hrun) as [Ha Hu].
    rewrite Ha, Z.eqb_refl in E. cbn in E. apply Z.leb_le in E. lia.
  - cbn [window]. apply Hnew. destruct Hrun as [(w2 & Hw2 & _)|]; [|done].
    rewrite E20 in Hw2. congruence.
Qed.

Lemma reserve_plan i eff w en id rt nl nowMs r w' e :
  decideKernelQuotaReserve i eff w en id rt nl nowMs = Reserve r w' e ->
  is_null (value en) = true /\ r = new_reservation i w id rt nowMs
  /\ w' = w <| reserved_requests := reserved_requests w + 1 |> <| w_updated_at_ms := nowMs |>
  /\ (eff_limit eff = nl \/ usage_requests w + reserved_requests w < eff_limit eff).
Proof.
  unfold decideKernelQuotaReserve. destruct (is_null (value en)); cbn [negb]; [|by case_match].
  destruct (Z.eqb_spec (eff_limit eff) nl); cbn [negb andb].
  - intros [= <- <- <-]. auto.
  - destruct (Z.leb_spec (eff_limit eff) (usage_requests w + reserved_requests w)); [done|].
    intros [= <- <- <-]. auto.
Qed.

Lemma weight_null st i s k : is_null (entry_value (at_ s k)) = true -> weight st i (kv_map s) k = 0.
Proof.
  unfold weight, entry_at. destruct (kv_map s !! k) as [[v n]|]; [|done]. cbn. by destruct v.
Qed.

Lemma new_reservation_wf i w id rt nowMs :
  window_wf i w -> w_created_at_ms w < usage_reset_at_ms w -> id <> "" -> rt <> "" ->
  0 <= nowMs -> nowMs + KERNEL_QUOTA_RESERVATION_LEASE_MS <= MAX_SAFE_INTEGER ->
  row_wf i (new_reservation i w id rt nowMs).
Proof.
  intros [? ? ? ? ? ? ? ? ?] Hlt Hid Hrt Hn Hm. unfold KERNEL_QUOTA_RESERVATION_LEASE_MS in *.
  constructor; cbn; unfold time_ok, KERNEL_QUOTA_RESERVATION_LEASE_MS in *; try done; lia.
Qed.

(** The commit of a reservation, given that its window is exact there. *)
Lemma reserve_commit_evolves i eff w en id rt nowMs r w' e cs s8 s9 s10 :
  canonical i -> id <> "" -> rt <> "" -> evolves s8 s9 ->
  at_ s8 (row_key i (w_created_at_ms w) id) ∈ cs -> en = kernelQuotaRead (at_ s8 (row_key i (w_created_at_ms w) id)) ->
  decideKernelQuotaReserve i eff w en id rt (noUsageLimit KERNEL_QUOTA_CONSTANTS) nowMs = Reserve r w' e ->
  kv_commit cs [MSet (window_key i) (json_window w') (Some e);
                MSet (row_key i (w_created_at_ms w) id) (json_row r) (Some e)] s9 = (true, s10) ->
  (quota_inv (kv_map s9) -> clock_ok i nowMs (kv_map s9) ->
     w_created_at_ms w < usage_reset_at_ms w
     /\ row_count RCommitted i (w_created_at_ms w) (kv_map s9) <= usage_requests w
     /\ row_count RReserved i (w_created_at_ms w) (kv_map s9) = reserved_requests w) ->
  (clock_ok i nowMs (kv_map s9) -> evolves s9 s10)
  /\ (quota_inv (kv_map s9) -> clock_ok i nowMs (kv_map s9) ->
      eff_limit eff = API_KEY_NO_USAGE_LIMIT
      \/ row_count RCommitted i (w_created_at_ms w) (kv_map s10)
          + row_count RReserved i (w_created_at_ms w) (kv_map s10) <= eff_limit eff).
Proof.
  intros Hi Hid Hrt H89 Hcr -> Hplan Hc Hexact.
  apply reserve_plan in Hplan as (Hnull & -> & -> & Hlim). cbn [value kernelQuotaRead] in Hnull.
  rewrite <- (checked_entry _ _ _ _ _ _ H89 Hc Hcr) in Hnull.
  set (w1 := w <| reserved_requests := reserved_requests w + 1 |> <| w_updated_at_ms := nowMs |>) in *.
  change (w_created_at_ms w) with (w_created_at_ms w1) in Hc, Hnull.
  assert (in_state RCommitted i (json_row (new_reservation i w id rt nowMs)) = false) as Hnc.
  { destruct (in_state RCommitted i _) eqn:E; [|done]. by apply row_readback in E. }
  split.
  - intros Hclock. eapply window_row_evolves; [exact Hc|done|]. intros Hinv Hwf. cbv beta zeta.
    destruct (Hexact Hinv Hclock) as (H1 & H2 & H3).
    assert (row_wf i (new_reservation i w id rt nowMs)) as Hrow.
    { destruct Hclock as (? & ? & _). by apply (new_reservation_wf i w1). }
    rewrite !weight_null by exact Hnull. rewrite Hnc. subst w1. cbn in *.
    unfold in_state. rewrite (row_roundtrip i _ Hrow). cbn [state new_reservation].
    rewrite bool_decide_true by done. cbn [b2z]. lia.
  - intros Hinv Hclock. destruct (Hexact Hinv Hclock) as (H1 & H2 & H3).
    destruct Hlim as [Hlim|Hlim]; [by left|right].
    destruct (kv_commit_ok _ _ _ _ Hc) as (_ & _ & Hm). cbn [apply_mutations foldl apply_mutation] in Hm.
    change (w_created_at_ms w) with (w_created_at_ms w1). rewrite Hm, !row_count_row by done.
    rewrite !weight_window by apply not_window_row. rewrite !row_count_window, !weight_null by exact Hnull.
    rewrite Hnc. subst w1. cbn in *.
    pose proof (b2z_le_1 (in_state RReserved i (json_row (new_reservation i w id rt nowMs)))).
    lia.
Qed.

Lemma eligible_effective i snap d c nowMs eff :
  decideKernelQuotaEligibility i snap d c nowMs = Ok (Eligible eff) ->
  policyFor (snap_policy snap) i d c = Ok eff /\ scope_changed snap = false
  /\ isExpired (expiresAtMs eff) nowMs (noExpirationMs c) = false /\ eff_limit eff <> 0
  /\ kernelQuotaDefaultCutoverBlocks eff (defaultCutover snap) = false.
Proof.
  unfold decideKernelQuotaEligibility. destruct (scope_changed snap); [done|]. intros H. inv_ok.
  repeat case_match; inv_ok; try done. simplify_eq. split_and!; try done. lia.
Qed.

(** Checked entries pin down the policy in force at the commit. *)
Lemma effective_at_commit i m pe le we eff :
  policyFor (kernelQuotaRead pe) i
    (mkDefaults (normalizeUsageLimit (entry_value le) DEFAULT_KERNEL_POLICY_LIMIT_REQUESTS API_KEY_NO_USAGE_LIMIT)
       (normalizeWindow (entry_value we) DEFAULT_KERNEL_POLICY_WINDOW_MS)) KERNEL_QUOTA_CONSTANTS = Ok eff ->
  entry_at m (policy_key i) = pe ->
  (source eff = SourceDefault -> entry_at m DEFAULT_KERNEL_POLICY_LIMIT_KEY = le
     /\ entry_at m DEFAULT_KERNEL_POLICY_WINDOW_KEY = we) ->
  effective_at m i = Ok eff.
Proof.
  intros Hp E Hd. unfold effective_at. rewrite E. unfold policyFor in *. cbn in *.
  destruct (is_null (entry_value pe)); [|exact Hp]. inv_ok.
  destruct (Hd eq_refl) as [<- <-]. done.
Qed.

(** What one reservation attempt does: at most one commit, at a store [sc];
    and an admission found room there under the policy in force. *)
Definition reserved_safely (i : KernelQuotaIdentity) (id : string) (nowMs : Z) (s : S)
    (res : Result string CapacityOutcome) (s' : S) : Prop :=
  exists sc, evolves s sc
    /\ (s' = sc \/ (clock_ok i nowMs (kv_map sc) -> evolves sc s'))
    /\ forall ri lease, res = Ok (OutcomeDecision (ReservationGranted ri lease)) ->
         kv_log s' = (kv_log sc ++ [(kv_map sc, kv_map s')])%list /\ res_identity ri = i /\ requestId ri = id
         /\ is_null (entry_value (at_ sc (row_key i (windowCreatedAtMs ri) id))) = true
         /\ exists eff, effective_at (kv_map sc) i = Ok eff
           /\ isExpired (expiresAtMs eff) nowMs API_KEY_NO_EXPIRATION_MS = false
           /\ (quota_inv (kv_map sc) -> clock_ok i nowMs (kv_map sc) ->
               eff_limit eff = API_KEY_NO_USAGE_LIMIT
               \/ row_count RCommitted i (windowCreatedAtMs ri) (kv_map s')
                   + row_count RReserved i (windowCreatedAtMs ri) (kv_map s') <= eff_limit eff).

Lemma reserved_safely_none i id nowMs s res s' :
  evolves s s' -> (forall ri lease, res <> Ok (OutcomeDecision (ReservationGranted ri lease))) ->
  reserved_safely i id nowMs s res s'.
Proof. intros H Hno. exists s'. split; [done|]. split; [by left|]. intros ri lease E. by destruct (Hno ri lease). Qed.

(** The second half of an attempt, from the loaded entries on. *)
Lemma commit_reservation_safe i id rt es eff existing nowMs flag s s1 s3 s4 s5 s6 s7 :
  canonical i -> id <> "" -> rt <> "" ->
  evolves s s1 -> evolves s1 s3 -> evolves s3 s4 -> evolves s4 s5 -> evolves s5 s6 -> evolves s6 s7 ->
  limitEntry (e_defaults es) = at_ s1 DEFAULT_KERNEL_POLICY_LIMIT_KEY ->
  windowEntry (e_defaults es) = at_ s3 DEFAULT_KERNEL_POLICY_WINDOW_KEY ->
  policyEntry es = at_ s4 (policy_key i) -> e_windowEntry es = at_ s5 (window_key i) ->
  e_windowKey es = window_key i ->
  defaults (e_defaults es) = mkDefaults
    (normalizeUsageLimit (entry_value (limitEntry (e_defaults es))) DEFAULT_KERNEL_POLICY_LIMIT_REQUESTS API_KEY_NO_USAGE_LIMIT)
    (normalizeWindow (entry_value (windowEntry (e_defaults es))) DEFAULT_KERNEL_POLICY_WINDOW_MS) ->
  policyFor (kernelQuotaRead (policyEntry es)) i (defaults (e_defaults es)) KERNEL_QUOTA_CONSTANTS = Ok eff ->
  isExpired (expiresAtMs eff) nowMs API_KEY_NO_EXPIRATION_MS = false ->
  match existing with
  | Some w => reconciled (entry_of (kv_map s5) i) i w s7
  | None => normalizeKernelQuotaWindowV2 (entry_of (kv_map s5) i) i = None
  end ->
  triple (commitKernelQuotaReservation others i id rt
            (mkTarget es eff (windowForEffectivePolicy existing i (eff_windowMs eff) nowMs)) nowMs flag)
    s7 (reserved_safely i id nowMs s).
Proof.
  intros Hi Hid Hrt H01 H13 H34 H45 H56 H67 Ele Ewe Epe Ewin Ekey Edef Hpol Hexp Hex.
  assert (evolves s s7) as H07 by eauto 10 using evolves_trans.
  unfold commitKernelQuotaReservation. cbn [resolved effective t_entries].
  set (w := window (windowForEffectivePolicy existing i (eff_windowMs eff) nowMs)).
  apply triple_bind, triple_lift. rewrite (kernelReservationKey_canonical _ Hi).
  apply triple_bind, triple_get. intros s8 H78.
  assert (evolves s s8) as H08 by eauto using evolves_trans.
  destruct (decideKernelQuotaReserve _ _ _ _ _ _ _ _) as [st msg|w2 lim|r w' e] eqn:Hplan.
  - apply triple_ret, reserved_safely_none; [done|]. done.
  - unfold reclaimKernelQuotaCapacity. destruct flag; [by apply triple_ret, reserved_safely_none|].
    apply triple_catch, triple_bind. eapply triple_mono; [by apply guarantees_reclaim|].
    intros [e|b] s9 H89; apply triple_ret, reserved_safely_none; try done; try by destruct b.
    + eauto using evolves_trans.
    + eauto using evolves_trans.
  - apply triple_bind, triple_commit; [intros s9 s10 H89 Hc|intros s9 H89]; apply triple_ret;
      [|apply reserved_safely_none; [eauto using evolves_trans|done]].
    assert (evolves s5 s9) as H59 by eauto 10 using evolves_trans.
    assert (evolves s4 s9) as H49 by eauto using evolves_trans.
    assert (at_ s9 (window_key i) = at_ s5 (window_key i)) as Ew9.
    { eapply checked_entry; [done|exact Hc|]. unfold reserve_checks. cbn. rewrite Ewin. set_solver. }
    assert (effective_at (kv_map s9) i = Ok eff) as Heff.
    { rewrite Edef in Hpol. eapply effective_at_commit; [exact Hpol| |].
      - rewrite Epe. eapply checked_entry; [done|exact Hc|]. unfold reserve_checks. cbn. rewrite Epe. set_solver.
      - intros Hsrc. rewrite Ele, Ewe.
        split; (eapply checked_entry; [|exact Hc|]); eauto 10 using evolves_trans;
          unfold reserve_checks; cbn; rewrite Hsrc, ?Ele, ?Ewe; set_solver. }
    rewrite Ekey in Hc. fold w in Hc, Hplan.
    match type of Hc with kv_commit ?cs _ _ = _ =>
      assert (at_ s8 (row_key i (w_created_at_ms w) id) ∈ cs) as Hin
        by (unfold reserve_checks; cbn; set_solver) end.
    destruct (reserve_commit_evolves i eff w _ id rt nowMs r w' e _ s8 s9 s10 Hi Hid Hrt H89 Hin
      eq_refl Hplan Hc) as [Hev Hroom].
    { intros Hinv (Hn0 & Hn1 & Hopen).
      eapply (resolved_exact i existing (eff_windowMs eff) nowMs s5 s7 s9); eauto using evolves_trans,
        effective_window_pos. }
    exists s9. split; [eauto using evolves_trans|]. split; [by right|].
    intros ri lease [= <- <-]. apply reserve_plan in Hplan as (Hnull & _ & -> & _). cbn [windowCreatedAtMs res_identity requestId].
    split_and!; [by eapply kv_commit_logged|done|done| |].
    { cbn. fold w. rewrite (checked_entry _ _ _ _ _ _ H89 Hc Hin). exact Hnull. }
    exists eff. split; [done|]. split; [done|]. exact Hroom.
Qed.

Lemma attempt_reserve_safe i id rt o nowMs flag s :
  canonical i -> id <> "" -> rt <> "" ->
  triple (attemptReserveKernelQuota others i id rt o nowMs flag) s (reserved_safely i id nowMs s).
Proof.
  intros Hi Hid Hrt. unfold attemptReserveKernelQuota, loadKernelQuotaReservationEntries, loadDefaults.
  apply triple_bind, triple_lift. rewrite (kernelPolicyKeys_canonical _ Hi). cbn [fst snd].
  do 2 apply triple_bind. apply triple_bind, triple_get. intros s1 H1.
  apply triple_bind, triple_get. intros s2 H2. apply triple_ret.
  apply triple_bind, triple_get. intros s3 H3. apply triple_bind, triple_get. intros s4 H4.
  apply triple_bind. eapply (triple_mono _ _ (fun r s5 => evolves s4 s5 /\ exists g, r = Ok g)).
  { destruct (opt_expectedRepoPolicy o) as [[]|], (guardedRepo o); try (apply triple_ret; eauto using evolves_refl).
    destruct (empty _); [apply triple_ret; eauto using evolves_refl|].
    apply triple_bind, triple_get. intros s5 H5. apply triple_ret. eauto. }
  intros r0 s5 [H5 [g ->]]. apply triple_bind, triple_get. intros s6 H6. apply triple_ret.
  assert (evolves s s6) as H06 by eauto 10 using evolves_trans.
  apply triple_bind. unfold evaluateKernelQuotaEligibility. cbn [e_defaults defaults].
  apply triple_bind, triple_lift.
  destruct (decideKernelQuotaEligibility _ _ _ _ _) as [m|[st m|eff]] eqn:Hel;
    [by apply reserved_safely_none|..].
  { apply triple_ret, triple_ret, reserved_safely_none; [done|]. intros ri lease. by case_match. }
  apply eligible_effective in Hel as (Hpol & _ & Hexp & _ & _). cbn [snap_policy] in Hpol.
  apply triple_bind, reconcile_spec; [done| | |].
  - intros s7 w H7 Hrec. rewrite (bool_decide_false (Some w = None)), andb_false_r by done. apply triple_ret.
    eapply (commit_reservation_safe i id rt _ eff (Some w) nowMs flag s s1 s2 s3 s4 s6 s7);
      try done; eauto using evolves_trans.
  - intros Hnone. destruct (negb _ && _).
    + apply triple_ret, triple_ret, reserved_safely_none; done.
    + apply triple_ret.
      eapply (commit_reservation_safe i id rt _ eff None nowMs flag s s1 s2 s3 s4 s6 s6);
        try done; eauto using evolves_trans, evolves_refl.
  - intros s7 m H7. apply reserved_safely_none; [eauto using evolves_trans|done].
Qed.

(** ** Policy writes *)

Lemma policyFor_window_pos en i d eff :
  policyFor en i d KERNEL_QUOTA_CONSTANTS = Ok eff -> 0 < windowMs d -> 0 < eff_windowMs eff.
Proof.
  unfold policyFor. intros H Hd. destruct (is_null _); inv_ok; cbn; [done|].
  match goal with H : normalizeKernelQuotaPolicyV2 _ _ _ = Some _ |- _ =>
    unfold normalizeKernelQuotaPolicyV2 in H; open_option H; injection H as <- end.
  match goal with E : guard (_ && _ && _) = Some _ |- _ => apply guard_ok in E;
    rewrite !andb_true_iff, Z.ltb_lt in E end. cbn. tauto.
Qed.

Lemma timing_pos o current nx : 0 < eff_windowMs current -> 0 < fst (resolveKernelPolicyTiming o current nx).
Proof. intros H. unfold resolveKernelPolicyTiming. cbn. destruct (opt_windowMs o); [by apply normalizeWindow_pos|done]. Qed.

Lemma guarantees_steer i g nowMs : canonical i -> guarantees (steer_guard others i g nowMs).
Proof.
  intros Hi. unfold steer_guard. destruct g; auto with gateway.
  apply guarantees_bind; [by apply guarantees_reclaim|auto with gateway].
Qed.

Lemma guarantees_inheritance i es nowMs : guarantees (reconcileKernelPolicyOrgInheritance others i es nowMs).
Proof.
  unfold reconcileKernelPolicyOrgInheritance. destruct (scope i); [|auto with gateway].
  destruct (orgPolicyEntry es), (orgWindowEntry es); auto with gateway.
  destruct (negb _); [auto with gateway|]. apply guarantees_bind; [auto with gateway|]. intros _.
  apply guarantees_bind; [by apply guarantees_reconcile|]. intros w. by apply guarantees_steer.
Qed.

(** The window a policy write stores is exact at its commit. *)
Lemma policy_window_exact i p existing reset nowMs s0 s1 s2 :
  canonical i -> evolves s0 s1 -> evolves s1 s2 -> at_ s2 (window_key i) = at_ s0 (window_key i) ->
  quota_inv (kv_map s2) -> 0 < window_ms p -> fresh i nowMs (kv_map s2) ->
  match existing with
  | Some w => reconciled (entry_of (kv_map s0) i) i w s1
  | None => normalizeKernelQuotaWindowV2 (entry_of (kv_map s0) i) i = None
  end ->
  let w := plan_window (decideKernelQuotaPolicyWrite i p existing reset nowMs) in
  w_created_at_ms w < usage_reset_at_ms w
  /\ row_count RCommitted i (w_created_at_ms w) (kv_map s2) <= usage_requests w
  /\ row_count RReserved i (w_created_at_ms w) (kv_map s2) = reserved_requests w.
Proof.
  intros Hi H01 H12 Heq Hinv Hpos Hf Hex. unfold decideKernelQuotaPolicyWrite. destruct reset; cbn.
  - rewrite !Hf. lia.
  - exact (resolved_exact i existing (window_ms p) nowMs s0 s1 s2 Hi H01 H12 Heq Hinv Hpos
             (or_intror Hf) Hex).
Qed.

(** A write that reset a running window of the policy in force had no
    reservation left in it. *)
Lemma policy_write_keeps i p existing o current nowMs (timing : Z * Z) w0 :
  window_ms p = fst timing ->
  decideKernelPolicyWindowGuard existing false
    (kernelQuotaPolicyResetRequested o (eff_windowMs current) (fst timing)) nowMs = GuardProceed ->
  existing = Some w0 -> applied_window_ms w0 = eff_windowMs current -> nowMs < usage_reset_at_ms w0 ->
  0 < reserved_requests w0 ->
  w_created_at_ms (plan_window (decideKernelQuotaPolicyWrite i p existing
    (kernelQuotaPolicyResetRequested o (eff_windowMs current) (fst timing)) nowMs)) = w_created_at_ms w0.
Proof.
  intros Ep Hg -> Ha Hn Hr. unfold decideKernelPolicyWindowGuard, hasLiveKernelReservations in Hg.
  rewrite (proj2 (Z.ltb_lt _ _) Hn), (proj2 (Z.ltb_lt _ _) Hr) in Hg. cbn in Hg.
  destruct (kernelQuotaPolicyResetRequested _ _ _) eqn:Er; [done|].
  unfold kernelQuotaPolicyResetRequested in Er. apply orb_false_iff in Er as [_ Er].
  apply negb_false_iff, Z.eqb_eq in Er.
  unfold decideKernelQuotaPolicyWrite, windowForEffectivePolicy. rewrite Ha, Ep, Er, Z.eqb_refl.
  rewrite (proj2 (Z.leb_gt _ _) Hn). done.
Qed.

Definition policy_set_safely (i : KernelQuotaIdentity) (s : S) (res : Result string PolicyWriteAttempt)
    (s' : S) : Prop :=
  exists sc nowMs, evolves s sc
    /\ (s' = sc \/ (fresh i nowMs (kv_map sc) -> evolves sc s'))
    /\ forall p w', res = Ok (PolicyWritten p w') -> quota_inv (kv_map sc) ->
         forall eff w, effective_at (kv_map sc) i = Ok eff ->
           normalizeKernelQuotaWindowV2 (entry_of (kv_map sc) i) i = Some w ->
           applied_window_ms w = eff_windowMs eff -> nowMs < usage_reset_at_ms w ->
           0 < row_count RReserved i (w_created_at_ms w) (kv_map sc) ->
           w_created_at_ms w' = w_created_at_ms w.

Lemma policy_set_none i s res s' :
  evolves s s' -> (forall p w, res <> Ok (PolicyWritten p w)) -> policy_set_safely i s res s'.
Proof. intros H Hno. exists s', 0. split; [done|]. split; [by left|]. intros p w E. by destruct (Hno p w). Qed.

Lemma makeKernelQuotaPolicy_window i current n timing nl nowMs :
  window_ms (makeKernelQuotaPolicy i current n timing nl nowMs) = fst timing.
Proof. done. Qed.

(** The commit of a policy write, from the store [s4] its window was read at. *)
Lemma policy_commit_safe i current p ow o (timing : Z * Z) nowMs mu e cs s s4 s8 s11 s12 :
  canonical i -> evolves s s4 -> evolves s4 s8 -> evolves s8 s11 ->
  window_ms p = fst timing -> 0 < fst timing -> mutation_key mu = policy_key i ->
  match ow with
  | Some w => reconciled (entry_of (kv_map s4) i) i w s8
  | None => normalizeKernelQuotaWindowV2 (entry_of (kv_map s4) i) i = None
  end ->
  let reset := kernelQuotaPolicyResetRequested o (eff_windowMs current) (fst timing) in
  let w' := plan_window (decideKernelQuotaPolicyWrite i p ow reset nowMs) in
  decideKernelPolicyWindowGuard ow false reset nowMs = GuardProceed ->
  at_ s4 (window_key i) ∈ cs -> effective_at (kv_map s11) i = Ok current ->
  kv_commit cs [mu; MSet (window_key i) (json_window w') e] s11 = (true, s12) ->
  policy_set_safely i s (Ok (PolicyWritten p w')) s12.
Proof.
  intros Hi H04 H48 H811 Ep Hpos Hmu Hrec reset w' Hg Hin Heff Hc.
  assert (evolves s4 s11) as H411 by eauto using evolves_trans.
  pose proof (checked_entry _ _ _ _ _ _ H411 Hc Hin) as Ew.
  exists s11, nowMs. split; [eauto using evolves_trans|]. split.
  - right. intros Hf. eapply window_only_evolves; [exact Hc|done|done|]. intros Hinv _.
    eapply (policy_window_exact i p ow reset nowMs s4 s8 s11); eauto. by rewrite Ep.
  - intros p1 w1 [= <- <-] Hinv eff w Heff' Hw Ha Hn Hpos'.
    assert (eff = current) as -> by congruence. unfold entry_of in Hw. rewrite Ew in Hw.
    destruct ow as [w0|]; [|unfold entry_of in Hrec; congruence].
    destruct (reconciled_exact i w0 s4 s8 s11 Hi H48 H811 Ew Hinv Hrec) as (_ & _ & Hres).
    assert (applied_window_ms w0 = applied_window_ms w /\ usage_reset_at_ms w0 = usage_reset_at_ms w
            /\ w_created_at_ms w0 = w_created_at_ms w) as (E1 & E2 & E3).
    { destruct Hrec as (w2 & Hw2 & -> & _). unfold entry_of in Hw2. assert (w2 = w) as -> by congruence. done. }
    rewrite <- E3. eapply (policy_write_keeps i p (Some w0) o current nowMs timing w0); try done.
    + congruence.
    + congruence.
    + rewrite <- Hres, E3. done.
Qed.

Lemma attempt_set_safe request s :
  canonical (req_identity request) ->
  triple (attemptSetKernelQuotaPolicy others clock request
            (policy_key (req_identity request), window_key (req_identity request))) s
    (policy_set_safely (req_identity request) s).
Proof.
  intros Hi. unfold attemptSetKernelQuotaPolicy, loadDefaults. set (i := req_identity request) in *.
  cbn [fst snd]. apply triple_bind, triple_now. intros nowMs.
  do 2 apply triple_bind. apply triple_get. intros s1 H1.
  apply triple_bind, triple_get. intros s2 H2. apply triple_ret.
  apply triple_bind, triple_get. intros s3 H3. apply triple_bind, triple_get. intros s4 H4.
  apply triple_bind. eapply triple_mono; [apply guarantees_org_entry|]. intros [m|ope] s5 H5;
    [apply policy_set_none; eauto 10 using evolves_trans|].
  apply triple_bind. eapply triple_mono; [apply guarantees_org_entry|]. intros [m|owe] s6 H6;
    [apply policy_set_none; eauto 10 using evolves_trans|].
  apply triple_bind, triple_get. intros s7 H7. assert (evolves s4 s7) as H47 by eauto 12 using evolves_trans.
  assert (evolves s s7) as H07 by eauto 12 using evolves_trans.
  apply triple_bind, triple_lift. cbn [defaults].
  destruct (policyFor _ _ _ _) as [m|current] eqn:Hpol; [by apply policy_set_none|].
  destruct (kernelQuotaDefaultCutoverBlocks _ _); [by apply triple_ret, policy_set_none|].
  set (timing := resolveKernelPolicyTiming _ _ _).
  assert (0 < fst timing) as Hpos by
    (apply timing_pos; eapply policyFor_window_pos; [exact Hpol|by apply normalizeWindow_pos]).
  apply triple_bind. eapply triple_mono; [by apply (reconcile_result _ i)|].
  intros [m|ow] s8 [H8 Hrec]; [apply policy_set_none; [eauto using evolves_trans|done]|].
  specialize (Hrec ow eq_refl). assert (evolves s s8) as H08 by eauto using evolves_trans.
  destruct (negb _ && _); [by apply triple_ret, policy_set_none|].
  apply triple_bind. eapply triple_mono; [apply guarantees_inheritance|].
  intros [m|st] s9 H9; [apply policy_set_none; [eauto using evolves_trans|done]|].
  assert (evolves s s9) as H09 by eauto using evolves_trans.
  destruct st; [|by apply triple_ret, policy_set_none..].
  set (reset := kernelQuotaPolicyResetRequested _ _ _).
  apply triple_bind. unfold guardKernelPolicyWindowReset.
  destruct (decideKernelPolicyWindowGuard ow false reset nowMs) eqn:Hg; cbn [steer_guard].
  - by apply triple_ret, triple_ret, policy_set_none.
  - apply triple_ret, triple_bind, triple_commit; [intros s11 s12 H11 Hc|intros s11 H11]; apply triple_ret;
      [|apply policy_set_none; [eauto using evolves_trans|done]].
    assert (effective_at (kv_map s11) i = Ok current) as Heff.
    { eapply effective_at_commit; [exact Hpol| |].
      - eapply (checked_entry _ _ s3 s11); [eauto 10 using evolves_trans|exact Hc|].
        unfold kernelPolicyWriteAtomic. cbn. set_solver.
      - intros Hsrc. split; (eapply checked_entry; [|exact Hc|]); eauto 10 using evolves_trans;
          unfold kernelPolicyWriteAtomic; cbn; rewrite Hsrc; set_solver. }
    eapply (policy_commit_safe i current _ ow (req_options request) timing nowMs _ _ _ s s4 s8 s11 s12);
      try done; eauto 10 using evolves_trans.
    unfold kernelPolicyWriteAtomic. cbn. set_solver.
  - apply triple_bind. eapply triple_mono; [by apply guarantees_reclaim|].
    intros [m|b] s10 H10; [|apply triple_ret; destruct b; apply triple_ret];
      (apply policy_set_none; [eauto using evolves_trans|done]).
Qed.

(** ** Policy deletes *)

Definition deleted_safely (i : KernelQuotaIdentity) (s s' : S) : Prop :=
  exists sc nowMs, evolves s sc /\ (s' = sc \/ (fresh i nowMs (kv_map sc) -> evolves sc s')).

Lemma deleted_none i s s' : evolves s s' -> deleted_safely i s s'.
Proof. intros H. exists s', 0. auto. Qed.

Lemma attempt_delete_safe i s :
  canonical i ->
  triple (attemptDeleteKernelQuotaPolicy others clock i (policy_key i, window_key i)) s
    (fun _ s' => deleted_safely i s s').
Proof.
  intros Hi. unfold attemptDeleteKernelQuotaPolicy, loadDefaults. cbn [fst snd].
  apply triple_bind, triple_now. intros nowMs. do 2 apply triple_bind. apply triple_get. intros s1 H1.
  apply triple_bind, triple_get. intros s2 H2. apply triple_ret.
  apply triple_bind, triple_get. intros s3 H3. apply triple_bind, triple_get. intros s4 H4.
  apply triple_bind, triple_get. intros s5 H5.
  assert (evolves s s5) as H05 by eauto 10 using evolves_trans.
  destruct (decideKernelQuotaPolicyDeletePrecondition _ _); [by apply triple_ret, deleted_none..|].
  apply triple_bind, triple_lift. destruct (policyFor _ _ _ _) as [m|current] eqn:Hpol; [by apply deleted_none|].
  apply triple_bind. eapply triple_mono; [by apply (reconcile_result _ i)|].
  intros [m|ow] s6 [H6 Hrec]; [by apply deleted_none; eauto using evolves_trans|].
  specialize (Hrec ow eq_refl). assert (evolves s s6) as H06 by eauto using evolves_trans.
  destruct (decideKernelPolicyWindowGuard _ _ _ _) as [| |w] eqn:Hg; [by apply triple_ret, deleted_none|..].
  - apply triple_bind, triple_commit; [intros s7 s8 H7 Hc|intros s7 H7]; apply triple_ret;
      [|apply deleted_none; eauto using evolves_trans].
    exists s7, nowMs. split; [eauto using evolves_trans|]. right. intros Hf.
    eapply window_only_evolves; [exact Hc|done|done|]. intros Hinv _.
    assert (0 < normalizeWindow (entry_value (at_ s2 DEFAULT_KERNEL_POLICY_WINDOW_KEY))
                  DEFAULT_KERNEL_POLICY_WINDOW_MS) as Hpos by (by apply normalizeWindow_pos).
    assert (at_ s7 (window_key i) = at_ s4 (window_key i)) as Ew
      by (eapply checked_entry; [eauto 10 using evolves_trans|exact Hc|set_solver]).
    unfold decideKernelQuotaPolicyDeleteWindow. cbn [windowMs defaults].
    destruct (_ =? _).
    + eapply (resolved_exact i ow _ nowMs s4 s6 s7); eauto using evolves_trans.
    + cbn. rewrite !Hf. lia.
  - apply triple_bind. eapply triple_mono; [by apply guarantees_reclaim|].
    intros [m|b] s7 H7; [|apply triple_ret]; apply deleted_none; eauto using evolves_trans.
Qed.
End guarantee.
