(* ===== verification/KernelTheorems.v ===== *)
(** * What the kernel quota guarantees *)

From stdpp Require Import base gmap strings list.
From Stdlib Require Import ZArith Lia.
From S2P Require Import Prelude Js KvStore KvLogic KernelQuota KernelStore KernelRows KernelSafety.
From S2P Require Import KernelGuarantee.
Open Scope string_scope.
Open Scope Z_scope.

(** ** A concrete store

    One organization with a limit of two requests per hour. *)

Module DemoKernel.

Definition org : KernelQuotaIdentity := mkIdentity ScopeOrg "ubiquity" None.
Definition pol : KernelQuotaPolicyV2 := mkPolicyV2 ScopeOrg "ubiquity" None 2 3600000 (-1) 1000 1000.
Definition alone : Clients MemoryKv := fun _ s => s.
Definition clock : nat -> Z := fun n => 10000 + Z.of_nat n.
Definition options : KernelQuotaReserveOptions := mkReserveOptions (Some 10000) None None.
Definition s0 : MemoryKv :=
  snd (memory_commit [] [MSet (policy_key org) (json_policy pol) None] memory_empty).
Definition reserve (id : string) (s : MemoryKv) : Result string CapacityOutcome * (nat * MemoryKv) :=
  attemptReserveKernelQuota alone org id "/v1/responses" options 10000 false (O, s).
Definition s1 : MemoryKv := snd (snd (reserve "r1" s0)).
Definition s2 : MemoryKv := snd (snd (reserve "r2" s1)).
Definition row (id : string) : KernelQuotaReservationIdentity :=
  mkReservationIdentity org id "/v1/responses" 10000.

Lemma alone_evolves : RelyOn evolves alone.
Proof. intros n s. apply evolves_refl. Qed.

(** Whether a key is the window of another scope. *)
Definition other_window (k : KvKey) : bool :=
  match k with
  | [_; _; _; KStr kind; KStr o] => String.eqb kind "org_window" && negb (String.eqb o "ubiquity")
  | [_; _; _; KStr kind; KStr _; KStr _] => String.eqb kind "repo_window"
  | _ => false
  end.

Lemma window_other i : canonical i -> i <> org -> other_window (window_key i) = true.
Proof.
  unfold canonical, window_key. destruct i as [[] o r]; cbn; [done|].
  intros -> Hne. destruct (String.eqb_spec o "ubiquity"); [by subst|done].
Qed.

(** A store that holds no window of another scope keeps the invariant if this
    scope does. *)
Lemma org_inv m :
  forallb (fun kv => negb (other_window (fst kv))) (map_to_list m) = true ->
  scope_inv m org (entry_of m org) -> quota_inv m.
Proof.
  intros Hall Horg i Hi. destruct (decide (window_key i = window_key org)) as [E|E].
  - assert (i = org) as -> by (by apply window_key_inj). done.
  - unfold entry_of, entry_at. destruct (m !! window_key i) as [[v n]|] eqn:El; [|done].
    apply elem_of_map_to_list, list_elem_of_In in El. rewrite forallb_forall in Hall. apply Hall in El.
    cbn in El. rewrite window_other in El; [done|done|]. by intros ->.
Qed.

Lemma s0_inv : quota_inv (kv_map s0).
Proof. apply org_inv; [reflexivity|]. intros w Hw. vm_compute in Hw. discriminate. Qed.

Lemma s1_inv : quota_inv (kv_map s1).
Proof.
  apply org_inv; [vm_compute; reflexivity|]. intros w Hw. vm_compute in Hw. injection Hw as <-.
  vm_compute. repeat split; discriminate.
Qed.

End DemoKernel.

Section claims.
Context {S : Type} `{Kv : KvStore S}.

(** C18: whatever other clients do to the store meanwhile, a settlement of a
    kernel reservation (with its retries) leaves every scope's aggregate
    exact: the current window counts its committed rows among its usage and
    its reserved number is the number of its reserved rows. *)
Theorem settlement_keeps_aggregates others clock i t reason n s r n' s' :
  RelyOn evolves others -> canonical (res_identity i) -> quota_inv (kv_map s) ->
  settleKernelReservation others clock i t reason (n, s) = (r, (n', s')) ->
  evolves s s' /\ quota_inv (kv_map s').
Proof.
  intros Ho Hi Hinv E. assert (evolves s s') as Hev
    by (eapply (triple_run _ n s (fun _ s' => evolves s s')); [by apply guarantees_settle|exact E]).
  split; [done|]. by apply (ev_inv _ _ Hev).
Qed.

(** C19: a kernel reservation is never admitted beyond its limit.  The last
    commit of the store is the admission's, from the entries [m]: there the
    request had no row, the policy in force had not expired, and the aggregates
    were exact; after it the committed and reserved rows of the window together
    are within the policy's limit, and the aggregates are exact again, however
    the reads before interleaved with other clients.  The last part needs a sane
    clock ([clock_ok] at [m]): the time is a safe integer, and when the commit
    opens a window, no row of the scope is of a window opened in that very
    millisecond. *)
Theorem reserve_within_limit others i id rt o nowMs flag n s ri lease n' s' :
  RelyOn evolves others -> canonical i -> id <> "" -> rt <> "" ->
  quota_inv (kv_map s) ->
  attemptReserveKernelQuota others i id rt o nowMs flag (n, s)
    = (Ok (OutcomeDecision (ReservationGranted ri lease)), (n', s')) ->
  res_identity ri = i /\ requestId ri = id
  /\ exists log m eff, kv_log s' = (log ++ [(m, kv_map s')])%list
    /\ quota_inv m /\ is_null (entry_value (entry_at m (row_key i (windowCreatedAtMs ri) id))) = true
    /\ effective_at m i = Ok eff
    /\ isExpired (expiresAtMs eff) nowMs API_KEY_NO_EXPIRATION_MS = false
    /\ (clock_ok i nowMs m ->
        (eff_limit eff = API_KEY_NO_USAGE_LIMIT
         \/ row_count RCommitted i (windowCreatedAtMs ri) (kv_map s')
            + row_count RReserved i (windowCreatedAtMs ri) (kv_map s') <= eff_limit eff)
        /\ quota_inv (kv_map s')).
Proof.
  intros Ho Hi Hid Hrt Hinv E.
  pose proof (attempt_reserve_safe others i id rt o nowMs flag s Hi Hid Hrt) as Hm.
  destruct (triple_run _ _ _ _ _ _ _ Hm E) as (sc & Hsc & Hstep & Hadm).
  destruct (Hadm ri lease eq_refl) as (Hlog & E1 & E2 & Hnull & eff & He & Hx & Hroom).
  assert (quota_inv (kv_map sc)) as Hisc by (by apply (ev_inv _ _ Hsc)).
  split; [done|]. split; [done|]. exists (kv_log sc), (kv_map sc), eff. split_and!; try done. intros Hclock. split; [by auto|].
  destruct Hstep as [->|Hstep]; [done|]. by apply (ev_inv _ _ (Hstep Hclock)).
Qed.

(** A policy write never orphans live reservations.  If the window of
    the policy in force is still running at the commit and holds reserved
    rows, a successful write keeps that window. *)
Theorem policy_write_keeps_reservations others clock request n s p w' n' s' :
  RelyOn evolves others -> canonical (req_identity request) -> quota_inv (kv_map s) ->
  attemptSetKernelQuotaPolicy others clock request
    (policy_key (req_identity request), window_key (req_identity request)) (n, s)
    = (Ok (PolicyWritten p w'), (n', s')) ->
  exists sc nowMs, evolves s sc
    /\ (forall eff w, effective_at (kv_map sc) (req_identity request) = Ok eff ->
          normalizeKernelQuotaWindowV2 (entry_of (kv_map sc) (req_identity request))
            (req_identity request) = Some w ->
          applied_window_ms w = eff_windowMs eff -> nowMs < usage_reset_at_ms w ->
          0 < row_count RReserved (req_identity request) (w_created_at_ms w) (kv_map sc) ->
          w_created_at_ms w' = w_created_at_ms w)
    /\ (fresh (req_identity request) nowMs (kv_map sc) -> quota_inv (kv_map s')).
Proof.
  intros Ho Hi Hinv E.
  destruct (triple_run _ _ _ _ _ _ _ (attempt_set_safe others clock request s Hi) E)
    as (sc & nowMs & Hsc & Hstep & Hkeep).
  assert (quota_inv (kv_map sc)) as Hisc by (by apply (ev_inv _ _ Hsc)).
  exists sc, nowMs. split; [done|]. split; [by eauto|]. intros Hf.
  destruct Hstep as [->|Hstep]; [done|]. by apply (ev_inv _ _ (Hstep Hf)).
Qed.

(** ** Settlement, functionally *)

(** The row and the window of a reservation that can still be settled. *)
Record settleable (i : KernelQuotaReservationIdentity) (t : TerminalState) (s : S)
    (r : KernelQuotaReservationRowV2) (w : KernelQuotaWindowV2) : Prop := {
  sb_identity : canonical (res_identity i);
  sb_row : normalizeKernelQuotaReservationRowV2 (entry_value (entry_at (kv_map s)
             (row_key (res_identity i) (windowCreatedAtMs i) (requestId i)))) (res_identity i) = Some r;
  sb_open : kernelReservationPrecondition r (requestId i) (res_route i) (windowCreatedAtMs i) t = None;
  sb_window : normalizeKernelQuotaWindowV2 (entry_of (kv_map s) (res_identity i)) (res_identity i) = Some w;
  sb_aggregate : has_reserved (entry_of (kv_map s) (res_identity i)) = true;
  sb_current : w_created_at_ms w = windowCreatedAtMs i;
  sb_reserved : 1 <= reserved_requests w }.

Definition settled_window (w : KernelQuotaWindowV2) (t : TerminalState) (nowMs : Z) : KernelQuotaWindowV2 :=
  w <| usage_requests := usage_requests w + b2z (bool_decide (t = TCommitted)) |>
    <| reserved_requests := reserved_requests w - 1 |> <| w_updated_at_ms := nowMs |>.

Lemma settle_unlocked_quiet i t reason nowMs n s r w :
  settleable i t s r w ->
  exists n' s', settleKernelReservationUnlocked quiet i t reason nowMs (n, s) = (Ok Settled, (n', s'))
    /\ entry_value (entry_at (kv_map s') (row_key (res_identity i) (windowCreatedAtMs i) (requestId i)))
       = json_row (settledKernelReservationRow r t reason nowMs)
    /\ entry_of (kv_map s') (res_identity i) = json_window (settled_window w t nowMs).
Proof.
  intros [Hi Hr Hp Hw Hag Hcr Hres]. pose proof (precondition_none _ _ _ _ _ Hp) as (_ & Ecr & _).
  unfold settleKernelReservationUnlocked, kv_bind, kv_lift, get, quiet.
  rewrite (kernelScopedWindowKey_canonical _ Hi), (kernelReservationKey_canonical _ Hi).
  rewrite !kv_get_spec, Hr, Hp. unfold reconcileKernelQuotaWindowReservations.
  fold (entry_of (kv_map s) (res_identity i)). rewrite Hw. unfold has_reserved in Hag. rewrite Hag.
  unfold kv_ret, decideKernelQuotaSettlement.
  rewrite (bool_decide_false (Some w = None)), andb_false_r by done.
  rewrite Hcr, Ecr, Z.eqb_refl. cbn [negb]. rewrite (proj2 (Z.ltb_ge _ _)) by lia. cbn [app].
  match goal with |- context [commit _ ?cs ?ms (?n0, s)] =>
    destruct (commit_quiet cs ms n0 s (checks_now s [window_key (res_identity i);
      row_key (res_identity i) (windowCreatedAtMs i) (requestId i)])) as (s' & E & _ & Hm) end.
  unfold quiet in E. rewrite E. eexists _, s'. split; [done|]. rewrite Hm.
  cbn [apply_mutations foldl apply_mutation]. rewrite entry_of_row, entry_of_set.
  split; [|done]. unfold entry_at. by rewrite lookup_insert_eq.
Qed.

(** A release reason that is not blank within its first 120 characters. *)
Definition reason_ok (reason : string) : Prop :=
  empty (slice0 reason 120) = true \/ empty (trim (slice0 reason 120)) = false.

Lemma settled_row_wf i r t reason nowMs :
  row_wf i r -> state r = RReserved -> time_ok nowMs -> reason_ok reason ->
  row_wf i (settledKernelReservationRow r t reason nowMs).
Proof.
  intros [? ? ? ? ? ? ? ? ? ? ? Hcons] Hst Hn Hreason. rewrite Hst in Hcons. cbn in Hcons. inv_ok.
  destruct t; constructor; cbn; try done.
  - by match goal with H : released_at_ms r = None, H2 : release_reason r = None |- _ => rewrite H, H2 end.
  - match goal with H : committed_at_ms r = None |- _ => rewrite H end. cbn.
    destruct (empty (slice0 reason 120)) eqn:E; [done|]. destruct Hreason as [?|Hr]; [congruence|]. by rewrite Hr.
Qed.

Lemma settle_again_quiet i t t' reason reason' nowMs nowMs' m s r :
  canonical (res_identity i) ->
  entry_value (entry_at (kv_map s) (row_key (res_identity i) (windowCreatedAtMs i) (requestId i)))
    = json_row (settledKernelReservationRow r t reason nowMs) ->
  row_wf (res_identity i) (settledKernelReservationRow r t reason nowMs) ->
  request_id r = requestId i -> route r = res_route i -> window_created_at_ms r = windowCreatedAtMs i ->
  exists m', settleKernelReservationUnlocked quiet i t' reason' nowMs' (m, s)
    = (Ok (if bool_decide (t' = t) then Settled else TerminalMismatch), (m', s)).
Proof.
  intros Hi Hrow Hwf E1 E2 E3. unfold settleKernelReservationUnlocked, kv_bind, kv_lift, get, quiet.
  rewrite (kernelScopedWindowKey_canonical _ Hi), (kernelReservationKey_canonical _ Hi).
  rewrite !kv_get_spec, Hrow, (row_roundtrip _ _ Hwf).
  unfold kernelReservationPrecondition, kernelReservationMatchesRequest. cbn [mbind option_bind].
  assert (request_id (settledKernelReservationRow r t reason nowMs) = requestId i
    /\ route (settledKernelReservationRow r t reason nowMs) = res_route i
    /\ window_created_at_ms (settledKernelReservationRow r t reason nowMs) = windowCreatedAtMs i)
    as (-> & -> & ->) by by destruct t.
  rewrite !bool_decide_true, Z.eqb_refl by done. cbn [andb]. rewrite settled_row_state.
  rewrite (bool_decide_false (state_of t = RReserved)) by (by destruct t). cbn [negb].
  eexists. destruct t, t'; reflexivity.
Qed.

(** A reservation settles exactly once.  Without interference the
    settlement of an open reservation of the current window succeeds, stores
    the terminal row and moves the window by one reserved request and, for a
    commit, one used one; every later settlement finds it settled, or
    reports a mismatch when it asks for the other outcome, and changes
    nothing. *)
Theorem settle_exactly_once i t reason nowMs n s r w :
  settleable i t s r w -> time_ok nowMs -> reason_ok reason ->
  exists n' s', settleKernelReservationUnlocked quiet i t reason nowMs (n, s) = (Ok Settled, (n', s'))
    /\ entry_value (entry_at (kv_map s') (row_key (res_identity i) (windowCreatedAtMs i) (requestId i)))
       = json_row (settledKernelReservationRow r t reason nowMs)
    /\ entry_of (kv_map s') (res_identity i) = json_window (settled_window w t nowMs)
    /\ forall t' reason' nowMs' m, exists m',
         settleKernelReservationUnlocked quiet i t' reason' nowMs' (m, s')
         = (Ok (if bool_decide (t' = t) then Settled else TerminalMismatch), (m', s')).
Proof.
  intros Hs Hn Hreason. destruct (settle_unlocked_quiet i t reason nowMs n s r w Hs) as (n' & s' & H1 & H2 & H3).
  exists n', s'. split_and!; try done. intros t' reason' nowMs' m.
  destruct Hs as [Hi Hr Hp _ _ _ _]. apply precondition_none in Hp as (Hst & Ecr & Eid & Ert & _).
  eapply settle_again_quiet; eauto. apply settled_row_wf; try done. by eapply row_normalized_wf.
Qed.
End claims.

(** ** Decisions and round trips *)

(** What the adapters store they read back: a well-formed reservation row
    and a well-formed window normalize to themselves. *)
Theorem quota_rows_roundtrip i r w :
  row_wf i r -> window_wf i w ->
  normalizeKernelQuotaReservationRowV2 (json_row r) i = Some r
  /\ normalizeKernelQuotaWindowV2 (json_window w) i = Some w.
Proof. intros Hr Hw. split; [by apply row_roundtrip|by apply window_roundtrip]. Qed.

(** A stored policy that does not normalize never turns into the
    permissive default: the eligibility decision throws or refuses, and an
    eligible decision on a stored policy enforces exactly that policy, which is
    unexpired, has a positive window and a limit other than zero. *)
Theorem corrupt_policy_fails_closed i snap d c nowMs :
  is_null (value (snap_policy snap)) = false ->
  match decideKernelQuotaEligibility i snap d c nowMs with
  | Ok (Eligible eff) =>
      exists p, normalizeKernelQuotaPolicyV2 (value (snap_policy snap)) i c = Some p
        /\ eff = mkEffective (Some p) (usage_limit_requests p) (window_ms p) (p_expires_at_ms p) SourceKv
        /\ 0 < window_ms p <= MAX_SAFE_INTEGER /\ usage_limit_requests p <> 0
        /\ (usage_limit_requests p = noUsageLimit c \/ 0 < usage_limit_requests p <= MAX_SAFE_INTEGER)
        /\ (p_expires_at_ms p = noExpirationMs c \/ nowMs < p_expires_at_ms p)
  | Ok (EligibilityRefused status _) => status = 503 \/ status = 429
  | Err _ => normalizeKernelQuotaPolicyV2 (value (snap_policy snap)) i c = None
  end.
Proof.
  intros Hnull. destruct (decideKernelQuotaEligibility i snap d c nowMs) as [e|[st m|eff]] eqn:E.
  - unfold decideKernelQuotaEligibility in E. destruct (scope_changed snap); [done|].
    unfold policyFor in E. rewrite Hnull in E.
    destruct (normalizeKernelQuotaPolicyV2 _ _ _); [|done]. cbn in E. by repeat case_match.
  - unfold decideKernelQuotaEligibility in E. destruct (scope_changed snap); [inv_ok; naive_solver|].
    destruct (policyFor _ _ _ _); [done|]. cbn in E. repeat case_match; naive_solver.
  - apply eligible_effective in E as (Hpol & _ & Hexp & Hlim & _). unfold policyFor in Hpol.
    rewrite Hnull in Hpol. inv_ok. eexists. split; [done|]. split; [done|]. cbn in *.
    match goal with H : normalizeKernelQuotaPolicyV2 _ _ _ = Some ?p |- _ => rename p into p, H into Hp end.
    unfold normalizeKernelQuotaPolicyV2 in Hp. open_option Hp. injection Hp as <-.
    match goal with E : guard (_ && _ && _) = Some _ |- _ => apply guard_ok in E;
      rewrite !andb_true_iff, orb_true_iff, andb_true_iff, Z.ltb_lt, Z.eqb_eq, Z.leb_le, !isSafeInteger_spec in E;
      destruct E as [[Hs Hw] Hl] end. cbn in *.
    unfold isExpired in Hexp. apply andb_false_iff in Hexp. split_and!; try lia; try done.
Qed.

(** An expired lease is reclaimed as its holder last intended: a reserved
    row past its lease settles as committed exactly when the commit intent was
    recorded, and a row that is settled or still leased is left alone. *)
Theorem reclaim_honours_intent r nowMs :
  match decideKernelQuotaReclaim r nowMs with
  | Some t => state r = RReserved /\ lease_expires_at_ms r <= nowMs
              /\ (t = TCommitted <-> terminal_intent r = Some TCommitted)
              /\ forall id rt created, request_id r = id -> route r = rt -> window_created_at_ms r = created ->
                   kernelReservationPrecondition r id rt created t = None
  | None => state r <> RReserved \/ nowMs < lease_expires_at_ms r
  end.
Proof.
  unfold decideKernelQuotaReclaim. case_bool_decide as Hs; cbn [negb orb].
  - destruct (Z.ltb_spec nowMs (lease_expires_at_ms r)); [by right|].
    split_and!; try done.
    + destruct (terminal_intent r) as [[]|]; naive_solver.
    + intros id rt created <- <- <-. unfold kernelReservationPrecondition, kernelReservationMatchesRequest. cbn.
      rewrite Z.eqb_refl, !bool_decide_true by done. cbn. rewrite (bool_decide_true (state r = _)) by done.
      cbn. destruct (terminal_intent r) as [t|]; cbn; [|done]. by rewrite bool_decide_true.
  - by left.
Qed.

(** A release whose reason is blank is stored as a row that no reader accepts. *)
Lemma blank_reason_unreadable :
  in_state RReleased DemoKernel.org
    (json_row (settledKernelReservationRow
      (new_reservation DemoKernel.org (newWindow DemoKernel.org 3600000 10000) "r1" "/v1/responses" 10000)
      TReleased " " 20000)) = false.
Proof. vm_compute. reflexivity. Qed.

(** ** Witnesses *)

Lemma settlement_keeps_aggregates_witness :
  let result := settleKernelReservation DemoKernel.alone DemoKernel.clock
    (DemoKernel.row "r1") TCommitted "" (O, DemoKernel.s1) in
  fst result = Ok tt /\ row_count RCommitted DemoKernel.org 10000 (kv_map (snd (snd result))) = 1
  /\ quota_inv (kv_map (snd (snd result))).
Proof.
  split; [vm_compute; reflexivity|]. split; [vm_compute; reflexivity|].
  destruct (settleKernelReservation DemoKernel.alone DemoKernel.clock
    (DemoKernel.row "r1") TCommitted "" (O, DemoKernel.s1)) as [r [n' s']] eqn:E.
  refine (proj2 (settlement_keeps_aggregates _ _ (DemoKernel.row "r1") _ _ _ _ _ _ _
    DemoKernel.alone_evolves _ DemoKernel.s1_inv E)). reflexivity.
Defined.

(** The demonstration's second reservation is its one commit, and grants. *)
Lemma demo_reserve_log :
  last (kv_log (snd (snd (DemoKernel.reserve "r2" DemoKernel.s1))))
  = Some (kv_map DemoKernel.s1, kv_map (snd (snd (DemoKernel.reserve "r2" DemoKernel.s1)))).
Proof. vm_cast_no_check (eq_refl (Some (kv_map DemoKernel.s1, kv_map DemoKernel.s2))). Qed.

Lemma demo_reserve_grants :
  fst (DemoKernel.reserve "r2" DemoKernel.s1)
  = Ok (OutcomeDecision (ReservationGranted (DemoKernel.row "r2") 310000)).
Proof. vm_compute. reflexivity. Qed.

Lemma reserve_within_limit_witness :
  let s' := snd (snd (DemoKernel.reserve "r2" DemoKernel.s1)) in
  row_count RCommitted DemoKernel.org 10000 (kv_map s')
    + row_count RReserved DemoKernel.org 10000 (kv_map s') <= usage_limit_requests DemoKernel.pol
  /\ quota_inv (kv_map s').
Proof.
  intros s'. pose proof demo_reserve_log as Hlast. pose proof demo_reserve_grants as Hgrants. subst s'.
  destruct (DemoKernel.reserve "r2" DemoKernel.s1) as [r [n' s2]] eqn:E.
  unfold DemoKernel.reserve in E. cbn [fst snd] in *. subst r.
  destruct (reserve_within_limit DemoKernel.alone DemoKernel.org "r2" "/v1/responses" DemoKernel.options
    10000 false O DemoKernel.s1 _ _ n' s2 DemoKernel.alone_evolves eq_refl (ltac:(discriminate)) (ltac:(discriminate))
    DemoKernel.s1_inv E) as (_ & _ & log & m & eff & Hlog & _ & _ & Heff & _ & Hroom).
  rewrite Hlog, last_snoc in Hlast. injection Hlast as ->.
  vm_compute in Heff. injection Heff as <-.
  destruct Hroom as [[Hno|Hroom] Hinv]; [|discriminate Hno|exact (conj Hroom Hinv)].
  split_and!; [discriminate|discriminate|]. intros eff Heff. vm_compute in Heff. injection Heff as <-. left.
  eexists. split; [vm_compute; reflexivity|]. split; reflexivity.
Defined.

Lemma policy_write_keeps_reservations_witness : exists sc, evolves DemoKernel.s1 sc.
Proof.
  set (request := mkPolicyRequest DemoKernel.org (Fin (QArith_base.inject_Z 5)) (mkSetOptions false None None)).
  destruct (attemptSetKernelQuotaPolicy DemoKernel.alone DemoKernel.clock request
    (policy_key DemoKernel.org, window_key DemoKernel.org) (O, DemoKernel.s1)) as [r [n' s']] eqn:E.
  assert (exists p w, r = Ok (PolicyWritten p w)) as (p & w & ->).
  { replace r with (fst (attemptSetKernelQuotaPolicy DemoKernel.alone DemoKernel.clock request
      (policy_key DemoKernel.org, window_key DemoKernel.org) (O, DemoKernel.s1))) by (by rewrite E).
    eexists _, _. vm_compute. reflexivity. }
  destruct (policy_write_keeps_reservations DemoKernel.alone DemoKernel.clock request O DemoKernel.s1 p w n' s'
    DemoKernel.alone_evolves eq_refl DemoKernel.s1_inv E) as (sc & nowMs & H & _).
  exists sc. exact H.
Defined.

Lemma demo_settleable : exists r w, settleable (DemoKernel.row "r1") TCommitted DemoKernel.s1 r w.
Proof. eexists _, _. constructor; reflexivity. Qed.

Lemma settle_exactly_once_witness : exists n' s',
  settleKernelReservationUnlocked quiet (DemoKernel.row "r1") TCommitted "" 20000 (O, DemoKernel.s1)
  = (Ok Settled, (n', s')).
Proof.
  destruct demo_settleable as (r & w & H).
  assert (time_ok 20000) as Hn by (by vm_compute).
  assert (reason_ok "") as Hr by (by left).
  destruct (settle_exactly_once _ _ "" 20000 O _ _ _ H Hn Hr) as (n' & s' & E & _).
  exists n', s'. exact E.
Defined.

Lemma quota_rows_roundtrip_witness :
  let w := newWindow DemoKernel.org 3600000 10000 in
  let r := new_reservation DemoKernel.org w "r1" "/v1/responses" 10000 in
  normalizeKernelQuotaReservationRowV2 (json_row r) DemoKernel.org = Some r
  /\ normalizeKernelQuotaWindowV2 (json_window w) DemoKernel.org = Some w.
Proof.
  apply quota_rows_roundtrip; constructor; vm_compute; repeat split; try discriminate; try reflexivity.
Defined.

Lemma corrupt_policy_fails_closed_witness :
  let snap := mkEligibilitySnapshot (mkRead (JObj []) (Some 1)) None (mkRead JNull None) None in
  (exists e, decideKernelQuotaEligibility DemoKernel.org snap (mkDefaults 10 3600000)
               KERNEL_QUOTA_CONSTANTS 10000 = Err e)
  /\ normalizeKernelQuotaPolicyV2 (value (snap_policy snap)) DemoKernel.org KERNEL_QUOTA_CONSTANTS = None.
Proof.
  intros snap. split; [eexists; vm_compute; reflexivity|].
  exact (corrupt_policy_fails_closed DemoKernel.org snap (mkDefaults 10 3600000) KERNEL_QUOTA_CONSTANTS 10000 eq_refl).
Defined.
