(* ===== verification/KernelLease.v ===== *)
(** * The lease of a kernel reservation

    [kernelReservationContext] of [src/kernel/quota-reservations.ts]: the
    in-process object that renews the lease of an admitted reservation, aborts
    the request when the lease runs out, and drives the reservation to its
    terminal state.  The closure's variables are a record, every callback is a
    function on it, and one event is one task of the event loop: a timer, a
    client call, the return of a store call, or a promise continuation.  Timers
    are tasks and promise continuations are microtasks, so a timer only fires
    when no continuation is pending. *)

From stdpp Require Import base gmap strings list.
From Stdlib Require Import ZArith Lia.
From S2P Require Import Prelude Js KvStore KvLogic KernelQuota KernelStore KernelRows.
Open Scope string_scope.
Open Scope Z_scope.

(** ** The context *)

(** Where the promise chain of a settlement stands: waiting for the intent, for
    the settlement, before its [then], its [catch] or its [finally]. *)
Inductive SettlementStage := AwaitIntent | AwaitSettlement | BeforeThen | BeforeCatch | BeforeFinally.
Inductive RenewalStage := AwaitRenewal | BeforeUpdate (leaseExpiresAt : Z) | RenewalFinally.

Record SettlementPromise := mkSettlement { sp_id : nat; sp_state : TerminalState; sp_stage : SettlementStage }.
Record RenewalPromise := mkRenewal { rp_id : nat; rp_stage : RenewalStage }.

Record LeaseContext := mkLeaseContext {
  lc_aborted : bool;
  lc_leaseExpiresAtMs : Z;
  lc_renewalInFlight : option RenewalPromise;
  lc_terminalIntent : option TerminalState;
  lc_terminalReason : string;
  lc_terminalSettled : option TerminalState;
  lc_terminalInFlight : option SettlementPromise;
  (** [timers]: the interval, and when the two timeouts are due. *)
  lc_renewal : bool;
  lc_leaseExpiry : option Z;
  lc_settlementRetry : option Z;
  lc_settlementRetryDelayMs : Z;
  (** The next promise. *)
  lc_fresh : nat }.

#[export] Instance SettlementStage_eq_dec : EqDecision SettlementStage.
Proof. solve_decision. Defined.
#[export] Instance eta_LeaseContext : Eta LeaseContext := fun c =>
  mkLeaseContext (lc_aborted c) (lc_leaseExpiresAtMs c) (lc_renewalInFlight c) (lc_terminalIntent c)
    (lc_terminalReason c) (lc_terminalSettled c) (lc_terminalInFlight c) (lc_renewal c) (lc_leaseExpiry c)
    (lc_settlementRetry c) (lc_settlementRetryDelayMs c) (lc_fresh c).
#[export] Instance eta_SettlementPromise : Eta SettlementPromise := fun p =>
  mkSettlement (sp_id p) (sp_state p) (sp_stage p).

(** ** Timers *)

Definition stopRenewal (c : LeaseContext) : LeaseContext := c <| lc_renewal := false |>.
Definition clearLeaseExpiry (c : LeaseContext) : LeaseContext := c <| lc_leaseExpiry := None |>.

Definition stopAfterSettlement (c : LeaseContext) : LeaseContext :=
  clearLeaseExpiry (stopRenewal c) <| lc_settlementRetry := None |>.

Definition scheduleLeaseExpiry (now : Z) (c : LeaseContext) : LeaseContext :=
  let c := clearLeaseExpiry c in
  match lc_terminalSettled c with
  | Some _ => c
  | None => c <| lc_leaseExpiry := Some (now + Z.max 1 (lc_leaseExpiresAtMs c - now)) |>
  end.

(** The callback of the lease timer; it may read the clock twice. *)
Definition leaseExpiryFires (now now' : Z) (c : LeaseContext) : LeaseContext :=
  let c := c <| lc_leaseExpiry := None |> in
  match lc_terminalSettled c with
  | Some _ => c
  | None =>
      if now <? lc_leaseExpiresAtMs c then scheduleLeaseExpiry now' c else
      let c := c <| lc_aborted := true |> in
      match lc_terminalIntent c with None => stopRenewal c | Some _ => c end
  end.

Definition updateLease (now nextLeaseExpiresAtMs : Z) (c : LeaseContext) : LeaseContext :=
  scheduleLeaseExpiry now (c <| lc_leaseExpiresAtMs := nextLeaseExpiresAtMs |>).

Definition renew (c : LeaseContext) : LeaseContext :=
  match lc_terminalSettled c, lc_renewalInFlight c with
  | None, None => c <| lc_renewalInFlight := Some (mkRenewal (lc_fresh c) AwaitRenewal) |>
                    <| lc_fresh := S (lc_fresh c) |>
  | _, _ => c
  end.

Definition kernelReservationContext (now initialLeaseExpiresAtMs : Z) : LeaseContext :=
  scheduleLeaseExpiry now
    (mkLeaseContext false initialLeaseExpiresAtMs None None "request_incomplete" None None true None None
       KERNEL_QUOTA_SETTLEMENT_RETRY_MS 0).

(** ** Settlement *)

Definition scheduleSettlementRetry (now : Z) (c : LeaseContext) : LeaseContext :=
  match lc_terminalSettled c, lc_settlementRetry c with
  | None, None => c <| lc_settlementRetry := Some (now + lc_settlementRetryDelayMs c) |>
                    <| lc_settlementRetryDelayMs := Z.min (lc_settlementRetryDelayMs c * 2) 30000 |>
  | _, _ => c
  end.

(** The promise a call gets: rejected or resolved at once, or a settlement. *)
Inductive SettleReply := ReplyRejected | ReplyResolved | ReplyPromise (id : nat).

Definition launchSettlement (c : LeaseContext) : SettleReply * LeaseContext :=
  match lc_terminalIntent c with
  | None => (ReplyRejected, c)
  | Some state =>
      if bool_decide (lc_terminalSettled c = Some state) then (ReplyResolved, c) else
      match lc_terminalInFlight c with
      | Some p => (ReplyPromise (sp_id p), c)
      | None => (ReplyPromise (lc_fresh c),
          c <| lc_terminalInFlight := Some (mkSettlement (lc_fresh c) state AwaitIntent) |>
            <| lc_fresh := S (lc_fresh c) |>)
      end
  end.

Definition settleContext (state : TerminalState) (reason : string) (c : LeaseContext) : SettleReply * LeaseContext :=
  let c := match lc_terminalIntent c with
    | None => c <| lc_terminalIntent := Some state |>
                <| lc_terminalReason := match state with TCommitted => "completed" | TReleased => reason end |>
    | Some _ => c
    end in
  if negb (bool_decide (lc_terminalIntent c = Some state)) then (ReplyRejected, c) else
  if bool_decide (lc_terminalSettled c = Some state) then (ReplyResolved, c) else
  launchSettlement c.

(** The continuations of the settlement's promise chain.  A settlement is only
    launched when none is in flight and [finally] is the last continuation of
    its chain, so the promise in flight is the one whose chain runs and the
    test [terminalInFlight === current] holds; renewals are alike. *)
Definition intentReturns (r : Result string (option Z)) (now : Z) (c : LeaseContext) : LeaseContext :=
  match lc_terminalInFlight c with
  | Some p =>
      match r with
      | Ok next =>
          let c := match next with Some lease => updateLease now lease c | None => c end in
          c <| lc_terminalInFlight := Some (p <| sp_stage := AwaitSettlement |>) |>
      | Err _ => c <| lc_terminalInFlight := Some (p <| sp_stage := BeforeCatch |>) |>
      end
  | None => c
  end.

Definition settlementReturns (r : Result string unit) (c : LeaseContext) : LeaseContext :=
  match lc_terminalInFlight c with
  | Some p =>
      let stage := match r with Ok _ => BeforeThen | Err _ => BeforeCatch end in
      c <| lc_terminalInFlight := Some (p <| sp_stage := stage |>) |>
  | None => c
  end.

Definition settlementContinues (now : Z) (c : LeaseContext) : LeaseContext :=
  match lc_terminalInFlight c with
  | Some p =>
      match sp_stage p with
      | BeforeThen =>
          stopAfterSettlement (c <| lc_terminalSettled := Some (sp_state p) |>)
            <| lc_terminalInFlight := Some (p <| sp_stage := BeforeFinally |>) |>
      | BeforeCatch =>
          scheduleSettlementRetry now c
            <| lc_terminalInFlight := Some (p <| sp_stage := BeforeFinally |>) |>
      | BeforeFinally => c <| lc_terminalInFlight := None |>
      | _ => c
      end
  | None => c
  end.

Definition renewalReturns (r : Result string Z) (c : LeaseContext) : LeaseContext :=
  match lc_renewalInFlight c with
  | Some p =>
      c <| lc_renewalInFlight := Some (mkRenewal (rp_id p)
             match r with Ok lease => BeforeUpdate lease | Err _ => RenewalFinally end) |>
  | None => c
  end.

Definition renewalContinues (now : Z) (c : LeaseContext) : LeaseContext :=
  match lc_renewalInFlight c with
  | Some (mkRenewal id (BeforeUpdate lease)) =>
      updateLease now lease c <| lc_renewalInFlight := Some (mkRenewal id RenewalFinally) |>
  | Some (mkRenewal _ RenewalFinally) => c <| lc_renewalInFlight := None |>
  | _ => c
  end.

Definition retryFires (c : LeaseContext) : LeaseContext := snd (launchSettlement (c <| lc_settlementRetry := None |>)).

(** ** Events *)

Inductive LeaseEvent :=
| ClientSettles (state : TerminalState) (reason : string)
| RenewalTick
| LeaseExpiryFires (now now' : Z)
| RetryFires
| RenewalContinues (now : Z)
| SettlementContinues (now : Z)
| RenewalReturns (r : Result string Z)
| IntentReturns (r : Result string (option Z)) (now : Z)
| SettlementReturns (r : Result string unit).

Definition handle (e : LeaseEvent) (c : LeaseContext) : LeaseContext :=
  match e with
  | ClientSettles state reason => snd (settleContext state reason c)
  | RenewalTick => renew c
  | LeaseExpiryFires now now' => leaseExpiryFires now now' c
  | RetryFires => retryFires c
  | RenewalContinues now => renewalContinues now c
  | SettlementContinues now => settlementContinues now c
  | RenewalReturns r => renewalReturns r c
  | IntentReturns r now => intentReturns r now c
  | SettlementReturns r => settlementReturns r c
  end.

Definition stage (c : LeaseContext) : option SettlementStage := sp_stage <$> lc_terminalInFlight c.
Definition renewal_stage (c : LeaseContext) : option RenewalStage := rp_stage <$> lc_renewalInFlight c.

Definition microtask_pending (c : LeaseContext) : bool :=
  match stage c with Some (BeforeThen | BeforeCatch | BeforeFinally) => true | _ => false end
  || match renewal_stage c with Some (BeforeUpdate _ | RenewalFinally) => true | _ => false end.

(** The events the event loop can deliver. *)
Definition enabled (e : LeaseEvent) (c : LeaseContext) : Prop :=
  match e with
  | ClientSettles _ _ => True
  | RenewalTick => lc_renewal c = true /\ microtask_pending c = false
  | LeaseExpiryFires _ _ => is_Some (lc_leaseExpiry c) /\ microtask_pending c = false
  | RetryFires => is_Some (lc_settlementRetry c) /\ microtask_pending c = false
  | RenewalContinues _ | SettlementContinues _ => True
  | RenewalReturns _ => renewal_stage c = Some AwaitRenewal
  | IntentReturns _ _ => stage c = Some AwaitIntent
  | SettlementReturns _ => stage c = Some AwaitSettlement
  end.

(** ** Well-formed contexts *)

Record lease_wf (c : LeaseContext) : Prop := {
  (** What is settled is what was intended. *)
  lw_settled t : lc_terminalSettled c = Some t -> lc_terminalIntent c = Some t;
  (** The settlement in flight is for the intent, and only its last
      continuation is left once the context is settled. *)
  lw_promise p : lc_terminalInFlight c = Some p -> lc_terminalIntent c = Some (sp_state p);
  lw_done t p : lc_terminalSettled c = Some t -> lc_terminalInFlight c = Some p -> sp_stage p = BeforeFinally;
  (** An intent is never lost: it is settled, being settled, or a retry is armed. *)
  lw_driven t : lc_terminalIntent c = Some t ->
    lc_terminalSettled c = Some t
    \/ (exists p, lc_terminalInFlight c = Some p /\ sp_stage p <> BeforeFinally)
    \/ is_Some (lc_settlementRetry c);
  (** Every timer stops once settled; before, the lease is watched until it
      aborts the request, and renewed unless it aborted it. *)
  lw_quiet t : lc_terminalSettled c = Some t ->
    lc_renewal c = false /\ lc_leaseExpiry c = None /\ lc_settlementRetry c = None;
  lw_watched : lc_terminalSettled c = None -> is_Some (lc_leaseExpiry c) \/ lc_aborted c = true;
  lw_renewed : lc_terminalSettled c = None -> lc_renewal c = true \/ lc_aborted c = true;
  lw_delay : 1000 <= lc_settlementRetryDelayMs c <= 30000 }.

Lemma initial_wf now lease : lease_wf (kernelReservationContext now lease).
Proof. constructor; cbn; try done; eauto. Qed.

Ltac lease_solve := constructor; cbn in *; intros; simplify_eq; try (by eauto); try lia; naive_solver.

Lemma updateLease_wf now lease c : lease_wf c -> lease_wf (updateLease now lease c).
Proof.
  intros [H1 H2 H3 H4 H5 H6 H7 H8]. unfold updateLease, scheduleLeaseExpiry. cbn.
  destruct (lc_terminalSettled c) eqn:E; lease_solve.
Qed.

Lemma leaseExpiryFires_wf now now' c : lease_wf c -> lease_wf (leaseExpiryFires now now' c).
Proof.
  intros [H1 H2 H3 H4 H5 H6 H7 H8]. unfold leaseExpiryFires, scheduleLeaseExpiry. cbn.
  destruct (lc_terminalSettled c) eqn:E; [lease_solve|]. destruct (now <? _); cbn; [lease_solve|].
  destruct (lc_terminalIntent c) eqn:Ei; lease_solve.
Qed.

Lemma launchSettlement_wf c : lease_wf c -> lease_wf (snd (launchSettlement c)).
Proof.
  intros Hwf. unfold launchSettlement. destruct (lc_terminalIntent c) as [t|] eqn:Ei; [|done].
  case_bool_decide; [done|]. destruct (lc_terminalInFlight c) eqn:Ep; [done|].
  destruct Hwf as [H1 H2 H3 H4 H5 H6 H7 H8]. destruct (lc_terminalSettled c) as [t'|] eqn:E; [naive_solver|]. lease_solve.
Qed.

(** Launching keeps the intent driven even if the retry that did was spent. *)
Lemma retryFires_wf c : lease_wf c -> microtask_pending c = false -> lease_wf (retryFires c).
Proof.
  intros [H1 H2 H3 H4 H5 H6 H7 H8] Hm. unfold retryFires, launchSettlement. cbn.
  destruct (lc_terminalIntent c) as [t|] eqn:Ei; [|lease_solve].
  case_bool_decide as Hs; [lease_solve|].
  assert (lc_terminalSettled c = None) as E by (destruct (lc_terminalSettled c); [naive_solver|done]).
  destruct (lc_terminalInFlight c) as [q|] eqn:Ep; [|lease_solve].
  assert (sp_stage q <> BeforeFinally) as Hq.
  { unfold microtask_pending, stage in Hm. rewrite Ep in Hm. cbn in Hm. by destruct (sp_stage q). }
  lease_solve.
Qed.

Lemma settleContext_wf t reason c : lease_wf c -> lease_wf (snd (settleContext t reason c)).
Proof.
  intros Hwf. unfold settleContext. destruct (lc_terminalIntent c) as [t0|] eqn:Ei.
  - cbn. destruct (negb _); [done|]. case_bool_decide; [done|]. by apply launchSettlement_wf.
  - cbn. rewrite bool_decide_true by done. cbn [negb].
    destruct Hwf as [H1 H2 H3 H4 H5 H6 H7 H8].
    destruct (lc_terminalSettled c) as [t'|] eqn:E; [naive_solver|]. rewrite bool_decide_false by done.
    unfold launchSettlement. cbn.
    destruct (lc_terminalInFlight c) eqn:Ep; [naive_solver|]. lease_solve.
Qed.

(** The promise in flight moves on to a stage that still drives it. *)
Lemma stage_wf p st c :
  lease_wf c -> lc_terminalInFlight c = Some p -> lc_terminalSettled c = None -> st <> BeforeFinally ->
  lease_wf (c <| lc_terminalInFlight := Some (p <| sp_stage := st |>) |>).
Proof.
  intros [H1 H2 H3 H4 H5 H6 H7 H8] Hp Hs Hst. constructor; cbn; intros; simplify_eq; eauto; try congruence.
  cbn. by apply H2.
Qed.

Lemma awaiting_unsettled p c :
  lease_wf c -> lc_terminalInFlight c = Some p -> sp_stage p <> BeforeFinally -> lc_terminalSettled c = None.
Proof. intros Hwf Hp Hst. destruct (lc_terminalSettled c) eqn:E; [|done]. by destruct Hst; eapply lw_done. Qed.

Lemma updateLease_frame now lease c :
  lc_terminalInFlight (updateLease now lease c) = lc_terminalInFlight c
  /\ lc_terminalSettled (updateLease now lease c) = lc_terminalSettled c
  /\ lc_terminalIntent (updateLease now lease c) = lc_terminalIntent c.
Proof. unfold updateLease, scheduleLeaseExpiry. cbn. by destruct (lc_terminalSettled c). Qed.

Lemma intentReturns_wf r now c : lease_wf c -> stage c = Some AwaitIntent -> lease_wf (intentReturns r now c).
Proof.
  intros Hwf Hst. unfold intentReturns, stage in *. destruct (lc_terminalInFlight c) as [p|] eqn:Ep; [|done].
  injection Hst as Hst. assert (lc_terminalSettled c = None) as Hs by (eapply awaiting_unsettled; [..|rewrite Hst]; done).
  destruct r as [|[lease|]]; [by apply stage_wf| |by apply stage_wf].
  destruct (updateLease_frame now lease c) as (E1 & E2 & _).
  apply stage_wf; [by apply updateLease_wf|congruence|congruence|done].
Qed.

Lemma settlementReturns_wf r c : lease_wf c -> stage c = Some AwaitSettlement -> lease_wf (settlementReturns r c).
Proof.
  intros Hwf Hst. unfold settlementReturns, stage in *. destruct (lc_terminalInFlight c) as [p|] eqn:Ep; [|done].
  injection Hst as Hst. assert (lc_terminalSettled c = None) as Hs by (eapply awaiting_unsettled; [..|rewrite Hst]; done).
  apply stage_wf; [done..|]. by destruct r.
Qed.

Lemma settlementContinues_wf now c : lease_wf c -> lease_wf (settlementContinues now c).
Proof.
  intros Hwf. unfold settlementContinues. destruct (lc_terminalInFlight c) as [p|] eqn:Ep; [|done].
  pose proof (awaiting_unsettled p c Hwf Ep) as Hu. destruct Hwf as [H1 H2 H3 H4 H5 H6 H7 H8].
  pose proof (H2 p Ep) as Hi. destruct (sp_stage p) eqn:Est; [done|done|..].
  - unfold stopAfterSettlement. lease_solve.
  - unfold scheduleSettlementRetry. rewrite Hu by done. destruct (lc_settlementRetry c) eqn:Er; lease_solve.
  - constructor; cbn; try done. intros t Ht. destruct (H4 t Ht) as [|[(q & Hq & Hne)|]]; eauto. congruence.
Qed.

Lemma handle_wf e c : lease_wf c -> enabled e c -> lease_wf (handle e c).
Proof.
  intros Hwf Hen. destruct e; cbn [handle enabled] in *.
  - by apply settleContext_wf.
  - unfold renew. destruct (lc_terminalSettled c) eqn:E, (lc_renewalInFlight c); try done.
    destruct Hwf as [H1 H2 H3 H4 H5 H6 H7 H8]. lease_solve.
  - by apply leaseExpiryFires_wf.
  - by apply retryFires_wf, Hen.
  - unfold renewalContinues. destruct (lc_renewalInFlight c) as [[id [|lease|]]|]; [done| |by destruct Hwf|done].
    by destruct (updateLease_wf now lease c Hwf).
  - by apply settlementContinues_wf.
  - unfold renewalReturns. destruct (lc_renewalInFlight c); [by destruct Hwf|done].
  - by apply intentReturns_wf.
  - by apply settlementReturns_wf.
Qed.

(** Every handler down to its branches. *)
Ltac unfold_lease :=
  unfold settleContext, launchSettlement, retryFires, launchSettlement, intentReturns, settlementReturns,
    settlementContinues, renewalContinues, renewalReturns, renew, leaseExpiryFires, updateLease,
    scheduleLeaseExpiry, scheduleSettlementRetry.
Ltac lease_cases := repeat (case_match; cbn in *; simplify_eq; eauto).

(** A sequence of events the event loop can deliver. *)
Fixpoint deliver (es : list LeaseEvent) (c : LeaseContext) : LeaseContext :=
  match es with [] => c | e :: es => deliver es (handle e c) end.
Fixpoint deliverable (es : list LeaseEvent) (c : LeaseContext) : Prop :=
  match es with [] => True | e :: es => enabled e c /\ deliverable es (handle e c) end.
