(* ===== verification/KernelLeaseTheorems.v ===== *)
(** * The lease of a kernel reservation: what it guarantees

    The context of KernelLease.v next to the store its promises run on.  The
    other clients of the store keep a terminal row terminal ([row_final]);
    every store call of the context is shown to do the same, so what the
    context reports as settled is what the store holds. *)

From stdpp Require Import base gmap strings list.
From Stdlib Require Import ZArith Lia.
From S2P Require Import Prelude Js KvStore KvLogic KernelQuota KernelStore KernelRows KernelSafety.
From S2P Require Import KernelGuarantee KernelTheorems KernelLease.
Open Scope string_scope.
Open Scope Z_scope.

Lemma normalized_state v j r :
  normalizeKernelQuotaReservationRowV2 v j = Some r -> prop v "state" = json_state (state r).
Proof.
  intros H. unfold normalizeKernelQuotaReservationRowV2 in H.
  repeat match type of H with (?m ≫= _) = Some _ => destruct m eqn:?; cbn [mbind option_bind] in H; [|done] end.
  injection H as <-. cbn [state].
  match goal with E : reservation_state _ = Some _ |- _ => revert E end.
  unfold reservation_state, is_str. destruct (prop v "state") ; try done.
  repeat (case_bool_decide; [intros [= <-]; by subst|]). done.
Qed.

Section world.
Context {S : Type} `{Kv : KvStore S}.
Context (others : Clients S) (clock : nat -> Z) (i : KernelQuotaReservationIdentity).
Local Notation at_ s k := (entry_at (kv_map s) k).
Local Notation key := (row_key (res_identity i) (windowCreatedAtMs i) (requestId i)).

(** The stored row of the reservation is terminal. *)
Definition stored_as (m : KvMap) (t : TerminalState) : Prop :=
  prop (entry_value (entry_at m key)) "state" = json_intent t.

(** Nobody reopens or changes a terminal row. *)
Record row_final (s s' : S) : Prop := {
  rf_advances : advances s s';
  rf_terminal t : stored_as (kv_map s) t -> stored_as (kv_map s') t }.

#[export] Instance row_final_preorder : PreOrder row_final.
Proof.
  split; [intros s; constructor; auto using advances_refl|].
  intros s1 s2 s3 [A1 T1] [A2 T2]. constructor; eauto using advances_trans.
Qed.

(** A commit that checks the row while it is still reserved. *)
Lemma reserved_commit_final cs ms s1 s s' r :
  row_final s1 s -> kv_commit cs ms s = (true, s') -> at_ s1 key ∈ cs ->
  normalizeKernelQuotaReservationRowV2 (entry_value (at_ s1 key)) (res_identity i) = Some r ->
  state r = RReserved -> row_final s s'.
Proof.
  intros [Ha _] Hc Hin Hr Hst. constructor; [by eapply commit_advances|]. intros t Ht. exfalso.
  assert (at_ s key = at_ s1 key) as E by (by eapply checked_unchanged).
  unfold stored_as in Ht. rewrite E, (normalized_state _ _ _ Hr), Hst in Ht. by destruct t.
Qed.

Context `{Hothers : !RelyOn row_final others} (Hi : canonical (res_identity i)).
Local Notation guarantees := (guarantees row_final).

Lemma final_retries {A} tries (m : KvM S (option A)) e :
  guarantees m -> guarantees (with_retries tries m e).
Proof using Type.
  intros Hm. induction tries as [|tries IH]; cbn; [apply guarantees_throw|].
  apply guarantees_bind; [apply guarantees_catch; auto with gateway|]. intros [a|]; auto with gateway.
Qed.

Lemma renew_final : guarantees (renewKernelReservation others clock i).
Proof.
  apply final_retries. intros s. apply triple_bind, triple_lift. rewrite (kernelReservationKey_canonical _ Hi).
  apply triple_bind, triple_get. intros s1 H1. apply triple_bind, triple_now. intros nowMs.
  apply triple_bind, triple_lift. unfold decideKernelQuotaRenewal. cbn [value kernelQuotaRead].
  destruct (normalizeKernelQuotaReservationRowV2 _ _) as [r|] eqn:Hr; [|exact H1].
  unfold kernelReservationMatchesRequest. cbn. destruct (_ && _); cbn; [|exact H1].
  destruct (state r) eqn:Hst; cbn; [|exact H1..].
  apply triple_bind, triple_commit; [intros s4 s5 H4 Hc|intros s4 H4]; apply triple_ret; [|by etrans].
  etrans; [etrans; [exact H1|exact H4]|]. eapply reserved_commit_final; [exact H4|exact Hc|by left|exact Hr|done].
Qed.

Lemma intent_final t : guarantees (recordKernelReservationTerminalIntent others clock i t).
Proof.
  apply final_retries, guarantees_bind; [apply guarantees_now|]. intros nowMs.
  apply guarantees_bind; [|intros [[]|]; auto with gateway].
  intros s. unfold recordKernelReservationTerminalIntentUnlocked.
  apply triple_bind, triple_lift. rewrite (kernelReservationKey_canonical _ Hi).
  apply triple_bind, triple_get. intros s1 H1. unfold decideKernelQuotaTerminalIntent. cbn [value kernelQuotaRead].
  destruct (normalizeKernelQuotaReservationRowV2 _ _) as [r|] eqn:Hr; [|by apply triple_ret].
  destruct (kernelReservationPrecondition _ _ _ _ _) as [o|] eqn:Hp; [by apply triple_ret|].
  apply precondition_none in Hp as (Hst & _).
  apply triple_bind, triple_commit; [intros s4 s5 H4 Hc|intros s4 H4]; apply triple_ret; [|by etrans].
  etrans; [etrans; [exact H1|exact H4]|]. eapply reserved_commit_final; [exact H4|exact Hc|by left|exact Hr|done].
Qed.

Lemma reconcile_final e j : guarantees (reconcileKernelQuotaWindowReservations others e j).
Proof using Hothers.
  unfold reconcileKernelQuotaWindowReservations. destruct (normalizeKernelQuotaWindowV2 _ _); [|auto with gateway].
  case_match; auto with gateway.
Qed.

Lemma precondition_settled r id rt created t :
  kernelReservationPrecondition r id rt created t = Some Settled -> state r = state_of t.
Proof using Type.
  unfold kernelReservationPrecondition, kernelReservationMatchesRequest. cbn. destruct (_ && _); [|done].
  destruct (negb _); [by case_bool_decide|]. destruct (terminal_intent r); [by case_bool_decide|done].
Qed.

(** A settlement answered as settled left, or found, the row terminal. *)
Lemma settle_unlocked_final t reason nowMs s :
  triple (settleKernelReservationUnlocked others i t reason nowMs) s
    (fun r s' => row_final s s' /\ (r = Ok Settled -> stored_as (kv_map s') t)).
Proof.
  unfold settleKernelReservationUnlocked.
  apply triple_bind, triple_lift. rewrite (kernelScopedWindowKey_canonical _ Hi).
  apply triple_bind, triple_lift. rewrite (kernelReservationKey_canonical _ Hi).
  apply triple_bind, triple_get. intros s1 H1. apply triple_bind, triple_get. intros s2 H2.
  assert (row_final s s2) as H02 by (by etrans).
  destruct (normalizeKernelQuotaReservationRowV2 _ _) as [r|] eqn:Hr;
    [|apply triple_ret; split; [done|by destruct (is_null _)]].
  destruct (kernelReservationPrecondition _ _ _ _ _) as [o|] eqn:Hp.
  { apply triple_ret. split; [done|]. intros [= ->]. apply precondition_settled in Hp.
    unfold stored_as. rewrite (normalized_state _ _ _ Hr), Hp. by destruct t. }
  apply precondition_none in Hp as (Hst & _).
  apply triple_bind. eapply triple_mono; [apply reconcile_final|]. intros [m|w] s3 H3; [by split; [etrans|]|].
  assert (row_final s s3) as H03 by (by etrans).
  destruct (decideKernelQuotaSettlement _ _ _ _ _ _) as [o|r' w' e] eqn:Hplan.
  { apply triple_ret. split; [done|]. intros [= ->]. unfold decideKernelQuotaSettlement in Hplan. by repeat case_match. }
  apply triple_bind, triple_commit; [intros s4 s5 H4 Hc|intros s4 H4]; apply triple_ret; [|by split; [etrans|]].
  assert (row_final s2 s4) as H24 by (by etrans). split.
  - etrans; [exact H02|]. etrans; [exact H24|]. eapply reserved_commit_final; [exact H24|exact Hc| |exact Hr|done].
    set_solver.
  - intros _. destruct (kv_commit_ok _ _ _ _ Hc) as (_ & _ & Hm). unfold stored_as.
    assert (state r' = state_of t) as Hr' by
      (unfold decideKernelQuotaSettlement in Hplan; repeat case_match; simplify_eq; by destruct t).
    rewrite Hm, apply_mutations_app. cbn [apply_mutations foldl apply_mutation]. unfold entry_at.
    rewrite lookup_insert_eq. cbn. unfold json_row, json_identity. rewrite Hr'. by destruct (r_repo r'), t.
Qed.

(** The same for the retried call. *)
Lemma settle_final t reason s :
  triple (settleKernelReservation others clock i t reason) s
    (fun r s' => row_final s s' /\ (r = Ok tt -> stored_as (kv_map s') t)).
Proof.
  unfold settleKernelReservation. generalize MAX_KV_RETRIES.
  match goal with |- forall n, triple (with_retries n ?b ?e) s _ =>
    intros tries; revert s; induction tries as [|tries IH]; intros s; cbn [with_retries]; [by apply triple_throw|];
    assert (forall s1, row_final s s1 -> triple (with_retries tries b e) s1
      (fun r s' => row_final s s' /\ (r = Ok tt -> stored_as (kv_map s') t))) as Hagain
      by (intros s1 H1; eapply triple_mono; [apply IH|]; intros r s2 [H2 ?]; split; [by etrans|done]) end.
  apply triple_bind, triple_catch, triple_bind, triple_now. intros nowMs.
  apply triple_bind. eapply triple_mono; [apply settle_unlocked_final|]. intros [m|o] s1 [H1 Hs].
  - by apply triple_ret, Hagain.
  - destruct o; [by apply triple_ret, triple_ret; auto|..|by apply triple_ret, Hagain];
      by apply triple_throw, triple_ret, Hagain.
Qed.

(** ** The context and the store *)

Record LeaseWorld := mkLeaseWorld { w_context : LeaseContext; w_tick : nat; w_store : S }.

Definition local (e : LeaseEvent) : bool :=
  match e with RenewalReturns _ | IntentReturns _ _ | SettlementReturns _ => false | _ => true end.

(** One event: another client of the store, a task of the event loop, or a
    store call of one of the promises, run to its end among the other clients. *)
Inductive lease_step : LeaseWorld -> LeaseWorld -> Prop :=
| step_other c n s s' : row_final s s' -> lease_step (mkLeaseWorld c n s) (mkLeaseWorld c n s')
| step_local c n s e :
    local e = true -> enabled e c -> lease_step (mkLeaseWorld c n s) (mkLeaseWorld (handle e c) n s)
| step_renew c n s r n' s' :
    enabled (RenewalReturns r) c -> renewKernelReservation others clock i (n, s) = (r, (n', s')) ->
    lease_step (mkLeaseWorld c n s) (mkLeaseWorld (handle (RenewalReturns r) c) n' s')
| step_intent c n s p r now n' s' :
    lc_terminalInFlight c = Some p -> enabled (IntentReturns r now) c ->
    recordKernelReservationTerminalIntent others clock i (sp_state p) (n, s) = (r, (n', s')) ->
    lease_step (mkLeaseWorld c n s) (mkLeaseWorld (handle (IntentReturns r now) c) n' s')
| step_settle c n s p r n' s' :
    lc_terminalInFlight c = Some p -> enabled (SettlementReturns r) c ->
    settleKernelReservation others clock i (sp_state p) (lc_terminalReason c) (n, s) = (r, (n', s')) ->
    lease_step (mkLeaseWorld c n s) (mkLeaseWorld (handle (SettlementReturns r) c) n' s').

Inductive lease_reachable (w0 : LeaseWorld) : LeaseWorld -> Prop :=
| reach_start : lease_reachable w0 w0
| reach_step w w' : lease_reachable w0 w -> lease_step w w' -> lease_reachable w0 w'.

(** What the context believes of the store holds there. *)
Record world_wf (w : LeaseWorld) : Prop := {
  ww_context : lease_wf (w_context w);
  ww_settled t : lc_terminalSettled (w_context w) = Some t -> stored_as (kv_map (w_store w)) t;
  ww_then p : lc_terminalInFlight (w_context w) = Some p -> sp_stage p = BeforeThen ->
    stored_as (kv_map (w_store w)) (sp_state p) }.

Lemma world_store c n n' s s' :
  world_wf (mkLeaseWorld c n s) -> row_final s s' -> world_wf (mkLeaseWorld c n' s').
Proof using Type. intros [H1 H2 H3] [_ Hf]. constructor; cbn in *; eauto. Qed.

(** Only the [then] of a settlement changes what is settled, and no local event
    brings a settlement before its [then]. *)
Lemma handle_settled e c t :
  lc_terminalSettled (handle e c) = Some t ->
  lc_terminalSettled c = Some t
  \/ exists p, lc_terminalInFlight c = Some p /\ sp_stage p = BeforeThen /\ t = sp_state p.
Proof using Type.
  destruct e; cbn [handle]; unfold_lease; intros H; lease_cases;
    naive_solver.
Qed.

Lemma handle_then e c p :
  lc_terminalInFlight (handle e c) = Some p -> sp_stage p = BeforeThen ->
  lc_terminalInFlight c = Some p
  \/ exists r q, e = SettlementReturns (Ok r) /\ lc_terminalInFlight c = Some q /\ sp_state p = sp_state q.
Proof using Type.
  destruct e; cbn [handle]; unfold_lease; intros H Hst; lease_cases;
    naive_solver.
Qed.

(** An event of the context on an unchanged store. *)
Lemma handle_world e c n s :
  world_wf (mkLeaseWorld c n s) -> enabled e c ->
  (forall r p, e = SettlementReturns (Ok r) -> lc_terminalInFlight c = Some p -> stored_as (kv_map s) (sp_state p)) ->
  world_wf (mkLeaseWorld (handle e c) n s).
Proof using Type.
  intros [H1 H2 H3] Hen Hok. constructor; cbn in *.
  - by apply handle_wf.
  - intros t [Ht|(p & Hp & Hst & ->)]%handle_settled; eauto.
  - intros p Hp Hst. destruct (handle_then _ _ _ Hp Hst) as [?|(r & q & -> & Hq & ->)]; eauto.
Qed.

Lemma step_world w w' : lease_step w w' -> world_wf w -> world_wf w'.
Proof.
  intros Hstep Hw. destruct Hstep as [c n s s' Hf|c n s e Hl Hen|c n s r n' s' Hen E|c n s p r now n' s' Hp Hen E|
    c n s p r n' s' Hp Hen E].
  - by eapply world_store.
  - apply handle_world; [done|done|]. by intros r p ->.
  - apply handle_world; [|done|done]. eapply world_store; [exact Hw|]. by apply (triple_run _ _ _ _ _ _ _ (renew_final s) E).
  - apply handle_world; [|done|done]. eapply world_store; [exact Hw|].
    by apply (triple_run _ _ _ _ _ _ _ (intent_final (sp_state p) s) E).
  - destruct (triple_run _ _ _ _ _ _ _ (settle_final (sp_state p) (lc_terminalReason c) s) E) as [Hf Hs].
    apply handle_world; [by eapply world_store|done|]. intros r0 q [= ->] Hq. assert (q = p) as -> by congruence.
    apply Hs. by destruct r0.
Qed.

Lemma reachable_world now lease n s w :
  lease_reachable (mkLeaseWorld (kernelReservationContext now lease) n s) w -> world_wf w.
Proof.
  induction 1 as [|w w' _ IH Hstep]; [|by eapply step_world].
  constructor; cbn; [apply initial_wf|done|done].
Qed.

(** C37: an intent is never lost and never half done.  In every reachable
    state, whatever the other clients of the store and the event loop do: a
    context that reports a terminal state holds the row in that state in the
    store, intended exactly that, and has every timer stopped; an intent that
    is not settled yet has a settlement under way or a retry armed; and until
    then the lease is renewed and watched unless it ran out and aborted the
    request. *)
Theorem lease_settles_durably now lease n s w :
  lease_reachable (mkLeaseWorld (kernelReservationContext now lease) n s) w ->
  let c := w_context w in
  (forall t, lc_terminalSettled c = Some t ->
     stored_as (kv_map (w_store w)) t /\ lc_terminalIntent c = Some t
     /\ lc_renewal c = false /\ lc_leaseExpiry c = None /\ lc_settlementRetry c = None)
  /\ (forall t, lc_terminalIntent c = Some t -> lc_terminalSettled c = None ->
        is_Some (lc_terminalInFlight c) \/ is_Some (lc_settlementRetry c))
  /\ (lc_terminalSettled c = None ->
        lc_aborted c = true \/ lc_renewal c = true /\ is_Some (lc_leaseExpiry c)).
Proof.
  intros Hr. destruct (reachable_world _ _ _ _ _ Hr) as [[H1 H2 H3 H4 H5 H6 H7 H8] Hs _]. cbn zeta. split_and!.
  - intros t Ht. split_and!; [by apply Hs|by apply H1|by apply (H5 t)..].
  - intros t Ht Hn. destruct (H4 t Ht) as [|[(p & Hp & _)|]]; [congruence|eauto..].
  - intros Hn. destruct (H6 Hn), (H7 Hn); auto.
Qed.
End world.

(** The context only moves one way.  No event changes an intent, its
    reason or what is settled; the request is aborted only by the lease timer,
    at a time the lease as last renewed is over; and a caller that asks for the
    other terminal state is refused and changes nothing. *)
Theorem lease_one_way e c :
  (forall t, lc_terminalIntent c = Some t ->
     lc_terminalIntent (handle e c) = Some t /\ lc_terminalReason (handle e c) = lc_terminalReason c)
  /\ (lease_wf c -> forall t, lc_terminalSettled c = Some t -> lc_terminalSettled (handle e c) = Some t)
  /\ (lc_aborted c = false -> lc_aborted (handle e c) = true ->
       exists now now', e = LeaseExpiryFires now now' /\ lc_leaseExpiresAtMs c <= now /\ lc_terminalSettled c = None)
  /\ (forall t t' reason, lc_terminalIntent c = Some t -> t' <> t -> settleContext t' reason c = (ReplyRejected, c)).
Proof.
  split_and!.
  - intros t Ht. destruct e; cbn [handle]; unfold_lease; lease_cases.
  - intros [H1 H2 H3 _ _ _ _ _] t Ht. pose proof (H1 t Ht) as Hi.
    destruct e; cbn [handle]; unfold_lease; lease_cases;
      naive_solver.
  - intros Ha. destruct e; cbn [handle]; unfold_lease; lease_cases;
      try congruence; intros _; eexists _, _; split_and!; try done; by apply Z.ltb_ge.
  - intros t t' reason Ht Hne. unfold settleContext. rewrite Ht. cbn.
    rewrite Ht, bool_decide_false by congruence. done.
Qed.

(** A retry that meets a working store, and one that does not. *)
Definition retry_succeeds (next : option Z) (now1 now2 now3 : Z) : list LeaseEvent :=
  [RetryFires; IntentReturns (Ok next) now1; SettlementReturns (Ok tt); SettlementContinues now2; SettlementContinues now3].
Definition retry_fails (error : string) (now1 now2 now3 : Z) : list LeaseEvent :=
  [RetryFires; IntentReturns (Err error) now1; SettlementContinues now2; SettlementContinues now3].

(** Settlement recovers.  Whenever an intent is unsettled and no
    settlement is under way, the armed retry can fire; if the store answers,
    it settles the intent and nothing is left running; if the store fails, the
    next retry is armed, after the current delay, which lies between one and
    thirty seconds and doubles up to that bound. *)
Theorem lease_retry_recovers c t next error now1 now2 now3 :
  lease_wf c -> lc_terminalIntent c = Some t -> lc_terminalSettled c = None -> lc_terminalInFlight c = None ->
  microtask_pending c = false ->
  (deliverable (retry_succeeds next now1 now2 now3) c
   /\ let c' := deliver (retry_succeeds next now1 now2 now3) c in
      lc_terminalSettled c' = Some t /\ lc_terminalInFlight c' = None /\ lc_settlementRetry c' = None)
  /\ (deliverable (retry_fails error now1 now2 now3) c
   /\ let c' := deliver (retry_fails error now1 now2 now3) c in
      lc_terminalIntent c' = Some t /\ lc_terminalInFlight c' = None
      /\ lc_settlementRetry c' = Some (now2 + lc_settlementRetryDelayMs c)
      /\ 1000 <= lc_settlementRetryDelayMs c <= 30000
      /\ lc_settlementRetryDelayMs c' = Z.min (lc_settlementRetryDelayMs c * 2) 30000).
Proof.
  intros Hwf Hi Hs Hp Hm. pose proof (lw_delay _ Hwf) as Hd.
  assert (is_Some (lc_settlementRetry c)) as Hretry
    by (destruct (lw_driven _ Hwf t Hi) as [|[(p & ? & _)|]]; congruence || done).
  assert (handle RetryFires c = c <| lc_settlementRetry := None |>
    <| lc_terminalInFlight := Some (mkSettlement (lc_fresh c) t AwaitIntent) |>
    <| lc_fresh := S (lc_fresh c) |>) as E.
  { cbn. unfold retryFires, launchSettlement. cbn. by rewrite Hi, Hs, bool_decide_false, Hp by done. }
  unfold retry_succeeds, retry_fails. cbn [deliverable deliver]. rewrite E. clear E.
  split; split.
  - by split_and!; try done; destruct next.
  - destruct next; cbn; unfold_lease; cbn; by rewrite ?Hs.
  - by split_and!.
  - cbn. unfold_lease. cbn. rewrite Hs. cbn. split_and!; first [done | lia].
Qed.

(** ** Witnesses *)

Module DemoLease.

Definition c0 : LeaseContext := kernelReservationContext 10000 310000.
Definition c1 : LeaseContext := handle (ClientSettles TCommitted "") c0.
Definition row : KernelQuotaReservationIdentity := DemoKernel.row "r1".

Definition intent_run : Result string (option Z) * (nat * MemoryKv) :=
  recordKernelReservationTerminalIntent quiet DemoKernel.clock row TCommitted (O, DemoKernel.s1).
Definition c2 : LeaseContext := handle (IntentReturns (fst intent_run) 10001) c1.
Definition settle_run : Result string unit * (nat * MemoryKv) :=
  settleKernelReservation quiet DemoKernel.clock row TCommitted "completed" (snd intent_run).
Definition c3 : LeaseContext := handle (SettlementReturns (fst settle_run)) c2.
Definition c4 : LeaseContext := handle (SettlementContinues 10002) c3.

Definition world (c : LeaseContext) (run : nat * MemoryKv) : LeaseWorld := mkLeaseWorld c (fst run) (snd run).

Lemma pair_eta {A B C} (x : A * (B * C)) : x = (fst x, (fst (snd x), snd (snd x))).
Proof. by destruct x as [? []]. Qed.

Lemma quiet_final : RelyOn (row_final row) (quiet : Clients MemoryKv).
Proof. intros n s. reflexivity. Qed.

Lemma intent_ok : exists lease, fst intent_run = Ok (Some lease).
Proof. eexists. vm_compute. reflexivity. Qed.
Lemma settle_ok : fst settle_run = Ok tt.
Proof. vm_compute. reflexivity. Qed.

Lemma c1_promise : lc_terminalInFlight c1 = Some (mkSettlement 0 TCommitted AwaitIntent).
Proof. reflexivity. Qed.
Lemma c2_promise : lc_terminalInFlight c2 = Some (mkSettlement 0 TCommitted AwaitSettlement)
  /\ lc_terminalReason c2 = "completed".
Proof. unfold c2. destruct intent_ok as [lease ->]. split; reflexivity. Qed.
Lemma c4_settled : lc_terminalSettled c4 = Some TCommitted.
Proof. unfold c4, c3, c2. rewrite settle_ok. destruct intent_ok as [lease ->]. reflexivity. Qed.

Lemma reached : lease_reachable quiet DemoKernel.clock row (mkLeaseWorld c0 O DemoKernel.s1)
  (world c4 (snd settle_run)).
Proof.
  eapply reach_step; [eapply reach_step; [eapply reach_step; [eapply reach_step; [apply reach_start|]|]|]|].
  - by apply (step_local _ _ _ _ _ _ (ClientSettles TCommitted "")).
  - apply (step_intent _ _ _ c1 O DemoKernel.s1 _ (fst intent_run) 10001 (fst (snd intent_run)) (snd (snd intent_run)) c1_promise).
    + unfold enabled, stage. by rewrite c1_promise.
    + exact (pair_eta intent_run).
  - apply (step_settle _ _ _ c2 _ _ _ (fst settle_run) (fst (snd settle_run)) (snd (snd settle_run)) (proj1 c2_promise)).
    + unfold enabled, stage. by rewrite (proj1 c2_promise).
    + rewrite (proj2 c2_promise). cbn [sp_state]. rewrite <- surjective_pairing. exact (pair_eta settle_run).
  - by apply (step_local _ _ _ _ _ _ (SettlementContinues 10002)).
Qed.

End DemoLease.

Lemma lease_settles_durably_witness :
  exists w, lease_reachable quiet DemoKernel.clock DemoLease.row (mkLeaseWorld DemoLease.c0 O DemoKernel.s1) w
    /\ lc_terminalSettled (w_context w) = Some TCommitted /\ stored_as DemoLease.row (kv_map (w_store w)) TCommitted.
Proof.
  eexists. split; [exact DemoLease.reached|]. split; [exact DemoLease.c4_settled|].
  exact (proj1 (proj1 (lease_settles_durably quiet DemoKernel.clock DemoLease.row (Hothers := DemoLease.quiet_final)
    eq_refl 10000 310000 O DemoKernel.s1 _ DemoLease.reached) TCommitted DemoLease.c4_settled)).
Defined.

(** A context whose first settlement failed. *)
Definition failed_context : LeaseContext :=
  deliver [ClientSettles TReleased "client_closed"; IntentReturns (Err "busy") 10001; SettlementContinues 10002;
           SettlementContinues 10002] DemoLease.c0.

Lemma failed_context_wf : lease_wf failed_context.
Proof. unfold failed_context. cbn [deliver]. repeat apply handle_wf; try done. apply initial_wf. Qed.

Lemma lease_retry_recovers_witness :
  lc_terminalSettled (deliver (retry_succeeds (Some 320000) 11000 11001 11002) failed_context) = Some TReleased
  /\ lc_settlementRetryDelayMs (deliver (retry_fails "busy" 11000 11001 11002) failed_context) = 4000.
Proof.
  destruct (lease_retry_recovers failed_context TReleased (Some 320000) "busy" 11000 11001 11002
    failed_context_wf eq_refl eq_refl eq_refl eq_refl) as [(_ & H & _) (_ & _ & _ & _ & _ & Hd)].
  split; [exact H|]. exact Hd.
Defined.
