(* ===== verification/NativePaid.v ===== *)
(** * Paid fallback decisions

    [src/authority/native-paid.ts], [native-paid-contracts.ts] and
    [native-paid-policy.ts]: the pure decisions of the ledger that reserves,
    settles and releases paid requests against a per-key budget, and the hourly
    usage rollups.  Money is counted in integer microcredits and times in
    milliseconds: both are safe integers where the code checks them and exact
    integers here.  The provider's quota is a double. *)

From stdpp Require Import base gmap strings list.
From Stdlib Require Import ZArith QArith Lia Ascii.
From S2P Require Import Prelude Js KvStore.
Open Scope string_scope.
Open Scope Z_scope.

(** ** Contracts *)

Inductive PaidFallbackProvider := Metered | SurplusProvider.
Inductive DispatchState := DReserved | DDispatched | DNotDispatched.
Inductive PaidTerminalState := TPending | TCompleted | TFailed | TIncomplete | TCancelled | TAmbiguous.
Inductive BillingState := BPending | BSettled | BNotBilled | BUnresolved.

#[export] Instance PaidFallbackProvider_eq_dec : EqDecision PaidFallbackProvider.
Proof. solve_decision. Defined.
#[export] Instance DispatchState_eq_dec : EqDecision DispatchState.
Proof. solve_decision. Defined.
#[export] Instance PaidTerminalState_eq_dec : EqDecision PaidTerminalState.
Proof. solve_decision. Defined.
#[export] Instance BillingState_eq_dec : EqDecision BillingState.
Proof. solve_decision. Defined.

Record PaidFallbackWindowV3 := mkPaidWindow {
  wn_key_id : string;
  wn_policy_version : string;
  wn_window_reset_at_ms : Z;
  wn_limit_microcredits : Z;
  wn_settled_microcredits : Z;
  wn_reserved_microcredits : Z;
  wn_pending_count : Z;
  wn_updated_at_ms : Z }.

(** A missing optional field and a null one read the same. *)
Record PaidFallbackRequestV3 := mkPaidRequest {
  rq_key_id : string;
  rq_request_id : string;
  rq_policy_version : string;
  rq_route : string;
  rq_path : string;
  rq_model : string;
  rq_stream : bool;
  rq_reasoning : option string;
  rq_provider : option PaidFallbackProvider;
  rq_window_reset_at_ms : Z;
  rq_reserved_microcredits : Z;
  rq_quota_per_credit : Z;
  rq_provider_request_id : option string;
  rq_provider_quota : option number;
  rq_input_tokens : option Z;
  rq_cached_input_tokens : option Z;
  rq_output_tokens : option Z;
  rq_dispatch_state : DispatchState;
  rq_terminal_state : PaidTerminalState;
  rq_spend_microcredits : option Z;
  rq_billing_state : BillingState;
  rq_reconciliation_attempts : nat;
  rq_last_reconciliation_at_ms : option Z;
  rq_dispatched_at_ms : option Z;
  rq_terminal_at_ms : option Z;
  rq_settled_at_ms : option Z;
  rq_created_at_ms : Z;
  rq_updated_at_ms : Z;
  rq_usage_rollup_at_ms : option Z }.

#[export] Instance eta_PaidWindow : Eta PaidFallbackWindowV3 := fun w =>
  mkPaidWindow (wn_key_id w) (wn_policy_version w) (wn_window_reset_at_ms w) (wn_limit_microcredits w)
    (wn_settled_microcredits w) (wn_reserved_microcredits w) (wn_pending_count w) (wn_updated_at_ms w).
#[export] Instance eta_PaidRequest : Eta PaidFallbackRequestV3 := fun r =>
  mkPaidRequest (rq_key_id r) (rq_request_id r) (rq_policy_version r) (rq_route r) (rq_path r) (rq_model r)
    (rq_stream r) (rq_reasoning r) (rq_provider r) (rq_window_reset_at_ms r) (rq_reserved_microcredits r)
    (rq_quota_per_credit r) (rq_provider_request_id r) (rq_provider_quota r) (rq_input_tokens r)
    (rq_cached_input_tokens r) (rq_output_tokens r) (rq_dispatch_state r) (rq_terminal_state r)
    (rq_spend_microcredits r) (rq_billing_state r) (rq_reconciliation_attempts r)
    (rq_last_reconciliation_at_ms r) (rq_dispatched_at_ms r) (rq_terminal_at_ms r) (rq_settled_at_ms r)
    (rq_created_at_ms r) (rq_updated_at_ms r) (rq_usage_rollup_at_ms r).

(** A stored row as a decision receives it. *)
Record NativePaidRow (T : Type) := mkPaidRow { row_value : option T; row_versionstamp : option Z }.
Arguments mkPaidRow {T} _ _.
Arguments row_value {T} _.
Arguments row_versionstamp {T} _.

Record PaidFallbackPendingV3 := mkPending { pn_created_at_ms : Z; next_reconciliation_at_ms : Z }.
Record PaidFallbackReconciliationGateV3 := mkGate { next_due_at_ms : option Z }.
Record PaidFallbackReconciliationLeaseV3 := mkLease { lease_token : string; lease_expires_at : Z }.
Record PaidFallbackBackfillStateV3 := mkBackfillState { completed_at_ms : Z }.
Record PaidFallbackDeletionGuardV3 := mkGuard { guard_created_at_ms : Z }.

Record PaidFallbackAdmissionV3 := mkAdmission {
  ad_key_id : string;
  ad_request_id : string;
  ad_created_at_ms : Z;
  ad_reserved_microcredits : Z;
  ad_quota_per_credit : Z;
  ad_window_reset_at_ms : Z;
  ad_quota_used_percent : option number }.

Record PaidFallbackWindowProjectionV3 := mkProjection {
  pj_key_id : string;
  pj_policy_version : option string;
  pj_window_reset_at_ms : Z;
  pj_limit_microcredits : Z;
  pj_settled_microcredits : Z;
  pj_reserved_microcredits : Z;
  pj_pending_count : Z;
  pj_updated_at_ms : option Z }.

Record PaidFallbackOutstandingV3 := mkOutstanding {
  pending_requests : Z;
  unresolved_requests : Z;
  pending_markers : Z;
  has_outstanding : bool }.

Record NativePaidAdmissionInput := mkPaidInput {
  in_keyId : string;
  in_requestId : string;
  in_createdAtMs : Z;
  in_policyVersion : string;
  limitMicrocredits : Z;
  maximumExposureMicrocredits : option Z;
  initialSettledMicrocredits : Z;
  quotaPerCredit : Z;
  windowResetAtMs : Z;
  in_model : string;
  in_route : string;
  in_path : string;
  in_stream : bool;
  in_reasoning : option string;
  dispatchIntent : bool }.

(** An absent field is [None]; a field that may be null is a nested option. *)
Record PaidFallbackRequestLifecyclePatchV3 := mkPatch {
  pt_provider : option PaidFallbackProvider;
  pt_provider_request_id : option (option string);
  pt_dispatch_state : option DispatchState;
  pt_terminal_state : option PaidTerminalState;
  pt_reconciliation_attempts : option nat;
  pt_last_reconciliation_at_ms : option (option Z);
  increment_reconciliation_attempts : bool }.

Record ResolvedRequestLifecycleV3 := mkResolved {
  rs_provider : option PaidFallbackProvider;
  rs_providerRequestId : option string;
  rs_dispatchState : DispatchState;
  rs_terminalState : PaidTerminalState;
  rs_reconciliationAttempts : nat;
  rs_lastReconciliationAtMs : option Z }.

Record PaidFallbackUsageRollup := mkRollup {
  ru_bucket_start_at_ms : Z;
  ru_model : string;
  ru_provider : string;
  ru_request_count : Z;
  ru_quota_sum : number;
  ru_input_tokens : Z;
  ru_cached_input_tokens : Z;
  ru_output_tokens : Z;
  ru_spend_microcredits : Z;
  ru_first_request_at_ms : Z;
  ru_last_request_at_ms : Z;
  ru_updated_at_ms : Z }.

Record PaidFallbackUsageRollupInput := mkRollupInput {
  ri_bucket_start_at_ms : Z;
  ri_model : string;
  ri_provider : string;
  ri_request_id : string;
  ri_quota : number;
  ri_input_tokens : Z;
  ri_cached_input_tokens : option Z;
  ri_output_tokens : Z;
  ri_spend_microcredits : Z;
  ri_request_created_at_ms : Z;
  ri_updated_at_ms : Z }.

Record TerminalUsageRollupInput := mkTerminalInput {
  ti_model : option string;
  ti_provider : option string;
  ti_request_id : string;
  ti_request_created_at_ms : option number;
  ti_input_tokens : option number;
  ti_cached_input_tokens : option number;
  ti_output_tokens : option number }.

Record NativePaidProviderLog := mkLog {
  lg_request_id : string;
  lg_quota : number;
  prompt_tokens : Z;
  cached_prompt_tokens : option Z;
  cache_write_prompt_tokens : option Z;
  completion_tokens : Z;
  lg_model : string;
  lg_created_at : Z }.

Inductive NativePaidCorrelation := CProviderRequestId | CSurplusReservation.
#[export] Instance NativePaidCorrelation_eq_dec : EqDecision NativePaidCorrelation.
Proof. solve_decision. Defined.

(** The rows a plan asks to check. *)
Inductive PaidCheck := CkRequest | CkWindow | CkDeletionGuard | CkPolicy | CkGate | CkPending | CkRollup.

Record NativePaidAdmissionSnapshot := mkAdmissionSnapshot {
  as_request : NativePaidRow PaidFallbackRequestV3;
  as_window : NativePaidRow PaidFallbackWindowV3;
  as_deletionGuard : NativePaidRow PaidFallbackDeletionGuardV3;
  policyFence : option (option Z) }.

Record NativePaidAdmissionPolicy := mkAdmissionPolicy { unlimited : bool; maximumExposure : option Z }.

Inductive BlockedReason := InvalidPolicy | LimitExceeded | ConcurrentUpdate.

Record AdmissionWrite := mkAdmissionWrite {
  aw_request : PaidFallbackRequestV3;
  aw_pending : PaidFallbackPendingV3;
  aw_window : option PaidFallbackWindowV3;
  aw_reservation : PaidFallbackAdmissionV3;
  checkGate : bool;
  checkPolicy : bool;
  aw_requestExpireIn : Z;
  aw_windowExpireIn : option Z;
  aw_checks : list PaidCheck }.

Inductive NativePaidAdmissionPlan :=
| PlanBlocked (reason : BlockedReason)
| PlanReserved (reservation : PaidFallbackAdmissionV3)
| PlanExhaustedPolicy (window : PaidFallbackWindowV3) (windowExpireIn : Z) (checks : list PaidCheck)
| PlanWrite (write : AdmissionWrite).

Record NativePaidLifecyclePlan := mkLifecyclePlan {
  lp_request : PaidFallbackRequestV3;
  readGate : bool;
  dispatchBoundary : bool;
  lp_requestExpireIn : Z;
  lp_checks : list PaidCheck }.

Record NativePaidReleaseSnapshot := mkReleaseSnapshot {
  rl_request : NativePaidRow PaidFallbackRequestV3;
  rl_window : NativePaidRow PaidFallbackWindowV3;
  rl_gate : NativePaidRow PaidFallbackReconciliationGateV3 }.

(** The plan of a release and of a settlement. *)
Record NativePaidReleasePlan := mkReleasePlan {
  rp_request : PaidFallbackRequestV3;
  rp_window : option PaidFallbackWindowV3;
  rp_gate : PaidFallbackReconciliationGateV3;
  rp_requestExpireIn : Z;
  rp_windowExpireIn : option Z;
  rp_checks : list PaidCheck }.

Inductive NativePaidDeferralPlan :=
| DeferNoop
| DeferCleanup
| DeferWrite (request : PaidFallbackRequestV3) (pending : PaidFallbackPendingV3) (delay : Z)
    (requestExpireIn : Z).

Record NativePaidRollupIdentity := mkRollupIdentity {
  id_bucketStartAtMs : Z;
  id_model : string;
  id_provider : string;
  id_shard : Z }.

Record NativePaidSettlementMetadata := mkMetadata {
  correlation : NativePaidCorrelation;
  microcreditsPerCredit : Z;
  surplusBuyerCostMicro : option number }.

Inductive NativePaidSettlementEvaluation := EvalCleanup | EvalNoop | EvalDefer | EvalSettle (spend : Z).

Record NativePaidSettlementSnapshot := mkSettlementSnapshot {
  ss_request : NativePaidRow PaidFallbackRequestV3;
  ss_pending : NativePaidRow PaidFallbackPendingV3;
  ss_gate : NativePaidRow PaidFallbackReconciliationGateV3;
  ss_window : NativePaidRow PaidFallbackWindowV3;
  ss_rollup : NativePaidRow PaidFallbackUsageRollup }.

Record NativePaidTerminalUsage := mkTerminalUsage {
  tu_model : string;
  tu_provider : string;
  tu_inputTokens : Z;
  tu_outputTokens : Z }.

(** ** Constants, keys and guards *)

Definition PREFIX : KvKey := [KStr "uos_ai"; KStr "paid_fallback"; KStr "v3"].
Definition MAX_CAS_ATTEMPTS : nat := 128.
Definition RETRY_DELAYS_MS : list Z := [5000; 30000; 120000; 600000; 3600000; 21600000].
Definition UNRESOLVED_AFTER_MS : Z := 24 * 60 * 60000.
Definition RECONCILIATION_LEASE_MS : Z := 60000.
Definition PAID_FALLBACK_BACKFILL_LEASE_MS : Z := 5 * 60000.
Definition PAID_FALLBACK_REQUEST_LOG_RETENTION_MS : Z := 365 * 24 * 60 * 60000.
Definition PAID_FALLBACK_NO_LIMIT : Z := -1.
Definition MICROCREDITS_PER_CREDIT : Z := 1000000.

Definition requestRowExpireIn (row : PaidFallbackRequestV3) (nowMs : Z) : Z :=
  Z.max 1 (rq_created_at_ms row + PAID_FALLBACK_REQUEST_LOG_RETENTION_MS - nowMs).

Definition windowExpireIn (window : PaidFallbackWindowV3) (nowMs : Z) : Z :=
  Z.max 1 (wn_window_reset_at_ms window + PAID_FALLBACK_REQUEST_LOG_RETENTION_MS - nowMs).

Definition isSafeUsageCount (v : jsval) : bool := bool_decide (is_Some (nonNegativeSafeInteger v)).
Definition isPositiveSafeInteger (v : jsval) : bool := bool_decide (is_Some (positiveSafeInteger v)).

Definition isApiKeyId (v : jsval) : bool :=
  match v with JStr s => (0 <? str_length s) && (str_length s <=? 200) | _ => false end.

Definition nonempty_string (v : jsval) : bool :=
  match v with JStr s => 0 <? str_length s | _ => false end.

Definition isPaidFallbackWindowV3 (v : jsval) : bool :=
  isRecord v &&
  is_int (prop v "v") 3 &&
  isApiKeyId (prop v "key_id") &&
  nonempty_string (prop v "policy_version") &&
  isPositiveSafeInteger (prop v "window_reset_at_ms") &&
  (is_int (prop v "limit_microcredits") (-1) || isPositiveSafeInteger (prop v "limit_microcredits")) &&
  isSafeUsageCount (prop v "settled_microcredits") &&
  isSafeUsageCount (prop v "reserved_microcredits") &&
  isSafeUsageCount (prop v "pending_count") &&
  isPositiveSafeInteger (prop v "updated_at_ms").

Definition paidFallbackWindowV3Key (keyId : string) (resetAtMs : Z) : KvKey :=
  (PREFIX ++ [KStr "window"; KStr keyId; KNum resetAtMs])%list.
Definition paidFallbackRequestV3Key (keyId requestId : string) : KvKey :=
  (PREFIX ++ [KStr "request"; KStr keyId; KStr requestId])%list.
Definition paidFallbackPendingV3Key (keyId requestId : string) : KvKey :=
  (PREFIX ++ [KStr "pending"; KStr keyId; KStr requestId])%list.
Definition paidFallbackWindowV3Prefix (keyId : string) : KvKey := (PREFIX ++ [KStr "window"; KStr keyId])%list.
Definition paidFallbackRequestV3Prefix (keyId : string) : KvKey := (PREFIX ++ [KStr "request"; KStr keyId])%list.
Definition paidFallbackRequestV3GlobalPrefix : KvKey := (PREFIX ++ [KStr "request"])%list.
Definition paidFallbackWindowV3GlobalPrefix : KvKey := (PREFIX ++ [KStr "window"])%list.
Definition paidFallbackPendingV3Prefix (keyId : string) : KvKey := (PREFIX ++ [KStr "pending"; KStr keyId])%list.
Definition paidFallbackPendingV3GlobalPrefix : KvKey := (PREFIX ++ [KStr "pending"])%list.
Definition paidFallbackReconciliationGateV3Key : KvKey := (PREFIX ++ [KStr "reconciliation_gate"])%list.
Definition paidFallbackReconciliationLeaseV3Key (keyId : string) : KvKey :=
  (PREFIX ++ [KStr "reconciliation_lease"; KStr keyId])%list.
Definition paidFallbackDeletionGuardV3Key (keyId : string) : KvKey :=
  (PREFIX ++ [KStr "deletion_guard"; KStr keyId])%list.

#[global] Arguments paidFallbackWindowV3Key : simpl never.
#[global] Arguments paidFallbackRequestV3Key : simpl never.
#[global] Arguments paidFallbackPendingV3Key : simpl never.
#[global] Arguments paidFallbackReconciliationGateV3Key : simpl never.
#[global] Arguments paidFallbackReconciliationLeaseV3Key : simpl never.
#[global] Arguments paidFallbackDeletionGuardV3Key : simpl never.
#[global] Arguments paidFallbackRequestV3Prefix : simpl never.
#[global] Arguments paidFallbackWindowV3Prefix : simpl never.
#[global] Arguments paidFallbackPendingV3Prefix : simpl never.

(** The gate as the JSON the guard sees. *)
Definition json_gate (g : option PaidFallbackReconciliationGateV3) : jsval :=
  match g with
  | None => JNull
  | Some g => JObj [("next_due_at_ms", match next_due_at_ms g with Some z => jint z | None => JNull end)]
  end.

Definition isPaidFallbackReconciliationGate (v : jsval) : bool :=
  isRecord v && hasOwn v "next_due_at_ms" &&
  (is_null (prop v "next_due_at_ms") || isSafeUsageCount (prop v "next_due_at_ms")).

Definition paidFallbackReconciliationGateDueNow (entry : option PaidFallbackReconciliationGateV3) (now : Z)
    : PaidFallbackReconciliationGateV3 :=
  let current := if isPaidFallbackReconciliationGate (json_gate entry) then entry ≫= next_due_at_ms else None in
  mkGate (Some (match current with None => now | Some c => Z.min c now end)).

Definition paidFallbackReconciliationGateNeedsArm (entry : option PaidFallbackReconciliationGateV3) (now : Z)
    : bool :=
  if negb (isPaidFallbackReconciliationGate (json_gate entry)) then true
  else match entry ≫= next_due_at_ms with None => true | Some due => now <? due end.

Definition defaultPaidFallbackWindowV3 (input : NativePaidAdmissionInput) : PaidFallbackWindowV3 :=
  mkPaidWindow (in_keyId input) (in_policyVersion input) (windowResetAtMs input) (limitMicrocredits input)
    (initialSettledMicrocredits input) 0 0 (in_createdAtMs input).

Definition buildPaidFallbackRequestV3 (input : NativePaidAdmissionInput) (reservation now : Z)
    : PaidFallbackRequestV3 :=
  {| rq_key_id := in_keyId input;
     rq_request_id := in_requestId input;
     rq_policy_version := in_policyVersion input;
     rq_route := in_route input;
     rq_path := in_path input;
     rq_model := in_model input;
     rq_stream := in_stream input;
     rq_reasoning := in_reasoning input;
     rq_provider := None;
     rq_window_reset_at_ms := windowResetAtMs input;
     rq_reserved_microcredits := reservation;
     rq_quota_per_credit := quotaPerCredit input;
     rq_provider_request_id := None;
     rq_provider_quota := None;
     rq_input_tokens := None;
     rq_cached_input_tokens := None;
     rq_output_tokens := None;
     rq_dispatch_state := if dispatchIntent input then DDispatched else DReserved;
     rq_terminal_state := TPending;
     rq_spend_microcredits := None;
     rq_billing_state := BPending;
     rq_reconciliation_attempts := 0;
     rq_last_reconciliation_at_ms := None;
     rq_dispatched_at_ms := if dispatchIntent input then Some now else None;
     rq_terminal_at_ms := None;
     rq_settled_at_ms := None;
     rq_created_at_ms := in_createdAtMs input;
     rq_updated_at_ms := now;
     rq_usage_rollup_at_ms := None |}.

Definition existingReservationV3 (input : NativePaidAdmissionInput) (existing : PaidFallbackRequestV3)
    : PaidFallbackAdmissionV3 :=
  mkAdmission (in_keyId input) (in_requestId input) (rq_created_at_ms existing)
    (rq_reserved_microcredits existing) (quotaPerCredit input) (rq_window_reset_at_ms existing) None.

Definition isInvalidAdmissionPolicy (input : NativePaidAdmissionInput) (is_unlimited : bool)
    (exposure : option Z) : bool :=
  (negb is_unlimited && negb (isPositiveSafeInteger (jint (limitMicrocredits input)))) ||
  negb (isSafeInteger (initialSettledMicrocredits input)) ||
  (initialSettledMicrocredits input <? 0) ||
  negb (isPositiveSafeInteger (jint (quotaPerCredit input))) ||
  (negb is_unlimited && negb (match exposure with Some e => isPositiveSafeInteger (jint e) | None => false end)).

(** ** Lifecycle *)

Definition resolveRequestLifecyclePatchV3 (current : PaidFallbackRequestV3)
    (patch : PaidFallbackRequestLifecyclePatchV3) (now : Z) : ResolvedRequestLifecycleV3 :=
  let should_increment := increment_reconciliation_attempts patch &&
    (bool_decide (pt_terminal_state patch = None) || bool_decide (rq_terminal_state current = TPending)) in
  mkResolved
    (match rq_provider current with Some p => Some p | None => pt_provider patch end)
    (match rq_provider_request_id current with
     | Some p => Some p
     | None => match pt_provider_request_id patch with None => None | Some p => p end
     end)
    (match rq_dispatch_state current, pt_dispatch_state patch with
     | DReserved, Some d => d
     | d, _ => d
     end)
    (match rq_terminal_state current, pt_terminal_state patch with
     | TPending, Some t => t
     | t, _ => t
     end)
    (if should_increment then S (rq_reconciliation_attempts current)
     else default (rq_reconciliation_attempts current) (pt_reconciliation_attempts patch))
    (if should_increment then Some now
     else match pt_last_reconciliation_at_ms patch with
          | Some (Some t) => Some t
          | _ => rq_last_reconciliation_at_ms current
          end).

Definition requestLifecycleChangedV3 (current : PaidFallbackRequestV3) (resolved : ResolvedRequestLifecycleV3)
    : bool :=
  negb (bool_decide (rs_providerRequestId resolved = rq_provider_request_id current)) ||
  negb (bool_decide (rs_provider resolved = rq_provider current)) ||
  negb (bool_decide (rs_dispatchState resolved = rq_dispatch_state current)) ||
  negb (bool_decide (rs_terminalState resolved = rq_terminal_state current)) ||
  negb (bool_decide (rs_reconciliationAttempts resolved = rq_reconciliation_attempts current)) ||
  negb (bool_decide (rs_lastReconciliationAtMs resolved = rq_last_reconciliation_at_ms current)).

Definition buildRequestLifecycleRowV3 (current : PaidFallbackRequestV3)
    (resolved : ResolvedRequestLifecycleV3) (now : Z) : PaidFallbackRequestV3 :=
  (match rs_provider resolved with
   | None => current
   | Some p => current <| rq_provider := Some p |>
   end)
    <| rq_provider_request_id := rs_providerRequestId resolved |>
    <| rq_dispatch_state := rs_dispatchState resolved |>
    <| rq_terminal_state := rs_terminalState resolved |>
    <| rq_reconciliation_attempts := rs_reconciliationAttempts resolved |>
    <| rq_last_reconciliation_at_ms := rs_lastReconciliationAtMs resolved |>
    <| rq_dispatched_at_ms :=
         if bool_decide (rs_dispatchState resolved = DDispatched) && bool_decide (rq_dispatched_at_ms current = None)
         then Some now else rq_dispatched_at_ms current |>
    <| rq_terminal_at_ms :=
         if negb (bool_decide (rs_terminalState resolved = TPending)) && bool_decide (rq_terminal_at_ms current = None)
         then Some now else rq_terminal_at_ms current |>
    <| rq_updated_at_ms := now |>.

(** ** Settlement rows *)

Definition correlationMatchesV3 (request : PaidFallbackRequestV3) (log : NativePaidProviderLog)
    (c : NativePaidCorrelation) : bool :=
  match c with
  | CSurplusReservation => bool_decide (rq_provider request = Some SurplusProvider)
  | CProviderRequestId => bool_decide (rq_provider_request_id request = Some (lg_request_id log))
  end.

Definition billable (r : PaidFallbackRequestV3) : bool :=
  match rq_billing_state r with BSettled | BNotBilled => false | BPending | BUnresolved => true end.

Definition isBillableRequestV3 (request : option PaidFallbackRequestV3) : bool :=
  match request with Some r => billable r | None => false end.

Definition buildSettledRequestRowV3 (request : PaidFallbackRequestV3) (log : NativePaidProviderLog)
    (spend dispatchedAtMs : Z) (foldIntoRollup : bool) (now : Z) : PaidFallbackRequestV3 :=
  let settled := request
    <| rq_provider_quota := Some (lg_quota log) |>
    <| rq_input_tokens := Some (prompt_tokens log) |>
    <| rq_cached_input_tokens := cached_prompt_tokens log |>
    <| rq_output_tokens := Some (completion_tokens log) |>
    <| rq_dispatch_state := match rq_dispatch_state request with DReserved => DDispatched | d => d end |>
    <| rq_dispatched_at_ms := Some dispatchedAtMs |>
    <| rq_spend_microcredits := Some spend |>
    <| rq_billing_state := BSettled |>
    <| rq_reconciliation_attempts := rq_reconciliation_attempts request |>
    <| rq_last_reconciliation_at_ms := Some now |>
    <| rq_settled_at_ms := Some (default now (rq_settled_at_ms request)) |>
    <| rq_updated_at_ms := now |> in
  if foldIntoRollup then settled <| rq_usage_rollup_at_ms := Some now |> else settled.

(** ** Usage rollups *)

Definition PAID_FALLBACK_USAGE_ROLLUP_PREFIX : KvKey :=
  [KStr "uos_ai"; KStr "paid_fallback"; KStr "v3"; KStr "usage_rollup"].
Definition PAID_FALLBACK_USAGE_ROLLUP_BUCKET_MS : Z := 60 * 60 * 1000.
Definition PAID_FALLBACK_USAGE_ROLLUP_SHARD_COUNT : Z := 16.
Definition FNV_PRIME : Z := 16777619.
Definition FNV_OFFSET : Z := 2166136261.

(** One turn of the loop: [hash ^= c; hash = Math.imul(hash, FNV_PRIME) >>> 0]. *)
Definition fnv_step (hash c : Z) : Z :=
  let hash := Z.lxor (to_int32 hash) (to_int32 c) in
  to_uint32 (imul hash FNV_PRIME).

Definition paidFallbackUsageRollupShard (requestId : string) : Z :=
  foldl (fun hash c => fnv_step hash (code_unit c)) FNV_OFFSET (list_of_string requestId)
    mod PAID_FALLBACK_USAGE_ROLLUP_SHARD_COUNT.

Definition provider_name (p : PaidFallbackProvider) : string :=
  match p with Metered => "metered" | SurplusProvider => "surplus" end.

Definition PAID_FALLBACK_SETTLED_PROVIDERS : list string := ["metered"; "surplus"].

Definition nonNegativeFinite (v : jsval) : bool :=
  match v with JNum n => isFinite n && nonneg n | _ => false end.

Definition json_rollup (r : PaidFallbackUsageRollup) : jsval := JObj
  [("v", jint 1); ("bucket_start_at_ms", jint (ru_bucket_start_at_ms r)); ("model", JStr (ru_model r));
   ("provider", JStr (ru_provider r)); ("request_count", jint (ru_request_count r));
   ("quota_sum", JNum (ru_quota_sum r)); ("input_tokens", jint (ru_input_tokens r));
   ("cached_input_tokens", jint (ru_cached_input_tokens r)); ("output_tokens", jint (ru_output_tokens r));
   ("spend_microcredits", jint (ru_spend_microcredits r));
   ("first_request_at_ms", jint (ru_first_request_at_ms r));
   ("last_request_at_ms", jint (ru_last_request_at_ms r)); ("updated_at_ms", jint (ru_updated_at_ms r))].

Definition isPaidFallbackUsageRollup (v : jsval) : bool :=
  isRecord v &&
  is_int (prop v "v") 1 &&
  isSafeUsageCount (prop v "bucket_start_at_ms") &&
  nonempty_string (prop v "model") &&
  nonempty_string (prop v "provider") &&
  isSafeUsageCount (prop v "request_count") &&
  nonNegativeFinite (prop v "quota_sum") &&
  isSafeUsageCount (prop v "input_tokens") &&
  isSafeUsageCount (prop v "cached_input_tokens") &&
  isSafeUsageCount (prop v "output_tokens") &&
  nonNegativeFinite (prop v "spend_microcredits") &&
  isSafeUsageCount (prop v "first_request_at_ms") &&
  isSafeUsageCount (prop v "last_request_at_ms") &&
  isSafeUsageCount (prop v "updated_at_ms").

(** The stored rollup, when it is a valid one. *)
Definition valid_rollup (r : option PaidFallbackUsageRollup) : option PaidFallbackUsageRollup :=
  r ≫= fun r => if isPaidFallbackUsageRollup (json_rollup r) then Some r else None.

Definition paidFallbackUsageRollupKey (bucketStartAtMs : Z) (model provider : string) (shard : Z) : KvKey :=
  (PAID_FALLBACK_USAGE_ROLLUP_PREFIX ++ [KNum bucketStartAtMs; KStr model; KStr provider; KNum shard])%list.

#[global] Arguments paidFallbackUsageRollupKey : simpl never.

Definition mergePaidFallbackUsageRollup (existing : option PaidFallbackUsageRollup)
    (input : PaidFallbackUsageRollupInput) : PaidFallbackUsageRollup :=
  let created := ri_request_created_at_ms input in
  {| ru_bucket_start_at_ms := from_option ru_bucket_start_at_ms (ri_bucket_start_at_ms input) existing;
     ru_model := from_option ru_model (ri_model input) existing;
     ru_provider := from_option ru_provider (ri_provider input) existing;
     ru_request_count := from_option ru_request_count 0 existing + 1;
     ru_quota_sum := num_add (from_option ru_quota_sum (num_of_Z 0) existing) (ri_quota input);
     ru_input_tokens := from_option ru_input_tokens 0 existing + ri_input_tokens input;
     ru_cached_input_tokens :=
       from_option ru_cached_input_tokens 0 existing + default 0 (ri_cached_input_tokens input);
     ru_output_tokens := from_option ru_output_tokens 0 existing + ri_output_tokens input;
     ru_spend_microcredits := from_option ru_spend_microcredits 0 existing + ri_spend_microcredits input;
     ru_first_request_at_ms := from_option (fun e => Z.min (ru_first_request_at_ms e) created) created existing;
     ru_last_request_at_ms := from_option (fun e => Z.max (ru_last_request_at_ms e) created) created existing;
     ru_updated_at_ms := ri_updated_at_ms input |}.

Definition observedTokenCount (v : option number) : option Z :=
  v ≫= fun n => nonNegativeSafeInteger (JNum n).

Definition isPaidFallbackBackfillState (v : jsval) : bool :=
  isRecord v && is_int (prop v "v") 1 && isSafeUsageCount (prop v "completed_at_ms").

Definition isBackfillableSettledPaidFallbackRequest (v : jsval) : bool :=
  isRecord v && is_str (prop v "billing_state") "settled" &&
  match prop v "model" with JStr s => negb (empty (trim s)) | _ => false end &&
  nonNegativeFinite (prop v "provider_quota") &&
  nonNegativeFinite (prop v "spend_microcredits").

(** ** Admission *)

Definition buildPaidFallbackAdmissionPlanV3 (input : NativePaidAdmissionInput)
    (snapshot : NativePaidAdmissionSnapshot) (policy : NativePaidAdmissionPolicy)
    (transitioned : PaidFallbackWindowV3) (reservation now : Z) : AdmissionWrite :=
  let request := buildPaidFallbackRequestV3 input reservation now in
  {| aw_request := request;
     aw_pending := mkPending now now;
     aw_window :=
       if unlimited policy then None
       else Some (transitioned
         <| wn_reserved_microcredits := wn_reserved_microcredits transitioned + reservation |>
         <| wn_pending_count := wn_pending_count transitioned + 1 |>
         <| wn_updated_at_ms := now |>);
     aw_reservation := mkAdmission (in_keyId input) (in_requestId input) (in_createdAtMs input) reservation
       (quotaPerCredit input) (windowResetAtMs input)
       (if unlimited policy then None
        else Some (num_div (num_mul (num_of_Z 100) (num_of_Z (wn_settled_microcredits transitioned)))
                     (num_of_Z (wn_limit_microcredits transitioned))));
     checkGate := dispatchIntent input;
     checkPolicy := bool_decide (is_Some (policyFence snapshot));
     aw_requestExpireIn := requestRowExpireIn request now;
     aw_windowExpireIn := if unlimited policy then None else Some (windowExpireIn transitioned now);
     aw_checks := [CkRequest; CkDeletionGuard]
       ++ (if policyFence snapshot then [CkPolicy] else [])
       ++ (if dispatchIntent input then [CkGate] else [])
       ++ (if negb (unlimited policy) then [CkWindow] else []) |}.

Definition planPaidFallbackAdmissionV3 (input : NativePaidAdmissionInput)
    (snapshot : NativePaidAdmissionSnapshot) (policy : NativePaidAdmissionPolicy) (now : Z)
    : NativePaidAdmissionPlan :=
  match row_value (as_deletionGuard snapshot), row_value (as_request snapshot) with
  | Some _, _ => PlanBlocked InvalidPolicy
  | None, Some existing =>
      if billable existing then PlanReserved (existingReservationV3 input existing)
      else PlanBlocked InvalidPolicy
  | None, None =>
      let current := default (defaultPaidFallbackWindowV3 input) (row_value (as_window snapshot)) in
      let policyChanged := negb (unlimited policy) &&
        (negb (bool_decide (wn_policy_version current = in_policyVersion input))
         || negb (wn_limit_microcredits current =? limitMicrocredits input)) in
      let transitioned :=
        if policyChanged
        then current <| wn_policy_version := in_policyVersion input |>
               <| wn_limit_microcredits := limitMicrocredits input |> <| wn_updated_at_ms := now |>
        else current in
      let remaining :=
        if unlimited policy then 0
        else wn_limit_microcredits transitioned - wn_settled_microcredits transitioned
               - wn_reserved_microcredits transitioned in
      if negb (unlimited policy) && (remaining <=? 0) then
        if policyChanged
        then PlanExhaustedPolicy transitioned (windowExpireIn transitioned now)
               ([CkWindow; CkDeletionGuard] ++ (if policyFence snapshot then [CkPolicy] else []))
        else PlanBlocked LimitExceeded
      else
        let reservation :=
          if unlimited policy then 0 else Z.min remaining (default 0 (maximumExposure policy)) in
        PlanWrite (buildPaidFallbackAdmissionPlanV3 input snapshot policy transitioned reservation now)
  end.

(** ** Lifecycle, release and deferral plans *)

Definition planPaidFallbackLifecycleV3 (current : PaidFallbackRequestV3)
    (patch : PaidFallbackRequestLifecyclePatchV3) (now : Z) : option NativePaidLifecyclePlan :=
  let resolved := resolveRequestLifecyclePatchV3 current patch now in
  if negb (requestLifecycleChangedV3 current resolved) then None
  else
    let boundary := negb (bool_decide (rq_dispatch_state current = DDispatched)) &&
      (bool_decide (rs_dispatchState resolved = DDispatched) || bool_decide (is_Some (rs_providerRequestId resolved))) in
    let read := boundary ||
      (bool_decide (rq_provider_request_id current = None) && bool_decide (is_Some (rs_providerRequestId resolved))) in
    Some {| lp_request := buildRequestLifecycleRowV3 current resolved now;
            readGate := read;
            dispatchBoundary := boundary;
            lp_requestExpireIn := requestRowExpireIn current now;
            lp_checks := if read then [CkRequest; CkGate] else [CkRequest] |}.

Definition releasedWindow (w : PaidFallbackWindowV3) (request : PaidFallbackRequestV3) (now : Z)
    : PaidFallbackWindowV3 :=
  w <| wn_reserved_microcredits := Z.max 0 (wn_reserved_microcredits w - rq_reserved_microcredits request) |>
    <| wn_pending_count := Z.max 0 (wn_pending_count w - 1) |>
    <| wn_updated_at_ms := now |>.

Definition planPaidFallbackReleaseV3 (snapshot : NativePaidReleaseSnapshot) (allowDispatchIntent : bool) (now : Z)
    : option NativePaidReleasePlan :=
  request ← row_value (rl_request snapshot);
  let window := row_value (rl_window snapshot) in
  if negb (bool_decide (rq_billing_state request = BPending))
     || bool_decide (is_Some (rq_provider_request_id request))
     || (negb (bool_decide (rq_dispatch_state request = DReserved))
         && negb (allowDispatchIntent && bool_decide (rq_dispatch_state request = DDispatched)))
  then None
  else Some
    {| rp_request := request
         <| rq_dispatch_state := DNotDispatched |>
         <| rq_terminal_state := TCancelled |>
         <| rq_spend_microcredits := Some 0 |>
         <| rq_billing_state := BNotBilled |>
         <| rq_terminal_at_ms := Some (default now (rq_terminal_at_ms request)) |>
         <| rq_updated_at_ms := now |>;
       rp_window := (fun w => releasedWindow w request now) <$> window;
       rp_gate := paidFallbackReconciliationGateDueNow (row_value (rl_gate snapshot)) now;
       rp_requestExpireIn := requestRowExpireIn request now;
       rp_windowExpireIn := (fun w => windowExpireIn w now) <$> window;
       rp_checks := if window then [CkRequest; CkGate; CkWindow] else [CkRequest; CkGate] |}.

(** [RETRY_DELAYS_MS[Math.min(attempts - 1, RETRY_DELAYS_MS.length - 1)]]. *)
Definition retry_delay (attempts : nat) : Z :=
  nth (Nat.min (attempts - 1) (length RETRY_DELAYS_MS - 1)) RETRY_DELAYS_MS 0.
#[global] Arguments retry_delay : simpl never.

Definition planPaidFallbackDeferralV3 (request : option PaidFallbackRequestV3)
    (pending : option PaidFallbackPendingV3) (now : Z) : NativePaidDeferralPlan :=
  match pending with
  | None => DeferNoop
  | Some pending =>
      match request with
      | None => DeferCleanup
      | Some request =>
          if negb (billable request) then DeferCleanup
          else
            let attempts := S (rq_reconciliation_attempts request) in
            let unresolved := UNRESOLVED_AFTER_MS <=? now - rq_created_at_ms request in
            let delay := retry_delay attempts in
            DeferWrite
              (request <| rq_reconciliation_attempts := attempts |>
                 <| rq_last_reconciliation_at_ms := Some now |>
                 <| rq_billing_state := if unresolved then BUnresolved else rq_billing_state request |>
                 <| rq_updated_at_ms := now |>)
              (mkPending (pn_created_at_ms pending) (now + delay)) delay (requestRowExpireIn request now)
      end
  end.

(** ** Settlement plans *)

Definition settlement_spend (request : PaidFallbackRequestV3) (log : NativePaidProviderLog)
    (metadata : NativePaidSettlementMetadata) : number :=
  match correlation metadata, surplusBuyerCostMicro metadata with
  | CSurplusReservation, Some cost => cost
  | _, _ => math_round (num_div (num_mul (lg_quota log) (num_of_Z (microcreditsPerCredit metadata)))
                          (num_of_Z (rq_quota_per_credit request)))
  end.

Definition evaluatePaidFallbackSettlementV3 (request : option PaidFallbackRequestV3)
    (pending : option PaidFallbackPendingV3) (log : NativePaidProviderLog)
    (metadata : NativePaidSettlementMetadata) : NativePaidSettlementEvaluation :=
  match request with
  | None => EvalCleanup
  | Some r =>
      if negb (billable r) then EvalCleanup
      else if bool_decide (pending = None) || negb (correlationMatchesV3 r log (correlation metadata))
      then EvalNoop
      else match nonNegativeSafeInteger (JNum (settlement_spend r log metadata)) with
           | None => EvalDefer
           | Some spend => EvalSettle spend
           end
  end.

Definition hour_bucket (ms : Z) : Z :=
  ms / PAID_FALLBACK_USAGE_ROLLUP_BUCKET_MS * PAID_FALLBACK_USAGE_ROLLUP_BUCKET_MS.

Definition paidFallbackRequestRollupIdentity (request : PaidFallbackRequestV3) (c : NativePaidCorrelation)
    : NativePaidRollupIdentity :=
  {| id_bucketStartAtMs := hour_bucket (rq_created_at_ms request);
     id_model := trim (rq_model request);
     id_provider := match rq_provider request with
                    | Some p => provider_name p
                    | None => match c with CSurplusReservation => "surplus" | CProviderRequestId => "metered" end
                    end;
     id_shard := paidFallbackUsageRollupShard (rq_request_id request) |}.

Definition paidFallbackSettlementRollupV3 (request : PaidFallbackRequestV3) (log : NativePaidProviderLog)
    (spend : Z) (c : NativePaidCorrelation) (existing : option PaidFallbackUsageRollup) (now : Z)
    : PaidFallbackUsageRollup * bool :=
  let i := paidFallbackRequestRollupIdentity request c in
  (mergePaidFallbackUsageRollup existing
     {| ri_bucket_start_at_ms := id_bucketStartAtMs i;
        ri_model := id_model i;
        ri_provider := id_provider i;
        ri_request_id := rq_request_id request;
        ri_quota := lg_quota log;
        ri_input_tokens := prompt_tokens log;
        ri_cached_input_tokens := cached_prompt_tokens log;
        ri_output_tokens := completion_tokens log;
        ri_spend_microcredits := spend;
        ri_request_created_at_ms := rq_created_at_ms request;
        ri_updated_at_ms := now |},
   negb (empty (id_model i)) && negb (empty (id_provider i))).

Definition planPaidFallbackSettlementRowsV3 (snapshot : NativePaidSettlementSnapshot)
    (log : NativePaidProviderLog) (spend : Z) (foldIntoRollup : bool) (now : Z)
    : Result string NativePaidReleasePlan :=
  request ← or_throw (row_value (ss_request snapshot)) "Paid fallback settlement request is missing";
  let window := row_value (ss_window snapshot) in
  let dispatchedAtMs := default (Z.max (rq_created_at_ms request) (lg_created_at log * 1000))
                          (rq_dispatched_at_ms request) in
  Ok {| rp_request := buildSettledRequestRowV3 request log spend dispatchedAtMs foldIntoRollup now;
        rp_window := (fun w => w
          <| wn_settled_microcredits := wn_settled_microcredits w + spend |>
          <| wn_reserved_microcredits := Z.max 0 (wn_reserved_microcredits w - rq_reserved_microcredits request) |>
          <| wn_pending_count := Z.max 0 (wn_pending_count w - 1) |>
          <| wn_updated_at_ms := now |>) <$> window;
        rp_gate := paidFallbackReconciliationGateDueNow (row_value (ss_gate snapshot)) now;
        rp_requestExpireIn := requestRowExpireIn request now;
        rp_windowExpireIn := (fun w => windowExpireIn w now) <$> window;
        rp_checks := [CkRequest; CkPending] ++ (if foldIntoRollup then [CkRollup] else []) ++ [CkGate]
                       ++ (if window then [CkWindow] else []) |}.

(** ** Backfill *)

Definition paidFallbackBackfillRollupEligibleV3 (request : PaidFallbackRequestV3) : bool :=
  bool_decide (rq_billing_state request = BSettled) && bool_decide (is_Some (rq_provider_quota request))
  && bool_decide (is_Some (rq_spend_microcredits request)) && negb (empty (trim (rq_model request))).

(** The marked row, and the rollup it folds into when it is a settled one. *)
Definition planPaidFallbackBackfillFoldV3 (request : PaidFallbackRequestV3)
    (existing : option PaidFallbackUsageRollup) (now : Z)
    : PaidFallbackRequestV3 * Z * option PaidFallbackUsageRollup :=
  let i := paidFallbackRequestRollupIdentity request CProviderRequestId in
  (request <| rq_updated_at_ms := now |> <| rq_usage_rollup_at_ms := Some now |>,
   requestRowExpireIn request now,
   match rq_billing_state request, rq_provider_quota request, rq_spend_microcredits request with
   | BSettled, Some quota, Some spend =>
       if empty (id_model i) then None
       else Some (mergePaidFallbackUsageRollup existing
         {| ri_bucket_start_at_ms := id_bucketStartAtMs i;
            ri_model := id_model i;
            ri_provider := id_provider i;
            ri_request_id := rq_request_id request;
            ri_quota := quota;
            ri_input_tokens := default 0 (rq_input_tokens request);
            ri_cached_input_tokens := rq_cached_input_tokens request;
            ri_output_tokens := default 0 (rq_output_tokens request);
            ri_spend_microcredits := spend;
            ri_request_created_at_ms := rq_created_at_ms request;
            ri_updated_at_ms := now |})
   | _, _, _ => None
   end).

Inductive BackfillRowState := RowMissing | RowRetention | RowFold.

(** A marked row is a retention rewrite only; it must never fold twice. *)
Definition paidFallbackRequestBackfillStateV3 (request : option PaidFallbackRequestV3) : BackfillRowState :=
  match request with
  | None => RowMissing
  | Some r => match rq_usage_rollup_at_ms r with Some _ => RowRetention | None => RowFold end
  end.

Definition paidFallbackBackfillNeedsSweepV3 (state requestCursor windowCursor : jsval) : bool :=
  negb (isPaidFallbackBackfillState state) || negb (is_null requestCursor) || negb (is_null windowCursor).

(** ** Deletion, leases, the gate and terminal usage *)

Definition planPaidFallbackDeletionGuardV3 (guard : option PaidFallbackDeletionGuardV3) (now : Z)
    : option PaidFallbackDeletionGuardV3 :=
  match guard with Some _ => None | None => Some (mkGuard now) end.

Inductive DeletionPlan := DeletionUnavailable | DeletionBlocked (o : PaidFallbackOutstandingV3) | DeletionDelete.

Definition planPaidFallbackDeletionV3 (outstanding : option PaidFallbackOutstandingV3) : DeletionPlan :=
  match outstanding with
  | None => DeletionUnavailable
  | Some o => if has_outstanding o then DeletionBlocked o else DeletionDelete
  end.

Definition paidFallbackLeaseActiveV3 (lease : option PaidFallbackReconciliationLeaseV3) (now : Z) : bool :=
  match lease with Some l => now <? lease_expires_at l | None => false end.
Definition paidFallbackReconciliationLeaseV3 (token : string) (now : Z) : PaidFallbackReconciliationLeaseV3 :=
  mkLease token (now + RECONCILIATION_LEASE_MS).
Definition paidFallbackBackfillLeaseV3 (token : string) (now : Z) : PaidFallbackReconciliationLeaseV3 :=
  mkLease token (now + PAID_FALLBACK_BACKFILL_LEASE_MS).
Definition paidFallbackLeaseOwnedV3 (lease : option PaidFallbackReconciliationLeaseV3) (token : string) : bool :=
  match lease with Some l => bool_decide (lease_token l = token) | None => false end.

Definition paidFallbackGateAfterScanV3 (earliestDueAtMs : option Z) : PaidFallbackReconciliationGateV3 :=
  mkGate earliestDueAtMs.

Definition paidFallbackTerminalUsageV3 (input : TerminalUsageRollupInput) : option NativePaidTerminalUsage :=
  let model := from_option trim "" (ti_model input) in
  let provider := from_option trim "" (ti_provider input) in
  if empty model || empty provider || bool_decide (provider = "gateway") || bool_decide (provider = "mixed")
     || bool_decide (provider ∈ PAID_FALLBACK_SETTLED_PROVIDERS)
  then None
  else
    inputTokens ← observedTokenCount (ti_input_tokens input);
    outputTokens ← observedTokenCount (ti_output_tokens input);
    Some (mkTerminalUsage model provider inputTokens outputTokens).

Definition paidFallbackTerminalRollupV3 (input : TerminalUsageRollupInput) (usage : NativePaidTerminalUsage)
    (requestId : string) (now : Z) : PaidFallbackUsageRollupInput :=
  let created := match ti_request_created_at_ms input with Some (Fin q) => Z.max 0 (trunc q) | _ => now end in
  {| ri_bucket_start_at_ms := hour_bucket created;
     ri_request_id := requestId;
     ri_model := tu_model usage;
     ri_provider := tu_provider usage;
     ri_quota := num_of_Z 0;
     ri_input_tokens := tu_inputTokens usage;
     ri_cached_input_tokens := observedTokenCount (ti_cached_input_tokens input);
     ri_output_tokens := tu_outputTokens usage;
     ri_spend_microcredits := 0;
     ri_request_created_at_ms := created;
     ri_updated_at_ms := now |}.

(** ** Policy validators *)

Definition isPaidFallbackLimit (v : jsval) : bool := is_int v PAID_FALLBACK_NO_LIMIT || isSafeUsageCount v.

Definition isNullableString (v : jsval) : bool :=
  is_null v || match v with JStr s => negb (empty (trim s)) | _ => false end.

Definition is_bool (v : jsval) : bool := match v with JBool _ => true | _ => false end.
Definition is_true (v : jsval) : bool := match v with JBool b => b | _ => false end.

Definition hasStrictPaidFallbackPolicy (v : jsval) : bool :=
  isRecord v &&
  is_bool (prop v "paid_fallback_enabled") &&
  isPaidFallbackLimit (prop v "paid_fallback_limit_microcredits") &&
  isSafeUsageCount (prop v "paid_fallback_spent_microcredits") &&
  isSafeUsageCount (prop v "paid_fallback_reserved_microcredits") &&
  isNullableString (prop v "paid_fallback_reservation_request_id") &&
  let limit := prop v "paid_fallback_limit_microcredits" in
  negb (is_true (prop v "paid_fallback_enabled") && negb (is_int limit PAID_FALLBACK_NO_LIMIT)
        && negb (isPositiveSafeInteger limit)).

Definition blank_model (v : jsval) : bool := match v with JStr s => empty (trim s) | _ => true end.

Definition hasStrictPaidFallbackKeyPolicy (v : jsval) : bool :=
  hasStrictPaidFallbackPolicy v && isRecord v &&
  match prop v "paid_fallback_model_ids" with
  | JArr models =>
      negb (existsb blank_model models) &&
      isSafeUsageCount (prop v "paid_fallback_quota_per_credit") &&
      (is_null (prop v "paid_fallback_pricing_checked_at_ms")
       || isPositiveSafeInteger (prop v "paid_fallback_pricing_checked_at_ms")) &&
      (negb (is_true (prop v "paid_fallback_enabled")) ||
        (negb (bool_decide (models = [])) &&
         isPositiveSafeInteger (prop v "paid_fallback_quota_per_credit") &&
         isPositiveSafeInteger (prop v "paid_fallback_pricing_checked_at_ms")))
  | _ => false
  end.
