(* ===== verification/PaidLedger.v ===== *)
(** * The paid fallback ledger

    [src/paid-fallback/ledger-admission.ts], [ledger-state.ts],
    [ledger-settlement.ts], [ledger-stats.ts] and [rollups.ts], and the row fold
    of [ledger-backfill.ts]: the adapters that commit the plans of NativePaid.v.
    The code reads typed rows ([kv.get<T>]) without validating them, so the
    store holds typed values; a read of an absent row, or of a row of another
    kind, is null.  [Promise.all] of reads runs them in order.  The serialized
    size of a record, which only feeds the growth counters, is a parameter. *)

From stdpp Require Import base gmap strings list.
From Stdlib Require Import ZArith Lia.
From S2P Require Import Prelude Js KvStore NativePaid.
Open Scope string_scope.
Open Scope Z_scope.

(** ** Rows *)

Record LedgerProjectionCounters := mkProjectionCounters { views : Z; read_units : Z; rollup_rows : Z }.

Record PaidFallbackLedgerDailyStats := mkDailyStats {
  day_start_at_ms : Z;
  settled_rows : Z;
  settled_row_bytes : Z;
  rollup_writes : Z;
  rollup_bytes : Z;
  projection_7d : LedgerProjectionCounters;
  projection_30d : LedgerProjectionCounters;
  projection_90d : LedgerProjectionCounters;
  stats_updated_at_ms : Z }.

Inductive PaidValue :=
| VNull
| VRequest (r : PaidFallbackRequestV3)
| VWindow (w : PaidFallbackWindowV3)
| VPending (p : PaidFallbackPendingV3)
| VGate (g : PaidFallbackReconciliationGateV3)
| VLease (l : PaidFallbackReconciliationLeaseV3)
| VGuard (g : PaidFallbackDeletionGuardV3)
| VRollup (r : PaidFallbackUsageRollup)
| VStats (s : PaidFallbackLedgerDailyStats)
| VPolicy (v : jsval).

#[export] Instance paid_null : Nullable PaidValue := VNull.

Notation PaidMap := (KvMapOf PaidValue).
Notation PaidEntry := (KvEntryOf PaidValue).
Notation PaidMutation := (KvMutationOf PaidValue).
Notation PaidStore := (KvStoreOf PaidValue).

Definition as_request_row (v : PaidValue) : option PaidFallbackRequestV3 :=
  match v with VRequest r => Some r | _ => None end.
Definition as_window_row (v : PaidValue) : option PaidFallbackWindowV3 :=
  match v with VWindow w => Some w | _ => None end.
Definition as_pending_row (v : PaidValue) : option PaidFallbackPendingV3 :=
  match v with VPending p => Some p | _ => None end.
Definition as_gate_row (v : PaidValue) : option PaidFallbackReconciliationGateV3 :=
  match v with VGate g => Some g | _ => None end.
Definition as_lease_row (v : PaidValue) : option PaidFallbackReconciliationLeaseV3 :=
  match v with VLease l => Some l | _ => None end.
Definition as_guard_row (v : PaidValue) : option PaidFallbackDeletionGuardV3 :=
  match v with VGuard g => Some g | _ => None end.
Definition as_rollup_row (v : PaidValue) : option PaidFallbackUsageRollup :=
  match v with VRollup r => Some r | _ => None end.
Definition as_stats_row (v : PaidValue) : option PaidFallbackLedgerDailyStats :=
  match v with VStats s => Some s | _ => None end.

(** An entry as the decisions of NativePaid.v take it. *)
Definition paid_row {T} (cast : PaidValue -> option T) (e : PaidEntry) : NativePaidRow T :=
  mkPaidRow (cast (entry_value e)) (versionstamp e).

(** [AdmissionInput]: the decision's input and the fence on the policy row. *)
Record AdmissionInput := mkAdmissionInput {
  ai_input : NativePaidAdmissionInput;
  policyCheck : option PaidEntry }.

Inductive PaidAdmission :=
| PaidReserved (reservation : PaidFallbackAdmissionV3)
| PaidBlocked (reason : BlockedReason).

Record AdmissionWriteContext := mkWriteContext {
  cx_requestEntry : PaidEntry;
  cx_windowEntry : PaidEntry;
  cx_deletionGuardEntry : PaidEntry;
  cx_plan : AdmissionWrite;
  cx_now : Z }.

Inductive AdmissionDecision :=
| DecideReserved (reservation : PaidFallbackAdmissionV3)
| DecideBlocked (reason : BlockedReason)
| DecideWrite (context : AdmissionWriteContext).

Inductive PaidFallbackDeletionV3 :=
| PaidDeleted (deleted_requests deleted_windows deleted_pending deleted_leases : Z)
| PaidDeletionBlocked (outstanding : PaidFallbackOutstandingV3)
| PaidDeletionUnavailable.

Record SettlementRollupV3 := mkSettlementRollup {
  sr_rollupKey : KvKey;
  sr_rollupEntry : PaidEntry;
  sr_nextRollup : PaidFallbackUsageRollup;
  sr_foldIntoRollup : bool }.

Record SettlementOutcome := mkSettlementOutcome { settled : bool; retry_delay_ms : option Z }.

Record PaidFallbackUsageSettlementV3 := mkUsageSettlement {
  settlement_request_id : string;
  us_provider_quota : number;
  us_input_tokens : Z;
  us_cached_input_tokens : option Z;
  us_output_tokens : Z;
  us_model : string;
  us_created_at_ms : Z;
  buyer_cost_micro : option number }.

Inductive RollupFoldOutcome := FoldProcessed | FoldRollupWritten | FoldFailed.

(** The counters of a sweep that one row changes. *)
Record BackfillProgress := mkProgress {
  bp_processed : Z;
  bp_rollupsWritten : Z;
  bp_failed : Z;
  bp_budget : Z;
  bp_lastVisitedKey : option KvKey }.

#[export] Instance eta_Progress : Eta BackfillProgress := fun p =>
  mkProgress (bp_processed p) (bp_rollupsWritten p) (bp_failed p) (bp_budget p) (bp_lastVisitedKey p).

Inductive SweepStep := SweepContinue | SweepWriteBudget.

(** ** Daily growth counters *)

Definition PAID_FALLBACK_LEDGER_STATS_PREFIX : KvKey :=
  [KStr "uos_ai"; KStr "paid_fallback"; KStr "v3"; KStr "ledger_stats"].
Definition PAID_FALLBACK_LEDGER_STATS_DAY_MS : Z := 24 * 60 * 60 * 1000.
Definition PAID_FALLBACK_LEDGER_STATS_MAX_WRITE_ATTEMPTS : nat := 8.

#[export] Instance eta_DailyStats : Eta PaidFallbackLedgerDailyStats := fun s =>
  mkDailyStats (day_start_at_ms s) (settled_rows s) (settled_row_bytes s) (rollup_writes s) (rollup_bytes s)
    (projection_7d s) (projection_30d s) (projection_90d s) (stats_updated_at_ms s).

Definition zeroProjectionCounters : LedgerProjectionCounters := mkProjectionCounters 0 0 0.

Definition emptyPaidFallbackLedgerDailyStats (dayStartAtMs : Z) : PaidFallbackLedgerDailyStats :=
  mkDailyStats dayStartAtMs 0 0 0 0 zeroProjectionCounters zeroProjectionCounters zeroProjectionCounters 0.

Definition paidFallbackLedgerStatsDayStart (ms : Z) : Z :=
  Z.max 0 ms / PAID_FALLBACK_LEDGER_STATS_DAY_MS * PAID_FALLBACK_LEDGER_STATS_DAY_MS.

Definition paidFallbackLedgerStatsDayKey (dayStartAtMs : Z) : KvKey :=
  (PAID_FALLBACK_LEDGER_STATS_PREFIX ++ [KNum dayStartAtMs])%list.

Definition safe_count (z : Z) : bool := isSafeUsageCount (jint z).

Definition isProjectionCounters (c : LedgerProjectionCounters) : bool :=
  safe_count (views c) && safe_count (read_units c) && safe_count (rollup_rows c).

Definition isPaidFallbackLedgerDailyStats (s : PaidFallbackLedgerDailyStats) : bool :=
  safe_count (day_start_at_ms s) && safe_count (settled_rows s) && safe_count (settled_row_bytes s)
  && safe_count (rollup_writes s) && safe_count (rollup_bytes s)
  && isProjectionCounters (projection_7d s) && isProjectionCounters (projection_30d s)
  && isProjectionCounters (projection_90d s) && safe_count (stats_updated_at_ms s).

(** ** Adapters *)

Section adapters.
Context {S : Type} `{Kv : !PaidStore S}.
(** The other clients, [Date.now()], whether [getKv()] finds a store, and the
    serialized size of a record. *)
Context (others : Clients S) (clock : nat -> Z) (available : bool) (record_bytes : PaidValue -> Z).
Local Notation get := (get others).
Local Notation list_prefix := (list_prefix others).
Local Notation commit := (commit others).
Local Notation now := (date_now clock).
Local Open Scope kv_scope.

Definition gate_key : KvKey := paidFallbackReconciliationGateV3Key.

#[global] Arguments gate_key : simpl never.

(** The check of a fence that may be absent. *)
Definition policy_checks (input : AdmissionInput) : list PaidEntry :=
  match policyCheck input with Some e => [e] | None => [] end.

(** *** Admission *)

Definition commitExhaustedPolicyTransitionV3 (input : AdmissionInput) (windowKey : KvKey)
    (windowEntry deletionGuardEntry : PaidEntry) (transitioned : PaidFallbackWindowV3) (nowMs : Z)
    : KvM S bool :=
  commit ([windowEntry; deletionGuardEntry] ++ policy_checks input)
    [MSet windowKey (VWindow transitioned) (Some (windowExpireIn transitioned nowMs))].

Definition decidePaidFallbackAdmissionV3 (input : AdmissionInput) (is_unlimited : bool) (exposure : option Z)
    : KvM S (option AdmissionDecision) :=
  let i := ai_input input in
  let windowKey := paidFallbackWindowV3Key (in_keyId i) (windowResetAtMs i) in
  let! requestEntry := get (paidFallbackRequestV3Key (in_keyId i) (in_requestId i)) in
  let! windowEntry := if is_unlimited then kv_ret (mkEntry windowKey VNull None) else get windowKey in
  let! deletionGuardEntry := get (paidFallbackDeletionGuardV3Key (in_keyId i)) in
  let! nowMs := now in
  let snapshot := mkAdmissionSnapshot (paid_row as_request_row requestEntry) (paid_row as_window_row windowEntry)
    (paid_row as_guard_row deletionGuardEntry) (versionstamp <$> policyCheck input) in
  match planPaidFallbackAdmissionV3 i snapshot (mkAdmissionPolicy is_unlimited exposure) nowMs with
  | PlanExhaustedPolicy window _ _ =>
      let! committed := commitExhaustedPolicyTransitionV3 input windowKey windowEntry deletionGuardEntry window nowMs in
      kv_ret (if committed : bool then Some (DecideBlocked LimitExceeded) else None)
  | PlanBlocked reason => kv_ret (Some (DecideBlocked reason))
  | PlanReserved reservation => kv_ret (Some (DecideReserved reservation))
  | PlanWrite plan =>
      kv_ret (Some (DecideWrite (mkWriteContext requestEntry windowEntry deletionGuardEntry plan nowMs)))
  end.

(** The commit of an admission, once the gate entry it may need is read. *)
Definition commitPaidFallbackAdmissionV3 (input : AdmissionInput) (context : AdmissionWriteContext)
    (gateEntry : option PaidEntry) : KvM S bool :=
  let i := ai_input input in
  let plan := cx_plan context in
  let gate_part := match gateEntry with
    | Some g => ([g], [MSet gate_key
        (VGate (paidFallbackReconciliationGateDueNow (as_gate_row (entry_value g)) (cx_now context))) None])
    | None => ([], [])
    end in
  let window_part := match aw_window plan with
    | Some w => ([cx_windowEntry context],
        [MSet (paidFallbackWindowV3Key (in_keyId i) (windowResetAtMs i)) (VWindow w)
           (Some (windowExpireIn w (cx_now context)))])
    | None => ([], [])
    end in
  commit
    ([cx_requestEntry context; cx_deletionGuardEntry context] ++ policy_checks input
       ++ fst gate_part ++ fst window_part)
    ([MSet (paidFallbackRequestV3Key (in_keyId i) (in_requestId i)) (VRequest (aw_request plan))
        (Some (aw_requestExpireIn plan));
      MSet (paidFallbackPendingV3Key (in_keyId i) (in_requestId i)) (VPending (aw_pending plan)) None]
       ++ snd gate_part ++ snd window_part).

Definition writePaidFallbackAdmissionV3 (input : AdmissionInput) (context : AdmissionWriteContext)
    : KvM S (option PaidFallbackAdmissionV3) :=
  let plan := cx_plan context in
  let! gateEntry := (if checkGate plan then let! e := get gate_key in kv_ret (Some e) else kv_ret None) in
  let! ok := commitPaidFallbackAdmissionV3 input context gateEntry in
  kv_ret (if ok : bool then Some (aw_reservation plan) else None).

Fixpoint admit_loop (tries : nat) (input : AdmissionInput) (is_unlimited : bool) : KvM S PaidAdmission :=
  match tries with
  | O => kv_ret (PaidBlocked ConcurrentUpdate)
  | Datatypes.S tries =>
      let! decision := decidePaidFallbackAdmissionV3 input is_unlimited
                         (maximumExposureMicrocredits (ai_input input)) in
      match decision with
      | None => admit_loop tries input is_unlimited
      | Some (DecideReserved reservation) => kv_ret (PaidReserved reservation)
      | Some (DecideBlocked reason) => kv_ret (PaidBlocked reason)
      | Some (DecideWrite context) =>
          let! reservation := writePaidFallbackAdmissionV3 input context in
          match reservation with
          | Some reservation => kv_ret (PaidReserved reservation)
          | None => admit_loop tries input is_unlimited
          end
      end
  end.

Definition admitPaidFallbackV3 (input : AdmissionInput) : KvM S PaidAdmission :=
  if negb available then kv_ret (PaidBlocked InvalidPolicy)
  else
    let is_unlimited := limitMicrocredits (ai_input input) =? PAID_FALLBACK_NO_LIMIT in
    if isInvalidAdmissionPolicy (ai_input input) is_unlimited (maximumExposureMicrocredits (ai_input input))
    then kv_ret (PaidBlocked InvalidPolicy)
    else admit_loop MAX_CAS_ATTEMPTS input is_unlimited.

(** *** Lifecycle *)

Definition loadLifecycleGateEntryV3 (shouldArm : bool) : KvM S (option PaidEntry) :=
  if shouldArm then let! e := get gate_key in kv_ret (Some e) else kv_ret None.

Fixpoint update_loop (tries : nat) (key : KvKey) (patch : PaidFallbackRequestLifecyclePatchV3) : KvM S unit :=
  match tries with
  | O => kv_throw "Paid fallback request changed concurrently."
  | Datatypes.S tries =>
      let! entry := get key in
      match as_request_row (entry_value entry) with
      | None => kv_ret tt
      | Some current =>
          let! nowMs := now in
          match planPaidFallbackLifecycleV3 current patch nowMs with
          | None => kv_ret tt
          | Some plan =>
              let! gateEntry := loadLifecycleGateEntryV3 (readGate plan) in
              let gate_part := match gateEntry with
                | Some g =>
                    let v := as_gate_row (entry_value g) in
                    ([g], if dispatchBoundary plan || paidFallbackReconciliationGateNeedsArm v nowMs
                          then [MSet gate_key (VGate (paidFallbackReconciliationGateDueNow v nowMs)) None]
                          else [])
                | None => ([], [])
                end in
              let! ok := commit ([entry] ++ fst gate_part)
                ([MSet key (VRequest (lp_request plan)) (Some (lp_requestExpireIn plan))] ++ snd gate_part) in
              if ok : bool then kv_ret tt else update_loop tries key patch
          end
      end
  end.

Definition updatePaidFallbackRequestV3 (reservation : PaidFallbackAdmissionV3)
    (patch : PaidFallbackRequestLifecyclePatchV3) : KvM S unit :=
  if negb available then kv_ret tt
  else update_loop MAX_CAS_ATTEMPTS
         (paidFallbackRequestV3Key (ad_key_id reservation) (ad_request_id reservation)) patch.

(** *** Release *)

Fixpoint release_loop (tries : nat) (reservation : PaidFallbackAdmissionV3) (allowDispatchIntent : bool)
    : KvM S unit :=
  match tries with
  | O => kv_throw "Paid fallback release changed concurrently."
  | Datatypes.S tries =>
      let requestKey := paidFallbackRequestV3Key (ad_key_id reservation) (ad_request_id reservation) in
      let windowKey := paidFallbackWindowV3Key (ad_key_id reservation) (ad_window_reset_at_ms reservation) in
      let! requestEntry := get requestKey in
      let! windowEntry := get windowKey in
      let! gateEntry := get gate_key in
      let! nowMs := now in
      match planPaidFallbackReleaseV3 (mkReleaseSnapshot (paid_row as_request_row requestEntry)
              (paid_row as_window_row windowEntry) (paid_row as_gate_row gateEntry)) allowDispatchIntent nowMs with
      | None => kv_ret tt
      | Some plan =>
          let window_part := match rp_window plan with
            | Some w => ([windowEntry], [MSet windowKey (VWindow w) (Some (windowExpireIn w nowMs))])
            | None => ([], [])
            end in
          let! ok := commit ([requestEntry; gateEntry] ++ fst window_part)
            ([MSet requestKey (VRequest (rp_request plan)) (Some (rp_requestExpireIn plan));
              MDelete (paidFallbackPendingV3Key (ad_key_id reservation) (ad_request_id reservation));
              MSet gate_key (VGate (rp_gate plan)) None] ++ snd window_part) in
          if ok : bool then kv_ret tt else release_loop tries reservation allowDispatchIntent
      end
  end.

Definition releasePaidFallbackBeforeDispatchV3 (reservation : PaidFallbackAdmissionV3)
    (allowDispatchIntent : bool) : KvM S unit :=
  if negb available then kv_ret tt else release_loop MAX_CAS_ATTEMPTS reservation allowDispatchIntent.

Definition releaseUndispatchedPaidFallbackV3 (reservation : PaidFallbackAdmissionV3) : KvM S unit :=
  releasePaidFallbackBeforeDispatchV3 reservation false.

Definition releasePaidFallbackBeforeProviderFetchV3 (reservation : PaidFallbackAdmissionV3) : KvM S unit :=
  releasePaidFallbackBeforeDispatchV3 reservation true.

(** *** Reconciliation: leases, markers and the gate *)

(** [token n]: the UUID drawn on the attempt with [n] tries left. *)
Fixpoint acquire_lease_loop (tries : nat) (token : nat -> string) (keyId : string) (nowMs : Z)
    : KvM S (option PaidFallbackReconciliationLeaseV3) :=
  match tries with
  | O => kv_ret None
  | Datatypes.S tries =>
      let key := paidFallbackReconciliationLeaseV3Key keyId in
      let! entry := get key in
      if paidFallbackLeaseActiveV3 (as_lease_row (entry_value entry)) nowMs then kv_ret None
      else
        let lease := paidFallbackReconciliationLeaseV3 (token tries) nowMs in
        let! ok := commit [entry] [MSet key (VLease lease) (Some RECONCILIATION_LEASE_MS)] in
        if ok : bool then kv_ret (Some lease) else acquire_lease_loop tries token keyId nowMs
  end.

Definition acquireReconciliationLease (token : nat -> string) (keyId : string) (nowMs : Z)
    : KvM S (option PaidFallbackReconciliationLeaseV3) :=
  acquire_lease_loop MAX_CAS_ATTEMPTS token keyId nowMs.

Definition releaseReconciliationLease (keyId : string) (lease : PaidFallbackReconciliationLeaseV3) : KvM S unit :=
  let key := paidFallbackReconciliationLeaseV3Key keyId in
  let! entry := get key in
  if negb (paidFallbackLeaseOwnedV3 (as_lease_row (entry_value entry)) (lease_token lease)) then kv_ret tt
  else let! _ := commit [entry] [MDelete key] in kv_ret tt.

Fixpoint expedite_loop (tries : nat) (pendingKey : KvKey) (nowMs : Z) : KvM S unit :=
  match tries with
  | O => kv_throw "Paid fallback reconciliation scheduling changed concurrently."
  | Datatypes.S tries =>
      let! pending := get pendingKey in
      let! gateEntry := get gate_key in
      match as_pending_row (entry_value pending) with
      | None => kv_ret tt
      | Some p =>
          let gate := as_gate_row (entry_value gateEntry) in
          let markerNeedsExpedite := nowMs <? next_reconciliation_at_ms p in
          let gateNeedsArm := paidFallbackReconciliationGateNeedsArm gate nowMs in
          if negb markerNeedsExpedite && negb gateNeedsArm then kv_ret tt
          else
            let! ok := commit [pending; gateEntry]
              ((if markerNeedsExpedite then [MSet pendingKey (VPending (mkPending (pn_created_at_ms p) nowMs)) None]
                else []) ++
               [MSet gate_key (VGate (paidFallbackReconciliationGateDueNow gate nowMs)) None]) in
            if ok : bool then kv_ret tt else expedite_loop tries pendingKey nowMs
      end
  end.

Definition _expeditePaidFallbackReconciliationV3 (reservation : PaidFallbackAdmissionV3) (nowMs : Z) : KvM S unit :=
  if negb available then kv_ret tt
  else expedite_loop MAX_CAS_ATTEMPTS
         (paidFallbackPendingV3Key (ad_key_id reservation) (ad_request_id reservation)) nowMs.

(** Drops a pending marker and keeps the gate due. *)
Definition clear_marker (pendingKey : KvKey) (pendingEntry gateEntry : PaidEntry) (nowMs : Z) : KvM S bool :=
  commit [pendingEntry; gateEntry]
    [MDelete pendingKey;
     MSet gate_key (VGate (paidFallbackReconciliationGateDueNow (as_gate_row (entry_value gateEntry)) nowMs)) None].

Fixpoint defer_loop (tries : nat) (keyId requestId : string) (nowMs : Z) : KvM S (option Z) :=
  match tries with
  | O => kv_throw "Paid fallback reconciliation deferral changed concurrently."
  | Datatypes.S tries =>
      let requestKey := paidFallbackRequestV3Key keyId requestId in
      let pendingKey := paidFallbackPendingV3Key keyId requestId in
      let! requestEntry := get requestKey in
      let! pendingEntry := get pendingKey in
      match planPaidFallbackDeferralV3 (as_request_row (entry_value requestEntry))
              (as_pending_row (entry_value pendingEntry)) nowMs with
      | DeferNoop => kv_ret None
      | DeferCleanup =>
          let! gateEntry := get gate_key in
          let! ok := clear_marker pendingKey pendingEntry gateEntry nowMs in
          if ok : bool then kv_ret None else defer_loop tries keyId requestId nowMs
      | DeferWrite request pending delay requestExpireIn =>
          let! ok := commit [requestEntry; pendingEntry]
            [MSet requestKey (VRequest request) (Some requestExpireIn); MSet pendingKey (VPending pending) None] in
          if ok : bool then kv_ret (Some delay) else defer_loop tries keyId requestId nowMs
      end
  end.

Definition deferPaidFallbackReconciliationV3 (keyId requestId : string) (nowMs : Z) : KvM S (option Z) :=
  defer_loop MAX_CAS_ATTEMPTS keyId requestId nowMs.

(** The earliest due time among the markers that carry a valid one. *)
Definition earliest_due (es : list PaidEntry) : option Z :=
  foldl (fun acc e =>
    match as_pending_row (entry_value e) with
    | None => acc
    | Some p =>
        let due := next_reconciliation_at_ms p in
        if negb (safe_count due) then acc
        else match acc with None => Some due | Some a => if due <? a then Some due else acc end
    end) None es.

Definition scanPaidFallbackPendingMarkers : KvM S (list PaidEntry * option Z) :=
  let! es := list_prefix paidFallbackPendingV3GlobalPrefix in kv_ret (es, earliest_due es).

Fixpoint recompute_loop (tries : nat) : KvM S (option Z) :=
  match tries with
  | O => kv_throw "Paid fallback reconciliation gate changed concurrently."
  | Datatypes.S tries =>
      let! gateEntry := get gate_key in
      let! scan := scanPaidFallbackPendingMarkers in
      let! ok := commit [gateEntry] [MSet gate_key (VGate (paidFallbackGateAfterScanV3 (snd scan))) None] in
      if ok : bool then kv_ret (snd scan) else recompute_loop tries
  end.

Definition recomputePaidFallbackReconciliationGateV3 : KvM S (option Z) := recompute_loop MAX_CAS_ATTEMPTS.

(** *** Settlement *)

Definition clearStalePendingMarkerV3 (pendingKey : KvKey) (pendingEntry gateEntry : PaidEntry) (nowMs : Z)
    : KvM S bool :=
  match as_pending_row (entry_value pendingEntry) with
  | None => kv_ret true
  | Some _ => clear_marker pendingKey pendingEntry gateEntry nowMs
  end.

Definition prepareSettlementRollupV3 (request : PaidFallbackRequestV3) (log : NativePaidProviderLog) (spend : Z)
    (c : NativePaidCorrelation) (nowMs : Z) : KvM S SettlementRollupV3 :=
  let i := paidFallbackRequestRollupIdentity request c in
  let rollupKey := paidFallbackUsageRollupKey (id_bucketStartAtMs i) (id_model i) (id_provider i) (id_shard i) in
  let! rollupEntry := get rollupKey in
  let existing := valid_rollup (as_rollup_row (entry_value rollupEntry)) in
  let plan := paidFallbackSettlementRollupV3 request log spend c existing nowMs in
  kv_ret (mkSettlementRollup rollupKey rollupEntry (fst plan) (snd plan)).

Fixpoint stats_loop (tries : nat) (dayStartAtMs nowMs : Z)
    (merge : PaidFallbackLedgerDailyStats -> PaidFallbackLedgerDailyStats) : KvM S unit :=
  match tries with
  | O => kv_ret tt
  | Datatypes.S tries =>
      let key := paidFallbackLedgerStatsDayKey dayStartAtMs in
      let! entry := get key in
      let existing := match as_stats_row (entry_value entry) with
        | Some s => if isPaidFallbackLedgerDailyStats s then s else emptyPaidFallbackLedgerDailyStats dayStartAtMs
        | None => emptyPaidFallbackLedgerDailyStats dayStartAtMs
        end in
      let next := merge existing <| day_start_at_ms := dayStartAtMs |> <| stats_updated_at_ms := nowMs |> in
      let! ok := commit [entry] [MSet key (VStats next) None] in
      if ok : bool then kv_ret tt else stats_loop tries dayStartAtMs nowMs merge
  end.

Definition recordPaidFallbackLedgerSettlementStats (settledRowBytes : Z) (rollupBytes : option Z) (nowMs : Z)
    : KvM S bool :=
  if negb (isSafeInteger nowMs) || (nowMs <? 0) then kv_ret false
  else kv_catch
    (let! _ := stats_loop PAID_FALLBACK_LEDGER_STATS_MAX_WRITE_ATTEMPTS
       (paidFallbackLedgerStatsDayStart nowMs) nowMs
       (fun stats => stats
          <| settled_rows := settled_rows stats + 1 |>
          <| settled_row_bytes := settled_row_bytes stats + Z.max 0 settledRowBytes |>
          <| rollup_writes := rollup_writes stats + match rollupBytes with None => 0 | Some _ => 1 end |>
          <| rollup_bytes := rollup_bytes stats + match rollupBytes with None => 0 | Some b => Z.max 0 b end |>) in
     kv_ret true)
    (fun _ => kv_ret false).

Definition recordSettlementGrowthV3 (settledRow : PaidFallbackRequestV3) (rollup : SettlementRollupV3) (nowMs : Z)
    : KvM S unit :=
  let! _ := recordPaidFallbackLedgerSettlementStats (record_bytes (VRequest settledRow))
    (if sr_foldIntoRollup rollup then Some (record_bytes (VRollup (sr_nextRollup rollup))) else None) nowMs in
  kv_ret tt.

Definition commitPaidFallbackSettlementV3 (requestKey pendingKey windowKey : KvKey)
    (requestEntry pendingEntry gateEntry windowEntry : PaidEntry) (plan : NativePaidReleasePlan)
    (rollup : SettlementRollupV3) (nowMs : Z) : KvM S bool :=
  let rollup_part := if sr_foldIntoRollup rollup
    then ([sr_rollupEntry rollup], [MSet (sr_rollupKey rollup) (VRollup (sr_nextRollup rollup)) None])
    else ([], []) in
  let window_part := match rp_window plan with
    | Some w => ([windowEntry], [MSet windowKey (VWindow w) (Some (windowExpireIn w nowMs))])
    | None => ([], [])
    end in
  commit ([requestEntry; pendingEntry] ++ fst rollup_part ++ [gateEntry] ++ fst window_part)
    ([MSet requestKey (VRequest (rp_request plan)) (Some (rp_requestExpireIn plan)); MDelete pendingKey]
       ++ snd rollup_part ++ [MSet gate_key (VGate (rp_gate plan)) None] ++ snd window_part).

Fixpoint settle_loop (tries : nat) (keyId requestId : string) (log : NativePaidProviderLog) (nowMs : Z)
    (c : NativePaidCorrelation) (cost : option number) : KvM S SettlementOutcome :=
  match tries with
  | O => kv_throw "Paid fallback settlement changed concurrently."
  | Datatypes.S tries =>
      let requestKey := paidFallbackRequestV3Key keyId requestId in
      let pendingKey := paidFallbackPendingV3Key keyId requestId in
      let! requestEntry := get requestKey in
      let! pendingEntry := get pendingKey in
      let! gateEntry := get gate_key in
      let request := as_request_row (entry_value requestEntry) in
      match evaluatePaidFallbackSettlementV3 request (as_pending_row (entry_value pendingEntry)) log
              (mkMetadata c MICROCREDITS_PER_CREDIT cost), request with
      | EvalCleanup, _ =>
          let! cleared := clearStalePendingMarkerV3 pendingKey pendingEntry gateEntry nowMs in
          if cleared : bool then kv_ret (mkSettlementOutcome false None)
          else settle_loop tries keyId requestId log nowMs c cost
      | EvalNoop, _ | _, None => kv_ret (mkSettlementOutcome false None)
      | EvalDefer, _ =>
          let! delay := deferPaidFallbackReconciliationV3 keyId requestId nowMs in
          kv_ret (mkSettlementOutcome false delay)
      | EvalSettle spend, Some r =>
          let windowKey := paidFallbackWindowV3Key keyId (rq_window_reset_at_ms r) in
          let! windowEntry := get windowKey in
          let! rollup := prepareSettlementRollupV3 r log spend c nowMs in
          let! plan := kv_lift (planPaidFallbackSettlementRowsV3
            (mkSettlementSnapshot (paid_row as_request_row requestEntry) (paid_row as_pending_row pendingEntry)
               (paid_row as_gate_row gateEntry) (paid_row as_window_row windowEntry)
               (paid_row as_rollup_row (sr_rollupEntry rollup))) log spend (sr_foldIntoRollup rollup) nowMs) in
          let! ok := commitPaidFallbackSettlementV3 requestKey pendingKey windowKey requestEntry pendingEntry
                       gateEntry windowEntry plan rollup nowMs in
          if ok : bool then
            let! _ := recordSettlementGrowthV3 (rp_request plan) rollup nowMs in
            kv_ret (mkSettlementOutcome true None)
          else settle_loop tries keyId requestId log nowMs c cost
      end
  end.

Definition settlePaidFallbackRequestV3 (keyId requestId : string) (log : NativePaidProviderLog) (nowMs : Z)
    (c : NativePaidCorrelation) (cost : option number) : KvM S SettlementOutcome :=
  settle_loop MAX_CAS_ATTEMPTS keyId requestId log nowMs c cost.

Definition settlePaidFallbackUsageV3 (reservation : PaidFallbackAdmissionV3) (usage : PaidFallbackUsageSettlementV3)
    : KvM S bool :=
  if negb available then kv_ret false
  else
    let! nowMs := now in
    let! result := settlePaidFallbackRequestV3 (ad_key_id reservation) (ad_request_id reservation)
      (mkLog (settlement_request_id usage) (us_provider_quota usage) (us_input_tokens usage)
         (us_cached_input_tokens usage) None (us_output_tokens usage) (us_model usage)
         (Z.max 0 (Z.quot (us_created_at_ms usage) 1000)))
      nowMs CSurplusReservation (buyer_cost_micro usage) in
    kv_ret (settled result).

(** *** Usage rollups *)

Definition MAX_TERMINAL_USAGE_ROLLUP_WRITE_ATTEMPTS : nat := 3.

Fixpoint rollup_loop (tries : nat) (rollupKey : KvKey) (input : PaidFallbackUsageRollupInput) : KvM S bool :=
  match tries with
  | O => kv_ret false
  | Datatypes.S tries =>
      let! entry := get rollupKey in
      let next := mergePaidFallbackUsageRollup (valid_rollup (as_rollup_row (entry_value entry))) input in
      let! ok := commit [entry] [MSet rollupKey (VRollup next) None] in
      if ok : bool then kv_ret true else rollup_loop tries rollupKey input
  end.

(** [uuid]: the identifier drawn when the observation carries none. *)
Definition recordTerminalUsageRollup (uuid : string) (input : TerminalUsageRollupInput) : KvM S bool :=
  match paidFallbackTerminalUsageV3 input with
  | None => kv_ret false
  | Some usage =>
      if negb available then kv_ret false
      else
        let trimmed := trim (ti_request_id input) in
        let requestId := if empty trimmed then uuid else trimmed in
        let! nowMs := now in
        let rollupInput := paidFallbackTerminalRollupV3 input usage requestId nowMs in
        rollup_loop MAX_TERMINAL_USAGE_ROLLUP_WRITE_ATTEMPTS
          (paidFallbackUsageRollupKey (ri_bucket_start_at_ms rollupInput) (tu_model usage) (tu_provider usage)
             (paidFallbackUsageRollupShard requestId)) rollupInput
  end.

(** *** Backfill of one row *)

Definition rewriteMarkedRequestRowTtlV3 (requestKey : KvKey) (requestEntry : PaidEntry)
    (request : PaidFallbackRequestV3) (nowMs : Z) : KvM S bool :=
  kv_catch (commit [requestEntry] [MSet requestKey (VRequest request) (Some (requestRowExpireIn request nowMs))])
    (fun _ => kv_ret false).

Definition foldRequestRowIntoRollupV3 (requestKey : KvKey) (requestEntry : PaidEntry)
    (request : PaidFallbackRequestV3) (nowMs : Z) : KvM S RollupFoldOutcome :=
  let i := paidFallbackRequestRollupIdentity request CProviderRequestId in
  let rollupKey := paidFallbackUsageRollupKey (id_bucketStartAtMs i) (id_model i) (id_provider i) (id_shard i) in
  let! rollupEntry := (if paidFallbackBackfillRollupEligibleV3 request
                       then let! e := get rollupKey in kv_ret (Some e) else kv_ret None) in
  let existing := valid_rollup (rollupEntry ≫= fun e => as_rollup_row (entry_value e)) in
  let '(nextRow, requestExpireIn, nextRollup) := planPaidFallbackBackfillFoldV3 request existing nowMs in
  let rollup_part := match nextRollup, rollupEntry with
    | Some next, Some e => ([e], [MSet rollupKey (VRollup next) None])
    | _, _ => ([], [])
    end in
  let! ok := commit ([requestEntry] ++ fst rollup_part)
    ([MSet requestKey (VRequest nextRow) (Some requestExpireIn)] ++ snd rollup_part) in
  kv_ret (if ok : bool then match nextRollup with Some _ => FoldRollupWritten | None => FoldProcessed end
          else FoldFailed).

Definition advanceBackfillSweepV3 (requestKey : KvKey) (progress : BackfillProgress) (nowMs : Z)
    : KvM S (SweepStep * BackfillProgress) :=
  let! requestEntry := get requestKey in
  let request := as_request_row (entry_value requestEntry) in
  match paidFallbackRequestBackfillStateV3 request, request with
  | RowMissing, _ | _, None => kv_ret (SweepContinue, progress)
  | RowRetention, Some r =>
      let! rewritten := rewriteMarkedRequestRowTtlV3 requestKey requestEntry r nowMs in
      kv_ret (if negb rewritten
              then (SweepWriteBudget, progress <| bp_failed := bp_failed progress + 1 |>)
              else (SweepContinue, progress <| bp_lastVisitedKey := Some requestKey |>))
  | RowFold, Some r =>
      if bp_budget progress <=? 0 then kv_ret (SweepWriteBudget, progress)
      else
        let progress := progress <| bp_budget := bp_budget progress - 1 |> in
        let! outcome := foldRequestRowIntoRollupV3 requestKey requestEntry r nowMs in
        let visited := progress <| bp_lastVisitedKey := Some requestKey |>
                         <| bp_processed := bp_processed progress + 1 |> in
        kv_ret match outcome with
          | FoldFailed => (SweepWriteBudget, progress <| bp_failed := bp_failed progress + 1 |>)
          | FoldRollupWritten =>
              (SweepContinue, visited <| bp_rollupsWritten := bp_rollupsWritten progress + 1 |>)
          | FoldProcessed => (SweepContinue, visited)
          end
  end.

(** *** Projections and deletion *)

(** The billing states under a key, and its markers. *)
Definition outstanding_of (requests markers : list PaidEntry) : PaidFallbackOutstandingV3 :=
  let count b := Z.of_nat (length (filter (fun e => rq_billing_state <$> as_request_row (entry_value e) = Some b)
                                          requests)) in
  let n := Z.of_nat (length markers) in
  mkOutstanding (count BPending) (count BUnresolved) n
    ((0 <? count BPending) || (0 <? count BUnresolved) || (0 <? n)).

Definition getPaidFallbackOutstandingV3 (keyId : string) : KvM S (option PaidFallbackOutstandingV3) :=
  if negb available then kv_ret None
  else
    let! requests := list_prefix (paidFallbackRequestV3Prefix keyId) in
    let! markers := list_prefix (paidFallbackPendingV3Prefix keyId) in
    kv_ret (Some (outstanding_of requests markers)).

(** One request row of the scan that rebuilds a missing window. *)
Definition project_row (resetAtMs : Z) (acc : PaidFallbackWindowProjectionV3) (r : PaidFallbackRequestV3)
    : PaidFallbackWindowProjectionV3 :=
  if negb (rq_window_reset_at_ms r =? resetAtMs) then acc
  else
    let newer := match pj_updated_at_ms acc with None => true | Some t => t <? rq_updated_at_ms r end in
    mkProjection (pj_key_id acc)
      (if newer then Some (rq_policy_version r) else pj_policy_version acc)
      (pj_window_reset_at_ms acc) (pj_limit_microcredits acc)
      (pj_settled_microcredits acc +
         match rq_billing_state r with BSettled => default 0 (rq_spend_microcredits r) | _ => 0 end)
      (pj_reserved_microcredits acc + if billable r then rq_reserved_microcredits r else 0)
      (pj_pending_count acc + b2z (billable r))
      (if newer then Some (rq_updated_at_ms r) else pj_updated_at_ms acc).

Definition getPaidFallbackWindowProjectionV3 (keyId : string) (resetAtMs limit : Z)
    : KvM S (option PaidFallbackWindowProjectionV3) :=
  if negb available then kv_ret None
  else
    let! e := get (paidFallbackWindowV3Key keyId resetAtMs) in
    match as_window_row (entry_value e) with
    | Some w =>
        kv_ret (Some (mkProjection keyId (Some (wn_policy_version w)) resetAtMs limit (wn_settled_microcredits w)
                        (wn_reserved_microcredits w) (wn_pending_count w) (Some (wn_updated_at_ms w))))
    | None =>
        let! es := list_prefix (paidFallbackRequestV3Prefix keyId) in
        kv_ret (Some (foldl (project_row resetAtMs) (mkProjection keyId None resetAtMs limit 0 0 0 None)
                        (omap (fun e => as_request_row (entry_value e)) es)))
    end.

(** Deletes in batches of a hundred; [fuel] bounds the number of batches. *)
Fixpoint delete_batches (fuel : nat) (keys : list KvKey) : KvM S unit :=
  match fuel, keys with
  | _, [] => kv_ret tt
  | O, _ => kv_ret tt
  | Datatypes.S fuel, _ =>
      let! ok := commit [] (MDelete <$> take 100 keys) in
      if ok : bool then delete_batches fuel (drop 100 keys)
      else kv_throw "Paid fallback state deletion changed concurrently."
  end.

Definition deleteKvKeys (keys : list KvKey) : KvM S unit := delete_batches (length keys) keys.

(** The guard loop: the last failed attempt throws. *)
Fixpoint guard_loop (tries : nat) (guardKey : KvKey) : KvM S unit :=
  match tries with
  | O => kv_throw "Paid fallback deletion guard changed concurrently."
  | Datatypes.S tries =>
      let! guard := get guardKey in
      let! nowMs := now in
      match planPaidFallbackDeletionGuardV3 (as_guard_row (entry_value guard)) nowMs with
      | None => kv_ret tt
      | Some next =>
          let! ok := commit [guard] [MSet guardKey (VGuard next) None] in
          if ok : bool then kv_ret tt else guard_loop tries guardKey
      end
  end.

Definition deletePaidFallbackStateV3 (keyId : string) : KvM S PaidFallbackDeletionV3 :=
  if negb available then kv_ret PaidDeletionUnavailable
  else
    let! _ := guard_loop MAX_CAS_ATTEMPTS (paidFallbackDeletionGuardV3Key keyId) in
    let! outstanding := getPaidFallbackOutstandingV3 keyId in
    match planPaidFallbackDeletionV3 outstanding with
    | DeletionUnavailable => kv_ret PaidDeletionUnavailable
    | DeletionBlocked o => kv_ret (PaidDeletionBlocked o)
    | DeletionDelete =>
        let! requests := list_prefix (paidFallbackRequestV3Prefix keyId) in
        let! windows := list_prefix (paidFallbackWindowV3Prefix keyId) in
        let! pendings := list_prefix (paidFallbackPendingV3Prefix keyId) in
        let leaseKey := paidFallbackReconciliationLeaseV3Key keyId in
        let! lease := get leaseKey in
        let leases := match as_lease_row (entry_value lease) with Some _ => [leaseKey] | None => [] end in
        let! _ := deleteKvKeys ((entry_key <$> requests) ++ (entry_key <$> windows) ++ (entry_key <$> pendings)
                                  ++ leases) in
        kv_ret (PaidDeleted (Z.of_nat (length requests)) (Z.of_nat (length windows)) (Z.of_nat (length pendings))
                  (Z.of_nat (length leases)))
    end.
End adapters.
