(* ===== verification/PaidSafety.v ===== *)
(** * The ledger's invariant

    The reserved amount of every window is the sum of the reservations its
    billable requests hold, and a request whose billing is final keeps it:
    [ledger_evolves] is what any run of the ledger's adapters does to the store,
    and the commits of PaidLedger.v satisfy it. *)

From stdpp Require Import base gmap strings list.
From Stdlib Require Import ZArith Lia.
From S2P Require Import Prelude Js KvStore KvLogic NativePaid PaidLedger.
Open Scope string_scope.
Open Scope Z_scope.

(** ** Reading the ledger *)

Definition row_at (m : PaidMap) (kid id : string) : option PaidFallbackRequestV3 :=
  as_request_row (entry_value (entry_at m (paidFallbackRequestV3Key kid id))).
Definition window_at (m : PaidMap) (kid : string) (reset : Z) : option PaidFallbackWindowV3 :=
  as_window_row (entry_value (entry_at m (paidFallbackWindowV3Key kid reset))).

Definition window_reserved (w : option PaidFallbackWindowV3) : Z := from_option wn_reserved_microcredits 0 w.

(** What a row holds of the window that resets at [reset]. *)
Definition hold (reset : Z) (r : PaidFallbackRequestV3) : Z :=
  if billable r && (rq_window_reset_at_ms r =? reset) then rq_reserved_microcredits r else 0.
Definition hold_value (reset : Z) (v : PaidValue) : Z := from_option (hold reset) 0 (as_request_row v).

(** The reservations the billable requests of a key hold of a window. *)
Definition held (m : PaidMap) (kid : string) (reset : Z) : Z :=
  prefix_sum (hold_value reset) (paidFallbackRequestV3Prefix kid) m.

Record ledger_inv (m : PaidMap) : Prop := {
  li_exact kid reset : held m kid reset = window_reserved (window_at m kid reset);
  li_nonneg k r n : m !! k = Some (VRequest r, n) -> 0 <= rq_reserved_microcredits r }.

(** ** Keys *)

Definition off_request (k : KvKey) : Prop :=
  forall kid, has_prefix (paidFallbackRequestV3Prefix kid) k = false.
Definition off_window (k : KvKey) : Prop := forall kid reset, k <> paidFallbackWindowV3Key kid reset.

(** A key of neither kind. *)
Definition neutral (k : KvKey) : Prop := off_request k /\ off_window k.

Lemma neutral_pending kid id : neutral (paidFallbackPendingV3Key kid id).
Proof. split; [intros ?; reflexivity|intros ? ?; discriminate]. Qed.
Lemma neutral_gate : neutral gate_key.
Proof. split; [intros ?; reflexivity|intros ? ?; discriminate]. Qed.
Lemma neutral_lease kid : neutral (paidFallbackReconciliationLeaseV3Key kid).
Proof. split; [intros ?; reflexivity|intros ? ?; discriminate]. Qed.
Lemma neutral_rollup b m p sh : neutral (paidFallbackUsageRollupKey b m p sh).
Proof. split; [intros ?; reflexivity|intros ? ?; discriminate]. Qed.
Lemma neutral_stats d : neutral (paidFallbackLedgerStatsDayKey d).
Proof. split; [intros ?; reflexivity|intros ? ?; discriminate]. Qed.
Lemma neutral_guard kid : neutral (paidFallbackDeletionGuardV3Key kid).
Proof. split; [intros ?; reflexivity|intros ? ?; discriminate]. Qed.
Lemma window_off_request kid reset : off_request (paidFallbackWindowV3Key kid reset).
Proof. intros ?. reflexivity. Qed.
Lemma request_off_window kid id : off_window (paidFallbackRequestV3Key kid id).
Proof. intros ? ?. discriminate. Qed.
#[export] Hint Resolve neutral_pending neutral_gate neutral_lease neutral_rollup neutral_stats neutral_guard
  window_off_request request_off_window : gateway.

Lemma request_prefix kid kid' id :
  has_prefix (paidFallbackRequestV3Prefix kid) (paidFallbackRequestV3Key kid' id) = bool_decide (kid = kid').
Proof.
  unfold paidFallbackRequestV3Prefix, paidFallbackRequestV3Key, PREFIX. cbn [app has_prefix].
  rewrite !(bool_decide_true (KStr _ = KStr _)) by done. cbn [andb].
  rewrite andb_true_r. apply bool_decide_ext. naive_solver.
Qed.

Lemma window_key_eq kid reset kid' reset' :
  paidFallbackWindowV3Key kid reset = paidFallbackWindowV3Key kid' reset' <-> kid = kid' /\ reset = reset'.
Proof. unfold paidFallbackWindowV3Key. naive_solver. Qed.
Lemma request_key_eq kid id kid' id' :
  paidFallbackRequestV3Key kid id = paidFallbackRequestV3Key kid' id' <-> kid = kid' /\ id = id'.
Proof. unfold paidFallbackRequestV3Key. naive_solver. Qed.

(** ** How rows change *)

(** What is fixed about a request: its window and reservation, the provider's
    identifier once known, and its billing once final. *)
Record row_le (r r' : PaidFallbackRequestV3) : Prop := {
  le_window : rq_window_reset_at_ms r' = rq_window_reset_at_ms r;
  le_reserved : rq_reserved_microcredits r' = rq_reserved_microcredits r;
  le_created : rq_created_at_ms r' = rq_created_at_ms r;
  le_provider_request id : rq_provider_request_id r = Some id -> rq_provider_request_id r' = Some id;
  le_final : billable r = false ->
    rq_billing_state r' = rq_billing_state r /\ rq_spend_microcredits r' = rq_spend_microcredits r }.

#[export] Instance row_le_preorder : PreOrder row_le.
Proof.
  split; [intros r; constructor; auto|]. intros r1 r2 r3 [? ? ? ? H12] [? ? ? ? H23].
  constructor; try congruence; [auto|]. intros Hb. destruct (H12 Hb) as [E1 E2].
  destruct H23 as [E3 E4]; [by unfold billable; rewrite E1|]. split; congruence.
Qed.

Section evolves.
Context {S : Type} `{Kv : !PaidStore S}.

Record ledger_evolves (s s' : S) : Prop := {
  lev_advances : advances s s';
  lev_rows kid id r : row_at (kv_map s) kid id = Some r ->
    exists r', row_at (kv_map s') kid id = Some r' /\ row_le r r';
  lev_inv : ledger_inv (kv_map s) -> ledger_inv (kv_map s') }.

#[export] Instance ledger_evolves_preorder : PreOrder ledger_evolves.
Proof.
  split.
  - intros s. constructor; [apply advances_refl| |done]. intros kid id r Hr. exists r. by split.
  - intros s1 s2 s3 H12 H23. constructor.
    + eapply advances_trans; by apply lev_advances.
    + intros kid id r Hr. destruct (lev_rows _ _ H12 _ _ _ Hr) as (r2 & Hr2 & H2).
      destruct (lev_rows _ _ H23 _ _ _ Hr2) as (r3 & Hr3 & H3). exists r3. split; [done|by etrans].
    + intros H. by apply (lev_inv _ _ H23), (lev_inv _ _ H12).
Qed.
End evolves.

(** ** Effects of the ledger's mutations *)

Section mutations.
Context (n : Z) (m : PaidMap).

Definition keeps_nonneg (mu : PaidMutation) : Prop :=
  match mu with MSet _ (VRequest r) _ => 0 <= rq_reserved_microcredits r | _ => True end.

Lemma nonneg_mutations ms m0 :
  Forall keeps_nonneg ms ->
  (forall k r n, m0 !! k = Some (VRequest r, n) -> 0 <= rq_reserved_microcredits r) ->
  forall k r n', apply_mutations n ms m0 !! k = Some (VRequest r, n') -> 0 <= rq_reserved_microcredits r.
Proof.
  revert m0. induction ms as [|mu ms IH]; intros m0 Hms Hm; [done|]. inversion_clear Hms as [|? ? Hmu Hrest].
  change (forall k r n', apply_mutations n ms (apply_mutation n m0 mu) !! k = Some (VRequest r, n') ->
    0 <= rq_reserved_microcredits r).
  apply IH; [done|]. intros k r n'. destruct mu as [k' v e|k']; cbn.
  - intros [[<- [= -> <-]]|[_ Hk]]%lookup_insert_Some; [done|by eauto].
  - intros [_ Hk]%lookup_delete_Some. by eauto.
Qed.

Lemma held_set kid0 id0 r' kid reset :
  held (<[paidFallbackRequestV3Key kid0 id0 := (VRequest r', n)]> m) kid reset
  = held m kid reset
    + if bool_decide (kid = kid0) then hold reset r' - from_option (hold reset) 0 (row_at m kid0 id0) else 0.
Proof.
  unfold held. rewrite prefix_sum_set. unfold key_weight, value_weight, row_at, entry_at.
  rewrite request_prefix. case_bool_decide; [|lia].
  destruct (m !! paidFallbackRequestV3Key kid0 id0) as [[v z]|]; cbn; [|lia].
  unfold hold_value. cbn. lia.
Qed.

Lemma held_mutations ms m0 kid reset :
  Forall (fun mu => off_request (mutation_key mu)) ms -> held (apply_mutations n ms m0) kid reset = held m0 kid reset.
Proof.
  intros H. apply prefix_sum_mutations_out. eapply Forall_impl; [exact H|]. intros mu Hmu. apply Hmu.
Qed.

Lemma row_mutations ms m0 kid id :
  Forall (fun mu => off_request (mutation_key mu)) ms -> row_at (apply_mutations n ms m0) kid id = row_at m0 kid id.
Proof.
  intros H. unfold row_at, entry_at. rewrite apply_mutations_other; [done|].
  eapply Forall_impl; [exact H|]. intros mu Hmu E. specialize (Hmu kid).
  rewrite E, request_prefix, bool_decide_true in Hmu; done.
Qed.

Lemma window_mutations ms m0 kid reset :
  Forall (fun mu => off_window (mutation_key mu)) ms ->
  window_at (apply_mutations n ms m0) kid reset = window_at m0 kid reset.
Proof.
  intros H. unfold window_at, entry_at. rewrite apply_mutations_other; [done|].
  eapply Forall_impl; [exact H|]. intros mu Hmu. apply Hmu.
Qed.

Lemma row_set kid0 id0 r' kid id :
  row_at (<[paidFallbackRequestV3Key kid0 id0 := (VRequest r', n)]> m) kid id
  = if bool_decide (kid = kid0 /\ id = id0) then Some r' else row_at m kid id.
Proof.
  unfold row_at, entry_at. case_bool_decide as E.
  - destruct E as [-> ->]. by rewrite lookup_insert_eq.
  - rewrite lookup_insert_ne; [done|]. rewrite request_key_eq. naive_solver.
Qed.

Lemma window_set_request kid0 id0 r' kid reset :
  window_at (<[paidFallbackRequestV3Key kid0 id0 := (VRequest r', n)]> m) kid reset = window_at m kid reset.
Proof.
  unfold window_at, entry_at. rewrite lookup_insert_ne; [done|]. apply request_off_window.
Qed.

Lemma window_set_last ms m0 kid0 reset0 w' e kid reset :
  Forall (fun mu => off_window (mutation_key mu)) ms ->
  window_at (apply_mutations n (ms ++ [MSet (paidFallbackWindowV3Key kid0 reset0) (VWindow w') e]) m0) kid reset
  = if bool_decide (kid = kid0 /\ reset = reset0) then Some w' else window_at m0 kid reset.
Proof.
  intros Hms. unfold apply_mutations. rewrite foldl_app. cbn.
  fold (apply_mutations n ms m0). unfold window_at at 1, entry_at. case_bool_decide as E.
  - destruct E as [-> ->]. by rewrite lookup_insert_eq.
  - rewrite lookup_insert_ne by (intros [-> ->]%window_key_eq; naive_solver).
    by rewrite <- (window_mutations ms m0 kid reset Hms).
Qed.
End mutations.

(** A row holds no more of a window than all rows do. *)
Lemma hold_le_held m kid id r reset :
  ledger_inv m -> row_at m kid id = Some r -> hold reset r <= held m kid reset.
Proof.
  intros Hinv Hr. transitivity (key_weight (hold_value reset) (paidFallbackRequestV3Prefix kid) m
    (paidFallbackRequestV3Key kid id)).
  - unfold key_weight. rewrite request_prefix, bool_decide_true by done. unfold row_at, entry_at in Hr.
    destruct (m !! _) as [[v z]|]; cbn in Hr; [|done]. unfold hold_value. by rewrite Hr.
  - apply key_weight_le. intros k v z Hk. unfold hold_value. destruct v as [|r0| | | | | | | |]; cbn; try lia.
    unfold hold. destruct (billable r0 && _); [|lia]. by eapply li_nonneg.
Qed.

Lemma row_nonneg m kid id r : ledger_inv m -> row_at m kid id = Some r -> 0 <= rq_reserved_microcredits r.
Proof.
  intros Hinv. unfold row_at, entry_at. destruct (m !! _) as [[[] n]|] eqn:E; try done.
  intros [= <-]. by eapply li_nonneg.
Qed.

(** ** Commits *)

Section commits.
Context {S : Type} `{Kv : !PaidStore S}.
Context (cs : list PaidEntry) (ms : list PaidMutation) (s s' : S).
Context (Hcommit : kv_commit cs ms s = (true, s')).

(** A mutation of neither a request nor a window. *)
Definition benign (mu : PaidMutation) : Prop := neutral (mutation_key mu) /\ keeps_nonneg mu.

Lemma benign_off_request l : Forall benign l -> Forall (fun mu => off_request (mutation_key mu)) l.
Proof using. intros H. eapply Forall_impl; [exact H|]. by intros mu [[]]. Qed.
Lemma benign_off_window l : Forall benign l -> Forall (fun mu => off_window (mutation_key mu)) l.
Proof using. intros H. eapply Forall_impl; [exact H|]. by intros mu [[]]. Qed.
Lemma benign_nonneg l : Forall benign l -> Forall keeps_nonneg l.
Proof using. intros H. eapply Forall_impl; [exact H|]. by intros mu []. Qed.

Lemma commit_map : kv_map s' = apply_mutations (kv_version s') ms (kv_map s).
Proof. by destruct (kv_commit_ok _ _ _ _ Hcommit) as (_ & _ & ?). Qed.

Lemma neutral_commit : Forall benign ms -> ledger_evolves s s'.
Proof.
  intros Hb. constructor; [by eapply commit_advances| |].
  - intros kid id r Hr. exists r. split; [|done]. rewrite commit_map, row_mutations; auto using benign_off_request.
  - intros [Hx Hn]. rewrite commit_map. constructor.
    + intros kid reset. rewrite held_mutations, window_mutations; auto using benign_off_request, benign_off_window.
    + apply nonneg_mutations; auto using benign_nonneg.
Qed.

(** The optional last mutation, of the window of [kid] and [reset]. *)
Definition window_part (kid : string) (reset : Z) (w : option PaidFallbackWindowV3) (l : list PaidMutation) : Prop :=
  match w with
  | Some w => exists e, l = [MSet (paidFallbackWindowV3Key kid reset) (VWindow w) e]
  | None => l = []
  end.

Section request.
Context (kid id : string) (r' : PaidFallbackRequestV3) (e : option Z) (rest wpart : list PaidMutation).
Context (reset : Z) (w' : option PaidFallbackWindowV3).
Context (Hms : ms = MSet (paidFallbackRequestV3Key kid id) (VRequest r') e :: rest ++ wpart).
Context (Hrest : Forall benign rest) (Hw : window_part kid reset w' wpart).

Lemma tail_off_request : Forall (fun mu => off_request (mutation_key mu)) (rest ++ wpart).
Proof using Hms Hrest Hw.
  apply Forall_app. split; [by apply benign_off_request|]. destruct w'; [|by rewrite Hw].
  destruct Hw as [? ->]. apply Forall_singleton. apply window_off_request.
Qed.

Lemma tail_map : exists m0, kv_map s' = apply_mutations (kv_version s') (rest ++ wpart) m0
  /\ m0 = <[paidFallbackRequestV3Key kid id := (VRequest r', kv_version s')]> (kv_map s).
Proof using Hms Hcommit. eexists. split; [|done]. by rewrite commit_map, Hms. Qed.

Lemma held_after kid' reset' :
  held (kv_map s') kid' reset' = held (kv_map s) kid' reset'
    + if bool_decide (kid' = kid)
      then hold reset' r' - from_option (hold reset') 0 (row_at (kv_map s) kid id) else 0.
Proof using Hms Hcommit Hrest Hw.
  destruct tail_map as (m0 & -> & ->). rewrite held_mutations by apply tail_off_request. apply held_set.
Qed.

Lemma row_after kid' id' :
  row_at (kv_map s') kid' id'
  = if bool_decide (kid' = kid /\ id' = id) then Some r' else row_at (kv_map s) kid' id'.
Proof using Hms Hcommit Hrest Hw.
  destruct tail_map as (m0 & -> & ->). rewrite row_mutations by apply tail_off_request. apply row_set.
Qed.

Lemma window_after kid' reset' :
  window_at (kv_map s') kid' reset'
  = match w' with
    | Some w => if bool_decide (kid' = kid /\ reset' = reset) then Some w else window_at (kv_map s) kid' reset'
    | None => window_at (kv_map s) kid' reset'
    end.
Proof using Hms Hcommit Hrest Hw.
  destruct tail_map as (m0 & -> & ->). destruct w' as [w|].
  - destruct Hw as [? ->]. rewrite window_set_last by (by apply benign_off_window).
    by rewrite window_set_request.
  - rewrite Hw, app_nil_r, window_mutations by (by apply benign_off_window). apply window_set_request.
Qed.

Lemma nonneg_after : 0 <= rq_reserved_microcredits r' -> ledger_inv (kv_map s) ->
  forall k r n, kv_map s' !! k = Some (VRequest r, n) -> 0 <= rq_reserved_microcredits r.
Proof using Hms Hcommit Hrest Hw.
  intros Hnonneg Hinv. rewrite commit_map, Hms. apply nonneg_mutations; [|by apply li_nonneg].
  constructor; [done|]. apply Forall_app. split; [by apply benign_nonneg|].
  destruct w'; [|by rewrite Hw]. destruct Hw as [? ->]. by apply Forall_singleton.
Qed.

(** The row is rewritten without touching its claim on the window. *)
Lemma row_commit r :
  w' = None -> row_at (kv_map s) kid id = Some r -> row_le r r' -> billable r' = billable r ->
  ledger_evolves s s'.
Proof using Hms Hcommit Hrest Hw.
  intros Ew Hr Hle Hb. constructor; [by eapply commit_advances| |].
  - intros kid0 id0 r0 Hr0. rewrite row_after. case_bool_decide as E; [|by exists r0].
    destruct E as [-> ->]. exists r'. split; [done|]. congruence.
  - intros Hinv. pose proof (row_nonneg _ _ _ _ Hinv Hr) as Hnonneg.
    rewrite <- (le_reserved _ _ Hle) in Hnonneg. constructor; [|by apply nonneg_after]. intros kid0 reset0.
    rewrite held_after, window_after, Ew, (li_exact _ Hinv), Hr. cbn. unfold hold.
    rewrite Hb, (le_window _ _ Hle), (le_reserved _ _ Hle). case_bool_decide; lia.
Qed.

(** The row's billing becomes final and its claim on its window ends; a
    row that claims nothing needs no window. *)
Lemma close_commit s0 r :
  ledger_evolves s0 s ->
  row_at (kv_map s) kid id = Some r -> row_le r r' -> billable r = true -> billable r' = false ->
  reset = rq_window_reset_at_ms r ->
  (ledger_inv (kv_map s0) ->
   match window_at (kv_map s) kid reset, w' with
   | Some w0, Some w =>
       wn_reserved_microcredits w = Z.max 0 (wn_reserved_microcredits w0 - rq_reserved_microcredits r)
   | None, Some _ => False
   | _, None => rq_reserved_microcredits r = 0
   end) -> ledger_evolves s0 s'.
Proof using Hms Hcommit Hrest Hw.
  intros H0 Hr Hle Hb Hb' Hreset Hclose0. constructor.
  - eapply advances_trans; [by apply lev_advances|by eapply commit_advances].
  - intros kid0 id0 r0 Hr0. destruct (lev_rows _ _ H0 _ _ _ Hr0) as (r1 & Hr1 & H1).
    rewrite row_after. case_bool_decide as E; [|by exists r1].
    destruct E as [-> ->]. exists r'. split; [done|]. etrans; [done|]. congruence.
  - intros Hinv0. specialize (Hclose0 Hinv0) as Hclose. pose proof (lev_inv _ _ H0 Hinv0) as Hinv.
    pose proof (row_nonneg _ _ _ _ Hinv Hr) as Hnonneg.
    rewrite <- (le_reserved _ _ Hle) in Hnonneg. constructor; [|by apply nonneg_after]. intros kid0 reset0.
    rewrite held_after, window_after, Hr. cbn. unfold hold. rewrite Hb, Hb'. cbn.
    pose proof (hold_le_held _ _ _ _ reset Hinv Hr) as Hbound.
    unfold hold in Hbound. rewrite Hb, (proj2 (Z.eqb_eq _ _) (eq_sym Hreset)) in Hbound. cbn in Hbound.
    rewrite (li_exact _ Hinv) in Hbound |- *.
    destruct (decide (kid0 = kid /\ reset0 = reset)) as [[-> ->]|Hne].
    + rewrite !bool_decide_true, Hreset, Z.eqb_refl by done. rewrite Hreset in Hclose, Hbound.
      pose proof (le_reserved _ _ Hle). clear Hclose0.
      destruct (window_at (kv_map s) kid _), w'; cbn in Hclose, Hbound |- *; try done; lia.
    + rewrite (bool_decide_false (kid0 = kid /\ _)) by done.
      assert ((if bool_decide (kid0 = kid)
               then 0 - (if rq_window_reset_at_ms r =? reset0 then rq_reserved_microcredits r else 0) else 0) = 0)
        as -> by (case_bool_decide; [|done]; destruct (Z.eqb_spec (rq_window_reset_at_ms r) reset0); naive_solver).
      destruct w'; lia.
Qed.

(** A new row takes its reservation from its window. *)
Lemma open_commit :
  row_at (kv_map s) kid id = None -> reset = rq_window_reset_at_ms r' -> billable r' = true ->
  0 <= rq_reserved_microcredits r' ->
  match w' with
  | Some w => wn_reserved_microcredits w
              = window_reserved (window_at (kv_map s) kid reset) + rq_reserved_microcredits r'
  | None => rq_reserved_microcredits r' = 0
  end -> ledger_evolves s s'.
Proof using Hms Hcommit Hrest Hw.
  intros Hr Hreset Hb Hnonneg Hopen. constructor; [by eapply commit_advances| |].
  - intros kid0 id0 r0 Hr0. rewrite row_after. case_bool_decide as E; [|by exists r0].
    destruct E as [-> ->]. congruence.
  - intros Hinv. constructor; [|by apply nonneg_after]. intros kid0 reset0.
    rewrite held_after, window_after, Hr, (li_exact _ Hinv). cbn. unfold hold. rewrite Hb. cbn.
    rewrite <- Hreset.
    destruct (decide (kid0 = kid /\ reset0 = reset)) as [[-> ->]|Hne].
    + rewrite !bool_decide_true, Z.eqb_refl by done. destruct w'; cbn; lia.
    + rewrite (bool_decide_false (kid0 = kid /\ _)) by done.
      assert ((if bool_decide (kid0 = kid)
               then (if reset =? reset0 then rq_reserved_microcredits r' else 0) - 0 else 0) = 0)
        as -> by (case_bool_decide; [|done]; destruct (Z.eqb_spec reset reset0); naive_solver).
      destruct w'; lia.
Qed.
End request.

(** Only a window is rewritten, and keeps its reserved amount. *)
Lemma window_commit kid reset w e :
  ms = [MSet (paidFallbackWindowV3Key kid reset) (VWindow w) e] ->
  wn_reserved_microcredits w = window_reserved (window_at (kv_map s) kid reset) -> ledger_evolves s s'.
Proof.
  intros Hms Hw. assert (Forall (fun mu => off_request (mutation_key mu)) ms) as Hoff
    by (rewrite Hms; apply Forall_singleton, window_off_request).
  constructor; [by eapply commit_advances| |].
  - intros kid0 id r Hr. exists r. split; [|done]. by rewrite commit_map, row_mutations.
  - intros Hinv. constructor.
    + intros kid0 reset0. rewrite commit_map, held_mutations by done. rewrite (li_exact _ Hinv), Hms.
      change ([MSet (paidFallbackWindowV3Key kid reset) (VWindow w) e])
        with ([] ++ [MSet (paidFallbackWindowV3Key kid reset) (VWindow w) e])%list.
      rewrite window_set_last by constructor. case_bool_decide as E; [|done].
      destruct E as [-> ->]. by cbn.
    + rewrite commit_map. apply nonneg_mutations; [|by apply li_nonneg]. rewrite Hms. by apply Forall_singleton.
Qed.
End commits.
