(* ===== verification/PaidGuarantee.v ===== *)
(** * What the ledger's adapters guarantee

    Whatever the other clients do within [ledger_evolves], every adapter call
    of PaidLedger.v stays within it too: its reads may be stale when it
    commits, but the rows its commit relies on are checked. *)

From stdpp Require Import base gmap strings list.
From Stdlib Require Import ZArith Lia.
From S2P Require Import Prelude Js KvStore KvLogic NativePaid PaidLedger PaidSafety.
Open Scope string_scope.
Open Scope Z_scope.

(** ** What the plans do to a row *)

Lemma row_le_open r r' :
  billable r = true -> rq_window_reset_at_ms r' = rq_window_reset_at_ms r ->
  rq_reserved_microcredits r' = rq_reserved_microcredits r -> rq_created_at_ms r' = rq_created_at_ms r ->
  (forall id, rq_provider_request_id r = Some id -> rq_provider_request_id r' = Some id) -> row_le r r'.
Proof. intros. constructor; auto. congruence. Qed.

Lemma lifecycle_row current patch now plan :
  planPaidFallbackLifecycleV3 current patch now = Some plan ->
  row_le current (lp_request plan) /\ billable (lp_request plan) = billable current
  /\ rq_reserved_microcredits (lp_request plan) = rq_reserved_microcredits current.
Proof.
  unfold planPaidFallbackLifecycleV3.
  assert (forall id, rq_provider_request_id current = Some id ->
    rs_providerRequestId (resolveRequestLifecyclePatchV3 current patch now) = Some id) as Hid
    by (intros id Hid; cbn; by rewrite Hid).
  revert Hid. generalize (resolveRequestLifecyclePatchV3 current patch now). intros resolved Hid.
  destruct (requestLifecycleChangedV3 _ _); [|done]. intros [= <-]. cbn [lp_request].
  unfold buildRequestLifecycleRowV3. destruct (rs_provider resolved); (split; [constructor|]); done.
Qed.

Lemma release_row snapshot allow now plan :
  planPaidFallbackReleaseV3 snapshot allow now = Some plan ->
  exists r, row_value (rl_request snapshot) = Some r /\ rq_billing_state r = BPending
    /\ rq_provider_request_id r = None
    /\ (rq_dispatch_state r = DReserved \/ allow = true /\ rq_dispatch_state r = DDispatched)
    /\ row_le r (rp_request plan)
    /\ rq_reserved_microcredits (rp_request plan) = rq_reserved_microcredits r
    /\ rq_billing_state (rp_request plan) = BNotBilled
    /\ rp_window plan = (fun w => releasedWindow w r now) <$> row_value (rl_window snapshot).
Proof.
  unfold planPaidFallbackReleaseV3. destruct (row_value (rl_request snapshot)) as [r|]; [|done]. cbn.
  destruct (_ || _) eqn:E; [done|]. intros [= <-]. cbn. inv_ok.
  exists r. split_and!; try done.
  - match goal with H : ~ is_Some _ |- _ => by apply eq_None_not_Some in H end.
  - match goal with H : (_ && _)%bool = false |- _ => apply andb_false_iff in H as [?|?] end; inv_ok; [by left|].
    right. by destruct allow.
  - apply row_le_open; try done. unfold billable.
    by match goal with H : rq_billing_state r = _ |- _ => rewrite H end.
Qed.

Lemma deferral_row request pending now r' p' delay ttl :
  planPaidFallbackDeferralV3 request pending now = DeferWrite r' p' delay ttl ->
  exists r, request = Some r /\ row_le r r' /\ billable r = true /\ billable r' = true
    /\ rq_reserved_microcredits r' = rq_reserved_microcredits r.
Proof.
  unfold planPaidFallbackDeferralV3. destruct pending, request as [r|]; try done.
  destruct (billable r) eqn:Hb; [|done]. cbn. intros [= <- _ _ _]. exists r. split_and!; try done.
  - by apply row_le_open.
  - unfold billable in *. cbn. destruct (UNRESOLVED_AFTER_MS <=? _); [done|exact Hb].
Qed.

Lemma paid_settlement_row snapshot log spend fold now plan :
  planPaidFallbackSettlementRowsV3 snapshot log spend fold now = Ok plan ->
  exists r, row_value (ss_request snapshot) = Some r
    /\ (billable r = true -> row_le r (rp_request plan))
    /\ rq_reserved_microcredits (rp_request plan) = rq_reserved_microcredits r
    /\ rq_billing_state (rp_request plan) = BSettled
    /\ rq_spend_microcredits (rp_request plan) = Some spend
    /\ rp_window plan = (fun w => w
          <| wn_settled_microcredits := wn_settled_microcredits w + spend |>
          <| wn_reserved_microcredits := Z.max 0 (wn_reserved_microcredits w - rq_reserved_microcredits r) |>
          <| wn_pending_count := Z.max 0 (wn_pending_count w - 1) |>
          <| wn_updated_at_ms := now |>) <$> row_value (ss_window snapshot).
Proof.
  unfold planPaidFallbackSettlementRowsV3. destruct (row_value (ss_request snapshot)) as [r|]; [|done].
  intros [= <-]. exists r. cbn.
  unfold buildSettledRequestRowV3. split_and!; try done; try (by destruct fold).
  intros Hb. destruct fold; by apply row_le_open.
Qed.

Lemma admission_write input snapshot policy now plan :
  planPaidFallbackAdmissionV3 input snapshot policy now = PlanWrite plan ->
  exists reservation, row_value (as_request snapshot) = None /\ row_value (as_deletionGuard snapshot) = None
    /\ aw_request plan = buildPaidFallbackRequestV3 input reservation now
    /\ if unlimited policy then reservation = 0 /\ aw_window plan = None
       else exists w, aw_window plan = Some w
         /\ wn_reserved_microcredits w = window_reserved (row_value (as_window snapshot)) + reservation
         /\ wn_limit_microcredits w = limitMicrocredits input
         /\ wn_settled_microcredits w
            = from_option wn_settled_microcredits (initialSettledMicrocredits input) (row_value (as_window snapshot))
         /\ reservation = Z.min (wn_limit_microcredits w - wn_settled_microcredits w
                                 - window_reserved (row_value (as_window snapshot)))
                                (default 0 (maximumExposure policy))
         /\ 0 < wn_limit_microcredits w - wn_settled_microcredits w
                - window_reserved (row_value (as_window snapshot)).
Proof.
  unfold planPaidFallbackAdmissionV3.
  destruct (row_value (as_deletionGuard snapshot)); [done|].
  destruct (row_value (as_request snapshot)); [by case_match|].
  destruct (unlimited policy) eqn:Hu; cbn [negb andb].
  - intros [= <-]. cbn. exists 0. rewrite Hu. done.
  - set (w0 := default _ _). set (changed := negb _ || negb _). set (w1 := if changed then _ else _).
    assert (wn_limit_microcredits w1 = limitMicrocredits input) as Hl.
    { unfold w1. destruct changed eqn:E; [done|]. apply orb_false_iff in E as [_ E].
      apply negb_false_iff in E. lia. }
    assert (wn_settled_microcredits w1
      = from_option wn_settled_microcredits (initialSettledMicrocredits input) (row_value (as_window snapshot))) as Hs
      by (unfold w1, w0; destruct changed, (row_value (as_window snapshot)); done).
    assert (wn_reserved_microcredits w1 = window_reserved (row_value (as_window snapshot))) as Hr
      by (unfold w1, w0; destruct changed, (row_value (as_window snapshot)); done).
    destruct (Z.leb_spec (wn_limit_microcredits w1 - wn_settled_microcredits w1 - wn_reserved_microcredits w1) 0)
      as [|Hpos]; [by destruct changed|]. intros [= <-]. cbn. rewrite Hu.
    eexists. split; [done|]. split; [done|]. split; [done|]. eexists. split; [done|]. cbn.
    rewrite Hr in *. split_and!; try done; lia.
Qed.

(** ** Adapter calls *)

Ltac evolves_chain := first [reflexivity | assumption | etrans; [eassumption|]; evolves_chain].

Section guarantee.
Context {S : Type} `{Kv : !PaidStore S}.
Context (others : Clients S) (clock : nat -> Z) (available : bool) (record_bytes : PaidValue -> Z).
(** The other clients are adapters too. *)
Context `{Hothers : !RelyOn ledger_evolves others}.
Local Notation at_ s k := (entry_at (kv_map s) k).
Local Notation guarantees := (guarantees ledger_evolves).

Lemma checked_row cs ms s0 s s' k :
  ledger_evolves s0 s -> kv_commit cs ms s = (true, s') -> at_ s0 k ∈ cs -> at_ s k = at_ s0 k.
Proof. intros H. apply checked_unchanged. by apply lev_advances. Qed.

Lemma guarantees_neutral_commit cs ms : Forall benign ms -> guarantees (commit others cs ms).
Proof.
  intros Hms s. apply triple_commit; [|done]. intros s1 s2 H1 Hc. etrans; [done|]. by eapply neutral_commit.
Qed.

Lemma benign_set k v e : neutral k -> (forall r, v <> VRequest r) -> benign (MSet k v e).
Proof. intros Hk Hv. split; [done|]. destruct v; try done. by destruct (Hv r). Qed.
Lemma benign_delete k : neutral k -> benign (MDelete k).
Proof. by split. Qed.
Hint Resolve benign_set benign_delete guarantees_neutral_commit Forall_nil_2 Forall_cons_2 : gateway.
Hint Extern 1 (forall r, _ <> VRequest r) => discriminate : gateway.

(** Reading the gate only when it is needed. *)
Lemma guarantees_gate b : guarantees (loadLifecycleGateEntryV3 others b).
Proof. unfold loadLifecycleGateEntryV3. destruct b; [|auto with gateway]. apply guarantees_bind; auto with gateway. Qed.

Lemma guarantees_update tries kid id patch :
  guarantees (update_loop others clock tries (paidFallbackRequestV3Key kid id) patch).
Proof.
  induction tries as [|tries IH]; cbn [update_loop]; [auto with gateway|]. intros s.
  apply triple_bind, triple_get. intros s1 H1.
  destruct (as_request_row _) as [current|] eqn:Hr; [|by apply triple_ret].
  apply triple_bind, triple_now. intros nowMs.
  destruct (planPaidFallbackLifecycleV3 current patch nowMs) as [plan|] eqn:Hp; [|by apply triple_ret].
  apply lifecycle_row in Hp as (Hle & Hb & Hres).
  apply triple_bind. eapply triple_mono; [apply guarantees_gate|]. intros [m|ge] s2 H2; [evolves_chain|].
  apply triple_bind, triple_commit; [intros s3 s4 H3 Hc|intros s3 H3].
  - apply triple_ret. assert (ledger_evolves s1 s3) as H13 by evolves_chain.
    enough (ledger_evolves s3 s4) by evolves_chain.
    assert (row_at (kv_map s3) kid id = Some current) as Hrow.
    { unfold row_at. rewrite (checked_row _ _ _ _ _ _ H13 Hc); [done|]. by left. }
    eapply (row_commit _ _ _ _ Hc kid id (lp_request plan) _ _ [] 0 None);
      [cbn; by rewrite app_nil_r| |done..].
    destruct ge as [g|]; cbn; [|done]. case_match; auto with gateway.
  - eapply triple_mono; [apply IH|]. intros. evolves_chain.
Qed.

(** *** Release *)

(** The reservation describes a row of the ledger. *)
Definition admitted (m : PaidMap) (reservation : PaidFallbackAdmissionV3) : Prop :=
  exists r, row_at m (ad_key_id reservation) (ad_request_id reservation) = Some r
    /\ rq_window_reset_at_ms r = ad_window_reset_at_ms reservation.

Lemma admitted_evolves s s' reservation :
  ledger_evolves s s' -> admitted (kv_map s) reservation -> admitted (kv_map s') reservation.
Proof.
  intros H (r & Hr & Hw). destruct (lev_rows _ _ H _ _ _ Hr) as (r' & Hr' & Hle). exists r'. split; [done|].
  by rewrite (le_window _ _ Hle).
Qed.

(** A row whose window was read as absent, and which is unchanged since,
    claims nothing. *)
Lemma no_window_no_claim s1 s2 s3 kid id r reset :
  ledger_evolves s1 s2 -> ledger_evolves s2 s3 -> ledger_inv (kv_map s2) ->
  row_at (kv_map s1) kid id = Some r -> row_at (kv_map s3) kid id = Some r -> billable r = true ->
  rq_window_reset_at_ms r = reset -> window_at (kv_map s2) kid reset = None -> rq_reserved_microcredits r = 0.
Proof.
  intros H12 H23 Hinv Hr1 Hr3 Hb Hreset Hw. destruct (lev_rows _ _ H12 _ _ _ Hr1) as (r2 & Hr2 & Hle).
  destruct (lev_rows _ _ H23 _ _ _ Hr2) as (r3 & Hr3' & Hle3). rewrite Hr3 in Hr3'. injection Hr3' as <-.
  assert (billable r2 = true) as Hb2.
  { destruct (billable r2) eqn:E; [done|]. destruct (le_final _ _ Hle3 E) as [E2 _].
    unfold billable in *. by rewrite E2, E in Hb. }
  pose proof (hold_le_held _ _ _ _ reset Hinv Hr2) as H. pose proof (row_nonneg _ _ _ _ Hinv Hr2).
  rewrite (li_exact _ Hinv), Hw in H. unfold hold in H. rewrite <- (le_reserved _ _ Hle).
  rewrite Hb2, (proj2 (Z.eqb_eq _ _) (eq_trans (le_window _ _ Hle) Hreset)) in H. cbn in H. lia.
Qed.

Lemma triple_release tries reservation allow s :
  admitted (kv_map s) reservation ->
  triple (release_loop others clock tries reservation allow) s (fun _ s' => ledger_evolves s s').
Proof.
  revert s. induction tries as [|tries IH]; intros s Hadm; cbn [release_loop]; [by apply triple_throw|].
  apply triple_bind, triple_get. intros s1 H1. apply triple_bind, triple_get. intros s2 H2.
  apply triple_bind, triple_get. intros s3 H3. apply triple_bind, triple_now. intros nowMs.
  match goal with |- context [planPaidFallbackReleaseV3 ?sn ?a ?t] =>
    destruct (planPaidFallbackReleaseV3 sn a t) as [plan|] eqn:Hp end; [|apply triple_ret; evolves_chain].
  apply release_row in Hp as (r & Hr & Hpend & Hpid & _ & Hle & Hres & Hnb & Hwin). cbn [rl_request rl_window row_value paid_row] in Hr, Hwin.
  assert (billable r = true) as Hb by (unfold billable; by rewrite Hpend).
  assert (rq_window_reset_at_ms r = ad_window_reset_at_ms reservation) as Hreset.
  { destruct (admitted_evolves s s1 _ H1 Hadm) as (r1 & Hr1 & Hw1). unfold row_at in Hr1. congruence. }
  apply triple_bind, triple_commit; [intros s4 s5 H4 Hc|intros s4 H4].
  - apply triple_ret. assert (ledger_evolves s1 s4) as H14 by evolves_chain.
    assert (ledger_evolves s2 s4) as H24 by evolves_chain.
    assert (row_at (kv_map s4) (ad_key_id reservation) (ad_request_id reservation) = Some r) as Hrow.
    { unfold row_at. rewrite (checked_row _ _ _ _ _ _ H14 Hc); [done|]. by left. }
    eapply (close_commit _ _ _ _ Hc (ad_key_id reservation) (ad_request_id reservation) (rp_request plan) _
      [_; _] _ (ad_window_reset_at_ms reservation) (rp_window plan));
      [cbn; reflexivity| | |evolves_chain|exact Hrow|done|done| |done|].
    + auto with gateway.
    + destruct (rp_window plan); cbn; eauto.
    + unfold billable. by rewrite Hnb.
    + intros Hinv. destruct (as_window_row (entry_value (at_ s2 _))) as [w|] eqn:Ew in Hwin.
      * rewrite Hwin in Hc |- *. unfold window_at.
        rewrite (checked_row _ _ _ _ _ _ H24 Hc), Ew; [done|]. cbn. do 2 right. by left.
      * rewrite Hwin. enough (rq_reserved_microcredits r = 0) by (destruct (window_at _ _ _); cbn; done).
        eapply (no_window_no_claim s1 s2 s4); eauto. by apply (lev_inv s); [evolves_chain|].
  - eapply triple_mono; [apply IH; eapply admitted_evolves; [|done]; evolves_chain|].
    intros. evolves_chain.
Qed.


(** *** Reconciliation *)

Lemma guarantees_clear_marker kid id pe ge nowMs :
  guarantees (clear_marker others (paidFallbackPendingV3Key kid id) pe ge nowMs).
Proof. unfold clear_marker. auto with gateway. Qed.

Lemma guarantees_defer tries kid id nowMs : guarantees (defer_loop others tries kid id nowMs).
Proof.
  induction tries as [|tries IH]; cbn [defer_loop]; [auto with gateway|]. intros s.
  apply triple_bind, triple_get. intros s1 H1. apply triple_bind, triple_get. intros s2 H2.
  destruct (planPaidFallbackDeferralV3 _ _ _) as [| |r' p' delay ttl] eqn:Hp; [apply triple_ret; evolves_chain|..].
  - apply triple_bind, triple_get. intros s3 H3. apply triple_bind.
    eapply triple_mono; [apply guarantees_clear_marker|]. intros [m|ok] s4 H4; [evolves_chain|].
    destruct ok; [apply triple_ret; evolves_chain|]. eapply triple_mono; [apply IH|]. intros. evolves_chain.
  - apply deferral_row in Hp as (r & Hr & Hle & Hb & Hb' & Hres).
    apply triple_bind, triple_commit; [intros s3 s4 H3 Hc|intros s3 H3].
    + apply triple_ret. assert (ledger_evolves s1 s3) as H13 by evolves_chain.
      enough (ledger_evolves s3 s4) by evolves_chain.
      assert (row_at (kv_map s3) kid id = Some r) as Hrow.
      { unfold row_at. rewrite (checked_row _ _ _ _ _ _ H13 Hc); [done|]. by left. }
      eapply (row_commit _ _ _ _ Hc kid id r' _ [_] [] 0 None); [reflexivity|auto with gateway|done..|congruence].
    + eapply triple_mono; [apply IH|]. intros. evolves_chain.
Qed.

Lemma guarantees_lease tries token kid nowMs : guarantees (acquire_lease_loop others tries token kid nowMs).
Proof.
  induction tries as [|tries IH]; cbn [acquire_lease_loop]; [auto with gateway|].
  apply guarantees_bind; [auto with gateway|]. intros e. case_match; [auto with gateway|].
  apply guarantees_bind; [auto with gateway|]. intros []; auto with gateway.
Qed.

Lemma guarantees_release_lease kid lease : guarantees (releaseReconciliationLease others kid lease).
Proof.
  unfold releaseReconciliationLease. apply guarantees_bind; [auto with gateway|]. intros e.
  case_match; [auto with gateway|]. apply guarantees_bind; auto with gateway.
Qed.

Lemma guarantees_expedite tries kid id nowMs :
  guarantees (expedite_loop others tries (paidFallbackPendingV3Key kid id) nowMs).
Proof.
  induction tries as [|tries IH]; cbn [expedite_loop]; [auto with gateway|].
  apply guarantees_bind; [auto with gateway|]. intros pe. apply guarantees_bind; [auto with gateway|]. intros ge.
  destruct (as_pending_row _) as [p|]; [|auto with gateway]. case_match; [auto with gateway|].
  apply guarantees_bind; [|intros []; auto with gateway]. apply guarantees_neutral_commit.
  case_match; cbn; auto with gateway.
Qed.

Lemma guarantees_recompute tries : guarantees (recompute_loop others tries).
Proof.
  induction tries as [|tries IH]; cbn [recompute_loop]; [auto with gateway|].
  apply guarantees_bind; [auto with gateway|]. intros ge.
  apply guarantees_bind; [unfold scanPaidFallbackPendingMarkers; apply guarantees_bind; auto with gateway|].
  intros scan. apply guarantees_bind; [auto with gateway|]. intros []; auto with gateway.
Qed.

(** *** Rollups, growth counters and the backfill *)

Lemma guarantees_stats tries day nowMs merge : guarantees (stats_loop others tries day nowMs merge).
Proof.
  induction tries as [|tries IH]; cbn [stats_loop]; [auto with gateway|].
  apply guarantees_bind; [auto with gateway|]. intros e.
  apply guarantees_bind; [auto with gateway|]. intros []; auto with gateway.
Qed.

Lemma guarantees_growth row rollup nowMs :
  guarantees (recordSettlementGrowthV3 others record_bytes row rollup nowMs).
Proof.
  unfold recordSettlementGrowthV3, recordPaidFallbackLedgerSettlementStats.
  apply guarantees_bind; [|auto with gateway]. case_match; [auto with gateway|].
  apply guarantees_catch; [|auto with gateway].
  apply guarantees_bind; [apply guarantees_stats|auto with gateway].
Qed.

Lemma guarantees_rollup tries b m p sh input :
  guarantees (rollup_loop others tries (paidFallbackUsageRollupKey b m p sh) input).
Proof.
  induction tries as [|tries IH]; cbn [rollup_loop]; [auto with gateway|].
  apply guarantees_bind; [auto with gateway|]. intros e.
  apply guarantees_bind; [auto with gateway|]. intros []; auto with gateway.
Qed.

(** *** Settlement *)

Lemma evaluate_settle request pending log meta spend :
  evaluatePaidFallbackSettlementV3 request pending log meta = EvalSettle spend ->
  exists r, request = Some r /\ billable r = true /\ is_Some pending
    /\ correlationMatchesV3 r log (correlation meta) = true /\ 0 <= spend <= MAX_SAFE_INTEGER.
Proof using.
  unfold evaluatePaidFallbackSettlementV3. destruct request as [r|]; [|done].
  destruct (billable r) eqn:Hb; [|done]. cbn. destruct (_ || _) eqn:E; [done|].
  destruct (nonNegativeSafeInteger _) as [z|] eqn:Ez; [|done]. intros [= <-]. inv_ok. exists r.
  apply safe_at_least_range in Ez as [Hz ?]. apply isSafeInteger_spec in Hz.
  split_and!; try done; [|lia]. by destruct pending.
Qed.

(** The commit of a settlement whose rows were read at [s1] and its window at
    [s2]. *)
Lemma settlement_commit s0 s1 s2 s3 s4 kid id r pe ge ru log spend fold nowMs plan rollup_key rollup_ms cs :
  ledger_evolves s0 s1 -> ledger_evolves s1 s2 -> ledger_evolves s2 s3 ->
  row_at (kv_map s1) kid id = Some r -> billable r = true ->
  planPaidFallbackSettlementRowsV3 (mkSettlementSnapshot
    (paid_row as_request_row (at_ s1 (paidFallbackRequestV3Key kid id))) pe ge
    (paid_row as_window_row (at_ s2 (paidFallbackWindowV3Key kid (rq_window_reset_at_ms r)))) ru)
    log spend fold nowMs = Ok plan ->
  rollup_ms = [] \/ (exists v, rollup_ms = [MSet rollup_key (VRollup v) None] /\ neutral rollup_key) ->
  at_ s1 (paidFallbackRequestV3Key kid id) ∈ cs ->
  (is_Some (rp_window plan) -> at_ s2 (paidFallbackWindowV3Key kid (rq_window_reset_at_ms r)) ∈ cs) ->
  kv_commit cs
    ([MSet (paidFallbackRequestV3Key kid id) (VRequest (rp_request plan)) (Some (rp_requestExpireIn plan));
      MDelete (paidFallbackPendingV3Key kid id)]
       ++ rollup_ms ++ [MSet gate_key (VGate (rp_gate plan)) None]
       ++ match rp_window plan with
          | Some w => [MSet (paidFallbackWindowV3Key kid (rq_window_reset_at_ms r)) (VWindow w)
                         (Some (windowExpireIn w nowMs))]
          | None => []
          end) s3 = (true, s4) ->
  ledger_evolves s0 s4.
Proof using.
  intros H01 H12 H23 Hr Hb Hplan Hru Hin Hwin Hc.
  assert (ledger_evolves s1 s3) as H13 by (by etrans).
  assert (row_at (kv_map s3) kid id = Some r) as Hrow
    by (unfold row_at; by rewrite (checked_row _ _ _ _ _ _ H13 Hc)).
  apply paid_settlement_row in Hplan as (r1 & Hr1 & Hle & Hres & Hst & _ & Hw).
  cbn [ss_request ss_window row_value paid_row] in Hr1, Hw. unfold row_at in Hr. rewrite Hr in Hr1.
  injection Hr1 as <-.
  eapply (close_commit _ _ _ _ Hc kid id (rp_request plan) _
    ([MDelete _] ++ rollup_ms ++ [MSet gate_key _ None]) _ (rq_window_reset_at_ms r) (rp_window plan));
    [| | |evolves_chain|exact Hrow|auto|done| |done|].
  - cbn. rewrite <- app_assoc. reflexivity.
  - apply Forall_app; split; [auto with gateway|]. apply Forall_app; split; [|auto with gateway].
    destruct Hru as [->|(v & -> & Hk)]; auto with gateway.
  - destruct (rp_window plan); cbn; eauto.
  - unfold billable. by rewrite Hst.
  - intros Hinv. destruct (as_window_row (entry_value (at_ s2 _))) as [w|] eqn:Ew in Hw.
    + rewrite Hw in Hwin |- *. unfold window_at. rewrite (checked_row _ _ _ _ _ _ H23 Hc), Ew; [done|].
      by apply Hwin.
    + rewrite Hw. enough (rq_reserved_microcredits r = 0) by (destruct (window_at _ _ _); cbn; done).
      eapply (no_window_no_claim s1 s2 s3); eauto. apply (lev_inv s0); [evolves_chain|done].
Qed.

Lemma guarantees_settle_request tries kid id log nowMs c cost :
  guarantees (settle_loop others record_bytes tries kid id log nowMs c cost).
Proof.
  induction tries as [|tries IH]; cbn [settle_loop]; [auto with gateway|]. intros s.
  apply triple_bind, triple_get. intros s1 H1. apply triple_bind, triple_get. intros s2 H2.
  apply triple_bind, triple_get. intros s3 H3.
  destruct (evaluatePaidFallbackSettlementV3 _ _ _ _) as [| | |spend] eqn:Ev.
  - apply triple_bind. eapply (triple_mono _ _ (fun _ s' => ledger_evolves s3 s')).
    { unfold clearStalePendingMarkerV3. destruct (as_pending_row _); [apply guarantees_clear_marker|].
      by apply triple_ret. }
    intros [m|ok] s4 H4; [evolves_chain|]. destruct ok; [apply triple_ret; evolves_chain|].
    eapply triple_mono; [apply IH|]. intros. evolves_chain.
  - apply triple_ret. evolves_chain.
  - destruct (as_request_row _); [|apply triple_ret; evolves_chain]. apply triple_bind.
    eapply triple_mono; [apply guarantees_defer|].
    intros [m|d] s4 H4; [|apply triple_ret]; evolves_chain.
  - apply evaluate_settle in Ev as (r & Hr & Hb & _). rewrite Hr.
    apply triple_bind, triple_get. intros s4 H4. apply triple_bind. unfold prepareSettlementRollupV3.
    apply triple_bind, triple_get. intros s5 H5. apply triple_ret.
    match goal with |- context [mkSettlementRollup ?a ?b ?c ?d] => set (rollup := mkSettlementRollup a b c d) end.
    assert (neutral (sr_rollupKey rollup)) as Hkey by (cbn; auto with gateway). clearbody rollup.
    apply triple_bind, triple_lift.
    destruct (planPaidFallbackSettlementRowsV3 _ _ _ _ _) as [m|plan] eqn:Hp; [evolves_chain|].
    apply triple_bind. unfold commitPaidFallbackSettlementV3.
    apply triple_commit; [intros s6 s7 H6 Hc|intros s6 H6].
    + assert (ledger_evolves s s7) as H7.
      { destruct (sr_foldIntoRollup rollup), (rp_window plan) as [w|] eqn:Ew; cbn [fst snd] in Hc.
        all: eapply (settlement_commit s s1 s4 s6 s7 kid id r _ _ _ _ _ _ _ plan (sr_rollupKey rollup));
          [done|evolves_chain|evolves_chain|exact Hr|done|exact Hp| | | |rewrite Ew; exact Hc].
        all: eauto; try (by left); rewrite Ew; intros []; try done; set_solver. }
      apply triple_bind. eapply triple_mono; [apply guarantees_growth|].
      intros [m|u] s8 H8; [|apply triple_ret]; evolves_chain.
    + eapply triple_mono; [apply IH|]. intros. evolves_chain.
Qed.

(** *** Admission *)

(** A decided write: its rows were read on the way from [s0] to [s1], and
    none of them has been admitted yet. *)
Record decided (input : AdmissionInput) (is_unlimited : bool) (exposure : option Z) (s0 s1 : S)
    (cx : AdmissionWriteContext) : Prop := {
  dc_reads : exists sr sw, ledger_evolves s0 sr /\ ledger_evolves sr sw /\ ledger_evolves sw s1
    /\ cx_requestEntry cx = at_ sr (paidFallbackRequestV3Key (in_keyId (ai_input input)) (in_requestId (ai_input input)))
    /\ (is_unlimited = false -> cx_windowEntry cx
         = at_ sw (paidFallbackWindowV3Key (in_keyId (ai_input input)) (windowResetAtMs (ai_input input))));
  dc_plan : exists snapshot, as_request snapshot = paid_row as_request_row (cx_requestEntry cx)
    /\ as_window snapshot = paid_row as_window_row (cx_windowEntry cx)
    /\ planPaidFallbackAdmissionV3 (ai_input input) snapshot (mkAdmissionPolicy is_unlimited exposure) (cx_now cx)
       = PlanWrite (cx_plan cx) }.

(** A commit from [m] to [m'] writes the request, which was not on the ledger,
    with the reservation; without a limit the reservation is 0, under a limit
    the window keeps what it has settled and is within the limit. *)
Definition budgeted (input : NativePaidAdmissionInput) (res : PaidFallbackAdmissionV3) (m m' : PaidMap) : Prop :=
  row_at m (in_keyId input) (in_requestId input) = None
  /\ (exists r, row_at m' (in_keyId input) (in_requestId input) = Some r /\ billable r = true
     /\ rq_reserved_microcredits r = ad_reserved_microcredits res
     /\ rq_window_reset_at_ms r = ad_window_reset_at_ms res)
  /\ (limitMicrocredits input = PAID_FALLBACK_NO_LIMIT -> ad_reserved_microcredits res = 0)
  /\ (limitMicrocredits input <> PAID_FALLBACK_NO_LIMIT ->
      0 < ad_reserved_microcredits res
      /\ exists w, window_at m' (in_keyId input) (windowResetAtMs input) = Some w
        /\ wn_limit_microcredits w = limitMicrocredits input
        /\ wn_settled_microcredits w = from_option wn_settled_microcredits (initialSettledMicrocredits input)
             (window_at m (in_keyId input) (windowResetAtMs input))
        /\ wn_settled_microcredits w + wn_reserved_microcredits w <= limitMicrocredits input).

Definition unlimited_input (input : AdmissionInput) : bool :=
  limitMicrocredits (ai_input input) =? PAID_FALLBACK_NO_LIMIT.

(** The admission's commit, on the store [s2]. *)
Lemma admission_commit input exposure s0 s1 s2 s3 cx gate_cs gate_ms :
  decided input (unlimited_input input) exposure s0 s1 cx ->
  (unlimited_input input = false -> exists e, exposure = Some e /\ 0 < e) ->
  ledger_evolves s1 s2 -> Forall benign gate_ms ->
  kv_commit
    ([cx_requestEntry cx; cx_deletionGuardEntry cx] ++ policy_checks input ++ gate_cs
       ++ fst (match aw_window (cx_plan cx) with
               | Some w => ([cx_windowEntry cx],
                   [MSet (paidFallbackWindowV3Key (in_keyId (ai_input input)) (windowResetAtMs (ai_input input)))
                      (VWindow w) (Some (windowExpireIn w (cx_now cx)))])
               | None => ([], [])
               end))
    ([MSet (paidFallbackRequestV3Key (in_keyId (ai_input input)) (in_requestId (ai_input input)))
        (VRequest (aw_request (cx_plan cx))) (Some (aw_requestExpireIn (cx_plan cx)));
      MSet (paidFallbackPendingV3Key (in_keyId (ai_input input)) (in_requestId (ai_input input)))
        (VPending (aw_pending (cx_plan cx))) None]
       ++ gate_ms
       ++ snd (match aw_window (cx_plan cx) with
               | Some w => ([cx_windowEntry cx],
                   [MSet (paidFallbackWindowV3Key (in_keyId (ai_input input)) (windowResetAtMs (ai_input input)))
                      (VWindow w) (Some (windowExpireIn w (cx_now cx)))])
               | None => ([], [])
               end)) s2 = (true, s3) ->
  ledger_evolves s0 s3 /\ budgeted (ai_input input) (aw_reservation (cx_plan cx)) (kv_map s2) (kv_map s3).
Proof.
  intros [(sr & sw & H0r & Hrw & Hw1 & Hre & Hwe) (sn & Esn1 & Esn2 & Hplan)] Hexp H12 Hgate Hc.
  assert (ledger_evolves sr s2) as Hr2 by evolves_chain. assert (ledger_evolves sw s2) as Hw2 by evolves_chain.
  assert (ad_reserved_microcredits (aw_reservation (cx_plan cx))
          = rq_reserved_microcredits (aw_request (cx_plan cx))
          /\ ad_window_reset_at_ms (aw_reservation (cx_plan cx)) = windowResetAtMs (ai_input input)) as [Had1 Had2].
  { unfold planPaidFallbackAdmissionV3 in Hplan. repeat case_match; try done; by injection Hplan as <-. }
  apply admission_write in Hplan as (x & Hnone & _ & Hrow & Hx). rewrite Esn1 in Hnone. rewrite Esn2 in Hx.
  cbn [row_value paid_row unlimited] in Hnone, Hx.
  set (i := ai_input input) in *. set (w' := aw_window (cx_plan cx)) in *.
  assert (row_at (kv_map s2) (in_keyId i) (in_requestId i) = None) as Habs.
  { unfold row_at. rewrite (checked_row _ _ _ _ _ _ Hr2 Hc); [by rewrite <- Hre|]. rewrite <- Hre. by left. }
  set (rest := ([MSet (paidFallbackPendingV3Key (in_keyId i) (in_requestId i)) (VPending (aw_pending (cx_plan cx))) None]
    ++ gate_ms)%list).
  assert (Forall benign rest) as Hrest by (apply Forall_app; split; auto with gateway).
  match type of Hc with kv_commit _ (_ ++ _ ++ ?l) _ = _ => set (wpart := l) in * end.
  assert (window_part (in_keyId i) (windowResetAtMs i) w' wpart) as Hpart
    by (unfold wpart, w'; destruct (aw_window (cx_plan cx)); cbn; eauto).
  match type of Hc with kv_commit _ ?l _ = _ => assert (l = MSet
    (paidFallbackRequestV3Key (in_keyId i) (in_requestId i)) (VRequest (aw_request (cx_plan cx)))
    (Some (aw_requestExpireIn (cx_plan cx))) :: rest ++ wpart) as Hms by (unfold rest; cbn; done) end.
  pose proof (row_after _ _ _ _ Hc _ _ _ _ _ _ _ _ Hms Hrest Hpart (in_keyId i) (in_requestId i)) as Hr3.
  pose proof (window_after _ _ _ _ Hc _ _ _ _ _ _ _ _ Hms Hrest Hpart (in_keyId i) (windowResetAtMs i)) as Hw3.
  rewrite bool_decide_true in Hr3 by done.
  enough ((0 <= x /\ match w' with
           | Some w => wn_reserved_microcredits w
                       = window_reserved (window_at (kv_map s2) (in_keyId i) (windowResetAtMs i)) + x
           | None => x = 0
           end) /\ (limitMicrocredits i = PAID_FALLBACK_NO_LIMIT -> x = 0)
           /\ (limitMicrocredits i <> PAID_FALLBACK_NO_LIMIT -> 0 < x /\ exists w, w' = Some w
             /\ wn_limit_microcredits w = limitMicrocredits i
             /\ wn_settled_microcredits w = from_option wn_settled_microcredits (initialSettledMicrocredits i)
                  (window_at (kv_map s2) (in_keyId i) (windowResetAtMs i))
             /\ wn_settled_microcredits w + wn_reserved_microcredits w <= limitMicrocredits i))
    as ([Hx0 Hwx] & Hnl & Hlim).
  { split; [etrans; [|eapply (open_commit _ _ _ _ Hc _ _ _ _ _ _ _ _ Hms Hrest Hpart)]; try evolves_chain;
             by rewrite ?Hrow|].
    split; [exact Habs|]. split; [eexists; split; [exact Hr3|]; rewrite Had1, Had2, Hrow; done|].
    split; [intros Hl; rewrite Had1, Hrow; cbn; by apply Hnl|].
    intros Hl. destruct (Hlim Hl) as (Hpos & w & Ew & Hwl & Hws). rewrite Had1, Hrow. split; [done|].
    exists w. rewrite Ew in Hw3. by rewrite Hw3, bool_decide_true. }
  destruct (unlimited_input input) eqn:Hu.
  - destruct Hx as [-> Hw']. rewrite Hw'. split; [done|]. split; [done|]. intros []. by apply Z.eqb_eq in Hu.
  - destruct Hx as (w & Hw' & Hwr & Hwl & Hwset & Hxmin & Hpos). destruct (Hexp eq_refl) as (ex & -> & Hex).
    assert (window_at (kv_map s2) (in_keyId i) (windowResetAtMs i) = as_window_row (entry_value (cx_windowEntry cx)))
      as Hws.
    { unfold window_at. rewrite (checked_row _ _ _ _ _ _ Hw2 Hc); [by rewrite (Hwe eq_refl)|].
      rewrite <- (Hwe eq_refl). rewrite Hw'. cbn. rewrite !elem_of_cons, !elem_of_app. set_solver. }
    rewrite Hw', Hws. cbn in Hxmin. split; [split; [lia|done]|].
    split; [intros Hl; apply Z.eqb_neq in Hu; done|]. intros _. split; [lia|].
    exists w. split_and!; try done. lia.
Qed.

(** *** The admission loop *)

Section logged.

(** What more is followed of the store between the call's own commits. *)
Context (Q : S -> S -> Prop) `{HpreQ : !PreOrder Q} `{HothersQ : !RelyOn Q others}.

Definition kept_too (s s' : S) : Prop := ledger_evolves s s' /\ Q s s'.

#[local] Instance kept_too_preorder : PreOrder kept_too.
Proof using HpreQ.
  split; [intros s; split; reflexivity|]. intros s1 s2 s3 [H1 Q1] [H2 Q2]. split; evolves_chain.
Qed.

#[local] Instance kept_too_relies : RelyOn kept_too others.
Proof using Hothers HothersQ. intros n s. split; apply relies. Qed.

(** The request was on the ledger already. *)
Definition reserved_before (i : NativePaidAdmissionInput) (res : PaidFallbackAdmissionV3) (s s' : S) : Prop :=
  Q s s' /\ exists s1 e, ledger_evolves s s1 /\ ledger_evolves s1 s'
    /\ row_at (kv_map s1) (in_keyId i) (in_requestId i) = Some e
    /\ billable e = true /\ res = existingReservationV3 i e.

(** The call's one commit, its last action, wrote it. *)
Definition reserved_now (i : NativePaidAdmissionInput) (res : PaidFallbackAdmissionV3) (s s' : S) : Prop :=
  exists sc, ledger_evolves s sc /\ Q s sc /\ kv_log s' = (kv_log sc ++ [(kv_map sc, kv_map s')])%list
    /\ budgeted i res (kv_map sc) (kv_map s').

(** The outcome of an admission that started on [s]. *)
Definition admission_outcome (input : AdmissionInput) (s : S) (r : Result string PaidAdmission) (s' : S) : Prop :=
  ledger_evolves s s' /\
  match r with
  | Ok (PaidReserved res) => reserved_before (ai_input input) res s s' \/ reserved_now (ai_input input) res s s'
  | _ => True
  end.

Lemma admission_outcome_later input s0 s r s' :
  kept_too s0 s -> admission_outcome input s r s' -> admission_outcome input s0 r s'.
Proof using HpreQ.
  intros [H HQ] [Hev Hr]. split; [evolves_chain|]. destruct r as [m|[res|]]; try done.
  destruct Hr as [(HQ1 & s1 & e & H1 & H2 & Hrest)|(sc & H1 & HQ1 & Hrest)].
  - left. split; [evolves_chain|]. exists s1, e. split; [evolves_chain|done].
  - right. exists sc. split; [evolves_chain|]. split; [evolves_chain|done].
Qed.

(** What a decision establishes. *)
Definition decision_post (input : AdmissionInput) (exposure : option Z) (s : S)
    (r : Result string (option AdmissionDecision)) (s' : S) : Prop :=
  ledger_evolves s s' /\
  match r with
  | Ok (Some (DecideReserved res)) => reserved_before (ai_input input) res s s'
  | Ok (Some (DecideWrite cx)) => decided input (unlimited_input input) exposure s s' cx /\ Q s s'
  | Ok None => Q s s'
  | _ => True
  end.

Lemma exhausted_window input sn policy now w ttl checks :
  planPaidFallbackAdmissionV3 input sn policy now = PlanExhaustedPolicy w ttl checks ->
  unlimited policy = false /\ wn_reserved_microcredits w = window_reserved (row_value (as_window sn)).
Proof using.
  unfold planPaidFallbackAdmissionV3. destruct (row_value (as_deletionGuard sn)); [done|].
  destruct (row_value (as_request sn)); [by case_match|].
  destruct (unlimited policy); cbn [negb andb]; [done|].
  case_match; [|done]. case_match; [|done]. intros [= <- _ _]. split; [done|].
  by destruct (row_value (as_window sn)).
Qed.

Lemma triple_decide input exposure s :
  triple (decidePaidFallbackAdmissionV3 others clock input (unlimited_input input) exposure) s
    (decision_post input exposure s).
Proof.
  unfold decidePaidFallbackAdmissionV3. apply triple_bind, (triple_get (rely := kept_too)). intros s1 [H1 Q1].
  apply triple_bind.
  eapply (triple_mono _ _ (fun r s2 => kept_too s1 s2 /\ exists e, r = Ok e /\
    (unlimited_input input = false -> e = at_ s2 (paidFallbackWindowV3Key (in_keyId (ai_input input))
                                                    (windowResetAtMs (ai_input input)))))).
  { destruct (unlimited_input input).
    { apply triple_ret. split; [done|]. eexists. by split. }
    apply (triple_get (rely := kept_too)). intros s2 H2. eauto. }
  intros r0 s2 ([H2 Q2] & we & -> & Hwe). apply triple_bind, (triple_get (rely := kept_too)). intros s3 [H3 Q3].
  apply triple_bind, triple_now. intros nowMs.
  destruct (planPaidFallbackAdmissionV3 _ _ _ _) as [reason|res|w ttl checks|plan] eqn:Hp.
  - apply triple_ret. split; [evolves_chain|done].
  - apply triple_ret. split; [evolves_chain|]. unfold planPaidFallbackAdmissionV3 in Hp.
    cbn [as_deletionGuard as_request row_value paid_row] in Hp.
    destruct (as_guard_row _); [done|]. destruct (as_request_row _) as [e|] eqn:He; [|by repeat case_match].
    destruct (billable e) eqn:Hb; [|done]. injection Hp as <-. split; [evolves_chain|].
    exists s1, e. split_and!; try done; evolves_chain.
  - apply exhausted_window in Hp as [Hu Hres]. cbn in Hu. specialize (Hwe Hu). subst we.
    apply triple_bind. unfold commitExhaustedPolicyTransitionV3.
    apply (triple_commit (rely := kept_too)); [intros s4 s5 [H4 Q4] Hc|intros s4 [H4 Q4]]; apply triple_ret;
      [split; [|done]|split; evolves_chain].
    assert (ledger_evolves s2 s4) as H24 by evolves_chain.
    enough (ledger_evolves s4 s5) by evolves_chain.
    eapply (window_commit _ _ _ _ Hc); [done|]. rewrite Hres. cbn [as_window row_value paid_row].
    unfold window_at. rewrite (checked_row _ _ _ _ _ _ H24 Hc); [done|]. by left.
  - apply triple_ret. split; [evolves_chain|]. split; [|evolves_chain]. constructor.
    + exists s1, s2. split_and!; try done; evolves_chain.
    + eexists. split; [|split; [|exact Hp]]; reflexivity.
Qed.

Lemma triple_write input exposure s0 s1 cx :
  decided input (unlimited_input input) exposure s0 s1 cx -> Q s0 s1 ->
  (unlimited_input input = false -> exists e, exposure = Some e /\ 0 < e) ->
  triple (writePaidFallbackAdmissionV3 others input cx) s1 (fun r s' => ledger_evolves s0 s' /\
    match r with
    | Ok (Some res) => reserved_now (ai_input input) res s0 s'
    | Ok None => Q s0 s'
    | Err _ => True
    end).
Proof.
  intros Hd Q01 Hexp. assert (ledger_evolves s0 s1) as H01.
  { destruct Hd as [(sr & sw & ? & ? & ? & _) _]. evolves_chain. }
  unfold writePaidFallbackAdmissionV3. apply triple_bind.
  eapply (triple_mono _ _ (fun r s2 => kept_too s1 s2)).
  { destruct (checkGate _); [apply triple_bind, (triple_get (rely := kept_too)); intros s2 H2; by apply triple_ret|].
    by apply triple_ret. }
  intros [m|ge] s2 [H2 Q2]; [split; [evolves_chain|done]|]. apply triple_bind. unfold commitPaidFallbackAdmissionV3.
  apply (triple_commit (rely := kept_too)); [intros s3 s4 [H3 Q3] Hc|intros s3 [H3 Q3]]; apply triple_ret;
    [|split; evolves_chain].
  assert (ledger_evolves s1 s3) as H13 by evolves_chain.
  assert (ledger_evolves s0 s4 /\ budgeted (ai_input input) (aw_reservation (cx_plan cx)) (kv_map s3) (kv_map s4))
    as [H4 Hb].
  { eapply (admission_commit input exposure s0 s1 s3 s4 cx); [done|done|done| |exact Hc].
    destruct ge; cbn; auto with gateway. }
  split; [done|]. exists s3. split; [by transitivity s1|]. split; [evolves_chain|]. split; [by eapply kv_commit_logged|done].
Qed.

Lemma triple_admit_loop tries input s :
  isInvalidAdmissionPolicy (ai_input input) (unlimited_input input) (maximumExposureMicrocredits (ai_input input)) = false ->
  triple (admit_loop others clock tries input (unlimited_input input)) s (admission_outcome input s).
Proof.
  intros Hvalid. assert (unlimited_input input = false ->
    exists e, maximumExposureMicrocredits (ai_input input) = Some e /\ 0 < e) as Hexp.
  { intros Hu. unfold isInvalidAdmissionPolicy in Hvalid. rewrite Hu in Hvalid. cbn in Hvalid. inv_ok.
    destruct (maximumExposureMicrocredits _) as [e|]; [|done]. exists e. split; [done|].
    match goal with H : isPositiveSafeInteger (jint e) = true |- _ => apply bool_decide_eq_true in H as [z Hz] end.
    pose proof (safe_at_least_jint_inv _ _ _ Hz) as ->. apply safe_at_least_range in Hz. lia. }
  revert s. induction tries as [|tries IH]; intros s; cbn [admit_loop]; [by apply triple_ret|].
  apply triple_bind. eapply triple_mono; [apply triple_decide|]. intros [m|[[res|reason|cx]|]] s1 [H1 Hd].
  - by split.
  - apply triple_ret. split; [done|]. by left.
  - by apply triple_ret.
  - destruct Hd as [Hd Q1]. apply triple_bind.
    eapply triple_mono; [by apply (triple_write _ (maximumExposureMicrocredits (ai_input input)) s)|].
    intros [m|[res|]] s2 [H2 Hb].
    + by split.
    + apply triple_ret. split; [done|]. by right.
    + eapply triple_mono; [apply IH|]. intros. eapply admission_outcome_later; [by split|done].
  - eapply triple_mono; [apply IH|]. intros. eapply admission_outcome_later; [by split|done].
Qed.

Lemma triple_admit input s :
  triple (admitPaidFallbackV3 others clock available input) s (admission_outcome input s).
Proof.
  unfold admitPaidFallbackV3. destruct available; cbn [negb]; [|by apply triple_ret].
  destruct (isInvalidAdmissionPolicy _ _ _) eqn:E; [by apply triple_ret|]. by apply triple_admit_loop.
Qed.
End logged.

(** *** The backfill of one row *)

Lemma guarantees_fold kid id r s0 s1 nowMs :
  ledger_evolves s0 s1 -> row_at (kv_map s0) kid id = Some r ->
  triple (foldRequestRowIntoRollupV3 others (paidFallbackRequestV3Key kid id)
            (at_ s0 (paidFallbackRequestV3Key kid id)) r nowMs) s1 (fun _ s' => ledger_evolves s0 s').
Proof.
  intros H01 Hr. unfold foldRequestRowIntoRollupV3. apply triple_bind.
  eapply (triple_mono _ _ (fun _ s2 => ledger_evolves s1 s2)).
  { case_match; [apply triple_bind, triple_get; intros s2 H2; by apply triple_ret|by apply triple_ret]. }
  intros [m|ge] s2 H2; [evolves_chain|].
  set (p := planPaidFallbackBackfillFoldV3 _ _ _).
  assert (row_le r (fst (fst p)) /\ billable (fst (fst p)) = billable r) as [Hle Hb] by done.
  destruct p as [[r' ttl] next]. cbn [fst snd] in Hle, Hb.
  apply triple_bind, triple_commit; [intros s3 s4 H3 Hc|intros s3 H3]; apply triple_ret; [|evolves_chain].
  assert (ledger_evolves s0 s3) as H03 by evolves_chain. etrans; [exact H03|].
  eapply (row_commit _ _ _ _ Hc kid id r' _ _ [] 0 None); [cbn; by rewrite app_nil_r| |done|done| |done|done].
  - destruct next, ge; cbn; auto with gateway.
  - unfold row_at. rewrite (checked_row _ _ _ _ _ _ H03 Hc); [done|]. by left.
Qed.

Lemma guarantees_backfill kid id progress nowMs :
  guarantees (advanceBackfillSweepV3 others (paidFallbackRequestV3Key kid id) progress nowMs).
Proof.
  intros s. unfold advanceBackfillSweepV3. apply triple_bind, triple_get. intros s1 H1.
  destruct (as_request_row _) as [r|] eqn:Hr; cbn [paidFallbackRequestBackfillStateV3]; [|by apply triple_ret].
  destruct (rq_usage_rollup_at_ms r).
  - apply triple_bind. unfold rewriteMarkedRequestRowTtlV3. apply triple_catch.
    apply triple_commit; [intros s2 s3 H2 Hc|intros s2 H2]; apply triple_ret; [|evolves_chain].
    assert (ledger_evolves s1 s2) as H12 by evolves_chain. etrans; [exact H1|]. etrans; [exact H12|].
    eapply (row_commit _ _ _ _ Hc kid id r _ [] [] 0 None); [done|auto with gateway|done|done| |done|done].
    unfold row_at. rewrite (checked_row _ _ _ _ _ _ H12 Hc); [done|]. by left.
  - case_match; [by apply triple_ret|]. apply triple_bind.
    eapply triple_mono; [by apply (guarantees_fold kid id r s1)|].
    intros [m|o] s2 H2; [|apply triple_ret]; evolves_chain.
Qed.

(** ** Any call *)

(** The calls that write the ledger, with their arguments. *)
Inductive LedgerCall :=
| CallAdmit (input : AdmissionInput)
| CallUpdate (reservation : PaidFallbackAdmissionV3) (patch : PaidFallbackRequestLifecyclePatchV3)
| CallRelease (reservation : PaidFallbackAdmissionV3) (allowDispatchIntent : bool)
| CallSettle (keyId requestId : string) (log : NativePaidProviderLog) (nowMs : Z) (c : NativePaidCorrelation)
    (cost : option number)
| CallSettleUsage (reservation : PaidFallbackAdmissionV3) (usage : PaidFallbackUsageSettlementV3)
| CallDefer (keyId requestId : string) (nowMs : Z)
| CallExpedite (reservation : PaidFallbackAdmissionV3) (nowMs : Z)
| CallAcquireLease (token : nat -> string) (keyId : string) (nowMs : Z)
| CallReleaseLease (keyId : string) (lease : PaidFallbackReconciliationLeaseV3)
| CallRecompute
| CallTerminalUsage (uuid : string) (input : TerminalUsageRollupInput)
| CallBackfillRow (keyId requestId : string) (progress : BackfillProgress) (nowMs : Z).

Definition ignore {A} (m : KvM S A) : KvM S unit := kv_bind m (fun _ => kv_ret tt).

Definition run_call (call : LedgerCall) : KvM S unit :=
  match call with
  | CallAdmit input => ignore (admitPaidFallbackV3 others clock available input)
  | CallUpdate res patch => updatePaidFallbackRequestV3 others clock available res patch
  | CallRelease res allow => releasePaidFallbackBeforeDispatchV3 others clock available res allow
  | CallSettle kid id log nowMs c cost => ignore (settlePaidFallbackRequestV3 others record_bytes kid id log nowMs c cost)
  | CallSettleUsage res usage => ignore (settlePaidFallbackUsageV3 others clock available record_bytes res usage)
  | CallDefer kid id nowMs => ignore (deferPaidFallbackReconciliationV3 others kid id nowMs)
  | CallExpedite res nowMs => _expeditePaidFallbackReconciliationV3 others available res nowMs
  | CallAcquireLease token kid nowMs => ignore (acquireReconciliationLease others token kid nowMs)
  | CallReleaseLease kid lease => releaseReconciliationLease others kid lease
  | CallRecompute => ignore (recomputePaidFallbackReconciliationGateV3 others)
  | CallTerminalUsage uuid input => ignore (recordTerminalUsageRollup others clock available uuid input)
  | CallBackfillRow kid id progress nowMs =>
      ignore (advanceBackfillSweepV3 others (paidFallbackRequestV3Key kid id) progress nowMs)
  end.

(** A release names a reservation the ledger admitted. *)
Definition call_ok (m : PaidMap) (call : LedgerCall) : Prop :=
  match call with CallRelease res _ => admitted m res | _ => True end.

Lemma guarantees_ignore {A} (m : KvM S A) : guarantees m -> guarantees (ignore m).
Proof. intros H. apply guarantees_bind; auto with gateway. Qed.

Lemma triple_call call s :
  call_ok (kv_map s) call -> triple (run_call call) s (fun _ s' => ledger_evolves s s').
Proof.
  intros Hok. destruct call; cbn [run_call call_ok] in *.
  - apply guarantees_ignore. intros s0. eapply triple_mono; [apply (triple_admit ledger_evolves)|]. by intros r s' [].
  - unfold updatePaidFallbackRequestV3. destruct available; cbn [negb]; [apply guarantees_update|by apply triple_ret].
  - unfold releasePaidFallbackBeforeDispatchV3. destruct available; cbn [negb]; [|by apply triple_ret].
    by apply triple_release.
  - apply guarantees_ignore, guarantees_settle_request.
  - apply guarantees_ignore. unfold settlePaidFallbackUsageV3. destruct available; cbn [negb]; [|auto with gateway].
    apply guarantees_bind; [auto with gateway|]. intros nowMs.
    apply guarantees_bind; [apply guarantees_settle_request|auto with gateway].
  - apply guarantees_ignore, guarantees_defer.
  - unfold _expeditePaidFallbackReconciliationV3. destruct available; cbn [negb]; [|by apply triple_ret].
    apply guarantees_expedite.
  - apply guarantees_ignore, guarantees_lease.
  - apply guarantees_release_lease.
  - apply guarantees_ignore, guarantees_recompute.
  - apply guarantees_ignore. unfold recordTerminalUsageRollup. destruct (paidFallbackTerminalUsageV3 _); [|auto with gateway].
    destruct available; cbn [negb]; [|auto with gateway]. apply guarantees_bind; [auto with gateway|].
    intros nowMs. apply guarantees_rollup.
  - apply guarantees_ignore, guarantees_backfill.
Qed.
End guarantee.
