(* ===== verification/PaidTheorems.v ===== *)
(** * What the paid ledger guarantees *)

From stdpp Require Import base gmap strings list.
From Stdlib Require Import ZArith Lia.
From S2P Require Import Prelude Js KvStore KvLogic NativePaid PaidLedger PaidSafety PaidGuarantee.
Open Scope string_scope.
Open Scope Z_scope.

(** ** A concrete ledger

    One key with a budget of 1000 microcredits per window. *)

Module DemoPaid.

Definition Store : Type := MemoryKvOf PaidValue.
Definition clock : nat -> Z := fun n => 10000 + Z.of_nat n.
Definition bytes : PaidValue -> Z := fun _ => 800.
Definition input (id : string) : AdmissionInput := mkAdmissionInput
  (mkPaidInput "k1" id 9000 "p1" 1000 (Some 600) 0 500000 3600000 "gpt" "/v1/responses" "/v1/responses"
     false None true) None.
Definition s0 : Store := memory_empty.
Definition admit_demo (id : string) (s : Store) : Result string PaidAdmission * (nat * Store) :=
  admitPaidFallbackV3 quiet clock true (input id) (O, s).
Definition s1 : Store := snd (snd (admit_demo "r1" s0)).
Definition reservation : PaidFallbackAdmissionV3 := mkAdmission "k1" "r1" 9000 600 500000 3600000 None.
Definition patch : PaidFallbackRequestLifecyclePatchV3 :=
  mkPatch (Some Metered) (Some (Some "prov-1")) None None None None false.
Definition s2 : Store := snd (snd (updatePaidFallbackRequestV3 quiet clock true reservation patch (O, s1))).
Definition log : NativePaidProviderLog :=
  mkLog "prov-1" (num_of_Z 200) 100 None None 50 "gpt" 10.
Definition settle (s : Store) : Result string SettlementOutcome * (nat * Store) :=
  settlePaidFallbackRequestV3 quiet bytes "k1" "r1" log 20000 CProviderRequestId None (O, s).
Definition s3 : Store := snd (snd (settle s2)).

Lemma quiet_relies : RelyOn ledger_evolves (quiet : Clients Store).
Proof. intros n s. reflexivity. Qed.

Lemma demo_s0_inv : ledger_inv (kv_map s0).
Proof.
  constructor; [|done]. intros kid reset. unfold held, prefix_sum. cbn.
  by rewrite map_filter_empty, msum_empty.
Qed.

Lemma demo_s1_inv : ledger_inv (kv_map s1).
Proof.
  pose proof (triple_admit quiet clock true ledger_evolves (Hothers := quiet_relies) (HothersQ := quiet_relies) (input "r1") s0 O) as H.
  unfold s1, admit_demo. destruct (admitPaidFallbackV3 _ _ _ _ _) as [r [n' s']]. destruct H as [H _].
  apply (lev_inv _ _ H), demo_s0_inv.
Qed.

Example settled_demo :
  fst (settle s2) = Ok (mkSettlementOutcome true None)
  /\ (rq_spend_microcredits <$> row_at (kv_map s3) "k1" "r1") = Some (Some 400)
  /\ (wn_settled_microcredits <$> window_at (kv_map s3) "k1" 3600000) = Some 400.
Proof. vm_compute. done. Qed.

Definition reservation2 : PaidFallbackAdmissionV3 := mkAdmission "k1" "r2" 9000 400 500000 3600000 (Some (num_of_Z 0)).

Lemma run_result {A B C} (x : A * (B * C)) (a : A) : fst x = a -> exists b c, x = (a, (b, c)).
Proof. destruct x as [? [b c]]; intros <-. by exists b, c. Qed.

(** The second admission gets what the first one left of the budget. *)
Lemma admit_partial :
  exists n' s', admitPaidFallbackV3 quiet clock true (input "r2") (O, s1) = (Ok (PaidReserved reservation2), (n', s')).
Proof. apply run_result. vm_compute. reflexivity. Qed.

(** The settled request, and a second settlement of it. *)
Lemma settled_row :
  exists q, row_at (kv_map s3) "k1" "r1" = Some q /\ billable q = false
    /\ rq_billing_state q = BSettled /\ rq_spend_microcredits q = Some 400.
Proof.
  destruct (row_at (kv_map s3) "k1" "r1") as [q|] eqn:Hq; [|vm_compute in Hq; discriminate].
  exists q. vm_compute in Hq. injection Hq as <-. done.
Qed.

Definition settle_again : LedgerCall := CallSettle "k1" "r1" log 20000 CProviderRequestId None.

Lemma settle_again_runs :
  exists n' s', run_call quiet clock true bytes settle_again (O, s3) = (Ok tt, (n', s')).
Proof. apply run_result. vm_compute. reflexivity. Qed.

End DemoPaid.

Section claims.
Context {S : Type} `{Kv : !PaidStore S}.

(** C25: whatever other ledger clients do meanwhile, every call that writes
    the ledger (admission, lifecycle update, release, settlement, deferral,
    expedite, leases, gate recomputation, terminal usage, backfill of a row)
    leaves the reserved amount of every window equal to the sum of the
    reservations its billable requests hold. *)
Theorem paid_ledger_exact others clock available bytes call n s r n' s' :
  RelyOn ledger_evolves others -> call_ok (kv_map s) call -> ledger_inv (kv_map s) ->
  run_call others clock available bytes call (n, s) = (r, (n', s')) ->
  ledger_evolves s s' /\ ledger_inv (kv_map s')
  /\ forall kid reset, held (kv_map s') kid reset = window_reserved (window_at (kv_map s') kid reset).
Proof.
  intros Ho Hok Hinv E.
  pose proof (triple_run _ _ _ _ _ _ _ (triple_call others clock available bytes call s Hok) E) as H.
  pose proof (lev_inv _ _ H Hinv) as Hinv'. split_and!; try done. apply (li_exact _ Hinv').
Qed.

(** C26: an admission never exceeds the budget.  When it reserves, either the
    call committed nothing, the request was on the ledger already, billable, and
    its reservation is returned; or the call's one commit, the last of the store,
    took it from entries [m] that had no such request to entries that have it
    with the reservation returned.  For a key without a limit that reservation is
    0; under a limit it is positive and after the commit what the window has
    settled (what it had in [m]) and what its billable requests hold together
    are within the limit.  Other clients act between the call's reads and
    commits as ledger calls do ([ledger_evolves]); their commits are left out of
    the log. *)
Theorem paid_admission_within_budget others clock available input n s res n' s' :
  RelyOn ledger_evolves others -> (forall n s, kv_log (others n s) = kv_log s) -> ledger_inv (kv_map s) ->
  admitPaidFallbackV3 others clock available input (n, s) = (Ok (PaidReserved res), (n', s')) ->
  let i := ai_input input in
  (kv_log s' = kv_log s
   /\ exists s1 e, ledger_evolves s s1 /\ ledger_evolves s1 s'
     /\ row_at (kv_map s1) (in_keyId i) (in_requestId i) = Some e /\ billable e = true
     /\ res = existingReservationV3 i e)
  \/ exists m, kv_log s' = (kv_log s ++ [(m, kv_map s')])%list
     /\ row_at m (in_keyId i) (in_requestId i) = None
     /\ (exists r, row_at (kv_map s') (in_keyId i) (in_requestId i) = Some r /\ billable r = true
          /\ rq_reserved_microcredits r = ad_reserved_microcredits res)
     /\ (limitMicrocredits i = PAID_FALLBACK_NO_LIMIT -> ad_reserved_microcredits res = 0)
     /\ (limitMicrocredits i <> PAID_FALLBACK_NO_LIMIT ->
          0 < ad_reserved_microcredits res
          /\ exists w, window_at (kv_map s') (in_keyId i) (windowResetAtMs i) = Some w
            /\ wn_settled_microcredits w = from_option wn_settled_microcredits (initialSettledMicrocredits i)
                 (window_at m (in_keyId i) (windowResetAtMs i))
            /\ wn_settled_microcredits w + held (kv_map s') (in_keyId i) (windowResetAtMs i)
               <= limitMicrocredits i).
Proof.
  intros Ho Hlog Hinv E i.
  assert (RelyOn (fun s s' => kv_log s' = kv_log s) others) as HoQ by exact Hlog.
  assert (PreOrder (fun s s' : S => kv_log s' = kv_log s)) as Hpre
    by (split; [by intros ?|intros ? ? ? H1 H2; by rewrite H2]).
  destruct (triple_run _ _ _ _ _ _ _ (triple_admit others clock available _ input s) E)
    as [Hev [Hex|(sc & Hsc & Esc & Hl & Hnew & Hrow & Hfree & Hlim)]]; [by left|right].
  exists (kv_map sc). rewrite <- Esc. split_and!; try done; [destruct Hrow as (r & ? & ? & ? & _); by exists r|].
  intros Hlm. destruct (Hlim Hlm) as (Hpos & w & Hw & _ & Hset & Hb).
  split; [done|]. exists w. split; [done|]. split; [done|]. subst i. by rewrite (li_exact _ (lev_inv _ _ Hev Hinv)), Hw.
Qed.

(** Billing is final.  Once a request is settled or released, no ledger
    call, with any interleaving, changes its billing state or its spend;
    and a request never loses its provider identifier, its window or its
    reservation. *)
Theorem paid_billing_final others clock available bytes call n s r n' s' kid id q :
  RelyOn ledger_evolves others -> call_ok (kv_map s) call ->
  run_call others clock available bytes call (n, s) = (r, (n', s')) ->
  row_at (kv_map s) kid id = Some q ->
  exists q', row_at (kv_map s') kid id = Some q'
    /\ rq_window_reset_at_ms q' = rq_window_reset_at_ms q
    /\ rq_reserved_microcredits q' = rq_reserved_microcredits q
    /\ (forall pid, rq_provider_request_id q = Some pid -> rq_provider_request_id q' = Some pid)
    /\ (isBillableRequestV3 (Some q) = false ->
        rq_billing_state q' = rq_billing_state q /\ rq_spend_microcredits q' = rq_spend_microcredits q).
Proof.
  intros Ho Hok E Hq.
  pose proof (triple_run _ _ _ _ _ _ _ (triple_call others clock available bytes call s Hok) E) as H.
  destruct (lev_rows _ _ H _ _ _ Hq) as (q' & Hq' & []). by exists q'.
Qed.
End claims.

(** ** Admission, every branch *)

Section admission.
Context {S : Type} `{Kv : !PaidStore S}.

Lemma decide_replay clock input is_unlimited exposure n (s : S) :
  let i := ai_input input in
  let guarded := as_guard_row (entry_value (entry_at (kv_map s) (paidFallbackDeletionGuardV3Key (in_keyId i)))) in
  (is_Some guarded \/ is_Some (row_at (kv_map s) (in_keyId i) (in_requestId i))) ->
  exists n', decidePaidFallbackAdmissionV3 quiet clock input is_unlimited exposure (n, s)
    = (Ok (Some (match guarded, row_at (kv_map s) (in_keyId i) (in_requestId i) with
           | None, Some e => if billable e then DecideReserved (existingReservationV3 i e) else DecideBlocked InvalidPolicy
           | _, _ => DecideBlocked InvalidPolicy
           end)), (n', s)).
Proof.
  intros i guarded Hsome. unfold decidePaidFallbackAdmissionV3, kv_bind, get, quiet, date_now. fold i.
  rewrite kv_get_spec.
  match goal with |- context [(if is_unlimited then ?a else ?b) ?w] =>
    assert (exists n1 we, (if is_unlimited then a else b) w = (Ok we, (n1, s))) as (n1 & we & ->)
      by (destruct is_unlimited; by eexists _, _) end.
  rewrite kv_get_spec. unfold planPaidFallbackAdmissionV3.
  cbn [as_deletionGuard as_request row_value paid_row]. fold guarded.
  fold (row_at (kv_map s) (in_keyId i) (in_requestId i)).
  destruct guarded; [by eexists|]. destruct (row_at _ _ _) as [e|]; [|by destruct Hsome as [[]|[]]].
  destruct (billable e); by eexists.
Qed.

(** Admission is idempotent and fenced.  For a valid policy and without
    interference, a key under deletion is refused; a request whose billing is
    final is refused; and a request already on the ledger gets its existing
    reservation back.  None of these writes. *)
Theorem paid_admission_replay clock input n (s : S) :
  let i := ai_input input in
  isInvalidAdmissionPolicy i (limitMicrocredits i =? PAID_FALLBACK_NO_LIMIT) (maximumExposureMicrocredits i) = false ->
  let guarded := as_guard_row (entry_value (entry_at (kv_map s) (paidFallbackDeletionGuardV3Key (in_keyId i)))) in
  (is_Some guarded \/ is_Some (row_at (kv_map s) (in_keyId i) (in_requestId i))) ->
  exists n', admitPaidFallbackV3 quiet clock true input (n, s)
    = (Ok (match guarded, row_at (kv_map s) (in_keyId i) (in_requestId i) with
           | None, Some e => if billable e then PaidReserved (existingReservationV3 i e) else PaidBlocked InvalidPolicy
           | _, _ => PaidBlocked InvalidPolicy
           end), (n', s)).
Proof.
  intros i Hvalid guarded Hsome. unfold admitPaidFallbackV3. cbn [negb]. fold i. rewrite Hvalid.
  assert (exists tries, MAX_CAS_ATTEMPTS = Datatypes.S tries) as [tries ->] by (by exists 127%nat).
  cbn [admit_loop]. unfold kv_bind at 1.
  destruct (decide_replay clock input (limitMicrocredits i =? PAID_FALLBACK_NO_LIMIT)
    (maximumExposureMicrocredits i) n s Hsome) as [n' E]. fold i. rewrite E. exists n'.
  fold i in guarded |- *. fold guarded. destruct guarded; [done|]. destruct (row_at _ _ _) as [e|]; [|done].
  by destruct (billable e).
Qed.
End admission.

(** ** Settlement, functionally *)

Section settlement.
Context {S : Type} `{Kv : !PaidStore S}.
Local Notation at_ s k := (entry_at (kv_map s) k).

(** Only the growth counters may differ. *)
Definition off_stats (s s' : S) : Prop :=
  forall k, (forall d, k <> paidFallbackLedgerStatsDayKey d) -> at_ s' k = at_ s k.

Local Instance off_stats_preorder : PreOrder off_stats.
Proof. split; [by intros s k|]. intros s1 s2 s3 H12 H23 k Hk. by rewrite H23, H12. Qed.
Local Instance off_stats_quiet : RelyOn off_stats (quiet : Clients S).
Proof. intros n s. reflexivity. Qed.

Lemma stats_quiet tries day nowMs merge s :
  triple (stats_loop quiet tries day nowMs merge) s (fun r s' => r = Ok tt /\ off_stats s s').
Proof.
  revert s. induction tries as [|tries IH]; intros s; cbn [stats_loop]; [by apply triple_ret|].
  apply triple_bind, triple_get. intros s1 H1.
  apply triple_bind, (triple_commit (rely := off_stats)); [intros s2 s3 H2 Hc|intros s2 H2].
  - apply triple_ret. split; [done|]. etrans; [exact H1|]. etrans; [exact H2|]. intros k Hk.
    destruct (kv_commit_ok _ _ _ _ Hc) as (_ & _ & ->). unfold entry_at. cbn.
    rewrite lookup_insert_ne; [done|]. intros E. by apply (Hk day).
  - eapply triple_mono; [apply IH|]. intros r s3 [-> H3]. split; [done|]. by etrans; [|etrans].
Qed.

Lemma growth_quiet bytes row rollup nowMs s :
  triple (recordSettlementGrowthV3 quiet bytes row rollup nowMs) s (fun r s' => r = Ok tt /\ off_stats s s').
Proof.
  unfold recordSettlementGrowthV3, recordPaidFallbackLedgerSettlementStats. apply triple_bind.
  destruct (_ || _); [by apply triple_ret, triple_ret|]. apply triple_catch, triple_bind.
  eapply triple_mono; [apply stats_quiet|]. intros r s' [-> H]. by apply triple_ret, triple_ret.
Qed.

(** The window a settlement of [spend] leaves. *)
Definition charged (w : PaidFallbackWindowV3) (r : PaidFallbackRequestV3) (spend nowMs : Z) : PaidFallbackWindowV3 :=
  w <| wn_settled_microcredits := wn_settled_microcredits w + spend |>
    <| wn_reserved_microcredits := Z.max 0 (wn_reserved_microcredits w - rq_reserved_microcredits r) |>
    <| wn_pending_count := Z.max 0 (wn_pending_count w - 1) |>
    <| wn_updated_at_ms := nowMs |>.

Definition pending_at (m : PaidMap) (kid id : string) : option PaidFallbackPendingV3 :=
  as_pending_row (entry_value (entry_at m (paidFallbackPendingV3Key kid id))).

(** One settlement commit, and what it leaves on the ledger. *)
Lemma settle_commit_quiet kid id r plan log spend rollup pe nowMs n s :
  row_at (kv_map s) kid id = Some r -> neutral (sr_rollupKey rollup) ->
  sr_rollupEntry rollup = at_ s (sr_rollupKey rollup) ->
  (forall kid id, sr_rollupKey rollup <> paidFallbackPendingV3Key kid id) ->
  pe = at_ s (paidFallbackPendingV3Key kid id) ->
  planPaidFallbackSettlementRowsV3 (mkSettlementSnapshot
    (paid_row as_request_row (at_ s (paidFallbackRequestV3Key kid id))) (paid_row as_pending_row pe)
    (paid_row as_gate_row (at_ s gate_key))
    (paid_row as_window_row (at_ s (paidFallbackWindowV3Key kid (rq_window_reset_at_ms r))))
    (paid_row as_rollup_row (sr_rollupEntry rollup))) log spend (sr_foldIntoRollup rollup) nowMs = Ok plan ->
  exists s', commitPaidFallbackSettlementV3 quiet (paidFallbackRequestV3Key kid id) (paidFallbackPendingV3Key kid id)
      (paidFallbackWindowV3Key kid (rq_window_reset_at_ms r)) (at_ s (paidFallbackRequestV3Key kid id)) pe
      (at_ s gate_key) (at_ s (paidFallbackWindowV3Key kid (rq_window_reset_at_ms r))) plan rollup nowMs (n, s)
    = (Ok true, (Datatypes.S n, s'))
    /\ row_at (kv_map s') kid id = Some (rp_request plan)
    /\ window_at (kv_map s') kid (rq_window_reset_at_ms r)
       = (fun w => charged w r spend nowMs) <$> window_at (kv_map s) kid (rq_window_reset_at_ms r)
    /\ pending_at (kv_map s') kid id = None.
Proof.
  intros Hr Hneutral Hre Hrp -> Hplan. apply paid_settlement_row in Hplan as (r1 & Hr1 & _ & _ & _ & _ & Hw).
  cbn [ss_request ss_window row_value paid_row] in Hr1, Hw. unfold row_at in Hr. rewrite Hr in Hr1.
  injection Hr1 as <-. fold (window_at (kv_map s) kid (rq_window_reset_at_ms r)) in Hw.
  change (rp_window plan = (fun w => charged w r spend nowMs) <$> window_at (kv_map s) kid (rq_window_reset_at_ms r)) in Hw.
  unfold commitPaidFallbackSettlementV3.
  match goal with |- exists s', commit quiet ?cs ?ms (n, s) = _ /\ _ =>
    destruct (commit_quiet cs ms n s) as (s' & E & Hc & Hm) end.
  { apply checks_current. destruct (sr_foldIntoRollup rollup), (rp_window plan); cbn [fst]; rewrite ?Hre;
      repeat (apply Forall_cons_2; [by eexists|]); apply Forall_nil_2. }
  exists s'. split; [exact E|].
  match type of Hc with kv_commit _ (_ ++ ?a ++ ?b ++ ?c) _ = _ =>
    set (rest := ([MDelete (paidFallbackPendingV3Key kid id)] ++ a ++ b)%list); set (wpart := c) in * end.
  assert (Forall benign rest) as Hrest.
  { unfold rest. destruct (sr_foldIntoRollup rollup); cbn [snd app];
      repeat (apply Forall_cons_2; [split; [cbn; auto with gateway|done]|]); apply Forall_nil_2. }
  assert (window_part kid (rq_window_reset_at_ms r) (rp_window plan) wpart) as Hpart
    by (unfold wpart; destruct (rp_window plan); cbn; eauto).
  match type of Hc with kv_commit _ ?l _ = _ => assert (l = MSet (paidFallbackRequestV3Key kid id)
    (VRequest (rp_request plan)) (Some (rp_requestExpireIn plan)) :: rest ++ wpart) as Hms
    by (unfold rest; cbn [app]; by rewrite <- app_assoc) end.
  split_and!.
  - rewrite (row_after _ _ _ _ Hc _ _ _ _ _ _ _ _ Hms Hrest Hpart). by rewrite bool_decide_true.
  - rewrite (window_after _ _ _ _ Hc _ _ _ _ _ _ _ _ Hms Hrest Hpart), Hw, bool_decide_true by done.
    by destruct (window_at _ _ _).
  - unfold pending_at, entry_at. rewrite Hm, Hms. unfold rest. cbn [app].
    match goal with |- context [apply_mutations ?v (?a :: ?b :: ?l) ?m] =>
      change (apply_mutations v (a :: b :: l) m) with (apply_mutations v l (apply_mutation v (apply_mutation v m a) b)) end.
    rewrite apply_mutations_other; [cbn [apply_mutation]; by rewrite lookup_delete_eq|].
    unfold wpart. destruct (sr_foldIntoRollup rollup), (rp_window plan); cbn [fst snd app];
      repeat (apply Forall_cons_2; [done|]); apply Forall_nil_2.
Qed.

(** A settlement of a row whose billing is final and which has no marker. *)
Lemma settle_again_paid bytes kid id r log nowMs c cost n s :
  row_at (kv_map s) kid id = Some r -> billable r = false -> pending_at (kv_map s) kid id = None ->
  exists n', settlePaidFallbackRequestV3 quiet bytes kid id log nowMs c cost (n, s)
    = (Ok (mkSettlementOutcome false None), (n', s)).
Proof.
  intros Hr Hb Hp. unfold settlePaidFallbackRequestV3.
  assert (exists tries, MAX_CAS_ATTEMPTS = Datatypes.S tries) as [tries ->] by (by exists 127%nat).
  cbn [settle_loop]. unfold kv_bind at 1 2 3, get, quiet. rewrite !kv_get_spec.
  unfold row_at in Hr. unfold pending_at in Hp. rewrite Hr, Hp. unfold evaluatePaidFallbackSettlementV3. rewrite Hb.
  cbn [negb]. unfold clearStalePendingMarkerV3. rewrite Hp. by eexists.
Qed.

(** A request settles exactly once.  Without interference, a settlement
    whose provider log correlates with a billable, pending request succeeds:
    the row becomes settled with exactly the evaluated spend, its window (if
    it has one) is charged that spend and gives back the reservation, and
    the pending marker is gone; every later settlement, with any log, reports
    that nothing was settled and changes nothing. *)
Theorem paid_settles_exactly_once bytes kid id r log nowMs c cost spend n s :
  row_at (kv_map s) kid id = Some r ->
  evaluatePaidFallbackSettlementV3 (Some r) (pending_at (kv_map s) kid id) log
    (mkMetadata c MICROCREDITS_PER_CREDIT cost) = EvalSettle spend ->
  exists n' s' r', settlePaidFallbackRequestV3 quiet bytes kid id log nowMs c cost (n, s)
      = (Ok (mkSettlementOutcome true None), (n', s'))
    /\ row_at (kv_map s') kid id = Some r' /\ rq_billing_state r' = BSettled /\ rq_spend_microcredits r' = Some spend
    /\ window_at (kv_map s') kid (rq_window_reset_at_ms r)
       = (fun w => charged w r spend nowMs) <$> window_at (kv_map s) kid (rq_window_reset_at_ms r)
    /\ pending_at (kv_map s') kid id = None
    /\ forall log' now' c' cost' m, exists m',
         settlePaidFallbackRequestV3 quiet bytes kid id log' now' c' cost' (m, s')
         = (Ok (mkSettlementOutcome false None), (m', s')).
Proof.
  intros Hr Hev.
  enough (exists n' s' r', settlePaidFallbackRequestV3 quiet bytes kid id log nowMs c cost (n, s)
      = (Ok (mkSettlementOutcome true None), (n', s'))
    /\ row_at (kv_map s') kid id = Some r' /\ rq_billing_state r' = BSettled /\ rq_spend_microcredits r' = Some spend
    /\ window_at (kv_map s') kid (rq_window_reset_at_ms r)
       = (fun w => charged w r spend nowMs) <$> window_at (kv_map s) kid (rq_window_reset_at_ms r)
    /\ pending_at (kv_map s') kid id = None) as (n' & s' & r' & H1 & H2 & H3 & H4 & H5 & H6).
  { exists n', s', r'. split_and!; try done. intros. eapply settle_again_paid; [done| |done].
    unfold billable. by rewrite H3. }
  unfold settlePaidFallbackRequestV3.
  assert (exists tries, MAX_CAS_ATTEMPTS = Datatypes.S tries) as [tries ->] by (by exists 127%nat).
  cbn [settle_loop]. do 3 rewrite (bind_step _ _ _ _ _ (get_quiet _ _ _)).
  pose proof Hr as Hr0. unfold row_at in Hr. rewrite Hr. fold (pending_at (kv_map s) kid id). rewrite Hev.
  rewrite (bind_step _ _ _ _ _ (get_quiet _ _ _)).
  unfold prepareSettlementRollupV3. erewrite (bind_step (kv_bind _ _));
    [|by rewrite (bind_step _ _ _ _ _ (get_quiet _ _ _))].
  match goal with |- context [mkSettlementRollup ?a ?b ?c ?d] => set (rollup := mkSettlementRollup a b c d) end.
  destruct (planPaidFallbackSettlementRowsV3 _ _ _ _ _) as [m|plan] eqn:Hp.
  { unfold planPaidFallbackSettlementRowsV3 in Hp. cbn [ss_request row_value paid_row] in Hp. by rewrite Hr in Hp. }
  erewrite (bind_step (kv_lift _)) by done.
  edestruct (settle_commit_quiet kid id r plan log spend rollup) as (s1 & E & H1 & H2 & H3);
    [exact Hr0|cbn; auto with gateway|reflexivity|done|reflexivity|exact Hp|].
  erewrite (bind_step (commitPaidFallbackSettlementV3 _ _ _ _ _ _ _ _ _ _ _)) by exact E. cbv beta iota.
  match goal with |- context [kv_bind ?g _ (?m, s1)] => destruct (g (m, s1)) as [rr [n2 s2]] eqn:Eg end.
  destruct (triple_run _ _ _ _ _ _ _ (growth_quiet _ _ _ _ _) Eg) as [-> Hoff].
  erewrite bind_step by exact Eg. exists n2, s2, (rp_request plan).
  apply paid_settlement_row in Hp as (r1 & Hr1 & _ & _ & Hst & Hsp & _).
  unfold row_at, window_at, pending_at in *. rewrite !Hoff by done. split_and!; done.
Qed.
End settlement.

(** ** Decisions *)

(** A release happens exactly when no provider can have been asked: the
    request is pending, has no provider identifier, and was not dispatched (or
    only its dispatch intent was recorded and the caller vouches for it).  The
    released request is never billed and gives its reservation back. *)
Theorem paid_release_only_undispatched snapshot allow now :
  match planPaidFallbackReleaseV3 snapshot allow now with
  | Some plan => exists r, row_value (rl_request snapshot) = Some r
      /\ rq_billing_state r = BPending /\ rq_provider_request_id r = None
      /\ (rq_dispatch_state r = DReserved \/ allow = true /\ rq_dispatch_state r = DDispatched)
      /\ rq_billing_state (rp_request plan) = BNotBilled
      /\ rp_window plan = (fun w => releasedWindow w r now) <$> row_value (rl_window snapshot)
  | None => forall r, row_value (rl_request snapshot) = Some r ->
      rq_billing_state r <> BPending \/ is_Some (rq_provider_request_id r)
      \/ rq_dispatch_state r = DNotDispatched \/ rq_dispatch_state r = DDispatched /\ allow = false
  end.
Proof.
  destruct (planPaidFallbackReleaseV3 snapshot allow now) as [plan|] eqn:E.
  - apply release_row in E as (r & ? & ? & ? & ? & _ & _ & ? & ?). exists r. by split_and!.
  - intros r Hr. unfold planPaidFallbackReleaseV3 in E. rewrite Hr in E. cbn in E.
    destruct (decide (rq_billing_state r = BPending)); [|by left]. right.
    destruct (rq_provider_request_id r); [by left|]. right.
    rewrite (bool_decide_true (_ = BPending)) in E by done. cbn in E.
    destruct (rq_dispatch_state r), allow; try done; auto.
Qed.

Fixpoint sum_of {A} (f : A -> Z) (l : list A) : Z :=
  match l with [] => 0 | a :: l => f a + sum_of f l end.

Definition fold_rollup (existing : option PaidFallbackUsageRollup) (inputs : list PaidFallbackUsageRollupInput)
    : option PaidFallbackUsageRollup :=
  foldl (fun acc i => Some (mergePaidFallbackUsageRollup acc i)) existing inputs.

(** An hourly rollup is the sum of what was merged into it: its count, its
    token counts and its spend grow by exactly the merged requests', its first
    and last request times bound them all, and its identity never changes. *)
Theorem rollup_is_sum r0 inputs :
  match fold_rollup (Some r0) inputs with
  | None => False
  | Some r =>
      ru_request_count r = ru_request_count r0 + Z.of_nat (length inputs)
      /\ ru_input_tokens r = ru_input_tokens r0 + sum_of ri_input_tokens inputs
      /\ ru_cached_input_tokens r
         = ru_cached_input_tokens r0 + sum_of (fun i => default 0 (ri_cached_input_tokens i)) inputs
      /\ ru_output_tokens r = ru_output_tokens r0 + sum_of ri_output_tokens inputs
      /\ ru_spend_microcredits r = ru_spend_microcredits r0 + sum_of ri_spend_microcredits inputs
      /\ ru_first_request_at_ms r <= ru_first_request_at_ms r0 /\ ru_last_request_at_ms r0 <= ru_last_request_at_ms r
      /\ Forall (fun i => ru_first_request_at_ms r <= ri_request_created_at_ms i <= ru_last_request_at_ms r) inputs
      /\ (ru_bucket_start_at_ms r, ru_model r, ru_provider r)
         = (ru_bucket_start_at_ms r0, ru_model r0, ru_provider r0)
  end.
Proof.
  revert r0. induction inputs as [|i inputs IH]; intros r0; cbn.
  - split_and!; try lia; try done.
  - specialize (IH (mergePaidFallbackUsageRollup (Some r0) i)). unfold fold_rollup in IH |- *. cbn in IH |- *.
    destruct (foldl _ _ inputs) as [r|]; [|done].
    destruct IH as (H1 & H2 & H3 & H4 & H5 & H6 & H7 & H8 & H9). cbn in *.
    split_and!; try lia; try done. constructor; [lia|done].
Qed.

(** The 32-bit FNV-1a hash. *)
Definition fnv1a (l : list Z) : Z := foldl (fun h c => (Z.lxor h c * FNV_PRIME) mod 2 ^ 32) FNV_OFFSET l.

Lemma lxor_mod a b : Z.lxor a b mod 2 ^ 32 = Z.lxor (a mod 2 ^ 32) (b mod 2 ^ 32).
Proof.
  apply Z.bits_inj'. intros n Hn. rewrite Z.lxor_spec. destruct (Z.ltb_spec n 32).
  - rewrite !Z.mod_pow2_bits_low by lia. by rewrite Z.lxor_spec.
  - by rewrite !Z.mod_pow2_bits_high by lia.
Qed.

Lemma fnv_step_reference h c :
  0 <= h < 2 ^ 32 -> 0 <= c < 2 ^ 32 -> fnv_step h c = (Z.lxor h c * FNV_PRIME) mod 2 ^ 32.
Proof.
  intros Hh Hc. unfold fnv_step, to_uint32 at 1, imul. rewrite to_int32_mod, <- Z.mul_mod_idemp_l, to_int32_mod by lia.
  rewrite Z.mul_mod_idemp_l by lia. rewrite <- Z.mul_mod_idemp_l, lxor_mod, !to_int32_mod by lia.
  rewrite (Z.mod_small h), (Z.mod_small c) by lia.
  rewrite <- Z.mul_mod_idemp_r, to_int32_mod, Z.mul_mod_idemp_r by lia. done.
Qed.

(** The shard of a request id is its 32-bit FNV-1a hash modulo the shard
    count, although the loop computes on signed 32-bit integers; it is one of
    the sixteen shards. *)
Theorem rollup_shard_fnv1a requestId :
  paidFallbackUsageRollupShard requestId
    = fnv1a (code_unit <$> list_of_string requestId) mod PAID_FALLBACK_USAGE_ROLLUP_SHARD_COUNT
  /\ 0 <= paidFallbackUsageRollupShard requestId < PAID_FALLBACK_USAGE_ROLLUP_SHARD_COUNT.
Proof.
  split; [|unfold paidFallbackUsageRollupShard; by apply Z.mod_pos_bound].
  unfold paidFallbackUsageRollupShard, fnv1a. f_equal.
  assert (0 <= FNV_OFFSET < 2 ^ 32) as Hh by (unfold FNV_OFFSET; lia).
  revert Hh. generalize FNV_OFFSET. induction (list_of_string requestId) as [|c l IH]; intros h Hh; cbn; [done|].
  assert (0 <= code_unit c < 2 ^ 32) as Hc
    by (unfold code_unit; pose proof (Ascii.nat_ascii_bounded c); lia).
  rewrite fnv_step_reference by done. apply IH. apply Z.mod_pos_bound. lia.
Qed.

Lemma retry_delay_bounds n : 5000 <= retry_delay n <= 21600000.
Proof.
  unfold retry_delay. pose proof (Nat.le_min_r (n - 1) (length RETRY_DELAYS_MS - 1)) as H. revert H.
  unfold RETRY_DELAYS_MS. cbn [length]. destruct (Nat.min _ _) as [|[|[|[|[|[|k]]]]]]; cbn; lia.
Qed.

(** Reconciliation backs off and never gives up silently.  A deferral
    without a marker does nothing; with a marker of a missing or finally billed
    request it only clears the marker; otherwise it counts one more attempt,
    schedules the next one between five seconds and six hours from now, keeps
    the request billable, and declares it unresolved from 24 hours on. *)
Theorem deferral_backs_off request pending now :
  match planPaidFallbackDeferralV3 request pending now with
  | DeferNoop => pending = None
  | DeferCleanup => is_Some pending /\ isBillableRequestV3 request = false
  | DeferWrite r' p' delay _ => exists r p, request = Some r /\ pending = Some p /\ billable r = true
      /\ rq_reconciliation_attempts r' = S (rq_reconciliation_attempts r)
      /\ next_reconciliation_at_ms p' = now + delay /\ 5000 <= delay <= 21600000
      /\ billable r' = true
      /\ (now - rq_created_at_ms r < 24 * 3600 * 1000 -> rq_billing_state r' = rq_billing_state r)
      /\ (24 * 3600 * 1000 <= now - rq_created_at_ms r -> rq_billing_state r' = BUnresolved)
  end.
Proof.
  destruct (planPaidFallbackDeferralV3 request pending now) as [| |r' p' delay ttl] eqn:E;
    unfold planPaidFallbackDeferralV3 in E; destruct pending as [p|], request as [r|]; try done.
  - by destruct (billable r).
  - cbn. by destruct (billable r).
  - destruct (billable r) eqn:Hb; [|done]. cbn [negb] in E. injection E as <- <- <- _.
    exists r, p. pose proof (retry_delay_bounds (S (rq_reconciliation_attempts r))) as Hd.
    split_and!; try done; unfold billable, UNRESOLVED_AFTER_MS in *; cbn;
      destruct (Z.leb_spec (24 * 60 * 60000) (now - rq_created_at_ms r)); try done; intros; lia.
Qed.

(** ** Witnesses *)

Lemma paid_ledger_exact_witness :
  let run := run_call quiet DemoPaid.clock true DemoPaid.bytes (CallAdmit (DemoPaid.input "r2")) (O, DemoPaid.s1) in
  held (kv_map (snd (snd run))) "k1" 3600000 = 1000
  /\ window_reserved (window_at (kv_map (snd (snd run))) "k1" 3600000) = 1000.
Proof.
  destruct (run_call quiet DemoPaid.clock true DemoPaid.bytes (CallAdmit (DemoPaid.input "r2")) (O, DemoPaid.s1))
    as [r [n' s']] eqn:E.
  destruct (paid_ledger_exact quiet DemoPaid.clock true DemoPaid.bytes (CallAdmit (DemoPaid.input "r2")) O DemoPaid.s1
    r n' s' DemoPaid.quiet_relies I DemoPaid.demo_s1_inv E) as (_ & _ & H).
  cbn [fst snd]. rewrite H. cut (window_reserved (window_at (kv_map s') "k1" 3600000) = 1000); [intros ->; split; reflexivity|].
  replace s' with (snd (snd (run_call quiet DemoPaid.clock true DemoPaid.bytes
    (CallAdmit (DemoPaid.input "r2")) (O, DemoPaid.s1)))) by (by rewrite E).
  vm_compute. reflexivity.
Defined.

Lemma paid_admission_within_budget_witness :
  exists n' s' w, admitPaidFallbackV3 quiet DemoPaid.clock true (DemoPaid.input "r2") (O, DemoPaid.s1)
      = (Ok (PaidReserved DemoPaid.reservation2), (n', s'))
  /\ kv_log s' <> kv_log DemoPaid.s1 /\ window_at (kv_map s') "k1" 3600000 = Some w
  /\ wn_settled_microcredits w + held (kv_map s') "k1" 3600000 <= 1000.
Proof.
  destruct DemoPaid.admit_partial as (n' & s' & E).
  assert (length (kv_log s') = 2%nat) as Hlen.
  { replace s' with (snd (snd (admitPaidFallbackV3 quiet DemoPaid.clock true (DemoPaid.input "r2") (O, DemoPaid.s1))))
      by (by rewrite E). vm_compute. reflexivity. }
  assert (kv_log s' <> kv_log DemoPaid.s1) as Hne.
  { intros H. rewrite H in Hlen. vm_compute in Hlen. discriminate Hlen. }
  destruct (paid_admission_within_budget quiet DemoPaid.clock true (DemoPaid.input "r2") O DemoPaid.s1
    DemoPaid.reservation2 n' s' DemoPaid.quiet_relies (fun n s => eq_refl) DemoPaid.demo_s1_inv E)
    as [[H _]|(m & _ & _ & _ & _ & Hlim)]; [destruct (Hne H)|].
  destruct Hlim as (_ & w & Hw & _ & Hb); [discriminate|]. exists n', s', w. exact (conj E (conj Hne (conj Hw Hb))).
Defined.

Lemma paid_billing_final_witness :
  exists n' s' q', run_call quiet DemoPaid.clock true DemoPaid.bytes DemoPaid.settle_again (O, DemoPaid.s3)
      = (Ok tt, (n', s'))
    /\ row_at (kv_map s') "k1" "r1" = Some q' /\ rq_billing_state q' = BSettled /\ rq_spend_microcredits q' = Some 400.
Proof.
  destruct DemoPaid.settled_row as (q & Hq & Hb & H1 & H2), DemoPaid.settle_again_runs as (n' & s' & E).
  destruct (paid_billing_final quiet DemoPaid.clock true DemoPaid.bytes DemoPaid.settle_again O DemoPaid.s3 (Ok tt) n' s'
    "k1" "r1" q DemoPaid.quiet_relies I E Hq) as (q' & Hq' & _ & _ & _ & Hfin).
  destruct (Hfin Hb) as [E1 E2]. exists n', s', q'. rewrite E1, E2. exact (conj E (conj Hq' (conj H1 H2))).
Defined.

Lemma paid_admission_replay_witness :
  exists n', admitPaidFallbackV3 quiet DemoPaid.clock true (DemoPaid.input "r1") (O, DemoPaid.s1)
    = (Ok (PaidReserved DemoPaid.reservation), (n', DemoPaid.s1)).
Proof.
  assert (is_Some (row_at (kv_map DemoPaid.s1) "k1" "r1")) as Hrow by (vm_compute; eauto).
  destruct (paid_admission_replay DemoPaid.clock (DemoPaid.input "r1") O DemoPaid.s1 eq_refl (or_intror Hrow))
    as [n' E].
  exists n'. refine (eq_trans E _). f_equal.
Defined.

Lemma paid_settles_exactly_once_witness :
  exists n' s', settlePaidFallbackRequestV3 quiet DemoPaid.bytes "k1" "r1" DemoPaid.log 20000 CProviderRequestId None
      (O, DemoPaid.s2) = (Ok (mkSettlementOutcome true None), (n', s'))
    /\ pending_at (kv_map s') "k1" "r1" = None.
Proof.
  destruct (row_at (kv_map DemoPaid.s2) "k1" "r1") as [q|] eqn:Hq; [|vm_compute in Hq; discriminate].
  assert (evaluatePaidFallbackSettlementV3 (Some q) (pending_at (kv_map DemoPaid.s2) "k1" "r1") DemoPaid.log
    (mkMetadata CProviderRequestId MICROCREDITS_PER_CREDIT None) = EvalSettle 400) as Hev.
  { vm_compute in Hq. injection Hq as <-. vm_compute. reflexivity. }
  destruct (paid_settles_exactly_once DemoPaid.bytes "k1" "r1" q DemoPaid.log 20000 CProviderRequestId None 400 O
    DemoPaid.s2 Hq Hev) as (n' & s' & r' & E & _ & _ & _ & _ & Hp & _).
  exists n', s'. exact (conj E Hp).
Defined.
