(* ===== verification/PaidUsage.v ===== *)
(** * Usage rollups and deletion

    Every settled request is counted in the hourly rollups exactly once,
    whether its settlement or the backfill folds it; and the state of a key is
    deleted only when nothing of it is outstanding. *)

From stdpp Require Import base gmap strings list.
From Stdlib Require Import ZArith Lia.
From S2P Require Import Prelude Js KvStore KvLogic NativePaid PaidLedger PaidSafety PaidGuarantee PaidTheorems.
Open Scope string_scope.
Open Scope Z_scope.

(** ** Totals *)

(** What a row has contributed to the rollups. *)
Definition counted (r : PaidFallbackRequestV3) : Z :=
  if paidFallbackBackfillRollupEligibleV3 r && bool_decide (is_Some (rq_usage_rollup_at_ms r))
  then default 0 (rq_spend_microcredits r) else 0.
Definition counted_value (v : PaidValue) : Z := from_option counted 0 (as_request_row v).
Definition rollup_value (v : PaidValue) : Z := from_option ru_spend_microcredits 0 (as_rollup_row v).

(** Exact sums: the code adds numbers, without a guard on the safe integers. *)
Definition counted_total (m : PaidMap) : Z := prefix_sum counted_value paidFallbackRequestV3GlobalPrefix m.
Definition rollup_total (m : PaidMap) : Z := prefix_sum rollup_value PAID_FALLBACK_USAGE_ROLLUP_PREFIX m.

(** What the rollups hold beyond the requests counted in them. *)
Definition usage_gap (m : PaidMap) : Z := rollup_total m - counted_total m.

Definition rollup_key (r : PaidFallbackRequestV3) (c : NativePaidCorrelation) : KvKey :=
  let i := paidFallbackRequestRollupIdentity r c in
  paidFallbackUsageRollupKey (id_bucketStartAtMs i) (id_model i) (id_provider i) (id_shard i).

(** A rollup row the code would merge into: absent or valid. *)
Definition mergeable (m : PaidMap) (k : KvKey) : Prop :=
  valid_rollup (as_rollup_row (entry_value (entry_at m k))) = as_rollup_row (entry_value (entry_at m k)).

(** A mutation that touches neither requests nor rollups. *)
Definition off_usage (k : KvKey) : Prop :=
  has_prefix paidFallbackRequestV3GlobalPrefix k = false /\ has_prefix PAID_FALLBACK_USAGE_ROLLUP_PREFIX k = false.

Lemma request_in_global kid id : has_prefix paidFallbackRequestV3GlobalPrefix (paidFallbackRequestV3Key kid id) = true.
Proof. reflexivity. Qed.
Lemma request_off_rollup kid id : has_prefix PAID_FALLBACK_USAGE_ROLLUP_PREFIX (paidFallbackRequestV3Key kid id) = false.
Proof. reflexivity. Qed.
Lemma rollup_in_prefix r c : has_prefix PAID_FALLBACK_USAGE_ROLLUP_PREFIX (rollup_key r c) = true.
Proof. reflexivity. Qed.

Lemma gap_off_usage n ms m :
  Forall (fun mu => off_usage (mutation_key mu)) ms -> usage_gap (apply_mutations n ms m) = usage_gap m.
Proof.
  intros H. unfold usage_gap, rollup_total, counted_total.
  rewrite !prefix_sum_mutations_out; [done|..]; (eapply Forall_impl; [exact H|]); by intros mu [].
Qed.

Lemma gap_set_request n m kid id r' :
  usage_gap (<[paidFallbackRequestV3Key kid id := (VRequest r', n)]> m)
  = usage_gap m + from_option counted 0 (row_at m kid id) - counted r'.
Proof.
  unfold usage_gap, rollup_total, counted_total. rewrite !prefix_sum_set. unfold key_weight, value_weight, row_at, entry_at.
  rewrite request_in_global, request_off_rollup.
  destruct (m !! paidFallbackRequestV3Key kid id) as [[v z]|]; cbn; unfold counted_value; cbn; lia.
Qed.

Lemma gap_set_rollup n m b model provider shard v :
  let k := paidFallbackUsageRollupKey b model provider shard in
  usage_gap (<[k := (VRollup v, n)]> m)
  = usage_gap m - rollup_value (entry_value (entry_at m k)) + ru_spend_microcredits v.
Proof.
  intros k. unfold usage_gap, rollup_total, counted_total. rewrite !prefix_sum_set.
  unfold key_weight, value_weight, entry_at.
  assert (has_prefix PAID_FALLBACK_USAGE_ROLLUP_PREFIX k = true) as -> by done.
  assert (has_prefix paidFallbackRequestV3GlobalPrefix k = false) as -> by done.
  destruct (m !! k) as [[v0 z]|]; cbn; unfold rollup_value; cbn; lia.
Qed.

(** A request row and the rollup its usage goes to, written together. *)
Lemma gap_fold n m kid id r r' c rollup input rest e1 e2 pre :
  row_at m kid id = Some r -> mergeable m (rollup_key r c) ->
  rollup = mergePaidFallbackUsageRollup
    (valid_rollup (as_rollup_row (entry_value (entry_at m (rollup_key r c))))) input ->
  counted r' = counted r + ri_spend_microcredits input ->
  Forall (fun mu => off_usage (mutation_key mu)) rest ->
  Forall (fun mu => off_usage (mutation_key mu)) pre ->
  usage_gap (apply_mutations n (MSet (paidFallbackRequestV3Key kid id) (VRequest r') e1 :: pre
    ++ MSet (rollup_key r c) (VRollup rollup) e2 :: rest) m) = usage_gap m.
Proof.
  intros Hr Hm -> Hcount Hrest Hpre.
  rewrite apply_mutations_cons, apply_mutations_app, apply_mutations_cons. cbn [apply_mutation].
  rewrite (gap_off_usage _ rest) by done. unfold rollup_key at 1. rewrite gap_set_rollup. fold (rollup_key r c).
  rewrite (gap_off_usage _ pre), gap_set_request, Hr by done. cbn [from_option].
  assert (entry_at (apply_mutations n pre (<[paidFallbackRequestV3Key kid id := (VRequest r', n)]> m)) (rollup_key r c)
    = entry_at m (rollup_key r c)) as ->.
  { unfold entry_at. rewrite apply_mutations_other; [by rewrite lookup_insert_ne by done|].
    eapply Forall_impl; [exact Hpre|]. intros mu [_ Hk] E. by rewrite E, rollup_in_prefix in Hk. }
  unfold mergeable in Hm. rewrite Hm. unfold rollup_value.
  destruct (as_rollup_row _) as [r0|]; cbn; lia.
Qed.

Lemma off_usage_pending kid id : off_usage (paidFallbackPendingV3Key kid id).
Proof. done. Qed.
Lemma off_usage_gate : off_usage gate_key.
Proof. done. Qed.
Lemma off_usage_window kid reset : off_usage (paidFallbackWindowV3Key kid reset).
Proof. done. Qed.
Lemma off_usage_stats d : off_usage (paidFallbackLedgerStatsDayKey d).
Proof. done. Qed.
Lemma off_usage_lease kid : off_usage (paidFallbackReconciliationLeaseV3Key kid).
Proof. done. Qed.
#[export] Hint Resolve off_usage_pending off_usage_gate off_usage_window off_usage_stats off_usage_lease
  Forall_nil_2 Forall_cons_2 : gateway.

(** A request row rewritten without a rollup. *)
Lemma gap_row n m kid id r' e rest :
  from_option counted 0 (row_at m kid id) = counted r' -> Forall (fun mu => off_usage (mutation_key mu)) rest ->
  usage_gap (apply_mutations n (MSet (paidFallbackRequestV3Key kid id) (VRequest r') e :: rest) m) = usage_gap m.
Proof.
  intros Hc Hrest. rewrite apply_mutations_cons. cbn [apply_mutation].
  rewrite gap_off_usage, gap_set_request, Hc by done. lia.
Qed.

Lemma counted_open r : billable r = true -> counted r = 0.
Proof.
  unfold counted, paidFallbackBackfillRollupEligibleV3, billable. by destruct (rq_billing_state r).
Qed.
Lemma counted_not_billed r : rq_billing_state r = BNotBilled -> counted r = 0.
Proof. unfold counted, paidFallbackBackfillRollupEligibleV3. by intros ->. Qed.

Lemma lifecycle_counted current patch now plan :
  planPaidFallbackLifecycleV3 current patch now = Some plan -> counted (lp_request plan) = counted current.
Proof.
  unfold planPaidFallbackLifecycleV3. generalize (resolveRequestLifecyclePatchV3 current patch now). intros resolved.
  destruct (requestLifecycleChangedV3 _ _); [|done]. intros [= <-]. cbn [lp_request].
  unfold buildRequestLifecycleRowV3. by destruct (rs_provider resolved).
Qed.

Section conserve.
Context {S : Type} `{Kv : !PaidStore S}.
Context (clock : nat -> Z) (available : bool) (bytes : PaidValue -> Z).
Local Notation at_ s k := (entry_at (kv_map s) k).

(** A call, run alone, that leaves the gap as it is. *)
Definition conserves {A} (m : KvM S A) (s : S) : Prop :=
  triple m s (fun _ s' => usage_gap (kv_map s') = usage_gap (kv_map s)).

Lemma conserves_commit cs ms s :
  (forall n, usage_gap (apply_mutations n ms (kv_map s)) = usage_gap (kv_map s)) -> conserves (commit quiet cs ms) s.
Proof.
  intros H. apply (triple_commit (rely := eq)); [|by intros s1 ->]. intros s1 s2 <- Hc.
  destruct (kv_commit_ok _ _ _ _ Hc) as (_ & _ & ->). apply H.
Qed.

Lemma conserves_ret {A} (a : A) s : conserves (kv_ret a) s.
Proof. by apply triple_ret. Qed.

(** A failed commit leaves the store alone: the next attempt starts on it. *)
Lemma conserves_try {A} cs ms s (k1 k2 : KvM S A) :
  (forall n, usage_gap (apply_mutations n ms (kv_map s)) = usage_gap (kv_map s)) ->
  (forall s', conserves k1 s') -> conserves k2 s ->
  conserves (kv_bind (commit quiet cs ms) (fun ok : bool => if ok then k1 else k2)) s.
Proof.
  intros H H1 H2. apply triple_bind, (triple_commit (rely := eq)); [|by intros s1 <-]. intros s1 s2 <- Hc.
  destruct (kv_commit_ok _ _ _ _ Hc) as (_ & _ & Hm). eapply triple_mono; [apply H1|].
  intros r s3 ->. rewrite Hm. apply H.
Qed.

Lemma conserves_get {A} k s (f : PaidEntry -> KvM S A) :
  conserves (f (at_ s k)) s -> conserves (kv_bind (get quiet k) f) s.
Proof. intros H. apply triple_bind, (triple_get (rely := eq)). by intros s1 <-. Qed.

Lemma conserves_now {A} s (f : Z -> KvM S A) :
  (forall z, conserves (f z) s) -> conserves (kv_bind (date_now clock) f) s.
Proof. intros H. apply triple_bind, triple_now. done. Qed.

(** A read that may be skipped. *)
Lemma conserves_maybe_get {A} (b : bool) k s (f : option PaidEntry -> KvM S A) :
  (forall e, conserves (f e) s) ->
  conserves (kv_bind (if b then kv_bind (get quiet k) (fun e => kv_ret (Some e)) else kv_ret None) f) s.
Proof.
  intros H. apply triple_bind. destruct b; [|by apply triple_ret, H].
  apply triple_bind, (triple_get (rely := eq)). intros s1 <-. apply triple_ret, H.
Qed.

Lemma conserves_bind {A B} (m : KvM S A) (f : A -> KvM S B) s :
  conserves m s -> (forall a s', usage_gap (kv_map s') = usage_gap (kv_map s) -> conserves (f a) s') ->
  conserves (kv_bind m f) s.
Proof.
  intros Hm Hf. apply triple_bind. eapply triple_mono; [exact Hm|]. intros [e|a] s1 H1; [done|].
  eapply triple_mono; [by apply Hf|]. cbn. intros r s2 ->. done.
Qed.

Lemma conserves_stats tries day nowMs merge s : conserves (stats_loop quiet tries day nowMs merge) s.
Proof.
  revert s. induction tries as [|tries IH]; intros s; cbn [stats_loop]; [apply conserves_ret|].
  apply conserves_get, conserves_try; [|intros; apply conserves_ret|apply IH].
  intros n. apply gap_off_usage. auto with gateway.
Qed.

Lemma conserves_growth row rollup nowMs s : conserves (recordSettlementGrowthV3 quiet bytes row rollup nowMs) s.
Proof.
  unfold recordSettlementGrowthV3, recordPaidFallbackLedgerSettlementStats.
  apply conserves_bind; [|intros; apply conserves_ret]. destruct (_ || _); [apply conserves_ret|].
  apply triple_catch. eapply triple_mono; [apply conserves_bind; [apply conserves_stats|intros; apply conserves_ret]|].
  intros [e|a] s1 H1; [by apply triple_ret|done].
Qed.

Lemma conserves_update tries kid id patch s :
  conserves (update_loop quiet clock tries (paidFallbackRequestV3Key kid id) patch) s.
Proof.
  revert s. induction tries as [|tries IH]; intros s; cbn [update_loop]; [by apply triple_throw|].
  apply conserves_get. destruct (as_request_row _) as [current|] eqn:Hr; [|apply conserves_ret].
  apply conserves_now. intros nowMs.
  destruct (planPaidFallbackLifecycleV3 current patch nowMs) as [plan|] eqn:Hp; [|apply conserves_ret].
  unfold loadLifecycleGateEntryV3. apply conserves_maybe_get. intros ge.
  apply conserves_try; [|intros; apply conserves_ret|apply IH]. intros n. apply gap_row.
  - unfold row_at. rewrite Hr. symmetry. by eapply lifecycle_counted.
  - destruct ge as [g|]; cbn [snd app]; [|auto with gateway]. case_match; auto with gateway.
Qed.

Lemma conserves_release tries res allow s : conserves (release_loop quiet clock tries res allow) s.
Proof.
  revert s. induction tries as [|tries IH]; intros s; cbn [release_loop]; [by apply triple_throw|].
  do 3 apply conserves_get. apply conserves_now. intros nowMs.
  match goal with |- context [planPaidFallbackReleaseV3 ?sn ?a ?t] =>
    destruct (planPaidFallbackReleaseV3 sn a t) as [plan|] eqn:Hp end; [|apply conserves_ret].
  apply release_row in Hp as (r & Hr & Hpend & _ & _ & _ & _ & Hnb & _). cbn [rl_request row_value paid_row] in Hr.
  apply conserves_try; [|intros; apply conserves_ret|apply IH]. intros n. cbn [app]. apply gap_row.
  - unfold row_at. rewrite Hr. cbn. rewrite (counted_not_billed (rp_request plan)) by done. apply counted_open.
    unfold billable. by rewrite Hpend.
  - destruct (rp_window plan); cbn [snd]; auto with gateway.
Qed.

Lemma conserves_clear_marker kid id pe ge nowMs s :
  conserves (clear_marker quiet (paidFallbackPendingV3Key kid id) pe ge nowMs) s.
Proof. apply conserves_commit. intros n. apply gap_off_usage. auto with gateway. Qed.

Lemma conserves_defer tries kid id nowMs s : conserves (defer_loop quiet tries kid id nowMs) s.
Proof.
  revert s. induction tries as [|tries IH]; intros s; cbn [defer_loop]; [by apply triple_throw|].
  do 2 apply conserves_get.
  destruct (planPaidFallbackDeferralV3 _ _ _) as [| |r' p' delay ttl] eqn:Hp; [apply conserves_ret|..].
  - apply conserves_get, conserves_bind; [apply conserves_clear_marker|].
    intros [] s' _; [apply conserves_ret|apply IH].
  - apply deferral_row in Hp as (r & Hr & _ & Hb & Hb' & _).
    apply conserves_try; [|intros; apply conserves_ret|apply IH]. intros n. apply gap_row; [|auto with gateway].
    unfold row_at. rewrite Hr. cbn. by rewrite !counted_open.
Qed.

(** A settled row counts its spend exactly when it folds into a rollup. *)
Lemma settled_counted r log spend d now c existing :
  let fold := snd (paidFallbackSettlementRollupV3 r log spend c existing now) in
  fold = negb (empty (trim (rq_model r)))
  /\ (fold = true -> counted (buildSettledRequestRowV3 r log spend d fold now) = spend)
  /\ (fold = false -> counted (buildSettledRequestRowV3 r log spend d fold now) = 0).
Proof using.
  assert (snd (paidFallbackSettlementRollupV3 r log spend c existing now) = negb (empty (trim (rq_model r)))) as Hf.
  { cbn. destruct (rq_provider r) as [[]|], c; cbn; by rewrite andb_true_r. }
  intros fold. subst fold. rewrite Hf. split; [done|].
  unfold counted, paidFallbackBackfillRollupEligibleV3, buildSettledRequestRowV3.
  destruct (empty (trim (rq_model r))) eqn:E; cbn -[trim]; rewrite E; split; done.
Qed.

(** Every rollup the code would merge into is absent or valid. *)
Definition rollups_valid (s : S) : Prop :=
  forall b model provider shard, mergeable (kv_map s) (paidFallbackUsageRollupKey b model provider shard).

Lemma conserves_settle tries kid id log nowMs c cost s :
  rollups_valid s -> conserves (settle_loop quiet bytes tries kid id log nowMs c cost) s.
Proof.
  revert s. induction tries as [|tries IH]; intros s Hv; cbn [settle_loop]; [by apply triple_throw|].
  do 3 apply conserves_get.
  destruct (evaluatePaidFallbackSettlementV3 _ _ _ _) as [| | |spend] eqn:Ev.
  - unfold clearStalePendingMarkerV3. destruct (as_pending_row _); [|apply triple_bind, triple_ret, conserves_ret].
    unfold clear_marker. apply conserves_try; [|intros; apply conserves_ret|by apply IH].
    intros n. apply gap_off_usage. auto with gateway.
  - apply conserves_ret.
  - destruct (as_request_row _); [|apply conserves_ret]. apply conserves_bind; [apply conserves_defer|].
    intros. apply conserves_ret.
  - apply evaluate_settle in Ev as (r & Hr & Hb & _). rewrite Hr. apply conserves_get.
    unfold prepareSettlementRollupV3. apply triple_bind, triple_bind, (triple_get (rely := eq)). intros s1 <-.
    apply triple_ret. cbn [sr_foldIntoRollup sr_rollupEntry]. apply triple_bind, triple_lift.
    unfold planPaidFallbackSettlementRowsV3 at 1. cbn [ss_request row_value paid_row]. rewrite Hr.
    cbn [or_throw mbind result_bind]. unfold commitPaidFallbackSettlementV3.
    apply conserves_try; [|intros; apply conserves_bind; [apply conserves_growth|intros; apply conserves_ret]|by apply IH].
    intros n. cbn [sr_foldIntoRollup sr_rollupKey sr_nextRollup rp_request]. fold (rollup_key r c).
    match goal with |- context [MSet gate_key ?g None] => generalize g end. intros gate.
    match goal with |- context [buildSettledRequestRowV3 r log spend ?d (snd (paidFallbackSettlementRollupV3
      r log spend c ?ex nowMs)) nowMs] => pose proof (settled_counted r log spend d nowMs c ex) as (_ & Ht & Hf);
      revert Ht Hf; destruct (snd (paidFallbackSettlementRollupV3 r log spend c ex nowMs)) end;
      intros Ht Hf; cbn [app snd].
    + eapply (gap_fold n (kv_map s) kid id r _ c _ _ _ _ _ [_]);
        [exact Hr|apply Hv|reflexivity|rewrite Ht, (counted_open r) by done; reflexivity| |auto with gateway].
      match goal with |- context [rp_window ?p] => destruct (rp_window p) end; cbn [snd]; auto with gateway.
    + apply gap_row; [unfold row_at; rewrite Hr; cbn [from_option]; by rewrite Hf, counted_open|].
      match goal with |- context [rp_window ?p] => destruct (rp_window p) end; cbn [snd]; auto with gateway.
Qed.

Lemma conserves_rollup tries b model provider shard input s :
  rollups_valid s -> ri_spend_microcredits input = 0 ->
  conserves (rollup_loop quiet tries (paidFallbackUsageRollupKey b model provider shard) input) s.
Proof.
  intros Hv Hspend. revert s Hv. induction tries as [|tries IH]; intros s Hv; cbn [rollup_loop]; [apply conserves_ret|].
  apply conserves_get, conserves_try; [|intros; apply conserves_ret|by apply IH]. intros n.
  cbn [apply_mutations foldl apply_mutation]. rewrite gap_set_rollup. specialize (Hv b model provider shard).
  unfold mergeable in Hv. rewrite Hv. unfold rollup_value. cbn. rewrite Hspend.
  destruct (as_rollup_row _); cbn; lia.
Qed.

Lemma fold_plan_eligible r existing now :
  paidFallbackBackfillRollupEligibleV3 r = true ->
  exists input, planPaidFallbackBackfillFoldV3 r existing now
    = (r <| rq_updated_at_ms := now |> <| rq_usage_rollup_at_ms := Some now |>, requestRowExpireIn r now,
       Some (mergePaidFallbackUsageRollup existing input))
    /\ rq_spend_microcredits r = Some (ri_spend_microcredits input).
Proof using.
  unfold paidFallbackBackfillRollupEligibleV3, planPaidFallbackBackfillFoldV3. intros H. inv_ok.
  destruct (rq_billing_state r); try done.
  destruct (rq_provider_quota r) as [quota|] eqn:Hq; [|by match goal with H : is_Some None |- _ => destruct H end].
  destruct (rq_spend_microcredits r) as [spend|] eqn:Hs; [|by match goal with H : is_Some None |- _ => destruct H end].
  cbn [id_model paidFallbackRequestRollupIdentity].
  match goal with H : empty _ = false |- _ => rewrite H end. eexists. split; [reflexivity|done].
Qed.

Lemma fold_plan_other r existing now :
  paidFallbackBackfillRollupEligibleV3 r = false ->
  planPaidFallbackBackfillFoldV3 r existing now
    = (r <| rq_updated_at_ms := now |> <| rq_usage_rollup_at_ms := Some now |>, requestRowExpireIn r now, None).
Proof using.
  unfold paidFallbackBackfillRollupEligibleV3, planPaidFallbackBackfillFoldV3. intros H.
  destruct (rq_billing_state r); try done. destruct (rq_provider_quota r); [|done].
  destruct (rq_spend_microcredits r); [|done]. cbn -[trim] in H |- *.
  destruct (empty _); [done|]. cbn in H. discriminate H.
Qed.

Lemma conserves_backfill kid id progress nowMs s :
  rollups_valid s -> conserves (advanceBackfillSweepV3 quiet (paidFallbackRequestV3Key kid id) progress nowMs) s.
Proof.
  intros Hv. unfold advanceBackfillSweepV3. apply conserves_get.
  destruct (as_request_row _) as [r|] eqn:Hr; cbn [paidFallbackRequestBackfillStateV3]; [|apply conserves_ret].
  destruct (rq_usage_rollup_at_ms r) eqn:Hmark.
  - apply conserves_bind; [|intros; apply conserves_ret]. unfold rewriteMarkedRequestRowTtlV3.
    apply triple_catch. eapply triple_mono; [apply conserves_commit|].
    + intros n. apply gap_row; [|auto with gateway]. unfold row_at. by rewrite Hr.
    + intros [e|a] s1 H1; [by apply triple_ret|done].
  - case_match; [apply conserves_ret|]. apply conserves_bind; [|intros; apply conserves_ret].
    assert (counted r = 0) as H0 by (unfold counted; rewrite Hmark; cbn; by rewrite andb_false_r).
    unfold foldRequestRowIntoRollupV3. fold (rollup_key r CProviderRequestId).
    destruct (paidFallbackBackfillRollupEligibleV3 r) eqn:He.
    + apply triple_bind, triple_bind, (triple_get (rely := eq)). intros s1 <-. apply triple_ret. cbn [mbind option_bind].
      destruct (fold_plan_eligible r (valid_rollup (as_rollup_row (entry_value
        (at_ s (rollup_key r CProviderRequestId))))) nowMs He) as (input & -> & Hs).
      eapply triple_bind, triple_mono; [apply conserves_commit|intros [e|a] s1 H1; [done|by apply triple_ret]].
      intros n. cbn [app snd]. eapply (gap_fold n (kv_map s) kid id r _ CProviderRequestId _ _ _ _ _ []);
        [exact Hr|apply Hv|reflexivity| |auto with gateway..].
      rewrite H0. unfold counted, paidFallbackBackfillRollupEligibleV3 in *. cbn -[trim]. by rewrite He, Hs.
    + apply triple_bind, triple_ret. rewrite (fold_plan_other r _ nowMs He).
      eapply triple_bind, triple_mono; [apply conserves_commit|intros [e|a] s1 H1; [done|by apply triple_ret]].
      intros n. cbn [app snd]. apply gap_row; [|auto with gateway]. unfold row_at. rewrite Hr. cbn [from_option].
      rewrite H0. unfold counted, paidFallbackBackfillRollupEligibleV3 in *. cbn -[trim]. by rewrite He.
Qed.

(** A write is decided only for a request that is not on the ledger. *)
Lemma decide_conserves input is_unlimited exposure s :
  triple (decidePaidFallbackAdmissionV3 quiet clock input is_unlimited exposure) s (fun r s' =>
    usage_gap (kv_map s') = usage_gap (kv_map s) /\
    match r with
    | Ok (Some (DecideWrite cx)) => s' = s /\ counted (aw_request (cx_plan cx)) = 0
        /\ row_at (kv_map s) (in_keyId (ai_input input)) (in_requestId (ai_input input)) = None
    | Ok None => s' = s
    | _ => True
    end).
Proof.
  unfold decidePaidFallbackAdmissionV3. apply triple_bind, (triple_get (rely := eq)). intros s1 <-.
  apply triple_bind. eapply (triple_mono _ _ (fun r s2 => s2 = s /\ exists e, r = Ok e)).
  { destruct is_unlimited; [apply triple_ret; eauto|]. apply (triple_get (rely := eq)). intros s1 <-. eauto. }
  intros r0 s2 [-> [we ->]]. apply triple_bind, (triple_get (rely := eq)). intros s3 <-.
  apply triple_bind, triple_now. intros nowMs.
  destruct (planPaidFallbackAdmissionV3 _ _ _ _) as [reason|res|w ttl checks|plan] eqn:Hp.
  - by apply triple_ret.
  - by apply triple_ret.
  - apply triple_bind. unfold commitExhaustedPolicyTransitionV3.
    apply (triple_commit (rely := eq)); [intros s4 s5 <- Hc|intros s4 <-]; apply triple_ret; [|done].
    split; [|done]. destruct (kv_commit_ok _ _ _ _ Hc) as (_ & _ & ->). apply gap_off_usage. auto with gateway.
  - apply triple_ret. split; [done|]. apply admission_write in Hp as (x & Hnone & _ & Hrow & _).
    split; [done|]. cbn [cx_plan]. by rewrite Hrow.
Qed.

Lemma conserves_admit_loop tries input is_unlimited s :
  conserves (admit_loop quiet clock tries input is_unlimited) s.
Proof.
  revert s. induction tries as [|tries IH]; intros s; cbn [admit_loop]; [apply conserves_ret|].
  apply triple_bind. eapply triple_mono; [apply decide_conserves|].
  intros [m|[[res|reason|cx]|]] s1 [Hgap Hcx]; [done|by apply triple_ret|by apply triple_ret| |subst; apply IH].
  destruct Hcx as (-> & Hcount & Habs).
  apply conserves_bind; [|intros [res|] s' _; [apply conserves_ret|apply IH]].
  unfold writePaidFallbackAdmissionV3. apply conserves_maybe_get. intros ge. unfold commitPaidFallbackAdmissionV3.
  apply conserves_bind; [|intros; apply conserves_ret]. apply conserves_commit. intros n. cbn [app].
  apply gap_row; [by rewrite Habs|]. apply Forall_cons_2; [auto with gateway|]. apply Forall_app.
  split; [destruct ge|destruct (aw_window (cx_plan cx))]; cbn [snd]; auto with gateway.
Qed.

Lemma conserves_ignore {A} (m : KvM S A) s : conserves m s -> conserves (ignore m) s.
Proof. intros H. apply conserves_bind; [done|]. intros. apply conserves_ret. Qed.

Lemma conserves_expedite tries kid id nowMs s :
  conserves (expedite_loop quiet tries (paidFallbackPendingV3Key kid id) nowMs) s.
Proof.
  revert s. induction tries as [|tries IH]; intros s; cbn [expedite_loop]; [by apply triple_throw|].
  do 2 apply conserves_get. destruct (as_pending_row _) as [p|]; [|apply conserves_ret].
  destruct (_ && _); [apply conserves_ret|]. apply conserves_try; [|intros; apply conserves_ret|apply IH].
  intros n. apply gap_off_usage. case_match; cbn [app]; auto with gateway.
Qed.

Lemma conserves_lease tries token kid nowMs s : conserves (acquire_lease_loop quiet tries token kid nowMs) s.
Proof.
  revert s. induction tries as [|tries IH]; intros s; cbn [acquire_lease_loop]; [apply conserves_ret|].
  apply conserves_get. case_match; [apply conserves_ret|].
  apply conserves_try; [|intros; apply conserves_ret|apply IH]. intros n. apply gap_off_usage. auto with gateway.
Qed.

Lemma conserves_recompute tries s : conserves (recompute_loop quiet tries) s.
Proof.
  revert s. induction tries as [|tries IH]; intros s; cbn [recompute_loop]; [by apply triple_throw|].
  apply conserves_get. unfold scanPaidFallbackPendingMarkers.
  apply triple_bind, triple_bind, (triple_list (rely := eq)). intros s1 <-. apply triple_ret.
  apply conserves_try; [|intros; apply conserves_ret|apply IH]. intros n. apply gap_off_usage. auto with gateway.
Qed.

Lemma conserves_call call s :
  rollups_valid s -> conserves (run_call quiet clock available bytes call) s.
Proof.
  intros Hv. destruct call; cbn [run_call].
  - apply conserves_ignore. unfold admitPaidFallbackV3. destruct available; cbn [negb]; [|apply conserves_ret].
    case_match; [apply conserves_ret|apply conserves_admit_loop].
  - unfold updatePaidFallbackRequestV3. destruct available; cbn [negb]; [apply conserves_update|apply conserves_ret].
  - unfold releasePaidFallbackBeforeDispatchV3.
    destruct available; cbn [negb]; [apply conserves_release|apply conserves_ret].
  - by apply conserves_ignore, conserves_settle.
  - apply conserves_ignore. unfold settlePaidFallbackUsageV3. destruct available; cbn [negb]; [|apply conserves_ret].
    apply conserves_now. intros nowMs. apply conserves_bind; [by apply conserves_settle|intros; apply conserves_ret].
  - apply conserves_ignore, conserves_defer.
  - unfold _expeditePaidFallbackReconciliationV3.
    destruct available; cbn [negb]; [apply conserves_expedite|apply conserves_ret].
  - apply conserves_ignore, conserves_lease.
  - unfold releaseReconciliationLease. apply conserves_get. case_match; [apply conserves_ret|].
    apply conserves_bind; [|intros; apply conserves_ret]. apply conserves_commit. intros n.
    apply gap_off_usage. auto with gateway.
  - apply conserves_ignore, conserves_recompute.
  - apply conserves_ignore. unfold recordTerminalUsageRollup. destruct (paidFallbackTerminalUsageV3 _); [|apply conserves_ret].
    destruct available; cbn [negb]; [|apply conserves_ret]. apply conserves_now. intros nowMs.
    by apply conserves_rollup.
  - by apply conserves_ignore, conserves_backfill.
Qed.

(** C34: usage is counted exactly once.  Run alone on a store whose rollups
    are valid, every ledger call leaves the difference between the spend the
    rollups hold and the spend of the requests marked as counted unchanged:
    a settlement or a backfill that counts a request adds exactly its spend,
    a request already marked adds nothing, and no other call counts. *)
Theorem usage_counted_once call n s r n' s' :
  rollups_valid s -> run_call quiet clock available bytes call (n, s) = (r, (n', s')) ->
  rollup_total (kv_map s') - counted_total (kv_map s') = rollup_total (kv_map s) - counted_total (kv_map s).
Proof. intros Hv E. exact (triple_run _ _ _ _ _ _ _ (conserves_call call s Hv) E). Qed.
End conserve.

(** A terminal observation never counts what the ledger settles.  It names
    a provider the ledger does not settle, carries only observed (safe,
    non-negative) token counts, no quota and no spend, and goes to a rollup
    that no settlement and no backfill ever writes. *)
Theorem terminal_usage_disjoint input u requestId now request c :
  paidFallbackTerminalUsageV3 input = Some u ->
  let t := paidFallbackTerminalRollupV3 input u requestId now in
  (tu_provider u <> "metered" /\ tu_provider u <> "surplus" /\ tu_provider u <> "gateway" /\ tu_provider u <> "mixed")
  /\ (0 <= tu_inputTokens u <= MAX_SAFE_INTEGER /\ 0 <= tu_outputTokens u <= MAX_SAFE_INTEGER)
  /\ ri_spend_microcredits t = 0 /\ ri_quota t = num_of_Z 0
  /\ paidFallbackUsageRollupKey (ri_bucket_start_at_ms t) (tu_model u) (tu_provider u)
       (paidFallbackUsageRollupShard requestId) <> rollup_key request c.
Proof.
  unfold paidFallbackTerminalUsageV3. destruct (_ || _) eqn:E; [done|]. cbn -[trim].
  destruct (observedTokenCount (ti_input_tokens input)) as [a|] eqn:Ea; [|done].
  destruct (observedTokenCount (ti_output_tokens input)) as [b|] eqn:Eb; [|done]. intros [= <-]. inv_ok. cbn -[trim].
  assert (forall o z, observedTokenCount o = Some z -> 0 <= z <= MAX_SAFE_INTEGER) as Hobs.
  { intros [n|] z Hz; [|done]. cbn in Hz. apply safe_at_least_range in Hz as [Hs ?].
    apply isSafeInteger_spec in Hs. lia. }
  match goal with H : _ ∉ PAID_FALLBACK_SETTLED_PROVIDERS |- _ =>
    unfold PAID_FALLBACK_SETTLED_PROVIDERS in H; rewrite !not_elem_of_cons in H; destruct H as (Hm & Hs & _) end.
  split_and!; try done; try (by eapply Hobs).
  all: try (apply (Hobs _ _ Ea)); try (apply (Hobs _ _ Eb)).
  unfold rollup_key, paidFallbackUsageRollupKey. cbn -[trim]. intros [= _ _ Hp _].
  destruct (rq_provider request) as [[]|], c; cbn in Hp; congruence.
Qed.

(** ** Deletion *)

Section deletion.
Context {S : Type} `{Kv : !PaidStore S}.
Local Notation at_ s k := (entry_at (kv_map s) k).

Lemma deletes_lookup n ks (m : PaidMap) k :
  apply_mutations n (MDelete <$> ks) m !! k = if bool_decide (k ∈ ks) then None else m !! k.
Proof.
  revert m. induction ks as [|k0 ks IH]; intros m; [done|].
  rewrite fmap_cons, apply_mutations_cons, IH. cbn [apply_mutation].
  destruct (decide (k = k0)) as [->|Hne].
  - rewrite lookup_delete_eq, (bool_decide_true (k0 ∈ k0 :: ks)) by (by left). by case_bool_decide.
  - rewrite lookup_delete_ne by done. apply (f_equal (fun b : bool => if b then None else m !! k)).
    apply bool_decide_ext. rewrite elem_of_cons. naive_solver.
Qed.

Lemma triple_delete_batches fuel keys s :
  (length keys <= fuel)%nat ->
  triple (delete_batches quiet fuel keys) s (fun r s' => r = Ok tt /\
    forall k, kv_map s' !! k = if bool_decide (k ∈ keys) then None else kv_map s !! k).
Proof.
  revert keys s. induction fuel as [|fuel IH]; intros [|k0 keys] s Hlen; cbn [delete_batches];
    try (apply triple_ret; split; [done|]; intros k; by rewrite bool_decide_false by apply not_elem_of_nil).
  { cbn in Hlen. lia. }
  apply triple_bind, triple_commit_quiet; [done|]. intros s1 Hc.
  destruct (kv_commit_ok _ _ _ _ Hc) as (_ & _ & Hm).
  eapply triple_mono; [apply IH; rewrite length_drop; cbn in Hlen |- *; lia|]. intros r s2 [-> H2]. split; [done|].
  intros k. rewrite H2, Hm, deletes_lookup.
  assert (k ∈ k0 :: keys <-> k ∈ take 100 (k0 :: keys) \/ k ∈ drop 100 (k0 :: keys)) as Hiff
    by (by rewrite <- elem_of_app, take_drop).
  revert Hiff. generalize (take 100 (k0 :: keys)), (drop 100 (k0 :: keys)). intros l1 l2 Hiff.
  repeat case_bool_decide; naive_solver.
Qed.

Lemma triple_guard_loop clock tries kid s :
  triple (guard_loop quiet clock (Datatypes.S tries) (paidFallbackDeletionGuardV3Key kid)) s (fun r s' => r = Ok tt
    /\ (forall k, k <> paidFallbackDeletionGuardV3Key kid -> kv_map s' !! k = kv_map s !! k)
    /\ is_Some (as_guard_row (entry_value (at_ s' (paidFallbackDeletionGuardV3Key kid))))).
Proof.
  cbn [guard_loop]. apply triple_bind, (triple_get (rely := eq)). intros s1 <-. apply triple_bind, triple_now.
  intros nowMs. destruct (as_guard_row _) as [g|] eqn:Hg; cbn [planPaidFallbackDeletionGuardV3].
  - apply triple_ret. rewrite Hg. eauto.
  - apply triple_bind, triple_commit_quiet.
    { apply checks_current, Forall_singleton. by eexists. }
    intros s1 Hc. destruct (kv_commit_ok _ _ _ _ Hc) as (_ & _ & Hm). apply triple_ret. split; [done|].
    rewrite Hm. cbn [apply_mutations foldl apply_mutation]. split.
    + intros k Hk. by rewrite lookup_insert_ne.
    + unfold entry_at. rewrite lookup_insert_eq. by eexists.
Qed.

Lemma pending_prefix kid id :
  has_prefix (paidFallbackPendingV3Prefix kid) (paidFallbackPendingV3Key kid id) = true.
Proof using.
  unfold paidFallbackPendingV3Prefix, paidFallbackPendingV3Key, PREFIX. cbn [app has_prefix].
  by rewrite !bool_decide_true.
Qed.

Lemma listed_keys s p k :
  k ∈ (entry_key <$> kv_list s p) <-> has_prefix p k = true /\ is_Some (kv_map s !! k).
Proof.
  rewrite list_elem_of_fmap. setoid_rewrite (kv_list_spec s p). unfold entries_under.
  setoid_rewrite list_elem_of_fmap. setoid_rewrite list_elem_of_filter. split.
  - intros (e & -> & [k0 [v z]] & -> & Hp & Hin). apply elem_of_map_to_list in Hin. cbn in *. eauto.
  - intros [Hp [[v z] Hk]]. exists (mkEntry k v (Some z)). split; [done|]. exists (k, (v, z)).
    split; [done|]. split; [done|]. by apply elem_of_map_to_list.
Qed.

Lemma listed_entry s p k v z : has_prefix p k = true -> kv_map s !! k = Some (v, z) ->
  mkEntry k v (Some z) ∈ kv_list s p.
Proof.
  intros Hp Hk. rewrite (kv_list_spec s p). unfold entries_under. apply list_elem_of_fmap.
  exists (k, (v, z)). split; [done|]. apply list_elem_of_filter. split; [done|]. by apply elem_of_map_to_list.
Qed.

(** Nothing outstanding: no billable request and no marker. *)
Lemma not_outstanding requests markers :
  has_outstanding (outstanding_of requests markers) = false ->
  markers = [] /\ forall e r, e ∈ requests -> as_request_row (entry_value e) = Some r -> billable r = false.
Proof using.
  cbn. intros H. apply orb_false_iff in H as [H H3]. apply orb_false_iff in H as [H1 H2]. split.
  - apply Z.ltb_ge in H3. destruct markers; [done|]. cbn [length] in H3. exfalso. lia.
  - intros e r He Hr.
    assert (forall b (l : list PaidEntry), (0 <? Z.of_nat (length l)) = false ->
      (rq_billing_state r = b -> e ∈ l) -> rq_billing_state r <> b) as Hb.
    { intros b l H Hin Hrb. apply Z.ltb_ge in H. specialize (Hin Hrb).
      destruct l; [by apply not_elem_of_nil in Hin|]. cbn [length] in H. lia. }
    apply (Hb BPending) in H1; [apply (Hb BUnresolved) in H2|];
      [unfold billable; by destruct (rq_billing_state r)|..];
      intros Hrb; apply list_elem_of_filter; rewrite Hr; cbn; by rewrite Hrb.
Qed.

(** The keys a deletion removes. *)
Definition owned (kid : string) (k : KvKey) : bool :=
  has_prefix (paidFallbackRequestV3Prefix kid) k || has_prefix (paidFallbackWindowV3Prefix kid) k
  || has_prefix (paidFallbackPendingV3Prefix kid) k.

(** What the outcome of a deletion says of the stores before and after. *)
Definition deletion_outcome (kid : string) (s : S) (r : Result string PaidFallbackDeletionV3) (s' : S) : Prop :=
  is_Some (as_guard_row (entry_value (at_ s' (paidFallbackDeletionGuardV3Key kid))))
  /\ match r with
     | Ok (PaidDeleted _ _ _ _) =>
         (forall id q, row_at (kv_map s) kid id = Some q -> billable q = false)
         /\ (forall id, pending_at (kv_map s) kid id = None)
         /\ (forall k, owned kid k = true -> kv_map s' !! k = None)
         /\ (forall k, owned kid k = false -> k <> paidFallbackDeletionGuardV3Key kid ->
               k <> paidFallbackReconciliationLeaseV3Key kid -> kv_map s' !! k = kv_map s !! k)
     | Ok (PaidDeletionBlocked o) => has_outstanding o = true
         /\ forall k, k <> paidFallbackDeletionGuardV3Key kid -> kv_map s' !! k = kv_map s !! k
     | _ => False
     end.

Lemma owned_deleted kid leases s k :
  (forall k0, k0 ∈ leases -> k0 = paidFallbackReconciliationLeaseV3Key kid) ->
  let keys := ((entry_key <$> kv_list s (paidFallbackRequestV3Prefix kid))
    ++ (entry_key <$> kv_list s (paidFallbackWindowV3Prefix kid))
    ++ (entry_key <$> kv_list s (paidFallbackPendingV3Prefix kid)) ++ leases)%list in
  (owned kid k = true -> (if bool_decide (k ∈ keys) then None else kv_map s !! k) = None)
  /\ (owned kid k = false -> k <> paidFallbackReconciliationLeaseV3Key kid ->
      (if bool_decide (k ∈ keys) then None else kv_map s !! k) = kv_map s !! k).
Proof using.
  intros Hl keys. unfold owned. rewrite !orb_true_iff, !orb_false_iff. case_bool_decide as Hin.
  - split; [done|]. intros [[H1 H2] H3] Hne. unfold keys in Hin. rewrite !elem_of_app, !listed_keys in Hin.
    destruct Hin as [[? _]|[[? _]|[[? _]|Hin]]]; try congruence. by apply Hl in Hin.
  - split; [|done]. intros Hown. destruct (kv_map s !! k) eqn:E; [|done]. destruct Hin. unfold keys.
    rewrite !elem_of_app, !listed_keys, E. destruct Hown as [[?|?]|?]; eauto 8.
Qed.

Lemma triple_deletion clock kid s :
  triple (deletePaidFallbackStateV3 quiet clock true kid) s (deletion_outcome kid s).
Proof.
  unfold deletePaidFallbackStateV3. cbn [negb]. apply triple_bind.
  assert (exists tries, MAX_CAS_ATTEMPTS = Datatypes.S tries) as [tries ->] by (by exists 127%nat).
  eapply triple_mono; [apply triple_guard_loop|]. intros r s1 (-> & Hsame & Hguard).
  apply triple_bind. unfold getPaidFallbackOutstandingV3. cbn [negb].
  do 2 (apply triple_bind, (triple_list (rely := eq)); intros ? <-). apply triple_ret.
  cbn [planPaidFallbackDeletionV3].
  destruct (has_outstanding _) eqn:Ho; [by apply triple_ret|]. apply not_outstanding in Ho as [Hmk Hreq].
  do 3 (apply triple_bind, (triple_list (rely := eq)); intros ? <-).
  apply triple_bind, (triple_get (rely := eq)). intros ? <-.
  apply triple_bind. unfold deleteKvKeys. eapply triple_mono; [by apply triple_delete_batches|].
  intros r s2 [-> Hdel]. apply triple_ret.
  match type of Hdel with context [match ?x with Some _ => [?lk] | None => [] end] =>
    set (leases := match x with Some _ => [lk] | None => [] end) in *;
    assert (forall k0, k0 ∈ leases -> k0 = lk) as Hl
      by (unfold leases; destruct x; intros k0 Hk0;
            [by apply list_elem_of_singleton in Hk0|by apply not_elem_of_nil in Hk0]) end.
  pose proof (fun k => owned_deleted kid leases s1 k Hl) as Hown. cbn zeta in Hown.
  split; [|split_and!].
  - unfold entry_at in Hguard |- *. rewrite Hdel. by rewrite (proj2 (Hown _)).
  - intros id q Hq. unfold row_at, entry_at in Hq. rewrite <- Hsame in Hq by done.
    destruct (kv_map s1 !! paidFallbackRequestV3Key kid id) as [[v z]|] eqn:E; [|done]. cbn in Hq.
    eapply (Hreq (mkEntry _ v (Some z))); [|exact Hq]. apply listed_entry; [|done].
    rewrite request_prefix. by apply bool_decide_true.
  - intros id. unfold pending_at, entry_at. rewrite <- Hsame by done.
    destruct (kv_map s1 !! paidFallbackPendingV3Key kid id) as [[v z]|] eqn:E; [|done].
    assert (mkEntry (paidFallbackPendingV3Key kid id) v (Some z) ∈ kv_list s1 (paidFallbackPendingV3Prefix kid))
      as Hin by (apply listed_entry; [apply pending_prefix|done]).
    rewrite Hmk in Hin. by apply not_elem_of_nil in Hin.
  - intros k Hk. rewrite Hdel. by apply Hown.
  - intros k Hk Hg Hls. rewrite Hdel, (proj2 (Hown k)) by done. by apply Hsame.
Qed.

(** The state of a key is deleted only when nothing is outstanding.  The
    deletion first sets the guard that refuses new admissions; it is blocked,
    and leaves everything else alone, while a billable request or a pending
    marker remains; otherwise every request, window and marker of the key is
    gone and every other row (but the key's lease) is untouched. *)
Theorem paid_deletion_safe clock kid n s :
  let '(r, (_, s')) := deletePaidFallbackStateV3 quiet clock true kid (n, s) in deletion_outcome kid s r s'.
Proof. apply triple_deletion. Qed.
End deletion.

(** ** Witnesses *)

Lemma demo_rollups_valid : rollups_valid DemoPaid.s2.
Proof.
  assert (map_Forall (fun k _ => has_prefix PAID_FALLBACK_USAGE_ROLLUP_PREFIX k = false) (kv_map DemoPaid.s2)) as H
    by (refine (bool_decide_unpack (map_Forall _ _) _); vm_compute; exact I).
  intros b model provider shard. unfold mergeable, entry_at.
  destruct (kv_map DemoPaid.s2 !! _) as [x|] eqn:E; [|done]. by apply H in E.
Qed.

Lemma run_measure {A B C} (x : A * (B * C)) (f : C -> Z) a z :
  (fst x, f (snd (snd x))) = (a, z) -> exists b c, x = (a, (b, c)) /\ f c = z.
Proof. destruct x as [? [b c]]; intros [= <- <-]. by exists b, c. Qed.

Lemma demo_settles :
  exists n' s', run_call quiet DemoPaid.clock true DemoPaid.bytes DemoPaid.settle_again (O, DemoPaid.s2)
    = (Ok tt, (n', s')) /\ rollup_total (kv_map s') = 400.
Proof. apply (run_measure _ (fun s => rollup_total (kv_map s))). vm_compute. reflexivity. Qed.

Lemma demo_uncounted : rollup_total (kv_map DemoPaid.s2) = 0 /\ counted_total (kv_map DemoPaid.s2) = 0.
Proof. split; vm_compute; reflexivity. Qed.

Lemma usage_counted_once_witness :
  exists n' s', run_call quiet DemoPaid.clock true DemoPaid.bytes DemoPaid.settle_again (O, DemoPaid.s2)
    = (Ok tt, (n', s')) /\ rollup_total (kv_map s') = 400 /\ counted_total (kv_map s') = 400.
Proof.
  destruct demo_settles as (n' & s' & E & Hr). exists n', s'. split; [exact E|]. split; [exact Hr|].
  pose proof (usage_counted_once DemoPaid.clock true DemoPaid.bytes DemoPaid.settle_again O DemoPaid.s2 (Ok tt) n' s'
    demo_rollups_valid E) as H.
  destruct demo_uncounted as [H1 H2]. rewrite Hr, H1, H2 in H. lia.
Defined.

Lemma terminal_usage_disjoint_witness :
  exists u, paidFallbackTerminalUsageV3 (mkTerminalInput (Some " gpt ") (Some "codex") "r9" None (Some (num_of_Z 120))
      None (Some (num_of_Z 30))) = Some u
    /\ tu_model u = "gpt" /\ tu_provider u <> "metered" /\ 0 <= tu_inputTokens u <= MAX_SAFE_INTEGER.
Proof.
  destruct DemoPaid.settled_row as (q & _). destruct (terminal_usage_disjoint (mkTerminalInput (Some " gpt ") (Some "codex") "r9" None (Some (num_of_Z 120))
    None (Some (num_of_Z 30))) (mkTerminalUsage "gpt" "codex" 120 30) "r9" 10000
    q CProviderRequestId eq_refl) as ((Hp & _) & (Hi & _) & _).
  eexists. split; [reflexivity|]. exact (conj eq_refl (conj Hp Hi)).
Defined.
