(* ===== verification/InferenceAdmission.v ===== *)
(** * Finite in-process admission

    [src/inference-admission.ts]: at most [maxActive] permits, at most
    [maxWaiting] waiters, waiting turns that rotate across principals and serve
    each principal in arrival order.  The closure's variables are a record; a
    request is named by the number of its [acquire] call, its promise is an
    entry of [gt_results], and [gt_held] are the permits whose [release] has not
    run yet. *)

From stdpp Require Import base gmap strings list.
From Stdlib Require Import ZArith QArith Qround Lia.
From S2P Require Import Prelude.
Open Scope string_scope.
Open Scope Z_scope.

(** ** Data *)

Record InferenceAdmissionLimits := mkLimits { maxActive : Z; maxWaiting : Z; maxQueueWaitMs : Z }.

Definition DEFAULT_INFERENCE_ADMISSION_LIMITS : InferenceAdmissionLimits := mkLimits 64 128 5000.

Inductive LocalOverloadCause := QueueLimit | QueueWaitTimeout.

(** [release] of an admitted request is the permit of its own number. *)
Inductive InferenceAdmissionResult :=
| AdmissionOk (waitedMs : Z)
| LocalOverload (cause : LocalOverloadCause) (waitedMs : Z)
| CallerAborted (waitedMs : Z).

(** A principal is a caller identity or [null]. *)
Notation Principal := (option string).

Record Waiter := mkWaiter { wt_id : nat; wt_principal : Principal; wt_queuedAtMs : Q }.

#[export] Instance Waiter_dec_id (n : nat) (w : Waiter) : Decision (wt_id w = n).
Proof. apply _. Defined.

Record Gate := mkGate {
  gt_active : Z;
  gt_waitingCount : Z;
  gt_waitingByPrincipal : gmap Principal (list Waiter);
  gt_turnOrder : list Principal;
  (** Callers whose signal is aborted, settled promises, permits held, and the
      number of the next [acquire]. *)
  gt_aborted : gset nat;
  gt_results : gmap nat InferenceAdmissionResult;
  gt_held : gset nat;
  gt_next : nat }.

#[export] Instance eta_Gate : Eta Gate := fun g =>
  mkGate (gt_active g) (gt_waitingCount g) (gt_waitingByPrincipal g) (gt_turnOrder g) (gt_aborted g)
    (gt_results g) (gt_held g) (gt_next g).

(** The [RangeError]s by their messages. *)
Definition validateLimits (l : InferenceAdmissionLimits) : Result string unit :=
  if negb (isSafeInteger (maxActive l)) || (maxActive l <? 1)
  then Err "Inference admission maxActive must be a positive safe integer." else
  if negb (isSafeInteger (maxWaiting l)) || (maxWaiting l <? 0)
  then Err "Inference admission maxWaiting must be a non-negative safe integer." else
  if negb (isSafeInteger (maxQueueWaitMs l)) || (maxQueueWaitMs l <? 0)
  then Err "Inference admission maxQueueWaitMs must be a non-negative safe integer." else Ok tt.

(** [Math.max(0, Math.round(performance.now() - since))]. *)
Definition elapsedMs (now since : Q) : Z := Z.max 0 (Qfloor (now - since + (1 # 2))).

(** ** Operations *)

Definition is_waiter (w : Waiter) (v : Waiter) : bool := bool_decide (wt_id v = wt_id w).

Definition detachWaiter (w : Waiter) (g : Gate) : Gate :=
  match gt_waitingByPrincipal g !! wt_principal w with
  | None => g
  | Some queue =>
      if negb (existsb (is_waiter w) queue) then g else
      let queue := remove_first (is_waiter w) queue in
      let g := g <| gt_waitingCount := gt_waitingCount g - 1 |> in
      match queue with
      | _ :: _ => g <| gt_waitingByPrincipal := <[wt_principal w := queue]> (gt_waitingByPrincipal g) |>
      | [] => g <| gt_waitingByPrincipal := delete (wt_principal w) (gt_waitingByPrincipal g) |>
                <| gt_turnOrder := remove_first (fun p => bool_decide (p = wt_principal w)) (gt_turnOrder g) |>
      end
  end.

Definition settleWaiter (w : Waiter) (r : InferenceAdmissionResult) (g : Gate) : Gate :=
  match gt_results g !! wt_id w with
  | Some _ => g
  | None => let g := detachWaiter w g in g <| gt_results := <[wt_id w := r]> (gt_results g) |>
  end.

(** [admit]: the permit taken; its result is the caller's. *)
Definition takePermit (id : nat) (g : Gate) : Gate :=
  g <| gt_active := gt_active g + 1 |> <| gt_held := {[id]} ∪ gt_held g |>.

Definition refuseWaiter (w : Waiter) (p : Principal) (r : InferenceAdmissionResult) (g : Gate) : Gate :=
  let g := settleWaiter w r g in
  if bool_decide (is_Some (gt_waitingByPrincipal g !! p)) then g <| gt_turnOrder := p :: gt_turnOrder g |> else g.

(** One turn of the loop of [admitWaiting]; [clock] is the time read for each
    waiter.  [None] ends the loop. *)
Definition admitTurn (l : InferenceAdmissionLimits) (clock : nat -> Q) (g : Gate) : option Gate :=
  if negb ((gt_active g <? maxActive l) && (0 <? gt_waitingCount g)) then None else
  match gt_turnOrder g with
  | [] => None
  | p :: turns =>
      let g := g <| gt_turnOrder := turns |> in
      match gt_waitingByPrincipal g !! p with
      | Some (w :: _) =>
          let waitedMs := elapsedMs (clock (wt_id w)) (wt_queuedAtMs w) in
          if bool_decide (wt_id w ∈ gt_aborted g) then Some (refuseWaiter w p (CallerAborted waitedMs) g) else
          if maxQueueWaitMs l <=? waitedMs
          then Some (refuseWaiter w p (LocalOverload QueueWaitTimeout waitedMs) g) else
          let g := settleWaiter w (AdmissionOk waitedMs) (takePermit (wt_id w) g) in
          Some (if bool_decide (is_Some (gt_waitingByPrincipal g !! p))
                then g <| gt_turnOrder := (gt_turnOrder g ++ [p])%list |> else g)
      | _ => Some g
      end
  end.

Fixpoint admitLoop (fuel : nat) (l : InferenceAdmissionLimits) (clock : nat -> Q) (g : Gate) : Gate :=
  match fuel with
  | O => g
  | S fuel => match admitTurn l clock g with Some g => admitLoop fuel l clock g | None => g end
  end.

(** Every turn settles a waiter or spends a turn, so this many suffice. *)
Definition loopFuel (g : Gate) : nat := S (Z.to_nat (gt_waitingCount g) + length (gt_turnOrder g)).

Definition admitWaiting (l : InferenceAdmissionLimits) (clock : nat -> Q) (g : Gate) : Gate :=
  admitLoop (loopFuel g) l clock g.

Definition release (l : InferenceAdmissionLimits) (id : nat) (clock : nat -> Q) (g : Gate) : Gate :=
  if bool_decide (id ∈ gt_held g)
  then admitWaiting l clock (g <| gt_held := gt_held g ∖ {[id]} |> <| gt_active := gt_active g - 1 |>)
  else g.

Definition enqueueWaiter (w : Waiter) (g : Gate) : Gate :=
  let g := match gt_waitingByPrincipal g !! wt_principal w with
    | Some queue => g <| gt_waitingByPrincipal := <[wt_principal w := (queue ++ [w])%list]> (gt_waitingByPrincipal g) |>
    | None => g <| gt_waitingByPrincipal := <[wt_principal w := [w]]> (gt_waitingByPrincipal g) |>
                <| gt_turnOrder := (gt_turnOrder g ++ [wt_principal w])%list |>
    end in
  g <| gt_waitingCount := gt_waitingCount g + 1 |>.

(** The listener of the wait signal. *)
Definition onWaitAbort (w : Waiter) (now : Q) (g : Gate) : Gate :=
  let waitedMs := elapsedMs now (wt_queuedAtMs w) in
  settleWaiter w (if bool_decide (wt_id w ∈ gt_aborted g) then CallerAborted waitedMs
                  else LocalOverload QueueWaitTimeout waitedMs) g.

(** [acquire]: [aborted] is the caller's signal at the call, [expired] whether
    the composed wait signal is aborted once the waiter is enqueued. *)
Definition acquire (l : InferenceAdmissionLimits) (principal : Principal) (aborted expired : bool) (now : Q)
    (g : Gate) : Gate :=
  let id := gt_next g in
  let g := g <| gt_next := S id |> in
  let resolve r g := g <| gt_results := <[id := r]> (gt_results g) |> in
  if aborted then resolve (CallerAborted 0) (g <| gt_aborted := {[id]} ∪ gt_aborted g |>) else
  if (gt_active g <? maxActive l) && (gt_waitingCount g =? 0) then resolve (AdmissionOk 0) (takePermit id g) else
  if maxWaiting l <=? gt_waitingCount g then resolve (LocalOverload QueueLimit 0) g else
  let w := mkWaiter id principal now in
  let g := enqueueWaiter w g in
  if expired then onWaitAbort w now g else g.

(** The limits in force, absent ones by default, and the empty guard. *)
Definition createInferenceAdmissionController (active waiting queueWaitMs : option Z)
    : Result string (InferenceAdmissionLimits * Gate) :=
  let effective := mkLimits (default (maxActive DEFAULT_INFERENCE_ADMISSION_LIMITS) active)
    (default (maxWaiting DEFAULT_INFERENCE_ADMISSION_LIMITS) waiting)
    (default (maxQueueWaitMs DEFAULT_INFERENCE_ADMISSION_LIMITS) queueWaitMs) in
  match validateLimits effective with
  | Err e => Err e
  | Ok _ => Ok (effective, mkGate 0 0 ∅ [] ∅ ∅ ∅ 0)
  end.

Record InferenceAdmissionSnapshot := mkSnapshot {
  sn_active : Z; sn_waiting : Z; sn_principals : Z; sn_maxActive : Z; sn_maxWaiting : Z }.

Definition snapshot (l : InferenceAdmissionLimits) (g : Gate) : InferenceAdmissionSnapshot :=
  mkSnapshot (gt_active g) (gt_waitingCount g) (Z.of_nat (size (gt_waitingByPrincipal g))) (maxActive l) (maxWaiting l).

(** ** Events *)

Inductive GateEvent :=
| Acquire (principal : Principal) (aborted expired : bool) (now : Q)
| Release (id : nat) (clock : nat -> Q)
(** The caller of a request aborts; the listener runs if it waits. *)
| CallerAborts (id : nat) (now : Q)
| WaitExpires (id : nat) (now : Q).

(** The waiter of a request, if it still waits. *)
Definition waiter_of (id : nat) (g : Gate) : option Waiter :=
  List.find (fun w => bool_decide (wt_id w = id)) (mjoin (obj_values (gt_waitingByPrincipal g))).

Definition gateStep (l : InferenceAdmissionLimits) (e : GateEvent) (g : Gate) : Gate :=
  match e with
  | Acquire p aborted expired now => acquire l p aborted expired now g
  | Release id clock => release l id clock g
  | CallerAborts id now =>
      let g' := g <| gt_aborted := {[id]} ∪ gt_aborted g |> in
      match waiter_of id g with Some w => onWaitAbort w now g' | None => g' end
  | WaitExpires id now => match waiter_of id g with Some w => onWaitAbort w now g | None => g end
  end.

Definition gateRun (l : InferenceAdmissionLimits) (es : list GateEvent) (g : Gate) : Gate :=
  foldl (fun g e => gateStep l e g) g es.
