(* ===== verification/InferenceFairness.v ===== *)
(** * Finite in-process admission: bounds and fairness

    The invariant of the guard of InferenceAdmission.v and how far one waiting
    principal can be overtaken. *)

From stdpp Require Import base gmap strings list.
From Stdlib Require Import ZArith QArith Qround Lia.
From S2P Require Import Prelude InferenceAdmission.
Open Scope Z_scope.

(** ** Lists *)

Section remove_first.
Context {A : Type}.
Implicit Types (f : A -> bool) (l : list A).

Lemma remove_first_sublist f l : remove_first f l `sublist_of` l.
Proof.
  induction l as [|a l IH]; cbn; [done|]. destruct (f a); [by apply sublist_cons|by apply sublist_skip].
Qed.

Lemma remove_first_length f l :
  existsb f l = true -> length l = S (length (remove_first f l)).
Proof. induction l as [|a l IH]; cbn; [done|]. destruct (f a); cbn; [done|]. intros H. by rewrite (IH H). Qed.

Lemma remove_first_absent f l : (forall a, a ∈ l -> f a = false) -> remove_first f l = l.
Proof.
  induction l as [|a l IH]; intros H; cbn; [done|]. rewrite (H a) by (by left). f_equal. apply IH.
  intros b Hb. apply H. by right.
Qed.

Lemma elem_of_remove_first {B} (key : A -> B) `{EqDecision B} (k : B) l a :
  NoDup (key <$> l) ->
  a ∈ remove_first (fun x => bool_decide (key x = k)) l <-> a ∈ l /\ key a <> k.
Proof.
  induction l as [|b l IH]; cbn; intros Hnd; [set_solver|]. apply NoDup_cons in Hnd as [Hb Hnd].
  case_bool_decide as Hk.
  - rewrite elem_of_cons. split; [|naive_solver]. intros Ha. split; [by right|]. intros <-.
    apply Hb. rewrite Hk. by apply list_elem_of_fmap_2.
  - rewrite !elem_of_cons, (IH Hnd). naive_solver.
Qed.
End remove_first.

(** ** The invariant *)

Definition queue_length (q : list Waiter) : Z := Z.of_nat (length q).

(** Queues are not empty, hold unsettled requests of their principal, and no
    request waits twice. *)
Record queues_ok (g : Gate) : Prop := {
  qk_count : gt_waitingCount g = msum queue_length (gt_waitingByPrincipal g);
  qk_nonempty p : gt_waitingByPrincipal g !! p <> Some [];
  qk_nodup p q : gt_waitingByPrincipal g !! p = Some q -> NoDup (wt_id <$> q);
  qk_waiter p q w : gt_waitingByPrincipal g !! p = Some q -> w ∈ q ->
    wt_principal w = p /\ gt_results g !! wt_id w = None /\ (wt_id w < gt_next g)%nat;
  qk_unique p q p' q' w w' : gt_waitingByPrincipal g !! p = Some q -> gt_waitingByPrincipal g !! p' = Some q' ->
    w ∈ q -> w' ∈ q' -> wt_id w = wt_id w' -> p = p' }.

(** A permit is counted once and belongs to an admitted request. *)
Record permits_ok (g : Gate) : Prop := {
  pk_active : gt_active g = Z.of_nat (size (gt_held g));
  pk_held id : id ∈ gt_held g -> exists ms, gt_results g !! id = Some (AdmissionOk ms);
  pk_next id : is_Some (gt_results g !! id) -> (id < gt_next g)%nat }.

(** Exactly the principals that wait have a turn, one each. *)
Record turns_ok (g : Gate) : Prop := {
  tk_nodup : NoDup (gt_turnOrder g);
  tk_waiting p : p ∈ gt_turnOrder g <-> is_Some (gt_waitingByPrincipal g !! p) }.

Record gate_ok (l : InferenceAdmissionLimits) (g : Gate) : Prop := {
  gk_queues : queues_ok g;
  gk_permits : permits_ok g;
  gk_turns : turns_ok g;
  gk_active : gt_active g <= maxActive l;
  gk_waiting : gt_waitingCount g <= maxWaiting l }.

(** ** Settling a waiter *)

Section settle.
Context (g : Gate) (w : Waiter) (q : list Waiter) (r : InferenceAdmissionResult).
Context (Hq : queues_ok g) (Hl : gt_waitingByPrincipal g !! wt_principal w = Some q) (Hw : w ∈ q).
Local Notation rest := (remove_first (is_waiter w) q).

(** The gate once the waiter is gone. *)
Definition settled_gate : Gate :=
  g <| gt_waitingCount := gt_waitingCount g - 1 |>
    <| gt_waitingByPrincipal := match rest with
         | [] => delete (wt_principal w) (gt_waitingByPrincipal g)
         | _ => <[wt_principal w := rest]> (gt_waitingByPrincipal g)
         end |>
    <| gt_turnOrder := match rest with
         | [] => remove_first (fun p => bool_decide (p = wt_principal w)) (gt_turnOrder g)
         | _ => gt_turnOrder g
         end |>
    <| gt_results := <[wt_id w := r]> (gt_results g) |>.

Lemma waiter_found : existsb (is_waiter w) q = true.
Proof using Hw.
  apply existsb_exists. exists w. split; [by apply list_elem_of_In|]. unfold is_waiter. by rewrite bool_decide_true.
Qed.

Lemma settleWaiter_eq : settleWaiter w r g = settled_gate.
Proof using Hq Hl Hw.
  unfold settleWaiter, settled_gate. destruct (qk_waiter _ Hq _ _ _ Hl Hw) as (_ & -> & _).
  unfold detachWaiter. rewrite Hl, waiter_found. cbn. by destruct rest.
Qed.

Lemma settled_lookup p :
  gt_waitingByPrincipal settled_gate !! p
  = if bool_decide (p = wt_principal w) then match rest with [] => None | _ => Some rest end
    else gt_waitingByPrincipal g !! p.
Proof using Type.
  cbn. case_bool_decide as Hp; [subst p|].
  - destruct rest; [by rewrite lookup_delete_eq|by rewrite lookup_insert_eq].
  - destruct rest; [by rewrite lookup_delete_ne|by rewrite lookup_insert_ne].
Qed.

(** What is left in a queue was there, and is another request. *)
Lemma settled_queue p q' : gt_waitingByPrincipal settled_gate !! p = Some q' ->
  exists q0, gt_waitingByPrincipal g !! p = Some q0 /\ q' `sublist_of` q0 /\ forall v, v ∈ q' -> wt_id v <> wt_id w.
Proof using Hq Hl Hw.
  rewrite settled_lookup. case_bool_decide as Hp.
  - subst p. intros E. exists q. assert (q' = rest) as -> by (by destruct rest; simplify_eq).
    split; [done|]. split; [apply remove_first_sublist|]. intros v Hv.
    apply (elem_of_remove_first wt_id) in Hv; [naive_solver|]. by eapply qk_nodup.
  - intros E. exists q'. split_and!; [done|done|]. intros v Hv Heq. apply Hp.
    by eapply qk_unique.
Qed.

Lemma settled_queues : queues_ok settled_gate.
Proof using Hq Hl Hw.
  constructor.
  - cbn. rewrite (qk_count _ Hq). pose proof (remove_first_length _ _ waiter_found) as Hlen.
    assert (queue_length q = queue_length rest + 1) as Hq1 by (unfold queue_length; rewrite Hlen; lia).
    revert Hq1. destruct rest as [|v rest'] eqn:E; intros Hq1.
    + rewrite (msum_delete _ _ _ _ Hl), Hq1. unfold queue_length at 1. cbn [length]. lia.
    + rewrite (msum_insert_Some _ _ _ _ _ Hl), Hq1. lia.
  - intros p. rewrite settled_lookup. case_bool_decide; [by destruct rest|apply (qk_nonempty _ Hq)].
  - intros p q' (q0 & H0 & Hsub & _)%settled_queue. eapply sublist_NoDup; [by eapply qk_nodup|by apply fmap_sublist].
  - intros p q' v (q0 & H0 & Hsub & Hne)%settled_queue Hv.
    assert (v ∈ q0) as Hv0 by (by eapply elem_of_sublist).
    destruct (qk_waiter _ Hq _ _ _ H0 Hv0) as (? & ? & ?). split_and!; [done| |done].
    cbn. rewrite lookup_insert_ne; [done|]. intros E. by apply (Hne v Hv).
  - intros p q1 p' q2 v v' (qa & Ha & Hsa & _)%settled_queue (qb & Hb & Hsb & _)%settled_queue Hv Hv' E.
    eapply (qk_unique _ Hq p qa p' qb v v'); eauto using elem_of_sublist.
Qed.

Lemma settled_permits : permits_ok g -> permits_ok settled_gate.
Proof using Hq Hl Hw.
  intros [Ha Hh Hn]. destruct (qk_waiter _ Hq _ _ _ Hl Hw) as (_ & Hnone & Hlt). constructor; cbn; [done| |].
  - intros id Hid. destruct (Hh id Hid) as [ms E]. exists ms. rewrite lookup_insert_ne; congruence.
  - intros id. destruct (decide (id = wt_id w)) as [->|Hne]; [done|]. rewrite lookup_insert_ne by done. apply Hn.
Qed.

(** A turn list that lists the waiting principals still does, whether the
    settled one had a turn or not. *)
Lemma settled_turns : turns_ok g -> turns_ok settled_gate.
Proof using Hl.
  intros [Hnd Ht]. assert (forall p, p ∈ remove_first (fun p => bool_decide (p = wt_principal w)) (gt_turnOrder g)
    <-> p ∈ gt_turnOrder g /\ p <> wt_principal w) as Hrem.
  { intros p. apply (elem_of_remove_first id). by rewrite list_fmap_id. }
  constructor; cbn.
  - destruct rest; [|done]. eapply sublist_NoDup; [exact Hnd|apply remove_first_sublist].
  - intros p. pose proof (settled_lookup p) as E. cbn in E. rewrite E. clear E. case_bool_decide as Hp.
    + subst p. destruct rest eqn:E; [rewrite Hrem|rewrite Ht, Hl]; split; try done; naive_solver.
    + destruct rest; [rewrite Hrem|]; rewrite Ht; naive_solver.
Qed.
End settle.

(** ** Waiting turns *)

Lemma head_in {A} (a : A) l : a ∈ a :: l.
Proof. by left. Qed.

Lemma rest_head w q : remove_first (is_waiter w) (w :: q) = q.
Proof. cbn [remove_first]. unfold is_waiter at 1. by rewrite bool_decide_true. Qed.

(** The turn of [p] is out of the list while its waiter is settled, and comes
    back, in front or at the end, if more of its requests wait. *)
Lemma turn_returns g p w q r turns turns' :
  queues_ok g -> turns_ok g -> gt_turnOrder g = p :: turns -> gt_waitingByPrincipal g !! p = Some (w :: q) ->
  (forall x, x ∈ turns' <-> x = p \/ x ∈ turns) -> NoDup turns' ->
  let g' := settleWaiter w r (g <| gt_turnOrder := turns |>) in
  turns_ok (if bool_decide (is_Some (gt_waitingByPrincipal g' !! p)) then g' <| gt_turnOrder := turns' |> else g')
  /\ gt_turnOrder g' = turns.
Proof.
  intros Hq [Hnd Ht] Eo El Hin Hnd'. rewrite Eo in *. apply NoDup_cons in Hnd as [Hp Hnd].
  assert (wt_principal w = p) as Ew by (by eapply qk_waiter; [..|apply head_in]). subst p.
  assert (queues_ok (g <| gt_turnOrder := turns |>)) as Hq' by (by destruct Hq).
  rewrite (settleWaiter_eq _ w (w :: q) r Hq' El) by apply head_in. cbn zeta.
  set (g' := settled_gate (g <| gt_turnOrder := turns |>) w (w :: q) r).
  assert (gt_turnOrder g' = turns) as Et.
  { unfold g'. cbn -[remove_first]. rewrite rest_head. destruct q; [|done]. apply remove_first_absent.
    intros a Ha. apply bool_decide_eq_false. by intros ->. }
  split; [|exact Et].
  pose proof (settled_lookup (g <| gt_turnOrder := turns |>) w (w :: q) r) as Hlk. fold g' in Hlk.
  assert (forall x, x <> wt_principal w -> x ∈ turns <-> is_Some (gt_waitingByPrincipal g' !! x)) as Hother.
  { intros x Hx. rewrite Hlk, bool_decide_false by done. cbn. rewrite <- Ht, elem_of_cons. naive_solver. }
  clearbody g'. case_bool_decide as Hs; constructor; cbn.
  - done.
  - intros x. rewrite Hin. destruct (decide (x = wt_principal w)) as [->|Hx]; [naive_solver|].
    rewrite <- Hother by done. naive_solver.
  - by rewrite Et.
  - intros x. rewrite Et. destruct (decide (x = wt_principal w)) as [->|Hx]; [naive_solver|]. by apply Hother.
Qed.

Lemma turns_front (p : Principal) turns : forall x, x ∈ p :: turns <-> x = p \/ x ∈ turns.
Proof. intros x. by rewrite elem_of_cons. Qed.
Lemma turns_back (p : Principal) turns : forall x, x ∈ (turns ++ [p])%list <-> x = p \/ x ∈ turns.
Proof. intros x. rewrite elem_of_app, list_elem_of_singleton. naive_solver. Qed.
Lemma nodup_back (p : Principal) turns : NoDup (p :: turns) -> NoDup (turns ++ [p])%list.
Proof.
  intros [Hp Hnd]%NoDup_cons. apply NoDup_app. split_and!; [done| |apply NoDup_singleton].
  intros x Hx ->%list_elem_of_singleton. done.
Qed.

(** ** One turn *)

(** How a turn ends, and that it settles one waiter: refused and its principal
    keeps the turn, or admitted and its principal goes to the end. *)
Inductive turn_spec (l : InferenceAdmissionLimits) (clock : nat -> Q) (g : Gate) : option Gate -> Prop :=
| turn_stop : maxActive l <= gt_active g \/ gt_waitingCount g = 0 -> turn_spec l clock g None
| turn_refused p turns w q r g' :
    gt_turnOrder g = p :: turns -> gt_waitingByPrincipal g !! p = Some (w :: q) ->
    gt_active g < maxActive l ->
    (wt_id w ∈ gt_aborted g \/ maxQueueWaitMs l <= elapsedMs (clock (wt_id w)) (wt_queuedAtMs w)) ->
    g' = refuseWaiter w p r (g <| gt_turnOrder := turns |>) -> turn_spec l clock g (Some g')
| turn_granted p turns w q g' :
    gt_turnOrder g = p :: turns -> gt_waitingByPrincipal g !! p = Some (w :: q) ->
    gt_active g < maxActive l -> wt_id w ∉ gt_aborted g ->
    elapsedMs (clock (wt_id w)) (wt_queuedAtMs w) < maxQueueWaitMs l ->
    g' = (let h := settleWaiter w (AdmissionOk (elapsedMs (clock (wt_id w)) (wt_queuedAtMs w)))
                     (takePermit (wt_id w) (g <| gt_turnOrder := turns |>)) in
          if bool_decide (is_Some (gt_waitingByPrincipal h !! p))
          then h <| gt_turnOrder := (gt_turnOrder h ++ [p])%list |> else h) ->
    turn_spec l clock g (Some g').

Lemma count_positive g : queues_ok g -> turns_ok g -> gt_turnOrder g = [] -> gt_waitingCount g = 0.
Proof.
  intros Hq [_ Ht] E. rewrite (qk_count _ Hq). rewrite E in Ht.
  destruct (decide (gt_waitingByPrincipal g = ∅)) as [->|Hne]; [apply msum_empty|].
  apply map_choose in Hne as (p & q & Hp). destruct (Ht p) as [_ H]. rewrite Hp in H.
  by apply elem_of_nil in H.
Qed.

Lemma admitTurn_spec l clock g : gate_ok l g -> turn_spec l clock g (admitTurn l clock g).
Proof.
  intros [Hq Hp Ht Ha Hw]. unfold admitTurn. destruct (negb _) eqn:E.
  { apply turn_stop. apply negb_true_iff, andb_false_iff in E as [E|E]; [left|right]; [lia|].
    rewrite (qk_count _ Hq) in *. enough (0 <= msum queue_length (gt_waitingByPrincipal g)) by lia.
    apply msum_nonneg. intros. unfold queue_length. lia. }
  apply negb_false_iff, andb_true_iff in E as [E1 E2].
  destruct (gt_turnOrder g) as [|p turns] eqn:Eo.
  { apply turn_stop. right. by apply count_positive. }
  assert (is_Some (gt_waitingByPrincipal g !! p)) as [q0 Hl] by (apply (tk_waiting _ Ht); rewrite Eo; apply head_in).
  cbn. rewrite Hl. destruct q0 as [|w q]; [by apply (qk_nonempty _ Hq) in Hl|].
  apply Z.ltb_lt in E1. case_bool_decide as Hab.
  { by eapply turn_refused; eauto. }
  destruct (Z.leb_spec (maxQueueWaitMs l) (elapsedMs (clock (wt_id w)) (wt_queuedAtMs w))).
  { by eapply turn_refused; eauto. }
  by eapply turn_granted; eauto.
Qed.

(** A request at the front of its principal's queue, [k] turns from the next. *)
Record ahead (x : Principal) (w : Waiter) (k : nat) (g : Gate) : Prop := {
  ah_turn : gt_turnOrder g !! k = Some x;
  ah_front : exists q, gt_waitingByPrincipal g !! x = Some (w :: q) }.

(** Settled, or closer by every permit given out. *)
Definition closer (x : Principal) (w : Waiter) (k : nat) (g g' : Gate) : Prop :=
  is_Some (gt_results g' !! wt_id w)
  \/ exists k', ahead x w k' g' /\ Z.of_nat k' + (gt_active g' - gt_active g) <= Z.of_nat k.

Lemma settle_fields g w q r :
  queues_ok g -> gt_waitingByPrincipal g !! wt_principal w = Some (w :: q) ->
  let g' := settleWaiter w r g in
  gt_active g' = gt_active g /\ gt_waitingCount g' = gt_waitingCount g - 1
  /\ gt_results g' = <[wt_id w := r]> (gt_results g) /\ gt_held g' = gt_held g
  /\ gt_next g' = gt_next g
  /\ forall x, x <> wt_principal w -> gt_waitingByPrincipal g' !! x = gt_waitingByPrincipal g !! x.
Proof.
  intros Hq Hl g'. subst g'. rewrite (settleWaiter_eq g w (w :: q) r Hq Hl) by apply head_in.
  split_and!; try done. intros x Hx. rewrite settled_lookup. by rewrite bool_decide_false.
Qed.

(** The part of a turn after its principal was taken from the list. *)
Lemma turn_settles l g h p turns turns' w q r :
  queues_ok h -> gate_ok l g -> gt_turnOrder g = p :: turns -> gt_waitingByPrincipal g !! p = Some (w :: q) ->
  h = g <| gt_active := gt_active h |> <| gt_held := gt_held h |> ->
  gt_active g <= gt_active h <= maxActive l ->
  permits_ok (settleWaiter w r (h <| gt_turnOrder := turns |>)) ->
  (forall x, x ∈ turns' <-> x = p \/ x ∈ turns) -> NoDup turns' ->
  (forall k x, turns !! k = Some x -> exists k', turns' !! k' = Some x /\ Z.of_nat k' + (gt_active h - gt_active g) <= Z.of_nat k + 1) ->
  gt_active h - gt_active g <= 1 ->
  let s := settleWaiter w r (h <| gt_turnOrder := turns |>) in
  let g' := if bool_decide (is_Some (gt_waitingByPrincipal s !! p)) then s <| gt_turnOrder := turns' |> else s in
  gate_ok l g' /\ gt_waitingCount g' = gt_waitingCount g - 1 /\ forall x v k, ahead x v k g -> closer x v k g g'.
Proof.
  intros Hqh [Hq Hpm Ht Ha Hw] Eo El Eh Hact Hperm Hin Hnd Hk Hone s g'.
  assert (wt_principal w = p) as Ew by (by eapply qk_waiter; [..|apply head_in]). subst p.
  assert (gt_waitingByPrincipal (h <| gt_turnOrder := turns |>) !! wt_principal w = Some (w :: q)) as Elh
    by (rewrite Eh; exact El).
  assert (queues_ok (h <| gt_turnOrder := turns |>)) as Hqh' by (by destruct Hqh).
  assert (turns_ok h) as Hth by (rewrite Eh; by destruct Ht).
  destruct (settle_fields _ w q r Hqh' Elh) as (F1 & F2 & F3 & F4 & F5 & F6). fold s in F1, F2, F3, F4, F5, F6.
  destruct (turn_returns h (wt_principal w) w q r turns turns' Hqh Hth) as [Hturns Et]; [by rewrite Eh|exact Elh|done..|].
  fold s in Hturns, Et. fold g' in Hturns.
  assert (queues_ok s) as Hqs by (unfold s; rewrite (settleWaiter_eq _ w (w :: q) r Hqh' Elh) by apply head_in;
    apply settled_queues; [done|done|apply head_in]).
  assert (gt_waitingCount h = gt_waitingCount g) as Ec by (by rewrite Eh).
  cbn in F1, F2. assert (gt_active g' = gt_active h /\ gt_waitingCount g' = gt_waitingCount g - 1
    /\ gt_results g' = gt_results s /\ gt_waitingByPrincipal g' = gt_waitingByPrincipal s) as (G1 & G2 & G3 & G4).
  { unfold g'. case_bool_decide; cbn; rewrite ?F1, ?F2, ?Ec; done. }
  split; [|split; [done|]].
  - constructor; [unfold g'; case_bool_decide; [by destruct Hqs|done]| |done|lia|lia].
    unfold g'. case_bool_decide; [by destruct Hperm|done].
  - intros x v k [Hx [qx Hqx]]. rewrite Eo in Hx. destruct k as [|k]; cbn in Hx.
    { injection Hx as <-. rewrite El in Hqx. injection Hqx as -> ->. left. rewrite G3, F3, lookup_insert_eq. eauto. }
    assert (x <> wt_principal w) as Hne.
    { intros ->. destruct Ht as [Hn _]. rewrite Eo in Hn. apply NoDup_cons in Hn as [Hn _].
      apply Hn. by eapply list_elem_of_lookup_2. }
    right. assert (exists k', gt_turnOrder g' !! k' = Some x
      /\ Z.of_nat k' + (gt_active h - gt_active g) <= Z.of_nat (S k)) as (k' & Hk' & Hle).
    { unfold g'. case_bool_decide; cbn; [destruct (Hk k x Hx) as (k' & ? & ?); exists k'; split; [done|lia]|].
      exists k. rewrite Et. split; [done|lia]. }
    exists k'. rewrite G1. split; [|done]. constructor; [done|]. exists qx. rewrite G4, F6 by done. by rewrite Eh.
Qed.

Lemma granted_permits g w q ms turns :
  queues_ok g -> permits_ok g -> gt_waitingByPrincipal g !! wt_principal w = Some (w :: q) ->
  permits_ok (settleWaiter w (AdmissionOk ms) (takePermit (wt_id w) g <| gt_turnOrder := turns |>)).
Proof.
  intros Hq [Ha Hh Hn] Hl. destruct (qk_waiter _ Hq _ _ w Hl) as (_ & Hnone & Hlt); [apply head_in|].
  assert (queues_ok (takePermit (wt_id w) g <| gt_turnOrder := turns |>)) as Hq' by (by destruct Hq).
  destruct (settle_fields _ w q (AdmissionOk ms) Hq' Hl) as (F1 & _ & F3 & F4 & F5 & _).
  assert (wt_id w ∉ gt_held g) as Hnot by (intros H; destruct (Hh _ H) as [? E]; congruence).
  constructor; rewrite ?F1, ?F3, ?F4, ?F5; cbn.
  - rewrite size_union, size_singleton by set_solver. lia.
  - intros id. destruct (decide (id = wt_id w)) as [->|Hne]; [rewrite lookup_insert_eq; eauto|].
    rewrite lookup_insert_ne by done. intros Hin. apply Hh. set_solver.
  - intros id. destruct (decide (id = wt_id w)) as [->|Hne]; [done|]. rewrite lookup_insert_ne by done. apply Hn.
Qed.

(** A turn keeps the gate well formed, settles exactly one waiter, and brings
    every other front one turn closer when it gives out a permit. *)
Lemma turn_step l clock g g' :
  gate_ok l g -> admitTurn l clock g = Some g' ->
  gate_ok l g' /\ gt_waitingCount g' = gt_waitingCount g - 1 /\ forall x v k, ahead x v k g -> closer x v k g g'.
Proof.
  intros Hg E. pose proof (admitTurn_spec l clock g Hg) as Hspec. rewrite E in Hspec. clear E.
  pose proof Hg as [Hq Hp Ht Ha Hw].
  inversion Hspec as [|p turns w q r h Eo El Hlt Hwhy Eh Eg|p turns w q h Eo El Hlt Hnab Hwait Eh Eg]; subst h; clear Hspec.
  - assert (gt_turnOrder (settleWaiter w r (g <| gt_turnOrder := turns |>)) = turns) as Et.
    { eapply (turn_returns g p w q r turns (p :: turns)); eauto using turns_front.
      rewrite <- Eo. apply tk_nodup, Ht. }
    subst g'. unfold refuseWaiter. rewrite Et.
    assert (wt_principal w = p) as Ew by (by eapply qk_waiter; [..|apply head_in]). subst p.
    apply (turn_settles l g g (wt_principal w) turns (wt_principal w :: turns) w q r); try done; try lia.
    + by destruct g.
    + assert (queues_ok (g <| gt_turnOrder := turns |>)) as Hq' by (by destruct Hq).
      rewrite (settleWaiter_eq _ w (w :: q) r Hq' El) by apply head_in.
      apply settled_permits; [done|done|apply head_in|by destruct Hp].
    + apply turns_front.
    + rewrite <- Eo. apply tk_nodup, Ht.
    + intros k x Hx. exists (S k). split; [done|lia].
  - assert (wt_principal w = p) as Ew by (by eapply qk_waiter; [..|apply head_in]). subst p.
    set (ms := elapsedMs (clock (wt_id w)) (wt_queuedAtMs w)) in *.
    assert (NoDup (wt_principal w :: turns)) as Hnd by (rewrite <- Eo; apply tk_nodup, Ht).
    assert (queues_ok (takePermit (wt_id w) g)) as Hqt by (by destruct Hq).
    assert (turns_ok (takePermit (wt_id w) g)) as Htt by (by destruct Ht).
    change (takePermit (wt_id w) (g <| gt_turnOrder := turns |>))
      with (takePermit (wt_id w) g <| gt_turnOrder := turns |>) in Eh.
    assert (gt_turnOrder (settleWaiter w (AdmissionOk ms) (takePermit (wt_id w) g <| gt_turnOrder := turns |>)) = turns) as Et.
    { eapply (turn_returns (takePermit (wt_id w) g) (wt_principal w) w q _ turns (wt_principal w :: turns)); eauto using turns_front. }
    subst g'. cbv zeta. rewrite Et.
    apply (turn_settles l g (takePermit (wt_id w) g) (wt_principal w) turns (turns ++ [wt_principal w]) w q (AdmissionOk ms));
      try done; try (cbn; lia).
    + by eapply granted_permits.
    + apply turns_back.
    + by apply nodup_back.
    + intros k x Hx. exists k. split; [by apply lookup_app_l_Some|cbn; lia].
Qed.

(** ** The loop *)

Lemma closer_refl x w k g : ahead x w k g -> closer x w k g g.
Proof. intros H. right. exists k. split; [done|lia]. Qed.

Lemma admitTurn_results l clock g g' :
  gate_ok l g -> admitTurn l clock g = Some g' ->
  gt_results g ⊆ gt_results g' /\ gt_held g ⊆ gt_held g'.
Proof.
  intros Hg E. pose proof (admitTurn_spec l clock g Hg) as Hspec. rewrite E in Hspec. clear E.
  pose proof (gk_queues _ _ Hg) as Hq.
  inversion Hspec as [|p turns w q r' h Eo El _ _ Eh Eg|p turns w q h Eo El _ _ _ Eh Eg]; subst h; clear Hspec;
    assert (wt_principal w = p) as Ew by (by eapply qk_waiter; [..|apply head_in]); subst p;
    assert (gt_results g !! wt_id w = None) as Hn by (by eapply (qk_waiter _ Hq); [exact El|apply head_in]); subst g'.
  - unfold refuseWaiter. assert (queues_ok (g <| gt_turnOrder := turns |>)) as Hq' by (by destruct Hq).
    destruct (settle_fields _ w q r' Hq' El) as (_ & _ & F3 & F4 & _).
    split; [transitivity (gt_results (settleWaiter w r' (g <| gt_turnOrder := turns |>)))
           |transitivity (gt_held (settleWaiter w r' (g <| gt_turnOrder := turns |>)))];
      try (by case_bool_decide); [rewrite F3; by apply insert_subseteq|by rewrite F4].
  - assert (queues_ok (takePermit (wt_id w) (g <| gt_turnOrder := turns |>))) as Hq' by (by destruct Hq).
    set (r' := AdmissionOk (elapsedMs (clock (wt_id w)) (wt_queuedAtMs w))).
    destruct (settle_fields _ w q r' Hq' El) as (_ & _ & F3 & F4 & _). cbv zeta.
    split; [transitivity (gt_results (settleWaiter w r' (takePermit (wt_id w) (g <| gt_turnOrder := turns |>))))
           |transitivity (gt_held (settleWaiter w r' (takePermit (wt_id w) (g <| gt_turnOrder := turns |>))))];
      try (by case_bool_decide); [rewrite F3; by apply insert_subseteq|rewrite F4; cbn; set_solver].
Qed.

(** With fuel for every waiter, the loop ends because the gate is full or
    nobody waits. *)
Lemma admitLoop_spec l clock fuel g :
  gate_ok l g -> gt_waitingCount g < Z.of_nat fuel ->
  let g' := admitLoop fuel l clock g in
  gate_ok l g' /\ (maxActive l <= gt_active g' \/ gt_waitingCount g' = 0)
  /\ gt_results g ⊆ gt_results g' /\ gt_held g ⊆ gt_held g'
  /\ forall x v k, ahead x v k g -> closer x v k g g'.
Proof.
  revert g. induction fuel as [|fuel IH]; intros g Hg Hf; cbn [admitLoop].
  { exfalso. rewrite (qk_count _ (gk_queues _ _ Hg)) in Hf.
    assert (0 <= msum queue_length (gt_waitingByPrincipal g)); [|lia].
    apply msum_nonneg. intros. unfold queue_length. lia. }
  destruct (admitTurn l clock g) as [g1|] eqn:E.
  - destruct (turn_step _ _ _ _ Hg E) as (Hg1 & Hc & Hcl). destruct (IH g1 Hg1) as (H1 & H2 & H3 & Hh & H4); [lia|].
    destruct (admitTurn_results _ _ _ _ Hg E) as [Hr1 Hh1]. split_and!; [done|done|by etrans|by etrans|].
    intros x v k Hah. destruct (Hcl x v k Hah) as [[r Hr]|(k1 & Hah1 & Hk1)];
        [left; exists r; by eapply lookup_weaken|].
    destruct (H4 x v k1 Hah1) as [?|(k2 & Hah2 & Hk2)]; [by left|right]. exists k2. split; [done|lia].
  - pose proof (admitTurn_spec l clock g Hg) as Hspec. rewrite E in Hspec. inversion Hspec.
    split_and!; auto using closer_refl.
Qed.

(** ** Every event *)

(** The gate never leaves a permit unused while somebody waits. *)
Definition gate_full (l : InferenceAdmissionLimits) (g : Gate) : Prop :=
  gate_ok l g /\ (0 < gt_waitingCount g -> maxActive l <= gt_active g).

(** Settled, or closer by every request newly admitted. *)
Definition nearer (x : Principal) (w : Waiter) (k : nat) (g g' : Gate) : Prop :=
  is_Some (gt_results g' !! wt_id w)
  \/ exists k', ahead x w k' g' /\ (k' + size (gt_held g' ∖ gt_held g) <= k)%nat.

Lemma nearer_same x w k g g' k' :
  gt_held g' = gt_held g -> ahead x w k' g' -> (k' <= k)%nat -> nearer x w k g g'.
Proof.
  intros E Ha Hk. right. exists k'. split; [done|]. rewrite E, difference_diag_L, size_empty. lia.
Qed.

Lemma waiting_positive g x w k : queues_ok g -> ahead x w k g -> 0 < gt_waitingCount g.
Proof.
  intros Hq [_ [q Hx]]. rewrite (qk_count _ Hq), (msum_delete _ _ _ _ Hx).
  assert (0 <= msum queue_length (delete x (gt_waitingByPrincipal g))).
  { apply msum_nonneg. intros. unfold queue_length. lia. }
  unfold queue_length at 1. cbn [length]. lia.
Qed.

(** A waiter gives up: aborted or timed out. *)
Lemma settle_full l g w q r :
  gate_full l g -> gt_waitingByPrincipal g !! wt_principal w = Some q -> w ∈ q ->
  gate_full l (settleWaiter w r g) /\ forall x v k, ahead x v k g -> nearer x v k g (settleWaiter w r g).
Proof.
  intros [[Hq Hp Ht Ha Hw] Hbusy] Hl Hin. rewrite (settleWaiter_eq g w q r Hq Hl Hin). split.
  - split; [|cbn; lia]. constructor; [by apply settled_queues|by eapply settled_permits|by eapply settled_turns|done|cbn; lia].
  - intros x v k [Hk [qx Hx]]. destruct (decide (wt_id v = wt_id w)) as [E|Hne].
    { left. cbn. rewrite E, lookup_insert_eq. eauto. }
    destruct (decide (x = wt_principal w)) as [->|Hxp].
    + assert (q = v :: qx) as -> by congruence.
      assert (remove_first (is_waiter w) (v :: qx) = v :: remove_first (is_waiter w) qx) as E.
      { cbn [remove_first]. unfold is_waiter at 1. by rewrite bool_decide_false. }
      eapply (nearer_same _ _ _ _ _ k); [done| |lia]. constructor; [cbn -[remove_first]; by rewrite E|].
      rewrite settled_lookup, bool_decide_true, E by done. eauto.
    + assert (exists k', gt_turnOrder (settled_gate g w q r) !! k' = Some x /\ (k' <= k)%nat) as (k' & Hk' & Hle).
      { cbn. destruct (remove_first (is_waiter w) q); [|eauto]. clear -Hk Hxp. revert k Hk.
        induction (gt_turnOrder g) as [|p turns IH]; intros [|k] Hk; cbn in *; try done.
        - injection Hk as ->. rewrite bool_decide_false by done. exists O. split; [done|lia].
        - case_bool_decide; [exists k; split; [done|lia]|]. destruct (IH k Hk) as (k' & ? & ?).
          exists (S k'). split; [done|lia]. }
      eapply (nearer_same _ _ _ _ _ k'); [done| |done]. constructor; [done|].
      exists qx. by rewrite settled_lookup, bool_decide_false.
Qed.

Lemma waiter_of_spec l id g w :
  gate_ok l g -> waiter_of id g = Some w ->
  exists q, gt_waitingByPrincipal g !! wt_principal w = Some q /\ w ∈ q /\ wt_id w = id.
Proof.
  intros Hg Hf. apply List.find_some in Hf as [Hin Hid%bool_decide_eq_true].
  apply list_elem_of_In, list_elem_of_join in Hin as (q & Hw & [p Hp]%elem_of_obj_values).
  destruct (qk_waiter _ (gk_queues _ _ Hg) _ _ _ Hp Hw) as (-> & _). eauto.
Qed.

(** The caller signals play no part in the invariant. *)
Lemma aborted_full l g ids : gate_full l g -> gate_full l (g <| gt_aborted := ids |>).
Proof. intros [[[] [] [] ? ?] ?]. by split; [constructor; [constructor..| |]|]. Qed.

Lemma release_full l id clock g :
  gate_full l g ->
  gate_full l (release l id clock g) /\ gt_results g ⊆ gt_results (release l id clock g)
  /\ forall x v k, ahead x v k g -> nearer x v k g (release l id clock g).
Proof.
  intros Hf. unfold release. case_bool_decide as Hid.
  2: { split_and!; [done|done|]. intros x v k Ha. by eapply (nearer_same _ _ _ _ _ k). }
  destruct Hf as [[Hq Hp Ht Ha Hw] Hbusy].
  set (g0 := g <| gt_held := gt_held g ∖ {[id]} |> <| gt_active := gt_active g - 1 |>).
  assert (size (gt_held g) = S (size (gt_held g ∖ {[id]}))) as Hsize.
  { rewrite (union_difference_singleton_L id (gt_held g)) at 1 by done. rewrite size_union by set_solver.
    by rewrite size_singleton. }
  assert (gate_ok l g0) as Hg0.
  { constructor; [by destruct Hq| |by destruct Ht|cbn; lia|done]. destruct Hp as [P1 P2 P3].
    constructor; cbn; [lia| |done]. intros j Hj. apply P2. set_solver. }
  destruct (admitLoop_spec l clock (loopFuel g0) g0 Hg0) as (H1 & H2 & H3 & H4 & H5).
  { unfold loopFuel. cbn. lia. }
  fold (admitWaiting l clock g0) in *. split_and!; [split; [done|]; lia|done|].
  intros x v k [Hk Hx]. destruct (H5 x v k) as [?|(k' & Hah & Hle)]; [by constructor|by left|right].
  exists k'. split; [done|]. rewrite (pk_active _ (gk_permits _ _ H1)) in Hle.
  change (gt_active g0) with (gt_active g - 1) in Hle. rewrite (pk_active _ Hp), Hsize in Hle.
  assert (size (gt_held (admitWaiting l clock g0) ∖ gt_held g)
          <= size (gt_held (admitWaiting l clock g0) ∖ gt_held g0))%nat as Hs1
    by (apply subseteq_size; cbn; set_solver).
  assert (size (gt_held (admitWaiting l clock g0)) = size (gt_held (admitWaiting l clock g0) ∖ gt_held g0)
          + size (gt_held g ∖ {[id]}))%nat as Hs2.
  { change (gt_held g ∖ {[id]}) with (gt_held g0). rewrite <- size_union by set_solver. f_equal.
    rewrite union_comm_L. by apply union_difference_L. }
  lia.
Qed.

(** ** Arrivals *)

(** The promise of the new request resolves at once. *)
Lemma resolved_ok l g r ids :
  gate_ok l g ->
  gate_ok l (g <| gt_next := S (gt_next g) |> <| gt_aborted := ids |>
               <| gt_results := <[gt_next g := r]> (gt_results g) |>).
Proof.
  intros [[Q1 Q2 Q3 Q4 Q5] [P1 P2 P3] [T1 T2] Ha Hw]. constructor; [| |done..]; constructor; cbn; try done.
  - intros p q w Hp Hin. destruct (Q4 p q w Hp Hin) as (? & ? & ?). rewrite lookup_insert_ne by lia.
    split_and!; [done|done|lia].
  - intros id Hid. destruct (P2 id Hid) as [ms E]. exists ms. rewrite lookup_insert_ne; [done|].
    enough (id < gt_next g)%nat by lia. apply P3. by rewrite E.
  - intros id. destruct (decide (id = gt_next g)) as [->|Hne]; [lia|]. rewrite lookup_insert_ne by done.
    intros H. apply P3 in H. lia.
Qed.

(** The direct grant takes a free permit. *)
Lemma direct_ok l g ms :
  gate_ok l g -> gt_active g < maxActive l ->
  gate_ok l (takePermit (gt_next g) (g <| gt_next := S (gt_next g) |>
               <| gt_results := <[gt_next g := AdmissionOk ms]> (gt_results g) |>)).
Proof.
  intros Hg Ha. destruct (resolved_ok l g (AdmissionOk ms) (gt_aborted g) Hg) as [[] [P1 P2 P3] [] A W].
  assert (gt_next g ∉ gt_held g) as Hnot.
  { intros H. destruct (pk_held _ (gk_permits _ _ Hg) _ H) as [m E].
    enough (gt_next g < gt_next g)%nat by lia. apply (pk_next _ (gk_permits _ _ Hg)). by rewrite E. }
  constructor; [by constructor| |by constructor|cbn; lia|done]. constructor; cbn in *; [| |done].
  - rewrite size_union, size_singleton by set_solver. lia.
  - intros id [->%elem_of_singleton|Hid]%elem_of_union; [|by apply P2]. rewrite lookup_insert_eq. eauto.
Qed.

Section enqueue.
Context (g : Gate) (w : Waiter) (Hid : wt_id w = gt_next g).
Local Notation queue := (default [] (gt_waitingByPrincipal g !! wt_principal w)).

Definition enqueued_gate : Gate :=
  g <| gt_next := S (gt_next g) |> <| gt_waitingCount := gt_waitingCount g + 1 |>
    <| gt_waitingByPrincipal := <[wt_principal w := (queue ++ [w])%list]> (gt_waitingByPrincipal g) |>
    <| gt_turnOrder := if bool_decide (is_Some (gt_waitingByPrincipal g !! wt_principal w)) then gt_turnOrder g
                       else (gt_turnOrder g ++ [wt_principal w])%list |>.

Lemma enqueueWaiter_eq : enqueueWaiter w (g <| gt_next := S (gt_next g) |>) = enqueued_gate.
Proof using Type.
  unfold enqueueWaiter, enqueued_gate. cbn. by destruct (gt_waitingByPrincipal g !! wt_principal w).
Qed.

Lemma enqueued_lookup p q' : gt_waitingByPrincipal enqueued_gate !! p = Some q' ->
  (p = wt_principal w /\ q' = (queue ++ [w])%list) \/ (p <> wt_principal w /\ gt_waitingByPrincipal g !! p = Some q').
Proof using Type.
  cbn. destruct (decide (p = wt_principal w)) as [->|Hne]; [rewrite lookup_insert_eq; intros [= <-]; by left|].
  rewrite lookup_insert_ne by done. by right.
Qed.

(** Who waits now: the new request, or who waited. *)
Lemma enqueued_elem p q' v : gt_waitingByPrincipal enqueued_gate !! p = Some q' -> v ∈ q' ->
  (v = w /\ p = wt_principal w) \/ exists q, gt_waitingByPrincipal g !! p = Some q /\ v ∈ q.
Proof using Type.
  intros [[-> ->]|[Hne Hp]]%enqueued_lookup Hv; [|eauto].
  apply elem_of_app in Hv as [Hv| ->%list_elem_of_singleton]; [|by left].
  destruct (gt_waitingByPrincipal g !! wt_principal w) as [q|]; [eauto|by apply elem_of_nil in Hv].
Qed.

Lemma enqueued_queues : queues_ok g -> permits_ok g -> queues_ok enqueued_gate.
Proof using Hid.
  intros [Q1 Q2 Q3 Q4 Q5] [_ _ P3]. constructor.
  - cbn. rewrite Q1. destruct (gt_waitingByPrincipal g !! wt_principal w) as [q|] eqn:E; cbn.
    + rewrite (msum_insert_Some _ _ _ _ _ E). enough (queue_length (q ++ [w]) = queue_length q + 1) by lia.
      unfold queue_length. rewrite length_app. cbn [length]. lia.
    + rewrite (msum_insert_None _ _ _ _ E). change (queue_length [w]) with 1. lia.
  - intros p [[-> H]|[_ H]]%enqueued_lookup; [|by apply Q2 in H]. by destruct queue.
  - intros p q' [[-> ->]|[_ H]]%enqueued_lookup; [|by eapply Q3]. rewrite fmap_app.
    apply NoDup_app. split_and!; [|intros i Hi ->%list_elem_of_singleton|apply NoDup_singleton];
      destruct (gt_waitingByPrincipal g !! wt_principal w) as [q|] eqn:E; cbn in *;
      [by eapply Q3|apply NoDup_nil_2| |by apply elem_of_nil in Hi].
    apply list_elem_of_fmap in Hi as (v & Hv & Hin). destruct (Q4 _ _ _ E Hin) as (_ & _ & ?). lia.
  - intros p q' v Hp Hv. destruct (enqueued_elem _ _ _ Hp Hv) as [[-> ->]|(q & Hq & Hin)]; cbn.
    + split_and!; [done| |lia]. destruct (gt_results g !! wt_id w) eqn:E; [|done].
      enough (wt_id w < gt_next g)%nat by lia. apply P3. by rewrite E.
    + destruct (Q4 _ _ _ Hq Hin) as (? & ? & ?). split_and!; [done|done|lia].
  - intros p q1 p' q2 v v' H1 H2 Hv Hv' Heq.
    destruct (enqueued_elem _ _ _ H1 Hv) as [[-> ->]|(q & Hq & Hin)];
      destruct (enqueued_elem _ _ _ H2 Hv') as [[-> ->]|(q0 & Hq0 & Hin0)]; [done| | |by eapply Q5];
      [destruct (Q4 _ _ _ Hq0 Hin0) as (_ & _ & ?)|destruct (Q4 _ _ _ Hq Hin) as (_ & _ & ?)]; lia.
Qed.

Lemma enqueued_turns : turns_ok g -> turns_ok enqueued_gate.
Proof using Type.
  intros [T1 T2]. constructor; cbn.
  - case_bool_decide as Hs; [done|]. apply nodup_back, NoDup_cons. split; [|done]. by rewrite T2.
  - intros p. destruct (decide (p = wt_principal w)) as [->|Hne].
    + rewrite lookup_insert_eq. case_bool_decide as Hs; [by rewrite T2|]. rewrite turns_back. naive_solver.
    + rewrite lookup_insert_ne by done. case_bool_decide; [by rewrite T2|]. rewrite turns_back, T2. naive_solver.
Qed.

Lemma enqueued_ahead x v k : ahead x v k g -> ahead x v k enqueued_gate.
Proof using Type.
  intros [Hk [q Hx]]. constructor; cbn.
  - case_bool_decide; [done|by apply lookup_app_l_Some].
  - destruct (decide (x = wt_principal w)) as [->|Hne]; [|rewrite lookup_insert_ne by done; eauto].
    rewrite lookup_insert_eq, Hx. cbn. eauto.
Qed.

Lemma enqueued_full l :
  gate_full l g -> maxActive l <= gt_active g -> gt_waitingCount g < maxWaiting l -> gate_full l enqueued_gate.
Proof using Hid.
  intros [[Hq Hp Ht Ha Hw] _] Hfull Hroom. split; [|cbn; lia].
  constructor; [by apply enqueued_queues| |by apply enqueued_turns|done|cbn; lia].
  destruct Hp as [P1 P2 P3]. constructor; cbn; [done|done|]. intros i Hi. apply P3 in Hi. lia.
Qed.
End enqueue.

(** ** No request is lost *)

(** Every request made so far has its answer or waits in its principal's queue. *)
Definition accounted (g : Gate) : Prop :=
  forall id, (id < gt_next g)%nat ->
  is_Some (gt_results g !! id) \/ exists p q w, gt_waitingByPrincipal g !! p = Some q /\ w ∈ q /\ wt_id w = id.

Lemma accounted_fields g g' :
  gt_next g' = gt_next g -> gt_results g' = gt_results g -> gt_waitingByPrincipal g' = gt_waitingByPrincipal g ->
  accounted g -> accounted g'.
Proof. unfold accounted. by intros -> -> ->. Qed.

Lemma settled_accounted g w q r :
  queues_ok g -> gt_waitingByPrincipal g !! wt_principal w = Some q -> w ∈ q ->
  accounted g -> accounted (settleWaiter w r g).
Proof.
  intros Hq Hl Hin Hacc. rewrite (settleWaiter_eq g w q r Hq Hl Hin). intros id Hid.
  destruct (decide (id = wt_id w)) as [->|Hne]; [left; cbn; rewrite lookup_insert_eq; eauto|].
  destruct (Hacc id Hid) as [Hr|(p & q' & v & Hp & Hv & Hvid)]; [left; cbn; by rewrite lookup_insert_ne|right].
  destruct (decide (p = wt_principal w)) as [->|Hp']; exists p || exists (wt_principal w).
  - assert (q' = q) as -> by congruence.
    assert (v ∈ remove_first (is_waiter w) q) as Hrest.
    { apply (elem_of_remove_first wt_id); [by eapply qk_nodup|]. by subst id. }
    exists (remove_first (is_waiter w) q), v. rewrite settled_lookup, bool_decide_true by done.
    by destruct (remove_first (is_waiter w) q); [apply elem_of_nil in Hrest|].
  - exists q', v. by rewrite settled_lookup, bool_decide_false.
Qed.

Lemma turn_accounted l clock g g' :
  gate_ok l g -> admitTurn l clock g = Some g' -> accounted g -> accounted g'.
Proof.
  intros Hg E Hacc. pose proof (admitTurn_spec l clock g Hg) as Hspec. rewrite E in Hspec. clear E.
  pose proof (gk_queues _ _ Hg) as Hq.
  inversion Hspec as [|p turns w q r' h Eo El _ _ Eh Eg|p turns w q h Eo El _ _ _ Eh Eg]; subst h; clear Hspec;
    assert (wt_principal w = p) as Ew by (by eapply qk_waiter; [..|apply head_in]); subst p g'.
  - unfold refuseWaiter. eapply (accounted_fields (settleWaiter w r' (g <| gt_turnOrder := turns |>)));
      [by case_bool_decide..|]. eapply settled_accounted; [by destruct Hq|exact El|apply head_in|done].
  - cbv zeta. eapply (accounted_fields (settleWaiter w _ (takePermit (wt_id w) (g <| gt_turnOrder := turns |>))));
      [by case_bool_decide..|]. eapply settled_accounted; [by destruct Hq|exact El|apply head_in|done].
Qed.

Lemma loop_accounted l clock fuel g : gate_ok l g -> accounted g -> accounted (admitLoop fuel l clock g).
Proof.
  revert g. induction fuel as [|fuel IH]; intros g Hg Hacc; cbn; [done|].
  destruct (admitTurn l clock g) as [g1|] eqn:E; [|done].
  apply IH; [by eapply turn_step|by eapply turn_accounted].
Qed.

(** ** Steps and runs *)

(** What an event guarantees. *)
Record step_ok (l : InferenceAdmissionLimits) (g g' : Gate) : Prop := {
  so_full : gate_full l g';
  so_results : gt_results g ⊆ gt_results g';
  so_accounted : accounted g -> accounted g';
  so_nearer x v k : ahead x v k g -> nearer x v k g g' }.

(** An event that settles a waiter after the caller's signal or the queue
    changed, with no permit given out before. *)
Lemma step_via l g g1 g2 :
  gt_held g1 = gt_held g -> (forall x v k, ahead x v k g -> ahead x v k g1) ->
  gt_results g1 = gt_results g -> (accounted g -> accounted g1) ->
  step_ok l g1 g2 -> step_ok l g g2.
Proof.
  intros E Hah Er Hacc [H1 H2 H3 H4]. constructor; [done|by rewrite <- Er|auto|].
  intros x v k Ha. unfold nearer. rewrite <- E. apply H4. auto.
Qed.

Lemma step_same l g g' :
  gt_held g' = gt_held g -> (forall x v k, ahead x v k g -> ahead x v k g') ->
  gt_results g ⊆ gt_results g' -> (accounted g -> accounted g') -> gate_full l g' -> step_ok l g g'.
Proof. intros E Hah Hr Hacc Hf. constructor; [done..|]. intros x v k Ha. eapply (nearer_same _ _ _ _ _ k); auto. Qed.

Lemma waiter_step l g w q now :
  gate_full l g -> gt_waitingByPrincipal g !! wt_principal w = Some q -> w ∈ q -> step_ok l g (onWaitAbort w now g).
Proof.
  intros Hf Hl Hin. unfold onWaitAbort. pose proof (gk_queues _ _ (proj1 Hf)) as Hq.
  set (r := if bool_decide _ then _ else _). destruct (settle_full l g w q r Hf Hl Hin) as [H1 H2].
  constructor; [done| |by eapply settled_accounted|done]. rewrite (settleWaiter_eq g w q r Hq Hl Hin).
  apply insert_subseteq. by destruct (qk_waiter _ Hq _ _ _ Hl Hin) as (_ & ? & _).
Qed.

Lemma release_step l id clock g : gate_full l g -> step_ok l g (release l id clock g).
Proof.
  intros Hf. destruct (release_full l id clock g Hf) as (H1 & H2 & H3). constructor; [done..| |done].
  unfold release. case_bool_decide as Hid; [|done]. intros Hacc. apply loop_accounted; [|done].
  destruct Hf as [[[] [P1 P2 P3] [] ? ?] _]. constructor; [by constructor| |by constructor|cbn; lia|done].
  constructor; cbn; [|intros j Hj; apply P2; set_solver|done].
  rewrite P1. rewrite (union_difference_singleton_L id (gt_held g)) at 1 by done.
  rewrite size_union, size_singleton by set_solver. lia.
Qed.

(** A request answered at its [acquire]. *)
Lemma fresh_answer l g g' r :
  gate_ok l g -> gt_next g' = S (gt_next g) -> gt_waitingByPrincipal g' = gt_waitingByPrincipal g ->
  gt_results g' = <[gt_next g := r]> (gt_results g) ->
  gt_results g ⊆ gt_results g' /\ (accounted g -> accounted g').
Proof.
  intros Hg E1 E2 E3. split.
  - rewrite E3. apply insert_subseteq. destruct (gt_results g !! gt_next g) eqn:E; [|done].
    enough (gt_next g < gt_next g)%nat by lia. apply (pk_next _ (gk_permits _ _ Hg)). by rewrite E.
  - intros Hacc id Hid. rewrite E1 in Hid. rewrite E2, E3.
    destruct (decide (id = gt_next g)) as [->|Hne]; [left; rewrite lookup_insert_eq; eauto|].
    rewrite lookup_insert_ne by done. apply Hacc. lia.
Qed.

Lemma enqueued_accounted g w : wt_id w = gt_next g -> accounted g -> accounted (enqueued_gate g w).
Proof.
  intros Hid Hacc id Hlt. cbn in Hlt. destruct (decide (id = wt_id w)) as [->|Hne].
  { right. exists (wt_principal w). cbn. rewrite lookup_insert_eq. eexists _, w. split_and!; [done| |done].
    apply elem_of_app. right. by left. }
  destruct (Hacc id) as [?|(p & q & v & Hp & Hv & E)]; [lia|by left|right]. exists p.
  destruct (decide (p = wt_principal w)) as [->|Hp']; cbn; [rewrite lookup_insert_eq|by rewrite lookup_insert_ne; eauto].
  eexists _, v. split_and!; [done| |done]. rewrite Hp. apply elem_of_app. by left.
Qed.

Ltac answered := match goal with Hg : gate_ok ?l ?g |- step_ok ?l ?g ?g' =>
  destruct (fresh_answer l g g' _ Hg eq_refl eq_refl eq_refl) as [Hr Hacc] end.

Lemma acquire_step l p aborted expired now g :
  gate_full l g -> step_ok l g (acquire l p aborted expired now g).
Proof.
  intros Hf. pose proof Hf as [Hg Hbusy]. unfold acquire. destruct aborted.
  { answered. apply step_same; [done|by intros x v k []|exact Hr|exact Hacc|].
    split; [|done]. exact (resolved_ok l g _ ({[gt_next g]} ∪ gt_aborted g) Hg). }
  cbv zeta. destruct (_ && _) eqn:E1.
  { apply andb_true_iff in E1 as [E1%Z.ltb_lt E2%Z.eqb_eq].
    answered. constructor; [|exact Hr|exact Hacc|].
    - split; [|cbn in *; lia]. exact (direct_ok l g 0 Hg E1).
    - intros x v k Ha. pose proof (waiting_positive _ _ _ _ (gk_queues _ _ Hg) Ha) as H. cbn in E2. lia. }
  change (gt_waitingCount (g <| gt_next := S (gt_next g) |>)) with (gt_waitingCount g).
  destruct (Z.leb_spec (maxWaiting l) (gt_waitingCount g)) as [Hmax|Hroom].
  { answered. apply step_same; [done|by intros x v k []|exact Hr|exact Hacc|].
    split; [|done]. exact (resolved_ok l g _ (gt_aborted g) Hg). }
  set (w := mkWaiter (gt_next g) p now). rewrite (enqueueWaiter_eq g w).
  assert (maxActive l <= gt_active g) as Hfull.
  { cbn in E1. apply andb_false_iff in E1 as [E1|E1]; [lia|]. apply Hbusy.
    pose proof (msum_nonneg queue_length (gt_waitingByPrincipal g)) as H. rewrite <- (qk_count _ (gk_queues _ _ Hg)) in H.
    assert (0 <= gt_waitingCount g); [|lia]. apply H. intros. unfold queue_length. lia. }
  assert (gate_full l (enqueued_gate g w)) as Henq by (by apply enqueued_full).
  destruct expired; [|apply step_same; [done|apply enqueued_ahead|done|by apply enqueued_accounted|done]].
  eapply step_via; [..|eapply waiter_step; [exact Henq|cbn; by rewrite lookup_insert_eq|apply elem_of_app; right; by left]];
    [done|apply enqueued_ahead|done|by apply enqueued_accounted].
Qed.

Lemma gate_step l e g : gate_full l g -> step_ok l g (gateStep l e g).
Proof.
  intros Hf. destruct e as [p aborted expired now|id clock|id now|id now]; cbn [gateStep].
  - by apply acquire_step.
  - by apply release_step.
  - set (g1 := g <| gt_aborted := {[id]} ∪ gt_aborted g |>). assert (gate_full l g1) as Hf1 by (by apply aborted_full).
    apply (step_via l g g1); [done|by intros x v k []|done|done|]. destruct (waiter_of id g) as [w|] eqn:E.
    + destruct (waiter_of_spec _ _ _ _ (proj1 Hf) E) as (q & Hl & Hin & _). by eapply waiter_step.
    + by apply step_same.
  - destruct (waiter_of id g) as [w|] eqn:E; [|by apply step_same].
    destruct (waiter_of_spec _ _ _ _ (proj1 Hf) E) as (q & Hl & Hin & _). by eapply waiter_step.
Qed.

Lemma create_full a n ms l g :
  createInferenceAdmissionController a n ms = Ok (l, g) -> gate_full l g /\ accounted g /\ 1 <= maxActive l.
Proof.
  unfold createInferenceAdmissionController, validateLimits. cbv zeta.
  destruct (_ || _) eqn:E1; [done|]. destruct (_ || (_ <? 0)) eqn:E2; [done|]. destruct (_ || (_ <? 0)) eqn:E3 in |- *; [done|].
  intros [= <- <-]. apply orb_false_iff in E1 as [_ E1%Z.ltb_ge], E2 as [_ E2%Z.ltb_ge].
  split_and!; [|intros id; cbn; lia|done]. split; [|done].
  constructor; [| | |cbn in *; lia|done]; constructor; cbn; try done.
  - intros id. rewrite lookup_empty. by intros [].
  - constructor.
  - intros p. rewrite lookup_empty. split; [by intros ?%elem_of_nil|by intros []].
Qed.

Lemma run_full l es g : gate_full l g -> gate_full l (gateRun l es g).
Proof.
  unfold gateRun. revert g. induction es as [|e es IH]; intros g Hf; cbn; [done|]. apply IH. by apply gate_step.
Qed.

Lemma run_accounted l es g : gate_full l g -> accounted g -> accounted (gateRun l es g).
Proof.
  unfold gateRun. revert g. induction es as [|e es IH]; intros g Hf Hacc; cbn; [done|].
  apply IH; [by apply gate_step|by eapply so_accounted; [apply gate_step|]].
Qed.

Lemma run_results l es g : gate_full l g -> gt_results g ⊆ gt_results (gateRun l es g).
Proof.
  unfold gateRun. revert g. induction es as [|e es IH]; intros g Hf; cbn; [done|].
  destruct (gate_step l e g Hf) as [H1 H2 _ _]. etrans; [exact H2|]. by apply IH.
Qed.

(** One turn per waiting principal, counted. *)
Lemma turns_count g : turns_ok g -> size (gt_waitingByPrincipal g) = length (gt_turnOrder g).
Proof.
  intros [Hnd Ht]. rewrite <- size_dom, <- (size_list_to_set (C := gset Principal)) by done. f_equal.
  apply set_eq. intros p. by rewrite elem_of_dom, elem_of_list_to_set, Ht.
Qed.

(** Permits given out along a run. *)
Fixpoint grants (l : InferenceAdmissionLimits) (es : list GateEvent) (g : Gate) : nat :=
  match es with
  | [] => O
  | e :: es => let g' := gateStep l e g in (size (gt_held g' ∖ gt_held g) + grants l es g')%nat
  end.

Lemma run_nearer l es g x w k :
  gate_full l g -> ahead x w k g ->
  is_Some (gt_results (gateRun l es g) !! wt_id w)
  \/ exists k', ahead x w k' (gateRun l es g) /\ (k' + grants l es g <= k)%nat.
Proof.
  revert g k. induction es as [|e es IH]; intros g k Hf Ha; [right; exists k; cbn; split; [done|lia]|].
  change (gateRun l (e :: es) g) with (gateRun l es (gateStep l e g)). cbn [grants].
  destruct (gate_step l e g Hf) as [Hf' _ _ Hn]. destruct (Hn x w k Ha) as [[r Hr]|(k1 & Ha1 & Hk1)].
  { left. exists r. eapply lookup_weaken; [exact Hr|]. by apply run_results. }
  destruct (IH _ _ Hf' Ha1) as [?|(k2 & Ha2 & Hk2)]; [by left|right]. exists k2. split; [done|lia].
Qed.

(** ** The properties *)

(** C24: whatever calls are made, permits released, callers aborted and waits
    timed out, the guard keeps its bounds: [active] counts the permits that are
    held and is at most [maxActive], [waitingCount] counts the waiters and is at
    most [maxWaiting], and the snapshot shows one principal per turn; exactly the
    principals that wait have a turn, one each; a permit is never idle while
    somebody waits; a permit belongs to a request that was told it is admitted;
    and no request is lost: each has its answer or waits. *)
Theorem inference_admission_safe a n ms l g0 es :
  createInferenceAdmissionController a n ms = Ok (l, g0) ->
  let g := gateRun l es g0 in
  sn_active (snapshot l g) = Z.of_nat (size (gt_held g)) /\ sn_active (snapshot l g) <= maxActive l
  /\ sn_waiting (snapshot l g) = msum queue_length (gt_waitingByPrincipal g) /\ sn_waiting (snapshot l g) <= maxWaiting l
  /\ sn_principals (snapshot l g) = Z.of_nat (length (gt_turnOrder g)) /\ NoDup (gt_turnOrder g)
  /\ (forall p, p ∈ gt_turnOrder g <-> exists w q, gt_waitingByPrincipal g !! p = Some (w :: q))
  /\ (0 < gt_waitingCount g -> gt_active g = maxActive l)
  /\ (forall id, id ∈ gt_held g -> exists t, gt_results g !! id = Some (AdmissionOk t))
  /\ (forall id, (id < gt_next g)%nat -> gt_results g !! id = None ->
      exists p q w, gt_waitingByPrincipal g !! p = Some q /\ w ∈ q /\ wt_id w = id).
Proof.
  intros Hl g. destruct (create_full _ _ _ _ _ Hl) as (Hf0 & Ha0 & _).
  destruct (run_full l es _ Hf0) as [[Hq Hp Ht Ha Hw] Hbusy]. pose proof (run_accounted l es _ Hf0 Ha0) as Hacc.
  fold g in Hq, Hp, Ht, Ha, Hw, Hbusy, Hacc. cbn [snapshot sn_active sn_waiting sn_principals].
  split_and!; try done; try apply Hp; try apply Hq; try apply Ht.
  - by rewrite turns_count.
  - intros p. rewrite (tk_waiting _ Ht). split; [|by intros (w & q & ->)].
    intros [[|w q] E]; [by apply (qk_nonempty _ Hq) in E|eauto].
  - lia.
  - intros id Hid Hn. destruct (Hacc id Hid) as [[r E]|?]; [congruence|done].
Qed.

(** C30: waiting turns are fair.  A request at the front of its principal's
    queue with [k] principals before it sees at most [k] other requests admitted
    before it is answered, whoever arrives, leaves or releases in the meantime. *)
Theorem inference_no_overtaking a n ms l g0 es es' x w q k :
  createInferenceAdmissionController a n ms = Ok (l, g0) ->
  let g := gateRun l es g0 in
  let g' := gateRun l es' g in
  gt_turnOrder g !! k = Some x -> gt_waitingByPrincipal g !! x = Some (w :: q) ->
  gt_results g' !! wt_id w = None ->
  (grants l es' g <= k)%nat
  /\ exists k' q', (k' + grants l es' g <= k)%nat /\ gt_turnOrder g' !! k' = Some x
       /\ gt_waitingByPrincipal g' !! x = Some (w :: q').
Proof.
  intros Hl g g' Hk Hx Hnone. assert (gate_full l g) as Hf by (by eapply run_full, create_full).
  destruct (run_nearer l es' g x w k Hf) as [[r Hr]|(k' & [Hk' [q' Hq']] & Hle)]; [constructor; eauto| |].
  - fold g' in Hr. congruence.
  - split; [lia|]. exists k', q'. done.
Qed.

(** ** Two principals and one permit *)

Module DemoGate.
Definition limits := mkLimits 1 4 5000.
Definition start : Gate := mkGate 0 0 ∅ [] ∅ ∅ ∅ 0.
Definition alice : Principal := Some "alice"%string.
Definition bob : Principal := Some "bob"%string.
(** Alice holds the permit and queues twice, then Bob queues. *)
Definition arrivals : list GateEvent :=
  [Acquire alice false false 0; Acquire alice false false 1; Acquire alice false false 2; Acquire bob false false 3].
(** The first permit comes back and goes to Alice's second request. *)
Definition later : list GateEvent := [Release 0 (fun _ => 10%Q); WaitExpires 2 (20%Q)].
Definition bobWaits := mkWaiter 3 bob 3.
End DemoGate.

Lemma inference_admission_safe_witness :
  sn_active (snapshot DemoGate.limits (gateRun DemoGate.limits DemoGate.arrivals DemoGate.start)) <= 1
  /\ gt_waitingCount (gateRun DemoGate.limits DemoGate.arrivals DemoGate.start) = 3.
Proof.
  split; [|vm_compute; reflexivity].
  exact (proj1 (proj2 (inference_admission_safe (Some 1) (Some 4) None DemoGate.limits DemoGate.start
    DemoGate.arrivals eq_refl))).
Defined.

Lemma inference_no_overtaking_witness :
  (grants DemoGate.limits DemoGate.later (gateRun DemoGate.limits DemoGate.arrivals DemoGate.start) <= 1)%nat.
Proof.
  refine (proj1 (inference_no_overtaking (Some 1) (Some 4) None DemoGate.limits DemoGate.start
    DemoGate.arrivals DemoGate.later DemoGate.bob DemoGate.bobWaits [] 1 eq_refl _ _ _)); vm_compute; reflexivity.
Defined.
