(* ===== verification/TelemetryQueue.v ===== *)
(** * The optional telemetry queue

    [src/optional-telemetry-queue.ts]: a bounded FIFO with one writer that may
    be called a few times at once, drained by an asynchronous loop with an
    absolute wait bound.  The closure's variables are a record; a write and a
    drain are named by the number of their start.  Each [await] ends a function
    of the model, and what resumes it is an event.  The writer, the measure and
    the clocks are parameters; the writer does not call back into the queue
    before it returns its promise. *)

From stdpp Require Import base gmap strings list.
From Stdlib Require Import ZArith QArith Qround Lia.
From S2P Require Import Prelude.
Open Scope string_scope.
Open Scope Z_scope.

(** ** Data *)

Record OptionalTelemetryQueueBounds := mkBounds {
  maxEntries : Z; maxBytes : Z; maxAgeMs : Z; maxConcurrentWrites : Z; maxDrainWaitMs : Z }.

Definition OPTIONAL_TELEMETRY_QUEUE_BOUNDS : OptionalTelemetryQueueBounds :=
  mkBounds 256 (256 * 1024) 60000 4 5000.

Inductive OptionalTelemetryEnqueueOutcome := Enqueued | DroppedClosed | DroppedCapacity | DroppedBytes.

Record PendingEntry {TEntry : Type} := mkPending { pe_entry : TEntry; pe_bytes : Z; pe_enqueued_at_ms : Z }.
Arguments PendingEntry : clear implicits.

Record Counters := mkCounters {
  ct_enqueued : Z; ct_delivered : Z; ct_failed : Z; ct_dropped_by_entries : Z; ct_dropped_by_bytes : Z;
  ct_dropped_by_age : Z; ct_dropped_after_closed : Z; ct_coalesced_flushes : Z; ct_drain_timeouts : Z }.

#[export] Instance eta_Counters : Eta Counters := fun c =>
  mkCounters (ct_enqueued c) (ct_delivered c) (ct_failed c) (ct_dropped_by_entries c) (ct_dropped_by_bytes c)
    (ct_dropped_by_age c) (ct_dropped_after_closed c) (ct_coalesced_flushes c) (ct_drain_timeouts c).

(** A write whose outcome is counted keeps its charge until its [finally]. *)
Inductive WriteStage := Writing | Counted.

#[export] Instance WriteStage_eq_dec : EqDecision WriteStage.
Proof. solve_decision. Defined.

(** A drain waits in [waitForProgress] on the writes it raced, or its loop has
    returned and its promise is about to settle. *)
Inductive DrainStage := Waiting (deadlineAtMs : Z) (raced : gset nat) | Returned.

Record Queue {TEntry : Type} := mkQueue {
  tq_queued : list (PendingEntry TEntry);
  tq_inFlight : gmap nat (PendingEntry TEntry * WriteStage);
  tq_counters : Counters;
  tq_retainedEntries : Z;
  tq_retainedBytes : Z;
  tq_drain : option nat;
  tq_drainLoopActive : bool;
  tq_closed : bool;
  tq_stalled : bool;
  tq_shutdownIncomplete : bool;
  tq_lastErrorClass : option string;
  (** Drains that are not settled, the drains the calls of [close] await, the
      next readings of the clock, and the next write and drain. *)
  tq_drains : gmap nat DrainStage;
  tq_closing : list nat;
  tq_tick : nat;
  tq_nextWrite : nat;
  tq_nextDrain : nat }.
Arguments Queue : clear implicits.

#[export] Instance eta_Queue {T} : Eta (Queue T) := fun q =>
  mkQueue T (tq_queued q) (tq_inFlight q) (tq_counters q) (tq_retainedEntries q) (tq_retainedBytes q) (tq_drain q)
    (tq_drainLoopActive q) (tq_closed q) (tq_stalled q) (tq_shutdownIncomplete q) (tq_lastErrorClass q)
    (tq_drains q) (tq_closing q) (tq_tick q) (tq_nextWrite q) (tq_nextDrain q).

(** [None] is an absent option; a fraction is not a [Z] and falls back too. *)
Definition boundedInteger (value : option Z) (fallback : Z) : Z :=
  match value with Some v => if isSafeInteger v && (0 <? v) then v else fallback | None => fallback end.

Section queue.
Context {TEntry : Type}.
(** [measure]: [None] is a size that is not finite.  [now]: [None] likewise,
    and otherwise what [Math.trunc] makes of it; [dateNow] is [Date.now]. *)
Context (bounds : OptionalTelemetryQueueBounds) (measure : TEntry -> option Q)
  (now : nat -> option Z) (dateNow : nat -> Z).
Local Notation Queue := (Queue TEntry).
Local Notation PendingEntry := (PendingEntry TEntry).

(** ** Helpers *)

Definition reading (n : nat) : Z :=
  match now n with
  | Some v => if isSafeInteger v && (0 <=? v) then v else dateNow n
  | None => dateNow n
  end.

Definition timestamp (q : Queue) : Z * Queue := (reading (tq_tick q), q <| tq_tick := S (tq_tick q) |>).

Definition count (f : Counters -> Counters) (q : Queue) : Queue := q <| tq_counters := f (tq_counters q) |>.

Definition releaseCharge (item : PendingEntry) (q : Queue) : Queue :=
  q <| tq_retainedEntries := tq_retainedEntries q - 1 |> <| tq_retainedBytes := tq_retainedBytes q - pe_bytes item |>.

Definition dropAged (item : PendingEntry) (q : Queue) : Queue :=
  count (fun c => c <| ct_dropped_by_age := ct_dropped_by_age c + 1 |>) (releaseCharge item q).

(** From the last entry to the first, what is kept stays in order. *)
Definition dropExpiredQueued (q : Queue) : Queue :=
  match tq_queued q with
  | [] => q
  | queued =>
      let '(t, q) := timestamp q in
      let cutoff := t - maxAgeMs bounds in
      let '(kept, q) := foldr (fun item '(kept, q) =>
        if cutoff <? pe_enqueued_at_ms item then (item :: kept, q) else (kept, dropAged item q)) ([], q) queued in
      q <| tq_queued := kept |>
  end.

Definition isExpired (item : PendingEntry) (q : Queue) : bool * Queue :=
  let '(t, q) := timestamp q in (maxAgeMs bounds <=? t - pe_enqueued_at_ms item, q).

(** The writer is called; its promise is the new write. *)
Definition writeOne (item : PendingEntry) (q : Queue) : Queue :=
  q <| tq_inFlight := <[tq_nextWrite q := (item, Writing)]> (tq_inFlight q) |>
    <| tq_nextWrite := S (tq_nextWrite q) |>.

Definition dispatchNextQueued (q : Queue) : Queue :=
  match tq_queued q with
  | [] => q
  | item :: queued =>
      let '(expired, q) := isExpired item (q <| tq_queued := queued |>) in
      if expired then dropAged item q else writeOne item q
  end.

Definition inFlightSize (q : Queue) : Z := Z.of_nat (size (tq_inFlight q)).

Definition hasDispatchCapacity (q : Queue) : bool :=
  (0 <? Z.of_nat (length (tq_queued q))) && (inFlightSize q <? maxConcurrentWrites bounds).

Fixpoint dispatchLoop (fuel : nat) (q : Queue) : Queue :=
  match fuel with
  | O => q
  | S fuel => if hasDispatchCapacity q then dispatchLoop fuel (dispatchNextQueued q) else q
  end.

(** ** The drain loop *)

(** [return], with the [finally] of the loop. *)
Definition drainReturns (id : nat) (q : Queue) : Queue :=
  q <| tq_drainLoopActive := false |> <| tq_drains := <[id := Returned]> (tq_drains q) |>.

Definition drainTimesOut (id : nat) (q : Queue) : Queue :=
  drainReturns id (count (fun c => c <| ct_drain_timeouts := ct_drain_timeouts c + 1 |>) q <| tq_stalled := true |>).

(** One turn of the loop, to the next [await] or the end.  Every dispatch takes
    an entry, so the entries queued are fuel enough. *)
Definition drainTurn (id : nat) (deadlineAtMs : Z) (q : Queue) : Queue :=
  let q := dropExpiredQueued q in
  if tq_shutdownIncomplete q then drainReturns id q else
  if tq_stalled q && (0 <? inFlightSize q) then drainReturns id q else
  let q := dispatchLoop (length (tq_queued q)) q in
  if bool_decide (tq_queued q = []) && (inFlightSize q =? 0) then drainReturns id q else
  let '(t, q) := timestamp q in
  if 0 <? deadlineAtMs - t
  then q <| tq_drains := <[id := Waiting deadlineAtMs (dom (tq_inFlight q))]> (tq_drains q) |>
  else drainTimesOut id q.

Definition drainPending (id : nat) (q : Queue) : Queue :=
  let q := q <| tq_drainLoopActive := true |> in
  if tq_shutdownIncomplete q then drainReturns id q else
  let '(t, q) := timestamp q in
  drainTurn id (t + maxDrainWaitMs bounds) q.

(** The promise returned is the drain's number. *)
Definition startDrain (q : Queue) : nat * Queue :=
  match tq_drain q, tq_drainLoopActive q with
  | Some running, true =>
      (running, count (fun c => c <| ct_coalesced_flushes := ct_coalesced_flushes c + 1 |>) q)
  | _, _ =>
      let id := tq_nextDrain q in
      (id, drainPending id (q <| tq_drain := Some id |> <| tq_nextDrain := S id |>))
  end.

(** ** The interface *)

(** The entry pushed, charged and counted. *)
Definition accept (entry : TEntry) (bytes : Z) (q : Queue) : Queue :=
  let '(t, q) := timestamp q in
  let q := q <| tq_queued := (tq_queued q ++ [mkPending TEntry entry bytes t])%list |>
             <| tq_retainedEntries := tq_retainedEntries q + 1 |>
             <| tq_retainedBytes := tq_retainedBytes q + bytes |> in
  count (fun c => c <| ct_enqueued := ct_enqueued c + 1 |>) q.

Definition enqueue (entry : TEntry) (q : Queue) : OptionalTelemetryEnqueueOutcome * Queue :=
  if tq_closed q
  then (DroppedClosed, count (fun c => c <| ct_dropped_after_closed := ct_dropped_after_closed c + 1 |>) q) else
  let q := dropExpiredQueued q in
  let dropped_bytes := (DroppedBytes, count (fun c => c <| ct_dropped_by_bytes := ct_dropped_by_bytes c + 1 |>) q) in
  match measure entry with
  | None => dropped_bytes
  | Some size =>
      if negb (Qle_bool 0 size) then dropped_bytes else
      let bytes := Qceiling size in
      if maxEntries bounds <=? tq_retainedEntries q
      then (DroppedCapacity, count (fun c => c <| ct_dropped_by_entries := ct_dropped_by_entries c + 1 |>) q) else
      if maxBytes bounds <? tq_retainedBytes q + bytes then dropped_bytes else
      (Enqueued, snd (startDrain (accept entry bytes q)))
  end.

Definition flush (q : Queue) : nat * Queue := startDrain q.

(** [close] up to its [await], and after it. *)
Definition close (q : Queue) : Queue :=
  let q := q <| tq_closed := true |> in
  if tq_shutdownIncomplete q then q else
  let '(id, q) := startDrain q in q <| tq_closing := id :: tq_closing q |>.

Definition closeResumes (id : nat) (q : Queue) : Queue :=
  let q := q <| tq_closing := remove_first (Nat.eqb id) (tq_closing q) |> in
  if (0 <? tq_retainedEntries q) || (0 <? inFlightSize q) || negb (bool_decide (tq_queued q = []))
  then q <| tq_shutdownIncomplete := true |> else q.
(** ** Events *)

Definition createOptionalTelemetryQueue : Queue :=
  mkQueue TEntry [] ∅ (mkCounters 0 0 0 0 0 0 0 0 0) 0 0 None false false false false None ∅ [] 0 0 0.

(** What the writer's promise comes to. *)
Inductive WriteOutcome := Recorded | NotRecorded | WriteThrew (errorClass : string).

Definition writeSettles (id : nat) (o : WriteOutcome) (q : Queue) : Queue :=
  match tq_inFlight q !! id with
  | Some (item, _) =>
      let q := q <| tq_inFlight := <[id := (item, Counted)]> (tq_inFlight q) |> in
      match o with
      | Recorded => count (fun c => c <| ct_delivered := ct_delivered c + 1 |>) q
      | NotRecorded => count (fun c => c <| ct_failed := ct_failed c + 1 |>) q
      | WriteThrew class =>
          count (fun c => c <| ct_failed := ct_failed c + 1 |>) q <| tq_lastErrorClass := Some class |>
      end
  | None => q
  end.

(** The [finally] of a write. *)
Definition writeFinally (id : nat) (q : Queue) : Queue :=
  match tq_inFlight q !! id with
  | Some (item, _) =>
      let q := releaseCharge item (q <| tq_inFlight := delete id (tq_inFlight q) |>) in
      if inFlightSize q =? 0 then q <| tq_stalled := false |> else q
  | None => q
  end.

(** The race of [waitForProgress] is won by a write or by the timer. *)
Definition drainResumes (id : nat) (progress : bool) (q : Queue) : Queue :=
  match tq_drains q !! id with
  | Some (Waiting deadlineAtMs _) => if progress then drainTurn id deadlineAtMs q else drainTimesOut id q
  | _ => q
  end.

(** The [then] of [startDrain]. *)
Definition drainRetires (id : nat) (q : Queue) : Queue :=
  let q := if bool_decide (tq_drain q = Some id) then q <| tq_drain := None |> else q in
  q <| tq_drains := delete id (tq_drains q) |>.

Inductive QueueEvent :=
| Enqueue (entry : TEntry)
| Flush
| Close
| WriteSettles (id : nat) (o : WriteOutcome)
| WriteFinally (id : nat)
| DrainResumes (id : nat) (progress : bool)
| DrainRetires (id : nat)
| CloseResumes (id : nat).

Definition queueStep (e : QueueEvent) (q : Queue) : Queue :=
  match e with
  | Enqueue entry => snd (enqueue entry q)
  | Flush => snd (flush q)
  | Close => close q
  | WriteSettles id o => writeSettles id o q
  | WriteFinally id => writeFinally id q
  | DrainResumes id progress => drainResumes id progress q
  | DrainRetires id => drainRetires id q
  | CloseResumes id => closeResumes id q
  end.

Definition write_stage (id : nat) (q : Queue) : option WriteStage := snd <$> tq_inFlight q !! id.

(** The events the event loop can deliver.  The [finally] of a write is
    registered before the race, so a write that wins it has left the map; the
    timer is a task, so no raced write has settled when it wins. *)
Definition queue_enabled (e : QueueEvent) (q : Queue) : Prop :=
  match e with
  | Enqueue _ | Flush | Close => True
  | WriteSettles id _ => write_stage id q = Some Writing
  | WriteFinally id => write_stage id q = Some Counted
  | DrainResumes id true => exists deadline raced, tq_drains q !! id = Some (Waiting deadline raced)
      /\ (raced = ∅ \/ exists w, w ∈ raced /\ tq_inFlight q !! w = None)
  | DrainResumes id false => exists deadline raced, tq_drains q !! id = Some (Waiting deadline raced)
      /\ raced <> ∅ /\ forall w, w ∈ raced -> write_stage w q = Some Writing
  | DrainRetires id => tq_drains q !! id = Some Returned
  | CloseResumes id => id ∈ tq_closing q /\ tq_drains q !! id = None
  end.

Inductive queue_reachable (q0 : Queue) : Queue -> Prop :=
| queue_start : queue_reachable q0 q0
| queue_next q e : queue_reachable q0 q -> queue_enabled e q -> queue_reachable q0 (queueStep e q).

(** ** The snapshot *)

Definition older (acc : option Z) (item : PendingEntry) : option Z :=
  match acc with
  | None => Some (pe_enqueued_at_ms item)
  | Some t => if pe_enqueued_at_ms item <? t then Some (pe_enqueued_at_ms item) else acc
  end.

Definition oldestRetainedAgeMs (q : Queue) : option Z :=
  if tq_retainedEntries q =? 0 then None else
  match foldl older (foldl older None (tq_queued q)) (fst <$> obj_values (tq_inFlight q)) with
  | None => None
  | Some t => Some (Z.max 0 (fst (timestamp q) - t))
  end.

Record OptionalTelemetryQueueSnapshot := mkSnapshot {
  sn_retained_entries : Z; sn_retained_bytes : Z; sn_queued_entries : Z; sn_oldest_retained_age_ms : option Z;
  sn_writes_in_flight : Z; sn_drain_in_progress : bool; sn_dispatch_stalled : bool; sn_shutdown_incomplete : bool;
  sn_closed : bool; sn_counters : Counters; sn_last_error_class : option string }.

Definition snapshot (q : Queue) : OptionalTelemetryQueueSnapshot :=
  mkSnapshot (tq_retainedEntries q) (tq_retainedBytes q) (Z.of_nat (length (tq_queued q))) (oldestRetainedAgeMs q)
    (inFlightSize q) (bool_decide (is_Some (tq_drain q))) (tq_stalled q) (tq_shutdownIncomplete q)
    (tq_closed q) (tq_counters q) (tq_lastErrorClass q).
End queue.

(** The bounds in force. *)
Definition effectiveBounds (entries bytes age writes wait : option Z) : OptionalTelemetryQueueBounds :=
  let d := OPTIONAL_TELEMETRY_QUEUE_BOUNDS in
  mkBounds (boundedInteger entries (maxEntries d)) (boundedInteger bytes (maxBytes d)) (boundedInteger age (maxAgeMs d))
    (boundedInteger writes (maxConcurrentWrites d)) (boundedInteger wait (maxDrainWaitMs d)).
