(* ===== verification/TelemetrySafety.v ===== *)
(** * The optional telemetry queue: bounds, conservation, shutdown

    The invariant of the queue of TelemetryQueue.v over every order of calls,
    write outcomes and timers. *)

From stdpp Require Import base gmap strings list.
From Stdlib Require Import ZArith QArith Qround Lia.
From S2P Require Import Prelude TelemetryQueue.
Open Scope Z_scope.

(** ** Charges *)

Fixpoint entry_bytes {T} (l : list (PendingEntry T)) : Z :=
  match l with [] => 0 | e :: l => pe_bytes e + entry_bytes l end.

Lemma entry_bytes_app {T} (l k : list (PendingEntry T)) : entry_bytes (l ++ k) = entry_bytes l + entry_bytes k.
Proof. induction l as [|e l IH]; cbn; [done|]. rewrite IH. lia. Qed.

Definition flight_bytes {T} (w : PendingEntry T * WriteStage) : Z := pe_bytes (fst w).
Definition flight_open {T} (w : PendingEntry T * WriteStage) : Z := match snd w with Writing => 1 | Counted => 0 end.

Section queue.
Context {TEntry : Type} (bounds : OptionalTelemetryQueueBounds) (measure : TEntry -> option Q)
  (now : nat -> option Z) (dateNow : nat -> Z).
Local Notation Queue := (Queue TEntry).
Local Notation PendingEntry := (PendingEntry TEntry).
Implicit Types q : Queue.

(** Every entry that is queued or being written is charged once, within the
    bounds, and every entry accepted is queued, being written, or counted. *)
Record charges_ok q : Prop := {
  ch_entries : tq_retainedEntries q = Z.of_nat (length (tq_queued q)) + inFlightSize q;
  ch_bytes : tq_retainedBytes q = entry_bytes (tq_queued q) + msum flight_bytes (tq_inFlight q);
  ch_queued : Forall (fun e => 0 <= pe_bytes e) (tq_queued q);
  ch_flight id w : tq_inFlight q !! id = Some w -> 0 <= flight_bytes w;
  ch_max_entries : tq_retainedEntries q <= maxEntries bounds;
  ch_max_bytes : tq_retainedBytes q <= maxBytes bounds;
  ch_writers : inFlightSize q <= maxConcurrentWrites bounds;
  ch_conserved : ct_enqueued (tq_counters q)
    = ct_delivered (tq_counters q) + ct_failed (tq_counters q) + ct_dropped_by_age (tq_counters q)
      + Z.of_nat (length (tq_queued q)) + msum flight_open (tq_inFlight q);
  ch_fresh id : (tq_nextWrite q <= id)%nat -> tq_inFlight q !! id = None }.

(** What the dispatching half of a drain leaves alone. *)
Record same_control q q' : Prop := {
  sc_drain : tq_drain q' = tq_drain q;
  sc_active : tq_drainLoopActive q' = tq_drainLoopActive q;
  sc_closed : tq_closed q' = tq_closed q;
  sc_stalled : tq_stalled q' = tq_stalled q;
  sc_incomplete : tq_shutdownIncomplete q' = tq_shutdownIncomplete q;
  sc_drains : tq_drains q' = tq_drains q;
  sc_closing : tq_closing q' = tq_closing q;
  sc_nextDrain : tq_nextDrain q' = tq_nextDrain q;
  sc_timeouts : ct_drain_timeouts (tq_counters q') = ct_drain_timeouts (tq_counters q);
  sc_enqueued : ct_enqueued (tq_counters q') = ct_enqueued (tq_counters q);
  sc_tick : (tq_tick q <= tq_tick q')%nat }.

Lemma same_refl q : same_control q q.
Proof using Type. done. Qed.

Lemma same_trans q q1 q2 : same_control q q1 -> same_control q1 q2 -> same_control q q2.
Proof using Type. intros [] []. constructor; congruence || lia. Qed.

Lemma same_tick q : same_control q (q <| tq_tick := S (tq_tick q) |>).
Proof using Type. constructor; cbn; done || lia. Qed.

Ltac same := solve [constructor; cbn; done || lia].

(** The front entry leaves the queue, its charge released. *)
Lemma dropAged_ok q item queued :
  charges_ok q -> tq_queued q = item :: queued -> charges_ok (dropAged item q <| tq_queued := queued |>).
Proof using Type.
  intros [H1 H2 H3 H4 H5 H6 H7 H8 H9] E. rewrite E in *. apply Forall_cons in H3 as [H3 H3'].
  unfold inFlightSize in *. constructor; cbn in *; try done; unfold inFlightSize in *; cbn in *; lia.
Qed.

(** The entries still queued while old ones are dropped from the back. *)
Lemma dropExpired_fold (cutoff : Z) q queued front :
  charges_ok q -> tq_queued q = (front ++ queued)%list ->
  let '(kept, q') := foldr (fun item '(kept, q) =>
        if cutoff <? pe_enqueued_at_ms item then (item :: kept, q) else (kept, dropAged item q)) ([], q) queued in
  charges_ok (q' <| tq_queued := (front ++ kept)%list |>) /\ same_control q q'
  /\ tq_inFlight q' = tq_inFlight q /\ tq_nextWrite q' = tq_nextWrite q.
Proof using Type.
  revert front. induction queued as [|item queued IH]; intros front Hq E; cbn.
  { rewrite <- E. by destruct Hq. }
  specialize (IH (front ++ [item])%list Hq). rewrite <- app_assoc in IH. specialize (IH E).
  destruct (foldr _ _ queued) as [kept q'] eqn:Ef. destruct IH as (Hc & Hs & Hf & Hn).
  rewrite <- app_assoc in Hc. cbn [app] in Hc. destruct (_ <? _); [done|].
  split_and!; [|by destruct Hs|done|done].
  destruct Hc as [H1 H2 H3 H4 H5 H6 H7 H8 H9]. unfold inFlightSize in *. cbn in *.
  rewrite ?length_app, ?entry_bytes_app in *. cbn in *. apply Forall_app in H3 as [H3 [H3' H3'']%Forall_cons].
  constructor; cbn; unfold inFlightSize; cbn; rewrite ?length_app, ?entry_bytes_app; try done; try lia.
  by apply Forall_app.
Qed.

Lemma dropExpired_ok q :
  charges_ok q -> let q' := dropExpiredQueued bounds now dateNow q in
  charges_ok q' /\ same_control q q' /\ tq_inFlight q' = tq_inFlight q /\ tq_nextWrite q' = tq_nextWrite q.
Proof using Type.
  intros Hq. unfold dropExpiredQueued. destruct (tq_queued q) as [|e l] eqn:E; [by destruct Hq|]. cbn [timestamp].
  set (t := reading now dateNow (tq_tick _)). set (q0 := q <| tq_tick := S (tq_tick q) |>).
  assert (charges_ok q0) as Hq0 by (by destruct Hq).
  pose proof (dropExpired_fold (t - maxAgeMs bounds) q0 (e :: l) [] Hq0 E) as H.
  destruct (foldr _ _ (e :: l)) as [kept q']. destruct H as (H1 & H2 & H3 & H4).
  split_and!; [exact H1|eapply same_trans; [apply same_tick|by destruct H2]|exact H3|exact H4].
Qed.

Lemma writeOne_ok q item queued :
  charges_ok q -> tq_queued q = item :: queued -> inFlightSize q < maxConcurrentWrites bounds ->
  charges_ok (writeOne item (q <| tq_queued := queued |>)).
Proof using Type.
  intros [H1 H2 H3 H4 H5 H6 H7 H8 H9] E Hlt. rewrite E in *. apply Forall_cons in H3 as [H3 H3'].
  assert (tq_inFlight q !! tq_nextWrite q = None) as Hn by (by apply H9).
  unfold inFlightSize in *. cbn in *. constructor; cbn; unfold inFlightSize; cbn;
    rewrite ?(map_size_insert_None _ _ _ Hn), ?(msum_insert_None _ _ _ _ Hn); cbn; try done; try lia.
  - unfold flight_bytes at 1. cbn. lia.
  - intros id w. destruct (decide (id = tq_nextWrite q)) as [->|Hne]; [rewrite lookup_insert_eq; by intros [= <-]|].
    rewrite lookup_insert_ne by done. apply H4.
  - intros id Hid. rewrite lookup_insert_ne by lia. apply H9. lia.
Qed.

(** One dispatch takes one entry; no write starts beyond the writer bound. *)
Lemma dispatchNext_ok q :
  charges_ok q -> hasDispatchCapacity bounds q = true ->
  let q' := dispatchNextQueued bounds now dateNow q in
  charges_ok q' /\ same_control q q' /\ length (tq_queued q) = S (length (tq_queued q')).
Proof using Type.
  intros Hq [Hl Hc]%andb_true_iff. unfold dispatchNextQueued. destruct (tq_queued q) as [|item queued] eqn:E; [done|].
  cbn [isExpired timestamp]. set (t := reading now dateNow (tq_tick _)).
  destruct (_ <=? _).
  - assert (charges_ok (q <| tq_tick := S (tq_tick q) |>)) as H by (by destruct Hq).
    split_and!; [exact (dropAged_ok _ item queued H E)|same|done].
  - assert (charges_ok (q <| tq_tick := S (tq_tick q) |>)) as H by (by destruct Hq).
    split_and!; [apply (writeOne_ok _ item queued H E); unfold inFlightSize in *; cbn; lia|same|done].
Qed.

Lemma dispatchLoop_ok fuel q :
  charges_ok q -> (length (tq_queued q) <= fuel)%nat ->
  let q' := dispatchLoop bounds now dateNow fuel q in
  charges_ok q' /\ same_control q q' /\ hasDispatchCapacity bounds q' = false.
Proof using Type.
  revert q. induction fuel as [|fuel IH]; intros q Hq Hf; cbn [dispatchLoop].
  { split_and!; [done|done|]. unfold hasDispatchCapacity. by replace (length (tq_queued q)) with O by lia. }
  destruct (hasDispatchCapacity bounds q) eqn:E; [|done].
  destruct (dispatchNext_ok q Hq E) as (H1 & H2 & H3). destruct (IH _ H1) as (H4 & H5 & H6); [lia|].
  split_and!; [done|by eapply same_trans|done].
Qed.

(** ** Drains *)

(** The loop that is active is the published drain, and waits. *)
Record drains_ok q : Prop := {
  dr_waiting id d raced : tq_drains q !! id = Some (Waiting d raced) ->
    tq_drainLoopActive q = true /\ tq_drain q = Some id;
  dr_active : tq_drainLoopActive q = true ->
    exists id d raced, tq_drain q = Some id /\ tq_drains q !! id = Some (Waiting d raced);
  dr_published id : tq_drain q = Some id -> is_Some (tq_drains q !! id);
  dr_fresh id : (tq_nextDrain q <= id)%nat -> tq_drains q !! id = None;
  dr_stalled : tq_stalled q = true -> 0 < ct_drain_timeouts (tq_counters q);
  dr_timeouts : 0 <= ct_drain_timeouts (tq_counters q);
  dr_incomplete : tq_shutdownIncomplete q = true -> tq_closed q = true;
  dr_closing : tq_closing q <> [] -> tq_closed q = true }.

(** Nothing is left queued without a drain unless shutdown gave up or a drain
    timed out. *)
Definition served q : Prop :=
  tq_queued q <> [] ->
  tq_drainLoopActive q = true \/ tq_shutdownIncomplete q = true \/ 0 < ct_drain_timeouts (tq_counters q).

(** How a turn of the loop ends. *)
Record turn_ends (id : nat) q q' : Prop := {
  te_charges : charges_ok q';
  te_drain : tq_drain q' = tq_drain q;
  te_closed : tq_closed q' = tq_closed q;
  te_incomplete : tq_shutdownIncomplete q' = tq_shutdownIncomplete q;
  te_closing : tq_closing q' = tq_closing q;
  te_nextDrain : tq_nextDrain q' = tq_nextDrain q;
  te_enqueued : ct_enqueued (tq_counters q') = ct_enqueued (tq_counters q);
  te_stalled : tq_stalled q' = true -> 0 < ct_drain_timeouts (tq_counters q');
  te_timeouts : ct_drain_timeouts (tq_counters q) <= ct_drain_timeouts (tq_counters q');
  te_silent : tq_shutdownIncomplete q = true -> tq_nextWrite q' = tq_nextWrite q;
  te_stage :
    (tq_drains q' = <[id := Returned]> (tq_drains q) /\ tq_drainLoopActive q' = false
     /\ (tq_queued q' = [] \/ tq_shutdownIncomplete q' = true \/ 0 < ct_drain_timeouts (tq_counters q')))
    \/ exists d, tq_drains q' = <[id := Waiting d (dom (tq_inFlight q'))]> (tq_drains q)
         /\ tq_drainLoopActive q' = tq_drainLoopActive q }.

Lemma timesOut_ends id q :
  charges_ok q -> 0 <= ct_drain_timeouts (tq_counters q) -> turn_ends id q (drainTimesOut id q).
Proof using Type.
  intros [] Ht. constructor; cbn; try done; try lia. left. split_and!; [done|done|]. right. right. lia.
Qed.

Lemma drainReturns_ends id q :
  charges_ok q -> (tq_stalled q = true -> 0 < ct_drain_timeouts (tq_counters q)) ->
  tq_queued q = [] \/ tq_shutdownIncomplete q = true \/ 0 < ct_drain_timeouts (tq_counters q) ->
  turn_ends id q (drainReturns id q).
Proof using Type. intros [] Ht Hs. constructor; cbn; try done. by left. Qed.

(** A turn that starts where the dispatching half left the queue. *)
Lemma turn_via id q q1 q2 :
  same_control q q1 -> (tq_shutdownIncomplete q = true -> tq_nextWrite q1 = tq_nextWrite q) ->
  turn_ends id q1 q2 -> turn_ends id q q2.
Proof using Type.
  intros [] Hn []. constructor; try congruence; try done; try lia.
  - intros Hi. rewrite te_silent0 by congruence. auto.
  - destruct te_stage0 as [(E1 & E2 & E3)|(d & E1 & E2)]; [left|right; exists d]; split_and!; try congruence; done.
Qed.

Lemma drainTurn_ends id deadline q :
  charges_ok q ->
  (tq_stalled q = true -> 0 < ct_drain_timeouts (tq_counters q)) -> 0 <= ct_drain_timeouts (tq_counters q) ->
  turn_ends id q (drainTurn bounds now dateNow id deadline q).
Proof using Type.
  intros Hq Hst Ht. unfold drainTurn. destruct (dropExpired_ok q Hq) as (H1 & H2 & H3 & H4).
  set (q1 := dropExpiredQueued bounds now dateNow q) in *. apply (turn_via id q q1); [done|done|].
  assert (tq_stalled q1 = true -> 0 < ct_drain_timeouts (tq_counters q1)) as Hst1 by (destruct H2; by rewrite sc_stalled0, sc_timeouts0).
  assert (0 <= ct_drain_timeouts (tq_counters q1)) as Ht1 by (destruct H2; by rewrite sc_timeouts0).
  clearbody q1. destruct (tq_shutdownIncomplete q1) eqn:Ei; [apply drainReturns_ends; auto|].
  destruct (tq_stalled q1 && _) eqn:Es; [apply andb_true_iff in Es as [Es _]; apply drainReturns_ends; auto|].
  destruct (dispatchLoop_ok _ q1 H1 (Nat.le_refl _)) as (H5 & H6 & H7).
  set (q2 := dispatchLoop bounds now dateNow _ q1) in *. apply (turn_via id q1 q2); [done|by rewrite Ei|].
  assert (tq_stalled q2 = true -> 0 < ct_drain_timeouts (tq_counters q2)) as Hst2 by (destruct H6; by rewrite sc_stalled0, sc_timeouts0).
  assert (0 <= ct_drain_timeouts (tq_counters q2)) as Ht2 by (destruct H6; by rewrite sc_timeouts0).
  clearbody q2. destruct (bool_decide _ && _) eqn:Ed.
  { apply andb_true_iff in Ed as [Ed%bool_decide_eq_true _]. apply drainReturns_ends; auto. }
  cbn [timestamp]. set (t := reading now dateNow (tq_tick _)).
  apply (turn_via id q2 (q2 <| tq_tick := S (tq_tick q2) |>)); [apply same_tick|done|].
  assert (charges_ok (q2 <| tq_tick := S (tq_tick q2) |>)) as H8 by (by destruct H5).
  destruct (0 <? deadline - t); [|by apply timesOut_ends]. constructor; try done; [by destruct H8|]. right. by eexists.
Qed.

(** The published drain after a turn. *)
Lemma ends_ok id q q' :
  turn_ends id q q' -> tq_drain q = Some id -> tq_drainLoopActive q = true ->
  (forall j d raced, tq_drains q !! j = Some (Waiting d raced) -> j = id) ->
  (forall j, (tq_nextDrain q <= j)%nat -> tq_drains q !! j = None) -> (id < tq_nextDrain q)%nat ->
  0 <= ct_drain_timeouts (tq_counters q) -> (tq_shutdownIncomplete q = true -> tq_closed q = true) ->
  (tq_closing q <> [] -> tq_closed q = true) ->
  charges_ok q' /\ drains_ok q' /\ served q'.
Proof using Type.
  intros [] Hd Ha Hw Hf Hid Ht Hi Hcl. split; [done|].
  assert (forall st, tq_drains q' = <[id := st]> (tq_drains q) ->
    (forall j d raced, tq_drains q' !! j = Some (Waiting d raced) -> j = id /\ st = Waiting d raced)
    /\ (forall j, tq_drain q' = Some j -> is_Some (tq_drains q' !! j))
    /\ (forall j, (tq_nextDrain q' <= j)%nat -> tq_drains q' !! j = None)) as Hst.
  { intros st E. rewrite E, te_drain0, te_nextDrain0, Hd. split_and!.
    - intros j d raced. destruct (decide (j = id)) as [->|Hne]; [rewrite lookup_insert_eq; by intros [= ->]|].
      rewrite lookup_insert_ne by done. intros H. by apply Hw in H.
    - intros j [= <-]. rewrite lookup_insert_eq. eauto.
    - intros j Hj. rewrite lookup_insert_ne by lia. auto. }
  destruct te_stage0 as [(E & E1 & E2)|(d & E & E1)]; destruct (Hst _ E) as (W1 & W2 & W3); split.
  - constructor; try done; [|rewrite E1; done|lia|by rewrite te_incomplete0, te_closed0|by rewrite te_closing0, te_closed0]. by intros j d raced [_ ?]%W1.
  - intros Hne. destruct E2 as [?|[?|?]]; auto; done.
  - constructor; try done; [|rewrite E1; intros _|lia|by rewrite te_incomplete0, te_closed0|by rewrite te_closing0, te_closed0].
    + intros j d' raced [-> _]%W1. split; congruence.
    + exists id, d, (dom (tq_inFlight q')). rewrite E, lookup_insert_eq. split; congruence.
  - intros Hne. left. congruence.
Qed.

(** What every event keeps: whether the queue is closed, what it accepted, and,
    once shutdown gave up, the writes it started. *)
Record keeps q q' : Prop := {
  kp_incomplete : tq_shutdownIncomplete q = true -> tq_shutdownIncomplete q' = true;
  kp_closed : tq_closed q = true -> tq_closed q' = true;
  kp_enqueued : tq_closed q = true -> ct_enqueued (tq_counters q') = ct_enqueued (tq_counters q);
  kp_silent : tq_shutdownIncomplete q = true -> tq_nextWrite q' = tq_nextWrite q }.

Lemma ends_keeps id q q' : turn_ends id q q' -> keeps q q'.
Proof using Type. intros []. constructor; congruence || done. Qed.

Lemma startDrain_ok q :
  charges_ok q -> drains_ok q ->
  let q' := snd (startDrain bounds now dateNow q) in
  (charges_ok q' /\ drains_ok q' /\ served q') /\ keeps q q'.
Proof using Type.
  intros Hq Hd. unfold startDrain. destruct (tq_drainLoopActive q) eqn:Ea.
  { destruct (dr_active _ Hd Ea) as (id & d & raced & E1 & E2). rewrite E1. cbn. split_and!; [by destruct Hq|by destruct Hd| |done].
    intros _. by left. }
  assert (forall j d raced, tq_drains q !! j <> Some (Waiting d raced)) as Hnone.
  { intros j d raced [? _]%(dr_waiting _ Hd). congruence. }
  set (id := tq_nextDrain q).
  set (q0 := q <| tq_drain := Some id |> <| tq_nextDrain := S id |> <| tq_drainLoopActive := true |>).
  assert (turn_ends id q0 (drainPending bounds now dateNow id (q <| tq_drain := Some id |> <| tq_nextDrain := S id |>))) as Hends.
  { assert (charges_ok q0) as Hq0 by (by destruct Hq). unfold drainPending. fold q0. cbv zeta.
    destruct (tq_shutdownIncomplete q0) eqn:Ei; [apply drainReturns_ends; [done|by destruct Hd|auto]|].
    cbn [timestamp]. eapply (turn_via id q0 (q0 <| tq_tick := S (tq_tick q0) |>)); [apply same_tick|done|].
    apply drainTurn_ends; [by destruct Hq0|by destruct Hd..]. }
  destruct (ends_ok id q0 _ Hends) as (H1 & H2 & H3); [done|done|..|].
  - intros j d raced H. by apply Hnone in H.
  - intros j Hj. apply (dr_fresh _ Hd). cbn in Hj. lia.
  - cbn. lia.
  - apply (dr_timeouts _ Hd).
  - apply (dr_incomplete _ Hd).
  - apply (dr_closing _ Hd).
  - assert (keeps q (drainPending bounds now dateNow id (q <| tq_drain := Some id |> <| tq_nextDrain := S id |>)))
      by (apply ends_keeps in Hends; by destruct Hends).
    by destruct (tq_drain q).
Qed.

(** ** Events *)

Definition queue_ok q : Prop := charges_ok q /\ drains_ok q /\ served q.

Lemma same_drains q q' :
  same_control q q' -> tq_queued q' = [] \/ tq_queued q <> [] -> drains_ok q /\ served q -> drains_ok q' /\ served q'.
Proof using Type.
  intros [] Hne [[] Hs]. split.
  - constructor; rewrite ?sc_drain0, ?sc_active0, ?sc_closed0, ?sc_stalled0, ?sc_incomplete0, ?sc_drains0, ?sc_nextDrain0,
      ?sc_timeouts0, ?sc_closing0; done.
  - unfold served in *. rewrite sc_active0, sc_incomplete0, sc_timeouts0. naive_solver.
Qed.

Lemma dropExpired_queue q : queue_ok q -> queue_ok (dropExpiredQueued bounds now dateNow q).
Proof using Type.
  intros [Hq Hd]. destruct (dropExpired_ok q Hq) as (H1 & H2 & _). split; [done|].
  eapply same_drains; [exact H2| |exact Hd]. destruct (tq_queued q) eqn:E; [left|by right].
  unfold dropExpiredQueued. by rewrite E.
Qed.

Lemma accept_ok entry bytes q :
  0 <= bytes -> tq_retainedEntries q < maxEntries bounds -> tq_retainedBytes q + bytes <= maxBytes bounds ->
  charges_ok q -> drains_ok q ->
  charges_ok (accept now dateNow entry bytes q) /\ drains_ok (accept now dateNow entry bytes q).
Proof using Type.
  intros Hb He Hm [H1 H2 H3 H4 H5 H6 H7 H8 H9] []. split; [|done]. unfold inFlightSize in *.
  constructor; cbn; unfold inFlightSize; cbn; rewrite ?length_app, ?entry_bytes_app; cbn; try done; try lia.
  apply Forall_app. split; [done|]. by apply Forall_singleton.
Qed.

Lemma enqueue_ok entry q : queue_ok q -> queue_ok (snd (enqueue bounds measure now dateNow entry q)).
Proof using Type.
  intros Hok. unfold enqueue. destruct (tq_closed q) eqn:Ec; [by destruct Hok as [[] [[] ?]]|].
  apply dropExpired_queue in Hok. set (q1 := dropExpiredQueued bounds now dateNow q) in *. clearbody q1. clear Ec q.
  assert (queue_ok (count (fun c => c <| ct_dropped_by_bytes := ct_dropped_by_bytes c + 1 |>) q1)) as Hb
    by (by destruct Hok as [[] [[] ?]]).
  cbv zeta. destruct (measure entry) as [sz|]; [|exact Hb]. destruct (Qle_bool 0 sz) eqn:Esz; [|exact Hb]. cbn [negb].
  destruct (Z.leb_spec (maxEntries bounds) (tq_retainedEntries q1)); [by destruct Hok as [[] [[] ?]]|].
  destruct (Z.ltb_spec (maxBytes bounds) (tq_retainedBytes q1 + Qceiling sz)); [exact Hb|].
  assert (0 <= Qceiling sz) as Hsz by (apply Qle_bool_imp_le in Esz; apply (Qceiling_resp_le 0 sz) in Esz; done).
  destruct (accept_ok entry (Qceiling sz) q1) as [H1 H2]; [lia..|apply Hok|apply Hok|].
  generalize dependent (accept now dateNow entry (Qceiling sz) q1). intros q2 H1 H2. cbn [snd].
  unfold queue_ok. by apply startDrain_ok.
Qed.

Lemma close_ok q : queue_ok q -> queue_ok (close bounds now dateNow q).
Proof using Type.
  intros (Hq & Hd & Hs). unfold close.
  assert (drains_ok (q <| tq_closed := true |>)) as Hd' by (by destruct Hd).
  assert (charges_ok (q <| tq_closed := true |>)) as Hq' by (by destruct Hq).
  cbv zeta. destruct (tq_shutdownIncomplete _); [done|].
  pose proof (startDrain_ok _ Hq' Hd') as H. destruct (startDrain bounds now dateNow _) as [id q']. cbn in H.
  destruct H as ([[] [[] Hs']] & [_ Hc _ _]). split_and!; [done| |done]. constructor; try done. intros _. by apply Hc.
Qed.

Lemma closeResumes_ok id q :
  tq_closed q = true -> queue_ok q -> queue_ok (closeResumes id q).
Proof using Type.
  intros Hc ([] & [] & Hs). unfold closeResumes. cbv zeta. destruct (_ || _); [|done].
  split_and!; [done|done|]. intros _. right. by left.
Qed.

Lemma writeSettles_ok id o q :
  write_stage id q = Some Writing -> queue_ok q -> queue_ok (writeSettles id o q).
Proof using Type.
  unfold write_stage, writeSettles. destruct (tq_inFlight q !! id) as [[item st]|] eqn:E; [|done]. intros [= ->].
  assert (size (<[id := (item, Counted)]> (tq_inFlight q)) = size (tq_inFlight q)) as Esz
    by (rewrite map_size_insert, E; done).
  intros ([H1 H2 H3 H4 H5 H6 H7 H8 H9] & [] & Hs). unfold inFlightSize in *.
  assert (msum flight_open (<[id := (item, Counted)]> (tq_inFlight q)) = msum flight_open (tq_inFlight q) - 1) as Eo
    by (rewrite (msum_insert_Some _ _ _ _ _ E); unfold flight_open; cbn; lia).
  assert (msum flight_bytes (<[id := (item, Counted)]> (tq_inFlight q)) = msum flight_bytes (tq_inFlight q)) as Eb
    by (rewrite (msum_insert_Some _ _ _ _ _ E); unfold flight_bytes; cbn; lia).
  assert (forall j w, <[id := (item, Counted)]> (tq_inFlight q) !! j = Some w -> 0 <= flight_bytes w) as H4'.
  { intros j w [[_ <-]|[_ Hj]]%lookup_insert_Some; [by apply (H4 _ _ E)|eauto]. }
  assert (forall j, (tq_nextWrite q <= j)%nat -> <[id := (item, Counted)]> (tq_inFlight q) !! j = None) as H9'.
  { intros j Hj. apply lookup_insert_None. split; [auto|]. intros ->. rewrite H9 in E; done. }
  assert (charges_ok (writeSettles id o q)) as Hch.
  { unfold writeSettles. rewrite E. constructor; unfold inFlightSize; destruct o; cbn; rewrite ?Esz, ?Eo, ?Eb; try done; lia. }
  unfold writeSettles in Hch. rewrite E in Hch. split; [done|]. destruct o; split; done.
Qed.

Lemma writeFinally_ok id q :
  write_stage id q = Some Counted -> queue_ok q -> queue_ok (writeFinally id q).
Proof using Type.
  unfold write_stage, writeFinally. destruct (tq_inFlight q !! id) as [[item st]|] eqn:E; [|done]. intros [= ->].
  intros ([H1 H2 H3 H4 H5 H6 H7 H8 H9] & Hd & Hs). unfold inFlightSize in *.
  pose proof (map_size_delete_Some id (tq_inFlight q) (mk_is_Some _ _ E)) as Esz.
  assert (size (tq_inFlight q) <> 0%nat) as Hpos by (apply (map_size_ne_0_lookup_2 _ id); eauto).
  pose proof (msum_delete flight_open _ _ _ E) as Eo. pose proof (msum_delete flight_bytes _ _ _ E) as Eb.
  cbn in Eo. pose proof (H4 _ _ E) as Hb. change (flight_bytes (item, Counted)) with (pe_bytes item) in Eb, Hb.
  set (q1 := releaseCharge item (q <| tq_inFlight := delete id (tq_inFlight q) |>)).
  assert (charges_ok q1) as Hc.
  { constructor; unfold inFlightSize; cbn; try done; try lia.
    - intros j w. rewrite lookup_delete_Some. intros [_ ?]. eauto.
    - intros j Hj. rewrite lookup_delete_None. auto. }
  cbv zeta. fold q1. assert (drains_ok q1 /\ served q1) as Hd1 by (by destruct Hd). clearbody q1.
  destruct (_ =? 0); [|done]. by destruct Hc, Hd1 as [[] ?].
Qed.

Lemma drainResumes_ok id progress q : queue_ok q -> queue_ok (drainResumes bounds now dateNow id progress q).
Proof using Type.
  intros (Hq & Hd & Hs). unfold drainResumes. destruct (tq_drains q !! id) as [[deadline raced|]|] eqn:E; [|done..].
  destruct (dr_waiting _ Hd _ _ _ E) as [Ha Hid].
  assert (turn_ends id q (if progress then drainTurn bounds now dateNow id deadline q else drainTimesOut id q)) as Hends.
  { destruct progress; [apply drainTurn_ends; try done; apply Hd|apply timesOut_ends; [done|apply Hd]]. }
  apply (ends_ok id q _ Hends); try done; try apply Hd.
  - intros j d r H. apply (dr_waiting _ Hd) in H as [_ ?]. congruence.
  - destruct (decide (id < tq_nextDrain q)%nat) as [|Hge]; [done|]. rewrite (dr_fresh _ Hd id) in E by lia. done.
Qed.

Lemma drainRetires_ok id q : tq_drains q !! id = Some Returned -> queue_ok q -> queue_ok (drainRetires id q).
Proof using Type.
  intros E (Hq & [D1 D2 D3 D4 D5 D6 D7 D8] & Hs). unfold drainRetires. split; [by case_bool_decide; destruct Hq|].
  split; [|by case_bool_decide]. case_bool_decide as Hid; constructor; cbn; try done.
  all: try (intros j Hj; apply lookup_delete_None; right; by auto).
  - intros j d raced [Hne [? ?]%D1]%lookup_delete_Some. congruence.
  - intros Ha. destruct (D2 Ha) as (j & d & raced & E1 & E2). congruence.
  - intros j d raced [Hne [? ?]%D1]%lookup_delete_Some. done.
  - intros Ha. destruct (D2 Ha) as (j & d & raced & E1 & E2). exists j, d, raced.
    rewrite lookup_delete_ne by congruence. done.
  - intros j Hj. rewrite lookup_delete_ne by congruence. auto.
Qed.

Local Notation step := (queueStep bounds measure now dateNow).
Local Notation reachable := (queue_reachable bounds measure now dateNow).

Lemma step_ok e q : queue_enabled e q -> queue_ok q -> queue_ok (step e q).
Proof using Type.
  intros He Hq. destruct e as [entry| | |id o|id|id progress|id|id]; cbn [queueStep].
  - by apply enqueue_ok.
  - destruct Hq as (H1 & H2 & _). by apply startDrain_ok.
  - by apply close_ok.
  - by apply writeSettles_ok.
  - by apply writeFinally_ok.
  - by apply drainResumes_ok.
  - by apply drainRetires_ok.
  - apply closeResumes_ok; [|done]. destruct Hq as (_ & Hd & _). apply (dr_closing _ Hd).
    destruct He as [Hin _]. intros E. rewrite E in Hin. by apply elem_of_nil in Hin.
Qed.

Lemma enqueue_closed entry q : tq_closed q = true -> keeps q (snd (enqueue bounds measure now dateNow entry q)).
Proof using Type. intros Hc. unfold enqueue. rewrite Hc. done. Qed.

Lemma step_keeps e q : queue_ok q -> keeps q (step e q).
Proof using Type.
  intros (Hq & Hd & Hs). destruct e as [entry| | |id o|id|id progress|id|id]; cbn [queueStep].
  - destruct (tq_closed q) eqn:Hc; [by apply enqueue_closed|].
    assert (tq_shutdownIncomplete q = false) as Hi.
    { destruct (tq_shutdownIncomplete q) eqn:Hi; [|done]. by rewrite (dr_incomplete _ Hd Hi) in Hc. }
    constructor; congruence.
  - by apply startDrain_ok.
  - unfold close. cbv zeta. destruct (tq_shutdownIncomplete _) eqn:Hi; [done|].
    assert (charges_ok (q <| tq_closed := true |>)) as Hq' by (by destruct Hq).
    assert (drains_ok (q <| tq_closed := true |>)) as Hd' by (by destruct Hd).
    destruct (startDrain_ok _ Hq' Hd') as [_ Hk]. destruct (startDrain bounds now dateNow _) as [id q'].
    destruct Hk as [K1 K2 K3 K4]. cbn in *. constructor; cbn; [congruence|auto|auto|congruence].
  - unfold writeSettles. destruct (tq_inFlight q !! id) as [[item st]|]; [|done]. by destruct o.
  - unfold writeFinally. destruct (tq_inFlight q !! id) as [[item st]|]; [|done]. cbv zeta. by destruct (_ =? _).
  - unfold drainResumes. destruct (tq_drains q !! id) as [[d raced|]|]; [|done..].
    destruct progress; eapply ends_keeps; [apply drainTurn_ends; try done; apply Hd|].
    apply timesOut_ends; [done|apply Hd].
  - unfold drainRetires. by case_bool_decide.
  - unfold closeResumes. cbv zeta. by destruct (_ || _).
Qed.

Lemma reachable_ok q0 q : queue_ok q0 -> reachable q0 q -> queue_ok q.
Proof using Type. intros H0. induction 1; [done|by apply step_ok]. Qed.

Lemma reachable_keeps q0 q : queue_ok q0 -> reachable q0 q -> keeps q0 q.
Proof using Type.
  intros H0. induction 1 as [|q e Hr IH He]; [done|]. pose proof (step_keeps e q (reachable_ok _ _ H0 Hr)) as [].
  destruct IH. constructor; intros; first [by auto | rewrite <- kp_enqueued1 by done; by auto
    | rewrite <- kp_silent1 by done; by auto].
Qed.

Lemma create_ok : 0 <= maxEntries bounds -> 0 <= maxBytes bounds -> 0 <= maxConcurrentWrites bounds ->
  queue_ok (createOptionalTelemetryQueue (TEntry := TEntry)).
Proof using Type.
  intros. split_and!; [constructor|constructor|]; cbn; try done. unfold served. by cbn.
Qed.

(** ** The end of a drain *)

(** Past its deadline, the next turn ends the drain. *)
Lemma drainTurn_late id deadline q :
  charges_ok q -> (forall n, (tq_tick q <= n)%nat -> deadline <= reading now dateNow n) ->
  tq_drains (drainTurn bounds now dateNow id deadline q) !! id = Some Returned.
Proof using Type.
  intros Hq Hlate. unfold drainTurn. destruct (dropExpired_ok q Hq) as (H1 & H2 & _).
  set (q1 := dropExpiredQueued bounds now dateNow q) in *. clearbody q1. cbv zeta.
  destruct (tq_shutdownIncomplete q1); [cbn; by rewrite lookup_insert_eq|].
  destruct (tq_stalled q1 && _); [cbn; by rewrite lookup_insert_eq|].
  destruct (dispatchLoop_ok _ q1 H1 (Nat.le_refl _)) as (_ & H6 & _).
  set (q2 := dispatchLoop bounds now dateNow _ q1) in *. clearbody q2.
  destruct (bool_decide _ && _); [cbn; by rewrite lookup_insert_eq|]. cbn [timestamp].
  assert (deadline <= reading now dateNow (tq_tick q2)) as Hle.
  { apply Hlate. destruct H2, H6. lia. }
  destruct (Z.ltb_spec 0 (deadline - reading now dateNow (tq_tick q2))); [lia|]. cbn. by rewrite lookup_insert_eq.
Qed.

(** A waiting drain can always go on: a write that finished has its [finally]
    ahead, or a write or the timer wins the race. *)
Lemma drain_goes_on q id deadline raced :
  tq_drains q !! id = Some (Waiting deadline raced) ->
  (exists w, w ∈ raced /\ queue_enabled (WriteFinally w) q)
  \/ queue_enabled (DrainResumes id true) q \/ queue_enabled (DrainResumes id false) q.
Proof using Type.
  intros E. destruct (decide (set_Forall (fun w => write_stage w q = Some Writing) raced)) as [Hall|Hex].
  - right. destruct (decide (raced = ∅)) as [->|Hne]; [left|right]; cbn; eauto 8.
  - apply not_set_Forall_Exists in Hex as (w & Hw & Hst); [|apply _]. cbn in Hst. unfold write_stage in Hst.
    destruct (tq_inFlight q !! w) as [[item [|]]|] eqn:Ew; [by destruct Hst|left|right; left].
    + exists w. split; [done|]. cbn. unfold write_stage. by rewrite Ew.
    + exists deadline, raced. split; [done|]. right. eauto.
Qed.

Lemma older_some (l : list PendingEntry) t : is_Some (foldl older (Some t) l).
Proof using Type.
  revert t. induction l as [|e l IH]; intros t; cbn; [eauto|]. destruct (_ <? _); apply IH.
Qed.

Lemma oldest_none q : charges_ok q -> oldestRetainedAgeMs now dateNow q = None <-> tq_retainedEntries q = 0.
Proof using Type.
  intros Hq. unfold oldestRetainedAgeMs. destruct (Z.eqb_spec (tq_retainedEntries q) 0) as [|Hne]; [done|].
  split; [|done]. intros H. exfalso.
  assert (is_Some (foldl older (foldl older None (tq_queued q)) (fst <$> obj_values (tq_inFlight q)))) as [t Ht];
    [|by rewrite Ht in H].
  destruct (tq_queued q) as [|e l] eqn:Eq; cbn; [|destruct (older_some l (pe_enqueued_at_ms e)) as [t ->]; apply older_some].
  destruct (obj_values (tq_inFlight q)) as [|w ws] eqn:Ew; cbn; [|apply older_some].
  destruct Hne. rewrite (ch_entries _ Hq), Eq. unfold inFlightSize. unfold obj_values in Ew. apply fmap_nil_inv in Ew.
  apply map_to_list_empty_iff in Ew. by rewrite Ew.
Qed.
End queue.

Lemma boundedInteger_pos v d : 0 < d -> 0 < boundedInteger v d.
Proof. intros. unfold boundedInteger. destruct v; [|done]. destruct (_ && _) eqn:E; [|done]. lia. Qed.

Lemma effective_create {T} e b a w t :
  queue_ok (effectiveBounds e b a w t) (createOptionalTelemetryQueue (TEntry := T)).
Proof. apply create_ok; cbn; apply Z.lt_le_incl, boundedInteger_pos; done. Qed.

(** ** The properties *)

(** C40: whatever is enqueued, flushed and closed, however writes and timers
    come back: the snapshot charges exactly what is queued or being written,
    within the entry and byte bounds; no more writer calls run at once than
    allowed; every accepted entry is delivered, failed, dropped by age, queued,
    or in a write that has no outcome yet; the oldest age is absent exactly when
    nothing is charged; and an accepted entry has a drain that can dispatch it,
    unless shutdown gave up or a drain timed out. *)
Theorem telemetry_queue_safe {TEntry : Type} e b a w t (measure : TEntry -> option Q) now dateNow q :
  let bounds := effectiveBounds e b a w t in
  queue_reachable bounds measure now dateNow createOptionalTelemetryQueue q ->
  let s := snapshot now dateNow q in
  sn_retained_entries s = sn_queued_entries s + sn_writes_in_flight s
  /\ sn_retained_entries s <= maxEntries bounds
  /\ sn_retained_bytes s = entry_bytes (tq_queued q) + msum flight_bytes (tq_inFlight q)
  /\ sn_retained_bytes s <= maxBytes bounds
  /\ sn_writes_in_flight s <= maxConcurrentWrites bounds
  /\ ct_enqueued (sn_counters s) = ct_delivered (sn_counters s) + ct_failed (sn_counters s)
       + ct_dropped_by_age (sn_counters s) + sn_queued_entries s + msum flight_open (tq_inFlight q)
  /\ (sn_oldest_retained_age_ms s = None <-> sn_retained_entries s = 0)
  /\ (0 < sn_queued_entries s -> sn_drain_in_progress s = true /\ tq_drainLoopActive q = true
       \/ sn_shutdown_incomplete s = true \/ 0 < ct_drain_timeouts (sn_counters s)).
Proof.
  intros bounds Hr s. destruct (reachable_ok _ _ _ _ _ _ (effective_create e b a w t) Hr) as (Hq & Hd & Hs).
  split_and!; try apply Hq; [by apply (oldest_none bounds)|]. cbn. intros Hne.
  destruct Hs as [Ha|[|]]; [by intros E; rewrite E in Hne|left|by right; left|by right; right].
  destruct (dr_active _ Hd Ha) as (id & ? & ? & -> & _). split; [by apply bool_decide_eq_true|done].
Qed.

(** C33: shutdown neither hangs nor writes after giving up.  Once [close] reports
    an incomplete shutdown, no later event starts a write or accepts an entry;
    and a drain somebody awaits can always go on: a finished write has its
    continuation ahead, or a write or the timer wins its race; when the timer
    wins, or the deadline has passed, that step ends the drain. *)
Theorem telemetry_shutdown {TEntry : Type} e b a w t (measure : TEntry -> option Q) now dateNow q :
  let bounds := effectiveBounds e b a w t in
  queue_reachable bounds measure now dateNow createOptionalTelemetryQueue q ->
  (tq_shutdownIncomplete q = true -> forall q', queue_reachable bounds measure now dateNow q q' ->
     tq_shutdownIncomplete q' = true /\ tq_nextWrite q' = tq_nextWrite q
     /\ ct_enqueued (tq_counters q') = ct_enqueued (tq_counters q))
  /\ (forall id deadline raced, tq_drains q !! id = Some (Waiting deadline raced) ->
       ((exists x, x ∈ raced /\ queue_enabled (WriteFinally x) q)
        \/ queue_enabled (DrainResumes id true) q \/ queue_enabled (DrainResumes id false) q)
       /\ tq_drains (queueStep bounds measure now dateNow (DrainResumes id false) q) !! id = Some Returned
       /\ ((forall n, (tq_tick q <= n)%nat -> deadline <= reading now dateNow n) ->
           tq_drains (queueStep bounds measure now dateNow (DrainResumes id true) q) !! id = Some Returned)).
Proof.
  intros bounds Hr. pose proof (reachable_ok _ _ _ _ _ _ (effective_create e b a w t) Hr) as Hok. split.
  - intros Hi q' Hr'. destruct (reachable_keeps _ _ _ _ _ _ Hok Hr') as []. destruct Hok as (_ & Hd & _).
    pose proof (dr_incomplete _ Hd Hi). auto.
  - intros id deadline raced E. split; [by eapply drain_goes_on|]. cbn [queueStep]. unfold drainResumes. rewrite E.
    split; [cbn; by rewrite lookup_insert_eq|]. apply drainTurn_late, Hok.
Qed.

(** ** A slow sink *)

Module DemoQueue.
(** One writer call at a time, room for two entries of at most eight bytes. *)
Definition bounds : OptionalTelemetryQueueBounds := effectiveBounds (Some 2) (Some 8) None (Some 1) None.
Definition measure (entry : nat) : option Q := Some (inject_Z (Z.of_nat entry)).
Definition now (n : nat) : option Z := Some (Z.of_nat n).
Definition dateNow (n : nat) : Z := Z.of_nat n.
Definition step : QueueEvent -> Queue nat -> Queue nat := queueStep bounds measure now dateNow.
Definition q1 : Queue nat := step (Enqueue 3%nat) createOptionalTelemetryQueue.
Definition q2 : Queue nat := step (Enqueue 4%nat) q1.
(** The third does not fit; the sink hangs, and the shutdown drain times out. *)
Definition q3 : Queue nat := step (Enqueue 1%nat) q2.
Definition q4 : Queue nat := step Close q3.
Definition q5 : Queue nat := step (DrainResumes 0 false) q4.
Definition q6 : Queue nat := step (DrainRetires 0) q5.
Definition q7 : Queue nat := step (CloseResumes 0) q6.

Lemma timer_wins : queue_enabled (DrainResumes 0 false) q4.
Proof.
  exists 5001, {[0%nat]}. split_and!; [by vm_compute|done|]. intros w ->%elem_of_singleton. by vm_compute.
Qed.
Lemma retires : tq_drains q5 !! 0%nat = Some Returned.
Proof. by vm_compute. Qed.
Lemma settled : tq_drains q6 !! 0%nat = None.
Proof. by vm_compute. Qed.
Lemma awaited : 0%nat ∈ tq_closing q6.
Proof. replace (tq_closing q6) with [0%nat] by (by vm_compute). by left. Qed.

Lemma q4_reachable : queue_reachable bounds measure now dateNow createOptionalTelemetryQueue q4.
Proof. repeat (apply queue_next; [|done]). apply queue_start. Qed.
Lemma q7_reachable : queue_reachable bounds measure now dateNow createOptionalTelemetryQueue q7.
Proof.
  apply queue_next; [apply queue_next; [apply queue_next; [apply q4_reachable|apply timer_wins]|apply retires]|].
  split; [apply awaited|apply settled].
Qed.
Lemma q8_reachable : queue_reachable bounds measure now dateNow q7 (step Flush q7).
Proof. apply queue_next; [apply queue_start|done]. Qed.
End DemoQueue.

Lemma telemetry_queue_safe_witness :
  sn_retained_entries (snapshot DemoQueue.now DemoQueue.dateNow DemoQueue.q7) <= 2
  /\ sn_retained_entries (snapshot DemoQueue.now DemoQueue.dateNow DemoQueue.q7) = 2
  /\ sn_shutdown_incomplete (snapshot DemoQueue.now DemoQueue.dateNow DemoQueue.q7) = true.
Proof.
  split; [|vm_compute; done].
  exact (proj1 (proj2 (telemetry_queue_safe (Some 2) (Some 8) None (Some 1) None DemoQueue.measure DemoQueue.now
    DemoQueue.dateNow DemoQueue.q7 DemoQueue.q7_reachable))).
Defined.

Lemma telemetry_shutdown_witness :
  tq_nextWrite (DemoQueue.step Flush DemoQueue.q7) = tq_nextWrite DemoQueue.q7
  /\ tq_nextWrite DemoQueue.q7 = 1%nat.
Proof.
  split; [|vm_compute; done].
  exact (proj1 (proj2 (proj1 (telemetry_shutdown (Some 2) (Some 8) None (Some 1) None DemoQueue.measure DemoQueue.now
    DemoQueue.dateNow DemoQueue.q7 DemoQueue.q7_reachable) ltac:(vm_compute; reflexivity) _ DemoQueue.q8_reachable))).
Defined.
