(* ===== verification/CodexContracts.v ===== *)
(** * Codex routing rows

    [src/authority/native-codex-contracts.ts]: the rows of the subscription pool
    router and the parsers that read them back from untyped storage.  A class
    map is an object whose keys keep their insertion order, here an association
    list; an absent optional field and [null] are the same to every reader and
    are [None]; percentages are finite doubles as exact rationals. *)

From stdpp Require Import base strings list option.
From Stdlib Require Import ZArith QArith Lia Ascii.
From S2P Require Import Prelude Js.
Open Scope string_scope.
Open Scope Z_scope.

(** ** Types *)

Definition CODEX_HALF_OPEN_LEASE_MS : Z := 30000.
Definition CODEX_UPSTREAM_TIMEOUT_CIRCUIT_MS : Z := 60000.
Definition CODEX_CAPACITY_ROUTING_MAX_AGE_MS : Z := 30 * 60000.

Inductive CodexQuotaBlockSource := BodyResetsAt | HeaderRetryAfter.
Inductive CodexProbeCircuit := QuotaCircuit | UpstreamTimeoutCircuit.
Inductive CodexQuotaClass := Spark | GptOss120b | Reserve | Standard | UnknownClass.
Inductive CodexActiveAccountTransitionReason :=
| QuotaExhausted | CredentialInvalid | AccountRemovedOrReplaced | ModelUnavailable | ManualReset.

#[export] Instance CodexQuotaBlockSource_eq_dec : EqDecision CodexQuotaBlockSource.
Proof. solve_decision. Defined.
#[export] Instance CodexProbeCircuit_eq_dec : EqDecision CodexProbeCircuit.
Proof. solve_decision. Defined.
#[export] Instance CodexQuotaClass_eq_dec : EqDecision CodexQuotaClass.
Proof. solve_decision. Defined.
#[export] Instance CodexActiveAccountTransitionReason_eq_dec : EqDecision CodexActiveAccountTransitionReason.
Proof. solve_decision. Defined.

Record CodexActiveAccountSelection := mkActive {
  as_account_id_hash : string;
  as_credential_version : string;
  as_pool_versionstamp : string;
  as_slot : Z;
  as_routing_generation : Z;
  as_generation : Z;
  as_transition_reason : option CodexActiveAccountTransitionReason;
  as_updated_at_ms : Z }.

Record CodexQuotaClassBlock := mkBlock {
  bk_blocked_until_ms : Z;
  bk_source : CodexQuotaBlockSource;
  bk_legacy_fallback : bool;
  bk_quota_signal_observed_at_ms : option Z;
  bk_observed_reset_at_ms : option Z;
  bk_observed_reset_at_is_stable : bool;
  bk_banked_reset_generation_ambiguous : bool;
  bk_banked_reset_recovery_probe_pending : bool }.

#[export] Instance CodexQuotaClassBlock_eq_dec : EqDecision CodexQuotaClassBlock.
Proof. solve_decision. Defined.

Notation ClassBlocks := (list (CodexQuotaClass * CodexQuotaClassBlock)).

Record ProbeLease := mkLease {
  pl_token : string;
  pl_expires_at_ms : Z;
  pl_generation : Z;
  pl_circuit : CodexProbeCircuit;
  pl_quota_class : option CodexQuotaClass }.

Record CodexRoutingSlot := mkSlot {
  sl_account_id_hash : option string;
  sl_credential_version : string;
  sl_quota_blocked_until_ms : option Z;
  sl_quota_block_source : option CodexQuotaBlockSource;
  sl_quota_blocked_classes : list string;
  sl_quota_blocks_by_class : ClassBlocks;
  sl_invalid_credential_version : option string;
  sl_primary_used_percent : option Q;
  sl_secondary_used_percent : option Q;
  sl_quota_signal_observed_at_ms : option Z;
  sl_capacity_observed_at_ms : option Z;
  sl_upstream_timeout_blocked_until_ms : option Z;
  sl_observed_reset_at_ms : option Z;
  sl_observed_reset_at_is_stable : bool;
  sl_banked_reset_generation_ambiguous : bool;
  sl_banked_reset_recovery_probe_pending : bool;
  sl_generation : Z;
  sl_probe_lease : option ProbeLease }.

Record CodexAccountRoutingState := mkRouting {
  rs_updated_at_ms : Z;
  rs_banked_reset_legacy_identity_unresolved : bool;
  rs_slots : list CodexRoutingSlot }.

#[export] Instance eta_CodexActiveAccountSelection : Eta CodexActiveAccountSelection := fun a =>
  mkActive (as_account_id_hash a) (as_credential_version a) (as_pool_versionstamp a) (as_slot a)
    (as_routing_generation a) (as_generation a) (as_transition_reason a) (as_updated_at_ms a).
#[export] Instance eta_CodexQuotaClassBlock : Eta CodexQuotaClassBlock := fun b =>
  mkBlock (bk_blocked_until_ms b) (bk_source b) (bk_legacy_fallback b) (bk_quota_signal_observed_at_ms b)
    (bk_observed_reset_at_ms b) (bk_observed_reset_at_is_stable b) (bk_banked_reset_generation_ambiguous b)
    (bk_banked_reset_recovery_probe_pending b).
#[export] Instance eta_ProbeLease : Eta ProbeLease := fun l =>
  mkLease (pl_token l) (pl_expires_at_ms l) (pl_generation l) (pl_circuit l) (pl_quota_class l).
#[export] Instance eta_CodexRoutingSlot : Eta CodexRoutingSlot := fun s =>
  mkSlot (sl_account_id_hash s) (sl_credential_version s) (sl_quota_blocked_until_ms s) (sl_quota_block_source s)
    (sl_quota_blocked_classes s) (sl_quota_blocks_by_class s) (sl_invalid_credential_version s)
    (sl_primary_used_percent s) (sl_secondary_used_percent s) (sl_quota_signal_observed_at_ms s)
    (sl_capacity_observed_at_ms s) (sl_upstream_timeout_blocked_until_ms s) (sl_observed_reset_at_ms s)
    (sl_observed_reset_at_is_stable s) (sl_banked_reset_generation_ambiguous s)
    (sl_banked_reset_recovery_probe_pending s) (sl_generation s) (sl_probe_lease s).
#[export] Instance eta_CodexAccountRoutingState : Eta CodexAccountRoutingState := fun s =>
  mkRouting (rs_updated_at_ms s) (rs_banked_reset_legacy_identity_unresolved s) (rs_slots s).

Record CodexRoutingAccount := mkAccount {
  ac_slot : nat;
  ac_accountIdHash : string;
  ac_credentialVersion : string;
  ac_quotaHeadroom : option Q;
  ac_probeRequired : bool;
  ac_probeGeneration : option Z;
  ac_probeToken : option string;
  ac_probeCircuit : option CodexProbeCircuit;
  ac_overageFallback : bool;
  ac_routingGeneration : option Z;
  ac_activeGeneration : option Z;
  ac_activePoolVersionstamp : option string;
  ac_activeTransitionReason : option CodexActiveAccountTransitionReason;
  ac_requestedModel : option string }.

#[export] Instance eta_CodexRoutingAccount : Eta CodexRoutingAccount := fun a =>
  mkAccount (ac_slot a) (ac_accountIdHash a) (ac_credentialVersion a) (ac_quotaHeadroom a) (ac_probeRequired a)
    (ac_probeGeneration a) (ac_probeToken a) (ac_probeCircuit a) (ac_overageFallback a) (ac_routingGeneration a)
    (ac_activeGeneration a) (ac_activePoolVersionstamp a) (ac_activeTransitionReason a) (ac_requestedModel a).

Record CodexCapacityRoutingWindow := mkCapacityWindow {
  cw_limit_window_seconds : option Z; cw_used_percent : option Q; cw_reset_at_ms : option Z }.
Record CapacityWindows := mkWindows {
  ws_primary : option CodexCapacityRoutingWindow; ws_secondary : option CodexCapacityRoutingWindow }.
Record CodexCapacityRoutingAdditionalRateLimit := mkRateLimit {
  rl_limit_name : string; rl_metered_feature : option string; rl_windows : CapacityWindows }.

Inductive CapacityState := Available | Stale | Unavailable.
#[export] Instance CapacityState_eq_dec : EqDecision CapacityState.
Proof. solve_decision. Defined.

Record CodexCapacityRoutingObservation := mkObservation {
  ob_slot : nat;
  ob_account_id_hash : string;
  ob_state : CapacityState;
  ob_source_observed_at_ms : option Z;
  ob_snapshot_at_ms : Z;
  ob_windows : CapacityWindows;
  ob_additional_rate_limits : list CodexCapacityRoutingAdditionalRateLimit }.

(** An account whose provider deadline is known. *)
Record CodexBlockedAccountMetadata := mkBlocked { ba_account : CodexRoutingAccount; ba_quotaResetAtMs : Z }.

Inductive CodexRouteSelection :=
| Eligible (accounts : list CodexRoutingAccount) (skippedSlots : list Z) (blocked : list CodexBlockedAccountMetadata)
| QuotaBlocked (skippedSlots : list Z) (retryAtMs : option Z) (blocked : list CodexBlockedAccountMetadata)
    (fullCohortExhausted fullCohortUnavailable : bool) (activeSnapshot : option CodexActiveAccountSelection)
    (poolSnapshotJson capacitySnapshotJson : option string)
| UpstreamBlocked (skippedSlots : list Z) (retryAtMs : option Z)
| ModelIsUnavailable (model : string) (detail : option string) (skippedSlots : list Z)
| CredentialsInvalid (skippedSlots : list Z) (fullCohortUnavailable : bool)
| RoutingUnavailable.

Record CodexRoutingIdentity := mkIdentity {
  id_slot : nat; id_accountIdHash : string; id_credentialVersion : string }.
Record CodexRoutingAccountPolicy := mkPolicy {
  po_modelUnavailable : option (option string); po_overageUsageAllowed : bool }.
Record CodexRoutingRowRevisions := mkRevisions {
  rv_active : option string; rv_pool : option string; rv_routing : option string; rv_capacity : option string }.
Record CodexSerialAdmissionPlan := mkPlan {
  sp_checks : CodexRoutingRowRevisions;
  sp_write_routing : option CodexAccountRoutingState;
  sp_write_active : option CodexActiveAccountSelection;
  sp_selection : CodexRouteSelection }.

(** ** Values *)

(** [left === right] of two values that are not the same object. *)
Definition strict_eq (left right : jsval) : bool :=
  match left, right with
  | JUndefined, JUndefined | JNull, JNull => true
  | JBool a, JBool b => Bool.eqb a b
  | JNum (Fin p), JNum (Fin q) => Qeq_bool p q
  | JNum (Infinity a), JNum (Infinity b) => Bool.eqb a b
  | JStr a, JStr b => bool_decide (a = b)
  | _, _ => false
  end.

Definition is_true (v : jsval) : bool := match v with JBool true => true | _ => false end.
Definition is_false (v : jsval) : bool := match v with JBool false => true | _ => false end.

Definition isSafeMs (v : jsval) : bool := match nonNegativeSafeInteger v with Some _ => true | None => false end.
Definition parseOptionalSafeMs (v : jsval) : option Z := nonNegativeSafeInteger v.

Definition class_name (c : CodexQuotaClass) : string :=
  match c with
  | Spark => "spark" | GptOss120b => "gpt_oss_120b" | Reserve => "reserve" | Standard => "standard"
  | UnknownClass => "unknown"
  end.

Definition quotaClassKeys : list CodexQuotaClass := [Spark; GptOss120b; Reserve; Standard; UnknownClass].

Definition isLegacyStableResetIdentity (slot : CodexRoutingSlot) : bool :=
  bool_decide (sl_account_id_hash slot = None)
  && match sl_observed_reset_at_ms slot with Some _ => true | None => false end
  && sl_observed_reset_at_is_stable slot.

Definition hasUnresolvedLegacyResetIdentity (state : option CodexAccountRoutingState) : bool :=
  match state with
  | Some s => rs_banked_reset_legacy_identity_unresolved s || existsb isLegacyStableResetIdentity (rs_slots s)
  | None => false
  end.

(** ** Slot parser *)

Definition quotaClassBlockFieldsMatch (left right : jsval) : bool :=
  forallb (fun k => strict_eq (prop left k) (prop right k))
    ["blocked_until_ms"; "source"; "quota_signal_observed_at_ms"; "observed_reset_at_ms";
     "observed_reset_at_is_stable"; "banked_reset_generation_ambiguous"; "banked_reset_recovery_probe_pending"].

Definition hasUnmarkedSyntheticLegacyUnknown (raw : jsval) : bool :=
  let unknown := prop raw "unknown" in
  if negb (isRecord unknown) || hasOwn unknown "legacy_fallback" then false else
  let known := ["spark"; "gpt_oss_120b"; "standard"] in
  if negb (forallb (fun k => isRecord (prop raw k) && negb (hasOwn (prop raw k) "legacy_fallback")) known) then false else
  forallb (fun k => isRecord (prop raw k) && quotaClassBlockFieldsMatch (prop raw k) unknown) known.

Definition parseProbeLeaseCircuit (lease : jsval) : option CodexProbeCircuit :=
  if negb (isRecord lease) || is_undefined (prop lease "circuit") then Some QuotaCircuit else
  if is_str (prop lease "circuit") "quota" then Some QuotaCircuit else
  if is_str (prop lease "circuit") "upstream_timeout" then Some UpstreamTimeoutCircuit else None.

Definition parseProbeQuotaClass (v : jsval) : option CodexQuotaClass :=
  List.find (fun c => is_str v (class_name c)) quotaClassKeys.

Definition any_safe_integer (v : jsval) : option Z := match v with JNum n => safe_integer n | _ => None end.
Definition text (v : jsval) : option string := match v with JStr s => Some s | _ => None end.

Definition parseProbeLease (lease : jsval) (circuit : option CodexProbeCircuit) : option ProbeLease :=
  if negb (isRecord lease) then None else
  token ← text (prop lease "token");
  expires ← nonNegativeSafeInteger (prop lease "expires_at_ms");
  generation ← any_safe_integer (prop lease "generation");
  circuit ← circuit;
  Some (mkLease token expires generation circuit (parseProbeQuotaClass (prop lease "quota_class"))).

(** The outer [None] is the source's [undefined]. *)
Definition parseQuotaBlockSource (v : jsval) : option (option CodexQuotaBlockSource) :=
  if is_null v then Some None else
  if is_str v "body_resets_at" then Some (Some BodyResetsAt) else
  if is_str v "header_retry_after" then Some (Some HeaderRetryAfter) else None.

Definition parseStoredGeneration (v : jsval) : Z := default 0 (nonNegativeSafeInteger v).
Definition parseStoredPercent (v : jsval) : option Q := match v with JNum (Fin q) => Some q | _ => None end.
Definition parseAccountIdHash (v : jsval) : option string :=
  match v with JStr s => if empty s then None else Some s | _ => None end.

(** [[...new Set(items)]]. *)
Definition distinct (items : list string) : list string :=
  foldl (fun seen s => if bool_decide (s ∈ seen) then seen else (seen ++ [s])%list) [] items.

Definition parseQuotaBlockedClasses (v : jsval) : list string :=
  match v with
  | JArr items => match mapM text items with Some names => distinct names | None => [] end
  | _ => []
  end.

Record CodexSlotClassBlockFields := mkFields {
  fl_observedResetAtMs : option Z; fl_observedResetAtIsStable : bool;
  fl_bankedResetGenerationAmbiguous : bool; fl_bankedResetRecoveryProbePending : bool }.

Definition parseSlotClassBlock (block : jsval) (key : CodexQuotaClass) (synthetic : bool)
    (fields : CodexSlotClassBlockFields) : option CodexQuotaClassBlock :=
  until ← nonNegativeSafeInteger (prop block "blocked_until_ms");
  source ← parseQuotaBlockSource (prop block "source");
  source ← source;
  let shares := bool_decide (Some until = fl_observedResetAtMs fields) in
  let observed := match nonNegativeSafeInteger (prop block "observed_reset_at_ms") with
    | Some t => Some t
    | None => if shares && fl_observedResetAtIsStable fields then fl_observedResetAtMs fields else None
    end in
  Some (mkBlock until source
    (is_true (prop block "legacy_fallback") || (bool_decide (key = UnknownClass) && synthetic))
    (nonNegativeSafeInteger (prop block "quota_signal_observed_at_ms"))
    observed
    (is_true (prop block "observed_reset_at_is_stable") || (shares && fl_observedResetAtIsStable fields))
    (is_true (prop block "banked_reset_generation_ambiguous") || (shares && fl_bankedResetGenerationAmbiguous fields))
    (is_true (prop block "banked_reset_recovery_probe_pending") || (shares && fl_bankedResetRecoveryProbePending fields))).

Definition parseQuotaBlocksByClass (raw : jsval) (synthetic : bool) (fields : CodexSlotClassBlockFields) : ClassBlocks :=
  omap (fun key =>
    let block := prop raw (class_name key) in
    if negb (isRecord block) then None else
    b ← parseSlotClassBlock block key synthetic fields; Some (key, b)) quotaClassKeys.

Definition isExactLegacyNeutralSlot (v : jsval) (source : option CodexQuotaBlockSource) (lease : jsval) : bool :=
  negb (hasOwn v "account_id_hash") && negb (hasOwn v "observed_reset_at_is_stable")
  && negb (hasOwn v "banked_reset_generation_ambiguous") && is_int (prop v "generation") 0
  && is_null (prop v "quota_blocked_until_ms") && bool_decide (source = None)
  && is_null (prop v "invalid_credential_version") && is_null (prop v "primary_used_percent")
  && is_null (prop v "secondary_used_percent") && is_null (prop v "observed_reset_at_ms") && is_null lease.

Definition isLegacyNeutralFirstBodyFence (v : jsval) (accountIdHash : option string) (blockedUntil observed : option Z)
    (stable : bool) (source : option CodexQuotaBlockSource) (lease : jsval) : bool :=
  is_true (prop v "banked_reset_generation_ambiguous") && is_int (prop v "generation") 1
  && negb (bool_decide (accountIdHash = None)) && bool_decide (source = Some BodyResetsAt)
  && negb (bool_decide (blockedUntil = None)) && bool_decide (observed = blockedUntil) && stable
  && is_null lease && is_null (prop v "invalid_credential_version").

Definition repairedBankedResetGenerationAmbiguous (v : jsval) (exactNeutral firstFence : bool) : bool :=
  if exactNeutral || firstFence then false else negb (is_false (prop v "banked_reset_generation_ambiguous")).

Definition parseSlot (v : jsval) (allowLegacyNeutralRepair : bool) : option CodexRoutingSlot :=
  if negb (isRecord v) then None else
  credentialVersion ← text (prop v "credential_version");
  source ← parseQuotaBlockSource (prop v "quota_block_source");
  let lease := prop v "probe_lease" in
  let parsedLease := parseProbeLease lease (parseProbeLeaseCircuit lease) in
  if negb (is_null lease) && match parsedLease with None => true | Some _ => false end then None else
  let accountIdHash := parseAccountIdHash (prop v "account_id_hash") in
  let blockedUntil := parseOptionalSafeMs (prop v "quota_blocked_until_ms") in
  let observed := parseOptionalSafeMs (prop v "observed_reset_at_ms") in
  let stable := is_true (prop v "observed_reset_at_is_stable") in
  let exactNeutral := allowLegacyNeutralRepair && isExactLegacyNeutralSlot v source lease in
  let firstFence := allowLegacyNeutralRepair
    && isLegacyNeutralFirstBodyFence v accountIdHash blockedUntil observed stable source lease in
  let ambiguous := repairedBankedResetGenerationAmbiguous v exactNeutral firstFence in
  let pending := is_true (prop v "banked_reset_recovery_probe_pending") in
  let raw := if isRecord (prop v "quota_blocks_by_class") then prop v "quota_blocks_by_class" else JObj [] in
  Some (mkSlot accountIdHash credentialVersion blockedUntil source
    (parseQuotaBlockedClasses (prop v "quota_blocked_classes"))
    (parseQuotaBlocksByClass raw (hasUnmarkedSyntheticLegacyUnknown raw) (mkFields observed stable ambiguous pending))
    (text (prop v "invalid_credential_version"))
    (parseStoredPercent (prop v "primary_used_percent")) (parseStoredPercent (prop v "secondary_used_percent"))
    (parseOptionalSafeMs (prop v "quota_signal_observed_at_ms"))
    (parseOptionalSafeMs (prop v "capacity_observed_at_ms"))
    (parseOptionalSafeMs (prop v "upstream_timeout_blocked_until_ms"))
    observed stable ambiguous pending (parseStoredGeneration (prop v "generation")) parsedLease).

Definition parseCodexAccountRoutingState (v : jsval) : option CodexAccountRoutingState :=
  if negb (isRecord v) || negb (is_int (prop v "v") 2) then None else
  updated ← nonNegativeSafeInteger (prop v "updated_at_ms");
  match prop v "slots" with
  | JArr items =>
      let unresolved := is_true (prop v "banked_reset_legacy_identity_unresolved") in
      slots ← mapM (fun slot => parseSlot slot (negb unresolved)) items;
      Some (mkRouting updated unresolved slots)
  | _ => None
  end.

(** ** The active selection *)

(** [/^[a-f0-9]{64}$/]. *)
Definition isOpaqueHash (v : jsval) : option string :=
  match v with
  | JStr s => if (str_length s =? 64)
                && forallb (fun c => let n := code_unit c in ((97 <=? n) && (n <=? 102)) || ((48 <=? n) && (n <=? 57)))
                     (list_of_string s)
              then Some s else None
  | _ => None
  end.

Definition isVersionstamp (s : string) : bool := (0 <? str_length s) && (str_length s <=? 256).

(** The outer [None] is the source's [undefined]. *)
Definition parseActiveTransitionReason (v : jsval) : option (option CodexActiveAccountTransitionReason) :=
  if is_null v then Some None else
  if is_str v "quota_exhausted" then Some (Some QuotaExhausted) else
  if is_str v "credential_invalid" then Some (Some CredentialInvalid) else
  if is_str v "account_removed_or_replaced" then Some (Some AccountRemovedOrReplaced) else
  if is_str v "model_unavailable" then Some (Some ModelUnavailable) else
  if is_str v "manual_reset" then Some (Some ManualReset) else None.

Definition parseCodexActiveAccountSelection (v : jsval) : option CodexActiveAccountSelection :=
  if negb (isRecord v) || negb (is_int (prop v "v") 1) then None else
  reason ← parseActiveTransitionReason (prop v "transition_reason");
  hash ← isOpaqueHash (prop v "account_id_hash");
  version ← isOpaqueHash (prop v "credential_version");
  stamp ← text (prop v "pool_versionstamp");
  _ ← guard (isVersionstamp stamp);
  slot ← nonNegativeSafeInteger (prop v "slot");
  routing ← nonNegativeSafeInteger (prop v "routing_generation");
  generation ← positiveSafeInteger (prop v "generation");
  updated ← nonNegativeSafeInteger (prop v "updated_at_ms");
  Some (mkActive hash version stamp slot routing generation reason updated).

Definition codexActiveAccountSelectionCurrent (v : jsval) (account : CodexRoutingAccount) (activeGeneration : Z) : bool :=
  match parseCodexActiveAccountSelection v with
  | Some active =>
      (as_generation active =? activeGeneration)
      && bool_decide (as_account_id_hash active = ac_accountIdHash account)
      && bool_decide (as_credential_version active = ac_credentialVersion account)
      && bool_decide (Some (as_pool_versionstamp active) = ac_activePoolVersionstamp account)
      && (as_slot active =? Z.of_nat (ac_slot account))
      && bool_decide (Some (as_routing_generation active) = ac_routingGeneration account)
  | None => false
  end.
