(* ===== verification/CodexCapacity.v ===== *)
(** * Codex slots: quota classes, capacity, normalization

    [src/authority/native-codex-capacity.ts]: the operations on one slot's class
    blocks, the normalization of a stored state against the current pool, and
    the capacity observations.  The code compares blocks by identity where two
    equal blocks cannot both be candidates, so equality of values is the same
    test; where identity matters for a write ([slot !== normalized.slots[i]]),
    normalization returns which stored slot each result is. *)

From stdpp Require Import base strings list option.
From Stdlib Require Import ZArith QArith Qminmax Lia Ascii.
From S2P Require Import Prelude Js CodexContracts.
Open Scope string_scope.
Open Scope Z_scope.

(** ** Class maps *)

Fixpoint class_get (k : CodexQuotaClass) (bs : ClassBlocks) : option CodexQuotaClassBlock :=
  match bs with [] => None | (k', b) :: bs => if bool_decide (k = k') then Some b else class_get k bs end.

(** [{ ...blocks, [k]: b }]. *)
Fixpoint class_set (k : CodexQuotaClass) (b : CodexQuotaClassBlock) (bs : ClassBlocks) : ClassBlocks :=
  match bs with
  | [] => [(k, b)]
  | (k', b') :: bs => if bool_decide (k = k') then (k', b) :: bs else (k', b') :: class_set k b bs
  end.

Definition class_keys (bs : ClassBlocks) : list string := class_name ∘ fst <$> bs.

(** [reduce] to the first of the latest deadlines. *)
Definition later (candidate : option CodexQuotaClassBlock) (block : CodexQuotaClassBlock) : option CodexQuotaClassBlock :=
  match candidate with
  | None => Some block
  | Some c => if bk_blocked_until_ms c <? bk_blocked_until_ms block then Some block else candidate
  end.
Definition latest_from (seed : option CodexQuotaClassBlock) (blocks : list CodexQuotaClassBlock) : option CodexQuotaClassBlock :=
  foldl later seed blocks.

(** [Math.max(...values)] of a list that is not empty. *)
Definition max_list (l : list Z) : option Z :=
  match l with [] => None | x :: l => Some (foldl Z.max x l) end.

(** ** Slots *)

Definition neutralSlot (credentialVersion : string) (accountIdHash : option string) : CodexRoutingSlot :=
  mkSlot accountIdHash credentialVersion None None [] [] None None None None None None None false false false 0 None.

(** A deadline of zero is falsy. *)
Definition truthy (t : option Z) : bool := match t with Some z => negb (z =? 0) | None => false end.

Definition timeout_lease (slot : CodexRoutingSlot) : bool :=
  match sl_probe_lease slot with Some l => bool_decide (pl_circuit l = UpstreamTimeoutCircuit) | None => false end.

Definition has_timeout_circuit (slot : CodexRoutingSlot) : bool :=
  truthy (sl_upstream_timeout_blocked_until_ms slot) || timeout_lease slot.

Definition withoutLegacyTimeoutCircuit (slot : CodexRoutingSlot) : CodexRoutingSlot :=
  if negb (has_timeout_circuit slot) then slot else
  slot <| sl_upstream_timeout_blocked_until_ms := None |>
       <| sl_probe_lease := if timeout_lease slot then None else sl_probe_lease slot |>
       <| sl_generation := sl_generation slot + 1 |>.

Definition preservesStableResetIdentity (slot : CodexRoutingSlot) : bool :=
  sl_banked_reset_generation_ambiguous slot
  || match sl_observed_reset_at_ms slot with Some _ => sl_observed_reset_at_is_stable slot | None => false end.

Definition withoutLegacyTimeoutCircuits (state : CodexAccountRoutingState) : CodexAccountRoutingState :=
  state <| rs_slots := withoutLegacyTimeoutCircuit <$> rs_slots state |>.

(** The slot-wide fence as a block. *)
Definition legacy_block (slot : CodexRoutingSlot) (until : Z) (source : CodexQuotaBlockSource) : CodexQuotaClassBlock :=
  mkBlock until source true (sl_quota_signal_observed_at_ms slot) (sl_observed_reset_at_ms slot)
    (sl_observed_reset_at_is_stable slot) (sl_banked_reset_generation_ambiguous slot)
    (sl_banked_reset_recovery_probe_pending slot).

Definition rotateCredentialForSameAccount (slot : CodexRoutingSlot) (accountIdHash credentialVersion : string) : CodexRoutingSlot :=
  let generation := sl_generation slot + 1 in
  let seed := match sl_observed_reset_at_ms slot, sl_quota_block_source slot with
    | Some observed, Some source => Some (legacy_block slot (default observed (sl_quota_blocked_until_ms slot)) source)
    | _, _ => None
    end in
  let preserved := latest_from seed (snd <$> sl_quota_blocks_by_class slot) in
  slot <| sl_account_id_hash := Some accountIdHash |>
       <| sl_credential_version := credentialVersion |>
       <| sl_quota_blocked_until_ms := None |>
       <| sl_quota_block_source := None |>
       <| sl_quota_blocked_classes := [] |>
       <| sl_quota_blocks_by_class := [] |>
       <| sl_invalid_credential_version := None |>
       <| sl_primary_used_percent := None |>
       <| sl_secondary_used_percent := None |>
       <| sl_quota_signal_observed_at_ms := None |>
       <| sl_capacity_observed_at_ms := None |>
       <| sl_observed_reset_at_ms := preserved ≫= bk_observed_reset_at_ms |>
       <| sl_observed_reset_at_is_stable := match preserved with Some b => bk_observed_reset_at_is_stable b | None => false end |>
       <| sl_banked_reset_generation_ambiguous := preservesStableResetIdentity slot
            || match preserved with Some b => bk_banked_reset_generation_ambiguous b | None => false end |>
       <| sl_banked_reset_recovery_probe_pending := sl_banked_reset_recovery_probe_pending slot
            || match preserved with Some b => bk_banked_reset_recovery_probe_pending b | None => false end |>
       <| sl_generation := generation |>
       <| sl_probe_lease := (fun l => l <| pl_generation := generation |>) <$> sl_probe_lease slot |>.

Definition attachLegacyAccountIdentity (slot : CodexRoutingSlot) (accountIdHash : string) : CodexRoutingSlot :=
  slot <| sl_account_id_hash := Some accountIdHash |>
       <| sl_banked_reset_generation_ambiguous := preservesStableResetIdentity slot |>.

(** ** Normalization *)

Definition direct_match (identity : CodexRoutingIdentity) (slot : CodexRoutingSlot) : bool :=
  bool_decide (sl_account_id_hash slot = Some (id_accountIdHash identity))
  || (bool_decide (sl_account_id_hash slot = None) && bool_decide (sl_credential_version slot = id_credentialVersion identity)).

(** The first slot not used yet that matches, with its index. *)
Fixpoint takePrior (matches : CodexRoutingSlot -> bool) (used : list nat) (index : nat) (prior : list CodexRoutingSlot)
    : option (nat * CodexRoutingSlot) :=
  match prior with
  | [] => None
  | slot :: prior =>
      if negb (bool_decide (index ∈ used)) && matches slot then Some (index, slot) else takePrior matches used (S index) prior
  end.

Definition find_prior (identity : CodexRoutingIdentity) (index : nat) (used : list nat) (prior : list CodexRoutingSlot)
    : option (nat * CodexRoutingSlot) :=
  match prior !! index with
  | Some direct =>
      if negb (bool_decide (index ∈ used)) && direct_match identity direct then Some (index, direct) else None
  | None => None
  end
  ∪ takePrior (fun s => bool_decide (sl_account_id_hash s = Some (id_accountIdHash identity))) used 0 prior
  ∪ takePrior (fun s => bool_decide (sl_account_id_hash s = None)
                        && bool_decide (sl_credential_version s = id_credentialVersion identity)) used 0 prior.

(** The slot of one identity, and whether it is the stored object itself. *)
Definition normalized_slot (identity : CodexRoutingIdentity) (discard : bool) (prior : CodexRoutingSlot) : CodexRoutingSlot * bool :=
  let prior' := if discard then withoutLegacyTimeoutCircuit prior else prior in
  let same := negb (discard && has_timeout_circuit prior) in
  if bool_decide (sl_credential_version prior' = id_credentialVersion identity) then
    if bool_decide (sl_account_id_hash prior' = Some (id_accountIdHash identity))
    then (withoutLegacyTimeoutCircuit prior', same && negb (has_timeout_circuit prior'))
    else (withoutLegacyTimeoutCircuit (attachLegacyAccountIdentity prior' (id_accountIdHash identity)), false)
  else (withoutLegacyTimeoutCircuit
          (rotateCredentialForSameAccount prior' (id_accountIdHash identity) (id_credentialVersion identity)), false).

(** The slots in pool order, the stored slot each one is, and the slots used. *)
Fixpoint normalize_slots (prior : list CodexRoutingSlot) (discard : bool) (index : nat) (used : list nat)
    (identities : list CodexRoutingIdentity) : list (CodexRoutingSlot * option nat) * list nat :=
  match identities with
  | [] => ([], used)
  | identity :: rest =>
      match find_prior identity index used prior with
      | Some (i, slot) =>
          let '(slot', same) := normalized_slot identity discard slot in
          let '(slots, used) := normalize_slots prior discard (S index) (i :: used) rest in
          ((slot', if same then Some i else None) :: slots, used)
      | None =>
          let '(slots, used) := normalize_slots prior discard (S index) used rest in
          ((neutralSlot (id_credentialVersion identity) (Some (id_accountIdHash identity)), None) :: slots, used)
      end
  end.

Fixpoint unused_legacy (used : list nat) (index : nat) (prior : list CodexRoutingSlot) : bool :=
  match prior with
  | [] => false
  | slot :: prior =>
      (negb (bool_decide (index ∈ used)) && isLegacyStableResetIdentity slot) || unused_legacy used (S index) prior
  end.

(** The state, and which stored slot object each of its slots is. *)
Definition normalizeRoutingState (raw : option CodexAccountRoutingState) (identities : list CodexRoutingIdentity)
    (now : Z) (discardLegacyTimeoutCircuit : bool) : CodexAccountRoutingState * list (option nat) :=
  let prior := match raw with Some r => rs_slots r | None => [] end in
  let '(slots, used) := normalize_slots prior discardLegacyTimeoutCircuit 0 [] identities in
  let unresolved := match raw with Some r => rs_banked_reset_legacy_identity_unresolved r | None => false end
    || unused_legacy used 0 prior in
  (mkRouting now unresolved (fst <$> slots), snd <$> slots).

(** ** One account's slot *)

Definition slotFor (state : CodexAccountRoutingState) (account : CodexRoutingAccount) : CodexRoutingSlot :=
  default (neutralSlot (ac_credentialVersion account) (Some (ac_accountIdHash account))) (rs_slots state !! ac_slot account).

Definition slotMatchesCodexRoutingAccount (slot : CodexRoutingSlot) (account : CodexRoutingAccount) : bool :=
  bool_decide (sl_credential_version slot = ac_credentialVersion account)
  && (bool_decide (sl_account_id_hash slot = Some (ac_accountIdHash account)) || bool_decide (sl_account_id_hash slot = None)).

Definition routingProbeCircuit (account : CodexRoutingAccount) : CodexProbeCircuit :=
  default QuotaCircuit (ac_probeCircuit account).

(** [toLowerCase] on the code units up to 0xFF. *)
Definition lower (c : ascii) : ascii :=
  let n := code_unit c in
  if ((65 <=? n) && (n <=? 90)) || ((192 <=? n) && (n <=? 222) && negb (n =? 215))
  then ascii_of_nat (Z.to_nat (n + 32)) else c.
Definition toLowerCase (s : string) : string := string_of_list (lower <$> list_of_string s).

Definition alphanumeric (c : ascii) : bool :=
  let n := code_unit c in ((97 <=? n) && (n <=? 122)) || ((48 <=? n) && (n <=? 57)).
Definition normalizeQuotaLabel (value : option string) : string :=
  match value with
  | Some s => string_of_list (List.filter alphanumeric (list_of_string (toLowerCase s)))
  | None => ""
  end.

Definition quotaClass (model : option string) : CodexQuotaClass :=
  let normalized := match model with Some m => toLowerCase (trim m) | None => "" end in
  if bool_decide (normalized = "gpt-5.3-codex-spark") then Spark else
  if bool_decide (normalized = "gpt-oss-120b") then GptOss120b else
  if bool_decide (normalizeQuotaLabel (Some normalized) = "gptreserve") then Reserve else
  if empty normalized then UnknownClass else Standard.

Definition probeLeaseMatchesCodexRoutingAccount (slot : CodexRoutingSlot) (account : CodexRoutingAccount) : bool :=
  match sl_probe_lease slot, ac_probeGeneration account with
  | Some lease, Some generation =>
      (sl_generation slot =? generation) && (pl_generation lease =? generation)
      && bool_decide (Some (pl_token lease) = ac_probeToken account)
      && bool_decide (pl_circuit lease = routingProbeCircuit account)
      && match routingProbeCircuit account, pl_quota_class lease with
         | QuotaCircuit, Some c => bool_decide (c = quotaClass (ac_requestedModel account))
         | _, _ => true
         end
  | _, _ => false
  end.

(** The list grows by neutral slots up to the index. *)
Definition withSlot (state : CodexAccountRoutingState) (index : nat) (slot : CodexRoutingSlot) (updatedAtMs : Z)
    : CodexAccountRoutingState :=
  let padded := (rs_slots state
    ++ replicate (S index - length (rs_slots state)) (neutralSlot (sl_credential_version slot) (sl_account_id_hash slot)))%list in
  state <| rs_updated_at_ms := updatedAtMs |> <| rs_slots := <[index := slot]> padded |>.

(** ** Quota class blocks *)

Definition quotaBlockForClass (slot : CodexRoutingSlot) (key : CodexQuotaClass) : option CodexQuotaClassBlock :=
  let blocks := sl_quota_blocks_by_class slot in
  let exact := class_get key blocks in
  let unknown := if bool_decide (key = UnknownClass) then None else class_get UnknownClass blocks in
  let classes := sl_quota_blocked_classes slot in
  let legacy := match blocks, sl_quota_blocked_until_ms slot, sl_quota_block_source slot with
    | [], Some until, Some source =>
        if bool_decide (classes = []) || bool_decide (key = UnknownClass)
           || bool_decide (class_name UnknownClass ∈ classes) || bool_decide (class_name key ∈ classes)
        then Some (legacy_block slot until source) else None
    | _, _, _ => None
    end in
  latest_from None (omap id [exact; unknown; legacy]).

Definition isQuotaClassKey (name : string) : option CodexQuotaClass :=
  List.find (fun c => bool_decide (class_name c = name)) quotaClassKeys.

(** [blocks[key] ??= block]. *)
Definition class_default (block : CodexQuotaClassBlock) (blocks : ClassBlocks) (key : CodexQuotaClass) : ClassBlocks :=
  match class_get key blocks with Some _ => blocks | None => (blocks ++ [(key, block)])%list end.

Definition quotaBlocksIncludingLegacy (slot : CodexRoutingSlot) : ClassBlocks :=
  let blocks := sl_quota_blocks_by_class slot in
  match sl_quota_blocked_until_ms slot, sl_quota_block_source slot with
  | Some until, Some source =>
      let named := omap isQuotaClassKey (sl_quota_blocked_classes slot) in
      let classes := match named with [] => quotaClassKeys | _ => named end in
      foldl (class_default (legacy_block slot until source)) blocks classes
  | _, _ => blocks
  end.

Definition withLegacyQuotaClassMap (slot : CodexRoutingSlot) : CodexRoutingSlot :=
  let blocks := quotaBlocksIncludingLegacy slot in
  match blocks with
  | [] => slot
  | _ => slot <| sl_quota_blocks_by_class := blocks |> <| sl_quota_blocked_classes := class_keys blocks |>
  end.

(** A block listed twice does not change the maximum taken of them. *)
Definition quotaBlocksForClass (slot : CodexRoutingSlot) (key : CodexQuotaClass) : list CodexQuotaClassBlock :=
  let blocks := sl_quota_blocks_by_class (withLegacyQuotaClassMap slot) in
  omap id [class_get key blocks; if bool_decide (key = UnknownClass) then None else class_get UnknownClass blocks].

(** [??] on nullable numbers. *)
Definition or_else (a b : option Z) : option Z := match a with Some _ => a | None => b end.

Definition quotaSignalObservedAtForClass (slot : CodexRoutingSlot) (key : CodexQuotaClass) : option Z :=
  let signals := omap (fun b => or_else (bk_quota_signal_observed_at_ms b) (sl_quota_signal_observed_at_ms slot))
    (quotaBlocksForClass slot key) in
  or_else (max_list signals) (sl_quota_signal_observed_at_ms slot).

Definition quotaBlockKeyForClass (slot : CodexRoutingSlot) (key : CodexQuotaClass) : option CodexQuotaClass :=
  match quotaBlockForClass slot key with
  | None => None
  | Some block =>
      let blocks := sl_quota_blocks_by_class slot in
      if bool_decide (class_get key blocks = Some block) then Some key else
      if negb (bool_decide (key = UnknownClass)) && bool_decide (class_get UnknownClass blocks = Some block)
         && bk_legacy_fallback block then Some UnknownClass else None
  end.

Definition withoutQuotaClass (slot : CodexRoutingSlot) (key : CodexQuotaClass) : CodexRoutingSlot :=
  let current := sl_quota_blocks_by_class slot in
  let dropUnknown := negb (bool_decide (key = UnknownClass))
    && match class_get UnknownClass current with Some b => bk_legacy_fallback b | None => false end in
  let blocks := List.filter (fun '(k, _) =>
    negb (bool_decide (k = key)) && negb (dropUnknown && bool_decide (k = UnknownClass))) current in
  let remaining := snd <$> blocks in
  let latest := latest_from None remaining in
  slot <| sl_quota_blocks_by_class := blocks |>
       <| sl_quota_blocked_classes := class_keys blocks |>
       <| sl_quota_blocked_until_ms := bk_blocked_until_ms <$> latest |>
       <| sl_quota_block_source := bk_source <$> latest |>
       <| sl_quota_signal_observed_at_ms :=
            or_else (max_list (omap bk_quota_signal_observed_at_ms remaining)) (sl_quota_signal_observed_at_ms slot) |>
       <| sl_observed_reset_at_ms := latest ≫= bk_observed_reset_at_ms |>
       <| sl_observed_reset_at_is_stable := match latest with Some b => bk_observed_reset_at_is_stable b | None => false end |>
       <| sl_banked_reset_generation_ambiguous := existsb bk_banked_reset_generation_ambiguous remaining |>
       <| sl_banked_reset_recovery_probe_pending := existsb bk_banked_reset_recovery_probe_pending remaining |>.

Definition recheckQuotaClasses (slot : CodexRoutingSlot) (recheckAtMs : Z) : CodexRoutingSlot :=
  match sl_quota_blocks_by_class slot with
  | [] =>
      let blocked := match sl_quota_blocked_until_ms slot with Some _ => true | None => false end in
      slot <| sl_quota_blocked_until_ms := if blocked then Some recheckAtMs else None |>
           <| sl_banked_reset_generation_ambiguous := blocked || sl_banked_reset_generation_ambiguous slot |>
  | current =>
      let blocks := (fun '(k, b) => (k, b <| bk_blocked_until_ms := recheckAtMs |>
        <| bk_quota_signal_observed_at_ms := Some recheckAtMs |> <| bk_banked_reset_generation_ambiguous := true |>)) <$> current in
      let latest := latest_from None (snd <$> blocks) in
      slot <| sl_quota_blocked_until_ms := or_else (bk_blocked_until_ms <$> latest)
                (if truthy (sl_quota_blocked_until_ms slot) then Some recheckAtMs else None) |>
           <| sl_quota_block_source := match latest with Some b => Some (bk_source b) | None => sl_quota_block_source slot end |>
           <| sl_quota_blocked_classes := class_keys blocks |>
           <| sl_quota_blocks_by_class := blocks |>
           <| sl_observed_reset_at_ms := or_else (latest ≫= bk_observed_reset_at_ms) (sl_observed_reset_at_ms slot) |>
           <| sl_observed_reset_at_is_stable := match latest with
                Some b => bk_observed_reset_at_is_stable b | None => sl_observed_reset_at_is_stable slot end |>
  end.

Definition releaseQuotaClassProbe (slot : CodexRoutingSlot) (key : CodexQuotaClass) : CodexRoutingSlot :=
  let aware := withLegacyQuotaClassMap slot in
  let block := quotaBlockForClass aware key in
  let released := withoutQuotaClass aware (default key (quotaBlockKeyForClass aware key)) in
  if negb (sl_banked_reset_recovery_probe_pending aware) then released else
  released <| sl_observed_reset_at_ms := or_else (block ≫= bk_observed_reset_at_ms) (sl_observed_reset_at_ms slot) |>
           <| sl_observed_reset_at_is_stable := match block with
                Some b => bk_observed_reset_at_is_stable b | None => sl_observed_reset_at_is_stable slot end |>
           <| sl_banked_reset_generation_ambiguous := true |>.

(** ** Capacity observations *)

Definition parseFinitePercent (value : option string) : option Q :=
  match number_of_string <$> value with
  | Some (Fin q) => if Qle_bool 0 q && Qle_bool q 100 then Some q else None
  | _ => None
  end.

(** [Math.max(0, Math.min(...used.map((v) => 100 - v)))]: the differences are
    exact here; in doubles they round, which keeps their sign and zero. *)
Definition headroom (used : list (option Q)) : option Q :=
  match omap id used with
  | [] => None
  | v :: vs => Some (Qmax 0 (foldl Qmin (100 - v)%Q ((fun x => 100 - x)%Q <$> vs)))
  end.

Definition quotaHeadroomFor (slot : CodexRoutingSlot) : option Q :=
  headroom [sl_primary_used_percent slot; sl_secondary_used_percent slot].

Definition capacityState (v : jsval) : option CapacityState :=
  if is_str v "available" then Some Available else
  if is_str v "stale" then Some Stale else
  if is_str v "unavailable" then Some Unavailable else None.

Definition capacityPercent (v : jsval) : option Q :=
  match v with JNum (Fin q) => if Qle_bool 0 q && Qle_bool q 100 then Some q else None | _ => None end.

Definition normalizeCapacityWindow (v : jsval) : option CodexCapacityRoutingWindow :=
  if negb (isRecord v) then None else
  Some (mkCapacityWindow (nonNegativeSafeInteger (prop v "limit_window_seconds")) (capacityPercent (prop v "used_percent"))
    (parseOptionalSafeMs (prop v "reset_at_ms"))).

Definition normalize_windows (windows : jsval) : CapacityWindows :=
  mkWindows (normalizeCapacityWindow (prop windows "primary")) (normalizeCapacityWindow (prop windows "secondary")).

Definition normalizeCapacityAdditionalRateLimit (v : jsval) : option CodexCapacityRoutingAdditionalRateLimit :=
  if negb (isRecord v) then None else
  let limitName := match prop v "limit_name" with JStr s => trim s | _ => "" end in
  if empty limitName then None else
  let windows := prop v "windows" in
  if negb (isRecord windows) then None else
  match prop v "metered_feature" with
  | JNull | JUndefined => Some (mkRateLimit limitName None (normalize_windows windows))
  | JStr s => Some (mkRateLimit limitName (if empty (trim s) then None else Some (trim s)) (normalize_windows windows))
  | _ => None
  end.

Definition normalizeCapacityAdditionalRateLimits (v : jsval) : list CodexCapacityRoutingAdditionalRateLimit :=
  match v with JArr items => omap normalizeCapacityAdditionalRateLimit items | _ => [] end.

Definition capacityHeadroomForWindows (w : CapacityWindows) : option Q :=
  headroom [ws_primary w ≫= cw_used_percent; ws_secondary w ≫= cw_used_percent].

Definition capacityHeadroomForObservation (o : CodexCapacityRoutingObservation) (model : option string) : option Q :=
  let base := capacityHeadroomForWindows (ob_windows o) in
  let modelKey := normalizeQuotaLabel model in
  if empty modelKey then base else
  match List.filter (fun l => bool_decide (normalizeQuotaLabel (Some (rl_limit_name l)) = modelKey)) (ob_additional_rate_limits o) with
  | [] => base
  | limits =>
      match omap (fun l => capacityHeadroomForWindows (rl_windows l)) limits with
      | [] => None
      | h :: hs => Some (foldl Qmax h hs)
      end
  end.

Definition positive (h : option Q) : bool := match h with Some q => negb (Qle_bool q 0) | None => false end.
Definition exhausted (h : option Q) : bool := match h with Some q => Qeq_bool q 0 | None => false end.

Definition capacityHasAnyPositiveHeadroom (o : CodexCapacityRoutingObservation) (model : option string) : bool :=
  bool_decide (ob_state o = Available) && positive (capacityHeadroomForObservation o model).

Definition capacityObservationIsFresh (o : CodexCapacityRoutingObservation) (now : Z) : bool :=
  bool_decide (ob_state o = Available) && isSafeInteger (ob_snapshot_at_ms o) && (0 <=? ob_snapshot_at_ms o)
  && (ob_snapshot_at_ms o <=? now) && (now - ob_snapshot_at_ms o <=? CODEX_CAPACITY_ROUTING_MAX_AGE_MS).

(** A pool has two slots. *)
Definition parseStoredCapacityObservation (v : jsval) : option CodexCapacityRoutingObservation :=
  if negb (isRecord v) then None else
  slot ← nonNegativeSafeInteger (prop v "slot");
  if 1 <? slot then None else
  hash ← parseAccountIdHash (prop v "account_id_hash");
  state ← capacityState (prop v "state");
  snapshot ← nonNegativeSafeInteger (prop v "snapshot_at_ms");
  let windows := prop v "windows" in
  if negb (isRecord windows) then None else
  Some (mkObservation (Z.to_nat slot) hash state (nonNegativeSafeInteger (prop v "source_observed_at_ms")) snapshot
    (normalize_windows windows) (normalizeCapacityAdditionalRateLimits (prop v "additional_rate_limits"))).

Definition parseStoredCapacityObservationStore (v : jsval) : list CodexCapacityRoutingObservation :=
  if negb (isRecord v) || negb (is_int (prop v "v") 1) then [] else
  match prop v "observations" with JArr items => omap parseStoredCapacityObservation items | _ => [] end.

(** A [Map] by account: an update keeps the place of its key. *)
Fixpoint observe (by_account : list CodexCapacityRoutingObservation) (o : CodexCapacityRoutingObservation)
    : list CodexCapacityRoutingObservation :=
  match by_account with
  | [] => [o]
  | prior :: rest =>
      if bool_decide (ob_account_id_hash prior = ob_account_id_hash o)
      then (if ob_snapshot_at_ms prior <=? ob_snapshot_at_ms o then o else prior) :: rest
      else prior :: observe rest o
  end.

(** [sort((left, right) => left.slot - right.slot)], which is stable. *)
Fixpoint insert_by_slot (o : CodexCapacityRoutingObservation) (l : list CodexCapacityRoutingObservation)
    : list CodexCapacityRoutingObservation :=
  match l with
  | [] => [o]
  | x :: l => if (ob_slot o <? ob_slot x)%nat then o :: x :: l else x :: insert_by_slot o l
  end.
Definition sort_by_slot (l : list CodexCapacityRoutingObservation) : list CodexCapacityRoutingObservation :=
  foldl (fun acc o => insert_by_slot o acc) [] l.

Definition mergeCapacityObservations (sets : list (list CodexCapacityRoutingObservation)) : list CodexCapacityRoutingObservation :=
  sort_by_slot (foldl observe [] (mjoin sets)).

Definition retainRecentCapacityObservations (os : list CodexCapacityRoutingObservation) (now : Z)
    : list CodexCapacityRoutingObservation :=
  let oldest := Z.max 0 (now - CODEX_CAPACITY_ROUTING_MAX_AGE_MS) in
  List.filter (fun o => (oldest <=? ob_snapshot_at_ms o) && (ob_snapshot_at_ms o <=? now)) os.

(** ** Capacity transitions *)

Definition capacityObservedSlot (current cleared : CodexRoutingSlot) (o : CodexCapacityRoutingObservation) (clearCircuit : bool)
    : CodexRoutingSlot :=
  let observed := cleared
    <| sl_primary_used_percent := ws_primary (ob_windows o) ≫= cw_used_percent |>
    <| sl_secondary_used_percent := ws_secondary (ob_windows o) ≫= cw_used_percent |>
    <| sl_capacity_observed_at_ms := Some (ob_snapshot_at_ms o) |> in
  if negb clearCircuit then observed else
  let cleared' := observed <| sl_account_id_hash := Some (ob_account_id_hash o) |> in
  if sl_banked_reset_generation_ambiguous current || sl_banked_reset_recovery_probe_pending current
     || match sl_probe_lease current with Some _ => true | None => false end
  then cleared' <| sl_observed_reset_at_ms := sl_observed_reset_at_ms current |>
                <| sl_observed_reset_at_is_stable := sl_observed_reset_at_is_stable current |>
                <| sl_banked_reset_generation_ambiguous := sl_banked_reset_generation_ambiguous current |>
                <| sl_banked_reset_recovery_probe_pending := sl_banked_reset_recovery_probe_pending current |>
                <| sl_probe_lease := sl_probe_lease current |>
  else match sl_quota_blocks_by_class cleared with
       | _ :: _ => cleared'
       | [] => cleared' <| sl_observed_reset_at_ms := None |>
                        <| sl_observed_reset_at_is_stable := false |>
                        <| sl_banked_reset_generation_ambiguous := false |>
                        <| sl_banked_reset_recovery_probe_pending := false |>
                        <| sl_generation := sl_generation current + 1 |>
                        <| sl_probe_lease := None |>
       end.

Definition same_identity (b b' : CodexQuotaClassBlock) : bool :=
  (bk_blocked_until_ms b =? bk_blocked_until_ms b') && bool_decide (bk_source b = bk_source b')
  && bool_decide (bk_observed_reset_at_ms b = bk_observed_reset_at_ms b') && bk_observed_reset_at_is_stable b
  && negb (bk_banked_reset_generation_ambiguous b)
  && Bool.eqb (bk_banked_reset_recovery_probe_pending b) (bk_banked_reset_recovery_probe_pending b').

Definition applyCapacityQuotaBlock (state : CodexAccountRoutingState) (account : CodexRoutingAccount)
    (o : CodexCapacityRoutingObservation) (now updatedAtMs : Z) : option CodexAccountRoutingState :=
  if negb (capacityObservationIsFresh o now) then None else
  if negb (bool_decide (ob_slot o = ac_slot account)) || negb (bool_decide (ob_account_id_hash o = ac_accountIdHash account))
  then None else
  if negb (exhausted (capacityHeadroomForObservation o (ac_requestedModel account))) then None else
  resetAtMs ← ws_primary (ob_windows o) ≫= cw_reset_at_ms;
  if negb (isSafeInteger resetAtMs && (0 <=? resetAtMs)) || (resetAtMs <=? now) then None else
  let current := slotFor state account in
  if negb (slotMatchesCodexRoutingAccount current account) || match sl_probe_lease current with Some _ => true | None => false end
  then None else
  let requested := quotaClass (ac_requestedModel account) in
  let aware := withLegacyQuotaClassMap current in
  let prior := quotaBlockForClass aware requested in
  if match quotaSignalObservedAtForClass aware requested with Some t => ob_snapshot_at_ms o <? t | None => false end then None else
  let pending := sl_banked_reset_recovery_probe_pending current
    || match prior with Some b => bk_banked_reset_recovery_probe_pending b | None => false end in
  let next := mkBlock resetAtMs HeaderRetryAfter false (Some (ob_snapshot_at_ms o)) (Some resetAtMs) true false pending in
  if match prior with Some b => same_identity b next | None => false end then None else
  let by_class := class_set requested next (quotaBlocksIncludingLegacy current) in
  let blocks := snd <$> by_class in
  let latest := default next (latest_from (Some next) blocks) in
  let slot := current
    <| sl_account_id_hash := Some (ac_accountIdHash account) |>
    <| sl_quota_blocked_until_ms := Some (bk_blocked_until_ms latest) |>
    <| sl_quota_block_source := Some (bk_source latest) |>
    <| sl_quota_blocked_classes := class_keys by_class |>
    <| sl_quota_blocks_by_class := by_class |>
    <| sl_quota_signal_observed_at_ms := Some (default (ob_snapshot_at_ms o) (max_list (omap bk_quota_signal_observed_at_ms blocks))) |>
    <| sl_observed_reset_at_ms := bk_observed_reset_at_ms latest |>
    <| sl_observed_reset_at_is_stable := bk_observed_reset_at_is_stable latest |>
    <| sl_banked_reset_generation_ambiguous := existsb bk_banked_reset_generation_ambiguous blocks |>
    <| sl_banked_reset_recovery_probe_pending := existsb bk_banked_reset_recovery_probe_pending blocks |>
    <| sl_generation := sl_generation current + 1 |> in
  Some (state <| rs_updated_at_ms := updatedAtMs |> <| rs_slots := <[ac_slot account := slot]> (rs_slots state) |>).

Definition percent_eqb (a b : option Q) : bool :=
  match a, b with Some p, Some q => Qeq_bool p q | None, None => true | _, _ => false end.

(** Clearing a circuit builds new class maps, so the slot always changed then;
    otherwise only the observation's own fields can differ. *)
Definition applyCapacityObservation (state : CodexAccountRoutingState) (o : CodexCapacityRoutingObservation) (now : Z)
    (model : option string) (updatedAtMs : Z) : option CodexAccountRoutingState :=
  if now <? ob_snapshot_at_ms o then None else
  current ← rs_slots state !! ob_slot o;
  if negb (bool_decide (sl_account_id_hash current = Some (ob_account_id_hash o))) then None else
  if match sl_capacity_observed_at_ms current with Some t => ob_snapshot_at_ms o <? t | None => false end then None else
  let capacityPositive := capacityObservationIsFresh o now && capacityHasAnyPositiveHeadroom o model in
  let requested := quotaClass model in
  let aware := withLegacyQuotaClassMap current in
  let newerQuotaSignal := match quotaSignalObservedAtForClass aware requested with
    Some t => ob_snapshot_at_ms o <=? t | None => false end in
  let clearCircuit := capacityPositive && negb newerQuotaSignal in
  let cleared := if clearCircuit then withoutQuotaClass aware (default requested (quotaBlockKeyForClass aware requested)) else current in
  let next := capacityObservedSlot current cleared o clearCircuit in
  let changed := clearCircuit
    || negb (percent_eqb (sl_primary_used_percent next) (sl_primary_used_percent current))
    || negb (percent_eqb (sl_secondary_used_percent next) (sl_secondary_used_percent current))
    || negb (bool_decide (sl_capacity_observed_at_ms next = sl_capacity_observed_at_ms current)) in
  if changed then Some (withSlot state (ob_slot o) next updatedAtMs) else None.

Definition planCapacityObservationStore (revision : option string) (durable observations : list CodexCapacityRoutingObservation)
    (now : Z) : option string * (Z * list CodexCapacityRoutingObservation) :=
  (revision, (now, retainRecentCapacityObservations (mergeCapacityObservations [durable; observations]) now)).
