(* ===== verification/CodexRouting.v ===== *)
(** * Codex routing decisions

    [src/authority/native-codex-evaluation.ts] and [native-codex.ts]: which
    account of the pool takes a request and when the active account moves.  A
    plan is committed by the store adapter only if none of the four rows it read
    has changed. *)

From stdpp Require Import base strings list option.
From Stdlib Require Import ZArith QArith Lia Ascii.
From S2P Require Import Prelude Js CodexContracts CodexCapacity.
Open Scope string_scope.
Open Scope Z_scope.

(** ** Evaluation of one account *)

Record CodexRoutingAccountEvaluation := mkEvaluation {
  ev_account : CodexRoutingAccount;
  ev_routedAccount : option CodexRoutingAccount;
  ev_skippedSlot : option Z;
  ev_blockedCircuit : option CodexProbeCircuit;
  ev_retryAtMs : option Z;
  ev_blockedAccount : option CodexBlockedAccountMetadata;
  ev_activeTransitionReason : option CodexActiveAccountTransitionReason;
  ev_capacityExhausted : bool;
  ev_modelUnavailable : option (string * option string) }.

#[export] Instance eta_CodexRoutingAccountEvaluation : Eta CodexRoutingAccountEvaluation := fun e =>
  mkEvaluation (ev_account e) (ev_routedAccount e) (ev_skippedSlot e) (ev_blockedCircuit e) (ev_retryAtMs e)
    (ev_blockedAccount e) (ev_activeTransitionReason e) (ev_capacityExhausted e) (ev_modelUnavailable e).

Definition skippedRoutingAccount (account : CodexRoutingAccount) (slotNumber : Z) (circuit : option CodexProbeCircuit)
    (retryAtMs : option Z) (blocked : option CodexBlockedAccountMetadata)
    (reason : option CodexActiveAccountTransitionReason) : CodexRoutingAccountEvaluation :=
  mkEvaluation account None (Some slotNumber) circuit retryAtMs blocked reason false None.

Definition routedRoutingAccount (account : CodexRoutingAccount) : CodexRoutingAccountEvaluation :=
  mkEvaluation account (Some account) None None None None None false None.

Definition freshCapacityObservation (o : option CodexCapacityRoutingObservation) (now : Z) : option CodexCapacityRoutingObservation :=
  o ← o; if capacityObservationIsFresh o now then Some o else None.

Record CapacityDecision := mkDecision { cd_quotaHeadroom : option Q; cd_override : bool; cd_exhausted : bool }.

Definition resolveCodexCapacityDecision (slot aware : CodexRoutingSlot) (requested : CodexQuotaClass)
    (o : option CodexCapacityRoutingObservation) (model : option string) (now : Z) : CapacityDecision :=
  match freshCapacityObservation o now with
  | None => mkDecision (quotaHeadroomFor slot) false false
  | Some fresh =>
      let headroom := capacityHeadroomForObservation fresh model in
      let quotaSignalNewer := match quotaSignalObservedAtForClass aware requested with
        Some t => ob_snapshot_at_ms fresh <=? t | None => false end in
      mkDecision headroom (positive headroom && negb quotaSignalNewer) (exhausted headroom && negb quotaSignalNewer)
  end.

Definition quotaBlockedSkipFor (block : option CodexQuotaClassBlock) (routed : CodexRoutingAccount) (now : Z) (override : bool)
    : option (Z * option CodexBlockedAccountMetadata) :=
  block ← block;
  if (bk_blocked_until_ms block <=? now) || override then None else
  Some (bk_blocked_until_ms block,
    match bk_observed_reset_at_ms block with
    | Some t => if bk_observed_reset_at_is_stable block then Some (mkBlocked routed t) else None
    | None => None
    end).

Definition probeLeaseSkipFor (slot : CodexRoutingSlot) (requested : CodexQuotaClass) (now : Z) : option (CodexProbeCircuit * Z) :=
  lease ← sl_probe_lease slot;
  if pl_expires_at_ms lease <=? now then None else
  if negb (bool_decide (pl_circuit lease = UpstreamTimeoutCircuit))
     && match pl_quota_class lease with None => true | Some c => bool_decide (c = requested) end
  then Some (pl_circuit lease, pl_expires_at_ms lease) else None.

Definition evaluateCodexRoutingAccount (state : CodexAccountRoutingState) (mapped : CodexRoutingIdentity) (model : option string)
    (observations : string -> option CodexCapacityRoutingObservation) (now : Z) (policy : CodexRoutingAccountPolicy)
    : CodexRoutingAccountEvaluation :=
  let account := mkAccount (id_slot mapped) (id_accountIdHash mapped) (id_credentialVersion mapped) None false None None None
    false None None None None model in
  let stored := slotFor state account in
  let slot := if slotMatchesCodexRoutingAccount stored account then stored
              else neutralSlot (ac_credentialVersion account) (Some (ac_accountIdHash account)) in
  let requested := quotaClass model in
  let aware := withLegacyQuotaClassMap slot in
  let block := quotaBlockForClass aware requested in
  let observation := observations (ac_accountIdHash account) in
  let capacity := resolveCodexCapacityDecision slot aware requested observation model now in
  let routed := account <| ac_quotaHeadroom := cd_quotaHeadroom capacity |> <| ac_routingGeneration := Some (sl_generation slot) |> in
  let slotNumber := Z.of_nat (id_slot mapped) + 1 in
  if bool_decide (sl_invalid_credential_version slot = Some (ac_credentialVersion account))
  then skippedRoutingAccount routed slotNumber None None None (Some CredentialInvalid) else
  match model, po_modelUnavailable policy with
  | Some m, Some detail =>
      skippedRoutingAccount routed slotNumber None None None (Some ModelUnavailable) <| ev_modelUnavailable := Some (m, detail) |>
  | _, _ =>
  match quotaBlockedSkipFor block routed now (cd_override capacity) with
  | Some (retryAtMs, blocked) =>
      skippedRoutingAccount routed slotNumber (Some QuotaCircuit) (Some retryAtMs) blocked (Some QuotaExhausted)
  | None =>
  if cd_exhausted capacity then
    if po_overageUsageAllowed policy
    then routedRoutingAccount (routed <| ac_probeRequired := false |> <| ac_probeCircuit := None |>) <| ev_capacityExhausted := true |>
    else match freshCapacityObservation observation now ≫= (fun o => ws_primary (ob_windows o) ≫= cw_reset_at_ms) with
         | Some reset =>
             if isSafeInteger reset && (now <? reset)
             then skippedRoutingAccount routed slotNumber (Some QuotaCircuit) (Some reset) (Some (mkBlocked routed reset))
                    (Some QuotaExhausted) <| ev_capacityExhausted := true |>
             else routedRoutingAccount (routed <| ac_probeRequired := true |> <| ac_probeCircuit := Some QuotaCircuit |>)
                    <| ev_capacityExhausted := true |>
         | None => routedRoutingAccount (routed <| ac_probeRequired := true |> <| ac_probeCircuit := Some QuotaCircuit |>)
                     <| ev_capacityExhausted := true |>
         end
  else match probeLeaseSkipFor slot requested now with
       | Some (circuit, retryAtMs) => skippedRoutingAccount routed slotNumber (Some circuit) (Some retryAtMs) None None
       | None =>
           match block with
           | Some _ => routedRoutingAccount (routed <| ac_probeRequired := negb (cd_override capacity) |>
                         <| ac_probeCircuit := if cd_override capacity then None else Some QuotaCircuit |>)
           | None => routedRoutingAccount routed
           end
       end
  end end.

(** ** The cohort *)

Record CodexRoutingAccumulation := mkAccumulation {
  am_available : list CodexRoutingAccount;
  am_blockedAccounts : list CodexBlockedAccountMetadata;
  am_skipped : list Z;
  am_retryAt : option Z;
  am_hasQuotaBlock : bool;
  am_hasUpstreamTimeoutBlock : bool;
  am_modelUnavailable : option (string * option string) }.

Definition foldCodexRoutingEvaluation (am : CodexRoutingAccumulation) (e : CodexRoutingAccountEvaluation) : CodexRoutingAccumulation :=
  match ev_routedAccount e with
  | Some account => mkAccumulation (am_available am ++ [account])%list (am_blockedAccounts am) (am_skipped am) (am_retryAt am)
      (am_hasQuotaBlock am) (am_hasUpstreamTimeoutBlock am) (am_modelUnavailable am)
  | None => mkAccumulation (am_available am)
      (match ev_blockedAccount e with Some b => (am_blockedAccounts am ++ [b])%list | None => am_blockedAccounts am end)
      (match ev_skippedSlot e with Some s => (am_skipped am ++ [s])%list | None => am_skipped am end)
      (match ev_retryAtMs e with
       | Some t => Some (match am_retryAt am with None => t | Some r => Z.min r t end)
       | None => am_retryAt am
       end)
      (am_hasQuotaBlock am || bool_decide (ev_blockedCircuit e = Some QuotaCircuit))
      (am_hasUpstreamTimeoutBlock am || bool_decide (ev_blockedCircuit e = Some UpstreamTimeoutCircuit))
      (match am_modelUnavailable am with Some m => Some m | None => ev_modelUnavailable e end)
  end.

Definition classifyCodexRouteSelection (am : CodexRoutingAccumulation) (fullCohortExhausted : bool)
    (activeSnapshot : option CodexActiveAccountSelection) (poolJson capacityJson : option string) (fullCohortUnavailable : bool)
    : CodexRouteSelection :=
  match am_available am with
  | _ :: _ => Eligible (am_available am) (am_skipped am) (am_blockedAccounts am)
  | [] =>
      if am_hasUpstreamTimeoutBlock am then UpstreamBlocked (am_skipped am) (am_retryAt am) else
      if am_hasQuotaBlock am
      then QuotaBlocked (am_skipped am) (am_retryAt am) (am_blockedAccounts am) fullCohortExhausted fullCohortUnavailable
             activeSnapshot poolJson capacityJson else
      match am_modelUnavailable am with
      | Some (model, detail) => ModelIsUnavailable model detail (am_skipped am)
      | None => CredentialsInvalid (am_skipped am) fullCohortUnavailable
      end
  end.

(** A slot is written only if it is not the stored object at its index. *)
Definition routingStateChangedByNormalization (durable : option CodexAccountRoutingState) (normalized : CodexAccountRoutingState)
    (origins : list (option nat)) : bool :=
  match durable with
  | None => true
  | Some d =>
      negb (Bool.eqb (rs_banked_reset_legacy_identity_unresolved d) (rs_banked_reset_legacy_identity_unresolved normalized))
      || negb (length (rs_slots d) =? length (rs_slots normalized))%nat
      || negb (bool_decide (origins = Some <$> seq 0 (length (rs_slots d))))
  end.

(** ** The active account *)

Definition activeSelectionForAccount (account : CodexRoutingAccount) (poolVersionstamp : string) (generation now : Z)
    (reason : option CodexActiveAccountTransitionReason) : option CodexActiveAccountSelection :=
  routing ← ac_routingGeneration account;
  if negb (isVersionstamp poolVersionstamp) || negb (isSafeInteger generation) || (generation <? 1) then None else
  Some (mkActive (ac_accountIdHash account) (ac_credentialVersion account) poolVersionstamp (Z.of_nat (ac_slot account))
    routing generation reason now).

Definition activeSelectionNeedsRefresh (active : CodexActiveAccountSelection) (account : CodexRoutingAccount)
    (poolVersionstamp : string) : bool :=
  negb (bool_decide (as_account_id_hash active = ac_accountIdHash account))
  || negb (bool_decide (as_credential_version active = ac_credentialVersion account))
  || negb (bool_decide (as_pool_versionstamp active = poolVersionstamp))
  || negb (as_slot active =? Z.of_nat (ac_slot account))
  || negb (bool_decide (Some (as_routing_generation active) = ac_routingGeneration account)).

Record SerialRoutingEvaluations := mkEvaluations {
  se_accumulated : CodexRoutingAccumulation;
  se_byAccountId : list (string * CodexRoutingAccountEvaluation) }.

Record SerialSelectionContext := mkContext {
  cx_evaluations : SerialRoutingEvaluations;
  cx_poolVersionstamp : string;
  cx_now : Z;
  cx_poolSnapshotJson : option string;
  cx_capacitySnapshotJson : option string;
  cx_eligibleInPoolOrder : list CodexRoutingAccount;
  cx_fullCohortExhausted : bool;
  cx_fullCohortUnavailable : bool }.

Record SerialSelectionDecision := mkSerial {
  sd_selection : CodexRouteSelection;
  sd_nextActive : option CodexActiveAccountSelection }.

Definition eligibleSerialSelection (account : CodexRoutingAccount) (selection : CodexActiveAccountSelection)
    (ev : SerialRoutingEvaluations) : CodexRouteSelection :=
  Eligible [account <| ac_activeGeneration := Some (as_generation selection) |>
                    <| ac_activePoolVersionstamp := Some (as_pool_versionstamp selection) |>
                    <| ac_activeTransitionReason := as_transition_reason selection |>]
    (am_skipped (se_accumulated ev)) (am_blockedAccounts (se_accumulated ev)).

Definition blockedSerialSelection (cx : SerialSelectionContext) (current : option CodexActiveAccountSelection) : CodexRouteSelection :=
  classifyCodexRouteSelection (se_accumulated (cx_evaluations cx)) (cx_fullCohortExhausted cx) current
    (cx_poolSnapshotJson cx) (cx_capacitySnapshotJson cx) (cx_fullCohortUnavailable cx).

Definition serialBootstrapDecision (cx : SerialSelectionContext) : option SerialSelectionDecision :=
  match cx_eligibleInPoolOrder cx with
  | [] => Some (mkSerial (blockedSerialSelection cx None) None)
  | bootstrap :: _ =>
      next ← activeSelectionForAccount bootstrap (cx_poolVersionstamp cx) 1 (cx_now cx) None;
      Some (mkSerial (eligibleSerialSelection bootstrap next (cx_evaluations cx)) (Some next))
  end.

Definition serialReplacementDecision (cx : SerialSelectionContext) (active : CodexActiveAccountSelection)
    : option SerialSelectionDecision :=
  match cx_eligibleInPoolOrder cx with
  | [] => Some (mkSerial (blockedSerialSelection cx (Some active)) None)
  | replacement :: _ =>
      next ← activeSelectionForAccount replacement (cx_poolVersionstamp cx) (as_generation active + 1) (cx_now cx)
        (Some AccountRemovedOrReplaced);
      Some (mkSerial (eligibleSerialSelection replacement next (cx_evaluations cx)) (Some next))
  end.

(** The same identity's fences, as the row keeps them or refreshed. *)
Definition refreshed_active (cx : SerialSelectionContext) (active : CodexActiveAccountSelection) (account : CodexRoutingAccount)
    : option (option CodexActiveAccountSelection) :=
  if activeSelectionNeedsRefresh active account (cx_poolVersionstamp cx)
  then next ← activeSelectionForAccount account (cx_poolVersionstamp cx) (as_generation active) (cx_now cx) (as_transition_reason active);
       Some (Some next)
  else Some None.

Definition serialCurrentActiveDecision (cx : SerialSelectionContext) (active : CodexActiveAccountSelection)
    (current : CodexRoutingAccount) : option SerialSelectionDecision :=
  refreshed ← refreshed_active cx active current;
  Some (mkSerial (eligibleSerialSelection current (default active refreshed) (cx_evaluations cx)) refreshed).

Definition serialBlockedActiveDecision (cx : SerialSelectionContext) (active : CodexActiveAccountSelection)
    (evaluation : CodexRoutingAccountEvaluation) : option SerialSelectionDecision :=
  match ev_activeTransitionReason evaluation with
  | None => Some (mkSerial RoutingUnavailable None)
  | Some reason =>
      match cx_eligibleInPoolOrder cx with
      | [] =>
          refreshed ← refreshed_active cx active (ev_account evaluation);
          Some (mkSerial (blockedSerialSelection cx (Some (default active refreshed))) refreshed)
      | replacement :: _ =>
          next ← activeSelectionForAccount replacement (cx_poolVersionstamp cx) (as_generation active + 1) (cx_now cx) (Some reason);
          Some (mkSerial (eligibleSerialSelection replacement next (cx_evaluations cx)) (Some next))
      end
  end.

(** The [identityByAccountId] map holds every pool identity under its own hash,
    so the account found for the active row is the one with its hash. *)
Definition serialSelectionDecision (active : option CodexActiveAccountSelection) (pool : list CodexRoutingIdentity)
    (ev : SerialRoutingEvaluations) (poolVersionstamp : string) (now : Z) (poolJson capacityJson : option string)
    : option SerialSelectionDecision :=
  let evaluation (i : CodexRoutingIdentity) := assoc (id_accountIdHash i) (se_byAccountId ev) in
  let reason (i : CodexRoutingIdentity) := evaluation i ≫= ev_activeTransitionReason in
  let nonempty := negb (bool_decide (length pool = O)) in
  let cx := mkContext ev poolVersionstamp now poolJson capacityJson
    (omap (fun i => evaluation i ≫= ev_routedAccount) pool)
    (nonempty && forallb (fun i => bool_decide (reason i = Some QuotaExhausted)) pool)
    (nonempty && forallb (fun i => bool_decide (reason i = Some QuotaExhausted) || bool_decide (reason i = Some CredentialInvalid)) pool) in
  match active with
  | None => serialBootstrapDecision cx
  | Some a =>
      match List.find (fun i => bool_decide (id_accountIdHash i = as_account_id_hash a)) pool ≫= evaluation with
      | None => serialReplacementDecision cx a
      | Some e =>
          match ev_routedAccount e with
          | Some current => serialCurrentActiveDecision cx a current
          | None => serialBlockedActiveDecision cx a e
          end
      end
  end.

Definition planCodexSerialCommit (checks : CodexRoutingRowRevisions) (durable : option CodexAccountRoutingState)
    (normalized : CodexAccountRoutingState * list (option nat)) (d : SerialSelectionDecision) : CodexSerialAdmissionPlan :=
  mkPlan checks (if routingStateChangedByNormalization durable (fst normalized) (snd normalized) then Some (fst normalized) else None)
    (sd_nextActive d) (sd_selection d).

Record CodexSerialSnapshot := mkSerialSnapshot {
  ss_active : jsval;
  ss_routing : jsval;
  ss_capacity : jsval;
  ss_poolIdentities : list CodexRoutingIdentity;
  ss_selectedAccountHashes : list string;
  ss_accountPolicies : list (string * CodexRoutingAccountPolicy);
  ss_revisions : CodexRoutingRowRevisions }.

(** [new Map(entries)]: the last entry of a key wins. *)
Definition observation_of (os : list CodexCapacityRoutingObservation) (hash : string) : option CodexCapacityRoutingObservation :=
  List.find (fun o => bool_decide (ob_account_id_hash o = hash)) (reverse os).

(** [map.set(key, value)]: an update keeps the key's place. *)
Fixpoint map_set {A} (k : string) (v : A) (m : list (string * A)) : list (string * A) :=
  match m with
  | [] => [(k, v)]
  | (k', v') :: m => if String.eqb k k' then (k', v) :: m else (k', v') :: map_set k v m
  end.

(** The loop over the cohort; [None] when an account has no policy. *)
Fixpoint evaluate_cohort (state : CodexAccountRoutingState) (model : option string)
    (observations : string -> option CodexCapacityRoutingObservation) (now : Z)
    (policies : list (string * CodexRoutingAccountPolicy)) (cohort : list CodexRoutingIdentity) (ev : SerialRoutingEvaluations)
    : option SerialRoutingEvaluations :=
  match cohort with
  | [] => Some ev
  | i :: cohort =>
      policy ← assoc (id_accountIdHash i) policies;
      let e := evaluateCodexRoutingAccount state i model observations now policy in
      evaluate_cohort state model observations now policies cohort
        (mkEvaluations (foldCodexRoutingEvaluation (se_accumulated ev) e) (map_set (id_accountIdHash i) e (se_byAccountId ev)))
  end.

Definition no_evaluations : SerialRoutingEvaluations := mkEvaluations (mkAccumulation [] [] [] None false false None) [].

(** A stored row read through its parser: [None] when it is malformed. *)
Definition stored {A} (parse : jsval -> option A) (v : jsval) : option (option A) :=
  if is_null v then Some None else a ← parse v; Some (Some a).

Definition selectCodex (snapshot : CodexSerialSnapshot) (now : Z) (model : option string) : option CodexSerialAdmissionPlan :=
  active ← stored parseCodexActiveAccountSelection (ss_active snapshot);
  pool ← rv_pool (ss_revisions snapshot);
  if negb (isVersionstamp pool) then None else
  durable ← stored parseCodexAccountRoutingState (ss_routing snapshot);
  let normalized := normalizeRoutingState durable (ss_poolIdentities snapshot) now true in
  let cohort := List.filter (fun i => bool_decide (id_accountIdHash i ∈ ss_selectedAccountHashes snapshot)) (ss_poolIdentities snapshot) in
  let observations := observation_of (parseStoredCapacityObservationStore (ss_capacity snapshot)) in
  ev ← evaluate_cohort (fst normalized) model observations now (ss_accountPolicies snapshot) cohort no_evaluations;
  d ← serialSelectionDecision active cohort ev pool now None None;
  Some (planCodexSerialCommit (ss_revisions snapshot) durable normalized d).

(** The rows a verified reset writes: routing if normalization changed it, and
    always the active row. *)
Definition planCodexResetElection (checks : CodexRoutingRowRevisions) (durable : option CodexAccountRoutingState)
    (normalized : CodexAccountRoutingState * list (option nat)) (next : CodexActiveAccountSelection)
    : CodexRoutingRowRevisions * option CodexAccountRoutingState * CodexActiveAccountSelection :=
  (checks, if routingStateChangedByNormalization durable (fst normalized) (snd normalized) then Some (fst normalized) else None, next).
