(* ===== verification/CodexMutations.v ===== *)
(** * Codex slot transitions

    [src/authority/native-codex-mutations.ts] and the decisions of
    [native-codex-429.ts]: what a response, a probe or a credential refresh does
    to the slot that served it.  A transition that does not hold its fence
    returns [None] and nothing is written. *)

From stdpp Require Import base strings list option.
From Stdlib Require Import ZArith QArith Lia Ascii.
From S2P Require Import Prelude Js CodexContracts CodexCapacity.
Open Scope string_scope.
Open Scope Z_scope.

Definition has_lease (slot : CodexRoutingSlot) : bool := match sl_probe_lease slot with Some _ => true | None => false end.

(** ** Responses *)

Definition markCodexUpstreamTimeout (state : CodexAccountRoutingState) (account : CodexRoutingAccount) (now updatedAtMs : Z)
    : option CodexAccountRoutingState :=
  let blockedUntil := now + CODEX_UPSTREAM_TIMEOUT_CIRCUIT_MS in
  let current := slotFor state account in
  if negb (slotMatchesCodexRoutingAccount current account) then None else
  if match ac_probeGeneration account with
     | None => has_lease current
     | Some _ => negb (probeLeaseMatchesCodexRoutingAccount current account)
     end then None else
  Some (withSlot state (ac_slot account) (current
    <| sl_account_id_hash := Some (ac_accountIdHash account) |>
    <| sl_upstream_timeout_blocked_until_ms := Some (Z.max (default 0 (sl_upstream_timeout_blocked_until_ms current)) blockedUntil) |>
    <| sl_generation := sl_generation current + 1 |>
    <| sl_probe_lease := None |>) updatedAtMs).

Definition markCodexCredentialInvalid (state : CodexAccountRoutingState) (account : CodexRoutingAccount) (now updatedAtMs : Z)
    : option CodexAccountRoutingState :=
  let current := slotFor state account in
  if negb (slotMatchesCodexRoutingAccount current account) then None else
  if match ac_probeGeneration account with
     | None => false
     | Some _ => negb (probeLeaseMatchesCodexRoutingAccount current account)
     end then None else
  Some (withSlot state (ac_slot account) (current
    <| sl_account_id_hash := Some (ac_accountIdHash account) |>
    <| sl_quota_blocked_until_ms := None |>
    <| sl_quota_block_source := None |>
    <| sl_quota_blocked_classes := [] |>
    <| sl_quota_blocks_by_class := [] |>
    <| sl_upstream_timeout_blocked_until_ms := None |>
    <| sl_invalid_credential_version := Some (ac_credentialVersion account) |>
    <| sl_quota_signal_observed_at_ms := Some now |>
    <| sl_probe_lease := None |>) updatedAtMs).

(** The circuit of the probe given up: its class block, or the timeout. *)
Definition released_circuit (current : CodexRoutingSlot) (account : CodexRoutingAccount) : CodexRoutingSlot :=
  match routingProbeCircuit account with
  | QuotaCircuit => releaseQuotaClassProbe current (quotaClass (ac_requestedModel account))
  | UpstreamTimeoutCircuit => current
  end.
Definition timeout_after (current : CodexRoutingSlot) (account : CodexRoutingAccount) : option Z :=
  match routingProbeCircuit account with
  | UpstreamTimeoutCircuit => None
  | QuotaCircuit => sl_upstream_timeout_blocked_until_ms current
  end.

Definition releaseCodexRoutingProbe (state : CodexAccountRoutingState) (account : CodexRoutingAccount) (updatedAtMs : Z)
    : option CodexAccountRoutingState :=
  let current := slotFor state account in
  if negb (slotMatchesCodexRoutingAccount current account) || negb (probeLeaseMatchesCodexRoutingAccount current account)
  then None else
  Some (withSlot state (ac_slot account) (released_circuit current account
    <| sl_account_id_hash := Some (ac_accountIdHash account) |>
    <| sl_upstream_timeout_blocked_until_ms := timeout_after current account |>
    <| sl_probe_lease := None |>) updatedAtMs).

Definition markCodexSuccess (state : CodexAccountRoutingState) (account : CodexRoutingAccount) (updatedAtMs : Z)
    : option CodexAccountRoutingState :=
  let current := slotFor state account in
  if negb (slotMatchesCodexRoutingAccount current account) || negb (probeLeaseMatchesCodexRoutingAccount current account)
  then None else
  let aware := withLegacyQuotaClassMap current in
  let requested := quotaClass (ac_requestedModel account) in
  let released := match routingProbeCircuit account with
    | QuotaCircuit => withoutQuotaClass aware (default requested (quotaBlockKeyForClass aware requested))
    | UpstreamTimeoutCircuit => current
    end in
  let others := match sl_quota_blocks_by_class released with [] => false | _ => true end in
  Some (withSlot state (ac_slot account) (released
    <| sl_account_id_hash := Some (ac_accountIdHash account) |>
    <| sl_upstream_timeout_blocked_until_ms := timeout_after current account |>
    <| sl_observed_reset_at_ms := if others then sl_observed_reset_at_ms released else None |>
    <| sl_observed_reset_at_is_stable := others && sl_observed_reset_at_is_stable released |>
    <| sl_banked_reset_generation_ambiguous := others && sl_banked_reset_generation_ambiguous released |>
    <| sl_banked_reset_recovery_probe_pending := others && sl_banked_reset_recovery_probe_pending released |>
    <| sl_probe_lease := None |>) updatedAtMs).

Definition reconcileRoutingCredential (state : CodexAccountRoutingState) (account : CodexRoutingAccount)
    (accountIdHash credentialVersion : string) (sameAccount : bool) (updatedAtMs : Z) : option CodexAccountRoutingState :=
  let current := slotFor state account in
  if bool_decide (sl_credential_version current = credentialVersion) then None else
  if negb (slotMatchesCodexRoutingAccount current account) then None else
  Some (withSlot state (ac_slot account)
    (if sameAccount then rotateCredentialForSameAccount current accountIdHash credentialVersion
     else neutralSlot credentialVersion (Some accountIdHash)) updatedAtMs).

(** ** Probes *)

Definition lease_expiry (slot : CodexRoutingSlot) : Z :=
  match sl_probe_lease slot with Some l => pl_expires_at_ms l | None => 0 end.

Definition buildExpiredProbeClaim (base : CodexAccountRoutingState) (account : CodexRoutingAccount) (now : Z) (token : string)
    (updatedAtMs : Z) : option (CodexAccountRoutingState * ProbeLease) :=
  let current := slotFor base account in
  let circuit := routingProbeCircuit account in
  let requested := quotaClass (ac_requestedModel account) in
  let block := quotaBlockForClass current requested in
  let deadline := match circuit with
    | UpstreamTimeoutCircuit => sl_upstream_timeout_blocked_until_ms current
    | QuotaCircuit => bk_blocked_until_ms <$> block
    end in
  let capacityProbe := bool_decide (circuit = QuotaCircuit) && bool_decide (block = None) && exhausted (ac_quotaHeadroom account) in
  let overageProbe := bool_decide (circuit = QuotaCircuit) && ac_overageFallback account in
  if negb (slotMatchesCodexRoutingAccount current account)
     || bool_decide (sl_invalid_credential_version current = Some (ac_credentialVersion account))
     || (negb capacityProbe && negb overageProbe
         && match deadline with Some t => (t =? 0) || (now <? t) | None => true end)
     || (now <? lease_expiry current)
  then None else
  let lease := mkLease token (now + CODEX_HALF_OPEN_LEASE_MS) (sl_generation current) circuit
    (match circuit with QuotaCircuit => Some requested | UpstreamTimeoutCircuit => None end) in
  Some (withSlot base (ac_slot account) (current
    <| sl_account_id_hash := Some (ac_accountIdHash account) |> <| sl_probe_lease := Some lease |>) updatedAtMs, lease).

(** A slot that is missing throws: [None]. *)
Definition recoveryProbeTransition (state : CodexAccountRoutingState) (account : CodexRoutingAccount) (lease : ProbeLease)
    (updatedAtMs : Z) : option CodexAccountRoutingState :=
  current ← rs_slots state !! ac_slot account;
  let requested := quotaClass (ac_requestedModel account) in
  let aware := withLegacyQuotaClassMap current in
  let block := quotaBlockForClass aware requested in
  let released := withoutQuotaClass aware (default requested (quotaBlockKeyForClass aware requested)) in
  Some (withSlot state (ac_slot account) (released
    <| sl_observed_reset_at_ms := or_else (block ≫= bk_observed_reset_at_ms) (sl_observed_reset_at_ms current) |>
    <| sl_observed_reset_at_is_stable := match block with
         Some b => bk_observed_reset_at_is_stable b | None => sl_observed_reset_at_is_stable current end |>
    <| sl_banked_reset_generation_ambiguous := true |>
    <| sl_banked_reset_recovery_probe_pending := true |>
    <| sl_generation := pl_generation lease |>
    <| sl_probe_lease := Some lease |>) updatedAtMs).

(** ** Fences *)

Definition isCodexQuotaBlockFenceCurrent (v : jsval) (account : CodexRoutingAccount) (quotaResetAtMs routingGeneration : Z) : bool :=
  if negb (isSafeInteger quotaResetAtMs && (0 <=? quotaResetAtMs)) || negb (isSafeInteger routingGeneration)
     || (routingGeneration <? 0) then false else
  let state := parseCodexAccountRoutingState v in
  match state ≫= (fun s => rs_slots s !! ac_slot account) with
  | None => false
  | Some current =>
      match quotaBlockForClass current (quotaClass (ac_requestedModel account)) with
      | None => false
      | Some block =>
          negb (hasUnresolvedLegacyResetIdentity state)
          && bool_decide (sl_credential_version current = ac_credentialVersion account)
          && bool_decide (sl_account_id_hash current = Some (ac_accountIdHash account))
          && (sl_generation current =? routingGeneration)
          && bool_decide (bk_observed_reset_at_ms block = Some quotaResetAtMs)
          && bk_observed_reset_at_is_stable block
          && negb (bk_banked_reset_generation_ambiguous block)
          && (bk_blocked_until_ms block =? quotaResetAtMs)
      end
  end.

Definition staleVerifiedResetProbeEligible (state : CodexAccountRoutingState) (current : CodexRoutingSlot)
    (account : CodexRoutingAccount) (quotaResetAtMs routingGeneration nowMs : Z) : bool :=
  negb (rs_banked_reset_legacy_identity_unresolved state)
  && slotMatchesCodexRoutingAccount current account
  && bool_decide (sl_account_id_hash current = Some (ac_accountIdHash account))
  && bool_decide (sl_credential_version current = ac_credentialVersion account)
  && (sl_generation current =? routingGeneration)
  && negb (bool_decide (sl_invalid_credential_version current = Some (ac_credentialVersion account)))
  && (let requested := quotaClass (ac_requestedModel account) in
      let legacyDeadline := if bool_decide (requested = UnknownClass) then default 0 (sl_quota_blocked_until_ms current) else 0 in
      match quotaBlockForClass current requested with
      | Some block => (quotaResetAtMs <=? Z.max (bk_blocked_until_ms block) legacyDeadline)
                      && bool_decide (bk_observed_reset_at_ms block = Some quotaResetAtMs)
                      && bk_observed_reset_at_is_stable block
      | None => false
      end)
  && (lease_expiry current <=? nowMs).

Definition isCodexActiveAccountSnapshotCurrent (v : jsval) (observed : option CodexActiveAccountSelection) : bool :=
  match parseCodexActiveAccountSelection v, observed with
  | None, None => true
  | Some c, Some o =>
      bool_decide (as_account_id_hash c = as_account_id_hash o)
      && bool_decide (as_credential_version c = as_credential_version o)
      && bool_decide (as_pool_versionstamp c = as_pool_versionstamp o)
      && (as_slot c =? as_slot o) && (as_routing_generation c =? as_routing_generation o)
      && (as_generation c =? as_generation o)
      && bool_decide (as_transition_reason c = as_transition_reason o) && (as_updated_at_ms c =? as_updated_at_ms o)
  | _, _ => false
  end.

Definition staleResetRoutingIdentityCurrent (v : jsval) (account : CodexRoutingAccount) (quotaResetAtMs : Z) : bool :=
  match parseCodexAccountRoutingState v ≫= (fun s => rs_slots s !! ac_slot account) with
  | None => false
  | Some current =>
      match quotaBlockForClass current (quotaClass (ac_requestedModel account)) with
      | None => false
      | Some block =>
          bool_decide (sl_account_id_hash current = Some (ac_accountIdHash account))
          && bool_decide (sl_credential_version current = ac_credentialVersion account)
          && bool_decide (Some (sl_generation current) = ac_routingGeneration account)
          && negb (bool_decide (sl_invalid_credential_version current = Some (ac_credentialVersion account)))
          && bool_decide (bk_observed_reset_at_ms block = Some quotaResetAtMs)
          && bk_observed_reset_at_is_stable block
      end
  end.

Definition nextResetElectionGeneration (active : option CodexActiveAccountSelection) (candidate : CodexRoutingAccount) : Z :=
  match active with
  | None => 1
  | Some a => if bool_decide (as_account_id_hash a = ac_accountIdHash candidate) && (as_slot a =? Z.of_nat (ac_slot candidate))
              then as_generation a else as_generation a + 1
  end.

Definition resetCandidateSlotMatches (current : CodexRoutingSlot) (account : CodexRoutingAccount) (identityCurrent : bool) : bool :=
  bool_decide (sl_account_id_hash current = Some (ac_accountIdHash account))
  && bool_decide (sl_credential_version current = ac_credentialVersion account)
  && bool_decide (Some (sl_generation current) = ac_routingGeneration account) && identityCurrent.

Definition recheckSlotTransition (current : CodexRoutingSlot) (recheckAtMs : Z) : CodexRoutingSlot :=
  let rechecked := recheckQuotaClasses current recheckAtMs in
  rechecked
    <| sl_quota_signal_observed_at_ms := Some recheckAtMs |>
    <| sl_banked_reset_generation_ambiguous := sl_banked_reset_generation_ambiguous rechecked
         || match sl_quota_blocked_until_ms rechecked with Some _ => true | None => false end
         || sl_banked_reset_generation_ambiguous current
         || match sl_observed_reset_at_ms current with Some _ => sl_observed_reset_at_is_stable current | None => false end |>
    <| sl_generation := sl_generation current + 1 |>
    <| sl_probe_lease := None |>.

(** [slots.at(index)] counts from the end when the index is negative. *)
Definition at_index {A} (l : list A) (index : Z) : option A :=
  if index <? 0 then (if Z.of_nat (length l) + index <? 0 then None else l !! Z.to_nat (Z.of_nat (length l) + index))
  else l !! Z.to_nat index.

Definition locateRoutingSlot (state : CodexAccountRoutingState) (slotNumber : Z) : option (Z * CodexRoutingSlot) :=
  if Z.of_nat (length (rs_slots state)) <? slotNumber then None else
  slot ← at_index (rs_slots state) (slotNumber - 1); Some (slotNumber - 1, slot).

Definition admissionRefreshRoutingGeneration (normalized : option CodexAccountRoutingState) (account : CodexRoutingAccount) : option Z :=
  match normalized with
  | None => Some 0
  | Some state =>
      slot ← rs_slots state !! ac_slot account;
      if negb (bool_decide (sl_account_id_hash slot = Some (ac_accountIdHash account)))
         || negb (bool_decide (sl_credential_version slot = ac_credentialVersion account))
         || bool_decide (sl_invalid_credential_version slot = Some (ac_credentialVersion account))
      then None else Some (sl_generation slot)
  end.

(** [None] is [{ kind: "current" }]. *)
Definition prepareCodexAdmissionRefresh (active : CodexActiveAccountSelection) (account : CodexRoutingAccount)
    (poolVersionstamp : string) (routingGeneration : Z) : option CodexActiveAccountSelection :=
  if bool_decide (as_credential_version active = ac_credentialVersion account)
     && bool_decide (as_pool_versionstamp active = poolVersionstamp) && (as_routing_generation active =? routingGeneration)
  then None
  else Some (active <| as_credential_version := ac_credentialVersion account |>
                    <| as_pool_versionstamp := poolVersionstamp |> <| as_routing_generation := routingGeneration |>).

(** ** A 429 *)

Record RetryAfterDeadline := mkRetryAfter { ra_deadlineMs : Z; ra_isStable : bool }.

(** What the classification says, with the two percentage headers. *)
Record Codex429Classification := mk429 {
  c4_usageLimitReached : bool;
  c4_retryAtMs : option Z;
  c4_quotaBlockSource : option CodexQuotaBlockSource;
  c4_resetDeadlineIsStable : bool;
  c4_resetDeadlineConflict : bool;
  c4_primaryUsedPercent : option string;
  c4_secondaryUsedPercent : option string }.

Definition resolveQuotaBlockSource (bodyResetAtMs : option Z) (retryAfter : option RetryAfterDeadline) : option CodexQuotaBlockSource :=
  match bodyResetAtMs, retryAfter with
  | Some _, _ => Some BodyResetsAt
  | None, Some _ => Some HeaderRetryAfter
  | None, None => None
  end.

Definition resolveResetDeadlineMs (bodyResetAtMs : option Z) (retryAfter : option RetryAfterDeadline) (conflict : bool) : option Z :=
  match bodyResetAtMs, retryAfter with
  | None, _ => ra_deadlineMs <$> retryAfter
  | Some body, Some r => Some (if conflict then Z.max body (ra_deadlineMs r) else body)
  | Some body, None => Some body
  end.

Definition deadlines_conflict (bodyResetAtMs : option Z) (retryAfter : option RetryAfterDeadline) : bool :=
  match bodyResetAtMs, retryAfter with
  | Some body, Some r => if ra_isStable r then negb (ra_deadlineMs r =? body) else body <? ra_deadlineMs r
  | _, _ => false
  end.

Definition resolveCodex429RetryDeadlines (bodyResetAtMs : option Z) (retryAfter : option RetryAfterDeadline)
    : option Z * option CodexQuotaBlockSource * bool * bool :=
  let conflict := deadlines_conflict bodyResetAtMs retryAfter in
  (resolveResetDeadlineMs bodyResetAtMs retryAfter conflict, resolveQuotaBlockSource bodyResetAtMs retryAfter,
   match bodyResetAtMs with Some _ => negb conflict | None => match retryAfter with Some r => ra_isStable r | None => false end end,
   conflict).

Definition nonBlockingQuotaProbeSlot (state : CodexAccountRoutingState) (account : CodexRoutingAccount) : option CodexRoutingSlot :=
  match ac_probeGeneration account, ac_probeToken account with
  | Some _, Some token =>
      if empty token then None else
      let current := slotFor state account in
      if negb (slotMatchesCodexRoutingAccount current account) || negb (probeLeaseMatchesCodexRoutingAccount current account)
      then None else
      let released := released_circuit current account in
      Some (released
        <| sl_account_id_hash := Some (ac_accountIdHash account) |>
        <| sl_upstream_timeout_blocked_until_ms := timeout_after current account |>
        <| sl_banked_reset_recovery_probe_pending := match routingProbeCircuit account with
             | QuotaCircuit => sl_banked_reset_recovery_probe_pending released
             | UpstreamTimeoutCircuit => sl_banked_reset_recovery_probe_pending current
             end |>
        <| sl_probe_lease := None |>)
  | _, _ => None
  end.

Definition isForeignQuotaProbeLease (current : CodexRoutingSlot) (account : CodexRoutingAccount) (blocked : CodexQuotaClass) : bool :=
  match ac_probeGeneration account, sl_probe_lease current with
  | None, Some lease =>
      match pl_circuit lease, pl_quota_class lease with
      | QuotaCircuit, Some c => negb (bool_decide (c = blocked))
      | _, _ => false
      end
  | _, _ => false
  end.

Record ResetIdentity := mkResetIdentity { ri_observedResetAtMs : option Z; ri_isStable : bool; ri_ambiguous : bool }.

Definition resolveQuotaClassResetIdentity (current : CodexRoutingSlot) (prior : option CodexQuotaClassBlock)
    (parsed : Codex429Classification) (retryAtMs priorDeadline : Z) (hasClassBlocks boundedRecoveryProbe : bool) (now : Z)
    : ResetIdentity :=
  let priorObserved := or_else (prior ≫= bk_observed_reset_at_ms) (if hasClassBlocks then None else sl_observed_reset_at_ms current) in
  let priorStable := match prior with
    | Some b => bk_observed_reset_at_is_stable b
    | None => negb hasClassBlocks && sl_observed_reset_at_is_stable current
    end in
  let hasStable := match priorObserved with Some _ => priorStable | None => false end in
  let ruledOut := match priorObserved with Some t => t <=? now | None => true end in
  let supersedes := negb hasClassBlocks && ruledOut && c4_resetDeadlineIsStable parsed && (now <? retryAtMs) in
  let ambiguous := boundedRecoveryProbe
    || match prior with Some b => bk_banked_reset_generation_ambiguous b | None => false end
    || (negb hasClassBlocks && sl_banked_reset_generation_ambiguous current && negb supersedes)
    || c4_resetDeadlineConflict parsed
    || (hasStable && (negb (c4_resetDeadlineIsStable parsed) || negb (bool_decide (Some retryAtMs = priorObserved)))) in
  let preserve := hasStable && ambiguous in
  let replaces := negb preserve && (priorDeadline <=? retryAtMs) in
  mkResetIdentity (if replaces then Some retryAtMs else priorObserved)
    (if replaces then c4_resetDeadlineIsStable parsed else priorStable) ambiguous.

(** The probe after a verified reset, or one of its bounded retries. *)
Definition boundedRecoveryProbe (current : CodexRoutingSlot) (account : CodexRoutingAccount) (recoveryProbe : bool) : bool :=
  recoveryProbe || (sl_banked_reset_recovery_probe_pending current
    && match ac_probeGeneration account with Some _ => true | None => false end).

Definition buildQuotaBlockedSlot (current : CodexRoutingSlot) (account : CodexRoutingAccount) (parsed : Codex429Classification)
    (source : CodexQuotaBlockSource) (retryAtMs now : Z) (recoveryProbe foreign : bool) : CodexRoutingSlot :=
  let blocked := quotaClass (ac_requestedModel account) in
  let before := quotaBlocksIncludingLegacy current in
  let prior := quotaBlockForClass (current <| sl_quota_blocks_by_class := before |>) blocked in
  let priorDeadline := match prior with Some b => bk_blocked_until_ms b | None => 0 end in
  let hasClassBlocks := match before with [] => false | _ => true end in
  let priorTimeout := default 0 (sl_upstream_timeout_blocked_until_ms current) in
  let bounded := boundedRecoveryProbe current account recoveryProbe in
  let deadline := if bounded then now + CODEX_HALF_OPEN_LEASE_MS else Z.max priorDeadline retryAtMs in
  let identity := resolveQuotaClassResetIdentity current prior parsed retryAtMs priorDeadline hasClassBlocks bounded now in
  let block := mkBlock deadline source false (Some now) (ri_observedResetAtMs identity) (ri_isStable identity) (ri_ambiguous identity)
    (match prior with Some b => bk_banked_reset_recovery_probe_pending b | None => false end || recoveryProbe) in
  let by_class := class_set blocked block before in
  let blocks := snd <$> by_class in
  let latest := default block (latest_from (Some block) blocks) in
  current
    <| sl_account_id_hash := Some (ac_accountIdHash account) |>
    <| sl_quota_blocked_until_ms := Some (bk_blocked_until_ms latest) |>
    <| sl_quota_block_source := Some (bk_source latest) |>
    <| sl_quota_blocked_classes := class_keys by_class |>
    <| sl_quota_blocks_by_class := by_class |>
    <| sl_upstream_timeout_blocked_until_ms := if now <? priorTimeout then Some priorTimeout else None |>
    <| sl_quota_signal_observed_at_ms := Some now |>
    <| sl_primary_used_percent := match parseFinitePercent (c4_primaryUsedPercent parsed) with
         Some q => Some q | None => sl_primary_used_percent current end |>
    <| sl_secondary_used_percent := match parseFinitePercent (c4_secondaryUsedPercent parsed) with
         Some q => Some q | None => sl_secondary_used_percent current end |>
    <| sl_observed_reset_at_ms := bk_observed_reset_at_ms latest |>
    <| sl_observed_reset_at_is_stable := bk_observed_reset_at_is_stable latest |>
    <| sl_banked_reset_generation_ambiguous := existsb bk_banked_reset_generation_ambiguous blocks |>
    <| sl_banked_reset_recovery_probe_pending := existsb bk_banked_reset_recovery_probe_pending blocks |>
    <| sl_generation := if foreign then sl_generation current else sl_generation current + 1 |>
    <| sl_probe_lease := if foreign then sl_probe_lease current else None |>.

Definition quotaBlockedSlot (state : CodexAccountRoutingState) (account : CodexRoutingAccount) (parsed : Codex429Classification)
    (now : Z) (recoveryProbe : bool) : option CodexRoutingSlot :=
  retryAtMs ← c4_retryAtMs parsed;
  source ← c4_quotaBlockSource parsed;
  let current := slotFor state account in
  if negb (slotMatchesCodexRoutingAccount current account) then None else
  let foreign := isForeignQuotaProbeLease current account (quotaClass (ac_requestedModel account)) in
  if match ac_probeGeneration account with
     | None => has_lease current && negb foreign
     | Some _ => negb (probeLeaseMatchesCodexRoutingAccount current account)
     end then None else
  Some (buildQuotaBlockedSlot current account parsed source retryAtMs now recoveryProbe foreign).

Definition quotaBlockTransition (state : CodexAccountRoutingState) (account : CodexRoutingAccount) (parsed : Codex429Classification)
    (now : Z) (recoveryProbe : bool) (updatedAtMs : Z) : option CodexAccountRoutingState :=
  slot ← quotaBlockedSlot state account parsed now recoveryProbe; Some (withSlot state (ac_slot account) slot updatedAtMs).

Definition releaseNonBlockingQuotaProbe (state : CodexAccountRoutingState) (account : CodexRoutingAccount) (updatedAtMs : Z)
    : option CodexAccountRoutingState :=
  slot ← nonBlockingQuotaProbeSlot state account; Some (withSlot state (ac_slot account) slot updatedAtMs).
