(* ===== verification/CodexSlots.v ===== *)
(** * Codex slots: lemmas

    Class maps, latest blocks, writes of one slot, and what a slot's summary
    fields say of its class blocks. *)

From Stdlib Require Import ZArith QArith Lia Ascii.
From stdpp Require Import base strings option list.
From S2P Require Import Prelude Js CodexContracts CodexCapacity CodexMutations.
Open Scope Z_scope.

(** ** Class maps *)

Lemma class_get_set_eq k b bs : class_get k (class_set k b bs) = Some b.
Proof.
  induction bs as [|[k' b'] bs IH]; cbn; [by rewrite bool_decide_true|].
  case_bool_decide as E; cbn; [by rewrite bool_decide_true|by rewrite bool_decide_false].
Qed.

Lemma class_get_set_ne k k' b bs : k <> k' -> class_get k (class_set k' b bs) = class_get k bs.
Proof.
  intros Hne. induction bs as [|[k0 b0] bs IH]; cbn; [by rewrite bool_decide_false|].
  destruct (decide (k' = k0)) as [->|E]; [rewrite bool_decide_true by done|rewrite (bool_decide_false (k' = k0)) by done];
    cbn; [by rewrite !bool_decide_false by done|by rewrite IH].
Qed.

Lemma class_get_app k bs bs' : class_get k (bs ++ bs') = match class_get k bs with Some b => Some b | None => class_get k bs' end.
Proof. induction bs as [|[k0 b0] bs IH]; cbn; [done|]. by case_bool_decide. Qed.

Lemma class_get_elem k b bs : class_get k bs = Some b -> (k, b) ∈ bs.
Proof.
  induction bs as [|[k' b'] bs IH]; cbn; [done|]. case_bool_decide as E; [intros [= <-]; subst; by left|].
  intros H. right. auto.
Qed.

Lemma class_get_nodup k b bs : NoDup bs.*1 -> (k, b) ∈ bs -> class_get k bs = Some b.
Proof.
  induction bs as [|[k' b'] bs IH]; cbn; [by intros _ ?%elem_of_nil|]. intros [Hn Hnd]%NoDup_cons [E|Hin]%elem_of_cons.
  - injection E as -> ->. by rewrite bool_decide_true.
  - rewrite bool_decide_false; [auto|]. intros ->. apply Hn. apply list_elem_of_fmap. by exists (k', b).
Qed.

Lemma class_set_keys k b bs : (class_set k b bs).*1 = bs.*1 \/ (class_set k b bs).*1 = (bs.*1 ++ [k])%list.
Proof.
  induction bs as [|[k' b'] bs IH]; cbn; [by right|]. case_bool_decide; cbn; [by left|].
  destruct IH as [->| ->]; [by left|by right].
Qed.

Lemma class_get_none k bs : class_get k bs = None <-> k ∉ bs.*1.
Proof.
  induction bs as [|[k' b'] bs IH]; cbn; [split; [by intros _ ?%elem_of_nil|done]|].
  rewrite not_elem_of_cons. case_bool_decide as E; [naive_solver|]. rewrite IH. naive_solver.
Qed.

Lemma class_set_nodup k b bs : NoDup bs.*1 -> NoDup (class_set k b bs).*1.
Proof.
  induction bs as [|[k' b'] bs IH]; cbn; intros Hnd; [apply NoDup_singleton|].
  apply NoDup_cons in Hnd as [Hn Hnd]. case_bool_decide as E; cbn; apply NoDup_cons; split; auto.
  destruct (class_set_keys k b bs) as [->| ->]; [done|]. rewrite elem_of_app, list_elem_of_singleton. naive_solver.
Qed.

Lemma class_default_get block bs k0 k :
  class_get k (class_default block bs k0)
  = match class_get k bs with Some b => Some b | None => if bool_decide (k = k0) then Some block else None end.
Proof.
  unfold class_default. destruct (class_get k0 bs) eqn:E.
  - destruct (class_get k bs) eqn:E'; [done|]. case_bool_decide; [congruence|done].
  - rewrite class_get_app. destruct (class_get k bs); [done|]. cbn. by case_bool_decide.
Qed.

Lemma class_default_nodup block bs k : NoDup bs.*1 -> NoDup (class_default block bs k).*1.
Proof.
  intros Hnd. unfold class_default. destruct (class_get k bs) eqn:E; [done|]. rewrite fmap_app. apply NoDup_app.
  split_and!; [done| |apply NoDup_singleton]. intros x Hx ->%list_elem_of_singleton. by apply class_get_none in E.
Qed.

Lemma class_defaults_get block ks bs k :
  class_get k (foldl (class_default block) bs ks)
  = match class_get k bs with Some b => Some b | None => if bool_decide (k ∈ ks) then Some block else None end.
Proof.
  revert bs. induction ks as [|k0 ks IH]; intros bs; cbn.
  { destruct (class_get k bs); [done|]. rewrite bool_decide_false; [done|]. by intros ?%elem_of_nil. }
  rewrite IH, class_default_get. destruct (class_get k bs); [done|].
  destruct (decide (k = k0)) as [->|Hne]; [rewrite !bool_decide_true; [done|by left|done]|].
  rewrite (bool_decide_false (k = k0)) by done.
  destruct (decide (k ∈ ks)); [rewrite !bool_decide_true; [done|by right|done]|].
  rewrite !bool_decide_false; [done| |done]. rewrite elem_of_cons. naive_solver.
Qed.

Lemma class_defaults_nodup block ks bs : NoDup bs.*1 -> NoDup (foldl (class_default block) bs ks).*1.
Proof. revert bs. induction ks as [|k ks IH]; intros bs Hnd; cbn; [done|]. by apply IH, class_default_nodup. Qed.

(** ** Latest blocks *)

Lemma latest_from_spec seed bs b :
  latest_from seed bs = Some b ->
  (seed = Some b \/ b ∈ bs)
  /\ (forall s, seed = Some s -> bk_blocked_until_ms s <= bk_blocked_until_ms b)
  /\ forall b', b' ∈ bs -> bk_blocked_until_ms b' <= bk_blocked_until_ms b.
Proof.
  unfold latest_from. revert seed. induction bs as [|b0 bs IH]; intros seed; cbn.
  { intros ->. split_and!; [by left|by intros ? [= ->]|by intros ? ?%elem_of_nil]. }
  intros (H1 & H2 & H3)%IH. unfold later in *.
  destruct seed as [s|]; [|split_and!; [destruct H1 as [[= ->]|?]; right; [by left|by right]|done|]].
  - destruct (Z.ltb_spec (bk_blocked_until_ms s) (bk_blocked_until_ms b0)) as [Hlt|Hge].
    + pose proof (H2 b0 eq_refl). split_and!; [destruct H1 as [[= ->]|?]; right; [by left|by right]|intros ? [= <-]; lia|].
      intros b' [->|?]%elem_of_cons; [lia|auto].
    + pose proof (H2 s eq_refl). split_and!; [destruct H1; [by left|right; by right]|intros ? [= <-]; lia|].
      intros b' [->|?]%elem_of_cons; [lia|auto].
  - intros b' [->|?]%elem_of_cons; [auto|auto].
Qed.

Lemma latest_from_some s bs : is_Some (latest_from (Some s) bs).
Proof.
  unfold latest_from. revert s. induction bs as [|b bs IH]; intros s; cbn; [eauto|]. destruct (_ <? _); apply IH.
Qed.

Lemma latest_from_none bs : latest_from None bs = None -> bs = [].
Proof.
  destruct bs as [|b bs]; [done|]. cbn. intros H. destruct (latest_from_some b bs) as [x E]. unfold latest_from in E. congruence.
Qed.

(** ** One slot of a state *)

Lemma slotFor_withSlot state account slot t :
  slotFor (withSlot state (ac_slot account) slot t) account = slot.
Proof.
  unfold slotFor, withSlot. cbn. rewrite list_lookup_insert_eq; [done|]. rewrite length_app, length_replicate. lia.
Qed.

Lemma withSlot_other state i j slot t :
  i <> j -> (j < length (rs_slots state))%nat -> rs_slots (withSlot state i slot t) !! j = rs_slots state !! j.
Proof. intros Hne Hj. unfold withSlot. cbn. rewrite list_lookup_insert_ne by done. by rewrite lookup_app_l. Qed.

(** ** Fences *)

(** The fence of a class in a class map: its own block or the unknown one,
    whichever lasts longer. *)
Definition fence (bs : ClassBlocks) (c : CodexQuotaClass) : option CodexQuotaClassBlock :=
  latest_from None (omap id [class_get c bs; if bool_decide (c = UnknownClass) then None else class_get UnknownClass bs]).

(** The deadline that fences a class; none is zero. *)
Definition deadline_of (b : option CodexQuotaClassBlock) : Z := match b with Some b => bk_blocked_until_ms b | None => 0 end.
Definition class_deadline (slot : CodexRoutingSlot) (c : CodexQuotaClass) : Z := deadline_of (quotaBlockForClass slot c).

Lemma class_block_fence slot c :
  sl_quota_blocks_by_class slot <> [] \/ sl_quota_blocked_until_ms slot = None \/ sl_quota_block_source slot = None ->
  quotaBlockForClass slot c = fence (sl_quota_blocks_by_class slot) c.
Proof.
  intros Hs. unfold quotaBlockForClass, fence.
  destruct (sl_quota_blocks_by_class slot) eqn:E; [|by rewrite <- E].
  destruct Hs as [?|[-> | ->]]; [done|done|by destruct (sl_quota_blocked_until_ms slot)].
Qed.

(** A slot-wide fence always reaches the class map. *)
Lemma legacy_blocks_empty slot :
  quotaBlocksIncludingLegacy slot = [] ->
  sl_quota_blocks_by_class slot = [] /\ (sl_quota_blocked_until_ms slot = None \/ sl_quota_block_source slot = None).
Proof.
  unfold quotaBlocksIncludingLegacy.
  destruct (sl_quota_blocked_until_ms slot) as [t|]; [|by auto]. destruct (sl_quota_block_source slot) as [src|]; [|by auto].
  set (ks := match omap _ _ with [] => quotaClassKeys | _ => _ end).
  assert (exists k, k ∈ ks) as [k Hk].
  { unfold ks. destruct (omap _ _) as [|k l]; [exists Spark|exists k]; by left. }
  intros E. exfalso. pose proof (class_defaults_get (legacy_block slot t src) ks (sl_quota_blocks_by_class slot) k) as H.
  rewrite E, bool_decide_true in H by done. cbn in H. by destruct (class_get k _).
Qed.

Lemma with_blocks_fence slot c :
  quotaBlockForClass (slot <| sl_quota_blocks_by_class := quotaBlocksIncludingLegacy slot |>) c
  = fence (quotaBlocksIncludingLegacy slot) c.
Proof.
  apply class_block_fence. cbn. destruct (quotaBlocksIncludingLegacy slot) eqn:E; [right|by left].
  by apply legacy_blocks_empty in E as [_ ?].
Qed.

Lemma aware_fence slot c :
  quotaBlockForClass (withLegacyQuotaClassMap slot) c = fence (quotaBlocksIncludingLegacy slot) c.
Proof.
  unfold withLegacyQuotaClassMap. destruct (quotaBlocksIncludingLegacy slot) eqn:E.
  - apply legacy_blocks_empty in E as [E1 E2]. rewrite class_block_fence by auto. by rewrite E1.
  - by rewrite class_block_fence by (by left).
Qed.

Lemma fence_set_other c c' b bs : c' <> c -> c <> UnknownClass -> fence (class_set c b bs) c' = fence bs c'.
Proof.
  intros H1 H2. unfold fence. rewrite class_get_set_ne by done.
  case_bool_decide; [done|]. by rewrite class_get_set_ne by done.
Qed.

(** The longer of two deadlines fences. *)
Lemma fence_deadline bs c :
  deadline_of (fence bs c)
  = match class_get c bs, (if bool_decide (c = UnknownClass) then None else class_get UnknownClass bs) with
    | Some a, Some u => Z.max (bk_blocked_until_ms a) (bk_blocked_until_ms u)
    | Some a, None => bk_blocked_until_ms a
    | None, Some u => bk_blocked_until_ms u
    | None, None => 0
    end.
Proof.
  unfold fence. destruct (class_get c bs), (if bool_decide (c = UnknownClass) then None else class_get UnknownClass bs); cbn;
    try done. destruct (Z.ltb_spec (bk_blocked_until_ms c0) (bk_blocked_until_ms c1)); cbn; lia.
Qed.

(** A longer block for one class shortens no fence. *)
Lemma fence_set_mono c b bs c' :
  deadline_of (fence bs c) <= bk_blocked_until_ms b -> deadline_of (fence bs c') <= deadline_of (fence (class_set c b bs) c').
Proof.
  rewrite !fence_deadline. intros H. destruct (decide (c' = c)) as [->|Hne].
  - rewrite class_get_set_eq. destruct (decide (c = UnknownClass)) as [->|Hu].
    + rewrite !(bool_decide_true (UnknownClass = UnknownClass)) in * by done. destruct (class_get UnknownClass bs); lia.
    + rewrite !(bool_decide_false (c = UnknownClass)) in * by done. rewrite class_get_set_ne by done.
      destruct (class_get c bs), (class_get UnknownClass bs); lia.
  - rewrite class_get_set_ne by done. destruct (decide (c' = UnknownClass)) as [->|Hu'].
    + rewrite !(bool_decide_true (UnknownClass = UnknownClass)) by done. destruct (class_get UnknownClass bs); lia.
    + rewrite !(bool_decide_false (c' = UnknownClass)) by done. destruct (decide (c = UnknownClass)) as [->|Hu].
      * rewrite class_get_set_eq. rewrite (bool_decide_true (UnknownClass = UnknownClass)) in H by done.
        destruct (class_get c' bs), (class_get UnknownClass bs); lia.
      * rewrite class_get_set_ne by done. destruct (class_get c' bs), (class_get UnknownClass bs); lia.
Qed.

Lemma fence_set_reaches c b bs : bk_blocked_until_ms b <= deadline_of (fence (class_set c b bs) c).
Proof.
  rewrite fence_deadline, class_get_set_eq. destruct (if bool_decide (c = UnknownClass) then None else _); lia.
Qed.

Lemma class_set_nonempty c b bs : class_set c b bs <> [].
Proof. destruct bs as [|[k b'] bs]; cbn; [done|]. by case_bool_decide. Qed.
