(* ===== verification/CodexNormalization.v ===== *)
(** * Normalization of the Codex routing state

    A stored state read against the current pool: circuits follow their account
    through a reorder, a new account starts neutral, and a second normalization
    changes nothing. *)

From Stdlib Require Import ZArith QArith Lia Ascii.
From stdpp Require Import base strings option list.
From S2P Require Import Prelude Js CodexContracts CodexCapacity CodexRouting.
Open Scope Z_scope.

(** ** One slot *)

Lemma without_timeout slot : has_timeout_circuit (withoutLegacyTimeoutCircuit slot) = false.
Proof.
  unfold withoutLegacyTimeoutCircuit. destruct (has_timeout_circuit slot) eqn:E; cbn [negb]; [|done].
  unfold has_timeout_circuit, timeout_lease. cbn.
  destruct (sl_probe_lease slot) as [l|] eqn:El; cbn; [|done].
  case_bool_decide as Hc; [done|]. by apply bool_decide_eq_false.
Qed.

Lemma without_timeout_id slot : has_timeout_circuit slot = false -> withoutLegacyTimeoutCircuit slot = slot.
Proof. unfold withoutLegacyTimeoutCircuit. by intros ->. Qed.

Lemma without_timeout_identity slot :
  sl_account_id_hash (withoutLegacyTimeoutCircuit slot) = sl_account_id_hash slot
  /\ sl_credential_version (withoutLegacyTimeoutCircuit slot) = sl_credential_version slot.
Proof. unfold withoutLegacyTimeoutCircuit. by destruct (has_timeout_circuit slot). Qed.

(** A normalized slot belongs to its identity. *)
Record belongs (identity : CodexRoutingIdentity) (slot : CodexRoutingSlot) : Prop := {
  bl_hash : sl_account_id_hash slot = Some (id_accountIdHash identity);
  bl_version : sl_credential_version slot = id_credentialVersion identity;
  bl_timeout : has_timeout_circuit slot = false }.

Lemma normalized_slot_belongs identity discard prior :
  belongs identity (fst (normalized_slot identity discard prior)).
Proof.
  unfold normalized_slot. set (p := if discard then _ else _). case_bool_decide as Hv; [case_bool_decide as Hh|]; cbn [fst];
    constructor; try apply without_timeout; by rewrite ?(proj1 (without_timeout_identity _)), ?(proj2 (without_timeout_identity _)).
Qed.

Lemma normalized_slot_stable identity slot :
  belongs identity slot -> normalized_slot identity true slot = (slot, true).
Proof.
  intros [Hh Hv Ht]. unfold normalized_slot. rewrite (without_timeout_id slot Ht), !bool_decide_true by done.
  rewrite (without_timeout_id slot Ht), Ht. done.
Qed.

Lemma normalized_slot_same identity slot :
  sl_account_id_hash slot = Some (id_accountIdHash identity) -> sl_credential_version slot = id_credentialVersion identity ->
  fst (normalized_slot identity true slot) = withoutLegacyTimeoutCircuit slot.
Proof.
  intros Hh Hv. unfold normalized_slot.
  rewrite (proj1 (without_timeout_identity slot)), (proj2 (without_timeout_identity slot)), !bool_decide_true by done. cbn.
  apply without_timeout_id, without_timeout.
Qed.

Lemma neutral_belongs identity : belongs identity (neutralSlot (id_credentialVersion identity) (Some (id_accountIdHash identity))).
Proof. done. Qed.

(** ** The pool *)

Lemma some_union {A} (x : A) (o : option A) : Some x ∪ o = Some x.
Proof. by destruct o. Qed.

Lemma none_union {A} (o : option A) : None ∪ o = o.
Proof. by destruct o. Qed.

Lemma normalize_slots_belong prior discard ids index used :
  Forall2 belongs ids (fst <$> fst (normalize_slots prior discard index used ids)).
Proof.
  revert index used. induction ids as [|identity ids IH]; intros index used; cbn; [constructor|].
  destruct (find_prior identity index used prior) as [[i slot]|].
  - pose proof (normalized_slot_belongs identity discard slot) as H.
    destruct (normalized_slot identity discard slot) as [slot' same]. specialize (IH (S index) (i :: used)).
    destruct (normalize_slots _ _ _ _ ids). by constructor.
  - specialize (IH (S index) used). destruct (normalize_slots _ _ _ _ ids). by constructor.
Qed.

(** Slots that belong to the pool are found in place. *)
Lemma normalize_slots_stable prior ids index used :
  Forall2 belongs ids (drop index prior) -> (forall j, j ∈ used -> (j < index)%nat) ->
  fst (normalize_slots prior true index used ids)
  = zip (drop index prior) (Some <$> seq index (length ids)).
Proof.
  revert index used. induction ids as [|identity ids IH]; intros index used H Hu; cbn.
  { apply Forall2_nil_inv_l in H. by rewrite H. }
  inversion H as [|? slot ? rest Hb Hrest E1 E2]; subst. symmetry in E2.
  assert (prior !! index = Some slot) as Hi by (rewrite <- (Nat.add_0_r index), <- lookup_drop, E2; done).
  assert (rest = drop (S index) prior) as ->.
  { apply (f_equal tail) in E2. cbn in E2. rewrite <- E2. clear. revert index. induction prior as [|s p IH]; intros [|n]; cbn; done || apply IH. }
  assert (find_prior identity index used prior = Some (index, slot)) as ->.
  { unfold find_prior. rewrite Hi. rewrite bool_decide_false by (intros Hin; apply Hu in Hin; lia). cbn [negb].
    unfold direct_match. rewrite (bl_hash _ _ Hb), bool_decide_true by done. cbn [orb andb]. by rewrite !some_union. }
  rewrite (normalized_slot_stable _ _ Hb). specialize (IH (S index) (index :: used) Hrest).
  destruct (normalize_slots prior true (S index) (index :: used) ids) as [slots used'] eqn:E. cbn in *.
  rewrite IH; [done|]. intros j [->|Hj]%elem_of_cons; [lia|]. apply Hu in Hj. lia.
Qed.

Lemma belongs_no_legacy ids slots used index : Forall2 belongs ids slots -> unused_legacy used index slots = false.
Proof.
  intros H. revert index. induction H as [|identity slot ids slots Hb _ IH]; intros index; cbn; [done|].
  assert (isLegacyStableResetIdentity slot = false) as ->; [|rewrite andb_false_r; apply IH].
  unfold isLegacyStableResetIdentity. by rewrite (bl_hash _ _ Hb).
Qed.

(** ** Circuits follow their account *)

(** Hashed slots, one per account. *)
Definition hashed (prior : list CodexRoutingSlot) : Prop :=
  (forall j slot, prior !! j = Some slot -> is_Some (sl_account_id_hash slot)) /\ NoDup (sl_account_id_hash <$> prior).

Lemma hashed_unique prior j k slot slot' :
  hashed prior -> prior !! j = Some slot -> prior !! k = Some slot' ->
  sl_account_id_hash slot = sl_account_id_hash slot' -> j = k.
Proof.
  intros [_ Hnd] Hj Hk E. eapply (NoDup_lookup _ _ _ (sl_account_id_hash slot) Hnd);
    rewrite list_lookup_fmap; [by rewrite Hj|by rewrite Hk, E].
Qed.

Lemma takePrior_some f used prior n j slot :
  takePrior f used n prior = Some (j, slot) ->
  (n <= j)%nat /\ prior !! (j - n)%nat = Some slot /\ f slot = true /\ j ∉ used.
Proof.
  revert n. induction prior as [|s prior IH]; intros n; cbn; [done|].
  destruct (negb (bool_decide (n ∈ used)) && f s) eqn:E.
  - intros [= <- <-]. apply andb_true_iff in E as [E1%negb_true_iff%bool_decide_eq_false E2].
    rewrite Nat.sub_diag. split_and!; [lia|done|done|done].
  - intros (H1 & H2 & H3 & H4)%IH. split_and!; [lia| |done|done]. by replace (j - n)%nat with (S (j - S n)) by lia.
Qed.

Lemma takePrior_found f used prior n j slot :
  prior !! j = Some slot -> f slot = true -> (n + j)%nat ∉ used -> is_Some (takePrior f used n prior).
Proof.
  revert n j. induction prior as [|s prior IH]; intros n j Hj Hf Hu; cbn; [done|].
  destruct (negb (bool_decide (n ∈ used)) && f s) eqn:E; [eauto|]. destruct j as [|j].
  - injection Hj as ->. rewrite Nat.add_0_r in Hu. by rewrite bool_decide_false, Hf in E.
  - apply (IH (S n) j); [done|done|]. by rewrite Nat.add_succ_l, <- Nat.add_succ_r.
Qed.

(** The slot found for an account is the one with its hash. *)
Lemma find_prior_hash identity index used prior :
  hashed prior ->
  match find_prior identity index used prior with
  | Some (j, slot) => prior !! j = Some slot /\ j ∉ used /\ sl_account_id_hash slot = Some (id_accountIdHash identity)
  | None => forall j slot, prior !! j = Some slot -> sl_account_id_hash slot = Some (id_accountIdHash identity) -> j ∈ used
  end.
Proof.
  intros Hh. unfold find_prior. set (direct := match prior !! index with Some _ => _ | None => _ end).
  assert (match direct with
    | Some (j, slot) => prior !! j = Some slot /\ j ∉ used /\ sl_account_id_hash slot = Some (id_accountIdHash identity)
    | None => True end) as Hd.
  { unfold direct. destruct (prior !! index) as [s|] eqn:Ei; [|done].
    destruct (negb (bool_decide (index ∈ used)) && direct_match identity s) eqn:E; [|done].
    apply andb_true_iff in E as [E1%negb_true_iff%bool_decide_eq_false E2]. split_and!; [done|done|].
    unfold direct_match in E2. apply orb_true_iff in E2 as [E2%bool_decide_eq_true|[E2%bool_decide_eq_true _]%andb_true_iff]; [done|].
    destruct (proj1 Hh index s Ei) as [h Eh]. congruence. }
  destruct direct as [[j slot]|]; [by rewrite !some_union|]. clear Hd. rewrite none_union.
  set (f1 := fun s => bool_decide (sl_account_id_hash s = Some (id_accountIdHash identity))).
  destruct (takePrior f1 used 0 prior) as [[j slot]|] eqn:E1.
  - rewrite some_union. apply takePrior_some in E1 as (_ & H2 & H3%bool_decide_eq_true & H4). rewrite Nat.sub_0_r in H2. done.
  - rewrite none_union. match goal with |- context [takePrior ?f used 0 prior] => destruct (takePrior f used 0 prior) as [[j slot]|] eqn:E2 end.
    + apply takePrior_some in E2 as (_ & H2 & [H3%bool_decide_eq_true _]%andb_true_iff & _). rewrite Nat.sub_0_r in H2.
      destruct (proj1 Hh j slot H2) as [h Eh]. congruence.
    + intros j slot Hj Hs. destruct (decide (j ∈ used)) as [|Hu]; [done|].
      destruct (takePrior_found f1 used prior 0 j slot Hj) as [x Ex]; [by apply bool_decide_eq_true|done|congruence].
Qed.

(** Used slots are those of the identities before. *)
Lemma normalize_slots_follow prior ids index used k identity :
  hashed prior -> NoDup (id_accountIdHash <$> ids) ->
  (forall j slot, j ∈ used -> prior !! j = Some slot ->
     forall i, i ∈ ids -> sl_account_id_hash slot <> Some (id_accountIdHash i)) ->
  ids !! k = Some identity ->
  exists slot, (fst <$> fst (normalize_slots prior true index used ids)) !! k = Some slot
    /\ ((exists j old, prior !! j = Some old /\ sl_account_id_hash old = Some (id_accountIdHash identity)
           /\ slot = fst (normalized_slot identity true old))
        \/ (slot = neutralSlot (id_credentialVersion identity) (Some (id_accountIdHash identity))
            /\ forall j old, prior !! j = Some old -> sl_account_id_hash old <> Some (id_accountIdHash identity))).
Proof.
  intros Hh. revert index used k. induction ids as [|i0 ids IH]; intros index used k Hnd Hu Hk; [done|].
  cbn in Hnd. apply NoDup_cons in Hnd as [Hn Hnd]. cbn [normalize_slots].
  pose proof (find_prior_hash i0 index used prior Hh) as Hf.
  destruct (find_prior i0 index used prior) as [[j old]|].
  - destruct Hf as (Hj & Hju & Hhash). destruct (normalized_slot i0 true old) as [slot' same] eqn:En. destruct k as [|k].
    + injection Hk as ->. exists slot'. destruct (normalize_slots prior true (S index) (j :: used) ids). split; [done|].
      left. exists j, old. by rewrite En.
    + destruct (IH (S index) (j :: used) k Hnd) as (slot & H1 & H2); [|done|].
      * intros j' s [->|Hj']%elem_of_cons Hs i Hi E.
        -- assert (s = old) as -> by congruence. rewrite Hhash in E. injection E as E. apply Hn. rewrite E.
           by apply list_elem_of_fmap_2.
        -- by eapply Hu; [exact Hj'|exact Hs|right; exact Hi|].
      * exists slot. destruct (normalize_slots prior true (S index) (j :: used) ids). done.
  - destruct k as [|k].
    + injection Hk as ->. eexists. destruct (normalize_slots prior true (S index) used ids). split; [done|]. right. split; [done|].
      intros j old Hj E. pose proof (Hf j old Hj E) as Hin. by eapply Hu; [exact Hin|exact Hj|left|].
    + destruct (IH (S index) used k Hnd) as (slot & H1 & H2); [|done|].
      * intros j s Hj Hs i Hi. eapply Hu; [exact Hj|exact Hs|by right].
      * exists slot. destruct (normalize_slots prior true (S index) used ids). done.
Qed.

(** ** The state *)

Lemma normalize_belongs raw ids now discard :
  Forall2 belongs ids (rs_slots (fst (normalizeRoutingState raw ids now discard))).
Proof.
  unfold normalizeRoutingState. pose proof (normalize_slots_belong (match raw with Some r => rs_slots r | None => [] end) discard ids 0 []) as H.
  by destruct (normalize_slots _ _ _ _ _).
Qed.

Lemma fst_zip_seq {A} (l : list A) n : (zip l (Some <$> seq n (length l))).*1 = l.
Proof. rewrite fst_zip; [done|]. by rewrite length_fmap, length_seq. Qed.

Lemma snd_zip_seq {A} (l : list A) n : (zip l (Some <$> seq n (length l))).*2 = Some <$> seq n (length l).
Proof. rewrite snd_zip; [done|]. by rewrite length_fmap, length_seq. Qed.

(** A state that belongs to the pool is its own normalization. *)
Lemma normalize_stable s ids now :
  Forall2 belongs ids (rs_slots s) ->
  normalizeRoutingState (Some s) ids now true = (s <| rs_updated_at_ms := now |>, Some <$> seq 0 (length (rs_slots s))).
Proof.
  intros H. unfold normalizeRoutingState. pose proof (normalize_slots_stable (rs_slots s) ids 0 [] H) as Hs.
  destruct (normalize_slots (rs_slots s) true 0 [] ids) as [slots used]. cbn in Hs.
  rewrite Hs by (intros j Hj; by apply not_elem_of_nil in Hj). rewrite drop_0, (Forall2_length _ _ _ H), fst_zip_seq, snd_zip_seq.
  rewrite (belongs_no_legacy ids) by done. by rewrite orb_false_r.
Qed.

(** What becomes of a stored slot of the account. *)
Definition carried (identity : CodexRoutingIdentity) (old : CodexRoutingSlot) : CodexRoutingSlot :=
  let kept := withoutLegacyTimeoutCircuit old in
  if bool_decide (sl_credential_version old = id_credentialVersion identity) then kept
  else withoutLegacyTimeoutCircuit (rotateCredentialForSameAccount kept (id_accountIdHash identity) (id_credentialVersion identity)).

Lemma normalized_carried identity old :
  sl_account_id_hash old = Some (id_accountIdHash identity) -> fst (normalized_slot identity true old) = carried identity old.
Proof.
  intros Hh. unfold carried. case_bool_decide as Hv; [by apply normalized_slot_same|].
  unfold normalized_slot. rewrite (proj2 (without_timeout_identity old)). by rewrite bool_decide_false.
Qed.

(** Normalization attributes every circuit to its account.  Each slot of
    the result carries its account's hash and credential and no retired timeout
    circuit; normalizing the result again changes nothing and asks for no write;
    and when the stored slots name distinct accounts, every account of the pool
    finds exactly its own stored slot wherever it was (kept as it is under the
    same credential, its quota fences dropped and its generation advanced under a
    new one), and an account that was not stored starts with a neutral slot. *)
Theorem codex_normalization raw ids now later :
  let n := fst (normalizeRoutingState raw ids now true) in
  Forall2 belongs ids (rs_slots n)
  /\ normalizeRoutingState (Some n) ids later true = (n <| rs_updated_at_ms := later |>, Some <$> seq 0 (length ids))
  /\ routingStateChangedByNormalization (Some n) n (snd (normalizeRoutingState (Some n) ids later true)) = false
  /\ forall r, raw = Some r -> hashed (rs_slots r) -> NoDup (id_accountIdHash <$> ids) ->
     forall k identity, ids !! k = Some identity ->
       (exists j old, rs_slots r !! j = Some old /\ sl_account_id_hash old = Some (id_accountIdHash identity)
          /\ rs_slots n !! k = Some (carried identity old))
       \/ ((forall j old, rs_slots r !! j = Some old -> sl_account_id_hash old <> Some (id_accountIdHash identity))
           /\ rs_slots n !! k = Some (neutralSlot (id_credentialVersion identity) (Some (id_accountIdHash identity)))).
Proof.
  intros n. pose proof (normalize_belongs raw ids now true) as Hb. fold n in Hb.
  rewrite (normalize_stable n ids later Hb), <- (Forall2_length _ _ _ Hb). split_and!; [done|done| |].
  - cbn. by rewrite (Forall2_length _ _ _ Hb), eqb_reflx, Nat.eqb_refl, bool_decide_true.
  - intros r -> Hh Hnd k identity Hk.
    destruct (normalize_slots_follow (rs_slots r) ids 0 [] k identity Hh Hnd) as (slot & H1 & H2);
      [intros j s Hj; by apply not_elem_of_nil in Hj|done|].
    assert (rs_slots n !! k = Some slot) as Hn by (unfold n, normalizeRoutingState; by destruct (normalize_slots _ _ _ _ _)).
    destruct H2 as [(j & old & Hj & Ho & ->)|[-> H2]]; [left|by right].
    exists j, old. by rewrite Hn, normalized_carried.
Qed.

(** ** A reorder *)

(** Two accounts change places and a third joins: the fences move along. *)
Lemma codex_normalization_witness :
  let fenced := neutralSlot "va" (Some "a") <| sl_quota_blocked_until_ms := Some 900 |> <| sl_generation := 5 |> in
  let other := neutralSlot "vb" (Some "b") in
  let ids := [mkIdentity 0 "c" "vc"; mkIdentity 1 "b" "vb"; mkIdentity 2 "a" "va"] in
  let n := fst (normalizeRoutingState (Some (mkRouting 1 false [fenced; other])) ids 10 true) in
  rs_slots n !! 2%nat = Some fenced /\ rs_slots n !! 0%nat = Some (neutralSlot "vc" (Some "c"))
  /\ Forall2 belongs ids (rs_slots n).
Proof.
  intros fenced other ids n.
  destruct (codex_normalization (Some (mkRouting 1 false [fenced; other])) ids 10 20) as (Hb & _ & _ & Hf). fold n in Hb, Hf.
  assert (hashed [fenced; other]) as Hh.
  { split; [intros [|[|j]] slot; cbn; intros [= <-]; by eexists|].
    apply NoDup_cons. split; [|apply NoDup_singleton]. intros H%list_elem_of_singleton. discriminate. }
  assert (NoDup (id_accountIdHash <$> ids)) as Hnd by (apply (bool_decide_unpack _); reflexivity).
  specialize (Hf _ eq_refl Hh Hnd). split_and!; [|vm_compute; reflexivity|exact Hb].
  destruct (Hf 2%nat _ eq_refl) as [(j & old & Hj & Ho & ->)|[H _]]; [|by specialize (H 0%nat fenced eq_refl)].
  destruct j as [|[|j]]; cbn in Hj; [by injection Hj as <-|injection Hj as <-; discriminate|discriminate].
Defined.
