(* ===== verification/CodexAdmission.v ===== *)
(** * Serial admission to the Codex pool

    One account of the pool is active at a time.  [selectCodex] reads the four
    rows, evaluates the cohort and decides whether the active account stays,
    moves, or nobody can take the request.  The contract is the function
    [serial_spec] on verdicts: the row's account, generation and reason, and the
    account admitted. *)

From Stdlib Require Import ZArith QArith Lia Ascii.
From stdpp Require Import base strings option list.
From S2P Require Import Prelude Js CodexContracts CodexCapacity CodexRouting CodexNormalization.
Open Scope string_scope.
Open Scope Z_scope.

(** ** The active row *)

Definition reason_name (r : CodexActiveAccountTransitionReason) : string :=
  match r with
  | QuotaExhausted => "quota_exhausted" | CredentialInvalid => "credential_invalid"
  | AccountRemovedOrReplaced => "account_removed_or_replaced" | ModelUnavailable => "model_unavailable"
  | ManualReset => "manual_reset"
  end.

Definition active_json (a : CodexActiveAccountSelection) : jsval :=
  JObj [("v", jint 1); ("account_id_hash", JStr (as_account_id_hash a)); ("credential_version", JStr (as_credential_version a));
        ("pool_versionstamp", JStr (as_pool_versionstamp a)); ("slot", jint (as_slot a));
        ("routing_generation", jint (as_routing_generation a)); ("generation", jint (as_generation a));
        ("transition_reason", match as_transition_reason a with Some r => JStr (reason_name r) | None => JNull end);
        ("updated_at_ms", jint (as_updated_at_ms a))].

Definition opaque (s : string) : Prop := isOpaqueHash (JStr s) = Some s.
Definition fits (min z : Z) : Prop := isSafeInteger z = true /\ min <= z.

Record active_wf (a : CodexActiveAccountSelection) : Prop := {
  aw_hash : opaque (as_account_id_hash a);
  aw_version : opaque (as_credential_version a);
  aw_stamp : isVersionstamp (as_pool_versionstamp a) = true;
  aw_slot : fits 0 (as_slot a);
  aw_routing : fits 0 (as_routing_generation a);
  aw_generation : fits 1 (as_generation a);
  aw_updated : fits 0 (as_updated_at_ms a) }.

Lemma reason_roundtrip r :
  parseActiveTransitionReason (match r with Some r => JStr (reason_name r) | None => JNull end) = Some r.
Proof. by destruct r as [[]|]. Qed.

(** What is written is read back. *)
Lemma active_roundtrip a : active_wf a -> parseCodexActiveAccountSelection (active_json a) = Some a.
Proof.
  intros [Hh Hv Hs [] [] [] []]. unfold parseCodexActiveAccountSelection, active_json.
  cbn [isRecord prop assoc String.eqb Ascii.eqb Bool.eqb default id negb orb]. rewrite is_int_jint, Z.eqb_refl. cbn [negb].
  rewrite reason_roundtrip, Hh, Hv. unfold text, nonNegativeSafeInteger, positiveSafeInteger.
  rewrite !safe_at_least_jint_ok by done. cbn. rewrite Hs. cbn. by destruct a.
Qed.

(** ** The contract *)

(** What an evaluation says of an account: it can take the request, it cannot
    for a reason that moves the active account, or another request's probe holds
    it for now. *)
Inductive Verdict := Routable | Blocked (reason : CodexActiveAccountTransitionReason) | Busy.

Definition verdict (e : CodexRoutingAccountEvaluation) : Verdict :=
  match ev_routedAccount e, ev_activeTransitionReason e with
  | Some _, _ => Routable
  | None, Some reason => Blocked reason
  | None, None => Busy
  end.

Definition routable (v : Verdict) : bool := match v with Routable => true | _ => false end.

(** The active account with its generation and the reason it became active. *)
Notation Activity := (string * Z * option CodexActiveAccountTransitionReason)%type.

(** The pool in order with its verdicts; the row before; the row after and the
    account admitted. *)
Definition serial_spec (order : list (string * Verdict)) (active : option Activity) : option Activity * option string :=
  let move generation reason :=
    match List.find (fun hv => routable (snd hv)) order with
    | Some (h, _) => (Some (h, generation, reason), Some h)
    | None => (active, None)
    end in
  match active with
  | None => move 1 None
  | Some (h, generation, _) =>
      match assoc h order with
      | Some Routable => (active, Some h)
      | Some Busy => (active, None)
      | Some (Blocked reason) => move (generation + 1) (Some reason)
      | None => move (generation + 1) (Some AccountRemovedOrReplaced)
      end
  end.

Definition activity (a : CodexActiveAccountSelection) : Activity := (as_account_id_hash a, as_generation a, as_transition_reason a).

Definition admitted (selection : CodexRouteSelection) : option string :=
  match selection with Eligible [account] _ _ => Some (ac_accountIdHash account) | _ => None end.

(** ** Evaluations *)

Definition of_identity (i : CodexRoutingIdentity) (a : CodexRoutingAccount) : Prop :=
  ac_accountIdHash a = id_accountIdHash i /\ ac_credentialVersion a = id_credentialVersion i /\ ac_slot a = id_slot i.

(** The account an evaluation routes is the identity's, with the generation of
    its slot, and it carries no reason to move; an exhausted one is behind its
    quota circuit. *)
Record evaluates (state : CodexAccountRoutingState) (i : CodexRoutingIdentity) (e : CodexRoutingAccountEvaluation) : Prop := {
  et_account : of_identity i (ev_account e);
  et_generation : exists g, ac_routingGeneration (ev_account e) = Some g
    /\ (g = 0 \/ exists slot, slot ∈ rs_slots state /\ sl_generation slot = g);
  et_routed : forall a, ev_routedAccount e = Some a -> a = ev_account e /\ ev_activeTransitionReason e = None;
  et_exhausted : ev_activeTransitionReason e = Some QuotaExhausted -> ev_blockedCircuit e = Some QuotaCircuit }.

Lemma evaluates_skipped state i a n c r b why g :
  of_identity i a -> ac_routingGeneration a = Some g -> (g = 0 \/ exists slot, slot ∈ rs_slots state /\ sl_generation slot = g) ->
  (why = Some QuotaExhausted -> c = Some QuotaCircuit) ->
  evaluates state i (skippedRoutingAccount a n c r b why).
Proof. intros Hi Hg Hs Hw. constructor; cbn; [done|by exists g|done|done]. Qed.

Lemma evaluates_routed state i a g :
  of_identity i a -> ac_routingGeneration a = Some g -> (g = 0 \/ exists slot, slot ∈ rs_slots state /\ sl_generation slot = g) ->
  evaluates state i (routedRoutingAccount a).
Proof. intros Hi Hg Hs. constructor; cbn; [done|by exists g|by intros a' [= <-]|done]. Qed.

Lemma evaluates_exhausted state i e b : evaluates state i e -> evaluates state i (e <| ev_capacityExhausted := b |>).
Proof. intros [H1 H2 H3 H4]. by constructor. Qed.

Lemma evaluates_unavailable state i e m : evaluates state i e -> evaluates state i (e <| ev_modelUnavailable := m |>).
Proof. intros [H1 H2 H3 H4]. by constructor. Qed.

Lemma slot_generation_of state a (slot := slotFor state a) :
  sl_generation slot = 0 \/ exists slot', slot' ∈ rs_slots state /\ sl_generation slot' = sl_generation slot.
Proof.
  unfold slot, slotFor. destruct (rs_slots state !! ac_slot a) as [s|] eqn:E; cbn; [|by left].
  right. exists s. split; [by eapply list_elem_of_lookup_2|done].
Qed.

Lemma evaluation_evaluates state i model obs now policy :
  evaluates state i (evaluateCodexRoutingAccount state i model obs now policy).
Proof.
  unfold evaluateCodexRoutingAccount. cbv zeta. set (a0 := mkAccount _ _ _ _ _ _ _ _ _ _ _ _ _ _).
  set (slot := if slotMatchesCodexRoutingAccount _ _ then _ else _). set (cap := resolveCodexCapacityDecision _ _ _ _ _ _).
  assert (sl_generation slot = 0 \/ exists slot', slot' ∈ rs_slots state /\ sl_generation slot' = sl_generation slot) as Hg.
  { unfold slot. destruct (slotMatchesCodexRoutingAccount _ _); [apply slot_generation_of|by left]. }
  clearbody slot cap. assert (of_identity i a0) as H0 by done.
  repeat match goal with |- evaluates _ _ (match ?x with _ => _ end) => destruct x end;
    repeat first [eapply evaluates_exhausted | eapply evaluates_unavailable];
    first [eapply evaluates_skipped | eapply evaluates_routed]; done || exact Hg.
Qed.

(** ** The cohort *)

Lemma assoc_map_set {A} k h (v : A) m : assoc h (map_set k v m) = if String.eqb h k then Some v else assoc h m.
Proof.
  induction m as [|[k' v'] m IH]; cbn; [by destruct (String.eqb h k)|].
  destruct (String.eqb_spec k k') as [<-|Hk]; cbn; [by destruct (String.eqb h k)|]. rewrite IH.
  destruct (String.eqb_spec h k') as [->|]; [|done]. by rewrite (proj2 (String.eqb_neq k' k)) by done.
Qed.

Section cohort.
Context (state : CodexAccountRoutingState) (model : option string)
  (observations : string -> option CodexCapacityRoutingObservation) (now : Z) (policies : list (string * CodexRoutingAccountPolicy)).

Definition evaluation (i : CodexRoutingIdentity) : option CodexRoutingAccountEvaluation :=
  policy ← assoc (id_accountIdHash i) policies; Some (evaluateCodexRoutingAccount state i model observations now policy).

(** The verdicts in pool order. *)
Definition verdicts (cohort : list CodexRoutingIdentity) : list (string * Verdict) :=
  omap (fun i => e ← evaluation i; Some (id_accountIdHash i, verdict e)) cohort.

Lemma evaluate_cohort_total cohort ev :
  Forall (fun i => is_Some (assoc (id_accountIdHash i) policies)) cohort ->
  is_Some (evaluate_cohort state model observations now policies cohort ev).
Proof.
  intros H. revert ev. induction H as [|i cohort [p Hp] _ IH]; intros ev; cbn; [done|]. rewrite Hp. apply IH.
Qed.

(** The accumulated accounts are the routed ones, and the map has every
    account's own evaluation. *)
Lemma evaluate_cohort_spec cohort ev ev' :
  NoDup (id_accountIdHash <$> cohort) ->
  (forall i, i ∈ cohort -> assoc (id_accountIdHash i) (se_byAccountId ev) = None) ->
  evaluate_cohort state model observations now policies cohort ev = Some ev' ->
  am_available (se_accumulated ev') = (am_available (se_accumulated ev) ++ omap (fun i => evaluation i ≫= ev_routedAccount) cohort)%list
  /\ (forall i, i ∈ cohort -> assoc (id_accountIdHash i) (se_byAccountId ev') = evaluation i /\ is_Some (evaluation i))
  /\ (forall h, h ∉ (id_accountIdHash <$> cohort) -> assoc h (se_byAccountId ev') = assoc h (se_byAccountId ev)).
Proof.
  revert ev. induction cohort as [|i cohort IH]; intros ev Hnd Hfresh H; cbn in *.
  { injection H as <-. rewrite app_nil_r. split_and!; [done|by intros ? ?%not_elem_of_nil|done]. }
  apply NoDup_cons in Hnd as [Hn Hnd].
  destruct (assoc (id_accountIdHash i) policies) as [policy|] eqn:Ep; [|done]. cbn in H.
  set (e := evaluateCodexRoutingAccount state i model observations now policy) in *.
  assert (evaluation i = Some e) as Ei by (unfold evaluation; by rewrite Ep). rewrite Ei. cbn.
  apply IH in H as (H1 & H2 & H3); [|done|].
  2:{ intros j Hj. cbn. rewrite assoc_map_set, (Hfresh j) by by right.
      destruct (String.eqb_spec (id_accountIdHash j) (id_accountIdHash i)) as [E|]; [|done].
      exfalso. apply Hn. rewrite <- E. by apply list_elem_of_fmap_2. }
  split_and!.
  - rewrite H1. cbn. unfold foldCodexRoutingEvaluation. destruct (ev_routedAccount e); cbn; [by rewrite <- app_assoc|done].
  - intros j [->|Hj]%elem_of_cons; [|by apply H2]. rewrite Ei, H3 by done. cbn.
    rewrite assoc_map_set, String.eqb_refl. eauto.
  - intros h [Hh1 Hh2]%not_elem_of_cons. rewrite H3 by done. cbn. rewrite assoc_map_set.
    by rewrite (proj2 (String.eqb_neq _ _)) by done.
Qed.

(** Accounts behind their quota circuits leave a quota block and no other. *)
Lemma evaluate_cohort_quota cohort ev ev' :
  evaluate_cohort state model observations now policies cohort ev = Some ev' ->
  Forall (fun i => exists e, evaluation i = Some e /\ ev_routedAccount e = None /\ ev_blockedCircuit e = Some QuotaCircuit) cohort ->
  am_hasUpstreamTimeoutBlock (se_accumulated ev') = am_hasUpstreamTimeoutBlock (se_accumulated ev)
  /\ am_hasQuotaBlock (se_accumulated ev')
     = (am_hasQuotaBlock (se_accumulated ev) || negb (bool_decide (length cohort = O))).
Proof.
  intros H Hall. revert ev H. induction Hall as [|i cohort (e & Ee & Er & Eb) _ IH]; intros ev H; cbn in *.
  { injection H as <-. by rewrite orb_false_r. }
  unfold evaluation in Ee. destruct (assoc (id_accountIdHash i) policies) as [policy|]; [|done]. cbn in Ee, H.
  injection Ee as Ee. rewrite Ee in H. apply IH in H as [-> ->]. cbn. unfold foldCodexRoutingEvaluation. rewrite Er. cbn.
  rewrite Eb, (bool_decide_false (Datatypes.S _ = O)), bool_decide_false, bool_decide_true by done. cbn. by rewrite orb_false_r, !orb_true_r.
Qed.
End cohort.

(** ** The decision *)

Definition cohort_of (snapshot : CodexSerialSnapshot) : list CodexRoutingIdentity :=
  List.filter (fun i => bool_decide (id_accountIdHash i ∈ ss_selectedAccountHashes snapshot)) (ss_poolIdentities snapshot).

(** Identities as the owner resolves them: hashes are opaque digests. *)
Definition identity_ok (i : CodexRoutingIdentity) : Prop :=
  opaque (id_accountIdHash i) /\ opaque (id_credentialVersion i) /\ fits 0 (Z.of_nat (id_slot i)).

Lemma eligible_current v row a stamp :
  parseCodexActiveAccountSelection v = Some row -> activeSelectionNeedsRefresh row a stamp = false ->
  codexActiveAccountSelectionCurrent v
    (a <| ac_activeGeneration := Some (as_generation row) |> <| ac_activePoolVersionstamp := Some (as_pool_versionstamp row) |>
       <| ac_activeTransitionReason := as_transition_reason row |>) (as_generation row) = true.
Proof.
  intros E. unfold activeSelectionNeedsRefresh, codexActiveAccountSelectionCurrent. rewrite E.
  intros [[[[H1 H2]%orb_false_iff _]%orb_false_iff H4]%orb_false_iff H5]%orb_false_iff.
  apply negb_false_iff in H1, H2, H4, H5. cbn. rewrite Z.eqb_refl, H1, H2, H4, H5. by rewrite bool_decide_true.
Qed.

(** The row [v] lets the admitted account through the dispatch fence. *)
Definition admits_current (v : jsval) (selection : CodexRouteSelection) : Prop :=
  forall accounts skipped blocked, selection = Eligible accounts skipped blocked ->
    exists account generation, accounts = [account] /\ ac_activeGeneration account = Some generation
      /\ codexActiveAccountSelectionCurrent v account generation = true.

Lemma eligible_admits v row a stamp ev :
  parseCodexActiveAccountSelection v = Some row -> activeSelectionNeedsRefresh row a stamp = false ->
  admits_current v (eligibleSerialSelection a row ev).
Proof.
  intros Hp Hr accounts skipped blocked [= <- _ _]. do 2 eexists. split_and!; [done|done|]. by eapply eligible_current.
Qed.

(** What a decision has to be. *)
Definition decided (order : list (string * Verdict)) (active : option CodexActiveAccountSelection) (row : jsval)
    (d : SerialSelectionDecision) : Prop :=
  serial_spec order (activity <$> active) = (activity <$> (sd_nextActive d ∪ active), admitted (sd_selection d))
  /\ admits_current (default row (active_json <$> sd_nextActive d)) (sd_selection d).

(** The whole cohort is exhausted: nobody is left to wait for but a reset. *)
Definition whole_cohort_exhausted (order : list (string * Verdict)) : bool :=
  negb (bool_decide (length order = O))
  && forallb (fun hv => match snd hv with Blocked QuotaExhausted => true | _ => false end) order.

(** The outcome that reports an exhausted cohort. *)
Definition reports_exhausted (selection : CodexRouteSelection) : bool :=
  match selection with QuotaBlocked _ _ _ full _ _ _ _ => full | _ => false end.

Lemma blocked_full cx current :
  reports_exhausted (blockedSerialSelection cx current) = true -> cx_fullCohortExhausted cx = true.
Proof. unfold blockedSerialSelection, classifyCodexRouteSelection. by repeat case_match. Qed.

Section decision.
Context (state : CodexAccountRoutingState) (model : option string)
  (observations : string -> option CodexCapacityRoutingObservation) (now : Z) (policies : list (string * CodexRoutingAccountPolicy)).
Context (cohort : list CodexRoutingIdentity) (stamp : string).
Local Notation evaluation := (evaluation state model observations now policies).
Local Notation order := (verdicts state model observations now policies cohort).
Context (Hnd : NoDup (id_accountIdHash <$> cohort)) (Hids : Forall identity_ok cohort)
  (Hslots : Forall (fun s => fits 0 (sl_generation s)) (rs_slots state)) (Hnow : fits 0 now)
  (Hstamp : isVersionstamp stamp = true).

Lemma evaluation_inv i e : evaluation i = Some e -> evaluates state i e.
Proof. unfold CodexAdmission.evaluation. destruct (assoc _ policies); [|done]. intros [= <-]. apply evaluation_evaluates. Qed.

(** The first routable account. *)
Lemma first_routable :
  match omap (fun i => evaluation i ≫= ev_routedAccount) cohort with
  | [] => List.find (fun hv => routable (snd hv)) order = None
  | a :: _ => exists i e, i ∈ cohort /\ evaluation i = Some e /\ ev_routedAccount e = Some a
                /\ List.find (fun hv => routable (snd hv)) order = Some (id_accountIdHash i, Routable)
  end.
Proof.
  clear. induction cohort as [|i l IH]; cbn; [done|].
  destruct (evaluation i) as [e|] eqn:Ee; cbn; [unfold verdict; destruct (ev_routedAccount e) as [a|] eqn:Er; cbn|].
  - exists i, e. split_and!; [left|done..].
  - destruct (omap _ l); [by destruct (ev_activeTransitionReason e)|].
    destruct IH as (j & e' & Hj & H). exists j, e'. split; [by right|]. by destruct (ev_activeTransitionReason e).
  - destruct (omap _ l); [done|]. destruct IH as (j & e' & Hj & H). exists j, e'. split; [by right|done].
Qed.

Lemma order_member i e : i ∈ cohort -> evaluation i = Some e -> assoc (id_accountIdHash i) order = Some (verdict e).
Proof.
  clear -Hnd. induction cohort as [|j l IH]; intros Hi Ee; [by apply not_elem_of_nil in Hi|].
  apply NoDup_cons in Hnd as [Hn Hnd']. apply elem_of_cons in Hi as [->|Hi]; cbn.
  - rewrite Ee. cbn. by rewrite String.eqb_refl.
  - assert (id_accountIdHash i <> id_accountIdHash j) as Hne by (intros E; apply Hn; rewrite <- E; by apply list_elem_of_fmap_2).
    destruct (evaluation j); cbn; [rewrite (proj2 (String.eqb_neq _ _)) by done|]; by apply IH.
Qed.

Lemma order_absent h : h ∉ (id_accountIdHash <$> cohort) -> assoc h order = None.
Proof.
  clear. induction cohort as [|j l IH]; [done|]. intros [Hne Hn]%not_elem_of_cons. cbn.
  destruct (evaluation j); cbn; [rewrite (proj2 (String.eqb_neq _ _)) by done|]; by apply IH.
Qed.

(** The row an account gets, and that it is current for the account admitted. *)
Lemma granted i e generation reason :
  i ∈ cohort -> evaluation i = Some e -> fits 1 generation ->
  exists next, activeSelectionForAccount (ev_account e) stamp generation now reason = Some next
    /\ activity next = (id_accountIdHash i, generation, reason) /\ active_wf next
    /\ activeSelectionNeedsRefresh next (ev_account e) stamp = false.
Proof using Hids Hslots Hnow Hstamp.
  intros Hi [(Eh & Ev & Es) (g & Eg & Hg) _]%evaluation_inv [Hsafe Hpos].
  rewrite Forall_forall in Hids. destruct (Hids i Hi) as (Hh & Hv & Hslot).
  assert (fits 0 g) as Hfit.
  { destruct Hg as [->|(s & Hs & <-)]; [done|]. rewrite Forall_forall in Hslots. by apply Hslots. }
  unfold activeSelectionForAccount. rewrite Eg, Hstamp, Hsafe, (proj2 (Z.ltb_ge generation 1)) by done. cbn.
  eexists. split; [done|]. unfold activity. cbn. rewrite Eh. split_and!; [done|by constructor; cbn; rewrite ?Eh, ?Ev, ?Es|].
  unfold activeSelectionNeedsRefresh. cbn. by rewrite Eg, Z.eqb_refl, !bool_decide_true.
Qed.

(** The evaluations of the cohort. *)
Context (ev : SerialRoutingEvaluations)
  (Hmember : forall i, i ∈ cohort -> assoc (id_accountIdHash i) (se_byAccountId ev) = evaluation i /\ is_Some (evaluation i))
  (Habsent : forall h, h ∉ (id_accountIdHash <$> cohort) -> assoc h (se_byAccountId ev) = None)
  (Havailable : am_available (se_accumulated ev) = omap (fun i => evaluation i ≫= ev_routedAccount) cohort).

Lemma eligible_in_order :
  omap (fun i => assoc (id_accountIdHash i) (se_byAccountId ev) ≫= ev_routedAccount) cohort
  = omap (fun i => evaluation i ≫= ev_routedAccount) cohort.
Proof using Hmember.
  apply list_omap_ext, Forall_Forall2_diag, Forall_forall. intros i Hi. by rewrite (proj1 (Hmember i Hi)).
Qed.

Lemma active_member h :
  match List.find (fun i => bool_decide (id_accountIdHash i = h)) cohort ≫= (fun i => assoc (id_accountIdHash i) (se_byAccountId ev)) with
  | Some e => exists i, i ∈ cohort /\ id_accountIdHash i = h /\ evaluation i = Some e /\ assoc h order = Some (verdict e)
  | None => assoc h order = None
  end.
Proof using Hmember Hnd.
  destruct (List.find _ cohort) as [i|] eqn:E; cbn.
  - apply List.find_some in E as [Hi%list_elem_of_In <-%bool_decide_eq_true]. destruct (Hmember i Hi) as [-> [e Ee]].
    rewrite Ee. exists i. split_and!; [done..|]. by apply order_member.
  - apply order_absent. intros (i & -> & Hi)%list_elem_of_fmap. eapply List.find_none in E; [|by apply list_elem_of_In].
    by rewrite bool_decide_true in E.
Qed.

(** Nobody is admitted when nobody is routable. *)
Lemma blocked_nobody cx current v :
  cx_evaluations cx = ev -> omap (fun i => evaluation i ≫= ev_routedAccount) cohort = [] ->
  admitted (blockedSerialSelection cx current) = None /\ admits_current v (blockedSerialSelection cx current).
Proof using Havailable.
  intros Ex E. unfold blockedSerialSelection, classifyCodexRouteSelection. rewrite Ex, Havailable, E.
  repeat case_match; split; done.
Qed.

(** The pool's first routable account becomes active. *)
Lemma move_decided cx active row generation reason d :
  cx_evaluations cx = ev -> cx_poolVersionstamp cx = stamp -> cx_now cx = now ->
  cx_eligibleInPoolOrder cx = omap (fun i => evaluation i ≫= ev_routedAccount) cohort ->
  serial_spec order (activity <$> active)
    = match List.find (fun hv => routable (snd hv)) order with
      | Some (h, _) => (Some (h, generation, reason), Some h)
      | None => (activity <$> active, None)
      end ->
  fits 1 generation ->
  (cx_eligibleInPoolOrder cx = [] -> exists d', d = Some d' /\ decided order active row d') ->
  (forall a rest, cx_eligibleInPoolOrder cx = a :: rest ->
     d = (next ← activeSelectionForAccount a (cx_poolVersionstamp cx) generation (cx_now cx) reason;
          Some (mkSerial (eligibleSerialSelection a next (cx_evaluations cx)) (Some next)))) ->
  exists d', d = Some d' /\ decided order active row d'.
Proof using Hids Hslots Hnow Hstamp.
  clear Havailable Habsent Hmember Hnd. intros -> -> -> El Hspec Hg Hnone Hsome. rewrite El in Hnone, Hsome. pose proof first_routable as Hf.
  destruct (omap _ cohort) as [|a rest]; [by apply Hnone|]. clear Hnone. rewrite (Hsome a rest eq_refl).
  destruct Hf as (i & e & Hi & Ee & Er & Ef). destruct (evaluation_inv i e Ee) as [(Eh & _) _ Hr _].
  destruct (Hr a Er) as [-> _]. destruct (granted i e generation reason Hi Ee Hg) as (next & En & Ea & Hwf & Hn).
  rewrite En. eexists. split; [done|]. split.
  - rewrite Hspec, Ef. cbn. unfold eligibleSerialSelection, admitted. by rewrite some_union; cbn; rewrite Ea, Eh.
  - eapply eligible_admits; [by apply active_roundtrip|done].
Qed.

(** The active account keeps its activity; its fences are current. *)
Lemma refreshed cx r row i e :
  cx_poolVersionstamp cx = stamp -> cx_now cx = now -> parseCodexActiveAccountSelection row = Some r ->
  i ∈ cohort -> id_accountIdHash i = as_account_id_hash r -> evaluation i = Some e -> fits 1 (as_generation r) ->
  exists x, refreshed_active cx r (ev_account e) = Some x
    /\ activity <$> (x ∪ Some r) = Some (activity r)
    /\ parseCodexActiveAccountSelection (default row (active_json <$> x)) = Some (default r x)
    /\ activeSelectionNeedsRefresh (default r x) (ev_account e) stamp = false.
Proof using Hids Hslots Hnow Hstamp.
  intros Es En Hp Hi Eh Ee Hg. unfold refreshed_active. rewrite Es, En.
  destruct (activeSelectionNeedsRefresh r (ev_account e) stamp) eqn:Er; [|by exists None].
  destruct (granted i e _ (as_transition_reason r) Hi Ee Hg) as (next & -> & Ea & Hwf & Hn).
  exists (Some next). rewrite some_union. split_and!; [done| |by apply active_roundtrip|done].
  cbn. rewrite Ea, Eh. done.
Qed.

Lemma decision_none row :
  exists d, serialSelectionDecision None cohort ev stamp now None None = Some d /\ decided order None row d.
Proof using Hids Hslots Hnow Hstamp Hmember Havailable.
  unfold serialSelectionDecision. set (cx := mkContext _ _ _ _ _ _ _ _).
  apply (move_decided cx None row 1 None); [done|done|done|apply eligible_in_order|by cbn; destruct (List.find _ order) as [[]|]|done| |].
  - intros E. unfold serialBootstrapDecision. rewrite E. eexists. split; [done|]. unfold cx in E. cbn in E.
    rewrite eligible_in_order in E. pose proof first_routable as Hf. rewrite E in Hf.
    destruct (blocked_nobody cx None row eq_refl E) as [Hn Hc]. split; [|done]. cbn. by rewrite Hf, Hn.
  - intros a rest E. unfold serialBootstrapDecision. by rewrite E.
Qed.

Lemma decision_some r row :
  parseCodexActiveAccountSelection row = Some r -> fits 1 (as_generation r) -> fits 1 (as_generation r + 1) ->
  exists d, serialSelectionDecision (Some r) cohort ev stamp now None None = Some d /\ decided order (Some r) row d.
Proof using Hnd Hids Hslots Hnow Hstamp Hmember Havailable.
  intros Hp Hg Hg1. unfold serialSelectionDecision. set (cx := mkContext _ _ _ _ _ _ _ _).
  assert (cx_eligibleInPoolOrder cx = omap (fun i => evaluation i ≫= ev_routedAccount) cohort) as El by apply eligible_in_order.
  pose proof first_routable as Hf. pose proof (active_member (as_account_id_hash r)) as Ha.
  destruct (List.find _ cohort ≫= _) as [e|].
  - destruct Ha as (i & Hi & Eh & Ee & Ev). destruct (evaluation_inv i e Ee) as [(Ehash & _) _ Hr _].
    destruct (refreshed cx r row i e eq_refl eq_refl Hp Hi Eh Ee Hg) as (x & Ex & Eact & Hpx & Hnx).
    unfold verdict in Ev. destruct (ev_routedAccount e) as [a|] eqn:Era.
    + destruct (Hr a eq_refl) as [-> _]. unfold serialCurrentActiveDecision. rewrite Ex. eexists. split; [done|]. split.
      * cbn. rewrite Ev. cbn [sd_nextActive]. rewrite Eact, Ehash, Eh. done.
      * by eapply eligible_admits.
    + unfold serialBlockedActiveDecision. destruct (ev_activeTransitionReason e) as [reason|].
      2:{ eexists. split; [done|]. split; [|done]. cbn. by rewrite Ev. }
      apply (move_decided cx (Some r) row (as_generation r + 1) (Some reason)); [done|done|done|done|cbn; by rewrite Ev|done| |].
      * intros E. rewrite E, Ex. eexists. split; [done|]. rewrite El in E. rewrite E in Hf.
        destruct (blocked_nobody cx (Some (default r x)) (default row (active_json <$> x)) eq_refl E) as [Hn Hc].
        split; [|done]. cbn [sd_nextActive sd_selection]. rewrite Eact, Hn. cbn. by rewrite Ev, Hf.
      * intros a rest E. by rewrite E.
  - apply (move_decided cx (Some r) row (as_generation r + 1) (Some AccountRemovedOrReplaced));
      [done|done|done|done|cbn; by rewrite Ha|done| |].
    + intros E. unfold serialReplacementDecision. rewrite E. eexists. split; [done|]. rewrite El in E. rewrite E in Hf.
      destruct (blocked_nobody cx (Some r) row eq_refl E) as [Hn Hc]. split; [|done]. cbn. by rewrite Ha, Hf, Hn.
    + intros a rest E. unfold serialReplacementDecision. by rewrite E.
Qed.

Lemma exhausted_verdict i e :
  evaluation i = Some e ->
  bool_decide (ev_activeTransitionReason e = Some QuotaExhausted)
  = match verdict e with Blocked QuotaExhausted => true | _ => false end.
Proof.
  intros [_ _ Hr _]%evaluation_inv. unfold verdict. destruct (ev_routedAccount e) as [a|].
  - destruct (Hr a eq_refl) as [_ ->]. done.
  - by destruct (ev_activeTransitionReason e) as [[]|].
Qed.

Lemma cohort_exhausted :
  negb (bool_decide (length cohort = O))
  && forallb (fun i => bool_decide (assoc (id_accountIdHash i) (se_byAccountId ev) ≫= ev_activeTransitionReason = Some QuotaExhausted)) cohort
  = whole_cohort_exhausted order.
Proof using Hmember.
  clear -Hmember. unfold whole_cohort_exhausted.
  assert (length cohort = length order
    /\ forallb (fun i => bool_decide (assoc (id_accountIdHash i) (se_byAccountId ev) ≫= ev_activeTransitionReason = Some QuotaExhausted)) cohort
       = forallb (fun hv => match snd hv with Blocked QuotaExhausted => true | _ => false end) order) as [E1 E2]; [|by rewrite E1, E2].
  induction cohort as [|i l IH]; [done|]. destruct IH as [E1 E2]; [intros j Hj; apply Hmember; by right|].
  destruct (Hmember i) as [Ei [e Ee]]; [by left|]. cbn [forallb length]. rewrite E1, E2, Ei. cbn. rewrite Ee. cbn.
  by rewrite <- (exhausted_verdict i e Ee).
Qed.

(** The decision reports the flag it computed. *)
Lemma decision_flag active d :
  serialSelectionDecision active cohort ev stamp now None None = Some d -> reports_exhausted (sd_selection d) = true ->
  whole_cohort_exhausted order = true.
Proof using Hmember.
  rewrite <- cohort_exhausted. unfold serialSelectionDecision. set (cx := mkContext _ _ _ _ _ _ _ _).
  change (negb _ && _) with (cx_fullCohortExhausted cx). clearbody cx. intros Hd Hs.
  unfold serialBootstrapDecision, serialReplacementDecision, serialCurrentActiveDecision, serialBlockedActiveDecision in Hd.
  repeat (case_match || simplify_option_eq); try done; by eapply blocked_full.
Qed.

(** In an exhausted cohort every account is behind its quota circuit. *)
Lemma exhausted_members :
  whole_cohort_exhausted order = true ->
  cohort <> [] /\ Forall (fun i => exists e, evaluation i = Some e /\ ev_routedAccount e = None
    /\ ev_activeTransitionReason e = Some QuotaExhausted /\ ev_blockedCircuit e = Some QuotaCircuit) cohort.
Proof using Hmember.
  rewrite <- cohort_exhausted. intros [Hne Hall]%andb_true_iff. apply negb_true_iff, bool_decide_eq_false in Hne.
  split; [intros E; by rewrite E in Hne|]. apply Forall_forall. intros i Hi. rewrite forallb_forall in Hall.
  specialize (Hall i (proj1 (list_elem_of_In _ _) Hi)). destruct (Hmember i Hi) as [Ei [e Ee]].
  rewrite Ei, Ee in Hall. cbn in Hall. apply bool_decide_eq_true in Hall. exists e.
  destruct (evaluation_inv i e Ee) as [_ _ Hr Hx]. split_and!; [done| |done|by apply Hx].
  destruct (ev_routedAccount e) as [a|]; [|done]. destruct (Hr a eq_refl). congruence.
Qed.

Lemma blocked_reports cx current :
  cx_evaluations cx = ev -> cx_fullCohortExhausted cx = true -> am_available (se_accumulated ev) = [] ->
  am_hasUpstreamTimeoutBlock (se_accumulated ev) = false -> am_hasQuotaBlock (se_accumulated ev) = true ->
  reports_exhausted (blockedSerialSelection cx current) = true.
Proof. intros E1 E2 E3 E4 E5. unfold blockedSerialSelection, classifyCodexRouteSelection. by rewrite E1, E2, E3, E4, E5. Qed.

Context (Hev : evaluate_cohort state model observations now policies cohort no_evaluations = Some ev).

Lemma decision_exhausted active d :
  serialSelectionDecision active cohort ev stamp now None None = Some d ->
  reports_exhausted (sd_selection d) = whole_cohort_exhausted order.
Proof using Hnd Hmember Havailable Hev.
  intros Hd. apply eq_true_iff_eq. split; [by eapply decision_flag|]. intros Hw.
  destruct (exhausted_members Hw) as [Hne Hall].
  assert (omap (fun i => evaluation i ≫= ev_routedAccount) cohort = []) as Hnone.
  { clear -Hall. induction Hall as [|i l (e & Ee & Er & _) _ IH]; cbn; [done|]. by rewrite Ee; cbn; rewrite Er. }
  destruct (evaluate_cohort_quota state model observations now policies cohort no_evaluations ev Hev) as [Hup Hq].
  { eapply Forall_impl; [exact Hall|]. intros i (e & ? & ? & _ & ?). by exists e. }
  cbn in Hup, Hq. rewrite bool_decide_false in Hq by (by rewrite length_zero_iff_nil).
  unfold serialSelectionDecision in Hd. set (cx := mkContext _ _ _ _ _ _ _ _) in Hd.
  assert (cx_eligibleInPoolOrder cx = []) as El by (etrans; [apply eligible_in_order|done]).
  assert (forall current, reports_exhausted (blockedSerialSelection cx current) = true) as Hblocked.
  { intros current. apply blocked_reports; try done; [etrans; [apply cohort_exhausted|done]|by rewrite Havailable]. }
  destruct active as [r|].
  - pose proof (active_member (as_account_id_hash r)) as Ha. destruct (List.find _ cohort ≫= _) as [e|].
    + destruct Ha as (i & Hi & _ & Ee & _). rewrite Forall_forall in Hall.
      destruct (Hall i Hi) as (e' & Ee' & Er & Et & _). assert (e' = e) as -> by congruence.
      rewrite Er in Hd. unfold serialBlockedActiveDecision in Hd. rewrite Et, El in Hd. by simplify_option_eq.
    + unfold serialReplacementDecision in Hd. rewrite El in Hd. by simplify_option_eq.
  - unfold serialBootstrapDecision in Hd. rewrite El in Hd. by simplify_option_eq.
Qed.
End decision.

(** ** Admission *)

Lemma filter_elem {A} (p : A -> bool) l x : x ∈ List.filter p l -> x ∈ l.
Proof. rewrite !list_elem_of_In. by intros [H _]%List.filter_In. Qed.

Lemma filter_nodup {A B} (f : A -> B) (p : A -> bool) l : NoDup (f <$> l) -> NoDup (f <$> List.filter p l).
Proof.
  induction l as [|x l IH]; cbn; [done|]. intros [Hx Hl]%NoDup_cons. destruct (p x); [|by apply IH].
  apply NoDup_cons. split; [|by apply IH]. intros (y & E & Hy%filter_elem)%list_elem_of_fmap. apply Hx. rewrite E.
  by apply list_elem_of_fmap_2.
Qed.

(** A snapshot of four well-formed rows: distinct accounts under opaque digests,
    a policy for each of the cohort, and generations that still fit. *)
Record ready (snapshot : CodexSerialSnapshot) (now : Z) (active : option CodexActiveAccountSelection)
    (durable : option CodexAccountRoutingState) (stamp : string) : Prop := {
  rd_active : stored parseCodexActiveAccountSelection (ss_active snapshot) = Some active;
  rd_routing : stored parseCodexAccountRoutingState (ss_routing snapshot) = Some durable;
  rd_pool : rv_pool (ss_revisions snapshot) = Some stamp;
  rd_stamp : isVersionstamp stamp = true;
  rd_distinct : NoDup (id_accountIdHash <$> ss_poolIdentities snapshot);
  rd_identities : Forall identity_ok (ss_poolIdentities snapshot);
  rd_policies : Forall (fun i => is_Some (assoc (id_accountIdHash i) (ss_accountPolicies snapshot))) (cohort_of snapshot);
  rd_slots : Forall (fun s => fits 0 (sl_generation s))
    (rs_slots (fst (normalizeRoutingState durable (ss_poolIdentities snapshot) now true)));
  rd_now : fits 0 now;
  rd_generation : forall r, active = Some r -> isSafeInteger (as_generation r + 1) = true }.

(** The cohort's verdicts as the plan's routing state gives them. *)
Definition snapshot_verdicts (snapshot : CodexSerialSnapshot) (now : Z) (model : option string)
    (durable : option CodexAccountRoutingState) : list (string * Verdict) :=
  verdicts (fst (normalizeRoutingState durable (ss_poolIdentities snapshot) now true)) model
    (observation_of (parseStoredCapacityObservationStore (ss_capacity snapshot))) now (ss_accountPolicies snapshot) (cohort_of snapshot).

Lemma stored_some {A} (parse : jsval -> option A) v a : stored parse v = Some (Some a) -> parse v = Some a.
Proof. unfold stored. destruct (is_null v); [done|]. destruct (parse v); [|done]. by intros [= ->]. Qed.

Lemma parsed_generation v r : parseCodexActiveAccountSelection v = Some r -> fits 1 (as_generation r).
Proof.
  unfold parseCodexActiveAccountSelection. destruct (_ || _); [done|]. intros H.
  destruct (positiveSafeInteger (prop v "generation")) as [g|] eqn:Eg; [|by simplify_option_eq].
  simplify_option_eq. by apply safe_at_least_range in Eg.
Qed.

(** C36: serial admission implements its contract.  On well-formed rows
    [selectCodex] always returns a plan, checked against all four revisions it
    read.  The active account stays, with its generation and reason, as long as it
    can take the request; it moves to the first routable account of the pool order
    under the next generation, with the reason the evaluation gave; while another
    request's probe holds it, nobody is admitted and the row stays.  At most one
    account is admitted, and it passes the dispatch fence of the row the plan
    leaves.  The outcome is a quota block that reports the whole cohort exhausted
    exactly when the cohort is not empty and the evaluation of every account of it
    is a quota exhaustion. *)
Theorem codex_serial_admission snapshot now model active durable stamp :
  ready snapshot now active durable stamp ->
  let order := snapshot_verdicts snapshot now model durable in
  exists plan, selectCodex snapshot now model = Some plan /\ sp_checks plan = ss_revisions snapshot
    /\ serial_spec order (activity <$> active) = (activity <$> (sp_write_active plan ∪ active), admitted (sp_selection plan))
    /\ admits_current (default (ss_active snapshot) (active_json <$> sp_write_active plan)) (sp_selection plan)
    /\ reports_exhausted (sp_selection plan) = whole_cohort_exhausted order.
Proof.
  intros [Ha Hr Hp Hst Hnd Hids Hpol Hslots Hnow Hgen] order.
  set (state := fst (normalizeRoutingState durable (ss_poolIdentities snapshot) now true)) in *.
  set (obs := observation_of (parseStoredCapacityObservationStore (ss_capacity snapshot))).
  destruct (evaluate_cohort_total state model obs now _ _ no_evaluations Hpol) as [ev Eev].
  pose proof (filter_nodup _ (fun i => bool_decide (id_accountIdHash i ∈ ss_selectedAccountHashes snapshot)) _ Hnd) as Hnd'.
  destruct (evaluate_cohort_spec state model obs now _ _ no_evaluations ev Hnd' (fun _ _ => eq_refl) Eev) as (Hav & Hmem & Habs).
  assert (Forall identity_ok (cohort_of snapshot)) as Hids'.
  { rewrite Forall_forall in *. intros i Hi. by apply Hids, (filter_elem _ _ _ Hi). }
  assert (exists d, serialSelectionDecision active (cohort_of snapshot) ev stamp now None None = Some d
    /\ decided order active (ss_active snapshot) d) as (d & Ed & Hspec & Hcur).
  { destruct active as [r|]; [|by apply (decision_none state model obs now _ (cohort_of snapshot) stamp Hids' Hslots Hnow Hst ev Hmem Hav)].
    pose proof (stored_some _ _ _ Ha) as Hparse. pose proof (parsed_generation _ _ Hparse) as Hg.
    apply (decision_some state model obs now _ _ stamp Hnd' Hids' Hslots Hnow Hst ev Hmem Hav); [done|done|].
    split; [by apply Hgen|]. destruct Hg. lia. }
  unfold selectCodex. rewrite Ha, Hp, Hr. cbn [mbind option_bind]. rewrite Hst. cbn [negb]. fold (cohort_of snapshot).
  fold state obs. rewrite Eev. cbn [mbind option_bind]. rewrite Ed. eexists. split; [done|]. cbn.
  split_and!; [done|done|done|].
  by apply (decision_exhausted state model obs now _ _ stamp Hnd' ev Hmem Hav Eev active).
Qed.

(** ** A snapshot *)

Definition digest (c : ascii) : string := string_of_list (replicate 64 c).
Definition sample_active : CodexActiveAccountSelection :=
  mkActive (digest "a") (digest "0") "v1" 0 7 3 None 1000.
Definition sample_snapshot : CodexSerialSnapshot :=
  mkSerialSnapshot (active_json sample_active) JNull JNull
    [mkIdentity 0 (digest "b") (digest "1"); mkIdentity 1 (digest "c") (digest "2")] [digest "b"; digest "c"]
    [(digest "b", mkPolicy (Some None) false); (digest "c", mkPolicy None false)]
    (mkRevisions (Some "r1") (Some "v2") None None).

(** The active account left the pool, the next one cannot serve the model: the
    third takes over under generation four. *)
Lemma codex_serial_admission_witness :
  exists plan, selectCodex sample_snapshot 5000 (Some "gpt-5") = Some plan
    /\ admitted (sp_selection plan) = Some (digest "c")
    /\ activity <$> sp_write_active plan = Some (digest "c", 4, Some AccountRemovedOrReplaced).
Proof.
  assert (ready sample_snapshot 5000 (Some sample_active) None "v2") as Hr.
  { constructor; [vm_compute; reflexivity..| | | | | |].
    - apply NoDup_cons. split; [|apply NoDup_singleton]. intros H%list_elem_of_singleton. vm_compute in H. discriminate.
    - repeat apply Forall_cons_2; [..|apply Forall_nil_2]; split_and!; try split; vm_compute; congruence.
    - repeat apply Forall_cons_2; [..|apply Forall_nil_2]; vm_compute; eauto.
    - repeat apply Forall_cons_2; [..|apply Forall_nil_2]; split; vm_compute; congruence.
    - split; [vm_compute; reflexivity|lia].
    - intros r [= <-]. vm_compute. reflexivity. }
  destruct (codex_serial_admission _ _ (Some "gpt-5") _ _ _ Hr) as (plan & E & _ & Hs & _).
  exists plan. split; [exact E|]. vm_compute in E. injection E as <-. split; vm_compute; reflexivity.
Defined.
