(* ===== verification/CodexTheorems.v ===== *)
(** * What the Codex router guarantees

    What a 429 does to the fences of a slot, and that half-open probes exclude
    each other. *)

From Stdlib Require Import ZArith QArith Lia Ascii.
From stdpp Require Import base strings option list.
From S2P Require Import Prelude Js CodexContracts CodexCapacity CodexMutations CodexRouting CodexSlots.
Open Scope Z_scope.

(** ** A 429 *)

(** What the block of the requested class records. *)
Lemma quotaBlockedSlot_inv state account parsed now recoveryProbe slot :
  quotaBlockedSlot state account parsed now recoveryProbe = Some slot ->
  exists retryAtMs source,
    c4_retryAtMs parsed = Some retryAtMs /\ c4_quotaBlockSource parsed = Some source
    /\ let current := slotFor state account in
       let foreign := isForeignQuotaProbeLease current account (quotaClass (ac_requestedModel account)) in
       slotMatchesCodexRoutingAccount current account = true
       /\ slot = buildQuotaBlockedSlot current account parsed source retryAtMs now recoveryProbe foreign
       /\ match ac_probeGeneration account with
          | None => sl_probe_lease current = None \/ foreign = true
          | Some _ => probeLeaseMatchesCodexRoutingAccount current account = true
          end.
Proof.
  unfold quotaBlockedSlot. destruct (c4_retryAtMs parsed) as [r|]; [|done]. destruct (c4_quotaBlockSource parsed) as [src|]; [|done].
  cbn. set (current := slotFor state account). destruct (slotMatchesCodexRoutingAccount current account) eqn:Em; [|done]. cbn.
  intros H. exists r, src. destruct (ac_probeGeneration account) as [g|] eqn:Eg.
  - destruct (probeLeaseMatchesCodexRoutingAccount current account) eqn:Ep; [|done]. cbn in H. split_and!; congruence.
  - unfold has_lease in H. destruct (sl_probe_lease current) eqn:El; cbn in H; [|split_and!; try congruence; by left].
    destruct (isForeignQuotaProbeLease current account _) eqn:Ef; [|done]. split_and!; try (cbn in H; congruence). by right.
Qed.

(** The latest of a class map that holds the seed is one of its blocks. *)
Lemma latest_in_map c b bs :
  exists latest, latest_from (Some b) (class_set c b bs).*2 = Some latest
    /\ latest ∈ (class_set c b bs).*2
    /\ forall b', b' ∈ (class_set c b bs).*2 -> bk_blocked_until_ms b' <= bk_blocked_until_ms latest.
Proof.
  destruct (latest_from_some b (class_set c b bs).*2) as [latest E]. exists latest. split; [done|].
  destruct (latest_from_spec _ _ _ E) as (H1 & _ & H3). split; [|done].
  destruct H1 as [[= <-]|?]; [|done]. apply list_elem_of_fmap. exists (c, b). split; [done|].
  apply class_get_elem, class_get_set_eq.
Qed.

(** A 429 that proves exhaustion fences its own quota class and nothing
    else.  The slot's summary names a block of its class map with the longest
    deadline; unless the unknown class itself was hit, every other class keeps
    exactly its fence; an ordinary 429 shortens no fence and lasts until the
    provider's deadline at least, and a failed recovery probe retries after one
    half-open lease; an ambiguity about the provider's reset is never forgotten;
    and the lease of another class's probe survives with its generation. *)
Theorem codex_quota_block_sound state account parsed now recoveryProbe slot :
  quotaBlockedSlot state account parsed now recoveryProbe = Some slot ->
  let current := slotFor state account in
  let aware := withLegacyQuotaClassMap current in
  let c := quotaClass (ac_requestedModel account) in
  (exists latest, latest ∈ (sl_quota_blocks_by_class slot).*2
     /\ sl_quota_blocked_until_ms slot = Some (bk_blocked_until_ms latest)
     /\ sl_quota_block_source slot = Some (bk_source latest)
     /\ sl_observed_reset_at_ms slot = bk_observed_reset_at_ms latest
     /\ forall b, b ∈ (sl_quota_blocks_by_class slot).*2 -> bk_blocked_until_ms b <= bk_blocked_until_ms latest)
  /\ (c <> UnknownClass -> forall c', c' <> c -> quotaBlockForClass slot c' = quotaBlockForClass aware c')
  /\ (if boundedRecoveryProbe current account recoveryProbe
      then exists b, class_get c (sl_quota_blocks_by_class slot) = Some b
             /\ bk_blocked_until_ms b = now + CODEX_HALF_OPEN_LEASE_MS /\ bk_banked_reset_generation_ambiguous b = true
      else (forall c', class_deadline aware c' <= class_deadline slot c')
           /\ forall r, c4_retryAtMs parsed = Some r -> r <= class_deadline slot c)
  /\ (forall b, quotaBlockForClass aware c = Some b -> bk_banked_reset_generation_ambiguous b = true ->
        exists b', class_get c (sl_quota_blocks_by_class slot) = Some b' /\ bk_banked_reset_generation_ambiguous b' = true
          /\ (bk_observed_reset_at_is_stable b = true -> is_Some (bk_observed_reset_at_ms b) ->
              bk_observed_reset_at_ms b' = bk_observed_reset_at_ms b))
  /\ (if isForeignQuotaProbeLease current account c
      then sl_probe_lease slot = sl_probe_lease current /\ sl_generation slot = sl_generation current
      else sl_probe_lease slot = None /\ sl_generation slot = sl_generation current + 1).
Proof.
  intros (r & src & Er & Es & Hm & -> & Hl)%quotaBlockedSlot_inv current aware c. fold current c in Hm, Hl |- *.
  set (foreign := isForeignQuotaProbeLease current account c).
  unfold buildQuotaBlockedSlot. fold c. cbv zeta. rewrite with_blocks_fence.
  set (before := quotaBlocksIncludingLegacy current). remember (fence before c) as prior eqn:Eprior.
  set (bounded := boundedRecoveryProbe current account recoveryProbe).
  assert (forall c', quotaBlockForClass aware c' = fence before c') as Haware by apply aware_fence.
  match goal with |- context [class_set c ?b before] => set (block := b) end.
  destruct (latest_in_map c block before) as (latest & El & Hin & Hmax).
  assert (forall s c', sl_quota_blocks_by_class s = class_set c block before -> quotaBlockForClass s c' = fence (class_set c block before) c') as Hnew.
  { intros s c' E. rewrite class_block_fence; [by rewrite E|]. left. rewrite E. apply class_set_nonempty. }
  split_and!.
  - exists latest. cbn -[class_set latest_from block]. rewrite El. cbn -[class_set block]. by split_and!.
  - intros Hc c' Hne. rewrite Haware, (Hnew _ c') by done. by apply fence_set_other.
  - destruct bounded eqn:Eb.
    + exists block. split; [apply class_get_set_eq|]. unfold block. cbn. done.
    + assert (bk_blocked_until_ms block = Z.max (deadline_of prior) r) as Hd by (unfold block; cbn; by destruct prior).
      split.
      * intros c'. unfold class_deadline. rewrite Haware, (Hnew _ c') by done. apply fence_set_mono. rewrite <- Eprior. lia.
      * intros r' Er'. unfold class_deadline. rewrite (Hnew _ c) by done. pose proof (fence_set_reaches c block before).
        assert (r' = r) by congruence. lia.
  - rewrite Haware, <- Eprior. intros b Ep Hamb. exists block. split; [apply class_get_set_eq|].
    unfold block. rewrite Ep. cbn. rewrite Hamb, orb_true_r. cbn. split; [done|].
    intros Hs [t Ht]. by rewrite Hs, Ht.
  - fold foreign. cbn. by destruct foreign.
Qed.

(** ** Half-open probes *)

(** The transitions ordinary traffic and the capacity sampler make.  (An
    invalid credential, a refresh, an administrative recheck and a verified
    reset end or move a probe on purpose.) *)
Inductive SlotOperation :=
| ClaimProbe (account : CodexRoutingAccount) (now : Z) (token : string)
| Observe429 (account : CodexRoutingAccount) (parsed : Codex429Classification) (now : Z) (recoveryProbe : bool)
| NonBlocking429 (account : CodexRoutingAccount)
| ReleaseProbe (account : CodexRoutingAccount)
| Success (account : CodexRoutingAccount)
| UpstreamTimeout (account : CodexRoutingAccount) (now : Z)
| CapacityBlock (account : CodexRoutingAccount) (o : CodexCapacityRoutingObservation) (now : Z)
| CapacitySample (o : CodexCapacityRoutingObservation) (now : Z) (model : option string).

Definition slot_operation (op : SlotOperation) (t : Z) (s : CodexAccountRoutingState) : option CodexAccountRoutingState :=
  match op with
  | ClaimProbe a now token => fst <$> buildExpiredProbeClaim s a now token t
  | Observe429 a parsed now recovery => quotaBlockTransition s a parsed now recovery t
  | NonBlocking429 a => releaseNonBlockingQuotaProbe s a t
  | ReleaseProbe a => releaseCodexRoutingProbe s a t
  | Success a => markCodexSuccess s a t
  | UpstreamTimeout a now => markCodexUpstreamTimeout s a now t
  | CapacityBlock a o now => applyCapacityQuotaBlock s a o now t
  | CapacitySample o now model => applyCapacityObservation s o now model t
  end.

(** The request holds the lease's token. *)
Definition holds (op : SlotOperation) (lease : ProbeLease) : Prop :=
  match op with
  | Observe429 a _ _ _ | NonBlocking429 a | ReleaseProbe a | Success a | UpstreamTimeout a _ =>
      ac_probeToken a = Some (pl_token lease)
  | _ => False
  end.

(** A claim comes after the lease ran out. *)
Definition outlives (op : SlotOperation) (lease : ProbeLease) : Prop :=
  match op with ClaimProbe _ now _ => pl_expires_at_ms lease <= now | _ => False end.

Lemma lease_match_token slot account lease :
  sl_probe_lease slot = Some lease -> probeLeaseMatchesCodexRoutingAccount slot account = true ->
  ac_probeToken account = Some (pl_token lease).
Proof.
  unfold probeLeaseMatchesCodexRoutingAccount. intros ->. destruct (ac_probeGeneration account); [|done].
  rewrite !andb_true_iff. intros [[[_ H%bool_decide_eq_true] _] _]. done.
Qed.

(** A write to one slot, seen at another. *)
Lemma kept_elsewhere s j i slot new t (P : CodexRoutingSlot -> Prop) :
  rs_slots s !! i = Some slot -> P slot -> (j = i -> P new) ->
  exists slot', rs_slots (withSlot s j new t) !! i = Some slot' /\ P slot'.
Proof.
  intros Hi Hp Hnew. destruct (decide (j = i)) as [->|Hne].
  - exists new. split; [|auto]. unfold withSlot. cbn. apply list_lookup_insert_eq.
    apply lookup_lt_Some in Hi. rewrite length_app, length_replicate. lia.
  - exists slot. rewrite withSlot_other by (done || by eapply lookup_lt_Some). done.
Qed.

Lemma slotFor_lookup s a slot : rs_slots s !! ac_slot a = Some slot -> slotFor s a = slot.
Proof. unfold slotFor. by intros ->. Qed.

(** Only the holder gets past the fence of a slot with a lease. *)
Lemma probe_fence s a slot lease :
  rs_slots s !! ac_slot a = Some slot -> sl_probe_lease slot = Some lease ->
  negb (slotMatchesCodexRoutingAccount (slotFor s a) a) || negb (probeLeaseMatchesCodexRoutingAccount (slotFor s a) a) = false ->
  ac_probeToken a = Some (pl_token lease).
Proof.
  intros Hs Hl [_ E%negb_false_iff]%orb_false_iff. rewrite (slotFor_lookup _ _ _ Hs) in E. by eapply lease_match_token.
Qed.

Lemma observed_keeps_lease current cleared o clear :
  (clear = false -> cleared = current) -> is_Some (sl_probe_lease current) ->
  sl_probe_lease (capacityObservedSlot current cleared o clear) = sl_probe_lease current.
Proof.
  intros Hc [l Hl]. unfold capacityObservedSlot. destruct clear; cbn; [|by rewrite Hc].
  rewrite Hl, orb_true_r. cbn. done.
Qed.

Section lease_kept.
Context (s : CodexAccountRoutingState) (i : nat) (slot : CodexRoutingSlot) (lease : ProbeLease).
Context (Hi : rs_slots s !! i = Some slot) (Hl : sl_probe_lease slot = Some lease).

Definition kept (s' : CodexAccountRoutingState) : Prop :=
  exists slot', rs_slots s' !! i = Some slot' /\ sl_probe_lease slot' = Some lease.

Lemma kept_write j new t : (j = i -> sl_probe_lease new = Some lease) -> kept (withSlot s j new t).
Proof using Hi Hl.
  intros H. by apply (kept_elsewhere s j i slot new t (fun x => sl_probe_lease x = Some lease)).
Qed.

Lemma claim_kept a now token t s' : slot_operation (ClaimProbe a now token) t s = Some s' ->
  pl_expires_at_ms lease <= now \/ kept s'.
Proof using Hi Hl.
  cbn. unfold buildExpiredProbeClaim. destruct (_ || _) eqn:E; [done|]. intros [= <-].
  destruct (decide (pl_expires_at_ms lease <= now)); [by left|right]. apply kept_write. intros <-. exfalso.
  rewrite (slotFor_lookup _ _ _ Hi) in E. unfold lease_expiry in E. rewrite Hl in E. apply orb_false_iff in E as [_ E]. lia.
Qed.

Lemma observe_kept a parsed now rec t s' : slot_operation (Observe429 a parsed now rec) t s = Some s' ->
  ac_probeToken a = Some (pl_token lease) \/ kept s'.
Proof using Hi Hl.
  cbn. unfold quotaBlockTransition. destruct (quotaBlockedSlot s a parsed now rec) as [new|] eqn:E; [|done]. intros [= <-].
  destruct (decide (ac_probeToken a = Some (pl_token lease))); [by left|right]. apply kept_write. intros <-.
  apply quotaBlockedSlot_inv in E as (r & src & _ & _ & _ & -> & Hf). rewrite (slotFor_lookup _ _ _ Hi) in *.
  destruct (ac_probeGeneration a); [by eapply lease_match_token in Hf|].
  destruct Hf as [?|Hf]; [congruence|]. cbn. by rewrite Hf.
Qed.

Lemma holder_kept a new t :
  negb (slotMatchesCodexRoutingAccount (slotFor s a) a) || negb (probeLeaseMatchesCodexRoutingAccount (slotFor s a) a) = false ->
  ac_probeToken a = Some (pl_token lease) \/ kept (withSlot s (ac_slot a) new t).
Proof using Hi Hl.
  intros E. destruct (decide (ac_slot a = i)) as [<-|Hne]; [left; by eapply probe_fence|right]. by apply kept_write.
Qed.

Lemma release_kept a t s' : releaseNonBlockingQuotaProbe s a t = Some s' \/ releaseCodexRoutingProbe s a t = Some s'
    \/ markCodexSuccess s a t = Some s' ->
  ac_probeToken a = Some (pl_token lease) \/ kept s'.
Proof using Hi Hl.
  intros [H|[H|H]].
  - unfold releaseNonBlockingQuotaProbe, nonBlockingQuotaProbeSlot in H.
    destruct (ac_probeGeneration a), (ac_probeToken a) as [tok|] eqn:Et; try done. destruct (empty tok); [done|].
    destruct (_ || _) eqn:E in H; [done|]. injection H as <-. rewrite <- Et. by apply holder_kept.
  - unfold releaseCodexRoutingProbe in H. destruct (_ || _) eqn:E in H; [done|]. injection H as <-. by apply holder_kept.
  - unfold markCodexSuccess in H. destruct (_ || _) eqn:E in H; [done|]. injection H as <-. by apply holder_kept.
Qed.

Lemma timeout_kept a now t s' : markCodexUpstreamTimeout s a now t = Some s' ->
  ac_probeToken a = Some (pl_token lease) \/ kept s'.
Proof using Hi Hl.
  unfold markCodexUpstreamTimeout. destruct (slotMatchesCodexRoutingAccount _ _) eqn:Em; [|done]. cbn [negb].
  destruct (decide (ac_slot a = i)) as [<-|Hne].
  - rewrite (slotFor_lookup _ _ _ Hi) in *. unfold has_lease. rewrite Hl. destruct (ac_probeGeneration a); [|done].
    destruct (probeLeaseMatchesCodexRoutingAccount slot a) eqn:E; [|done]. intros _. left. by eapply lease_match_token.
  - match goal with |- (if ?b then None else _) = _ -> _ => destruct b; [done|] end. intros [= <-]. right. by apply kept_write.
Qed.

Lemma capacity_block_kept a o now t s' : applyCapacityQuotaBlock s a o now t = Some s' -> kept s'.
Proof using Hi Hl.
  unfold applyCapacityQuotaBlock. destruct (negb (capacityObservationIsFresh o now)); [done|].
  destruct (_ || _); [done|]. destruct (negb (exhausted _)); [done|].
  destruct (ws_primary (ob_windows o) ≫= cw_reset_at_ms) as [r|]; [|done]. cbn. destruct (_ || _); [done|].
  destruct (negb (slotMatchesCodexRoutingAccount _ _) || _) eqn:E; [done|].
  do 2 (match goal with |- (if ?b then None else _) = _ -> _ => destruct b; [done|] end). intros [= <-]. unfold kept. cbn.
  destruct (decide (ac_slot a = i)) as [<-|Hne].
  - exfalso. rewrite (slotFor_lookup _ _ _ Hi), Hl in E. by rewrite orb_true_r in E.
  - exists slot. by rewrite list_lookup_insert_ne.
Qed.

Lemma capacity_sample_kept o now model t s' : applyCapacityObservation s o now model t = Some s' -> kept s'.
Proof using Hi Hl.
  unfold applyCapacityObservation. destruct (_ <? _); [done|]. destruct (rs_slots s !! ob_slot o) as [current|] eqn:Ec; [|done].
  cbn. destruct (negb _); [done|]. match goal with |- (if ?b then None else _) = _ -> _ => destruct b; [done|] end.
  match goal with |- (if ?b then _ else _) = _ -> _ => destruct b end; [|done]. intros [= <-]. apply kept_write. intros <-.
  assert (current = slot) as -> by congruence. rewrite observed_keeps_lease; [done| |by rewrite Hl]. by intros ->.
Qed.
End lease_kept.

Lemma claim_matches s a now token t s' granted :
  buildExpiredProbeClaim s a now token t = Some (s', granted) ->
  lease_expiry (slotFor s a) <= now /\ pl_expires_at_ms granted = now + CODEX_HALF_OPEN_LEASE_MS
  /\ sl_probe_lease (slotFor s' a) = Some granted
  /\ probeLeaseMatchesCodexRoutingAccount (slotFor s' a)
       (a <| ac_probeGeneration := Some (pl_generation granted) |> <| ac_probeToken := Some token |>) = true.
Proof.
  unfold buildExpiredProbeClaim. destruct (_ || _) eqn:E; [done|]. intros [= <- <-]. rewrite slotFor_withSlot.
  apply orb_false_iff in E as [_ E]. split_and!; [lia|done|done|].
  unfold probeLeaseMatchesCodexRoutingAccount. cbn. rewrite !Z.eqb_refl. cbn. rewrite !bool_decide_true by done. cbn.
  destruct (routingProbeCircuit a) eqn:Ec; unfold routingProbeCircuit in *; cbn; rewrite Ec; [by rewrite bool_decide_true|done].
Qed.

(** C32: half-open probes exclude each other.  While a slot's probe lease has
    not run out, nothing ordinary traffic or the sampler does in that slot or
    another removes or replaces it, unless the request holds the lease's token;
    in particular no second probe is claimed.  A claim is granted only when no
    lease is running, lasts one half-open interval, and is matched by its own
    account, whose success or failure can then close it. *)
Theorem codex_probe_exclusive s i slot lease :
  rs_slots s !! i = Some slot -> sl_probe_lease slot = Some lease ->
  (forall op t s', slot_operation op t s = Some s' -> holds op lease \/ outlives op lease
     \/ exists slot', rs_slots s' !! i = Some slot' /\ sl_probe_lease slot' = Some lease)
  /\ (forall a now token t s' granted, buildExpiredProbeClaim s a now token t = Some (s', granted) ->
        lease_expiry (slotFor s a) <= now /\ pl_expires_at_ms granted = now + CODEX_HALF_OPEN_LEASE_MS
        /\ sl_probe_lease (slotFor s' a) = Some granted
        /\ probeLeaseMatchesCodexRoutingAccount (slotFor s' a)
             (a <| ac_probeGeneration := Some (pl_generation granted) |> <| ac_probeToken := Some token |>) = true).
Proof.
  intros Hi Hl. split; [|by apply claim_matches]. intros op t s' H.
  destruct op as [a now token|a parsed now rec|a|a|a|a now|a o now|o now model]; cbn [slot_operation holds outlives] in *.
  - destruct (claim_kept s i slot lease Hi Hl a now token t s' H); auto.
  - destruct (observe_kept s i slot lease Hi Hl a parsed now rec t s' H); auto.
  - destruct (release_kept s i slot lease Hi Hl a t s'); auto.
  - destruct (release_kept s i slot lease Hi Hl a t s'); auto.
  - destruct (release_kept s i slot lease Hi Hl a t s'); auto.
  - destruct (timeout_kept s i slot lease Hi Hl a now t s'); auto.
  - right. right. by eapply capacity_block_kept.
  - right. right. by eapply capacity_sample_kept.
Qed.

(** ** Examples *)

Definition sample_account (token : option string) : CodexRoutingAccount :=
  mkAccount 0 "a" "v" None false None token None false (Some 4) None None None (Some "gpt-5").

Definition sample_fence : CodexQuotaClassBlock := mkBlock 5000 BodyResetsAt false None (Some 5000) true true false.

Definition sample_slot (lease : option ProbeLease) : CodexRoutingSlot :=
  neutralSlot "v" (Some "a") <| sl_quota_blocks_by_class := [(Spark, sample_fence)] |>
    <| sl_generation := 4 |> <| sl_probe_lease := lease |>.

Definition sample_state (lease : option ProbeLease) : CodexAccountRoutingState := mkRouting 1 false [sample_slot lease].

(** A standard request is refused until 9000 while spark stays fenced until 5000. *)
Lemma codex_quota_block_sound_witness :
  let s := sample_state None in
  let a := sample_account None in
  let parsed := mk429 true (Some 9000) (Some BodyResetsAt) true false None None in
  exists slot, quotaBlockedSlot s a parsed 1000 false = Some slot
    /\ quotaBlockForClass slot Spark = Some sample_fence
    /\ class_deadline slot Standard = 9000 /\ sl_generation slot = 5.
Proof.
  intros s a parsed. destruct (quotaBlockedSlot s a parsed 1000 false) as [slot|] eqn:E; [|vm_compute in E; discriminate].
  destruct (codex_quota_block_sound _ _ _ _ _ _ E) as (_ & Hother & _). exists slot. split; [reflexivity|].
  split; [rewrite Hother; [reflexivity|discriminate|discriminate]|].
  vm_compute in E. injection E as <-. split; reflexivity.
Defined.

(** Another request's 429 leaves the running probe of its class alone. *)
Lemma codex_probe_exclusive_witness :
  let lease := mkLease "token" 60000 4 QuotaCircuit (Some Spark) in
  let s := sample_state (Some lease) in
  let op := Observe429 (sample_account None) (mk429 true (Some 9000) (Some BodyResetsAt) true false None None) 1000 false in
  exists s', slot_operation op 1000 s = Some s'
    /\ exists slot', rs_slots s' !! 0%nat = Some slot' /\ sl_probe_lease slot' = Some lease.
Proof.
  intros lease s op. destruct (slot_operation op 1000 s) as [s'|] eqn:E; [|vm_compute in E; discriminate].
  exists s'. split; [reflexivity|].
  destruct (codex_probe_exclusive s 0 (sample_slot (Some lease)) lease eq_refl eq_refl) as [Hkeep _].
  destruct (Hkeep op 1000 s' E) as [H|[H|H]]; [discriminate H|contradiction H|exact H].
Defined.
