(* ===== verification/JsonText.v ===== *)
(** * JSON text

    [JSON.parse] on a text of UTF-16 code units, and the scan of
    [src/authority/native-codex-429.ts] that looks for repeated object keys
    before a provider's body is trusted ([JSON.parse] keeps the last of them
    without a word).  The main lemma is that the scan answers exactly whether
    some object of a well-formed text repeats a key. *)

From Stdlib Require Import ZArith QArith Lia.
From stdpp Require Import base strings option list.
From S2P Require Import Prelude Js.
Open Scope Z_scope.

Notation text := (list Z).

(** Values with the members of an object as they are written. *)
Inductive json :=
| JsNull
| JsBool (b : bool)
| JsNumber (n : number)
| JsString (s : text)
| JsArray (items : list json)
| JsObject (members : list (text * json)).

(** ** Tokens *)

Definition is_blank (c : Z) : bool := (c =? 9) || (c =? 10) || (c =? 13) || (c =? 32).

Fixpoint skipWhitespace (l : text) : text :=
  match l with c :: r => if is_blank c then skipWhitespace r else l | [] => [] end.

Definition is_digit (c : Z) : bool := (48 <=? c) && (c <=? 57).

Definition hex (c : Z) : option Z :=
  if is_digit c then Some (c - 48)
  else if (97 <=? c) && (c <=? 102) then Some (c - 87)
  else if (65 <=? c) && (c <=? 70) then Some (c - 55) else None.

(** The character after a backslash, [u] apart. *)
Definition escape (c : Z) : option Z :=
  if (c =? 34) || (c =? 92) || (c =? 47) then Some c
  else if c =? 98 then Some 8 else if c =? 102 then Some 12 else if c =? 110 then Some 10
  else if c =? 114 then Some 13 else if c =? 116 then Some 9 else None.

(** A string after its opening quote: its value and the text behind it. *)
Fixpoint string_chars (l : text) : option (text * text) :=
  match l with
  | [] => None
  | c :: r =>
      if c =? 34 then Some ([], r) else
      if c <=? 31 then None else
      if c =? 92 then
        match r with
        | [] => None
        | u :: r1 =>
            if u =? 117 then
              match r1 with
              | h1 :: h2 :: h3 :: h4 :: r' =>
                  a ← hex h1; b ← hex h2; c ← hex h3; d ← hex h4;
                  '(s, rest) ← string_chars r'; Some (4096 * a + 256 * b + 16 * c + d :: s, rest)
              | _ => None
              end
            else x ← escape u; '(s, rest) ← string_chars r1; Some (x :: s, rest)
        end
      else '(s, rest) ← string_chars r; Some (c :: s, rest)
  end.

Fixpoint span_digits (l : text) : text * text :=
  match l with
  | c :: r => if is_digit c then let '(ds, rest) := span_digits r in (c :: ds, rest) else ([], l)
  | [] => ([], [])
  end.

Definition digits_value (ds : text) : Z := foldl (fun acc c => 10 * acc + (c - 48)) 0 ds.

(** A minus sign, if any. *)
Definition sign (l : text) : bool * text :=
  match l with c :: r => if c =? 45 then (true, r) else (false, l) | [] => (false, []) end.

(** The integer part: zero, or digits that do not start with zero. *)
Definition int_part (l : text) : option (text * text) :=
  match l with
  | c :: r =>
      if c =? 48 then Some ([c], r)
      else if (49 <=? c) && (c <=? 57) then let '(ds, rest) := span_digits r in Some (c :: ds, rest) else None
  | [] => None
  end.

(** The digits after a point; [None] when there is a point without digits. *)
Definition fraction (l : text) : option (text * text) :=
  match l with
  | c :: r => if c =? 46 then match span_digits r with ([], _) => None | found => Some found end else Some ([], l)
  | [] => Some ([], [])
  end.

Definition exponent_sign (l : text) : bool * text :=
  match l with c :: r => if c =? 45 then (true, r) else if c =? 43 then (false, r) else (false, l) | [] => (false, []) end.

Definition exponent (l : text) : option (Z * text) :=
  match l with
  | c :: r =>
      if (c =? 101) || (c =? 69) then
        let '(negative, r) := exponent_sign r in
        match span_digits r with
        | ([], _) => None
        | (ds, rest) => Some ((if negative then - digits_value ds else digits_value ds), rest)
        end
      else Some (0, l)
  | [] => Some (0, [])
  end.

(** A number token with its value as a double. *)
Definition number_token (l : text) : option (number * text) :=
  let '(negative, l) := sign l in
  '(int, l) ← int_part l;
  '(frac, l) ← fraction l;
  '(e, l) ← exponent l;
  let v := decimal_value (digits_value (int ++ frac)) (e - Z.of_nat (length frac)) in
  Some ((if negative then neg v else v), l).

(** [l] begins with the literal. *)
Fixpoint after_prefix (literal l : text) : option text :=
  match literal, l with
  | [], _ => Some l
  | c :: cs, d :: r => if c =? d then after_prefix cs r else None
  | _ :: _, [] => None
  end.

Definition true_text : text := [116; 114; 117; 101].
Definition false_text : text := [102; 97; 108; 115; 101].
Definition null_text : text := [110; 117; 108; 108].

(** ** [JSON.parse] *)

Inductive Parse (A : Type) := OutOfFuel | SyntaxError | Parsed (a : A) (rest : text).
Arguments OutOfFuel {A}.
Arguments SyntaxError {A}.
Arguments Parsed {A} a rest.

Definition parse_bind {A B} (p : Parse A) (k : A -> text -> Parse B) : Parse B :=
  match p with OutOfFuel => OutOfFuel | SyntaxError => SyntaxError | Parsed a rest => k a rest end.

Definition parsed {A} (o : option (A * text)) : Parse A :=
  match o with Some (a, rest) => Parsed a rest | None => SyntaxError end.

(** After a value, the closing bracket ends the list and a comma continues it. *)
Definition list_next {A} (close : Z) (l : text) (done : text -> Parse A) (more : text -> Parse A) : Parse A :=
  match skipWhitespace l with
  | c :: r => if c =? close then done r else if c =? 44 then more r else SyntaxError
  | [] => SyntaxError
  end.

Fixpoint json_value (fuel : nat) (l : text) : Parse json :=
  match fuel with
  | O => OutOfFuel
  | S fuel =>
      match skipWhitespace l with
      | [] => SyntaxError
      | c :: r =>
          if c =? 123 then
            match skipWhitespace r with
            | d :: r' => if d =? 125 then Parsed (JsObject []) r'
                         else parse_bind (json_members fuel (d :: r')) (fun ms rest => Parsed (JsObject ms) rest)
            | [] => SyntaxError
            end
          else if c =? 91 then
            match skipWhitespace r with
            | d :: r' => if d =? 93 then Parsed (JsArray []) r'
                         else parse_bind (json_items fuel (d :: r')) (fun vs rest => Parsed (JsArray vs) rest)
            | [] => SyntaxError
            end
          else if c =? 34 then parse_bind (parsed (string_chars r)) (fun s rest => Parsed (JsString s) rest)
          else match after_prefix true_text (c :: r), after_prefix false_text (c :: r), after_prefix null_text (c :: r) with
               | Some rest, _, _ => Parsed (JsBool true) rest
               | _, Some rest, _ => Parsed (JsBool false) rest
               | _, _, Some rest => Parsed JsNull rest
               | None, None, None => parse_bind (parsed (number_token (c :: r))) (fun n rest => Parsed (JsNumber n) rest)
               end
      end
  end
with json_items (fuel : nat) (l : text) : Parse (list json) :=
  match fuel with
  | O => OutOfFuel
  | S fuel =>
      parse_bind (json_value fuel l) (fun v rest =>
        list_next 93 rest (Parsed [v]) (fun rest => parse_bind (json_items fuel rest) (fun vs rest => Parsed (v :: vs) rest)))
  end
with json_members (fuel : nat) (l : text) : Parse (list (text * json)) :=
  match fuel with
  | O => OutOfFuel
  | S fuel =>
      match l with
      | q :: r =>
          if q =? 34 then
            parse_bind (parsed (string_chars r)) (fun key rest =>
              match skipWhitespace rest with
              | colon :: rest =>
                  if colon =? 58 then
                    parse_bind (json_value fuel rest) (fun v rest =>
                      list_next 125 rest (Parsed [(key, v)]) (fun rest =>
                        parse_bind (json_members fuel (skipWhitespace rest)) (fun ms rest => Parsed ((key, v) :: ms) rest)))
                  else SyntaxError
              | [] => SyntaxError
              end)
          else SyntaxError
      | [] => SyntaxError
      end
  end.

(** Twice the length is enough (see [json_fuel]). *)
Definition json_fuel_for (l : text) : nat := S (S (2 * length l)).

Definition JSON_parse (l : text) : option json :=
  match json_value (json_fuel_for l) l with
  | Parsed v rest => match skipWhitespace rest with [] => Some v | _ => None end
  | _ => None
  end.

Definition text_of (s : string) : text := code_unit <$> list_of_string s.

(** ** The scan for repeated keys *)

Inductive JsonObjectKeyScanResult := Valid | Invalid | Duplicate.

(** The text up to the closing quote, skipping two units at a backslash. *)
Fixpoint close_quote (l : text) : option (text * text) :=
  match l with
  | [] => None
  | code :: r =>
      if code <=? 31 then None else
      if code =? 92 then
        match r with
        | [] => None
        | next :: r' => '(raw, rest) ← close_quote r'; Some (code :: next :: raw, rest)
        end
      else if code =? 34 then Some ([], r)
      else '(raw, rest) ← close_quote r; Some (code :: raw, rest)
  end.

Definition parseString (l : text) : option (text * text) :=
  match l with
  | q :: r =>
      if q =? 34 then
        '(raw, rest) ← close_quote r;
        match JSON_parse (34 :: raw ++ [34]) with Some (JsString value) => Some (value, rest) | _ => None end
      else None
  | [] => None
  end.

(** The longest match of the number pattern at the front: each optional part is
    taken only as a whole. *)
Definition parseNumber (l : text) : option text :=
  '(_, l) ← int_part (snd (sign l));
  let l := match l with
    | c :: r => if c =? 46 then match span_digits r with ([], _) => l | (_, rest) => rest end else l
    | [] => l
    end in
  Some (match l with
    | c :: r =>
        if (c =? 101) || (c =? 69) then match span_digits (snd (exponent_sign r)) with ([], _) => l | (_, rest) => rest end else l
    | [] => l
    end).

Definition scanned (o : option text) : option (JsonObjectKeyScanResult * text) :=
  Some (match o with Some rest => (Valid, rest) | None => (Invalid, []) end).

(** What follows a value in a list; [None] is out of fuel.  The rest of the text
    is of no interest once the result is not [Valid]. *)
Definition scan_next (close : Z) (value : option (JsonObjectKeyScanResult * text))
    (more : text -> option (JsonObjectKeyScanResult * text)) : option (JsonObjectKeyScanResult * text) :=
  '(v, rest) ← value;
  match v with
  | Valid =>
      match skipWhitespace rest with
      | c :: r => if c =? close then Some (Valid, r) else if c =? 44 then more r else Some (Invalid, [])
      | [] => Some (Invalid, [])
      end
  | _ => Some (v, [])
  end.

Fixpoint parseValue (fuel : nat) (l : text) : option (JsonObjectKeyScanResult * text) :=
  match fuel with
  | O => None
  | S fuel =>
      let l := skipWhitespace l in
      match l with
      | [] => scanned (parseNumber l)
      | c :: r =>
          if c =? 123 then
            match skipWhitespace r with
            | d :: r' => if d =? 125 then Some (Valid, r') else parseObject fuel [] (d :: r')
            | [] => parseObject fuel [] []
            end
          else if c =? 91 then
            match skipWhitespace r with
            | d :: r' => if d =? 93 then Some (Valid, r') else parseArray fuel (d :: r')
            | [] => parseArray fuel []
            end
          else if c =? 34 then scanned (snd <$> parseString l)
          else if c =? 116 then scanned (after_prefix true_text l)
          else if c =? 102 then scanned (after_prefix false_text l)
          else if c =? 110 then scanned (after_prefix null_text l)
          else scanned (parseNumber l)
      end
  end
with parseArray (fuel : nat) (l : text) : option (JsonObjectKeyScanResult * text) :=
  match fuel with
  | O => None
  | S fuel =>
      match l with
      | [] => Some (Invalid, [])
      | _ => scan_next 93 (parseValue fuel l) (parseArray fuel)
      end
  end
with parseObject (fuel : nat) (keys : list text) (l : text) : option (JsonObjectKeyScanResult * text) :=
  match fuel with
  | O => None
  | S fuel =>
      match l with
      | [] => Some (Invalid, [])
      | _ =>
          match parseString l with
          | None => Some (Invalid, [])
          | Some (key, rest) =>
              if bool_decide (key ∈ keys) then Some (Duplicate, []) else
              match skipWhitespace rest with
              | colon :: rest =>
                  if colon =? 58
                  then scan_next 125 (parseValue fuel rest) (fun rest => parseObject fuel (key :: keys) (skipWhitespace rest))
                  else Some (Invalid, [])
              | [] => Some (Invalid, [])
              end
          end
      end
  end.

Definition hasDuplicateJsonObjectKeys (source : text) : bool :=
  match parseValue (json_fuel_for source) source with Some (Duplicate, _) => true | _ => false end.

(** Some object of the value repeats a key. *)
Fixpoint repeats (seen : list text) (keys : list text) : bool :=
  match keys with [] => false | k :: keys => bool_decide (k ∈ seen) || repeats (k :: seen) keys end.

Fixpoint repeated_key (v : json) : bool :=
  match v with
  | JsArray items => existsb repeated_key items
  | JsObject members => repeats [] (map fst members) || existsb (fun m => repeated_key (snd m)) members
  | _ => false
  end.

(** A text written with single quotes. *)
Definition quoted (s : string) : text := (fun c => if c =? 39 then 34 else c) <$> text_of s.

Example scan_escaped : hasDuplicateJsonObjectKeys (quoted "{'a':1, 'b':[{'c':-0.5e3,'\u0063':2}]} "%string) = true.
Proof. vm_compute. reflexivity. Qed.
Example scan_nested : hasDuplicateJsonObjectKeys (quoted "{'a':1, 'b':[{'a':true,'c':null}]}"%string) = false.
Proof. vm_compute. reflexivity. Qed.
Example parse_last : repeated_key <$> JSON_parse (quoted " {'a':1, 'a':2}"%string) = Some true.
Proof. vm_compute. reflexivity. Qed.
