(* ===== verification/JsonScan.v ===== *)
(** * The scan for repeated keys is exact

    [hasDuplicateJsonObjectKeys] answers exactly whether some object of a
    well-formed text repeats a key, keys compared after their escapes; both
    recursions end within their fuel on every text. *)

From Stdlib Require Import ZArith QArith Lia.
From stdpp Require Import base strings option list.
From S2P Require Import Prelude Js JsonText.
Open Scope Z_scope.

(** ** Strings *)

Lemma hex_range c v : hex c = Some v -> 48 <= c <= 102 /\ c <> 92.
Proof. unfold hex, is_digit. repeat case_match; try done; intros [= <-]; lia. Qed.

Lemma close_plain c r :
  (c <=? 31) = false -> c <> 92 -> c <> 34 ->
  close_quote (c :: r) = ('(raw, rest) ← close_quote r; Some (c :: raw, rest)).
Proof. intros H1 H2 H3. cbn. by rewrite H1, (proj2 (Z.eqb_neq c 92) H2), (proj2 (Z.eqb_neq c 34) H3). Qed.

Lemma close_escape u r : close_quote (92 :: u :: r) = ('(raw, rest) ← close_quote r; Some (92 :: u :: raw, rest)).
Proof. done. Qed.

(** The two passes over a string agree with the one of [JSON.parse]. *)
Lemma chars_close r v rest :
  string_chars r = Some (v, rest) ->
  exists raw, close_quote r = Some (raw, rest) /\ string_chars (raw ++ [34]) = Some (v, []).
Proof.
  remember (length r) as n eqn:Hn. revert r v rest Hn. induction n as [n IH] using lt_wf_ind. intros r v rest -> H.
  destruct r as [|c r]; [done|]. cbn [string_chars] in H.
  destruct (c =? 34) eqn:E34.
  { injection H as <- <-. exists []. apply Z.eqb_eq in E34 as ->. done. }
  destruct (c <=? 31) eqn:E31; [done|]. apply Z.eqb_neq in E34.
  destruct (c =? 92) eqn:E92.
  - apply Z.eqb_eq in E92 as ->. destruct r as [|u r1]; [done|]. destruct (u =? 117) eqn:Eu.
    + apply Z.eqb_eq in Eu as ->. destruct r1 as [|h1 [|h2 [|h3 [|h4 r']]]]; try done.
      destruct (hex h1) as [a|] eqn:E1; [|done]. destruct (hex h2) as [b|] eqn:E2; [|done].
      destruct (hex h3) as [x|] eqn:E3; [|done]. destruct (hex h4) as [y|] eqn:E4; [|done]. cbn in H.
      destruct (string_chars r') as [[s rest']|] eqn:Es; [|done]. injection H as <- <-.
      destruct (IH (length r')) with (r := r') (v := s) (rest := rest') as (raw & Hc & Hs); [cbn; lia|done|done|].
      exists (92 :: 117 :: h1 :: h2 :: h3 :: h4 :: raw). split.
      * apply hex_range in E1, E2, E3, E4. rewrite close_escape, !close_plain by lia. by rewrite Hc.
      * cbn. by rewrite E1, E2, E3, E4, Hs.
    + destruct (escape u) as [x|] eqn:Ee; [|done]. cbn in H. destruct (string_chars r1) as [[s rest']|] eqn:Es; [|done].
      injection H as <- <-.
      destruct (IH (length r1)) with (r := r1) (v := s) (rest := rest') as (raw & Hc & Hs); [cbn; lia|done|done|].
      exists (92 :: u :: raw). cbn. rewrite Hc. split; [done|]. rewrite Eu, Ee, Hs. done.
  - apply Z.eqb_neq in E92. destruct (string_chars r) as [[s rest']|] eqn:Es; [|done]. injection H as <- <-.
    destruct (IH (length r)) with (r := r) (v := s) (rest := rest') as (raw & Hc & Hs); [cbn; lia|done|done|].
    exists (c :: raw). rewrite close_plain, Hc by done. split; [done|]. cbn.
    rewrite (proj2 (Z.eqb_neq c 34)), (proj2 (Z.eqb_neq c 92)), E31, Hs by done. done.
Qed.

Lemma parseString_chars r v rest : string_chars r = Some (v, rest) -> parseString (34 :: r) = Some (v, rest).
Proof.
  intros (raw & Hc & Hs)%chars_close. unfold parseString. cbn [Z.eqb Pos.eqb]. rewrite Hc. cbn [mbind option_bind].
  unfold JSON_parse, json_fuel_for. cbn -[string_chars]. by rewrite Hs.
Qed.

(** ** Numbers and literals *)

Lemma parseNumber_token l n rest : number_token l = Some (n, rest) -> parseNumber l = Some rest.
Proof.
  unfold number_token, parseNumber. destruct (sign l) as [negative l1]. cbn [snd].
  destruct (int_part l1) as [[int l2]|]; [|done]. cbn.
  destruct (fraction l2) as [[frac l3]|] eqn:Ef; [|done]. cbn. destruct (exponent l3) as [[e l4]|] eqn:Ee; [|done]. cbn.
  intros [= _ <-]. unfold fraction in Ef. f_equal.
  assert (match l2 with
    | c :: r => if c =? 46 then match span_digits r with ([], _) => l2 | (_, rest) => rest end else l2
    | [] => l2 end = l3) as ->.
  { destruct l2 as [|c r]; [by injection Ef as <- <-|]. destruct (c =? 46); [|by injection Ef as <- <-].
    destruct (span_digits r) as [[|] ?]; [done|]. by injection Ef as <- <-. }
  unfold exponent in Ee. destruct l3 as [|c r]; [by injection Ee as <- <-|].
  destruct (_ || _); [|by injection Ee as <- <-]. destruct (exponent_sign r) as [ng r']. cbn.
  destruct (span_digits r') as [[|] ?]; [done|]. by injection Ee as <- <-.
Qed.

Lemma number_starts c r x : number_token (c :: r) = Some x -> c = 45 \/ 48 <= c <= 57.
Proof.
  unfold number_token, sign. destruct (c =? 45) eqn:E; [lia|]. cbn. destruct (c =? 48) eqn:E0; [lia|].
  destruct ((49 <=? c) && (c <=? 57)) eqn:E1; [lia|done].
Qed.

Lemma after_prefix_head c cs d r rest : after_prefix (c :: cs) (d :: r) = Some rest -> d = c.
Proof. cbn. destruct (c =? d) eqn:E; [lia|done]. Qed.

(** ** Lockstep *)

Definition agrees (duplicate : bool) (rest : text) (o : option (JsonObjectKeyScanResult * text)) : Prop :=
  if duplicate then exists x, o = Some (Duplicate, x) else o = Some (Valid, rest).

Lemma parse_bind_parsed {A B} (p : Parse A) (k : A -> text -> Parse B) b rest :
  parse_bind p k = Parsed b rest -> exists a rest', p = Parsed a rest' /\ k a rest' = Parsed b rest.
Proof. destruct p as [| |a rest']; [done|done|]. cbn. eauto. Qed.

Lemma parsed_some {A} (o : option (A * text)) a rest : parsed o = Parsed a rest -> o = Some (a, rest).
Proof. destruct o as [[]|]; [|done]. by intros [= -> ->]. Qed.

(** A value and what follows it in a list. *)
Lemma next_agrees {A} close rest1 (finish more : text -> Parse A) x rest dv value scan_more d :
  list_next close rest1 finish more = Parsed x rest ->
  agrees dv rest1 value ->
  (forall r, finish r = Parsed x rest -> rest = r /\ d = dv) ->
  (forall r, more r = Parsed x rest -> exists d', agrees d' rest (scan_more r) /\ d = dv || d') ->
  agrees d rest (scan_next close value scan_more).
Proof.
  intros Hn Hv Hf Hm. unfold list_next in Hn. unfold agrees in Hv. destruct dv.
  - destruct Hv as [y ->]. unfold scan_next. cbn.
    assert (d = true) as ->; [|by eexists]. destruct (skipWhitespace rest1) as [|c r]; [done|].
    destruct (c =? close); [by destruct (Hf _ Hn)|]. destruct (c =? 44); [|done]. destruct (Hm _ Hn) as (d' & _ & ->). done.
  - subst value. unfold scan_next. cbn. destruct (skipWhitespace rest1) as [|c r]; [done|].
    destruct (c =? close). { by destruct (Hf _ Hn) as [-> ->]. }
    destruct (c =? 44); [|done]. destruct (Hm _ Hn) as (d' & H & ->). done.
Qed.

Definition value_agrees (fuel : nat) : Prop :=
  forall l v rest, json_value fuel l = Parsed v rest -> agrees (repeated_key v) rest (parseValue fuel l).
Definition items_agree (fuel : nat) : Prop :=
  forall l vs rest, json_items fuel l = Parsed vs rest -> agrees (existsb repeated_key vs) rest (parseArray fuel l).
Definition members_agree (fuel : nat) : Prop :=
  forall keys l ms rest, json_members fuel l = Parsed ms rest ->
    agrees (repeats keys (map fst ms) || existsb (fun m => repeated_key (snd m)) ms) rest (parseObject fuel keys l).

Lemma value_lockstep fuel : items_agree fuel -> members_agree fuel -> value_agrees (S fuel).
Proof.
  intros Hi Hm l v rest H. cbn [json_value parseValue] in *. cbv zeta. destruct (skipWhitespace l) as [|c r]; [done|].
  destruct (c =? 123) eqn:E1.
  { destruct (skipWhitespace r) as [|d r']; [done|]. destruct (d =? 125); [by injection H as <- <-|].
    apply parse_bind_parsed in H as (ms & rest' & H & [= <- <-]). by apply (Hm []) in H. }
  destruct (c =? 91) eqn:E2.
  { destruct (skipWhitespace r) as [|d r']; [done|]. destruct (d =? 93); [by injection H as <- <-|].
    apply parse_bind_parsed in H as (vs & rest' & H & [= <- <-]). by apply Hi in H. }
  destruct (c =? 34) eqn:E3.
  { apply parse_bind_parsed in H as (s & rest' & H%parsed_some & [= <- <-]). apply Z.eqb_eq in E3 as ->.
    by rewrite (parseString_chars _ _ _ H). }
  destruct (after_prefix true_text (c :: r)) as [x|] eqn:Et.
  { injection H as <- <-. pose proof (after_prefix_head _ _ _ _ _ Et) as ->. done. }
  destruct (after_prefix false_text (c :: r)) as [x|] eqn:Ef.
  { injection H as <- <-. pose proof (after_prefix_head _ _ _ _ _ Ef) as ->. done. }
  destruct (after_prefix null_text (c :: r)) as [x|] eqn:En.
  { injection H as <- <-. pose proof (after_prefix_head _ _ _ _ _ En) as ->. done. }
  apply parse_bind_parsed in H as (n & rest' & H%parsed_some & [= <- <-]). pose proof (number_starts _ _ _ H).
  rewrite (proj2 (Z.eqb_neq c 116)), (proj2 (Z.eqb_neq c 102)), (proj2 (Z.eqb_neq c 110)) by lia.
  by rewrite (parseNumber_token _ _ _ H).
Qed.

Lemma items_lockstep fuel : value_agrees fuel -> items_agree fuel -> items_agree (S fuel).
Proof.
  intros Hv Hi l vs rest H. cbn [json_items] in H. apply parse_bind_parsed in H as (v & rest1 & Ev & H).
  assert (exists c r, l = c :: r) as (c & r & ->).
  { destruct l as [|c r]; [|by exists c, r]. by destruct fuel. }
  cbn [parseArray]. pose proof (Hv _ _ _ Ev) as Ha.
  eapply next_agrees; [exact H|exact Ha| |].
  - intros r' [= <- <-]. cbn. by rewrite orb_false_r.
  - intros r' (vs' & rest' & Hr & [= <- <-])%parse_bind_parsed. exists (existsb repeated_key vs'). by split; [apply Hi|].
Qed.

Lemma members_lockstep fuel : value_agrees fuel -> members_agree fuel -> members_agree (S fuel).
Proof.
  intros Hv Hm keys l ms rest H. cbn [json_members] in H. destruct l as [|q r]; [done|]. destruct (q =? 34) eqn:Eq; [|done].
  apply Z.eqb_eq in Eq as ->. apply parse_bind_parsed in H as (key & rest1 & Hk%parsed_some & H).
  cbn [parseObject]. rewrite (parseString_chars _ _ _ Hk). destruct (skipWhitespace rest1) as [|colon rest2]; [done|].
  destruct (colon =? 58); [|done]. apply parse_bind_parsed in H as (v & rest3 & Ev & H). pose proof (Hv _ _ _ Ev) as Ha.
  assert (exists ms', ms = (key, v) :: ms') as [ms' ->].
  { unfold list_next in H. destruct (skipWhitespace rest3) as [|c r']; [done|].
    destruct (c =? 125); [injection H as <- <-; by exists []|]. destruct (c =? 44); [|done].
    apply parse_bind_parsed in H as (ms' & ? & _ & [= <- _]). by exists ms'. }
  cbn [map fst repeats]. destruct (bool_decide (key ∈ keys)) eqn:Ek; [by eexists|]. cbn [orb].
  eapply next_agrees; [exact H|exact Ha| |].
  - intros r' [= <- <-]. cbn. by rewrite orb_false_r.
  - intros r' (ms2 & rest' & Hr & [= <- <-])%parse_bind_parsed.
    eexists. split; [by apply (Hm (key :: keys))|]. cbn.
    destruct (repeats _ _), (repeated_key v), (existsb _ _); done.
Qed.

Lemma lockstep fuel : value_agrees fuel /\ items_agree fuel /\ members_agree fuel.
Proof.
  induction fuel as [|fuel (Hv & Hi & Hm)]; [by split_and!; intros ?|].
  split_and!; [by apply value_lockstep|by apply items_lockstep|by apply members_lockstep].
Qed.

(** ** Fuel *)

Lemma skip_length l : (length (skipWhitespace l) <= length l)%nat.
Proof. induction l as [|c r IH]; cbn; [lia|]. destruct (is_blank c); cbn; lia. Qed.

Lemma skip_cons_length l c r : skipWhitespace l = c :: r -> (length r < length l)%nat.
Proof. intros E. pose proof (skip_length l) as H. rewrite E in H. cbn in H. lia. Qed.

Lemma chars_length l v rest : string_chars l = Some (v, rest) -> (length rest < length l)%nat.
Proof.
  remember (length l) as n eqn:Hn. revert l v rest Hn. induction n as [n IH] using lt_wf_ind. intros l v rest -> H.
  destruct l as [|c r]; [done|]. cbn [string_chars] in H. cbn [length].
  assert (forall r' s x, (length r' <= length r)%nat -> string_chars r' = Some (s, x) -> (length x < S (length r))%nat) as Hr.
  { intros r' s x Hl Hs. assert (length x < length r')%nat; [|lia]. eapply (IH (length r')); [cbn; lia|done|exact Hs]. }
  destruct (c =? 34); [injection H as <- <-; lia|]. destruct (c <=? 31); [done|]. destruct (c =? 92).
  - destruct r as [|u r1]; [done|]. destruct (u =? 117).
    + destruct r1 as [|h1 [|h2 [|h3 [|h4 r']]]]; try done.
      destruct (hex h1), (hex h2), (hex h3), (hex h4); try done. cbn in H.
      destruct (string_chars r') as [[s x]|] eqn:Es; [|done]. injection H as <- <-. eapply Hr; [|exact Es]. cbn. lia.
    + destruct (escape u); [|done]. cbn in H. destruct (string_chars r1) as [[s x]|] eqn:Es; [|done]. injection H as <- <-.
      eapply Hr; [|exact Es]. cbn. lia.
  - destruct (string_chars r) as [[s x]|] eqn:Es; [|done]. injection H as <- <-. eapply Hr; [|exact Es]. lia.
Qed.

Lemma close_length l raw rest : close_quote l = Some (raw, rest) -> (length rest < length l)%nat.
Proof.
  remember (length l) as n eqn:Hn. revert l raw rest Hn. induction n as [n IH] using lt_wf_ind. intros l raw rest -> H.
  destruct l as [|c r]; [done|]. cbn [close_quote] in H. cbn [length]. destruct (c <=? 31); [done|]. destruct (c =? 92).
  - destruct r as [|d r']; [done|]. destruct (close_quote r') as [[x y]|] eqn:E; [|done]. injection H as <- <-.
    apply (IH (length r')) in E; cbn; lia.
  - destruct (c =? 34); [injection H as <- <-; lia|]. destruct (close_quote r) as [[x y]|] eqn:E; [|done]. injection H as <- <-.
    apply (IH (length r)) in E; cbn; lia.
Qed.

Lemma parseString_length l key rest : parseString l = Some (key, rest) -> (length rest < length l)%nat.
Proof.
  unfold parseString. destruct l as [|q r]; [done|]. destruct (q =? 34); [|done].
  destruct (close_quote r) as [[raw rest']|] eqn:E; [|done]. cbn. apply close_length in E.
  destruct (JSON_parse _) as [[]|]; try done. intros [= <- <-]. lia.
Qed.

Lemma span_length l ds rest : span_digits l = (ds, rest) -> (length rest <= length l)%nat.
Proof.
  revert ds rest. induction l as [|c r IH]; cbn; intros ds rest; [by intros [= <- <-]|].
  destruct (is_digit c); [|intros [= <- <-]; cbn; lia]. destruct (span_digits r) as [x y]. intros [= <- <-].
  specialize (IH x y eq_refl). lia.
Qed.

Lemma int_part_length l ds rest : int_part l = Some (ds, rest) -> (length rest <= length l)%nat.
Proof.
  unfold int_part. destruct l as [|c r]; [done|]. destruct (c =? 48); [intros [= <- <-]; cbn; lia|].
  destruct (_ && _); [|done]. destruct (span_digits r) as [x y] eqn:E. intros [= <- <-]. apply span_length in E. cbn. lia.
Qed.

Lemma sign_length l : (length (snd (sign l)) <= length l)%nat.
Proof. destruct l as [|c r]; cbn; [lia|]. destruct (c =? 45); cbn; lia. Qed.

Lemma exponent_sign_length l : (length (snd (exponent_sign l)) <= length l)%nat.
Proof. destruct l as [|c r]; cbn; [lia|]. destruct (c =? 45), (c =? 43); cbn; lia. Qed.

Lemma parseNumber_length l rest : parseNumber l = Some rest -> (length rest <= length l)%nat.
Proof.
  unfold parseNumber. destruct (int_part _) as [[ds l1]|] eqn:E; [|done]. cbn. apply int_part_length in E.
  pose proof (sign_length l). set (l2 := match l1 with [] => _ | _ :: _ => _ end).
  assert (length l2 <= length l1)%nat as H2.
  { unfold l2. destruct l1 as [|c r]; [done|]. destruct (c =? 46); [|done].
    destruct (span_digits r) as [[|] y] eqn:Es; [done|]. apply span_length in Es. cbn. lia. }
  clearbody l2. intros [= <-]. destruct l2 as [|c r]; [cbn in *; lia|]. destruct (_ || _); [|lia].
  destruct (span_digits _) as [[|] y] eqn:Es; [lia|]. apply span_length in Es. pose proof (exponent_sign_length r). cbn in *. lia.
Qed.

Lemma after_prefix_length p l rest : after_prefix p l = Some rest -> (length rest <= length l)%nat.
Proof.
  revert l. induction p as [|c p IH]; intros [|d r]; cbn; try done; [intros [= <-]; done|intros [= <-]; done|].
  destruct (c =? d); [|done]. intros H%IH. lia.
Qed.

Definition ends (l : text) (o : option (JsonObjectKeyScanResult * text)) : Prop :=
  exists v rest, o = Some (v, rest) /\ (length rest <= length l)%nat.

Lemma scanned_ends l o : (forall rest, o = Some rest -> (length rest <= length l)%nat) -> ends l (scanned o).
Proof. intros H. destruct o as [rest|]; do 2 eexists; (split; [done|]); [by apply H|cbn; lia]. Qed.

Lemma next_ends l l' close value more :
  ends l' value -> (length l' <= length l)%nat ->
  (forall r, (length r < length l')%nat -> ends l (more r)) -> ends l (scan_next close value more).
Proof.
  intros (v & rest & -> & Hr) Hl Hm. unfold scan_next. cbn.
  destruct v; [|by do 2 eexists; split; [done|cbn; lia]..].
  destruct (skipWhitespace rest) as [|c r] eqn:E; [do 2 eexists; split; [done|cbn; lia]|]. apply skip_cons_length in E.
  destruct (c =? close); [do 2 eexists; split; [done|lia]|]. destruct (c =? 44); [apply Hm; lia|].
  do 2 eexists; split; [done|cbn; lia].
Qed.

Lemma ends_weaken l l' o : ends l' o -> (length l' <= length l)%nat -> ends l o.
Proof. intros (v & rest & -> & H) Hl. do 2 eexists. split; [done|lia]. Qed.

(** The scan ends on every text. *)
Lemma scan_ends fuel l :
  ((2 * length l + 1 <= fuel)%nat -> ends l (parseValue fuel l))
  /\ ((2 * length l + 2 <= fuel)%nat -> ends l (parseArray fuel l))
  /\ (forall keys, (2 * length l + 2 <= fuel)%nat -> ends l (parseObject fuel keys l)).
Proof.
  revert l. induction fuel as [|fuel IH]; intros l; [split_and!; lia|].
  assert (forall r, (length r < length l)%nat -> (2 * length l <= fuel)%nat -> ends l (parseArray fuel r)) as Ha.
  { intros r Hr Hf. eapply ends_weaken; [apply IH; lia|lia]. }
  assert (forall keys r, (length r < length l)%nat -> (2 * length l <= fuel)%nat -> ends l (parseObject fuel keys r)) as Ho.
  { intros keys r Hr Hf. eapply ends_weaken; [apply IH; lia|lia]. }
  assert (forall v x, (length x <= length l)%nat -> ends l (Some (v, x))) as Hs by (intros; by do 2 eexists).
  split_and!.
  - intros Hf. cbn [parseValue]. cbv zeta. destruct (skipWhitespace l) as [|c r] eqn:E.
    { apply scanned_ends. intros ? H%parseNumber_length; cbn in H; lia. }
    pose proof (skip_length l) as Hskip. rewrite E in Hskip. cbn in Hskip.
    destruct (c =? 123). { destruct (skipWhitespace r) as [|d r'] eqn:E'; [apply Ho; cbn; lia|].
      apply skip_cons_length in E'. destruct (d =? 125); [apply Hs; lia|]. apply Ho; cbn; lia. }
    destruct (c =? 91). { destruct (skipWhitespace r) as [|d r'] eqn:E'; [apply Ha; cbn; lia|].
      apply skip_cons_length in E'. destruct (d =? 93); [apply Hs; lia|]. apply Ha; cbn; lia. }
    destruct (c =? 34). { apply scanned_ends. intros rest. destruct (parseString _) as [[k x]|] eqn:Ep; [|done].
      intros [= <-]. apply parseString_length in Ep. cbn in Ep. lia. }
    repeat match goal with |- ends _ (if ?b then _ else _) => destruct b end; apply scanned_ends;
      first [intros ? H%after_prefix_length | intros ? H%parseNumber_length]; cbn in H; lia.
  - intros Hf. cbn [parseArray]. destruct l as [|c r] eqn:El; [by apply Hs|]. rewrite <- El in *.
    eapply next_ends; [apply IH; lia|done|]. intros r' Hr. apply Ha; lia.
  - intros keys Hf. cbn [parseObject]. destruct l as [|c r] eqn:El; [by apply Hs|]. rewrite <- El in *.
    destruct (parseString l) as [[key rest]|] eqn:Ep; [|apply Hs; cbn; lia]. apply parseString_length in Ep.
    case_bool_decide; [apply Hs; cbn; lia|]. destruct (skipWhitespace rest) as [|colon rest'] eqn:E; [apply Hs; cbn; lia|].
    apply skip_cons_length in E. destruct (colon =? 58); [|apply Hs; cbn; lia].
    eapply next_ends; [apply IH; lia|lia|]. intros r' Hr. apply Ho; pose proof (skip_length r'); lia.
Qed.

Lemma number_length l n rest : number_token l = Some (n, rest) -> (length rest <= length l)%nat.
Proof. intros H%parseNumber_token. by apply parseNumber_length. Qed.

(** [JSON.parse] ends as well: what looks like a syntax error is one. *)
Definition parses {A} (l : text) (p : Parse A) : Prop :=
  match p with OutOfFuel => False | SyntaxError => True | Parsed _ rest => (length rest <= length l)%nat end.

Lemma parses_bind {A B} l l' (p : Parse A) (k : A -> text -> Parse B) :
  parses l' p -> (forall a rest, (length rest <= length l')%nat -> parses l (k a rest)) -> parses l (parse_bind p k).
Proof. destruct p; cbn; auto; done. Qed.

Lemma parses_next {A} close l rest (finish more : text -> Parse A) :
  (length rest <= length l)%nat -> (forall r, (length r < length l)%nat -> parses l (finish r)) ->
  (forall r, (length r < length l)%nat -> parses l (more r)) -> parses l (list_next close rest finish more).
Proof.
  intros Hl Hf Hm. unfold list_next. destruct (skipWhitespace rest) as [|c r] eqn:E; [done|]. apply skip_cons_length in E.
  destruct (c =? close); [apply Hf; lia|]. destruct (c =? 44); [apply Hm; lia|done].
Qed.

Lemma json_fuel fuel l :
  ((2 * length l + 1 <= fuel)%nat -> parses l (json_value fuel l))
  /\ ((2 * length l + 2 <= fuel)%nat -> parses l (json_items fuel l))
  /\ ((2 * length l + 2 <= fuel)%nat -> parses l (json_members fuel l)).
Proof.
  revert l. induction fuel as [|fuel IH]; intros l; [split_and!; lia|]. split_and!.
  - intros Hf. cbn [json_value]. destruct (skipWhitespace l) as [|c r] eqn:E; [done|]. apply skip_cons_length in E.
    destruct (c =? 123). { destruct (skipWhitespace r) as [|d r'] eqn:E'; [done|]. apply skip_cons_length in E'.
      destruct (d =? 125); [cbn; lia|]. eapply parses_bind; [apply IH; cbn; lia|]. cbn. lia. }
    destruct (c =? 91). { destruct (skipWhitespace r) as [|d r'] eqn:E'; [done|]. apply skip_cons_length in E'.
      destruct (d =? 93); [cbn; lia|]. eapply parses_bind; [apply IH; cbn; lia|]. cbn. lia. }
    destruct (c =? 34). { destruct (string_chars r) as [[s x]|] eqn:Es; [|done]. apply chars_length in Es. cbn. lia. }
    destruct (after_prefix true_text _) as [x|] eqn:Et; [apply after_prefix_length in Et; cbn in *; lia|].
    destruct (after_prefix false_text _) as [x|] eqn:Ef; [apply after_prefix_length in Ef; cbn in *; lia|].
    destruct (after_prefix null_text _) as [x|] eqn:En; [apply after_prefix_length in En; cbn in *; lia|].
    destruct (number_token _) as [[n x]|] eqn:Ex; [apply number_length in Ex; cbn in *; lia|done].
  - intros Hf. cbn [json_items]. eapply parses_bind; [apply IH; lia|]. intros v rest Hr. apply parses_next; [lia|cbn; lia|].
    intros r Hlt. eapply (parses_bind l r); [apply IH; lia|]. cbn. lia.
  - intros Hf. cbn [json_members]. destruct l as [|q r]; [done|]. destruct (q =? 34); [|done].
    destruct (string_chars r) as [[key rest]|] eqn:Es; [|done]. apply chars_length in Es. cbn [parsed parse_bind].
    destruct (skipWhitespace rest) as [|colon rest'] eqn:E; [done|]. apply skip_cons_length in E.
    destruct (colon =? 58); [|done]. eapply (parses_bind _ rest'); [apply IH; cbn in *; lia|].
    intros v rest2 Hr. apply parses_next; [cbn; lia|cbn; lia|]. intros r' Hlt.
    pose proof (skip_length r'). eapply (parses_bind _ (skipWhitespace r')); [apply IH; cbn in *; lia|]. cbn in *. lia.
Qed.

(** The scan answers what [JSON.parse] would have dropped. *)
Lemma scan_exact source v :
  JSON_parse source = Some v -> hasDuplicateJsonObjectKeys source = repeated_key v.
Proof.
  unfold JSON_parse, hasDuplicateJsonObjectKeys. destruct (json_value _ source) as [| |v' rest] eqn:E; [done|done|].
  destruct (skipWhitespace rest); [|done]. intros [= ->]. apply (proj1 (lockstep _)) in E. unfold agrees in E.
  destruct (repeated_key v); [by destruct E as [? ->]|by rewrite E].
Qed.
