(* ===== verification/WebText.v ===== *)
(** * Text on the wire

    [TextEncoder], [TextDecoder] (fatal, and the default one that replaces what
    is malformed) and [String.prototype.trim], on code units and bytes as [Z];
    and that decoding what was encoded gives the text back. *)

From Stdlib Require Import ZArith Lia.
From stdpp Require Import base strings option list.
From S2P Require Import Prelude Js JsonText.
Open Scope Z_scope.

(** ** White space *)

(** The white space and line terminators of the language. *)
Definition white (c : Z) : bool :=
  ((9 <=? c) && (c <=? 13)) || (c =? 32) || (c =? 160) || (c =? 5760) || ((8192 <=? c) && (c <=? 8202))
  || (c =? 8232) || (c =? 8233) || (c =? 8239) || (c =? 8287) || (c =? 12288) || (c =? 65279).
Fixpoint drop_blank (l : text) : text := match l with c :: r => if white c then drop_blank r else l | [] => [] end.
Definition trim_text (l : text) : text := reverse (drop_blank (reverse (drop_blank l))).

(** ** [TextDecoder] for UTF-8, fatal *)

Definition continuation (low high c : Z) : bool := (low <=? c) && (c <=? high).

(** A code point as code units. *)
Definition utf16 (p : Z) : text :=
  if p <? 65536 then [p] else [55296 + (p - 65536) / 1024; 56320 + (p - 65536) mod 1024].

(** The well-formed sequences of the encoding standard; [None] is the
    [TypeError] of a fatal decoder. *)
Fixpoint utf8_units (bytes : list Z) : option text :=
  match bytes with
  | [] => Some []
  | b0 :: r =>
      if b0 <? 128 then units ← utf8_units r; Some (b0 :: units) else
      if b0 <? 194 then None else
      match r with
      | [] => None
      | b1 :: r =>
          if b0 <? 224 then
            if continuation 128 191 b1 then units ← utf8_units r; Some (utf16 ((b0 - 192) * 64 + (b1 - 128)) ++ units)%list else None
          else
          match r with
          | [] => None
          | b2 :: r =>
              if b0 <? 240 then
                if continuation (if b0 =? 224 then 160 else 128) (if b0 =? 237 then 159 else 191) b1 && continuation 128 191 b2
                then units ← utf8_units r;
                     Some (utf16 ((b0 - 224) * 4096 + (b1 - 128) * 64 + (b2 - 128)) ++ units)%list
                else None
              else
              match r with
              | [] => None
              | b3 :: r =>
                  if (b0 <? 245) && continuation (if b0 =? 240 then 144 else 128) (if b0 =? 244 then 143 else 191) b1
                     && continuation 128 191 b2 && continuation 128 191 b3
                  then units ← utf8_units r;
                       Some (utf16 ((b0 - 240) * 262144 + (b1 - 128) * 4096 + (b2 - 128) * 64 + (b3 - 128)) ++ units)%list
                  else None
              end
          end
      end
  end.

(** A byte order mark at the front is not part of the text. *)
Definition utf8_decode (bytes : list Z) : option text :=
  units ← utf8_units bytes;
  Some (match units with c :: r => if c =? 65279 then r else units | [] => [] end).

(** ** The default [TextDecoder] *)

(** The decoder of the encoding standard: the code point so far, the bytes it
    still needs and the range of the next one. *)
Record Decoder := mkDecoder { de_point : Z; de_needed : nat; de_lower : Z; de_upper : Z }.

Definition idle : Decoder := mkDecoder 0 0 128 191.

(** The replacement character. *)
Definition REPLACEMENT : Z := 65533.

(** A byte that starts a sequence. *)
Definition decode_lead (b : Z) : text * Decoder :=
  if b <? 128 then ([b], idle)
  else if (194 <=? b) && (b <=? 223) then ([], mkDecoder (b - 192) 1 128 191)
  else if (224 <=? b) && (b <=? 239)
    then ([], mkDecoder (b - 224) 2 (if b =? 224 then 160 else 128) (if b =? 237 then 159 else 191))
  else if (240 <=? b) && (b <=? 244)
    then ([], mkDecoder (b - 240) 3 (if b =? 240 then 144 else 128) (if b =? 244 then 143 else 191))
  else ([REPLACEMENT], idle).

(** A byte out of range ends the sequence and starts the next one. *)
Definition decode_byte (d : Decoder) (b : Z) : text * Decoder :=
  match de_needed d with
  | O => decode_lead b
  | S needed =>
      if continuation (de_lower d) (de_upper d) b then
        let point := de_point d * 64 + (b - 128) in
        match needed with
        | O => (utf16 point, idle)
        | S _ => ([], mkDecoder point needed 128 191)
        end
      else let '(units, d) := decode_lead b in (REPLACEMENT :: units, d)
  end.

Fixpoint decode_from (d : Decoder) (bytes : list Z) : text :=
  match bytes with
  | [] => match de_needed d with O => [] | S _ => [REPLACEMENT] end
  | b :: r => let '(units, d) := decode_byte d b in units ++ decode_from d r
  end.

Definition TextDecoder_decode (bytes : list Z) : text :=
  match decode_from idle bytes with
  | c :: r => if c =? 65279 then r else c :: r
  | [] => []
  end.

(** ** [TextEncoder] *)

Definition encode_point (p : Z) : list Z :=
  if p <? 128 then [p]
  else if p <? 2048 then [192 + p / 64; 128 + p mod 64]
  else if p <? 65536 then [224 + p / 4096; 128 + p / 64 mod 64; 128 + p mod 64]
  else [240 + p / 262144; 128 + p / 4096 mod 64; 128 + p / 64 mod 64; 128 + p mod 64].

Definition high_surrogate (c : Z) : bool := (55296 <=? c) && (c <=? 56319).
Definition low_surrogate (c : Z) : bool := (56320 <=? c) && (c <=? 57343).

(** A surrogate pair is one code point, a lone surrogate the replacement. *)
Fixpoint TextEncoder_encode (s : text) : list Z :=
  match s with
  | [] => []
  | c :: r =>
      if high_surrogate c then
        match r with
        | d :: r' =>
            if low_surrogate d then encode_point (65536 + (c - 55296) * 1024 + (d - 56320)) ++ TextEncoder_encode r'
            else encode_point REPLACEMENT ++ TextEncoder_encode r
        | [] => encode_point REPLACEMENT
        end
      else (if low_surrogate c then encode_point REPLACEMENT else encode_point c) ++ TextEncoder_encode r
  end.

(** ** Round trip *)

(** Code units without lone surrogates. *)
Fixpoint well_formed (s : text) : bool :=
  match s with
  | [] => true
  | c :: r =>
      (0 <=? c) && (c <? 65536) &&
      if high_surrogate c then match r with d :: r' => low_surrogate d && well_formed r' | [] => false end
      else negb (low_surrogate c) && well_formed r
  end.

Lemma continuation_true low high c : low <= c <= high -> continuation low high c = true.
Proof. intros. unfold continuation. rewrite andb_true_iff, !Z.leb_le. lia. Qed.

Lemma decode_idle b r : decode_from idle (b :: r) = (decode_lead b).1 ++ decode_from (decode_lead b).2 r.
Proof. cbn. by destruct (decode_lead b). Qed.

Lemma decode_continue point needed low high b r :
  low <= b <= high ->
  decode_from (mkDecoder point (S needed) low high) (b :: r)
  = match needed with
    | O => utf16 (point * 64 + (b - 128)) ++ decode_from idle r
    | S _ => decode_from (mkDecoder (point * 64 + (b - 128)) needed 128 191) r
    end.
Proof. intros Hb. cbn. rewrite continuation_true by done. by destruct needed. Qed.

Lemma decode_lead_range b :
  (194 <= b <= 223 -> decode_lead b = ([], mkDecoder (b - 192) 1 128 191)) /\
  (224 <= b <= 239 -> decode_lead b
    = ([], mkDecoder (b - 224) 2 (if b =? 224 then 160 else 128) (if b =? 237 then 159 else 191))) /\
  (240 <= b <= 244 -> decode_lead b
    = ([], mkDecoder (b - 240) 3 (if b =? 240 then 144 else 128) (if b =? 244 then 143 else 191))).
Proof.
  unfold decode_lead. split_and!; intros Hb;
    destruct (Z.ltb_spec b 128), (Z.leb_spec 194 b), (Z.leb_spec b 223), (Z.leb_spec 224 b), (Z.leb_spec b 239),
      (Z.leb_spec 240 b), (Z.leb_spec b 244); try lia; done.
Qed.

Lemma decode_point p r :
  0 <= p < 1114112 -> ~ 55296 <= p <= 57343 -> decode_from idle (encode_point p ++ r) = utf16 p ++ decode_from idle r.
Proof.
  intros Hp Hs. unfold encode_point.
  pose proof (Z.div_mod p 64 ltac:(lia)). pose proof (Z.mod_pos_bound p 64 ltac:(lia)).
  pose proof (Z.div_mod (p / 64) 64 ltac:(lia)). pose proof (Z.mod_pos_bound (p / 64) 64 ltac:(lia)).
  pose proof (Z.div_mod (p / 4096) 64 ltac:(lia)). pose proof (Z.mod_pos_bound (p / 4096) 64 ltac:(lia)).
  rewrite Z.div_div in * by lia. change (64 * 64) with 4096 in *. change (4096 * 64) with 262144 in *.
  destruct (Z.ltb_spec p 128); [|destruct (Z.ltb_spec p 2048); [|destruct (Z.ltb_spec p 65536)]]; cbn [app];
    rewrite decode_idle.
  - unfold decode_lead. rewrite (proj2 (Z.ltb_lt p 128)) by lia. unfold utf16. by rewrite (proj2 (Z.ltb_lt p 65536)) by lia.
  - rewrite (proj1 (decode_lead_range _)) by lia. cbn [fst snd app]. rewrite decode_continue by lia. do 2 f_equal. lia.
  - rewrite (proj1 (proj2 (decode_lead_range _))) by lia. cbn [fst snd app].
    rewrite decode_continue by (destruct (Z.eqb_spec (224 + p / 4096) 224), (Z.eqb_spec (224 + p / 4096) 237); lia).
    rewrite decode_continue by lia. do 2 f_equal. lia.
  - rewrite (proj2 (proj2 (decode_lead_range _))) by lia. cbn [fst snd app].
    rewrite decode_continue by (destruct (Z.eqb_spec (240 + p / 262144) 240), (Z.eqb_spec (240 + p / 262144) 244); lia).
    rewrite !decode_continue by lia. do 2 f_equal. lia.
Qed.

Lemma decode_encode s r : well_formed s = true -> decode_from idle (TextEncoder_encode s ++ r) = s ++ decode_from idle r.
Proof.
  remember (length s) as n eqn:Hn. revert s Hn. induction n as [n IH] using lt_wf_ind. intros s -> Hs.
  destruct s as [|c s]; [done|]. cbn [well_formed TextEncoder_encode] in *.
  apply andb_true_iff in Hs as [[?%Z.leb_le ?%Z.ltb_lt]%andb_true_iff Hs].
  unfold high_surrogate, low_surrogate in *. destruct ((55296 <=? c) && (c <=? 56319)) eqn:Hh.
  - apply andb_true_iff in Hh as [?%Z.leb_le ?%Z.leb_le]. destruct s as [|d s]; [done|].
    apply andb_true_iff in Hs as [Hd Hs]. rewrite Hd. apply andb_true_iff in Hd as [?%Z.leb_le ?%Z.leb_le].
    rewrite <- app_assoc, decode_point by lia. rewrite (IH (length s)); [|cbn; lia|done|done].
    unfold utf16. rewrite (proj2 (Z.ltb_ge _ 65536)) by lia. cbn [app]. f_equal; [|f_equal].
    + pose proof (Z.div_mod (65536 + (c - 55296) * 1024 + (d - 56320) - 65536) 1024 ltac:(lia)).
      pose proof (Z.mod_pos_bound (65536 + (c - 55296) * 1024 + (d - 56320) - 65536) 1024 ltac:(lia)). lia.
    + pose proof (Z.div_mod (65536 + (c - 55296) * 1024 + (d - 56320) - 65536) 1024 ltac:(lia)).
      pose proof (Z.mod_pos_bound (65536 + (c - 55296) * 1024 + (d - 56320) - 65536) 1024 ltac:(lia)). lia.
  - apply andb_true_iff in Hs as [Hl Hs]. apply negb_true_iff in Hl. rewrite Hl. rewrite <- app_assoc, decode_point.
    + rewrite (IH (length s)); [|cbn; lia|done|done]. unfold utf16. by rewrite (proj2 (Z.ltb_lt c 65536)) by lia.
    + lia.
    + intros Hc. apply andb_false_iff in Hh, Hl. rewrite !Z.leb_gt in *. lia.
Qed.

Lemma TextDecoder_round_trip s :
  well_formed s = true -> head s <> Some 65279 -> TextDecoder_decode (TextEncoder_encode s) = s.
Proof.
  intros Hs Hb. unfold TextDecoder_decode. rewrite <- (app_nil_r (TextEncoder_encode s)), decode_encode by done.
  cbn. rewrite app_nil_r. destruct s as [|c s]; [done|]. destruct (Z.eqb_spec c 65279); [|done]. by subst.
Qed.
