(* ===== verification/HttpDate.v ===== *)
(** * HTTP dates

    The calendar of [Date] as the language defines it (days from years, months
    from days in the year), [toUTCString], and the reading of an IMF-fixdate.
    What [toUTCString] prints is read back as the same time. *)

From Stdlib Require Import ZArith Lia.
From stdpp Require Import base strings option list.
From S2P Require Import Prelude Js JsonText.
Open Scope string_scope.
Open Scope Z_scope.

(** ** The calendar *)

Definition msPerDay : Z := 86400000.

Definition leap (y : Z) : bool := (y mod 4 =? 0) && (negb (y mod 100 =? 0) || (y mod 400 =? 0)).

(** [DayFromYear]: the day number of the first of January. *)
Definition day_from_year (y : Z) : Z :=
  365 * (y - 1970) + (y - 1969) / 4 - (y - 1901) / 100 + (y - 1601) / 400.

(** [YearFromTime]: an estimate by the mean year, corrected by one. *)
Definition year_of_day (d : Z) : Z :=
  let y := 1970 + d * 400 / 146097 in
  if d <? day_from_year y then y - 1 else if day_from_year (y + 1) <=? d then y + 1 else y.

(** Days of the year before month [m], counted from zero. *)
Definition days_before (leap : bool) (m : Z) : Z :=
  let l := if leap then 1 else 0 in
  if m <=? 0 then 0 else if m =? 1 then 31 else if m =? 2 then 59 + l else if m =? 3 then 90 + l
  else if m =? 4 then 120 + l else if m =? 5 then 151 + l else if m =? 6 then 181 + l else if m =? 7 then 212 + l
  else if m =? 8 then 243 + l else if m =? 9 then 273 + l else if m =? 10 then 304 + l else 334 + l.

(** [MonthFromTime] of a day in the year. *)
Definition month_of (leap : bool) (yd : Z) : Z :=
  let before := days_before leap in
  if yd <? before 1 then 0 else if yd <? before 2 then 1 else if yd <? before 3 then 2 else if yd <? before 4 then 3
  else if yd <? before 5 then 4 else if yd <? before 6 then 5 else if yd <? before 7 then 6 else if yd <? before 8 then 7
  else if yd <? before 9 then 8 else if yd <? before 10 then 9 else if yd <? before 11 then 10 else 11.

(** [MakeDate(MakeDay(...), MakeTime(...))] for a month in range. *)
Definition make_date (y m d h min s : Z) : Z :=
  (day_from_year y + days_before (leap y) m + (d - 1)) * msPerDay + h * 3600000 + min * 60000 + s * 1000.

(** ** [toUTCString] *)

Definition weekdays : list text := text_of <$> ["Sun"; "Mon"; "Tue"; "Wed"; "Thu"; "Fri"; "Sat"].
Definition months : list text :=
  text_of <$> ["Jan"; "Feb"; "Mar"; "Apr"; "May"; "Jun"; "Jul"; "Aug"; "Sep"; "Oct"; "Nov"; "Dec"].

Definition name_at (names : list text) (i : Z) : text := default [] (names !! Z.to_nat i).

Definition digit (n : Z) : Z := 48 + n mod 10.
Definition two_digits (n : Z) : text := [digit (n / 10); digit n].

(** Decimal digits of a number that is not negative. *)
Fixpoint decimal (fuel : nat) (n : Z) : text :=
  match fuel with O => [] | S fuel => if n <? 10 then [digit n] else (decimal fuel (n / 10) ++ [digit n])%list end.
Definition pad (width : nat) (t : text) : text := (replicate (width - length t) 48 ++ t)%list.

(** Years of a [Date] have at most six digits. *)
Definition year_text (y : Z) : text :=
  if y <? 0 then 45 :: pad 6 (decimal 7 (- y)) else if y <? 10000 then two_digits (y / 100) ++ two_digits y else decimal 7 y.

Definition toUTCString (t : Z) : text :=
  let day := t / msPerDay in
  let ms := t mod msPerDay in
  let y := year_of_day day in
  let yd := day - day_from_year y in
  let m := month_of (leap y) yd in
  (name_at weekdays ((day + 4) mod 7) ++ text_of ", " ++ two_digits (yd - days_before (leap y) m + 1) ++ text_of " "
   ++ name_at months m ++ text_of " " ++ year_text y ++ text_of " " ++ two_digits (ms / 3600000) ++ text_of ":"
   ++ two_digits (ms / 60000 mod 60) ++ text_of ":" ++ two_digits (ms / 1000 mod 60) ++ text_of " GMT")%list.

Example utc_epoch : toUTCString 784111777000 = text_of "Sun, 06 Nov 1994 08:49:37 GMT".
Proof. vm_compute. reflexivity. Qed.
Example utc_leap : toUTCString 951826154000 = text_of "Tue, 29 Feb 2000 12:09:14 GMT".
Proof. vm_compute. reflexivity. Qed.
Example utc_old : toUTCString (-62167219200000) = text_of "Sat, 01 Jan 0000 00:00:00 GMT".
Proof. vm_compute. reflexivity. Qed.

(** ** Reading an IMF-fixdate *)

Definition is_letter (c : Z) : bool := ((65 <=? c) && (c <=? 90)) || ((97 <=? c) && (c <=? 122)).

Record Fixdate := mkFixdate {
  fx_weekday : text; fx_day : Z; fx_month : text; fx_year : Z; fx_hour : Z; fx_minute : Z; fx_second : Z }.

(** The groups of [IMF_FIXDATE_PATTERN]. *)
Definition imf_groups (v : text) : option Fixdate :=
  match v with
  | [w1; w2; w3; c1; s1; d1; d2; s2; m1; m2; m3; s3; y1; y2; y3; y4; s4; h1; h2; c2; i1; i2; c3; e1; e2; s5; g; m; t] =>
      if forallb is_letter [w1; w2; w3; m1; m2; m3] && forallb is_digit [d1; d2; y1; y2; y3; y4; h1; h2; i1; i2; e1; e2]
         && bool_decide ([c1; s1; s2; s3; s4; c2; c3; s5; g; m; t] = text_of ",    :: GMT")
      then Some (mkFixdate [w1; w2; w3] (digits_value [d1; d2]) [m1; m2; m3] (digits_value [y1; y2; y3; y4])
                   (digits_value [h1; h2]) (digits_value [i1; i2]) (digits_value [e1; e2]))
      else None
  | _ => None
  end.

Definition isImfFixdate (v : text) : bool :=
  match imf_groups v with
  | Some f => bool_decide (fx_weekday f ∈ weekdays) && bool_decide (fx_month f ∈ months)
  | None => false
  end.

(** The position of a name. *)
Fixpoint index_of (name : text) (names : list text) : option Z :=
  match names with
  | [] => None
  | n :: names => if bool_decide (name = n) then Some 0 else i ← index_of name names; Some (i + 1)
  end.

(** [Date.parse] on a value of that form.  The language fixes it on what
    [toUTCString] prints; on any other value (a day that does not exist, the
    wrong weekday) engines differ, and the caller's comparison with
    [toUTCString] drops the result whatever it is. *)
Definition Date_parse (v : text) : option Z :=
  f ← imf_groups v;
  m ← index_of (fx_month f) months;
  Some (make_date (fx_year f) m (fx_day f) (fx_hour f) (fx_minute f) (fx_second f)).

(** ** The calendar is consistent *)

Lemma day_from_year_step y : day_from_year (y + 1) = day_from_year y + (if leap y then 366 else 365).
Proof.
  unfold day_from_year, leap.
  destruct (Z.eqb_spec (y mod 4) 0), (Z.eqb_spec (y mod 100) 0), (Z.eqb_spec (y mod 400) 0); cbn [andb orb negb];
    Z.to_euclidean_division_equations; lia.
Qed.

Lemma year_of_day_spec d : day_from_year (year_of_day d) <= d < day_from_year (year_of_day d + 1).
Proof.
  unfold year_of_day. set (y := 1970 + d * 400 / 146097).
  assert (day_from_year (y - 1) <= d < day_from_year (y + 2)) as H
    by (unfold y, day_from_year; Z.to_euclidean_division_equations; lia).
  destruct (Z.ltb_spec d (day_from_year y)); [replace (y - 1 + 1) with y by lia; lia|].
  destruct (Z.leb_spec (day_from_year (y + 1)) d); [replace (y + 1 + 1) with (y + 2) by lia; lia|lia].
Qed.

(** The day of the year and of the month are in range. *)
Lemma year_day_range d (y := year_of_day d) : 0 <= d - day_from_year y < (if leap y then 366 else 365).
Proof. pose proof (year_of_day_spec d) as H. rewrite day_from_year_step in H. fold y in H. lia. Qed.

Lemma month_range (l : bool) yd : 0 <= yd < (if l then 366 else 365) -> 0 <= month_of l yd <= 11 /\ 0 <= yd - days_before l (month_of l yd) <= 30.
Proof.
  intros H. unfold month_of. destruct l; cbn [days_before Z.leb Z.eqb Z.compare Pos.compare Pos.compare_cont Pos.eqb] in *;
    repeat match goal with |- context [?a <? ?b] => destruct (Z.ltb_spec a b) end; cbn; lia.
Qed.

(** ** Round trip *)

Lemma digit_is_digit n : is_digit (digit n) = true.
Proof. unfold is_digit, digit. pose proof (Z.mod_pos_bound n 10). lia. Qed.

Lemma two_digits_value n : 0 <= n < 100 -> digits_value (two_digits n) = n.
Proof. intros H. unfold digits_value, two_digits, digit. cbn -[Z.div Z.modulo]. Z.to_euclidean_division_equations. lia. Qed.

Lemma four_digits_value n :
  0 <= n < 10000 -> digits_value [digit (n / 100 / 10); digit (n / 100); digit (n / 10); digit n] = n.
Proof. intros H. unfold digits_value, digit. cbn -[Z.div Z.modulo]. Z.to_euclidean_division_equations. lia. Qed.

(** A name of a list of three-letter names. *)
Definition three_letters (t : text) : Prop := exists a b c, t = [a; b; c] /\ forallb is_letter [a; b; c] = true.

Lemma weekday_name i : 0 <= i < 7 -> three_letters (name_at weekdays i) /\ name_at weekdays i ∈ weekdays.
Proof.
  intros H. assert (i ∈ [0; 1; 2; 3; 4; 5; 6]) as Hi by (rewrite !elem_of_cons; lia).
  repeat (apply elem_of_cons in Hi as [->|Hi]; [split; [by do 3 eexists|by apply (bool_decide_unpack _)]|]).
  by apply not_elem_of_nil in Hi.
Qed.

Lemma month_name i : 0 <= i < 12 ->
  three_letters (name_at months i) /\ name_at months i ∈ months /\ index_of (name_at months i) months = Some i.
Proof.
  intros H. assert (i ∈ [0; 1; 2; 3; 4; 5; 6; 7; 8; 9; 10; 11]) as Hi by (rewrite !elem_of_cons; lia).
  repeat (apply elem_of_cons in Hi as [->|Hi]; [split_and!; [by do 3 eexists|by apply (bool_decide_unpack _)|done]|]).
  by apply not_elem_of_nil in Hi.
Qed.

Lemma groups_of a b c d m1 m2 m3 y h i s :
  forallb is_letter [a; b; c] = true -> forallb is_letter [m1; m2; m3] = true ->
  0 <= d < 100 -> 0 <= y < 10000 -> 0 <= h < 100 -> 0 <= i < 100 -> 0 <= s < 100 ->
  imf_groups ([a; b; c] ++ text_of ", " ++ two_digits d ++ text_of " " ++ [m1; m2; m3] ++ text_of " " ++ year_text y
    ++ text_of " " ++ two_digits h ++ text_of ":" ++ two_digits i ++ text_of ":" ++ two_digits s ++ text_of " GMT")%list
  = Some (mkFixdate [a; b; c] d [m1; m2; m3] y h i s).
Proof.
  intros Hw Hm Hd Hy Hh Hi Hs. unfold year_text.
  rewrite (proj2 (Z.ltb_ge y 0)), (proj2 (Z.ltb_lt y 10000)) by lia.
  pose proof (two_digits_value d Hd) as Ed. pose proof (two_digits_value h Hh) as Eh. pose proof (two_digits_value i Hi) as Ei.
  pose proof (two_digits_value s Hs) as Es. pose proof (four_digits_value y Hy) as Ey. unfold two_digits in *.
  cbn in Hw, Hm. rewrite !andb_true_iff in Hw, Hm. destruct Hw as (Ha & Hb & Hc & _), Hm as (H1 & H2 & H3 & _).
  cbn -[digits_value digit is_letter is_digit]. rewrite Ha, Hb, Hc, H1, H2, H3, !digit_is_digit. cbn -[digits_value digit].
  by rewrite Ed, Eh, Ei, Es, Ey.
Qed.

(** What is printed is read back. *)
Lemma date_roundtrip t :
  t mod 1000 = 0 -> 0 <= year_of_day (t / msPerDay) <= 9999 ->
  isImfFixdate (toUTCString t) = true /\ Date_parse (toUTCString t) = Some t.
Proof.
  intros Ht Hy. unfold isImfFixdate, Date_parse, toUTCString. set (day := t / msPerDay) in *. set (y := year_of_day day) in *.
  set (yd := day - day_from_year y). set (m := month_of (leap y) yd).
  destruct (month_range (leap y) yd (year_day_range day)) as [Hm Hd]. fold m in Hm, Hd.
  destruct (weekday_name ((day + 4) mod 7)) as [(a & b & c & Ew & Hw) Hin]; [by apply Z.mod_pos_bound|].
  destruct (month_name m) as ((m1 & m2 & m3 & Em & Hl) & Hmin & Hidx); [lia|]. rewrite Em in *. rewrite Ew in *.
  assert (0 <= t mod msPerDay < msPerDay) as Hms by (apply Z.mod_pos_bound; done).
  rewrite groups_of; [|done|done|lia|lia|unfold msPerDay in *; Z.to_euclidean_division_equations; lia..].
  cbn [fx_weekday fx_month fx_day fx_year fx_hour fx_minute fx_second]. rewrite !bool_decide_true by done.
  split; [done|]. cbn [mbind option_bind fx_weekday fx_month fx_day fx_year fx_hour fx_minute fx_second]. rewrite Hidx.
  cbn [mbind option_bind]. f_equal. unfold make_date, day, yd, msPerDay in *. clear -Ht.
  set (q := days_before _ _). set (p := day_from_year _). clearbody p q.
  replace (p + q + (t / 86400000 - p - q + 1 - 1)) with (t / 86400000) by lia.
  Z.to_euclidean_division_equations. lia.
Qed.

(** ** Other years do not have the form *)

Lemma decimal_length k fuel n : (k < fuel)%nat -> 10 ^ Z.of_nat k <= n -> (S k <= length (decimal fuel n))%nat.
Proof.
  revert fuel n. induction k as [|k IH]; intros [|fuel] n Hk Hn; [lia| |lia|]; cbn [decimal].
  - destruct (n <? 10); [done|]. rewrite length_app. cbn. lia.
  - rewrite Nat2Z.inj_succ, Z.pow_succ_r in Hn by lia. pose proof (Z.pow_pos_nonneg 10 (Z.of_nat k)).
    rewrite (proj2 (Z.ltb_ge n 10)) by lia. rewrite length_app. cbn [length].
    assert (S k <= length (decimal fuel (n / 10)))%nat; [|lia]. apply IH; [lia|]. apply Z.div_le_lower_bound; lia.
Qed.

Lemma year_text_length y : length (year_text y) = 4%nat -> 0 <= y <= 9999.
Proof.
  unfold year_text. destruct (Z.ltb_spec y 0).
  - unfold pad. cbn [length]. rewrite length_app, length_replicate. intros. lia.
  - destruct (Z.ltb_spec y 10000); [lia|]. intros E. pose proof (decimal_length 4 7 y). cbn -[decimal] in *. lia.
Qed.

Lemma imf_length v f : imf_groups v = Some f -> length v = 29%nat.
Proof. unfold imf_groups. intros H. repeat (destruct v as [|? v]; [discriminate|]). by destruct v. Qed.

Lemma utc_length t : length (toUTCString t) = (25 + length (year_text (year_of_day (t / msPerDay))))%nat.
Proof.
  unfold toUTCString. set (day := t / msPerDay). set (y := year_of_day day).
  destruct (weekday_name ((day + 4) mod 7)) as [(a & b & c & -> & _) _]; [by apply Z.mod_pos_bound|].
  destruct (month_range (leap y) (day - day_from_year y) (year_day_range day)) as [Hm _].
  destruct (month_name (month_of (leap y) (day - day_from_year y))) as ((m1 & m2 & m3 & -> & _) & _); [lia|].
  rewrite !length_app. cbn. lia.
Qed.

Lemma Date_parse_seconds v t : Date_parse v = Some t -> t mod 1000 = 0.
Proof.
  unfold Date_parse. destruct (imf_groups v) as [f|]; [|done]. cbn [mbind option_bind]. destruct (index_of (fx_month f) months) as [m|]; [|done]. cbn. intros [= <-].
  unfold make_date, msPerDay. Z.to_euclidean_division_equations. lia.
Qed.

(** An IMF-fixdate that is what [toUTCString] prints, exactly. *)
Lemma fixdate_exact v t :
  isImfFixdate v = true /\ Date_parse v = Some t /\ toUTCString t = v
  <-> v = toUTCString t /\ t mod 1000 = 0 /\ 0 <= year_of_day (t / msPerDay) <= 9999.
Proof.
  split.
  - intros (Hi & Hp & <-). split_and!; [done|by eapply Date_parse_seconds| |];
      apply year_text_length; unfold isImfFixdate in Hi; destruct (imf_groups (toUTCString t)) as [f|] eqn:E; try done;
      apply imf_length in E; rewrite utc_length in E; lia.
  - intros (-> & Ht & Hy). by destruct (date_roundtrip t Ht Hy).
Qed.
