(* ===== verification/Codex429.v ===== *)
(** * Reading a Codex 429

    The first half of [src/authority/native-codex-429.ts]: the Retry-After
    header, the body, and the classification the slot transitions of
    CodexMutations.v start from.  Bytes and code units are [Z]; the response is
    the bytes [readBoundedResponseBody] returned, whether they are complete, and
    the header. *)

From Stdlib Require Import ZArith QArith Lia Ascii.
From stdpp Require Import base strings option list.
From S2P Require Import Prelude Js CodexContracts CodexCapacity CodexMutations JsonText JsonScan WebText HttpDate.
Open Scope string_scope.
Open Scope Z_scope.

(** ** The body *)

Definition is_record (v : json) : bool := match v with JsObject _ | JsArray _ => true | _ => false end.

(** [value.key]: the last of repeated members. *)
Definition member (key : string) (v : json) : option json :=
  match v with
  | JsObject members => snd <$> List.find (fun m => bool_decide (fst m = text_of key)) (reverse members)
  | _ => None
  end.

Definition record_member (key : string) (v : json) : option json :=
  m ← member key v; if is_record m then Some m else None.

(** [None] is [noSignal] after a throw; the pair is [usageLimitReached] and
    [bodyResetAtMs]. *)
Definition classify_parsed (body : json) (now : Z) : bool * option Z :=
  let error := if is_record body then record_member "error" body else None in
  let usageLimitReached := match error ≫= member "type" with
    | Some (JsString s) => bool_decide (s = text_of "usage_limit_reached")
    | _ => false
    end in
  let resetsAtSeconds := match error ≫= member "resets_at" with
    | Some (JsNumber n) => seconds ← safe_integer n; if seconds <? 0 then None else Some seconds
    | _ => None
    end in
  (usageLimitReached,
   if negb usageLimitReached then None else
   seconds ← resetsAtSeconds;
   let deadlineMs := seconds * 1000 in
   if isSafeInteger deadlineMs && (now <? deadlineMs) then Some deadlineMs else None).

Definition classifyCodex429Body (bytes : list Z) (complete : bool) (now : Z) : bool * option Z :=
  let noSignal := (false, None) in
  if negb complete then noSignal else
  match utf8_decode bytes with
  | None => noSignal
  | Some bodyText =>
      if hasDuplicateJsonObjectKeys bodyText then noSignal else
      match JSON_parse bodyText with Some body => classify_parsed body now | None => noSignal end
  end.

(** ** The Retry-After header *)

Definition futureRetryAfterDeadline (retryAfter : option text) (now : Z) : option RetryAfterDeadline :=
  raw ← retryAfter;
  let value := trim_text raw in
  if negb (bool_decide (value = [])) && forallb is_digit value then
    let seconds := digits_value value in
    let deltaMs := seconds * 1000 in
    let deadline := now + deltaMs in
    if isSafeInteger seconds && isSafeInteger deltaMs && isSafeInteger deadline && (now <? deadline)
    then Some (mkRetryAfter deadline false) else None
  else if negb (isImfFixdate value) then None else
    deadline ← Date_parse value;
    if isSafeInteger deadline && (now <? deadline) && bool_decide (toUTCString deadline = value)
    then Some (mkRetryAfter deadline true) else None.

(** ** The classification *)

Record Codex429Response := mkResponse {
  re_bytes : list Z;
  re_complete : bool;
  re_retryAfter : option text;
  re_primaryUsedPercent : option string;
  re_secondaryUsedPercent : option string }.

Definition classifyCodex429 (response : Codex429Response) (now : Z) : Codex429Classification :=
  let '(usageLimitReached, bodyResetAtMs) := classifyCodex429Body (re_bytes response) (re_complete response) now in
  let '(retryAtMs, source, stable, conflict) :=
    resolveCodex429RetryDeadlines bodyResetAtMs (futureRetryAfterDeadline (re_retryAfter response) now) in
  mk429 (re_complete response && usageLimitReached) retryAtMs source stable conflict
    (re_primaryUsedPercent response) (re_secondaryUsedPercent response).

(** ** What a deadline means *)

(** The provider's reset as an unambiguous body states it. *)
Definition states_reset (body : json) (seconds : Z) : Prop :=
  repeated_key body = false
  /\ exists error, record_member "error" body = Some error
     /\ member "type" error = Some (JsString (text_of "usage_limit_reached"))
     /\ exists n, member "resets_at" error = Some (JsNumber n) /\ safe_integer n = Some seconds /\ 0 <= seconds.

Lemma member_record key v x : member key v = Some x -> is_record v = true.
Proof. by destruct v. Qed.

Lemma record_member_record key v x : record_member key v = Some x -> is_record v = true.
Proof. unfold record_member. destruct (member key v) eqn:E; [|done]. intros _. by eapply member_record. Qed.

Lemma classify_parsed_spec body now d :
  snd (classify_parsed body now) = Some d <->
  exists error seconds n, record_member "error" body = Some error
    /\ member "type" error = Some (JsString (text_of "usage_limit_reached"))
    /\ member "resets_at" error = Some (JsNumber n) /\ safe_integer n = Some seconds /\ 0 <= seconds
    /\ d = seconds * 1000 /\ isSafeInteger d = true /\ now < d.
Proof.
  unfold classify_parsed. cbn [snd]. split.
  - destruct (is_record body) eqn:Er; [|done]. destruct (record_member "error" body) as [error|]; [|done]. cbn.
    destruct (member "type" error) as [[]|] eqn:Et; try done. case_bool_decide as Hs; [subst s|done]. cbn.
    destruct (member "resets_at" error) as [[]|] eqn:En; try done. destruct (safe_integer n) as [seconds|] eqn:Ei; [|done]. cbn.
    destruct (Z.ltb_spec seconds 0); [done|]. cbn. destruct (isSafeInteger (seconds * 1000)) eqn:Es; [|done]. cbn.
    destruct (Z.ltb_spec now (seconds * 1000)); [|done]. intros [= <-]. exists error, seconds, n. by split_and!.
  - intros (error & seconds & n & Hr & Ht & Hn & Hi & Hpos & -> & Hsafe & Hnow).
    rewrite (record_member_record _ _ _ Hr), Hr. cbn -[Z.mul]. rewrite Ht, bool_decide_true by done. cbn -[Z.mul].
    rewrite Hn, Hi. cbn -[Z.mul]. rewrite (proj2 (Z.ltb_ge seconds 0)) by done. cbn -[Z.mul].
    by rewrite Hsafe, (proj2 (Z.ltb_lt now (seconds * 1000))).
Qed.

(** C10: a provider's reset is believed exactly when the body states it without
    ambiguity: the response was read in full, its bytes are UTF-8, the text is
    JSON in which no object repeats a key (in any spelling of its escapes), its
    [error] is a usage limit with a whole number of seconds, and the deadline is
    a safe integer in the future.  The scan that decides about repeated keys ends
    on every text. *)
Theorem codex_429_body_exact bytes complete now d :
  (snd (classifyCodex429Body bytes complete now) = Some d <->
   complete = true /\ exists bodyText body seconds, utf8_decode bytes = Some bodyText /\ JSON_parse bodyText = Some body
     /\ states_reset body seconds /\ d = seconds * 1000 /\ isSafeInteger d = true /\ now < d)
  /\ forall source, is_Some (parseValue (json_fuel_for source) source).
Proof.
  split.
  2:{ intros source. destruct (proj1 (scan_ends (json_fuel_for source) source)) as (v & rest & -> & _); [unfold json_fuel_for; lia|done]. }
  unfold classifyCodex429Body. destruct complete; cbn [negb]; [|by split; [|intros []]].
  destruct (utf8_decode bytes) as [t|]; [|split; [done|intros (_ & ? & ? & ? & [=] & _)]].
  destruct (JSON_parse t) as [body|] eqn:Ep.
  2:{ destruct (hasDuplicateJsonObjectKeys t); (split; [done|]); intros (_ & ? & ? & ? & [= <-] & ? & _); congruence. }
  rewrite (scan_exact t body Ep). split.
  - destruct (repeated_key body) eqn:Er; [done|].
    intros (error & seconds & n & H1 & H2 & H3 & H4 & H5 & H6 & H7 & H8)%classify_parsed_spec. split; [done|].
    exists t, body, seconds. split_and!; [done..| |done|done|done]. split; [done|]. exists error. eauto 10.
  - intros (_ & t' & body' & seconds & [= <-] & Ep' & (Hrep & error & H1 & H2 & n & H3 & H4 & H5) & H6 & H7 & H8).
    assert (body' = body) as -> by congruence. rewrite Hrep. apply classify_parsed_spec. exists error, seconds, n. by split_and!.
Qed.

(** A Retry-After header is read exactly.  Seconds give a relative deadline
    that is not stable; an IMF-fixdate counts only if it is letter for letter what
    [toUTCString] prints for a time of the years 0 to 9999, and it is read back as
    that time; everything else, and every deadline that is not in the future, is
    ignored. *)
Theorem retry_after_exact raw now r (value := trim_text raw) :
  futureRetryAfterDeadline (Some raw) now = Some r <->
  (value <> [] /\ forallb is_digit value = true /\ r = mkRetryAfter (now + digits_value value * 1000) false
   /\ isSafeInteger (digits_value value) = true /\ isSafeInteger (digits_value value * 1000) = true
   /\ isSafeInteger (now + digits_value value * 1000) = true /\ 0 < digits_value value)
  \/ (exists t, r = mkRetryAfter t true /\ value = toUTCString t /\ t mod 1000 = 0 /\ 0 <= year_of_day (t / msPerDay) <= 9999
      /\ isSafeInteger t = true /\ now < t).
Proof.
  unfold futureRetryAfterDeadline. cbn [mbind option_bind]. fold value. clearbody value.
  assert (forall t, value = toUTCString t -> 0 <= year_of_day (t / msPerDay) <= 9999 -> t mod 1000 = 0 ->
    negb (bool_decide (value = [])) && forallb is_digit value = false) as Hdate.
  { intros t -> Hy Ht. unfold toUTCString.
    destruct (weekday_name ((t / msPerDay + 4) mod 7)) as [(a & b & c & -> & Hl) _]; [by apply Z.mod_pos_bound|].
    cbn in Hl |- *. apply andb_true_iff in Hl as [Hl _].
    assert (is_digit a = false) as -> by (unfold is_letter, is_digit in *; lia). done. }
  destruct (negb (bool_decide (value = [])) && forallb is_digit value) eqn:Ed.
  - apply andb_true_iff in Ed as [Hne%negb_true_iff%bool_decide_eq_false Hd]. split.
    + match goal with |- (if ?b then _ else _) = _ -> _ => destruct b eqn:E; [|done] end. rewrite !andb_true_iff in E. destruct E as [[[H1 H2] H3] H4].
      intros [= <-]. left. split_and!; [done..|lia].
    + intros [(_ & _ & -> & H1 & H2 & H3 & H4)|(t & _ & Hv & Ht & Hy & _)]; [|by specialize (Hdate t Hv Hy Ht)].
      by rewrite H1, H2, H3, (proj2 (Z.ltb_lt now _)) by lia.
  - clear Hdate. pose proof (fixdate_exact value) as Hx. split.
    + destruct (isImfFixdate value) eqn:Ei; [|done]. cbn [negb].
      destruct (Date_parse value) as [t|] eqn:Ep; [|done]. cbn [mbind option_bind].
      match goal with |- (if ?b then _ else _) = _ -> _ => destruct b eqn:E; [|done] end. rewrite !andb_true_iff in E. destruct E as [[H1 H2] H3%bool_decide_eq_true].
      intros [= <-]. right. destruct (proj1 (Hx t)) as (Hv & Ht & Hy); [done|]. exists t. split_and!; first [done|lia].
    + intros [(Hne & Hd & _)|(t & -> & Hv & Ht & Hy & Hs & Hn)].
      { by rewrite bool_decide_false, Hd in Ed. }
      destruct (proj2 (Hx t)) as (-> & -> & Ht'); [done|]. cbn [negb mbind option_bind].
      by rewrite Hs, (proj2 (Z.ltb_lt now t)), bool_decide_true.
Qed.

Example body_reset :
  let bytes := quoted "{'error':{'type':'usage_limit_reached','resets_at':1700000000}}" in
  classifyCodex429Body bytes true 5 = (true, Some 1700000000000) /\ classifyCodex429Body bytes false 5 = (false, None).
Proof. vm_compute. done. Qed.
Example body_ambiguous :
  classifyCodex429Body (quoted "{'error':{'type':'usage_limit_reached','resets_at':9,'resets_\u0061t':1700000000}}") true 5 = (false, None).
Proof. vm_compute. done. Qed.
Example retry_date :
  futureRetryAfterDeadline (Some (text_of " Sun, 06 Nov 1994 08:49:37 GMT")) 5 = Some (mkRetryAfter 784111777000 true)
  /\ futureRetryAfterDeadline (Some (text_of "Mon, 06 Nov 1994 08:49:37 GMT")) 5 = None
  /\ futureRetryAfterDeadline (Some (text_of "120")) 5 = Some (mkRetryAfter 120005 false).
Proof. vm_compute. done. Qed.
