(* ===== verification/ApiKeyUsage.v ===== *)
(** * API-key policies and the plans of the usage quota

    [src/authority/native-api-key.ts], the projections of
    [native-api-key-policy.ts] and the readers of [src/api-keys.ts].  Usage rows
    are stored as JSON and validated when read.  The hash record of a key is
    read with the type it was written with: its fields are typed here, except
    for those the code validates itself.  Times are integers; the quotient in
    [currentApiKeyUsageWindow] is exact for safe integers. *)

From Stdlib Require Import ZArith Lia.
From stdpp Require Import base gmap strings list pretty.
From S2P Require Import Prelude Js NativePaid.
Open Scope string_scope.
Open Scope Z_scope.

(** ** Constants *)

Definition API_KEY_NO_EXPIRATION_MS : Z := -1.
Definition API_KEY_NO_USAGE_LIMIT : Z := -1.
Definition USAGE_RESET_PERIOD_MS : Z := 7 * 24 * 60 * 60 * 1000.
Definition API_KEY_USAGE_V3_RESERVATION_LEASE_MS : Z := 5 * 60000.
Definition API_KEY_USAGE_V3_RETENTION_MS : Z := 7 * 24 * 60 * 60000.

(** ** Data *)

Inductive ApiKeyUsageProvider :=
| Cerebras | ChatgptCodex | ClaudeCode | Deepseek | Lithos | Openrouter | RemovedProvider
| MeteredProvider | SurplusProvider | Voyage.

#[export] Instance ApiKeyUsageProvider_eq_dec : EqDecision ApiKeyUsageProvider.
Proof. solve_decision. Defined.

Definition API_KEY_USAGE_PROVIDERS : list (string * ApiKeyUsageProvider) :=
  [("cerebras", Cerebras); ("chatgpt_codex", ChatgptCodex); ("claude_code", ClaudeCode);
   ("deepseek", Deepseek); ("lithos", Lithos); ("openrouter", Openrouter);
   ("removed_provider", RemovedProvider); ("metered", MeteredProvider);
   ("surplus", SurplusProvider); ("voyage", Voyage)].

Inductive UsageState := UReserved | UDispatched | UReleased.

#[export] Instance UsageState_eq_dec : EqDecision UsageState.
Proof. solve_decision. Defined.

Record ApiKeyUsageWindowV3 := mkUsageWindow {
  uw_key_id : string;
  uw_policy_version : string;
  uw_window_start_ms : Z;
  uw_window_reset_at_ms : Z;
  uw_committed_requests : Z;
  uw_reserved_requests : Z;
  uw_updated_at_ms : Z }.

#[export] Instance ApiKeyUsageWindowV3_eta : Eta ApiKeyUsageWindowV3 := fun r =>
  mkUsageWindow (uw_key_id r) (uw_policy_version r) (uw_window_start_ms r) (uw_window_reset_at_ms r)
    (uw_committed_requests r) (uw_reserved_requests r) (uw_updated_at_ms r).

Record ApiKeyUsageRequestV3 := mkUsageRequest {
  ur_key_id : string;
  ur_request_id : string;
  ur_route : string;
  ur_state : UsageState;
  ur_reserved_at_ms : Z;
  ur_lease_expires_at_ms : Z;
  ur_provider : option ApiKeyUsageProvider;
  ur_dispatched_at_ms : option Z;
  ur_released_at_ms : option Z;
  ur_release_reason : option string }.

#[export] Instance ApiKeyUsageRequestV3_eta : Eta ApiKeyUsageRequestV3 := fun r =>
  mkUsageRequest (ur_key_id r) (ur_request_id r) (ur_route r) (ur_state r) (ur_reserved_at_ms r)
    (ur_lease_expires_at_ms r) (ur_provider r) (ur_dispatched_at_ms r) (ur_released_at_ms r)
    (ur_release_reason r).

Record ApiKeyPolicy := mkApiKeyPolicy {
  ap_token_hash : string;
  ap_key_id : string;
  ap_expires_at_ms : Z;
  ap_usage_limit_requests : Z;
  ap_window_ms : Z;
  ap_window_start_ms : Z;
  ap_usage_reset_at_ms : Z;
  ap_policy_version : string;
  ap_paid_fallback : jsval }.

#[export] Instance ApiKeyPolicy_eta : Eta ApiKeyPolicy := fun r =>
  mkApiKeyPolicy (ap_token_hash r) (ap_key_id r) (ap_expires_at_ms r) (ap_usage_limit_requests r)
    (ap_window_ms r) (ap_window_start_ms r) (ap_usage_reset_at_ms r) (ap_policy_version r)
    (ap_paid_fallback r).

(** The five [paid_fallback_*] fields, which every reader validates, are kept
    together as the object that holds them. *)
Record ApiKeyHashRecord := mkHashRecord {
  hr_id : string;
  hr_expires_at_ms : number;
  hr_revoked_at_ms : option Z;
  hr_usage_limit_requests : Z;
  hr_usage_requests : Z;
  hr_usage_reset_at_ms : Z;
  hr_window_ms : jsval;
  hr_usage_quota_version : Z;
  hr_paid_fallback : jsval }.

#[export] Instance ApiKeyHashRecord_eta : Eta ApiKeyHashRecord := fun r =>
  mkHashRecord (hr_id r) (hr_expires_at_ms r) (hr_revoked_at_ms r) (hr_usage_limit_requests r)
    (hr_usage_requests r) (hr_usage_reset_at_ms r) (hr_window_ms r) (hr_usage_quota_version r)
    (hr_paid_fallback r).

(** ** Policies *)

Record WindowBounds := mkBounds { wb_start : Z; wb_reset : Z }.

Definition currentApiKeyUsageWindow (usageResetAtMs windowMs nowMs : Z) : WindowBounds :=
  let initialStart := usageResetAtMs - windowMs in
  if nowMs <? usageResetAtMs then mkBounds initialStart usageResetAtMs else
  let elapsedWindows := (nowMs - initialStart) / windowMs in
  let start := initialStart + elapsedWindows * windowMs in
  mkBounds start (start + windowMs).

Definition normalizeApiKeyWindowMs (value : jsval) : Z :=
  match value with
  | JNum (Fin q) => if trunc q <=? 0 then USAGE_RESET_PERIOD_MS else trunc q
  | _ => USAGE_RESET_PERIOD_MS
  end.

(** A window length prints in decimal digits (below 10^21). *)
Definition apiKeyUsageV3PolicyVersion (windowMs : Z) : string := "v3:" +:+ pretty windowMs.

Definition hasUsageQuotaV3 (record : ApiKeyHashRecord) : bool := hr_usage_quota_version record =? 3.

Definition policyVersion (record : ApiKeyHashRecord) : string :=
  apiKeyUsageV3PolicyVersion (normalizeApiKeyWindowMs (hr_window_ms record)).

Definition apiKeyPolicyFromHashRecord (tokenHash : string) (record : ApiKeyHashRecord) (nowMs : Z)
    : option ApiKeyPolicy :=
  if negb (hasStrictPaidFallbackPolicy (hr_paid_fallback record)) || negb (hasUsageQuotaV3 record) then None else
  let windowMs := normalizeApiKeyWindowMs (hr_window_ms record) in
  let window := currentApiKeyUsageWindow (hr_usage_reset_at_ms record) windowMs nowMs in
  Some {| ap_token_hash := tokenHash;
          ap_key_id := hr_id record;
          ap_expires_at_ms := match hr_expires_at_ms record with
                              | Fin q => trunc q
                              | _ => API_KEY_NO_EXPIRATION_MS
                              end;
          ap_usage_limit_requests := hr_usage_limit_requests record;
          ap_window_ms := windowMs;
          ap_window_start_ms := wb_start window;
          ap_usage_reset_at_ms := wb_reset window;
          ap_policy_version := policyVersion record;
          ap_paid_fallback := hr_paid_fallback record |}.

(** ** Rows *)

Definition makeApiKeyUsageWindowV3 (policy : ApiKeyPolicy) (nowMs : Z) : ApiKeyUsageWindowV3 :=
  {| uw_key_id := ap_key_id policy;
     uw_policy_version := ap_policy_version policy;
     uw_window_start_ms := ap_window_start_ms policy;
     uw_window_reset_at_ms := ap_usage_reset_at_ms policy;
     uw_committed_requests := 0;
     uw_reserved_requests := 0;
     uw_updated_at_ms := nowMs |}.

(** [typeof value === "string" && value]. *)
Definition nonempty_string (v : jsval) : option string :=
  match v with JStr s => if empty s then None else Some s | _ => None end.

(** A field that is null or is accepted by [f]. *)
Definition nullable {A} (f : jsval -> option A) (v : jsval) : option (option A) :=
  if is_null v then Some None else Some <$> f v.

Definition any_string (v : jsval) : option string := match v with JStr s => Some s | _ => None end.

Definition isApiKeyUsageProvider (v : jsval) : option ApiKeyUsageProvider :=
  match v with JStr s => assoc s API_KEY_USAGE_PROVIDERS | _ => None end.

Definition usage_state (v : jsval) : option UsageState :=
  if is_str v "reserved" then Some UReserved
  else if is_str v "dispatched" then Some UDispatched
  else if is_str v "released" then Some UReleased else None.

Definition normalizeApiKeyUsageWindowV3 (value : jsval) : option ApiKeyUsageWindowV3 :=
  if negb (isRecord value) || negb (is_int (prop value "v") 3) then None else
  key_id ← nonempty_string (prop value "key_id");
  policy_version ← nonempty_string (prop value "policy_version");
  start ← nonNegativeSafeInteger (prop value "window_start_ms");
  reset ← nonNegativeSafeInteger (prop value "window_reset_at_ms");
  if reset <=? start then None else
  committed ← nonNegativeSafeInteger (prop value "committed_requests");
  reserved ← nonNegativeSafeInteger (prop value "reserved_requests");
  updated ← nonNegativeSafeInteger (prop value "updated_at_ms");
  Some (mkUsageWindow key_id policy_version start reset committed reserved updated).

(** Which optional fields a row of each state carries. *)
Definition state_fields (r : ApiKeyUsageRequestV3) : bool :=
  match ur_state r with
  | UReserved => negb (bool_decide (is_Some (ur_provider r)) || bool_decide (is_Some (ur_dispatched_at_ms r))
      || bool_decide (is_Some (ur_released_at_ms r)) || bool_decide (is_Some (ur_release_reason r)))
  | UDispatched => bool_decide (is_Some (ur_provider r)) && bool_decide (is_Some (ur_dispatched_at_ms r))
      && negb (bool_decide (is_Some (ur_released_at_ms r))) && negb (bool_decide (is_Some (ur_release_reason r)))
  | UReleased => negb (bool_decide (is_Some (ur_provider r))) && negb (bool_decide (is_Some (ur_dispatched_at_ms r)))
      && bool_decide (is_Some (ur_released_at_ms r)) && bool_decide (is_Some (ur_release_reason r))
  end.

Definition normalizeApiKeyUsageRequestV3 (value : jsval) : option ApiKeyUsageRequestV3 :=
  if negb (isRecord value) || negb (is_int (prop value "v") 3) then None else
  key_id ← nonempty_string (prop value "key_id");
  request_id ← nonempty_string (prop value "request_id");
  route ← nonempty_string (prop value "route");
  state ← usage_state (prop value "state");
  reserved_at ← nonNegativeSafeInteger (prop value "reserved_at_ms");
  lease ← nonNegativeSafeInteger (prop value "lease_expires_at_ms");
  provider ← nullable isApiKeyUsageProvider (prop value "provider");
  dispatched_at ← nullable nonNegativeSafeInteger (prop value "dispatched_at_ms");
  released_at ← nullable nonNegativeSafeInteger (prop value "released_at_ms");
  reason ← nullable any_string (prop value "release_reason");
  let r := mkUsageRequest key_id request_id route state reserved_at lease provider dispatched_at released_at reason in
  if state_fields r then Some r else None.

Definition matchingApiKeyUsageWindowV3 (value : jsval) (policy : ApiKeyPolicy) : option ApiKeyUsageWindowV3 :=
  window ← normalizeApiKeyUsageWindowV3 value;
  if bool_decide (uw_key_id window = ap_key_id policy)
     && bool_decide (uw_policy_version window = ap_policy_version policy)
     && (uw_window_start_ms window =? ap_window_start_ms policy)
     && (uw_window_reset_at_ms window =? ap_usage_reset_at_ms policy)
  then Some window else None.

Definition apiKeyUsageV3RetentionMs (windowResetAtMs nowMs : Z) : Z :=
  Z.max 1 (windowResetAtMs + API_KEY_USAGE_V3_RETENTION_MS - nowMs).

Definition isApiKeyUsageReservationExpired (request : ApiKeyUsageRequestV3) (nowMs : Z) : bool :=
  bool_decide (ur_state request = UReserved) && (ur_lease_expires_at_ms request <=? nowMs).

(** ** Plans *)

Record ApiKeyUsageSnapshot := mkUsageSnapshot { us_request : jsval; us_window : jsval }.

Inductive ApiKeyUsageCheck := CheckPolicy | CheckWindow | CheckRequest.

Record ApiKeyUsageWritePlan := mkWritePlan {
  wp_checks : list ApiKeyUsageCheck;
  wp_request : ApiKeyUsageRequestV3;
  wp_window : ApiKeyUsageWindowV3;
  wp_expireIn : Z }.

Definition writePlan (checks : list ApiKeyUsageCheck) (request : ApiKeyUsageRequestV3)
    (window : ApiKeyUsageWindowV3) (nowMs : Z) : ApiKeyUsageWritePlan :=
  mkWritePlan checks request window (apiKeyUsageV3RetentionMs (uw_window_reset_at_ms window) nowMs).

Inductive UnavailableReason := RequestMalformed | IdentityConflict | IdentityConsumed | WindowMalformed.

Inductive ApiKeyUsageReservationPlan :=
| ReserveWrite (p : ApiKeyUsageWritePlan)
| ReserveReuse
| ReserveFull (window : ApiKeyUsageWindowV3)
| ReserveUnavailable (reason : UnavailableReason).

Inductive ApiKeyUsageDispatchPlan :=
| DispatchWrite (p : ApiKeyUsageWritePlan)
| DispatchAlready
| DispatchInvalid.

Inductive ApiKeyUsageReleasePlan :=
| ReleaseWrite (p : ApiKeyUsageWritePlan)
| ReleaseMissing
| ReleaseInvalid
| ReleaseSettled.

Definition planApiKeyUsageReservation (policy : ApiKeyPolicy) (requestId route : string)
    (snapshot : ApiKeyUsageSnapshot) (nowMs : Z) : ApiKeyUsageReservationPlan :=
  let request := normalizeApiKeyUsageRequestV3 (us_request snapshot) in
  match request with
  | Some request =>
      if negb (bool_decide (ur_key_id request = ap_key_id policy))
         || negb (bool_decide (ur_request_id request = requestId))
         || negb (bool_decide (ur_route request = route))
      then ReserveUnavailable IdentityConflict
      else if negb (bool_decide (ur_state request = UReserved)) then ReserveUnavailable IdentityConsumed
      else ReserveReuse
  | None =>
      if negb (is_null (us_request snapshot)) then ReserveUnavailable RequestMalformed else
      match (if is_null (us_window snapshot) then Some (makeApiKeyUsageWindowV3 policy nowMs)
             else matchingApiKeyUsageWindowV3 (us_window snapshot) policy) with
      | None => ReserveUnavailable WindowMalformed
      | Some window =>
          if negb (ap_usage_limit_requests policy =? -1)
             && (ap_usage_limit_requests policy <=? uw_committed_requests window + uw_reserved_requests window)
          then ReserveFull window
          else ReserveWrite (writePlan [CheckPolicy; CheckWindow; CheckRequest]
            {| ur_key_id := ap_key_id policy;
               ur_request_id := requestId;
               ur_route := route;
               ur_state := UReserved;
               ur_reserved_at_ms := nowMs;
               ur_lease_expires_at_ms := nowMs + API_KEY_USAGE_V3_RESERVATION_LEASE_MS;
               ur_provider := None;
               ur_dispatched_at_ms := None;
               ur_released_at_ms := None;
               ur_release_reason := None |}
            (window <| uw_reserved_requests := uw_reserved_requests window + 1 |>
                    <| uw_updated_at_ms := nowMs |>)
            nowMs)
      end
  end.

Definition planApiKeyUsageDispatch (policy : ApiKeyPolicy) (requestId route : string)
    (provider : ApiKeyUsageProvider) (snapshot : ApiKeyUsageSnapshot) (nowMs : Z) : ApiKeyUsageDispatchPlan :=
  match normalizeApiKeyUsageRequestV3 (us_request snapshot) with
  | None => DispatchInvalid
  | Some request =>
      if negb (bool_decide (ur_key_id request = ap_key_id policy))
         || negb (bool_decide (ur_request_id request = requestId))
         || negb (bool_decide (ur_route request = route))
         || bool_decide (ur_state request = UReleased)
      then DispatchInvalid
      else if bool_decide (ur_state request = UDispatched) then DispatchAlready
      else match matchingApiKeyUsageWindowV3 (us_window snapshot) policy with
      | None => DispatchInvalid
      | Some window =>
          if uw_reserved_requests window <? 1 then DispatchInvalid else
          DispatchWrite (writePlan [CheckRequest; CheckWindow]
            (request <| ur_state := UDispatched |> <| ur_provider := Some provider |>
                     <| ur_dispatched_at_ms := Some nowMs |>)
            (window <| uw_committed_requests := uw_committed_requests window + 1 |>
                    <| uw_reserved_requests := uw_reserved_requests window - 1 |>
                    <| uw_updated_at_ms := nowMs |>)
            nowMs)
      end
  end.

Definition planApiKeyUsageReservedRelease (policy : ApiKeyPolicy) (requestId reason : string)
    (snapshot : ApiKeyUsageSnapshot) (nowMs : Z) (expectedRoute : option string) : ApiKeyUsageReleasePlan :=
  match normalizeApiKeyUsageRequestV3 (us_request snapshot) with
  | None => if is_null (us_request snapshot) then ReleaseMissing else ReleaseInvalid
  | Some request =>
      if negb (bool_decide (ur_key_id request = ap_key_id policy))
         || negb (bool_decide (ur_request_id request = requestId))
         || match expectedRoute with Some route => negb (bool_decide (ur_route request = route)) | None => false end
      then ReleaseInvalid
      else if negb (bool_decide (ur_state request = UReserved)) then ReleaseSettled
      else match matchingApiKeyUsageWindowV3 (us_window snapshot) policy with
      | None => ReleaseInvalid
      | Some window =>
          if uw_reserved_requests window <? 1 then ReleaseInvalid else
          ReleaseWrite (writePlan [CheckRequest; CheckWindow]
            (request <| ur_state := UReleased |> <| ur_released_at_ms := Some nowMs |>
                     <| ur_release_reason := Some reason |>)
            (window <| uw_reserved_requests := uw_reserved_requests window - 1 |>
                    <| uw_updated_at_ms := nowMs |>)
            nowMs)
      end
  end.

Definition planApiKeyUsageDispatchCancellation (policy : ApiKeyPolicy) (requestId route : string)
    (provider : ApiKeyUsageProvider) (snapshot : ApiKeyUsageSnapshot) (nowMs : Z) : ApiKeyUsageReleasePlan :=
  match normalizeApiKeyUsageRequestV3 (us_request snapshot) with
  | None => if is_null (us_request snapshot) then ReleaseMissing else ReleaseInvalid
  | Some request =>
      if negb (bool_decide (ur_key_id request = ap_key_id policy))
         || negb (bool_decide (ur_request_id request = requestId))
         || negb (bool_decide (ur_route request = route))
      then ReleaseInvalid
      else if negb (bool_decide (ur_state request = UDispatched)) then ReleaseSettled
      else if negb (bool_decide (ur_provider request = Some provider)) then ReleaseInvalid
      else match matchingApiKeyUsageWindowV3 (us_window snapshot) policy with
      | None => ReleaseInvalid
      | Some window =>
          if uw_committed_requests window <? 1 then ReleaseInvalid else
          ReleaseWrite (writePlan [CheckRequest; CheckWindow]
            (request <| ur_state := UReleased |> <| ur_provider := None |> <| ur_dispatched_at_ms := None |>
                     <| ur_released_at_ms := Some nowMs |>
                     <| ur_release_reason := Some "transport_cancelled_before_fetch" |>)
            (window <| uw_committed_requests := uw_committed_requests window - 1 |>
                    <| uw_updated_at_ms := nowMs |>)
            nowMs)
      end
  end.

(** ** Rows as stored *)

Definition json_option {A} (f : A -> jsval) (o : option A) : jsval :=
  match o with Some a => f a | None => JNull end.

Definition provider_name (p : ApiKeyUsageProvider) : string :=
  match p with
  | Cerebras => "cerebras" | ChatgptCodex => "chatgpt_codex" | ClaudeCode => "claude_code"
  | Deepseek => "deepseek" | Lithos => "lithos" | Openrouter => "openrouter"
  | RemovedProvider => "removed_provider" | MeteredProvider => "metered"
  | SurplusProvider => "surplus" | Voyage => "voyage"
  end.

Definition state_name (s : UsageState) : string :=
  match s with UReserved => "reserved" | UDispatched => "dispatched" | UReleased => "released" end.

Definition json_usage_window (w : ApiKeyUsageWindowV3) : jsval :=
  JObj [("v", jint 3); ("key_id", JStr (uw_key_id w)); ("policy_version", JStr (uw_policy_version w));
        ("window_start_ms", jint (uw_window_start_ms w)); ("window_reset_at_ms", jint (uw_window_reset_at_ms w));
        ("committed_requests", jint (uw_committed_requests w)); ("reserved_requests", jint (uw_reserved_requests w));
        ("updated_at_ms", jint (uw_updated_at_ms w))].

Definition json_usage_request (r : ApiKeyUsageRequestV3) : jsval :=
  JObj [("v", jint 3); ("key_id", JStr (ur_key_id r)); ("request_id", JStr (ur_request_id r));
        ("route", JStr (ur_route r)); ("state", JStr (state_name (ur_state r)));
        ("reserved_at_ms", jint (ur_reserved_at_ms r)); ("lease_expires_at_ms", jint (ur_lease_expires_at_ms r));
        ("provider", json_option (fun p => JStr (provider_name p)) (ur_provider r));
        ("dispatched_at_ms", json_option jint (ur_dispatched_at_ms r));
        ("released_at_ms", json_option jint (ur_released_at_ms r));
        ("release_reason", json_option JStr (ur_release_reason r))].
