(* ===== verification/ApiKeyStore.v ===== *)
(** * The API-key usage quota over the key-value store

    [src/api-key-policy.ts]: reservation, dispatch, cancellation, release and
    reclaim of API-key usage, the deferred reservation, deletion, and the
    authentication of a token with its policy cache.  The in-process lock of
    [withApiKeyUsageWindowLock] only narrows the interleavings and is left out;
    [console.warn] is dropped.  A reservation object is a record of the
    variables its callbacks share. *)

From Stdlib Require Import ZArith QArith Lia Ascii.
From stdpp Require Import base gmap strings list pretty.
From S2P Require Import Prelude Js JsonText HttpDate KvStore NativePaid ApiKeyUsage.
Open Scope string_scope.
Open Scope Z_scope.

(** ** Values and keys *)

(** What the keys of this component hold: hash records under the hash keys, JSON
    rows under the usage keys. *)
Inductive ApiKeyValue :=
| HashValue (r : ApiKeyHashRecord)
| RowValue (v : jsval).

#[export] Instance ApiKeyValue_null : Nullable ApiKeyValue := RowValue JNull.

Notation KeyEntry := (KvEntryOf ApiKeyValue).

(** A hash record has no [v] field, so that no normalizer of rows takes it. *)
Definition row_value (v : ApiKeyValue) : jsval := match v with RowValue v => v | HashValue _ => JObj [] end.
Definition row_of (e : KeyEntry) : jsval := row_value (entry_value e).
Definition hash_of (e : KeyEntry) : option ApiKeyHashRecord :=
  match entry_value e with HashValue r => Some r | RowValue _ => None end.

Definition API_KEY_HASH_PREFIX : KvKey := [KStr "ubq_ai"; KStr "api_keys"; KStr "hash"].
Definition API_KEY_USAGE_V3_PREFIX : KvKey := [KStr "uos_ai"; KStr "api_key_usage"; KStr "v3"].
Definition API_KEY_USAGE_V3_WINDOW_PREFIX : KvKey := (API_KEY_USAGE_V3_PREFIX ++ [KStr "window"])%list.
Definition API_KEY_USAGE_V3_REQUEST_PREFIX : KvKey := (API_KEY_USAGE_V3_PREFIX ++ [KStr "request"])%list.

Definition apiKeyHashKey (hash : string) : KvKey := (API_KEY_HASH_PREFIX ++ [KStr hash])%list.

(** The window-identity fields that scope every usage key. *)
Record UsageScope := mkScope { sc_key_id : string; sc_policy_version : string; sc_window_start_ms : Z }.

#[export] Instance UsageScope_eq_dec : EqDecision UsageScope.
Proof. solve_decision. Defined.

Definition scope_of (policy : ApiKeyPolicy) : UsageScope :=
  mkScope (ap_key_id policy) (ap_policy_version policy) (ap_window_start_ms policy).

Definition apiKeyUsageV3WindowKey (sc : UsageScope) : KvKey :=
  (API_KEY_USAGE_V3_WINDOW_PREFIX ++ [KStr (sc_key_id sc); KStr (sc_policy_version sc); KNum (sc_window_start_ms sc)])%list.

Definition request_prefix (sc : UsageScope) : KvKey :=
  (API_KEY_USAGE_V3_REQUEST_PREFIX ++ [KStr (sc_key_id sc); KStr (sc_policy_version sc); KNum (sc_window_start_ms sc)])%list.

Definition apiKeyUsageV3RequestKey (sc : UsageScope) (requestId : string) : KvKey :=
  (request_prefix sc ++ [KStr requestId])%list.

Definition MAX_KV_RETRIES : nat := 5.
Definition API_KEY_POLICY_CACHE_TTL_MS : Z := 30000.

(** ** Responses *)

Record OpenaiError := mkOpenaiError {
  oe_status : Z;
  oe_message : string;
  oe_code : string;
  oe_type : string;
  oe_headers : list (string * string) }.

Definition quotaUnavailable (message : string) : OpenaiError := mkOpenaiError 503 message "server_error" "server_error" [].
Definition LEDGER_UNAVAILABLE : string := "API key quota ledger is unavailable".
Definition unauthorized : OpenaiError := mkOpenaiError 401 "Unauthorized" "invalid_api_key" "invalid_request_error" [].

(** [Math.ceil(ms / 1000)]. *)
Definition ceil_seconds (ms : Z) : Z := - (- ms / 1000).

(** A double quote, which the header values carry around the policy name. *)
Definition quote : string := String (ascii_of_nat 34) "".

Definition rateLimitExceededHeaders (window : ApiKeyUsageWindowV3) (policy : ApiKeyPolicy) (nowMs : Z)
    : list (string * string) :=
  let retryAfterSeconds := Z.max 1 (ceil_seconds (Z.max 0 (uw_window_reset_at_ms window - nowMs))) in
  let remaining := Z.max 0 (ap_usage_limit_requests policy - uw_committed_requests window - uw_reserved_requests window) in
  let windowSeconds := Z.max 1 (ceil_seconds (uw_window_reset_at_ms window - uw_window_start_ms window)) in
  [("Retry-After", pretty retryAfterSeconds);
   ("RateLimit", quote +:+ "api-key" +:+ quote +:+ ";r=" +:+ pretty remaining +:+ ";t=" +:+ pretty retryAfterSeconds);
   ("RateLimit-Policy", quote +:+ "api-key" +:+ quote +:+ ";q=" +:+ pretty (ap_usage_limit_requests policy)
     +:+ ";w=" +:+ pretty windowSeconds);
   ("RateLimit-Limit", pretty (ap_usage_limit_requests policy));
   ("RateLimit-Remaining", pretty remaining);
   ("RateLimit-Reset", pretty retryAfterSeconds)].

Definition string_of_text (t : text) : string := string_of_list ((fun c => ascii_of_nat (Z.to_nat c)) <$> t).

(** [new Date(t).toISOString()]; a time outside the range of dates throws. *)
Definition toISOString (t : Z) : Result string string :=
  if (t <? -8640000000000000) || (8640000000000000 <? t) then Err "Invalid time value" else
  let day := t / msPerDay in
  let ms := t mod msPerDay in
  let y := year_of_day day in
  let yd := day - day_from_year y in
  let m := month_of (leap y) yd in
  let year := if y <? 0 then 45 :: pad 6 (decimal 7 (- y)) else if y <? 10000 then (two_digits (y / 100) ++ two_digits y)%list
              else 43 :: pad 6 (decimal 7 y) in
  Ok (string_of_text (year ++ [45] ++ two_digits (m + 1) ++ [45] ++ two_digits (yd - days_before (leap y) m + 1)
    ++ [84] ++ two_digits (ms / 3600000) ++ [58] ++ two_digits (ms / 60000 mod 60) ++ [58]
    ++ two_digits (ms / 1000 mod 60) ++ [46] ++ [digit (ms mod 1000 / 100)] ++ two_digits (ms mod 100) ++ [90])%list).

Example iso_date : toISOString 784111777042 = Ok "1994-11-06T08:49:37.042Z".
Proof. vm_compute. reflexivity. Qed.

Definition quotaExceededResponse (window : ApiKeyUsageWindowV3) (policy : ApiKeyPolicy) (nowMs : Z)
    : Result string OpenaiError :=
  iso ← toISOString (uw_window_reset_at_ms window);
  Ok (mkOpenaiError 429
    ("Usage limit exceeded (" +:+ pretty (uw_committed_requests window) +:+ "/" +:+ pretty (ap_usage_limit_requests policy)
     +:+ "). Resets at " +:+ iso)
    "rate_limit_exceeded" "rate_limit_error" (rateLimitExceededHeaders window policy nowMs)).

(** [value <= z] of a number. *)
Definition num_le (n : number) (z : Z) : bool :=
  match n with NaN => false | Infinity negative => negative | Fin q => Qle_bool q (inject_Z z) end.

Definition unavailablePolicyResponse (e : KeyEntry) (nowMs : Z) : OpenaiError :=
  match hash_of e with
  | None => unauthorized
  | Some record =>
      if bool_decide (is_Some (hr_revoked_at_ms record)) || num_le (hr_expires_at_ms record) nowMs
      then unauthorized else quotaUnavailable "API key quota policy is incomplete"
  end.

Definition livePolicyFromEntry (tokenHash : string) (e : KeyEntry) (nowMs : Z) : option ApiKeyPolicy :=
  record ← hash_of e;
  if bool_decide (is_Some (hr_revoked_at_ms record)) then None else
  policy ← apiKeyPolicyFromHashRecord tokenHash record nowMs;
  if negb (ap_expires_at_ms policy =? API_KEY_NO_EXPIRATION_MS) && (ap_expires_at_ms policy <=? nowMs)
  then None else Some policy.

(** ** Reservations as objects *)

Record ProviderDispatch := mkProviderDispatch {
  pd_policy : ApiKeyPolicy;
  pd_requestId : string;
  pd_route : string;
  pd_provider : ApiKeyUsageProvider;
  pd_transportStarted : bool;
  pd_cancellation : option (Result string unit) }.

#[export] Instance ProviderDispatch_eta : Eta ProviderDispatch := fun r =>
  mkProviderDispatch (pd_policy r) (pd_requestId r) (pd_route r) (pd_provider r) (pd_transportStarted r)
    (pd_cancellation r).

Definition providerDispatchContext (policy : ApiKeyPolicy) (requestId route : string) (provider : ApiKeyUsageProvider)
    : ProviderDispatch := mkProviderDispatch policy requestId route provider false None.

Definition markTransportStarted (d : ProviderDispatch) : ProviderDispatch := d <| pd_transportStarted := true |>.

Record ReservationContext := mkReservationContext {
  rc_policy : ApiKeyPolicy;
  rc_request_id : string;
  rc_route : string;
  rc_dispatchedByThisReservation : bool }.

#[export] Instance ReservationContext_eta : Eta ReservationContext := fun r =>
  mkReservationContext (rc_policy r) (rc_request_id r) (rc_route r) (rc_dispatchedByThisReservation r).

Definition reservationContext (policy : ApiKeyPolicy) (requestId route : string) : ReservationContext :=
  mkReservationContext policy requestId route false.

(** [dr_failed]: the admission promise was rejected. *)
Record DeferredReservation := mkDeferred {
  dr_policy : ApiKeyPolicy;
  dr_request_id : string;
  dr_route : string;
  dr_active : option ReservationContext;
  dr_failed : option string }.

#[export] Instance DeferredReservation_eta : Eta DeferredReservation := fun r =>
  mkDeferred (dr_policy r) (dr_request_id r) (dr_route r) (dr_active r) (dr_failed r).

Definition deferredReservationContext (policy : ApiKeyPolicy) (requestId route : string) : DeferredReservation :=
  mkDeferred policy requestId route None None.

Inductive ApiKeyUsageReservationDecision :=
| Granted (c : ReservationContext)
| GrantedDeferred (d : DeferredReservation)
| Refused (response : OpenaiError).

Inductive ApiKeyUsageReservationAttempt :=
| AttemptDecision (d : ApiKeyUsageReservationDecision)
| AttemptReclaimed
| AttemptRetry.

Inductive ReleaseOutcome := OutReleased | OutSettled | OutMissing | OutInvalid | OutConflict.

Definition unavailable_message (reason : UnavailableReason) : string :=
  match reason with
  | RequestMalformed => "API key quota request is malformed"
  | IdentityConflict => "API key quota request identity conflicts"
  | IdentityConsumed => "API key quota request identity is already consumed"
  | WindowMalformed => "API key quota aggregate is malformed"
  end.

(** ** The dispatch error of a refused deferred admission *)

Record ApiKeyQuotaDispatchError := mkDispatchError {
  qe_message : string;
  qe_status : Z;
  qe_code : string;
  qe_errorType : string;
  qe_retryAfter : option string;
  qe_headers : list (string * string) }.

Definition STANDARD_RATE_LIMIT_HEADERS : list string :=
  ["RateLimit"; "RateLimit-Policy"; "RateLimit-Limit"; "RateLimit-Remaining"; "RateLimit-Reset"].

(** The response is one of those above, whose body states a message, a code and
    a type. *)
Definition quotaDispatchErrorFromResponse (response : OpenaiError) : ApiKeyQuotaDispatchError :=
  {| qe_message := oe_message response;
     qe_status := oe_status response;
     qe_code := oe_code response;
     qe_errorType := oe_type response;
     qe_retryAfter := assoc "Retry-After" (oe_headers response);
     qe_headers := omap (fun name =>
       value ← assoc name (oe_headers response); if empty value then None else Some (name, value))
       ("Retry-After" :: STANDARD_RATE_LIMIT_HEADERS) |}.

(** ** The adapters *)

Section adapters.
Context {S : Type} `{Kv : !KvStoreOf ApiKeyValue S}.
Context (others : Clients S) (clock : nat -> Z).
Local Notation get := (get others).
Local Notation list_prefix := (list_prefix others).
Local Notation commit := (commit others).
Local Notation now := (date_now clock).
Local Open Scope kv_scope.

Definition write_rows (sc : UsageScope) (requestId : string) (p : ApiKeyUsageWritePlan) : list (KvMutationOf ApiKeyValue) :=
  [MSet (apiKeyUsageV3RequestKey sc requestId) (RowValue (json_usage_request (wp_request p))) (Some (wp_expireIn p));
   MSet (apiKeyUsageV3WindowKey sc) (RowValue (json_usage_window (wp_window p))) (Some (wp_expireIn p))].

(** The commit both releases share. *)
Definition commit_release (sc : UsageScope) (requestId : string) (requestEntry windowEntry : KeyEntry)
    (plan : ApiKeyUsageReleasePlan) : KvM S ReleaseOutcome :=
  match plan with
  | ReleaseMissing => kv_ret OutMissing
  | ReleaseInvalid => kv_ret OutInvalid
  | ReleaseSettled => kv_ret OutSettled
  | ReleaseWrite p =>
      let! ok := commit [requestEntry; windowEntry] (write_rows sc requestId p) in
      kv_ret (if (ok : bool) then OutReleased else OutConflict)
  end.

Definition releaseReservedRequest (policy : ApiKeyPolicy) (requestId reason : string) (nowMs : Z)
    (expectedRoute : option string) : KvM S ReleaseOutcome :=
  let sc := scope_of policy in
  let! requestEntry := get (apiKeyUsageV3RequestKey sc requestId) in
  let! windowEntry := get (apiKeyUsageV3WindowKey sc) in
  commit_release sc requestId requestEntry windowEntry
    (planApiKeyUsageReservedRelease policy requestId reason
       (mkUsageSnapshot (row_of requestEntry) (row_of windowEntry)) nowMs expectedRoute).

Definition releaseDispatchedRequest (policy : ApiKeyPolicy) (requestId route : string)
    (provider : ApiKeyUsageProvider) (nowMs : Z) : KvM S ReleaseOutcome :=
  let sc := scope_of policy in
  let! requestEntry := get (apiKeyUsageV3RequestKey sc requestId) in
  let! windowEntry := get (apiKeyUsageV3WindowKey sc) in
  commit_release sc requestId requestEntry windowEntry
    (planApiKeyUsageDispatchCancellation policy requestId route provider
       (mkUsageSnapshot (row_of requestEntry) (row_of windowEntry)) nowMs).

(** The retry loop of a release or a cancellation. *)
Fixpoint release_loop (tries : nat) (attempt : Z -> KvM S ReleaseOutcome) : KvM S unit :=
  match tries with
  | O => kv_throw "API key quota reservation changed concurrently"
  | Datatypes.S tries =>
      let! nowMs := now in
      let! outcome := attempt nowMs in
      match outcome with
      | OutReleased | OutSettled | OutMissing => kv_ret tt
      | OutInvalid => kv_throw "API key quota reservation is malformed"
      | OutConflict => release_loop tries attempt
      end
  end.

(** The promise a call settles with, as a value. *)
Definition settled_promise {A} (m : KvM S A) : KvM S (Result string A) := fun w => let '(r, w) := m w in (Ok r, w).

Definition cancelBeforeTransport (d : ProviderDispatch) : KvM S (Result string unit * ProviderDispatch) :=
  if pd_transportStarted d then kv_ret (Ok tt, d) else
  match pd_cancellation d with
  | Some outcome => kv_ret (outcome, d)
  | None =>
      let! outcome := settled_promise (release_loop MAX_KV_RETRIES
        (releaseDispatchedRequest (pd_policy d) (pd_requestId d) (pd_route d) (pd_provider d))) in
      kv_ret (outcome, d <| pd_cancellation := Some outcome |>)
  end.

(** The last part of a key, when it is a string. *)
Definition last_string (k : KvKey) : option string :=
  match last k with Some (KStr s) => Some s | _ => None end.

Fixpoint expired_listed (policy : ApiKeyPolicy) (nowMs : Z) (es : list KeyEntry) : Result string (list string) :=
  match es with
  | [] => Ok []
  | e :: es =>
      match normalizeApiKeyUsageRequestV3 (row_of e), last_string (entry_key e) with
      | Some request, Some requestId =>
          if bool_decide (ur_key_id request = ap_key_id policy) && bool_decide (ur_request_id request = requestId) then
            expired ← expired_listed policy nowMs es;
            Ok (if isApiKeyUsageReservationExpired request nowMs then ur_request_id request :: expired else expired)
          else Err "API key quota request is malformed"
      | _, _ => Err "API key quota request is malformed"
      end
  end.

Definition expiredApiKeyUsageRequestIds (policy : ApiKeyPolicy) (nowMs : Z) : KvM S (list string) :=
  let! es := list_prefix (request_prefix (scope_of policy)) in
  kv_lift (expired_listed policy nowMs es).

Fixpoint release_expired_loop (tries : nat) (policy : ApiKeyPolicy) (requestId : string) (nowMs : Z) : KvM S unit :=
  match tries with
  | O => kv_throw "API key quota lease changed concurrently"
  | Datatypes.S tries =>
      let! outcome := releaseReservedRequest policy requestId "lease_expired" nowMs None in
      match outcome with
      | OutConflict => release_expired_loop tries policy requestId nowMs
      | OutInvalid => kv_throw "API key quota request is malformed"
      | _ => kv_ret tt
      end
  end.

Definition releaseExpiredApiKeyUsageReservation (policy : ApiKeyPolicy) (requestId : string) (nowMs : Z) : KvM S unit :=
  release_expired_loop MAX_KV_RETRIES policy requestId nowMs.

Fixpoint release_each (policy : ApiKeyPolicy) (nowMs : Z) (ids : list string) : KvM S unit :=
  match ids with
  | [] => kv_ret tt
  | id :: ids => let! _ := releaseExpiredApiKeyUsageReservation policy id nowMs in release_each policy nowMs ids
  end.

Definition reclaimExpiredApiKeyUsageReservationsV3 (policy : ApiKeyPolicy) (nowMs : Z) : KvM S unit :=
  let! ids := expiredApiKeyUsageRequestIds policy nowMs in release_each policy nowMs ids.

(** *** Dispatch and release of a reservation *)

Fixpoint dispatch_loop (tries : nat) (policy : ApiKeyPolicy) (requestId route : string) (provider : ApiKeyUsageProvider)
    : KvM S bool :=
  match tries with
  | O => kv_throw "API key quota reservation changed concurrently"
  | Datatypes.S tries =>
      let sc := scope_of policy in
      let! requestEntry := get (apiKeyUsageV3RequestKey sc requestId) in
      let! windowEntry := get (apiKeyUsageV3WindowKey sc) in
      let! nowMs := now in
      match planApiKeyUsageDispatch policy requestId route provider
              (mkUsageSnapshot (row_of requestEntry) (row_of windowEntry)) nowMs with
      | DispatchInvalid => kv_throw "API key quota reservation is no longer available"
      | DispatchAlready => kv_ret false
      | DispatchWrite p =>
          let! ok := commit [requestEntry; windowEntry] (write_rows sc requestId p) in
          if (ok : bool) then kv_ret true else dispatch_loop tries policy requestId route provider
      end
  end.

Definition beforeProviderDispatch (c : ReservationContext) (provider : ApiKeyUsageProvider)
    : KvM S (option ProviderDispatch * ReservationContext) :=
  let! dispatchedHere := dispatch_loop MAX_KV_RETRIES (rc_policy c) (rc_request_id c) (rc_route c) provider in
  kv_ret (if (dispatchedHere : bool)
          then (Some (providerDispatchContext (rc_policy c) (rc_request_id c) (rc_route c) provider),
                c <| rc_dispatchedByThisReservation := true |>)
          else (None, c)).

Definition release (c : ReservationContext) (reason : option string) : KvM S unit :=
  if rc_dispatchedByThisReservation c then kv_ret tt else
  release_loop MAX_KV_RETRIES (fun nowMs =>
    releaseReservedRequest (rc_policy c) (rc_request_id c)
      (default "route_completed_without_provider_dispatch" reason) nowMs (Some (rc_route c))).

(** *** Reservation *)

(** [None] asks for another attempt after the reclaim. *)
Definition fullWindowReservation (policy : ApiKeyPolicy) (requestId route : string) (window : ApiKeyUsageWindowV3)
    (nowMs : Z) (reclaimedExpiredReservations deferWhenFull : bool) : KvM S (option ApiKeyUsageReservationDecision) :=
  if reclaimedExpiredReservations then
    if deferWhenFull then kv_ret (Some (GrantedDeferred (deferredReservationContext policy requestId route))) else
    let! at_ := now in
    let! response := kv_lift (quotaExceededResponse window policy at_) in
    kv_ret (Some (Refused response))
  else
    kv_catch (let! _ := reclaimExpiredApiKeyUsageReservationsV3 policy nowMs in kv_ret None)
      (fun _ => kv_ret (Some (Refused (quotaUnavailable LEDGER_UNAVAILABLE)))).

Definition attemptApiKeyUsageReservation (policy : ApiKeyPolicy) (requestId route : string) (nowMs : Z)
    (reclaimedExpiredReservations deferWhenFull : bool) : KvM S ApiKeyUsageReservationAttempt :=
  let! policyEntry := get (apiKeyHashKey (ap_token_hash policy)) in
  match livePolicyFromEntry (ap_token_hash policy) policyEntry nowMs with
  | None => kv_ret (AttemptDecision (Refused (unavailablePolicyResponse policyEntry nowMs)))
  | Some livePolicy =>
      let sc := scope_of livePolicy in
      let! windowEntry := get (apiKeyUsageV3WindowKey sc) in
      let! requestEntry := get (apiKeyUsageV3RequestKey sc requestId) in
      match planApiKeyUsageReservation livePolicy requestId route
              (mkUsageSnapshot (row_of requestEntry) (row_of windowEntry)) nowMs with
      | ReserveUnavailable reason =>
          kv_ret (AttemptDecision (Refused (quotaUnavailable (unavailable_message reason))))
      | ReserveReuse => kv_ret (AttemptDecision (Granted (reservationContext livePolicy requestId route)))
      | ReserveFull window =>
          let! outcome := fullWindowReservation livePolicy requestId route window nowMs
                            reclaimedExpiredReservations deferWhenFull in
          kv_ret match outcome with Some d => AttemptDecision d | None => AttemptReclaimed end
      | ReserveWrite p =>
          let! ok := commit [policyEntry; windowEntry; requestEntry]
            [MSet (apiKeyUsageV3WindowKey sc) (RowValue (json_usage_window (wp_window p))) (Some (wp_expireIn p));
             MSet (apiKeyUsageV3RequestKey sc requestId) (RowValue (json_usage_request (wp_request p))) (Some (wp_expireIn p))] in
          kv_ret (if (ok : bool) then AttemptDecision (Granted (reservationContext livePolicy requestId route))
                  else AttemptRetry)
      end
  end.

Fixpoint reserve_loop (tries : nat) (policy : ApiKeyPolicy) (requestId route : string) (nowMs : option Z)
    (reclaimed deferWhenFull : bool) : KvM S ApiKeyUsageReservationDecision :=
  match tries with
  | O => kv_ret (Refused (quotaUnavailable "API key quota ledger changed concurrently"))
  | Datatypes.S tries =>
      let! current := now in
      let! outcome := attemptApiKeyUsageReservation policy requestId route (default current nowMs) reclaimed deferWhenFull in
      match outcome with
      | AttemptDecision d => kv_ret d
      | AttemptReclaimed => reserve_loop tries policy requestId route nowMs true deferWhenFull
      | AttemptRetry => reserve_loop tries policy requestId route nowMs reclaimed deferWhenFull
      end
  end.

(** [available]: a store could be opened. *)
Definition reserveApiKeyUsageV3 (available : bool) (policy : ApiKeyPolicy) (requestId route : string) (nowMs : option Z)
    (deferWhenFull : bool) : KvM S ApiKeyUsageReservationDecision :=
  kv_catch
    (if negb available then kv_ret (Refused (quotaUnavailable LEDGER_UNAVAILABLE)) else
     if empty requestId || empty route
     then kv_ret (Refused (quotaUnavailable "API key quota reservation requires a request id and route"))
     else reserve_loop MAX_KV_RETRIES policy requestId route nowMs false deferWhenFull)
    (fun _ => kv_ret (Refused (quotaUnavailable LEDGER_UNAVAILABLE))).

(** *** Deferred reservations *)

(** The answer of [requireAdmission] and the context it leaves.  Without
    [deferWhenFull] no reservation is deferred again. *)
Definition requireAdmission (d : DeferredReservation) : KvM S (Result string ReservationContext * DeferredReservation) :=
  match dr_active d, dr_failed d with
  | Some active, _ => kv_ret (Ok active, d)
  | None, Some error => kv_ret (Err error, d)
  | None, None =>
      let! decision := reserveApiKeyUsageV3 true (dr_policy d) (dr_request_id d) (dr_route d) None false in
      match decision with
      | Granted c => kv_ret (Ok c, d <| dr_active := Some c |>)
      | Refused response =>
          let error := qe_message (quotaDispatchErrorFromResponse response) in
          kv_ret (Err error, d <| dr_failed := Some error |>)
      | GrantedDeferred _ => kv_throw "unreachable"
      end
  end.

Definition deferredBeforeProviderDispatch (d : DeferredReservation) (provider : ApiKeyUsageProvider)
    : KvM S (Result string (option ProviderDispatch) * DeferredReservation) :=
  let! '(admitted, d) := requireAdmission d in
  match admitted with
  | Err e => kv_ret (Err e, d)
  | Ok c =>
      let! dispatched := settled_promise (beforeProviderDispatch c provider) in
      kv_ret match dispatched with
             | Ok (dispatch, c) => (Ok dispatch, d <| dr_active := Some c |>)
             | Err e => (Err e, d)
             end
  end.

Definition deferredRelease (d : DeferredReservation) (reason : option string) : KvM S unit :=
  match dr_active d with Some c => release c reason | None => kv_ret tt end.

(** *** Reads, reclaim and deletion for a key *)

Definition getApiKeyUsageV3 (available : bool) (policy : ApiKeyPolicy) : KvM S Z :=
  if negb available then kv_ret 0 else
  let! entry := get (apiKeyUsageV3WindowKey (scope_of policy)) in
  kv_ret match matchingApiKeyUsageWindowV3 (row_of entry) policy with
         | Some window => uw_committed_requests window
         | None => 0
         end.

Definition is_live (nowMs : Z) (e : KeyEntry) : bool :=
  match normalizeApiKeyUsageRequestV3 (row_of e) with
  | Some request => bool_decide (ur_state request = UReserved) && (nowMs <? ur_lease_expires_at_ms request)
  | None => false
  end.

Definition hasLiveApiKeyUsageReservationsV3 (keyId : string) (nowMs : Z) : KvM S bool :=
  let! es := list_prefix (API_KEY_USAGE_V3_REQUEST_PREFIX ++ [KStr keyId])%list in
  kv_ret (existsb (is_live nowMs) es).

(** The policy an expired row needs released under, if its key is one of ours. *)
Definition reclaim_scope (keyId : string) (nowMs : Z) (e : KeyEntry) : option UsageScope :=
  request ← normalizeApiKeyUsageRequestV3 (row_of e);
  if negb (bool_decide (ur_state request = UReserved)) || (nowMs <? ur_lease_expires_at_ms request) then None else
  match entry_key e !! 5%nat, entry_key e !! 6%nat with
  | Some (KStr version), Some (KNum start) =>
      if isSafeInteger start && (0 <=? start) then Some (mkScope keyId version start) else None
  | _, _ => None
  end.

Definition reclaim_policy (sc : UsageScope) (resetAtMs : Z) : ApiKeyPolicy :=
  {| ap_token_hash := "";
     ap_key_id := sc_key_id sc;
     ap_expires_at_ms := API_KEY_NO_EXPIRATION_MS;
     ap_usage_limit_requests := API_KEY_NO_USAGE_LIMIT;
     ap_window_ms := 1;
     ap_window_start_ms := sc_window_start_ms sc;
     ap_usage_reset_at_ms := resetAtMs;
     ap_policy_version := sc_policy_version sc;
     ap_paid_fallback := JObj [("paid_fallback_enabled", JBool false); ("paid_fallback_limit_microcredits", jint 0);
       ("paid_fallback_spent_microcredits", jint 0); ("paid_fallback_reserved_microcredits", jint 0);
       ("paid_fallback_reservation_request_id", JNull)] |}.

(** [policies.set(key, policy)]; the key is the version and the start, which
    name the scope. *)
Fixpoint policies_set (policy : ApiKeyPolicy) (policies : list ApiKeyPolicy) : list ApiKeyPolicy :=
  match policies with
  | [] => [policy]
  | p :: ps =>
      if bool_decide (ap_policy_version p = ap_policy_version policy) && (ap_window_start_ms p =? ap_window_start_ms policy)
      then policy :: ps else p :: policies_set policy ps
  end.

Fixpoint reclaim_policies (keyId : string) (nowMs : Z) (policies : list ApiKeyPolicy) (es : list KeyEntry)
    : KvM S (list ApiKeyPolicy) :=
  match es with
  | [] => kv_ret policies
  | e :: es =>
      match reclaim_scope keyId nowMs e with
      | None => reclaim_policies keyId nowMs policies es
      | Some sc =>
          let! windowEntry := get (apiKeyUsageV3WindowKey sc) in
          match normalizeApiKeyUsageWindowV3 (row_of windowEntry) with
          | None => reclaim_policies keyId nowMs policies es
          | Some window =>
              reclaim_policies keyId nowMs (policies_set (reclaim_policy sc (uw_window_reset_at_ms window)) policies) es
          end
      end
  end.

Fixpoint reclaim_each (nowMs : Z) (policies : list ApiKeyPolicy) : KvM S unit :=
  match policies with
  | [] => kv_ret tt
  | p :: ps => let! _ := reclaimExpiredApiKeyUsageReservationsV3 p nowMs in reclaim_each nowMs ps
  end.

Definition reclaimApiKeyUsageReservationsForKeyV3 (keyId : string) (nowMs : Z) : KvM S unit :=
  let! es := list_prefix (API_KEY_USAGE_V3_REQUEST_PREFIX ++ [KStr keyId])%list in
  let! policies := reclaim_policies keyId nowMs [] es in
  reclaim_each nowMs policies.

Fixpoint delete_each (keys : list KvKey) : KvM S unit :=
  match keys with
  | [] => kv_ret tt
  | k :: ks => let! _ := commit [] [MDelete k] in delete_each ks
  end.

Definition deleteApiKeyUsageV3 (keyId : string) : KvM S unit :=
  let! windows := list_prefix (API_KEY_USAGE_V3_WINDOW_PREFIX ++ [KStr keyId])%list in
  let! requests := list_prefix (API_KEY_USAGE_V3_REQUEST_PREFIX ++ [KStr keyId])%list in
  delete_each ((entry_key <$> windows) ++ (entry_key <$> requests))%list.

(** *** Authentication *)

Definition is_hex (c : ascii) : bool :=
  let n := code_unit c in ((48 <=? n) && (n <=? 57)) || ((97 <=? n) && (n <=? 102)).

Definition looksLikeUosApiKey (token : string) : bool :=
  match list_of_string (trim token) with
  | u :: sep :: rest => (code_unit u =? 117) && (code_unit sep =? 95) && Nat.eqb (length rest) 64 && forallb is_hex rest
  | _ => false
  end.

Record CachedPolicy := mkCached { ch_policy : ApiKeyPolicy; ch_expires_at_ms : Z }.

Inductive ApiKeyPolicyDecision := Authenticated (p : ApiKeyPolicy) | Rejected (response : OpenaiError).

(** A cached policy whose window has ended moves to the current one. *)
Definition rolled (policy : ApiKeyPolicy) (nowMs : Z) : ApiKeyPolicy :=
  let window := currentApiKeyUsageWindow (ap_usage_reset_at_ms policy) (ap_window_ms policy) nowMs in
  policy <| ap_window_start_ms := wb_start window |> <| ap_usage_reset_at_ms := wb_reset window |>.

Definition expiry_checked (tokenHash : string) (policy : ApiKeyPolicy) (nowMs : Z) (cache : gmap string CachedPolicy)
    : ApiKeyPolicyDecision * gmap string CachedPolicy :=
  if negb (ap_expires_at_ms policy =? API_KEY_NO_EXPIRATION_MS) && (ap_expires_at_ms policy <=? nowMs)
  then (Rejected unauthorized, delete tokenHash cache) else (Authenticated policy, cache).

(** The branch of a policy that is not cached. *)
Definition authenticate_read (tokenHash : string) (nowMs : Z) (cache : gmap string CachedPolicy)
    : KvM S (ApiKeyPolicyDecision * gmap string CachedPolicy) :=
  let! entry := get (apiKeyHashKey tokenHash) in
  match hash_of entry with
  | None => kv_ret (Rejected unauthorized, cache)
  | Some record =>
      if bool_decide (is_Some (hr_revoked_at_ms record)) then kv_ret (Rejected unauthorized, cache) else
      match apiKeyPolicyFromHashRecord tokenHash record nowMs with
      | None => kv_ret (Rejected (quotaUnavailable "API key quota migration is incomplete"), cache)
      | Some policy =>
          kv_ret (expiry_checked tokenHash policy nowMs
            (<[tokenHash := mkCached policy (nowMs + API_KEY_POLICY_CACHE_TTL_MS)]> cache))
      end
  end.

Definition authenticateApiKeyToken (sha256Base64Url : string -> string) (available : bool) (token : string) (nowMs : Z)
    (cache : gmap string CachedPolicy) : KvM S (ApiKeyPolicyDecision * gmap string CachedPolicy) :=
  if negb (looksLikeUosApiKey token) then kv_ret (Rejected unauthorized, cache) else
  let tokenHash := sha256Base64Url token in
  if negb available then kv_ret (Rejected unauthorized, cache) else
  match cached ← cache !! tokenHash; if nowMs <? ch_expires_at_ms cached then Some (ch_policy cached) else None with
  | None => authenticate_read tokenHash nowMs (delete tokenHash cache)
  | Some policy =>
      if ap_usage_reset_at_ms policy <=? nowMs then
        let policy := rolled policy nowMs in
        kv_ret (expiry_checked tokenHash policy nowMs
          (<[tokenHash := mkCached policy (nowMs + API_KEY_POLICY_CACHE_TTL_MS)]> cache))
      else kv_ret (expiry_checked tokenHash policy nowMs cache)
  end.

Definition invalidateApiKeyPolicy (keyId : option string) (cache : gmap string CachedPolicy) : gmap string CachedPolicy :=
  match keyId with
  | None => ∅
  | Some id => if empty id then ∅ else filter (fun c => ap_key_id (ch_policy (snd c)) <> id) cache
  end.
End adapters.
