(* ===== verification/ApiKeyRows.v ===== *)
(** * Rows of the API-key usage quota

    The types of the stored rows and what they read back as, the keys of a usage
    scope, the number of its requests in a state and how far a request has
    gone. *)

From Stdlib Require Import ZArith Lia.
From stdpp Require Import base gmap strings list.
From S2P Require Import Prelude Js KvStore KvLogic ApiKeyUsage ApiKeyStore.
Open Scope string_scope.
Open Scope Z_scope.

(** ** Well-formed rows *)

#[local] Arguments nonempty_string : simpl never.
#[local] Arguments nullable : simpl never.
#[local] Arguments usage_state : simpl never.
#[local] Arguments state_fields : simpl never.

Definition count_ok (z : Z) : Prop := 0 <= z <= MAX_SAFE_INTEGER.
Definition optional {A} (P : A -> Prop) (o : option A) : Prop := match o with Some a => P a | None => True end.

Record window_wf (w : ApiKeyUsageWindowV3) : Prop := {
  ww_key : uw_key_id w <> "";
  ww_version : uw_policy_version w <> "";
  ww_start : count_ok (uw_window_start_ms w);
  ww_reset : count_ok (uw_window_reset_at_ms w);
  ww_order : uw_window_start_ms w < uw_window_reset_at_ms w;
  ww_committed : count_ok (uw_committed_requests w);
  ww_reserved : count_ok (uw_reserved_requests w);
  ww_updated : count_ok (uw_updated_at_ms w) }.

Record request_wf (r : ApiKeyUsageRequestV3) : Prop := {
  rw_key : ur_key_id r <> "";
  rw_request : ur_request_id r <> "";
  rw_route : ur_route r <> "";
  rw_reserved_at : count_ok (ur_reserved_at_ms r);
  rw_lease : count_ok (ur_lease_expires_at_ms r);
  rw_dispatched_at : optional count_ok (ur_dispatched_at_ms r);
  rw_released_at : optional count_ok (ur_released_at_ms r);
  rw_fields : state_fields r = true }.

Lemma nonempty_string_Some v s : nonempty_string v = Some s <-> v = JStr s /\ s <> "".
Proof.
  unfold nonempty_string, empty. destruct v; try naive_solver.
  case_bool_decide; naive_solver.
Qed.

Lemma count_Some v z : nonNegativeSafeInteger v = Some z -> count_ok z.
Proof.
  intros H. apply safe_at_least_range in H as [H ?]. apply isSafeInteger_spec in H.
  unfold count_ok. lia.
Qed.

Lemma count_jint z : nonNegativeSafeInteger (jint z) = Some z <-> count_ok z.
Proof.
  unfold nonNegativeSafeInteger. rewrite safe_at_least_jint, isSafeInteger_spec. unfold count_ok.
  unfold MAX_SAFE_INTEGER. lia.
Qed.

Lemma count_jint_inv z y : nonNegativeSafeInteger (jint z) = Some y -> y = z.
Proof. apply safe_at_least_jint_inv. Qed.

Lemma bind_some {A B} (m : option A) (k : A -> option B) b :
  (m ≫= k) = Some b <-> exists a, m = Some a /\ k a = Some b.
Proof. destruct m; naive_solver. Qed.

Lemma usage_state_name s : usage_state (JStr (state_name s)) = Some s.
Proof. by destruct s. Qed.

Lemma provider_readback p : isApiKeyUsageProvider (JStr (provider_name p)) = Some p.
Proof. by destruct p. Qed.

Lemma nullable_json {A} (f : jsval -> option A) (g : A -> jsval) o :
  (forall a, g a <> JNull) -> (forall a, o = Some a -> f (g a) = Some a) -> nullable f (json_option g o) = Some o.
Proof.
  intros Hg Hf. unfold nullable. destruct o as [a|]; [|done]. cbn.
  specialize (Hg a). specialize (Hf a eq_refl). destruct (g a); cbn in *; try done; by rewrite Hf.
Qed.

Lemma nullable_count v o : nullable nonNegativeSafeInteger v = Some o -> optional count_ok o.
Proof.
  unfold nullable. destruct (is_null v); [by intros [= <-]|].
  destruct (nonNegativeSafeInteger v) eqn:E; [|done]. intros [= <-]. by eapply count_Some.
Qed.

(** What the normalizer of windows accepts is well formed, and a well-formed
    window reads back as itself. *)
Lemma window_normalized v w : normalizeApiKeyUsageWindowV3 v = Some w -> window_wf w.
Proof.
  unfold normalizeApiKeyUsageWindowV3. case_match; [done|]. intros Hn.
  apply bind_some in Hn as (? & H1 & Hn). apply bind_some in Hn as (? & H2 & Hn).
  apply bind_some in Hn as (? & H3 & Hn). apply bind_some in Hn as (? & H4 & Hn).
  case_match eqn:E; [done|]. apply bind_some in Hn as (? & H5 & Hn).
  apply bind_some in Hn as (? & H6 & Hn). apply bind_some in Hn as (? & H7 & Hn). simplify_eq.
  apply nonempty_string_Some in H1 as [_ ?], H2 as [_ ?].
  constructor; cbn; eauto using count_Some. lia.
Qed.

Lemma window_reads_back w : window_wf w -> normalizeApiKeyUsageWindowV3 (json_usage_window w) = Some w.
Proof.
  intros []. unfold normalizeApiKeyUsageWindowV3. destruct w; cbn in *.
  rewrite is_int_jint. cbn. rewrite (proj2 (nonempty_string_Some _ _) (conj eq_refl ww_key0)). cbn.
  rewrite (proj2 (nonempty_string_Some _ _) (conj eq_refl ww_version0)). cbn.
  rewrite !(proj2 (count_jint _)) by done. cbn. case_match; [lia|done].
Qed.

Lemma usage_window_readback w w' : normalizeApiKeyUsageWindowV3 (json_usage_window w) = Some w' -> w' = w /\ window_wf w.
Proof.
  intros H. pose proof (window_normalized _ _ H) as Hwf. revert H.
  unfold normalizeApiKeyUsageWindowV3. case_match; [done|]. destruct w; cbn. intros Hn.
  apply bind_some in Hn as (? & H1 & Hn). apply bind_some in Hn as (? & H2 & Hn).
  apply bind_some in Hn as (? & H3 & Hn). apply bind_some in Hn as (? & H4 & Hn).
  case_match; [done|]. apply bind_some in Hn as (? & H5 & Hn).
  apply bind_some in Hn as (? & H6 & Hn). apply bind_some in Hn as (? & H7 & Hn). simplify_eq.
  apply nonempty_string_Some in H1 as [[= <-] ?], H2 as [[= <-] ?].
  apply count_jint_inv in H3, H4, H5, H6, H7. by subst.
Qed.

Lemma request_normalized v r : normalizeApiKeyUsageRequestV3 v = Some r -> request_wf r.
Proof.
  unfold normalizeApiKeyUsageRequestV3. case_match; [done|]. intros Hn.
  apply bind_some in Hn as (? & H1 & Hn). apply bind_some in Hn as (? & H2 & Hn).
  apply bind_some in Hn as (? & H3 & Hn). apply bind_some in Hn as (? & H4 & Hn).
  apply bind_some in Hn as (? & H5 & Hn). apply bind_some in Hn as (? & H6 & Hn).
  apply bind_some in Hn as (? & H7 & Hn). apply bind_some in Hn as (? & H8 & Hn).
  apply bind_some in Hn as (? & H9 & Hn). apply bind_some in Hn as (? & H10 & Hn).
  case_match eqn:E; [|done]. simplify_eq.
  apply nonempty_string_Some in H1 as [_ ?], H2 as [_ ?], H3 as [_ ?].
  constructor; cbn; eauto using count_Some, nullable_count.
Qed.

Lemma request_reads_back r : request_wf r -> normalizeApiKeyUsageRequestV3 (json_usage_request r) = Some r.
Proof.
  intros []. unfold normalizeApiKeyUsageRequestV3.
  destruct r as [kid rid rt st ra le pr da rel rs]; cbn [ur_key_id ur_request_id ur_route ur_state ur_reserved_at_ms
    ur_lease_expires_at_ms ur_provider ur_dispatched_at_ms ur_released_at_ms ur_release_reason] in *. cbn. rewrite is_int_jint. cbn.
  rewrite (proj2 (nonempty_string_Some _ _) (conj eq_refl rw_key0)). cbn.
  rewrite (proj2 (nonempty_string_Some _ _) (conj eq_refl rw_request0)). cbn.
  rewrite (proj2 (nonempty_string_Some _ _) (conj eq_refl rw_route0)). cbn.
  rewrite usage_state_name. cbn.
  rewrite !(proj2 (count_jint _)) by done. cbn.
  rewrite (nullable_json isApiKeyUsageProvider) by (try done; intros; apply provider_readback). cbn.
  rewrite (nullable_json nonNegativeSafeInteger jint) by (try done; intros ? ->; by apply count_jint). cbn.
  rewrite (nullable_json nonNegativeSafeInteger jint) by (try done; intros ? ->; by apply count_jint). cbn.
  rewrite (nullable_json any_string) by done. cbn. by rewrite rw_fields0.
Qed.

(** ** Keys of a scope *)

Lemma usage_window_key_inj sc sc' : apiKeyUsageV3WindowKey sc = apiKeyUsageV3WindowKey sc' -> sc = sc'.
Proof. destruct sc, sc'. cbn. intros. by simplify_eq. Qed.

Lemma request_key_inj sc sc' id id' :
  apiKeyUsageV3RequestKey sc id = apiKeyUsageV3RequestKey sc' id' -> sc = sc' /\ id = id'.
Proof. destruct sc, sc'. cbn. intros. by simplify_eq. Qed.

Lemma request_not_window sc sc' id : apiKeyUsageV3RequestKey sc id <> apiKeyUsageV3WindowKey sc'.
Proof. done. Qed.

Lemma under_request sc sc' id : has_prefix (request_prefix sc) (apiKeyUsageV3RequestKey sc' id) = true <-> sc = sc'.
Proof.
  destruct sc, sc'. cbn. rewrite !andb_true_iff, !bool_decide_eq_true. naive_solver.
Qed.

Lemma under_window sc sc' : has_prefix (request_prefix sc) (apiKeyUsageV3WindowKey sc') = false.
Proof. done. Qed.

Lemma under_request_ne sc sc' id : sc <> sc' -> has_prefix (request_prefix sc) (apiKeyUsageV3RequestKey sc' id) = false.
Proof. intros Hne. apply not_true_iff_false. by rewrite under_request. Qed.

(** ** Requests in a state *)

Notation KeyMap := (KvMapOf ApiKeyValue).

Definition in_usage_state (st : UsageState) (v : jsval) : Z :=
  match normalizeApiKeyUsageRequestV3 v with Some r => b2z (bool_decide (ur_state r = st)) | None => 0 end.

(** The sum of a weight over the request rows of a scope, and how many of them
    are in a state. *)
Definition row_sum (f : jsval -> Z) (sc : UsageScope) (m : KeyMap) : Z :=
  prefix_sum (fun v => f (row_value v)) (request_prefix sc) m.
Definition usage_count (st : UsageState) : UsageScope -> KeyMap -> Z := row_sum (in_usage_state st).

Definition request_row (m : KeyMap) (sc : UsageScope) (id : string) : jsval :=
  row_of (entry_at m (apiKeyUsageV3RequestKey sc id)).
Definition window_row (m : KeyMap) (sc : UsageScope) : jsval := row_of (entry_at m (apiKeyUsageV3WindowKey sc)).

Lemma in_usage_state_nonneg st v : 0 <= in_usage_state st v.
Proof. unfold in_usage_state. case_match; [apply b2z_nonneg|done]. Qed.

Lemma usage_count_nonneg st sc m : 0 <= usage_count st sc m.
Proof. apply prefix_sum_nonneg. intros. apply in_usage_state_nonneg. Qed.

(** A written request moves the sum of its own scope only. *)
Lemma row_sum_request f sc sc' id v n m :
  f JNull = 0 ->
  row_sum f sc (<[apiKeyUsageV3RequestKey sc' id := (RowValue v, n)]> m)
  = if bool_decide (sc = sc') then row_sum f sc m - f (request_row m sc id) + f v else row_sum f sc m.
Proof.
  intros Hf. unfold row_sum. rewrite prefix_sum_set. unfold key_weight, value_weight. case_bool_decide as E.
  - subst. rewrite (proj2 (under_request sc' sc' id) eq_refl). unfold request_row, row_of, entry_at.
    destruct (m !! _) as [[v0 n0]|]; [done|]. cbn. by rewrite Hf.
  - rewrite under_request_ne by done. lia.
Qed.

Lemma row_sum_window f sc sc' v n m :
  row_sum f sc (<[apiKeyUsageV3WindowKey sc' := (v, n)]> m) = row_sum f sc m.
Proof. unfold row_sum. rewrite prefix_sum_set. unfold key_weight, value_weight. rewrite under_window. lia. Qed.

Lemma usage_count_request st sc sc' id v n m :
  usage_count st sc (<[apiKeyUsageV3RequestKey sc' id := (RowValue v, n)]> m)
  = if bool_decide (sc = sc')
    then usage_count st sc m - in_usage_state st (request_row m sc id) + in_usage_state st v
    else usage_count st sc m.
Proof. by apply row_sum_request. Qed.

Lemma usage_count_window st sc sc' v n m :
  usage_count st sc (<[apiKeyUsageV3WindowKey sc' := (v, n)]> m) = usage_count st sc m.
Proof. apply row_sum_window. Qed.

Lemma request_row_request sc sc' id id' v n m :
  request_row (<[apiKeyUsageV3RequestKey sc' id' := (RowValue v, n)]> m) sc id
  = if bool_decide (sc = sc' /\ id = id') then v else request_row m sc id.
Proof.
  unfold request_row, entry_at. case_bool_decide as E.
  - destruct E as [-> ->]. by rewrite lookup_insert_eq.
  - rewrite lookup_insert_ne; [done|]. intros H. apply request_key_inj in H. naive_solver.
Qed.

Lemma request_row_window sc sc' id v n m :
  request_row (<[apiKeyUsageV3WindowKey sc' := (v, n)]> m) sc id = request_row m sc id.
Proof. unfold request_row, entry_at. by rewrite lookup_insert_ne by done. Qed.

Lemma window_row_request sc sc' id v m :
  window_row (<[apiKeyUsageV3RequestKey sc' id := v]> m) sc = window_row m sc.
Proof. unfold window_row, entry_at. by rewrite lookup_insert_ne by done. Qed.

Lemma window_row_window sc sc' v n m :
  window_row (<[apiKeyUsageV3WindowKey sc' := (RowValue v, n)]> m) sc
  = if bool_decide (sc = sc') then v else window_row m sc.
Proof.
  unfold window_row, entry_at. case_bool_decide as E.
  - subst. by rewrite lookup_insert_eq.
  - rewrite lookup_insert_ne; [done|]. intros H. by apply usage_window_key_inj in H.
Qed.

(** ** How far a request has gone *)

Definition state_rank (s : UsageState) : Z := match s with UReserved => 1 | UDispatched => 2 | UReleased => 3 end.

(** Absent, reserved, dispatched, released; a malformed row never changes. *)
Definition row_rank (v : jsval) : Z :=
  if is_null v then 0 else
  match normalizeApiKeyUsageRequestV3 v with Some r => state_rank (ur_state r) | None => 4 end.

Lemma row_rank_normalized v r : normalizeApiKeyUsageRequestV3 v = Some r -> row_rank v = state_rank (ur_state r).
Proof. unfold row_rank. intros H. rewrite H. by destruct v. Qed.

Lemma request_readback_state r r' :
  normalizeApiKeyUsageRequestV3 (json_usage_request r) = Some r' -> ur_state r' = ur_state r.
Proof.
  unfold normalizeApiKeyUsageRequestV3. case_match; [done|]. destruct r as [kid rid rt st ? ? ? ? ? ?]. cbn. intros Hn.
  apply bind_some in Hn as (? & H1 & Hn). apply bind_some in Hn as (? & H2 & Hn).
  apply bind_some in Hn as (? & H3 & Hn). apply bind_some in Hn as (? & H4 & Hn).
  apply bind_some in Hn as (? & H5 & Hn). apply bind_some in Hn as (? & H6 & Hn).
  apply bind_some in Hn as (? & H7 & Hn). apply bind_some in Hn as (? & H8 & Hn).
  apply bind_some in Hn as (? & H9 & Hn). apply bind_some in Hn as (? & H10 & Hn).
  case_match; [|done]. simplify_eq. rewrite usage_state_name in H4. cbn. congruence.
Qed.

Lemma json_request_rank r : state_rank (ur_state r) <= row_rank (json_usage_request r).
Proof.
  unfold row_rank. cbn [is_null json_usage_request].
  destruct (normalizeApiKeyUsageRequestV3 _) as [r'|] eqn:E.
  - by rewrite (request_readback_state _ _ E).
  - destruct (ur_state r); cbn; lia.
Qed.

Lemma in_usage_state_json st r :
  request_wf r -> in_usage_state st (json_usage_request r) = b2z (bool_decide (ur_state r = st)).
Proof. intros Hr. unfold in_usage_state. by rewrite request_reads_back. Qed.
