(* ===== verification/ApiKeySafety.v ===== *)
(** * The API-key usage quota under concurrency

    [usage_inv]: the counters of every window of a key are the numbers of its
    reserved and dispatched requests.  [usage_evolves]: what a client may rely
    on and must guarantee about the rows of a key: versions only grow, requests
    only move forward, the invariant is kept.  Every plan [moves] the rows it
    was made from, and a commit that moves rows evolves the store. *)

From Stdlib Require Import ZArith Lia.
From stdpp Require Import base gmap strings list.
From S2P Require Import Prelude Js KvStore KvLogic ApiKeyUsage ApiKeyStore ApiKeyRows.
Open Scope string_scope.
Open Scope Z_scope.

(** ** Invariant and rely *)

(** The committed and reserved numbers a window row stands for; an absent
    window stands for an empty one. *)
Definition window_counts (v : jsval) : option (Z * Z) :=
  if is_null v then Some (0, 0)
  else w ← normalizeApiKeyUsageWindowV3 v; Some (uw_committed_requests w, uw_reserved_requests w).

Definition scope_inv (m : KeyMap) (sc : UsageScope) : Prop :=
  forall c r, window_counts (window_row m sc) = Some (c, r) ->
    usage_count UDispatched sc m = c /\ usage_count UReserved sc m = r.

Definition usage_inv (k : string) (m : KeyMap) : Prop := forall sc, sc_key_id sc = k -> scope_inv m sc.

Section evolves.
Context {S : Type} `{Kv : !KvStoreOf ApiKeyValue S}.

Record usage_evolves (k : string) (s s' : S) : Prop := {
  ue_advances : advances s s';
  ue_inv : usage_inv k (kv_map s) -> usage_inv k (kv_map s');
  ue_rank sc id : sc_key_id sc = k ->
    row_rank (request_row (kv_map s) sc id) <= row_rank (request_row (kv_map s') sc id) }.

#[export] Instance usage_evolves_preorder k : PreOrder (usage_evolves k).
Proof.
  split.
  - intros s. constructor; auto using advances_refl. reflexivity.
  - intros s1 s2 s3 [A1 I1 R1] [A2 I2 R2]. constructor; [by eapply advances_trans|auto|].
    intros sc id Hk. specialize (R1 sc id Hk). specialize (R2 sc id Hk). lia.
Qed.
End evolves.

(** ** Plans move rows *)

(** What a write plan does to the request and the window it was made from: the
    request goes forward, and the counters move with its state. *)
Record moves (request window : jsval) (p : ApiKeyUsageWritePlan) : Prop := {
  mv_wf : window_wf (wp_window p) -> request_wf (wp_request p);
  mv_rank : row_rank request < state_rank (ur_state (wp_request p));
  mv_counts : exists c r, window_counts window = Some (c, r)
    /\ uw_committed_requests (wp_window p)
       = c - in_usage_state UDispatched request + b2z (bool_decide (ur_state (wp_request p) = UDispatched))
    /\ uw_reserved_requests (wp_window p)
       = r - in_usage_state UReserved request + b2z (bool_decide (ur_state (wp_request p) = UReserved)) }.

Lemma window_counts_normalized v w :
  normalizeApiKeyUsageWindowV3 v = Some w -> window_counts v = Some (uw_committed_requests w, uw_reserved_requests w).
Proof. unfold window_counts. intros H. rewrite H. by destruct v. Qed.

Lemma matching_normalized v policy w :
  matchingApiKeyUsageWindowV3 v policy = Some w ->
  normalizeApiKeyUsageWindowV3 v = Some w /\ uw_key_id w = ap_key_id policy
  /\ uw_policy_version w = ap_policy_version policy /\ uw_window_start_ms w = ap_window_start_ms policy
  /\ uw_window_reset_at_ms w = ap_usage_reset_at_ms policy.
Proof.
  unfold matchingApiKeyUsageWindowV3. intros H. apply bind_some in H as (w' & Hn & H).
  case_match eqn:E; [|done]. simplify_eq. inv_ok. repeat split; try done; lia.
Qed.

Lemma in_usage_state_normalized st v r :
  normalizeApiKeyUsageRequestV3 v = Some r -> in_usage_state st v = b2z (bool_decide (ur_state r = st)).
Proof. unfold in_usage_state. by intros ->. Qed.

(** Decided comparisons of states. *)
Ltac states := repeat case_bool_decide; try congruence; cbn [b2z]; try lia.

(** The guards of a plan, one by one. *)
Ltac plan_guards H :=
  repeat match type of H with
  | (if ?b then _ else _) = _ => let E := fresh "G" in destruct b eqn:E; [try discriminate H|try discriminate H]
  | match ?x with _ => _ end = _ => let E := fresh "G" in destruct x eqn:E; try discriminate H
  end; try (injection H as <-); inv_ok.

Lemma state_fields_reserved r :
  state_fields r = true -> ur_state r = UReserved ->
  ur_provider r = None /\ ur_dispatched_at_ms r = None /\ ur_released_at_ms r = None /\ ur_release_reason r = None.
Proof.
  unfold state_fields. intros H E. rewrite E in H.
  destruct (ur_provider r), (ur_dispatched_at_ms r), (ur_released_at_ms r), (ur_release_reason r); done.
Qed.

Lemma state_fields_dispatched r :
  state_fields r = true -> ur_state r = UDispatched ->
  ur_released_at_ms r = None /\ ur_release_reason r = None.
Proof.
  unfold state_fields. intros H E. rewrite E in H.
  destruct (ur_provider r), (ur_dispatched_at_ms r), (ur_released_at_ms r), (ur_release_reason r); done.
Qed.

Lemma plan_reservation_moves policy id route request window nowMs p :
  id <> "" -> route <> "" -> nowMs + API_KEY_USAGE_V3_RESERVATION_LEASE_MS <= MAX_SAFE_INTEGER ->
  planApiKeyUsageReservation policy id route (mkUsageSnapshot request window) nowMs = ReserveWrite p ->
  moves request window p.
Proof.
  intros Hid Hroute Hnow. unfold planApiKeyUsageReservation. cbn [us_request us_window].
  destruct (normalizeApiKeyUsageRequestV3 request) as [r|] eqn:Er; [by repeat case_match|].
  destruct (is_null request) eqn:En; cbn [negb]; [|done].
  destruct (if is_null window then _ else _) as [w|] eqn:Ew; [|done]. destruct (_ && _); [done|]. intros [= <-].
  assert (window_counts window = Some (uw_committed_requests w, uw_reserved_requests w) /\ uw_key_id w = ap_key_id policy) as [Hc Hk].
  { destruct (is_null window) eqn:Enw.
    - injection Ew as <-. unfold window_counts. by rewrite Enw.
    - apply matching_normalized in Ew as (Ew & ? & _). split; [by apply window_counts_normalized|done]. }
  constructor; cbn.
  - intros []. cbn in *. constructor; cbn; try done; [congruence|].
    unfold count_ok, API_KEY_USAGE_V3_RESERVATION_LEASE_MS in *. lia.
  - unfold row_rank. rewrite En. lia.
  - exists (uw_committed_requests w), (uw_reserved_requests w). unfold in_usage_state. rewrite Er.
    split; [done|]. split; states.
Qed.

(** A fresh reservation leaves room: the counters were below the limit. *)
Lemma plan_reservation_admits policy id route request window nowMs p :
  planApiKeyUsageReservation policy id route (mkUsageSnapshot request window) nowMs = ReserveWrite p ->
  row_rank request = 0 /\ in_usage_state UDispatched request = 0 /\ in_usage_state UReserved request = 0
  /\ ur_state (wp_request p) = UReserved
  /\ exists c r, window_counts window = Some (c, r)
     /\ (ap_usage_limit_requests policy = API_KEY_NO_USAGE_LIMIT \/ c + r < ap_usage_limit_requests policy).
Proof.
  unfold planApiKeyUsageReservation. cbn [us_request us_window].
  destruct (normalizeApiKeyUsageRequestV3 request) as [r|] eqn:Er; [by repeat case_match|].
  destruct (is_null request) eqn:En; cbn [negb]; [|done].
  destruct (if is_null window then _ else _) as [w|] eqn:Ew; [|done]. destruct (_ && _) eqn:El; [done|]. intros [= <-].
  unfold row_rank, in_usage_state. rewrite En, Er. split_and!; try done.
  exists (uw_committed_requests w), (uw_reserved_requests w). split.
  - destruct (is_null window) eqn:Enw; [injection Ew as <-; unfold window_counts; by rewrite Enw|].
    apply matching_normalized in Ew as (Ew & _). by apply window_counts_normalized.
  - unfold API_KEY_NO_USAGE_LIMIT. lia.
Qed.

Lemma plan_reservation_reuses policy id route request window nowMs :
  planApiKeyUsageReservation policy id route (mkUsageSnapshot request window) nowMs = ReserveReuse ->
  row_rank request = 1.
Proof.
  unfold planApiKeyUsageReservation. cbn [us_request us_window].
  destruct (normalizeApiKeyUsageRequestV3 request) as [r|] eqn:Er.
  - intros H. plan_guards H. by rewrite (row_rank_normalized _ _ Er), G0.
  - intros H. plan_guards H.
Qed.

Lemma plan_dispatch_moves policy id route provider request window nowMs p :
  planApiKeyUsageDispatch policy id route provider (mkUsageSnapshot request window) nowMs = DispatchWrite p ->
  moves request window p /\ row_rank request = 1.
Proof.
  unfold planApiKeyUsageDispatch. cbn [us_request us_window].
  destruct (normalizeApiKeyUsageRequestV3 request) as [r|] eqn:Er; [|done].
  intros H. plan_guards H. apply matching_normalized in G1 as (Gw & _).
  pose proof (request_normalized _ _ Er) as []. pose proof (window_normalized _ _ Gw) as [].
  assert (ur_state r = UReserved) as Est by (destruct (ur_state r); done).
  destruct (state_fields_reserved r rw_fields Est) as (Ep & Ed & El & Ee).
  split; [|by rewrite (row_rank_normalized _ _ Er), Est].
  constructor; cbn.
  - intros []. cbn in *. constructor; cbn; try done. unfold state_fields. cbn. by rewrite El, Ee.
  - rewrite (row_rank_normalized _ _ Er), Est. cbn. lia.
  - exists (uw_committed_requests a), (uw_reserved_requests a). rewrite !(in_usage_state_normalized _ _ _ Er), Est.
    split; [by apply window_counts_normalized|]. split; states.
Qed.

Lemma plan_release_moves policy id reason request window nowMs route p :
  planApiKeyUsageReservedRelease policy id reason (mkUsageSnapshot request window) nowMs route = ReleaseWrite p ->
  moves request window p.
Proof.
  unfold planApiKeyUsageReservedRelease. cbn [us_request us_window].
  destruct (normalizeApiKeyUsageRequestV3 request) as [r|] eqn:Er; [|by case_match].
  destruct (_ || _); [done|]. intros H. plan_guards H. apply matching_normalized in G0 as (Gw & _).
  pose proof (request_normalized _ _ Er) as []. pose proof (window_normalized _ _ Gw) as [].
  destruct (state_fields_reserved r rw_fields G) as (Ep & Ed & El & Ee).
  constructor; cbn.
  - intros []. cbn in *. constructor; cbn; try done. unfold state_fields. cbn. by rewrite Ep, Ed.
  - rewrite (row_rank_normalized _ _ Er), G. done.
  - exists (uw_committed_requests a), (uw_reserved_requests a). rewrite !(in_usage_state_normalized _ _ _ Er), G.
    split; [by apply window_counts_normalized|]. split; states.
Qed.

Lemma plan_cancellation_moves policy id route provider request window nowMs p :
  planApiKeyUsageDispatchCancellation policy id route provider (mkUsageSnapshot request window) nowMs = ReleaseWrite p ->
  moves request window p.
Proof.
  unfold planApiKeyUsageDispatchCancellation. cbn [us_request us_window].
  destruct (normalizeApiKeyUsageRequestV3 request) as [r|] eqn:Er; [|by case_match].
  destruct (_ || _); [done|]. intros H. plan_guards H. apply matching_normalized in G1 as (Gw & _).
  pose proof (request_normalized _ _ Er) as []. pose proof (window_normalized _ _ Gw) as [].
  destruct (state_fields_dispatched r rw_fields G) as (El & Ee).
  constructor; cbn.
  - intros []. cbn in *. constructor; cbn; try done.
  - rewrite (row_rank_normalized _ _ Er), G. done.
  - exists (uw_committed_requests a), (uw_reserved_requests a). rewrite !(in_usage_state_normalized _ _ _ Er), G.
    split; [by apply window_counts_normalized|]. split; states.
Qed.

(** ** Commits that move rows *)

(** The map after the two writes of a plan, in either order. *)
Definition moved_map (sc : UsageScope) (id : string) (p : ApiKeyUsageWritePlan) (n : Z) (m : KeyMap) : KeyMap :=
  <[apiKeyUsageV3WindowKey sc := (RowValue (json_usage_window (wp_window p)), n)]>
    (<[apiKeyUsageV3RequestKey sc id := (RowValue (json_usage_request (wp_request p)), n)]> m).

Lemma moved_window_counts w c r :
  window_counts (json_usage_window w) = Some (c, r) ->
  window_wf w /\ c = uw_committed_requests w /\ r = uw_reserved_requests w.
Proof.
  unfold window_counts. cbn [is_null json_usage_window]. intros H. apply bind_some in H as (w' & H & [= <- <-]).
  by apply usage_window_readback in H as [-> ?].
Qed.

Lemma moved_inv k sc id p n m :
  moves (request_row m sc id) (window_row m sc) p -> usage_inv k m -> usage_inv k (moved_map sc id p n m).
Proof.
  intros [Hwf _ (c & r & Hc & Hcom & Hres)] Hinv sc' Hk c' r' Hc'.
  unfold moved_map in *. rewrite !usage_count_window, !usage_count_request.
  rewrite window_row_window, window_row_request in Hc'. case_bool_decide as E.
  - subst sc'. apply moved_window_counts in Hc' as (Hw & -> & ->). destruct (Hinv sc Hk c r Hc) as [<- <-].
    rewrite !in_usage_state_json by auto. by rewrite Hcom, Hres.
  - by apply Hinv.
Qed.

Lemma moved_rank sc id p n m sc' id' :
  moves (request_row m sc id) (window_row m sc) p ->
  row_rank (request_row m sc' id') <= row_rank (request_row (moved_map sc id p n m) sc' id').
Proof.
  intros [_ Hr _]. unfold moved_map. rewrite request_row_window, request_row_request.
  case_bool_decide as E; [|lia]. destruct E as [-> ->]. pose proof (json_request_rank (wp_request p)). lia.
Qed.

(** A count after a move is at most the old one without the old row, plus the
    new row. *)
Lemma moved_count_le st sc id p n m :
  usage_count st sc (moved_map sc id p n m)
  <= usage_count st sc m - in_usage_state st (request_row m sc id) + b2z (bool_decide (ur_state (wp_request p) = st)).
Proof.
  unfold moved_map. rewrite usage_count_window, usage_count_request, bool_decide_true by done.
  assert (in_usage_state st (json_usage_request (wp_request p)) <= b2z (bool_decide (ur_state (wp_request p) = st))); [|lia].
  unfold in_usage_state. destruct (normalizeApiKeyUsageRequestV3 _) as [r|] eqn:E; [|apply b2z_nonneg].
  by rewrite (request_readback_state _ _ E).
Qed.

Section commits.
Context {S : Type} `{Kv : !KvStoreOf ApiKeyValue S}.

Lemma commit_moves k sc id p cs ms s s' :
  kv_commit cs ms s = (true, s') -> kv_map s' = moved_map sc id p (kv_version s') (kv_map s) ->
  moves (request_row (kv_map s) sc id) (window_row (kv_map s) sc) p -> usage_evolves k s s'.
Proof.
  intros Hc Hm Hp. constructor.
  - by eapply commit_advances.
  - rewrite Hm. by apply moved_inv.
  - intros. rewrite Hm. by apply moved_rank.
Qed.

Lemma write_rows_map sc id p n (m : KeyMap) : apply_mutations n (write_rows sc id p) m = moved_map sc id p n m.
Proof. done. Qed.

(** A commit that checked the entries it read moves the rows of the store it
    meets. *)
Lemma commit_write k sc id p s0 s1 s2 s s' cs ms :
  usage_evolves k s0 s2 -> usage_evolves k s1 s2 -> usage_evolves k s2 s ->
  kv_commit cs ms s = (true, s') ->
  entry_at (kv_map s0) (apiKeyUsageV3RequestKey sc id) ∈ cs ->
  entry_at (kv_map s1) (apiKeyUsageV3WindowKey sc) ∈ cs ->
  (forall n m, apply_mutations n ms m = moved_map sc id p n m) ->
  moves (request_row (kv_map s0) sc id) (window_row (kv_map s1) sc) p ->
  usage_evolves k s s' /\ kv_map s' = moved_map sc id p (kv_version s') (kv_map s)
  /\ request_row (kv_map s) sc id = request_row (kv_map s0) sc id
  /\ window_row (kv_map s) sc = window_row (kv_map s1) sc.
Proof.
  intros H0 H1 H2 Hc Hre Hwe Hms Hp.
  assert (request_row (kv_map s) sc id = request_row (kv_map s0) sc id) as Er.
  { unfold request_row. rewrite (checked_unchanged cs ms s0 s s' (apiKeyUsageV3RequestKey sc id)); [done| |done|done].
    eapply advances_trans; [apply (ue_advances _ _ _ H0)|apply (ue_advances _ _ _ H2)]. }
  assert (window_row (kv_map s) sc = window_row (kv_map s1) sc) as Ew.
  { unfold window_row. rewrite (checked_unchanged cs ms s1 s s' (apiKeyUsageV3WindowKey sc)); [done| |done|done].
    eapply advances_trans; [apply (ue_advances _ _ _ H1)|apply (ue_advances _ _ _ H2)]. }
  assert (kv_map s' = moved_map sc id p (kv_version s') (kv_map s)) as Hm
    by (destruct (kv_commit_ok _ _ _ _ Hc) as (_ & _ & ->); apply Hms).
  split_and!; [|done..]. eapply commit_moves; [done|done|]. by rewrite Er, Ew.
Qed.
End commits.
