(* ===== verification/ApiKeyGuarantee.v ===== *)
(** * What the API-key usage adapters guarantee

    Every adapter call keeps [usage_evolves] for every key (a deletion, for
    every other key), whatever the other clients do within it.  A client that
    deletes the key's rows, and their expiry, are outside of [usage_evolves]. *)

From Stdlib Require Import ZArith Lia.
From stdpp Require Import base gmap strings list.
From S2P Require Import Prelude Js KvStore KvLogic ApiKeyUsage ApiKeyStore ApiKeyRows ApiKeySafety.
Open Scope string_scope.
Open Scope Z_scope.

Section guarantee.
Context {S : Type} `{Kv : !KvStoreOf ApiKeyValue S}.
Context (others : Clients S) (clock : nat -> Z) (k : string).
Context `{Hothers : !RelyOn (usage_evolves k) others}.
(** A lease ends at a safe integer. *)
Definition lease_ok (t : Z) : Prop := t + API_KEY_USAGE_V3_RESERVATION_LEASE_MS <= MAX_SAFE_INTEGER.
Local Notation guarantees := (guarantees (usage_evolves k)).
Local Notation evolves := (usage_evolves k).

Lemma release_reserved_row policy id reason request window nowMs route p :
  planApiKeyUsageReservedRelease policy id reason (mkUsageSnapshot request window) nowMs route = ReleaseWrite p ->
  1 <= row_rank request.
Proof using.
  unfold planApiKeyUsageReservedRelease. cbn [us_request us_window].
  destruct (normalizeApiKeyUsageRequestV3 request) as [r|] eqn:Er; [|by case_match].
  rewrite (row_rank_normalized _ _ Er). by destruct (ur_state r).
Qed.

Lemma cancel_dispatched_row policy id route provider request window nowMs p :
  planApiKeyUsageDispatchCancellation policy id route provider (mkUsageSnapshot request window) nowMs = ReleaseWrite p ->
  1 <= row_rank request.
Proof using.
  unfold planApiKeyUsageDispatchCancellation. cbn [us_request us_window].
  destruct (normalizeApiKeyUsageRequestV3 request) as [r|] eqn:Er; [|by case_match].
  rewrite (row_rank_normalized _ _ Er). by destruct (ur_state r).
Qed.

(** A commit that releases one request, whose row was there. *)
Definition releases (s s' : S) : Prop :=
  evolves s s' /\ kv_log s' = (kv_log s ++ [(kv_map s, kv_map s')])%list
  /\ exists sc id p, 1 <= row_rank (request_row (kv_map s) sc id)
     /\ kv_map s' = moved_map sc id p (kv_version s') (kv_map s).

Lemma guarantees_settled {A} (R : S -> S -> Prop) (m : KvM S A) :
  KvLogic.guarantees R m -> KvLogic.guarantees R (settled_promise m).
Proof using.
  intros Hm s n. specialize (Hm s n). unfold settled_promise. by destruct (m (n, s)) as [r [n' s']].
Qed.

(** ** Releases and reservations

    A relation [Q] that the other clients and releasing commits keep is followed
    through them. *)

Section kept.
Context (Q : S -> S -> Prop) `{HpreQ : !PreOrder Q} `{HothersQ : !RelyOn Q others}.
Context (HQ : forall s s', releases s s' -> Q s s').

Definition kept_too (s s' : S) : Prop := evolves s s' /\ Q s s'.
Local Notation keeps := (KvLogic.guarantees kept_too).

#[local] Instance kept_too_preorder : PreOrder kept_too.
Proof using HpreQ.
  split; [intros s; split; reflexivity|]. intros s1 s2 s3 [H1 Q1] [H2 Q2]. split; by etrans.
Qed.

#[local] Instance kept_too_relies : RelyOn kept_too others.
Proof using Hothers HothersQ. intros n s. split; apply relies. Qed.

(** A release or cancellation: two reads and a commit. *)
Lemma keeps_release_by sc id (plan : jsval -> jsval -> ApiKeyUsageReleasePlan) :
  (forall request window p, plan request window = ReleaseWrite p -> moves request window p /\ 1 <= row_rank request) ->
  keeps (kv_bind (get others (apiKeyUsageV3RequestKey sc id)) (fun re =>
    kv_bind (get others (apiKeyUsageV3WindowKey sc)) (fun we =>
      commit_release others sc id re we (plan (row_of re) (row_of we))))).
Proof using All.
  intros Hplan s. apply triple_bind, (triple_get (rely := kept_too)). intros s0 H0.
  apply triple_bind, (triple_get (rely := kept_too)). intros s1 H1.
  assert (kept_too s s1) as H01 by by etrans. unfold commit_release.
  destruct (plan _ _) as [p| | |] eqn:Ep; [|by apply triple_ret..]. apply Hplan in Ep as [Hp Hrank].
  apply triple_bind, (triple_commit (rely := kept_too)); [|by intros s2 H2; apply triple_ret; etrans].
  intros s2 s3 H2 Hc. apply triple_ret.
  destruct (commit_write k sc id p s0 s1 s1 s2 s3 _ _ (proj1 H1) ltac:(reflexivity) (proj1 H2) Hc) as (H3 & Hm & Er & _);
    [set_solver|set_solver|by apply write_rows_map|done|].
  transitivity s1; [done|]. transitivity s2; [done|]. split; [done|]. apply HQ. split; [done|].
  split; [by eapply kv_commit_logged|]. exists sc, id, p. by rewrite Er.
Qed.

Lemma keeps_releaseReserved policy id reason nowMs route :
  keeps (releaseReservedRequest others policy id reason nowMs route).
Proof using All.
  apply (keeps_release_by (scope_of policy) id
    (fun request window => planApiKeyUsageReservedRelease policy id reason (mkUsageSnapshot request window) nowMs route)).
  intros request window p Hp. split; [by eapply plan_release_moves|by eapply release_reserved_row].
Qed.

Lemma keeps_releaseDispatched policy id route provider nowMs :
  keeps (releaseDispatchedRequest others policy id route provider nowMs).
Proof using All.
  apply (keeps_release_by (scope_of policy) id
    (fun request window => planApiKeyUsageDispatchCancellation policy id route provider (mkUsageSnapshot request window) nowMs)).
  intros request window p Hp. split; [by eapply plan_cancellation_moves|by eapply cancel_dispatched_row].
Qed.

Lemma keeps_release_expired tries policy id nowMs : keeps (release_expired_loop others tries policy id nowMs).
Proof using All.
  induction tries as [|tries IH]; cbn; [auto with gateway|].
  apply guarantees_bind; [apply keeps_releaseReserved|]. intros []; auto with gateway.
Qed.

Lemma keeps_release_each policy nowMs ids : keeps (release_each others policy nowMs ids).
Proof using All.
  induction ids as [|id ids IH]; cbn [release_each]; [auto with gateway|].
  apply guarantees_bind; [apply keeps_release_expired|auto].
Qed.

Lemma keeps_reclaim policy nowMs : keeps (reclaimExpiredApiKeyUsageReservationsV3 others policy nowMs).
Proof using All.
  apply guarantees_bind; [|intros; apply keeps_release_each].
  unfold expiredApiKeyUsageRequestIds. apply guarantees_bind; auto with gateway.
Qed.

(** How a reservation was granted between [s] and [s']: an existing one was
    found and nothing but what keeps [Q] was done, or the last commit wrote a new
    one, under the policy the hash record of the key had at the commit and within
    its limit. *)
Definition admitted (c : ReservationContext) (nowMs : Z) (s s' : S) : Prop :=
  let P := rc_policy c in
  Q s s' /\ row_rank (request_row (kv_map s') (scope_of P) (rc_request_id c)) = 1
  \/ exists s2, kept_too s s2 /\ kv_log s' = (kv_log s2 ++ [(kv_map s2, kv_map s')])%list
     /\ row_rank (request_row (kv_map s2) (scope_of P) (rc_request_id c)) = 0
     /\ 1 <= row_rank (request_row (kv_map s') (scope_of P) (rc_request_id c))
     /\ livePolicyFromEntry (ap_token_hash P) (entry_at (kv_map s2) (apiKeyHashKey (ap_token_hash P))) nowMs = Some P
     /\ (ap_key_id P = k -> usage_inv k (kv_map s) ->
         ap_usage_limit_requests P = API_KEY_NO_USAGE_LIMIT
         \/ usage_count UDispatched (scope_of P) (kv_map s') + usage_count UReserved (scope_of P) (kv_map s')
            <= ap_usage_limit_requests P).

Lemma live_policy_hash hash e nowMs P : livePolicyFromEntry hash e nowMs = Some P -> ap_token_hash P = hash.
Proof using.
  unfold livePolicyFromEntry, apiKeyPolicyFromHashRecord. intros H. apply bind_some in H as (r & _ & H).
  case_match; [done|]. apply bind_some in H as (P' & H & H'). case_match; [done|]. case_match; [done|]. by simplify_eq.
Qed.

Lemma keeps_full policy id route window nowMs reclaimed deferred :
  keeps (fullWindowReservation others clock policy id route window nowMs reclaimed deferred).
Proof using All.
  unfold fullWindowReservation. repeat case_match; auto with gateway.
  apply guarantees_catch; [|auto with gateway]. apply guarantees_bind; [apply keeps_reclaim|auto with gateway].
Qed.

(** Only the two ways of [admitted] give a context that is not deferred. *)
Lemma full_not_granted policy id route window nowMs reclaimed deferred s :
  triple (fullWindowReservation others clock policy id route window nowMs reclaimed deferred) s
    (fun r s' => kept_too s s' /\ forall c, r <> Ok (Some (Granted c))).
Proof using All.
  intros n. pose proof (keeps_full policy id route window nowMs reclaimed deferred s n) as Hg.
  destruct (fullWindowReservation _ _ _ _ _ _ _ _ _ (n, s)) as [r [n' s']] eqn:E. split; [done|]. intros c ->.
  unfold fullWindowReservation in E. destruct reclaimed; [destruct deferred|].
  - done.
  - unfold kv_bind, date_now, kv_lift in E. by destruct (quotaExceededResponse _ _ _).
  - unfold kv_catch, kv_bind in E. by destruct (reclaimExpiredApiKeyUsageReservationsV3 _ _ _ _) as [[] ?].
Qed.

(** What an attempt leaves: a grant is admitted, and an attempt that is to be
    repeated kept [Q]. *)
Definition attempted (nowMs : Z) (s : S) (r : Result string ApiKeyUsageReservationAttempt) (s' : S) : Prop :=
  evolves s s' /\
  match r with
  | Ok (AttemptDecision (Granted c)) => admitted c nowMs s s'
  | Ok AttemptReclaimed | Ok AttemptRetry => Q s s'
  | _ => True
  end.

(** The commit of a new reservation. *)
Lemma reservation_commit P id route nowMs p s s0 s1 s2 s3 s4 policyEntry ms :
  id <> "" -> route <> "" -> lease_ok nowMs ->
  kept_too s s0 -> kept_too s0 s1 -> kept_too s1 s2 -> kept_too s2 s3 ->
  policyEntry = entry_at (kv_map s0) (apiKeyHashKey (ap_token_hash P)) ->
  livePolicyFromEntry (ap_token_hash P) policyEntry nowMs = Some P ->
  planApiKeyUsageReservation P id route
    (mkUsageSnapshot (request_row (kv_map s2) (scope_of P) id) (window_row (kv_map s1) (scope_of P))) nowMs = ReserveWrite p ->
  (forall n m, apply_mutations n ms m = moved_map (scope_of P) id p n m) ->
  kv_commit [policyEntry; entry_at (kv_map s1) (apiKeyUsageV3WindowKey (scope_of P));
             entry_at (kv_map s2) (apiKeyUsageV3RequestKey (scope_of P) id)] ms s3 = (true, s4) ->
  evolves s3 s4 /\ admitted (reservationContext P id route) nowMs s s4.
Proof using All.
  intros Hid Hroute Hnow H0 H1 H2 H3 -> EP Ep Hms Hcommit.
  pose proof (plan_reservation_moves _ _ _ _ _ _ _ Hid Hroute Hnow Ep) as Hp.
  apply plan_reservation_admits in Ep as (Hr & Hd & Hv & Hst & c & r & Hc & Hlim).
  destruct (commit_write k (scope_of P) id p s2 s1 s2 s3 s4 _ _ ltac:(reflexivity) (proj1 H2) (proj1 H3) Hcommit)
    as (H4 & Hm & Er & Ew); [set_solver|set_solver|done|done|].
  assert (kept_too s0 s3) as H03 by (etrans; [done|]; by etrans).
  assert (kept_too s s3) as H5 by by etrans. split; [done|]. right. exists s3.
  cbn [rc_policy rc_request_id reservationContext]. split_and!; [done|by eapply kv_commit_logged| | | |].
  - by rewrite Er.
  - rewrite Hm. unfold moved_map. rewrite request_row_window, request_row_request, bool_decide_true by done.
    pose proof (json_request_rank (wp_request p)) as Hj. rewrite Hst in Hj. exact Hj.
  - rewrite <- EP. f_equal. eapply (checked_unchanged _ _ s0 s3 s4); [|done|set_solver]. apply (ue_advances _ _ _ (proj1 H03)).
  - intros Hk Hinv. destruct Hlim as [?|Hlim]; [by left|right].
    destruct (ue_inv _ _ _ (proj1 H5) Hinv (scope_of P) Hk c r) as [Ecd Ecr]; [by rewrite Ew|]. rewrite Hm.
    pose proof (moved_count_le UDispatched (scope_of P) id p (kv_version s4) (kv_map s3)) as M1.
    pose proof (moved_count_le UReserved (scope_of P) id p (kv_version s4) (kv_map s3)) as M2.
    rewrite Er in M1, M2. rewrite Hd, Hst in M1. rewrite Hv, Hst in M2.
    rewrite bool_decide_false in M1 by done. rewrite bool_decide_true in M2 by done. cbn [b2z] in M1, M2. lia.
Qed.

Lemma attempt_spec policy id route nowMs reclaimed deferred s :
  id <> "" -> route <> "" -> lease_ok nowMs ->
  triple (attemptApiKeyUsageReservation others clock policy id route nowMs reclaimed deferred) s (attempted nowMs s).
Proof using All.
  intros Hid Hroute Hnow. apply triple_bind, (triple_get (rely := kept_too)). intros s0 H0.
  destruct (livePolicyFromEntry _ _ _) as [P|] eqn:EP; [|by apply triple_ret; split; [apply H0|]].
  pose proof (live_policy_hash _ _ _ _ EP) as Eh.
  apply triple_bind, (triple_get (rely := kept_too)). intros s1 H1.
  apply triple_bind, (triple_get (rely := kept_too)). intros s2 H2.
  assert (kept_too s s2) as H02 by (etrans; [done|]; by etrans).
  destruct (planApiKeyUsageReservation _ _ _ _ _) as [p| |w|reason] eqn:Ep;
    [| | |by apply triple_ret; split; [apply H02|]].
  - apply triple_bind, (triple_commit (rely := kept_too)).
    2:{ intros s3 H3. apply triple_ret. change (kept_too s s3). by etrans. }
    intros s3 s4 H3 Hcommit. apply triple_ret. rewrite <- Eh in EP, Hcommit.
    eapply (reservation_commit P id route nowMs p s s0 s1 s2 s3 s4) in Hcommit as [H4 Ha]; try done.
    2:{ intros n m. unfold moved_map. cbn. by rewrite insert_insert_ne. }
    split; [|done]. etrans; [apply H02|]. etrans; [apply H3|done].
  - apply triple_ret. split; [apply H02|]. left. split; [apply H02|]. by eapply plan_reservation_reuses.
  - apply triple_bind. eapply triple_mono; [apply full_not_granted|]. cbn. intros r s3 [H3 Hn].
    assert (kept_too s s3) as H03 by by etrans. destruct r as [e|[d|]]; [by split; [apply H03|]| |by apply triple_ret].
    apply triple_ret. split; [apply H03|]. destruct d as [cx| |]; [|done..]. by destruct (Hn cx).
Qed.

Lemma admitted_later c nowMs s s1 s' : kept_too s s1 -> admitted c nowMs s1 s' -> admitted c nowMs s s'.
Proof using HpreQ.
  intros H [[A B]|(s2 & A & B & C1 & C2 & C3 & C4)].
  - left. split; [|done]. etrans; [apply H|done].
  - right. exists s2. split_and!; [by etrans|done..|]. intros Hk Hinv. apply C4; [done|]. by apply (ue_inv _ _ _ (proj1 H)).
Qed.

Lemma forward_reclaim policy nowMs : forward (reclaimExpiredApiKeyUsageReservationsV3 others policy nowMs).
Proof using.
  apply forward_bind; [unfold expiredApiKeyUsageRequestIds; auto with gateway|]. intros ids.
  induction ids as [|id ids IH]; cbn [release_each]; [auto with gateway|]. apply forward_bind; [|auto].
  unfold releaseExpiredApiKeyUsageReservation. induction MAX_KV_RETRIES as [|tries IHt]; cbn; [auto with gateway|].
  apply forward_bind; [|intros []; auto with gateway].
  unfold releaseReservedRequest, commit_release. apply forward_bind; [auto with gateway|]. intros re.
  apply forward_bind; [auto with gateway|]. intros we. case_match; auto with gateway.
Qed.

Lemma forward_attempt policy id route nowMs reclaimed deferred :
  forward (attemptApiKeyUsageReservation others clock policy id route nowMs reclaimed deferred).
Proof using.
  apply forward_bind; [auto with gateway|]. intros pe. case_match; [|auto with gateway].
  apply forward_bind; [auto with gateway|]. intros we. apply forward_bind; [auto with gateway|]. intros re.
  case_match; auto with gateway. apply forward_bind; [|auto with gateway]. unfold fullWindowReservation.
  repeat case_match; auto with gateway. apply forward_catch; [|auto with gateway].
  apply forward_bind; [apply forward_reclaim|auto with gateway].
Qed.

Context (Hclock : forall n, lease_ok (clock n)).

(** What a reservation call leaves: a grant is admitted at a time the call was
    given or read from the clock between its first and its last storage call. *)
Definition reserved_by (nowMs : option Z) (n : nat) (s : S)
    (run : Result string ApiKeyUsageReservationDecision * (nat * S)) : Prop :=
  evolves s (snd (snd run)) /\
  forall c, fst run = Ok (Granted c) ->
    exists j, (n <= j <= fst (snd run))%nat /\ admitted c (default (clock j) nowMs) s (snd (snd run)).

Lemma reserve_loop_spec tries policy id route nowMs reclaimed deferred n s :
  id <> "" -> route <> "" -> optional lease_ok nowMs ->
  reserved_by nowMs n s (reserve_loop others clock tries policy id route nowMs reclaimed deferred (n, s)).
Proof using All.
  intros Hid Hroute Hnow. revert reclaimed n s. induction tries as [|tries IH]; intros reclaimed n s; cbn [reserve_loop];
    [by split|].
  unfold kv_bind at 1. cbn [date_now].
  assert (lease_ok (default (clock n) nowMs)) as Ht by (destruct nowMs; [done|apply Hclock]).
  unfold kv_bind. pose proof (attempt_spec policy id route _ reclaimed deferred s Hid Hroute Ht n) as Ha.
  pose proof (forward_attempt policy id route (default (clock n) nowMs) reclaimed deferred n s) as Hf.
  destruct (attemptApiKeyUsageReservation _ _ _ _ _ _ _ _ (n, s)) as [r [n1 s1]]. cbn in Ha, Hf. destruct Ha as [H1 Hc].
  assert (kept_too s s1 -> forall reclaimed',
    reserved_by nowMs n s (reserve_loop others clock tries policy id route nowMs reclaimed' deferred (n1, s1))) as Hagain.
  { intros Hk reclaimed'. specialize (IH reclaimed' n1 s1).
    destruct (reserve_loop _ _ _ _ _ _ _ _ _ _) as [r2 [n2 s2]]. destruct IH as [H2 Hc2]. cbn in *.
    split; [by etrans|]. intros c E. destruct (Hc2 c E) as (j & Hj & Hadm). exists j. split; [cbn; lia|].
    by eapply admitted_later. }
  destruct r as [e|[d| |]]; [by split| |by apply Hagain..].
  split; [done|]. cbn. intros c [= ->]. exists n. by split; [cbn; lia|].
Qed.

Lemma reserve_spec available policy id route nowMs deferred n s :
  optional lease_ok nowMs ->
  reserved_by nowMs n s (reserveApiKeyUsageV3 others clock available policy id route nowMs deferred (n, s)).
Proof using All.
  intros Hnow. unfold reserveApiKeyUsageV3, kv_catch. destruct available; cbn [negb]; [|by split].
  destruct (empty id || empty route) eqn:E; [by split|]. apply orb_false_iff in E as [E1 E2].
  unfold empty in *. inv_ok.
  pose proof (reserve_loop_spec MAX_KV_RETRIES policy id route nowMs false deferred n s) as H.
  destruct (reserve_loop _ _ _ _ _ _ _ _ _ _) as [[e|d] [n' s']]; [|by apply H].
  split; [by apply H|done].
Qed.
End kept.

(** Without a second relation. *)
Lemma guarantees_plain {A} (m : KvM S A) : KvLogic.guarantees (kept_too evolves) m -> guarantees m.
Proof using. intros Hm s. eapply triple_mono; [apply Hm|]. by intros r s' []. Qed.

Lemma guarantees_releaseReserved policy id reason nowMs route :
  guarantees (releaseReservedRequest others policy id reason nowMs route).
Proof. apply guarantees_plain, keeps_releaseReserved; [apply _..|by intros s s' [H _]]. Qed.

Lemma guarantees_releaseDispatched policy id route provider nowMs :
  guarantees (releaseDispatchedRequest others policy id route provider nowMs).
Proof. apply guarantees_plain, keeps_releaseDispatched; [apply _..|by intros s s' [H _]]. Qed.

Lemma guarantees_usage_reclaim policy nowMs : guarantees (reclaimExpiredApiKeyUsageReservationsV3 others policy nowMs).
Proof. apply guarantees_plain, keeps_reclaim; [apply _..|by intros s s' [H _]]. Qed.

Lemma guarantees_release_loop tries attempt :
  (forall t, guarantees (attempt t)) -> guarantees (release_loop clock tries attempt).
Proof.
  intros Ha. induction tries as [|tries IH]; cbn; [auto with gateway|].
  apply guarantees_bind; [auto with gateway|]. intros t. apply guarantees_bind; [done|].
  intros []; auto with gateway.
Qed.

Lemma guarantees_cancel d : guarantees (cancelBeforeTransport others clock d).
Proof.
  unfold cancelBeforeTransport. case_match; [auto with gateway|]. case_match; [auto with gateway|].
  apply guarantees_bind; [|auto with gateway].
  apply guarantees_settled, guarantees_release_loop. intros. apply guarantees_releaseDispatched.
Qed.

Lemma guarantees_usage_release c reason : guarantees (release others clock c reason).
Proof.
  unfold release. case_match; [auto with gateway|]. apply guarantees_release_loop. intros.
  apply guarantees_releaseReserved.
Qed.

(** ** Dispatch *)

(** A dispatch that is won at [s'] found the request reserved at the commit. *)
Definition won (sc : UsageScope) (id : string) (s s' : S) : Prop :=
  exists s2, evolves s s2 /\ evolves s2 s'
    /\ row_rank (request_row (kv_map s2) sc id) = 1 /\ 2 <= row_rank (request_row (kv_map s') sc id).

Lemma dispatch_loop_spec tries policy id route provider s :
  triple (dispatch_loop others clock tries policy id route provider) s (fun r s' =>
    evolves s s' /\ (r = Ok true -> won (scope_of policy) id s s')).
Proof.
  revert s. induction tries as [|tries IH]; intros s; cbn [dispatch_loop]; [by apply triple_throw|].
  apply triple_bind, triple_get. intros s0 H0. apply triple_bind, triple_get. intros s1 H1.
  assert (evolves s s1) by by etrans. apply triple_bind, triple_now. intros t.
  destruct (planApiKeyUsageDispatch _ _ _ _ _ _) as [p| |] eqn:Ep; [|by apply triple_ret|by apply triple_throw].
  apply plan_dispatch_moves in Ep as [Hp Hr].
  apply triple_bind, triple_commit.
  - intros s2 s3 H2 Hc. apply triple_ret.
    destruct (commit_write k (scope_of policy) id p s0 s1 s1 s2 s3 _ _ H1 ltac:(reflexivity) H2 Hc) as (H3 & Hm & Er & _);
      [set_solver|set_solver|by apply write_rows_map|done|].
    assert (evolves s s2) by by etrans. split; [by etrans|]. intros _. exists s2. split_and!; [done|done|by rewrite Er|].
    rewrite Hm. unfold moved_map. rewrite request_row_window, request_row_request, bool_decide_true by done.
    pose proof (json_request_rank (wp_request p)). destruct Hp as [_ Hlt _].
    lia.
  - intros s2 H2. eapply triple_mono; [apply IH|]. cbn. intros r s' [H3 Hw].
    assert (evolves s s2) by by etrans. split; [by etrans|].
    intros Hok. destruct (Hw Hok) as (s3 & A & B & C). exists s3. split; [by etrans|done].
Qed.

Context (Hclock : forall n, lease_ok (clock n)).

Lemma guarantees_reserve available policy id route nowMs deferred :
  optional lease_ok nowMs -> guarantees (reserveApiKeyUsageV3 others clock available policy id route nowMs deferred).
Proof using All.
  intros Hnow s n. pose proof (reserve_spec evolves ltac:(by intros ? ? [H _]) Hclock available policy id route nowMs deferred n s Hnow) as [H _].
  by destruct (reserveApiKeyUsageV3 _ _ _ _ _ _ _ _ _) as [r [n' s']].
Qed.

Lemma guarantees_dispatch_loop tries policy id route provider :
  guarantees (dispatch_loop others clock tries policy id route provider).
Proof. intros s. eapply triple_mono; [apply dispatch_loop_spec|]. by intros r s' [H _]. Qed.

Lemma guarantees_dispatch c provider : guarantees (beforeProviderDispatch others clock c provider).
Proof. apply guarantees_bind; [apply guarantees_dispatch_loop|auto with gateway]. Qed.

Lemma guarantees_requireAdmission d : guarantees (requireAdmission others clock d).
Proof using All.
  unfold requireAdmission. repeat case_match; auto with gateway.
  apply guarantees_bind; [by apply guarantees_reserve|]. intros []; auto with gateway.
Qed.

Lemma guarantees_deferred_dispatch d provider : guarantees (deferredBeforeProviderDispatch others clock d provider).
Proof using All.
  apply guarantees_bind; [apply guarantees_requireAdmission|]. intros [[e|c] d']; [auto with gateway|].
  apply guarantees_bind; [apply guarantees_settled, guarantees_dispatch|auto with gateway].
Qed.

Lemma guarantees_deferred_release d reason : guarantees (deferredRelease others clock d reason).
Proof. unfold deferredRelease. case_match; [apply guarantees_usage_release|auto with gateway]. Qed.

(** ** Reclaim and deletion for a key *)

Lemma guarantees_reclaim_policies keyId nowMs policies es :
  guarantees (reclaim_policies others keyId nowMs policies es).
Proof.
  revert policies. induction es as [|e es IH]; intros policies; cbn [reclaim_policies]; [auto with gateway|].
  case_match; [|auto]. apply guarantees_bind; [auto with gateway|]. intros we. case_match; auto.
Qed.

Lemma guarantees_reclaim_each nowMs policies : guarantees (reclaim_each others nowMs policies).
Proof.
  induction policies as [|p ps IH]; cbn [reclaim_each]; [auto with gateway|].
  apply guarantees_bind; [apply guarantees_usage_reclaim|auto].
Qed.

Lemma guarantees_reclaim_key keyId nowMs : guarantees (reclaimApiKeyUsageReservationsForKeyV3 others keyId nowMs).
Proof.
  apply guarantees_bind; [auto with gateway|]. intros es.
  apply guarantees_bind; [apply guarantees_reclaim_policies|]. intros ps. apply guarantees_reclaim_each.
Qed.

(** A key of the usage rows of another API key. *)
Definition foreign (j : string) (key : KvKey) : Prop :=
  has_prefix (API_KEY_USAGE_V3_WINDOW_PREFIX ++ [KStr j])%list key = true
  \/ has_prefix (API_KEY_USAGE_V3_REQUEST_PREFIX ++ [KStr j])%list key = true.

Lemma foreign_window j key sc : foreign j key -> sc_key_id sc <> j -> key <> apiKeyUsageV3WindowKey sc.
Proof.
  intros [H|H] Hne ->; cbn in H; repeat (apply andb_true_iff in H as [? H]); inv_ok; congruence.
Qed.

Lemma foreign_request j key sc id : foreign j key -> sc_key_id sc <> j -> key <> apiKeyUsageV3RequestKey sc id.
Proof.
  intros [H|H] Hne ->; cbn in H; repeat (apply andb_true_iff in H as [? H]); inv_ok; congruence.
Qed.

Lemma foreign_prefix j key sc : foreign j key -> sc_key_id sc <> j -> has_prefix (request_prefix sc) key = false.
Proof.
  intros H Hne. apply not_true_iff_false. intros Hp. unfold foreign in H.
  do 5 (destruct key as [|? key]; [cbn in Hp; by rewrite ?andb_false_r in Hp|]).
  destruct H as [H|H]; cbn in Hp, H; inv_ok; congruence.
Qed.

Lemma delete_foreign j key s s' cs :
  k <> j -> foreign j key -> kv_commit cs [MDelete key] s = (true, s') -> evolves s s'.
Proof.
  intros Hne Hf Hc. destruct (kv_commit_ok _ _ _ _ Hc) as (_ & _ & Hm). cbn in Hm.
  assert (forall sc, sc_key_id sc = k -> window_row (kv_map s') sc = window_row (kv_map s) sc) as Hw.
  { intros sc Hk. unfold window_row, entry_at. rewrite Hm, lookup_delete_ne; [done|]. apply (foreign_window j); congruence. }
  constructor.
  - by eapply commit_advances.
  - intros Hinv sc Hk c r. rewrite Hw by done. unfold usage_count, row_sum. rewrite Hm.
    rewrite !prefix_sum_delete_out by (apply (foreign_prefix j); congruence). by apply Hinv.
  - intros sc id Hk. unfold request_row, entry_at. rewrite Hm, lookup_delete_ne; [done|].
    apply (foreign_request j); congruence.
Qed.

Lemma guarantees_delete_each j keys :
  k <> j -> Forall (foreign j) keys -> guarantees (delete_each others keys).
Proof.
  intros Hne. induction 1 as [|key keys Hf _ IH]; cbn [delete_each]; [auto with gateway|].
  apply guarantees_bind; [|auto]. intros s. apply triple_commit; [|done].
  intros s1 s2 H1 Hc. etrans; [done|]. by eapply delete_foreign.
Qed.

Lemma listed_prefix (s : S) p e : e ∈ kv_list s p -> has_prefix p (entry_key e) = true.
Proof.
  rewrite kv_list_spec. unfold entries_under. intros H.
  apply list_elem_of_fmap in H as ([key [v n]] & -> & H). by apply list_elem_of_filter in H as [H _].
Qed.

Lemma guarantees_delete j : k <> j -> guarantees (deleteApiKeyUsageV3 others j).
Proof.
  intros Hne s. apply triple_bind, triple_list. intros s1 H1. apply triple_bind, triple_list. intros s2 H2.
  eapply triple_mono; [apply (guarantees_delete_each j); [done|]|].
  - apply Forall_app. split; apply Forall_forall; intros key H;
      apply list_elem_of_fmap in H as (e & -> & H); apply listed_prefix in H; [by left|by right].
  - cbn. intros _ s3 H3. etrans; [done|]. by etrans.
Qed.
End guarantee.
