(* ===== verification/ApiKeyAlone.v ===== *)
(** * The API-key usage quota without interference

    What a call does when no other client acts: releases and reclaims of expired
    leases, and what a reservation answers on a store whose rows are well
    formed. *)

From Stdlib Require Import ZArith Lia.
From stdpp Require Import base gmap strings list.
From S2P Require Import Prelude Js KvStore KvLogic ApiKeyUsage ApiKeyStore ApiKeyRows ApiKeySafety ApiKeyGuarantee.
Open Scope string_scope.
Open Scope Z_scope.

#[export] Instance quiet_evolves {S} `{!KvStoreOf ApiKeyValue S} k : RelyOn (usage_evolves k) (quiet : Clients S).
Proof. intros n s. reflexivity. Qed.

(** ** Reclaim *)

Section alone.
Context {S : Type} `{Kv : !KvStoreOf ApiKeyValue S}.
Context (clock : nat -> Z).

(** Requests keep their rows or are past being reserved, and no hash record
    changes. *)
Record calm (s s' : S) : Prop := {
  cm_rows sc id : request_row (kv_map s') sc id = request_row (kv_map s) sc id
                  \/ 2 <= row_rank (request_row (kv_map s') sc id);
  cm_hash h : entry_at (kv_map s') (apiKeyHashKey h) = entry_at (kv_map s) (apiKeyHashKey h) }.

#[local] Instance calm_preorder : PreOrder calm.
Proof.
  split.
  - intros s. constructor; auto.
  - intros s1 s2 s3 [A1 B1] [A2 B2]. constructor; [|by intros h; rewrite B2].
    intros sc id. destruct (A2 sc id) as [E|E]; [rewrite E; auto|auto].
Qed.

#[local] Instance quiet_calm : RelyOn calm (quiet : Clients S).
Proof. intros n s. reflexivity. Qed.

Lemma moved_calm sc id p n (s s' : S) :
  kv_map s' = moved_map sc id p n (kv_map s) -> 2 <= state_rank (ur_state (wp_request p)) -> calm s s'.
Proof.
  intros Hm Hr. constructor.
  - intros sc' id'. rewrite Hm. unfold moved_map. rewrite request_row_window, request_row_request.
    case_bool_decide; [right|by left]. pose proof (json_request_rank (wp_request p)). lia.
  - intros h. unfold entry_at. rewrite Hm. unfold moved_map. by rewrite !lookup_insert_ne by done.
Qed.

Definition not_reserved (sc : UsageScope) (id : string) (s : S) : Prop :=
  row_rank (request_row (kv_map s) sc id) <> state_rank UReserved.

Lemma calm_not_reserved sc id s s' : calm s s' -> not_reserved sc id s -> not_reserved sc id s'.
Proof. unfold not_reserved. intros H Hn. destruct (cm_rows _ _ H sc id) as [E|E]; [by rewrite E|cbn; lia]. Qed.

(** A release that is no conflict and found nothing malformed leaves the request
    not reserved. *)
Lemma release_alone policy id reason nowMs route s :
  triple (releaseReservedRequest quiet policy id reason nowMs route) s (fun r s' =>
    calm s s' /\ forall o, r = Ok o -> o <> OutConflict /\ (o <> OutInvalid -> not_reserved (scope_of policy) id s')).
Proof.
  apply triple_bind, (triple_get (rely := eq)). intros s0 <-. apply triple_bind, (triple_get (rely := eq)). intros s1 <-.
  fold (request_row (kv_map s) (scope_of policy) id). fold (window_row (kv_map s) (scope_of policy)).
  destruct (planApiKeyUsageReservedRelease _ _ _ _ _ _) as [p| | |] eqn:Ep; cbn [commit_release].
  - apply triple_bind, triple_commit_quiet; [apply checks_current; repeat constructor; eauto|].
    intros s' Hc. apply triple_ret. destruct (kv_commit_ok _ _ _ _ Hc) as (_ & _ & Hm). rewrite write_rows_map in Hm.
    assert (ur_state (wp_request p) = UReleased) as Est.
    { unfold planApiKeyUsageReservedRelease in Ep. cbn [us_request us_window] in Ep.
      destruct (normalizeApiKeyUsageRequestV3 _); [|by case_match]. by plan_guards Ep. }
    split; [eapply moved_calm; [done|by rewrite Est]|]. intros o [= <-]. split; [done|]. intros _.
    unfold not_reserved. rewrite Hm. unfold moved_map.
    rewrite request_row_window, request_row_request, bool_decide_true by done.
    pose proof (json_request_rank (wp_request p)) as Hj. rewrite Est in Hj. cbn in *. lia.
  - apply triple_ret. split; [reflexivity|]. intros o [= <-]. split; [done|]. intros _.
    unfold planApiKeyUsageReservedRelease in Ep. cbn [us_request us_window] in Ep.
    destruct (normalizeApiKeyUsageRequestV3 _) eqn:En; [plan_guards Ep|]. case_match eqn:E; [|done].
    unfold not_reserved, row_rank. by rewrite E.
  - apply triple_ret. split; [reflexivity|]. by intros o [= <-].
  - apply triple_ret. split; [reflexivity|]. intros o [= <-]. split; [done|]. intros _.
    unfold planApiKeyUsageReservedRelease in Ep. cbn [us_request us_window] in Ep.
    destruct (normalizeApiKeyUsageRequestV3 _) as [q|] eqn:En; [|by case_match]. plan_guards Ep.
    unfold not_reserved. rewrite (row_rank_normalized _ _ En). by destruct (ur_state q).
Qed.

Lemma release_expired_alone tries policy id nowMs s :
  triple (release_expired_loop quiet tries policy id nowMs) s (fun r s' =>
    calm s s' /\ (r = Ok tt -> not_reserved (scope_of policy) id s')).
Proof.
  destruct tries as [|tries]; cbn [release_expired_loop]; [by apply triple_throw|].
  apply triple_bind. eapply triple_mono; [apply release_alone|]. cbn. intros [e|o] s1 [H1 Ho]; [done|].
  destruct (Ho o eq_refl) as [Hc Hn]. destruct o; try done; try (apply triple_ret; auto).
Qed.

Lemma release_each_alone policy nowMs ids s :
  triple (release_each quiet policy nowMs ids) s (fun r s' =>
    calm s s' /\ (r = Ok tt -> Forall (fun id => not_reserved (scope_of policy) id s') ids)).
Proof.
  revert s. induction ids as [|id ids IH]; intros s; cbn [release_each]; [apply triple_ret; split; [reflexivity|by constructor]|].
  apply triple_bind. eapply triple_mono; [apply release_expired_alone|]. cbn. intros [e|[]] s1 [H1 Hr]; [done|].
  eapply triple_mono; [apply IH|]. cbn. intros r s2 [H2 Hall]. split; [by etrans|].
  intros Hok. constructor; [|auto]. eapply calm_not_reserved; [done|auto].
Qed.

(** No reserved request of the scope is past its lease. *)
Definition no_expired (sc : UsageScope) (nowMs : Z) (s : S) : Prop :=
  forall id q, normalizeApiKeyUsageRequestV3 (request_row (kv_map s) sc id) = Some q ->
    ur_state q = UReserved -> nowMs < ur_lease_expires_at_ms q.

Lemma expired_listed_complete policy nowMs es ids e q :
  expired_listed policy nowMs es = Ok ids -> e ∈ es -> normalizeApiKeyUsageRequestV3 (row_of e) = Some q ->
  isApiKeyUsageReservationExpired q nowMs = true -> ur_request_id q ∈ ids /\ last_string (entry_key e) = Some (ur_request_id q).
Proof.
  revert ids. induction es as [|e' es IH]; intros ids H He Hq Hx; [set_solver|]. cbn in H.
  destruct (normalizeApiKeyUsageRequestV3 (row_of e')) as [q'|] eqn:Hq'; [|done].
  destruct (last_string (entry_key e')) as [l|] eqn:Hl; [|done]. destruct (_ && _) eqn:E; [|done]. inv_ok.
  apply elem_of_cons in He as [<-|He].
  - rewrite Hq in Hq'. injection Hq' as <-. rewrite Hx. split; [set_solver|congruence].
  - destruct (IH _ H He Hq Hx). split; [case_match; set_solver|done].
Qed.

Lemma listed_row (s : S) sc id v n :
  kv_map s !! apiKeyUsageV3RequestKey sc id = Some (v, n) ->
  mkEntry (apiKeyUsageV3RequestKey sc id) v (Some n) ∈ kv_list s (request_prefix sc).
Proof.
  intros H. rewrite kv_list_spec. unfold entries_under. apply list_elem_of_fmap.
  exists (apiKeyUsageV3RequestKey sc id, (v, n)). split; [done|]. apply list_elem_of_filter. split; [by apply under_request|].
  by apply elem_of_map_to_list.
Qed.

Lemma reclaim_alone policy nowMs s :
  triple (reclaimExpiredApiKeyUsageReservationsV3 quiet policy nowMs) s (fun r s' =>
    calm s s' /\ (r = Ok tt -> no_expired (scope_of policy) nowMs s')).
Proof.
  apply triple_bind, triple_bind, (triple_list (rely := eq)). intros s0 <-. apply triple_lift.
  destruct (expired_listed _ _ _) as [e|ids] eqn:Ex; [split; [reflexivity|done]|].
  eapply triple_mono; [apply release_each_alone|]. cbn. intros r s' [Hc Hr]. split; [done|]. intros Hok id q Hq Est.
  specialize (Hr Hok). destruct (Z.lt_ge_cases nowMs (ur_lease_expires_at_ms q)) as [|Hle]; [done|exfalso].
  destruct (cm_rows _ _ Hc (scope_of policy) id) as [E|E].
  - rewrite E in Hq. unfold request_row, entry_at in Hq.
    destruct (kv_map s !! apiKeyUsageV3RequestKey (scope_of policy) id) as [[v n]|] eqn:Hl; [|done].
    destruct (expired_listed_complete policy nowMs _ ids _ q Ex (listed_row _ _ _ _ _ Hl) Hq) as [Hin Hlast].
    { unfold isApiKeyUsageReservationExpired. rewrite Est, bool_decide_true by done. cbn. lia. }
    cbn in Hlast. injection Hlast as Hid. rewrite <- Hid in Hin. rewrite Forall_forall in Hr. apply (Hr _ Hin).
    rewrite E. unfold request_row, entry_at. rewrite Hl. rewrite (row_rank_normalized _ _ Hq). by rewrite Est.
  - rewrite (row_rank_normalized _ _ Hq), Est in E. cbn in E. lia.
Qed.

(** ** A well-formed scope *)

(** A reserved request whose lease still runs. *)
Definition live_row (nowMs : Z) (v : jsval) : Z :=
  match normalizeApiKeyUsageRequestV3 v with
  | Some q => b2z (bool_decide (ur_state q = UReserved) && (nowMs <? ur_lease_expires_at_ms q))
  | None => 0
  end.

(** The counters are exact, the window is absent or the policy's own, and every
    row under the scope is a request of the key, stored under its own id. *)
Record scope_ok (P : ApiKeyPolicy) (s : S) : Prop := {
  so_inv : usage_inv (ap_key_id P) (kv_map s);
  so_window : window_row (kv_map s) (scope_of P) = JNull
              \/ is_Some (matchingApiKeyUsageWindowV3 (window_row (kv_map s) (scope_of P)) P);
  so_rows key v n : kv_map s !! key = Some (v, n) -> has_prefix (request_prefix (scope_of P)) key = true ->
    exists q, normalizeApiKeyUsageRequestV3 (row_value v) = Some q
      /\ key = apiKeyUsageV3RequestKey (scope_of P) (ur_request_id q) /\ ur_key_id q = ap_key_id P }.

Lemma scope_row P s id q :
  scope_ok P s -> normalizeApiKeyUsageRequestV3 (request_row (kv_map s) (scope_of P) id) = Some q ->
  ur_key_id q = ap_key_id P /\ ur_request_id q = id.
Proof.
  intros Hok Hq. unfold request_row, row_of, entry_at in Hq.
  destruct (kv_map s !! apiKeyUsageV3RequestKey (scope_of P) id) as [[v n]|] eqn:E; [|done].
  destruct (so_rows _ _ Hok _ _ _ E) as (q' & Hq' & Hkey & Hk); [by apply under_request|].
  cbn in Hq. rewrite Hq in Hq'. injection Hq' as <-. apply request_key_inj in Hkey as [_ ->]. done.
Qed.

(** A reserved row is counted, so its window is there and counts it. *)
Lemma scope_window P s id q :
  scope_ok P s -> normalizeApiKeyUsageRequestV3 (request_row (kv_map s) (scope_of P) id) = Some q ->
  ur_state q = UReserved ->
  exists w, matchingApiKeyUsageWindowV3 (window_row (kv_map s) (scope_of P)) P = Some w /\ 1 <= uw_reserved_requests w.
Proof.
  intros Hok Hq Hst.
  assert (1 <= usage_count UReserved (scope_of P) (kv_map s)) as Hone.
  { pose proof (key_weight_le (fun v => in_usage_state UReserved (row_value v)) (request_prefix (scope_of P)) (kv_map s)
      (apiKeyUsageV3RequestKey (scope_of P) id)) as Hle.
    unfold key_weight in Hle. rewrite (proj2 (under_request _ _ _) eq_refl) in Hle.
    unfold request_row, row_of, entry_at in Hq. destruct (kv_map s !! _) as [[v n]|]; [|done]. cbn in Hq.
    rewrite (in_usage_state_normalized _ _ _ Hq), Hst, bool_decide_true in Hle by done.
    apply Hle. intros. apply in_usage_state_nonneg. }
  destruct (so_window _ _ Hok) as [Hnull|[w Hw]].
  - destruct (so_inv _ _ Hok (scope_of P) eq_refl 0 0) as [_ H0]; [by rewrite Hnull|]. lia.
  - exists w. split; [done|]. apply matching_normalized in Hw as (Hn & _).
    destruct (so_inv _ _ Hok (scope_of P) eq_refl _ _ (window_counts_normalized _ _ Hn)) as [_ <-]. done.
Qed.

Lemma matching_reads_back P w :
  window_wf w -> uw_key_id w = ap_key_id P -> uw_policy_version w = ap_policy_version P ->
  uw_window_start_ms w = ap_window_start_ms P -> uw_window_reset_at_ms w = ap_usage_reset_at_ms P ->
  matchingApiKeyUsageWindowV3 (json_usage_window w) P = Some w.
Proof.
  intros Hwf E1 E2 E3 E4. unfold matchingApiKeyUsageWindowV3. rewrite window_reads_back by done. cbn.
  by rewrite E1, E2, E3, E4, !bool_decide_true, !Z.eqb_refl by done.
Qed.

Lemma scope_moved P id p n s s' :
  scope_ok P s -> kv_map s' = moved_map (scope_of P) id p n (kv_map s) ->
  moves (request_row (kv_map s) (scope_of P) id) (window_row (kv_map s) (scope_of P)) p ->
  window_wf (wp_window p) -> matchingApiKeyUsageWindowV3 (json_usage_window (wp_window p)) P = Some (wp_window p) ->
  ur_key_id (wp_request p) = ap_key_id P -> ur_request_id (wp_request p) = id -> scope_ok P s'.
Proof.
  intros Hok Hm Hmv Hwf Hw Hk Hid. constructor; rewrite Hm.
  - apply moved_inv; [done|apply (so_inv _ _ Hok)].
  - right. unfold moved_map. rewrite window_row_window, bool_decide_true by done. by eexists.
  - intros key v n' Hl Hp. unfold moved_map in Hl. apply lookup_insert_Some in Hl as [[<- _]|[_ Hl]]; [done|].
    apply lookup_insert_Some in Hl as [[<- Hl]|[_ Hl]]; [|by eapply (so_rows _ _ Hok)].
    injection Hl as <- _. exists (wp_request p). split; [apply request_reads_back, (mv_wf _ _ _ Hmv), Hwf|].
    by rewrite Hid.
Qed.

(** ** Reclaim on a well-formed scope *)

(** What the reclaim of an expired lease keeps: a well-formed scope, its
    dispatched and live requests, the hash records, and every other row. *)
Record reclaims (P : ApiKeyPolicy) (nowMs : Z) (ids : list string) (s s' : S) : Prop := {
  rec_ok : scope_ok P s';
  rec_dispatched : usage_count UDispatched (scope_of P) (kv_map s') = usage_count UDispatched (scope_of P) (kv_map s);
  rec_live : row_sum (live_row nowMs) (scope_of P) (kv_map s') = row_sum (live_row nowMs) (scope_of P) (kv_map s);
  rec_rows id : id ∉ ids -> request_row (kv_map s') (scope_of P) id = request_row (kv_map s) (scope_of P) id;
  rec_settled id q : id ∈ ids -> normalizeApiKeyUsageRequestV3 (request_row (kv_map s) (scope_of P) id) = Some q ->
    exists q', normalizeApiKeyUsageRequestV3 (request_row (kv_map s') (scope_of P) id) = Some q'
      /\ (q' = q \/ ur_state q' = UReleased) }.

Lemma reclaims_refl P nowMs ids s : scope_ok P s -> reclaims P nowMs ids s s.
Proof. intros Hok. constructor; eauto. Qed.

Lemma reclaims_trans P nowMs ids ids' s1 s2 s3 :
  reclaims P nowMs ids s1 s2 -> reclaims P nowMs ids' s2 s3 -> reclaims P nowMs (ids ++ ids')%list s1 s3.
Proof.
  intros [A1 B1 C1 D1 E1] [A2 B2 C2 D2 E2]. constructor; [done|congruence|congruence| |].
  - intros id Hid. rewrite elem_of_app in Hid. rewrite D2, D1 by tauto. done.
  - intros id q _ Hq.
    assert (exists q', normalizeApiKeyUsageRequestV3 (request_row (kv_map s2) (scope_of P) id) = Some q'
      /\ (q' = q \/ ur_state q' = UReleased)) as (q' & Hq' & Hor).
    { destruct (decide (id ∈ ids)) as [Hin|Hin]; [by apply (E1 id)|]. rewrite (D1 id Hin). eauto. }
    assert (exists q'', normalizeApiKeyUsageRequestV3 (request_row (kv_map s3) (scope_of P) id) = Some q''
      /\ (q'' = q' \/ ur_state q'' = UReleased)) as (q'' & Hq'' & Hor').
    { destruct (decide (id ∈ ids')) as [Hin|Hin]; [by apply (E2 id)|]. rewrite (D2 id Hin). eauto. }
    exists q''. split; [done|]. destruct Hor' as [->|]; auto.
Qed.

(** A request that may be released: no longer reserved, or past its lease. *)
Definition releasable (nowMs : Z) (q : ApiKeyUsageRequestV3) : Prop :=
  ur_state q = UReserved -> ur_lease_expires_at_ms q <= nowMs.

Lemma live_row_releasable nowMs v q :
  normalizeApiKeyUsageRequestV3 v = Some q -> releasable nowMs q -> live_row nowMs v = 0.
Proof.
  unfold live_row, releasable. intros -> H. case_bool_decide as E; [|done]. cbn.
  specialize (H E). by destruct (Z.ltb_spec nowMs (ur_lease_expires_at_ms q)); [lia|].
Qed.

Section reclaim.
Context (P : ApiKeyPolicy) (nowMs : Z) (Hnow : count_ok nowMs).

Lemma plan_release_ready id s q :
  scope_ok P s -> normalizeApiKeyUsageRequestV3 (request_row (kv_map s) (scope_of P) id) = Some q ->
  exists w, match planApiKeyUsageReservedRelease P id "lease_expired"
    (mkUsageSnapshot (request_row (kv_map s) (scope_of P) id) (window_row (kv_map s) (scope_of P))) nowMs None with
  | ReleaseSettled => ur_state q <> UReserved
  | ReleaseWrite p => ur_state q = UReserved /\ wp_request p
        = q <| ur_state := UReleased |> <| ur_released_at_ms := Some nowMs |> <| ur_release_reason := Some "lease_expired" |>
      /\ wp_window p = w <| uw_reserved_requests := uw_reserved_requests w - 1 |> <| uw_updated_at_ms := nowMs |>
      /\ matchingApiKeyUsageWindowV3 (window_row (kv_map s) (scope_of P)) P = Some w /\ 1 <= uw_reserved_requests w
  | _ => False
  end.
Proof.
  intros Hok Hq. destruct (scope_row _ _ _ _ Hok Hq) as [Hk Hid].
  unfold planApiKeyUsageReservedRelease. cbn [us_request us_window]. rewrite Hq, Hk, Hid, !bool_decide_true by done. cbn [negb orb].
  case_bool_decide as Est; cbn [negb].
  - destruct (scope_window _ _ _ _ Hok Hq Est) as (w & Hw & Hone). exists w. rewrite Hw. destruct (Z.ltb_spec (uw_reserved_requests w) 1); [lia|done].
  - by exists (makeApiKeyUsageWindowV3 P 0).
Qed.

Lemma release_total id s q :
  scope_ok P s -> normalizeApiKeyUsageRequestV3 (request_row (kv_map s) (scope_of P) id) = Some q -> releasable nowMs q ->
  triple (releaseReservedRequest quiet P id "lease_expired" nowMs None) s (fun r s' =>
    (r = Ok OutReleased \/ r = Ok OutSettled) /\ reclaims P nowMs [id] s s').
Proof using Hnow.
  intros Hok Hq Hrel. destruct (plan_release_ready id s q Hok Hq) as (w & Hplan).
  apply triple_bind, (triple_get (rely := eq)). intros s0 <-. apply triple_bind, (triple_get (rely := eq)). intros s1 <-.
  fold (request_row (kv_map s) (scope_of P) id). fold (window_row (kv_map s) (scope_of P)).
  destruct (planApiKeyUsageReservedRelease _ _ _ _ _ _) as [p| | |] eqn:Ep; cbn [commit_release]; try done.
  2:{ apply triple_ret. split; [by right|]. by apply reclaims_refl. }
  destruct Hplan as (Est & Er & Ew & Hw & Hone). pose proof (plan_release_moves _ _ _ _ _ _ _ _ Ep) as Hmv.
  apply triple_bind, triple_commit_quiet; [apply checks_current; repeat constructor; eauto|].
  intros s' Hc. apply triple_ret. destruct (kv_commit_ok _ _ _ _ Hc) as (_ & _ & Hm). rewrite write_rows_map in Hm.
  split; [by left|]. destruct (scope_row _ _ _ _ Hok Hq) as [Hk Hid].
  destruct (matching_normalized _ _ _ Hw) as (Hn & E1 & E2 & E3 & E4). pose proof (window_normalized _ _ Hn) as [].
  assert (window_wf (wp_window p)) as Hwf.
  { rewrite Ew. constructor; cbn; try done. unfold count_ok in *. lia. }
  pose proof (mv_wf _ _ _ Hmv Hwf) as Hrwf.
  assert (forall f, f JNull = 0 -> row_sum f (scope_of P) (kv_map s')
    = row_sum f (scope_of P) (kv_map s) - f (request_row (kv_map s) (scope_of P) id) + f (json_usage_request (wp_request p))) as Hsum.
  { intros f Hf. rewrite Hm. unfold moved_map. rewrite row_sum_window, row_sum_request, bool_decide_true by done. done. }
  constructor.
  - eapply scope_moved; [done|done|done|done| | |].
    + apply matching_reads_back; [done|rewrite Ew; cbn; done..].
    + by rewrite Er.
    + by rewrite Er.
  - unfold usage_count. rewrite Hsum by done. rewrite (in_usage_state_normalized _ _ _ Hq), in_usage_state_json, Er, Est by done.
    cbn. states.
  - rewrite Hsum by done. rewrite (live_row_releasable _ _ _ Hq Hrel).
    unfold live_row. rewrite request_reads_back, Er by done. cbn. rewrite bool_decide_false by done. cbn. lia.
  - intros id' Hid'. rewrite Hm. unfold moved_map. rewrite request_row_window, request_row_request, bool_decide_false; [done|].
    intros [_ ->]. set_solver.
  - intros id' q' ->%list_elem_of_singleton _. exists (wp_request p). split; [|right; by rewrite Er].
    rewrite Hm. unfold moved_map. rewrite request_row_window, request_row_request, bool_decide_true by done.
    by apply request_reads_back.
Qed.

Lemma release_each_total ids s :
  scope_ok P s ->
  Forall (fun id => exists q, normalizeApiKeyUsageRequestV3 (request_row (kv_map s) (scope_of P) id) = Some q /\ releasable nowMs q) ids ->
  triple (release_each quiet P nowMs ids) s (fun r s' => r = Ok tt /\ reclaims P nowMs ids s s').
Proof using Hnow.
  revert s. induction ids as [|id ids IH]; intros s Hok Hall; cbn [release_each];
    [apply triple_ret; split; [done|by apply reclaims_refl]|].
  inversion_clear Hall as [|? ? (q & Hq & Hrel) Hrest].
  apply triple_bind. unfold releaseExpiredApiKeyUsageReservation. cbn [release_expired_loop MAX_KV_RETRIES].
  apply triple_bind. eapply triple_mono; [by eapply release_total|]. cbn. intros r s1 [Hr Hrec].
  assert (triple (release_each quiet P nowMs ids) s1 (fun r s' => r = Ok tt /\ reclaims P nowMs (id :: ids) s s')) as Hgo.
  { eapply triple_mono; [apply IH; [apply (rec_ok _ _ _ _ _ Hrec)|]|].
    - eapply Forall_impl; [exact Hrest|]. cbn. intros id' (q0 & Hq0 & Hrel0).
      destruct (decide (id' = id)) as [->|Hne].
      + destruct (rec_settled _ _ _ _ _ Hrec id q0) as (q' & Hq' & Hor); [set_solver|done|]. exists q'. split; [done|].
        destruct Hor as [->|E]; [done|]. unfold releasable. congruence.
      + exists q0. rewrite (rec_rows _ _ _ _ _ Hrec) by set_solver. done.
    - cbn. intros r' s2 [-> Hrec2]. split; [done|]. by apply (reclaims_trans _ _ [id] ids _ s1). }
  destruct Hr as [->| ->]; apply triple_ret, Hgo.
Qed.

Lemma usage_listed_entry (s : S) p e :
  e ∈ kv_list s p -> exists v n, e = mkEntry (entry_key e) v (Some n) /\ kv_map s !! entry_key e = Some (v, n)
    /\ has_prefix p (entry_key e) = true.
Proof.
  rewrite kv_list_spec. unfold entries_under. intros H.
  apply list_elem_of_fmap in H as ([key [v n]] & -> & H). apply list_elem_of_filter in H as [Hp H].
  exists v, n. split; [done|]. split; [by apply elem_of_map_to_list|done].
Qed.

Lemma expired_total s es :
  scope_ok P s -> es ⊆ kv_list s (request_prefix (scope_of P)) ->
  exists ids, expired_listed P nowMs es = Ok ids
    /\ Forall (fun id => exists q, normalizeApiKeyUsageRequestV3 (request_row (kv_map s) (scope_of P) id) = Some q /\ releasable nowMs q) ids.
Proof.
  intros Hok. induction es as [|e es IH]; intros Hsub; [by exists []|].
  destruct (usage_listed_entry s _ e (Hsub e ltac:(set_solver))) as (v & n & Ee & Hl & Hp).
  destruct (so_rows _ _ Hok _ _ _ Hl Hp) as (q & Hq & Hkey & Hk).
  destruct IH as (ids & Hids & Hall); [set_solver|]. cbn [expired_listed].
  assert (row_of e = row_value v) as -> by (rewrite Ee; done). rewrite Hq.
  assert (last_string (entry_key e) = Some (ur_request_id q)) as -> by (by rewrite Hkey).
  rewrite Hk, !bool_decide_true by done. cbn. rewrite Hids. cbn. eexists. split; [done|].
  destruct (isApiKeyUsageReservationExpired q nowMs) eqn:Ex; [|done]. constructor; [|done].
  exists q. unfold request_row, row_of, entry_at. rewrite <- Hkey, Hl. split; [done|].
  unfold isApiKeyUsageReservationExpired in Ex. inv_ok. intros _. lia.
Qed.

(** The reclaim on a well-formed scope succeeds, and afterwards the reserved
    requests are those that were live before it. *)
Lemma reclaim_total s :
  scope_ok P s ->
  triple (reclaimExpiredApiKeyUsageReservationsV3 quiet P nowMs) s (fun r s' => r = Ok tt
    /\ scope_ok P s'
    /\ usage_count UDispatched (scope_of P) (kv_map s') = usage_count UDispatched (scope_of P) (kv_map s)
    /\ usage_count UReserved (scope_of P) (kv_map s') = row_sum (live_row nowMs) (scope_of P) (kv_map s)
    /\ (forall id, request_row (kv_map s) (scope_of P) id = JNull -> request_row (kv_map s') (scope_of P) id = JNull)
    /\ forall h, entry_at (kv_map s') (apiKeyHashKey h) = entry_at (kv_map s) (apiKeyHashKey h)).
Proof using Hnow.
  intros Hok n. pose proof (reclaim_alone P nowMs s n) as Halone. revert n Halone.
  assert (triple (reclaimExpiredApiKeyUsageReservationsV3 quiet P nowMs) s (fun r s' =>
    r = Ok tt /\ exists ids, reclaims P nowMs ids s s'
      /\ Forall (fun id => exists q, normalizeApiKeyUsageRequestV3 (request_row (kv_map s) (scope_of P) id) = Some q /\ releasable nowMs q) ids)) as Hrun.
  { apply triple_bind, triple_bind, (triple_list (rely := eq)). intros s0 <-. apply triple_lift.
    destruct (expired_total s (kv_list s (request_prefix (scope_of P))) Hok) as (ids & -> & Hall); [done|].
    eapply triple_mono; [by apply release_each_total|]. cbn. intros r s' [-> Hrec]. eauto. }
  intros n Halone. specialize (Hrun n).
  destruct (reclaimExpiredApiKeyUsageReservationsV3 quiet P nowMs (n, s)) as [r [n' s']].
  destruct Hrun as (-> & ids & Hrec & Hids). destruct Halone as [Hcalm Hclean]. specialize (Hclean eq_refl).
  split; [done|]. split; [apply (rec_ok _ _ _ _ _ Hrec)|]. split; [apply (rec_dispatched _ _ _ _ _ Hrec)|]. split.
  - rewrite <- (rec_live _ _ _ _ _ Hrec). unfold usage_count, row_sum, prefix_sum. apply msum_ext.
    intros key [v n0] Hl. apply map_lookup_filter_Some in Hl as [Hl Hp]. cbn in *.
    destruct (so_rows _ _ (rec_ok _ _ _ _ _ Hrec) _ _ _ Hl Hp) as (q & Hq & Hkey & _).
    unfold in_usage_state, live_row. rewrite Hq. case_bool_decide as Est; [|done]. cbn.
    assert (nowMs < ur_lease_expires_at_ms q) as Hlt.
    { apply (Hclean (ur_request_id q) q); [|done]. unfold request_row, row_of, entry_at. by rewrite <- Hkey, Hl. }
    destruct (Z.ltb_spec nowMs (ur_lease_expires_at_ms q)); [done|lia].
  - split; [|apply (cm_hash _ _ Hcalm)]. intros id Hnull. rewrite (rec_rows _ _ _ _ _ Hrec); [done|].
    intros Hin. rewrite Forall_forall in Hids. destruct (Hids _ Hin) as (q & Hq & _). by rewrite Hnull in Hq.
Qed.
End reclaim.
End alone.

(** ** What a reservation answers *)

Section answer.
Context {S : Type} `{Kv : !KvStoreOf ApiKeyValue S}.
Context (clock : nat -> Z) (policy P : ApiKeyPolicy) (id route : string) (nowMs : Z).

(** The time can be printed as a date. *)
Definition date_ok (t : Z) : Prop := -8640000000000000 <= t <= 8640000000000000.

Definition full (c r : Z) : bool :=
  negb (ap_usage_limit_requests P =? API_KEY_NO_USAGE_LIMIT) && (ap_usage_limit_requests P <=? c + r).

(** A store on which the request is new and the key has the policy [P]. *)
Record ready (s : S) : Prop := {
  rd_live : livePolicyFromEntry (ap_token_hash policy) (entry_at (kv_map s) (apiKeyHashKey (ap_token_hash policy))) nowMs = Some P;
  rd_scope : scope_ok P s;
  rd_fresh : request_row (kv_map s) (scope_of P) id = JNull }.

Definition counts (s : S) : Z * Z :=
  (usage_count UDispatched (scope_of P) (kv_map s), usage_count UReserved (scope_of P) (kv_map s)).

Lemma plan_ready s :
  ready s ->
  match planApiKeyUsageReservation P id route
    (mkUsageSnapshot (request_row (kv_map s) (scope_of P) id) (window_row (kv_map s) (scope_of P))) nowMs with
  | ReserveWrite _ => full (fst (counts s)) (snd (counts s)) = false
  | ReserveFull w => full (fst (counts s)) (snd (counts s)) = true /\ uw_window_reset_at_ms w = ap_usage_reset_at_ms P
  | _ => False
  end.
Proof.
  intros [_ Hok Hfresh]. unfold planApiKeyUsageReservation. cbn [us_request us_window]. rewrite Hfresh. cbn [is_null negb].
  assert (exists w, (if is_null (window_row (kv_map s) (scope_of P)) then Some (makeApiKeyUsageWindowV3 P nowMs)
      else matchingApiKeyUsageWindowV3 (window_row (kv_map s) (scope_of P)) P) = Some w
    /\ counts s = (uw_committed_requests w, uw_reserved_requests w) /\ uw_window_reset_at_ms w = ap_usage_reset_at_ms P)
    as (w & -> & Hc & Hr).
  { pose proof (so_inv _ _ Hok (scope_of P) eq_refl) as Hinv. unfold counts.
    destruct (so_window _ _ Hok) as [Hn|[w Hw]].
    - destruct (Hinv 0 0) as [-> ->]; [by rewrite Hn|]. rewrite Hn. by eexists.
    - exists w. destruct (matching_normalized _ _ _ Hw) as (Hn & _ & _ & _ & Hr).
      destruct (Hinv _ _ (window_counts_normalized _ _ Hn)) as [-> ->].
      split; [|done]. destruct (window_row (kv_map s) (scope_of P)); done. }
  rewrite Hc. unfold full, API_KEY_NO_USAGE_LIMIT. cbn [fst snd].
  destruct (negb _ && _); done.
Qed.

Lemma attempt_ready reclaimed s :
  date_ok (ap_usage_reset_at_ms P) -> count_ok nowMs -> ready s ->
  triple (attemptApiKeyUsageReservation quiet clock policy id route nowMs reclaimed false) s (fun r s' =>
    if full (fst (counts s)) (snd (counts s))
    then if reclaimed then exists response, r = Ok (AttemptDecision (Refused response)) /\ oe_status response = 429
         else r = Ok AttemptReclaimed /\ ready s' /\ fst (counts s') = fst (counts s)
              /\ snd (counts s') = row_sum (live_row nowMs) (scope_of P) (kv_map s)
    else r = Ok (AttemptDecision (Granted (reservationContext P id route)))).
Proof.
  intros Hdate Hnow Hs. pose proof (plan_ready s Hs) as Hplan.
  apply triple_bind, (triple_get (rely := eq)). intros s0 <-. rewrite (rd_live _ Hs).
  apply triple_bind, (triple_get (rely := eq)). intros s1 <-. apply triple_bind, (triple_get (rely := eq)). intros s2 <-.
  fold (request_row (kv_map s) (scope_of P) id). fold (window_row (kv_map s) (scope_of P)).
  destruct (planApiKeyUsageReservation _ _ _ _ _) as [p| |w|] eqn:Ep; try done.
  - rewrite Hplan. apply triple_bind, triple_commit_quiet; [apply checks_current; repeat constructor; eauto|].
    intros s' _. by apply triple_ret.
  - destruct Hplan as [-> Hreset]. apply triple_bind. destruct reclaimed; cbn [fullWindowReservation].
    + apply triple_bind, triple_now. intros t. apply triple_bind, triple_lift.
      unfold quotaExceededResponse, toISOString. rewrite Hreset. unfold date_ok in Hdate.
      destruct ((ap_usage_reset_at_ms P <? -8640000000000000) || (8640000000000000 <? ap_usage_reset_at_ms P)) eqn:E; [lia|].
      cbn. apply triple_ret, triple_ret. by eexists.
    + apply triple_catch, triple_bind. eapply triple_mono; [apply reclaim_total; [done|apply (rd_scope _ Hs)]|].
      cbn beta. intros r s' (-> & Hok & Hd & Hv & Hnull & Hhash). apply triple_ret, triple_ret.
      split; [done|]. split; [|done]. constructor; [|done|apply Hnull, (rd_fresh _ Hs)].
      rewrite Hhash. apply (rd_live _ Hs).
Qed.

Lemma live_le_reserved s :
  row_sum (live_row nowMs) (scope_of P) (kv_map s) <= usage_count UReserved (scope_of P) (kv_map s).
Proof.
  unfold usage_count, row_sum, prefix_sum.
  apply msum_le. intros _ e _.
  unfold live_row, in_usage_state. case_match; [|done]. case_bool_decide; cbn; [apply b2z_le_1|done].
Qed.

Lemma reserve_ready n s :
  id <> "" -> route <> "" -> date_ok (ap_usage_reset_at_ms P) -> count_ok nowMs -> ready s ->
  let filled := full (usage_count UDispatched (scope_of P) (kv_map s)) (row_sum (live_row nowMs) (scope_of P) (kv_map s)) in
  match fst (reserveApiKeyUsageV3 quiet clock true policy id route (Some nowMs) false (n, s)) with
  | Ok (Granted c) => c = reservationContext P id route /\ filled = false
  | Ok (Refused response) => oe_status response = 429 /\ filled = true
  | _ => False
  end.
Proof.
  intros Hid Hroute Hdate Hnow Hs filled.
  assert (triple (reserveApiKeyUsageV3 quiet clock true policy id route (Some nowMs) false) s (fun r _ =>
    match r with
    | Ok (Granted c) => c = reservationContext P id route /\ filled = false
    | Ok (Refused response) => oe_status response = 429 /\ filled = true
    | _ => False
    end)) as H.
  { apply triple_catch. cbn [negb]. unfold empty. rewrite !bool_decide_false by done. cbn [orb].
    apply triple_bind, triple_now. intros t. cbn [default]. apply triple_bind.
    eapply triple_mono; [by apply (attempt_ready false)|]. cbn beta. intros r s1 H1.
    pose proof (live_le_reserved s) as Hle. destruct (full (fst (counts s)) (snd (counts s))) eqn:Ef.
    - destruct H1 as (-> & Hs1 & Ed & Ev). apply triple_bind, triple_now. intros t1. cbn [default]. apply triple_bind.
      eapply triple_mono; [by apply (attempt_ready true)|]. cbn beta. intros r s2 H2. rewrite Ed, Ev in H2. fold filled in H2.
      cbn [fst counts] in H2. fold filled in H2.
      destruct filled eqn:Er; [destruct H2 as (response & -> & H429)|subst r]; by apply triple_ret.
    - subst r. apply triple_ret. split; [done|]. unfold filled, full, counts in *. cbn [fst snd] in Ef. lia. }
  specialize (H n). by destruct (reserveApiKeyUsageV3 _ _ _ _ _ _ _ _ (n, s)) as [r [n' s']].
Qed.
End answer.
