(* ===== verification/ApiKeyTheorems.v ===== *)
(** * The API-key usage quota: what it guarantees *)

From Stdlib Require Import ZArith Lia.
From stdpp Require Import base gmap strings list.
From S2P Require Import Prelude Js KvStore KvLogic NativePaid ApiKeyUsage ApiKeyStore ApiKeyRows ApiKeySafety ApiKeyGuarantee ApiKeyAlone.
Open Scope string_scope.
Open Scope Z_scope.

(** ** Calls *)

(** The calls of the component, each run to its end; a rejected one leaves the
    store as it is for the next. *)
Inductive UsageCall :=
| CallReserve (available : bool) (policy : ApiKeyPolicy) (requestId route : string) (nowMs : option Z) (deferWhenFull : bool)
| CallDispatch (c : ReservationContext) (provider : ApiKeyUsageProvider)
| CallRelease (c : ReservationContext) (reason : option string)
| CallCancel (d : ProviderDispatch)
| CallDeferredDispatch (d : DeferredReservation) (provider : ApiKeyUsageProvider)
| CallDeferredRelease (d : DeferredReservation) (reason : option string)
| CallReclaim (policy : ApiKeyPolicy) (nowMs : Z)
| CallReclaimKey (keyId : string) (nowMs : Z)
| CallDelete (keyId : string).

Definition ignore {S A} (m : KvM S A) : KvM S unit := kv_bind (settled_promise m) (fun _ => kv_ret tt).

Definition run_call {S} `{!KvStoreOf ApiKeyValue S} (others : Clients S) (clock : nat -> Z) (call : UsageCall) : KvM S unit :=
  match call with
  | CallReserve available policy id route nowMs deferred =>
      ignore (reserveApiKeyUsageV3 others clock available policy id route nowMs deferred)
  | CallDispatch c provider => ignore (beforeProviderDispatch others clock c provider)
  | CallRelease c reason => ignore (release others clock c reason)
  | CallCancel d => ignore (cancelBeforeTransport others clock d)
  | CallDeferredDispatch d provider => ignore (deferredBeforeProviderDispatch others clock d provider)
  | CallDeferredRelease d reason => ignore (deferredRelease others clock d reason)
  | CallReclaim policy nowMs => ignore (reclaimExpiredApiKeyUsageReservationsV3 others policy nowMs)
  | CallReclaimKey keyId nowMs => ignore (reclaimApiKeyUsageReservationsForKeyV3 others keyId nowMs)
  | CallDelete keyId => ignore (deleteApiKeyUsageV3 others keyId)
  end.

Fixpoint run_calls {S} `{!KvStoreOf ApiKeyValue S} (others : Clients S) (clock : nat -> Z) (calls : list UsageCall) : KvM S unit :=
  match calls with
  | [] => kv_ret tt
  | call :: calls => kv_bind (run_call others clock call) (fun _ => run_calls others clock calls)
  end.

(** A call that fits key [k]: its lease ends at a safe integer, and it does not
    delete the key. *)
Definition call_ok (k : string) (call : UsageCall) : Prop :=
  match call with
  | CallReserve _ _ _ _ nowMs _ => optional lease_ok nowMs
  | CallDelete j => k <> j
  | _ => True
  end.

Section calls.
Context {S : Type} `{Kv : !KvStoreOf ApiKeyValue S}.
Context (others : Clients S) (clock : nat -> Z) (k : string).
Context `{Hothers : !RelyOn (usage_evolves k) others} (Hclock : forall n, lease_ok (clock n)).
Local Notation guarantees := (guarantees (usage_evolves k)).

Lemma guarantees_ignored {A} (m : KvM S A) : guarantees m -> guarantees (ignore m).
Proof. intros Hm. apply guarantees_bind; [by apply guarantees_settled|auto with gateway]. Qed.

Lemma guarantees_call call : call_ok k call -> guarantees (run_call others clock call).
Proof using All.
  intros Hok. destruct call; apply guarantees_ignored; cbn in Hok.
  - by apply guarantees_reserve.
  - by apply guarantees_dispatch.
  - by apply guarantees_usage_release.
  - by apply guarantees_cancel.
  - by apply guarantees_deferred_dispatch.
  - by apply guarantees_deferred_release.
  - by apply guarantees_usage_reclaim.
  - by apply guarantees_reclaim_key.
  - by apply guarantees_delete.
Qed.

Lemma guarantees_calls calls : Forall (call_ok k) calls -> guarantees (run_calls others clock calls).
Proof using All.
  induction 1 as [|call calls Hok _ IH]; cbn [run_calls]; [auto with gateway|].
  apply guarantees_bind; [by apply guarantees_call|done].
Qed.
End calls.

(** A store with no usage rows. *)
Lemma usage_inv_no_rows k (m : KeyMap) :
  (forall key v, m !! key = Some v -> forall sc, key <> apiKeyUsageV3WindowKey sc /\ has_prefix (request_prefix sc) key = false) ->
  usage_inv k m.
Proof.
  intros Hm sc _ c r.
  assert (m !! apiKeyUsageV3WindowKey sc = None) as E.
  { apply eq_None_not_Some. intros [v Hv]. by destruct (Hm _ _ Hv sc). }
  unfold window_row, entry_at. rewrite E. intros [= <- <-].
  assert (forall st, usage_count st sc m = 0) as H0; [|by rewrite !H0].
  intros st. unfold usage_count, row_sum, prefix_sum. rewrite <- (msum_empty (K := KvKey) (fun e : ApiKeyValue * Z => in_usage_state st (row_value (fst e)))).
  f_equal. apply map_empty. intros key. apply map_lookup_filter_None. right. intros v Hv. cbn [fst].
  destruct (Hm _ _ Hv sc) as [_ Hp]. by rewrite Hp.
Qed.

(** ** A store with one key *)

Module Demo.
Definition paid : jsval := JObj [("paid_fallback_enabled", JBool false); ("paid_fallback_limit_microcredits", jint 0);
  ("paid_fallback_spent_microcredits", jint 0); ("paid_fallback_reserved_microcredits", jint 0);
  ("paid_fallback_reservation_request_id", JNull)].
(** One request per week. *)
Definition record : ApiKeyHashRecord :=
  mkHashRecord "key" (num_of_Z (-1)) None 1 0 1700000000000 (jint USAGE_RESET_PERIOD_MS) 3 paid.
Definition t0 : Z := 1699999000000.
Definition policy : ApiKeyPolicy := default (reclaim_policy (mkScope "" "" 0) 0) (apiKeyPolicyFromHashRecord "h" record t0).
Definition store : MemoryKvOf ApiKeyValue.
Proof.
  refine (mkMemory {[apiKeyHashKey "h" := (HashValue record, 1)]} 1 [] _). apply map_Forall_singleton. cbn. lia.
Defined.
Definition clock (n : nat) : Z := t0.
(** The stores after a reservation and after its dispatch. *)
Definition reserve (id : string) (s : nat * MemoryKvOf ApiKeyValue) :=
  reserveApiKeyUsageV3 quiet clock true policy id "/v1/responses" None false s.
Definition ctx (id : string) : ReservationContext := reservationContext policy id "/v1/responses".
Definition reserved := snd (reserve "r1" (O, store)).
Definition dispatched := snd (beforeProviderDispatch quiet clock (ctx "r1") Cerebras reserved).

Example reserve_granted : fst (reserve "r1" (O, store)) = Ok (Granted (ctx "r1")).
Proof. vm_compute. reflexivity. Qed.
Example reserve_full : match fst (reserve "r2" reserved) with Ok (Refused r) => oe_status r | _ => 0 end = 429.
Proof. vm_compute. reflexivity. Qed.
Example dispatch_won : fst (beforeProviderDispatch quiet clock (ctx "r1") Cerebras reserved)
  = Ok (Some (providerDispatchContext policy "r1" "/v1/responses" Cerebras),
        mkReservationContext policy "r1" "/v1/responses" true).
Proof. vm_compute. reflexivity. Qed.
Example release_frees :
  fst (reserve "r2" (snd (release quiet clock (ctx "r1") None reserved))) = Ok (Granted (ctx "r2")).
Proof. vm_compute. reflexivity. Qed.

Lemma clock_ok n : lease_ok (clock n).
Proof. by vm_compute. Qed.
Lemma store_inv k : usage_inv k (kv_map store).
Proof.
  apply usage_inv_no_rows. intros key v H. cbn in H. apply lookup_singleton_Some in H as [<- _]. by intros sc.
Qed.
End Demo.

Section theorems.
Context {S : Type} `{Kv : !KvStoreOf ApiKeyValue S}.
Context (others : Clients S) (clock : nat -> Z) (k : string).
Context `{Hothers : !RelyOn (usage_evolves k) others} (Hclock : forall n, lease_ok (clock n)).

(** C38: the counters of an API key are exact.  Whatever calls are made, in
    whatever interleaving with other clients that keep the same rely, every
    window of the key that can be read afterwards counts as committed exactly
    the requests that are dispatched and as reserved exactly those that are
    reserved. *)
Theorem api_usage_exact calls s :
  usage_inv k (kv_map s) -> Forall (call_ok k) calls ->
  triple (run_calls others clock calls) s (fun _ s' =>
    forall sc w, sc_key_id sc = k -> normalizeApiKeyUsageWindowV3 (window_row (kv_map s') sc) = Some w ->
      uw_committed_requests w = usage_count UDispatched sc (kv_map s')
      /\ uw_reserved_requests w = usage_count UReserved sc (kv_map s')).
Proof using All.
  intros Hinv Hcalls. eapply triple_mono; [by apply (guarantees_calls others clock k)|]. cbn. intros _ s' H sc w Hk Hw.
  by destruct (ue_inv _ _ _ H Hinv sc Hk _ _ (window_counts_normalized _ _ Hw)) as [-> ->].
Qed.

(** The commits of the log since [s], none of which brought in a row that was
    not there. *)
Definition reserves_none (row : KeyMap -> Z) (own : list (KeyMap * KeyMap)) : Prop :=
  Forall (fun '(m, m') => row m = 0 -> row m' = 0) own.

Definition adds_no_row (s s' : S) : Prop :=
  exists own, kv_log s' = (kv_log s ++ own)%list
    /\ forall sc id, reserves_none (fun m => row_rank (request_row m sc id)) own.

#[local] Instance adds_no_row_preorder : PreOrder adds_no_row.
Proof using.
  split.
  - intros s. exists []. split; [by rewrite app_nil_r|]. intros. constructor.
  - intros s1 s2 s3 (l1 & E1 & H1) (l2 & E2 & H2). exists (l1 ++ l2)%list. rewrite E2, E1, app_assoc. split; [done|].
    intros sc id. apply Forall_app. split; [apply H1|apply H2].
Qed.

Lemma releases_add_no_row s s' : releases k s s' -> adds_no_row s s'.
Proof using.
  intros (_ & Hlog & sc & id & p & Hrank & Hm). exists [(kv_map s, kv_map s')]. split; [done|]. intros sc' id'.
  constructor; [|constructor]. rewrite Hm. unfold moved_map. rewrite request_row_window, request_row_request.
  case_bool_decide as E; [|done]. destruct E as [-> ->]. lia.
Qed.

(** C23: a reservation is granted only within the limit.  The store's log since
    the call holds the call's own commits.  Either none of them brought in the
    request's row and the row is reserved at the end; or the last of them did,
    from entries [m] without the row, in which the hash record of the key, read
    at the time the call was given or at a reading of its own clock, still gave
    the policy the request is granted under, neither revoked nor expired; and
    after it the dispatched and reserved requests of the window are at most the
    policy's limit, if it has one. *)
Theorem api_reserve_within_limit available policy id route nowMs deferred n s c n' s' :
  optional lease_ok nowMs -> (forall n s, kv_log (others n s) = kv_log s) -> usage_inv k (kv_map s) ->
  reserveApiKeyUsageV3 others clock available policy id route nowMs deferred (n, s) = (Ok (Granted c), (n', s')) ->
  ap_key_id (rc_policy c) = k ->
  let P := rc_policy c in
  let row m := row_rank (request_row m (scope_of P) (rc_request_id c)) in
  exists own, kv_log s' = (kv_log s ++ own)%list
  /\ (reserves_none row own /\ row (kv_map s') = state_rank UReserved
      \/ exists before m j, own = (before ++ [(m, kv_map s')])%list /\ reserves_none row before
         /\ row m = 0 /\ state_rank UReserved <= row (kv_map s')
         /\ (n <= j <= n')%nat
         /\ livePolicyFromEntry (ap_token_hash P) (entry_at m (apiKeyHashKey (ap_token_hash P))) (default (clock j) nowMs) = Some P
         /\ (ap_usage_limit_requests P = API_KEY_NO_USAGE_LIMIT
             \/ usage_count UDispatched (scope_of P) (kv_map s') + usage_count UReserved (scope_of P) (kv_map s')
                <= ap_usage_limit_requests P)).
Proof using All.
  intros Hnow Hlog Hinv E Hk P row.
  assert (RelyOn adds_no_row others) as HoQ.
  { intros n0 s0. exists []. rewrite Hlog, app_nil_r. split; [done|]. intros. constructor. }
  destruct (reserve_spec others clock k adds_no_row releases_add_no_row Hclock available policy id route nowMs deferred n s Hnow)
    as [_ H]. rewrite E in H. destruct (H c eq_refl) as (j & Hj & [[(own & Eo & Hown) Hr]|(s2 & [_ (own & Eo & Hown)] & El & H0 & H1 & HP & Hl)]).
  - exists own. split; [done|]. left. by split; [apply Hown|].
  - exists (own ++ [(kv_map s2, kv_map s')])%list. cbn in El. rewrite El, Eo, app_assoc. split; [done|]. right.
    exists own, (kv_map s2), j. split_and!; [done|apply Hown|done|done|cbn in Hj; lia|cbn in Hj; lia|done|auto].
Qed.

(** C6: a request is dispatched once.  After a dispatch was won, in any later
    store no call wins a dispatch of the same request of the same window, and no
    reservation is granted for it again. *)
Theorem api_dispatch_once c provider n s d c1 c2 provider2 n2 s2 :
  ap_key_id (rc_policy c) = k -> scope_of (rc_policy c2) = scope_of (rc_policy c) -> rc_request_id c2 = rc_request_id c ->
  fst (beforeProviderDispatch others clock c provider (n, s)) = Ok (Some d, c1) ->
  usage_evolves k (snd (snd (beforeProviderDispatch others clock c provider (n, s)))) s2 ->
  (forall d' c', fst (beforeProviderDispatch others clock c2 provider2 (n2, s2)) <> Ok (Some d', c'))
  /\ (forall available policy route nowMs deferred c', optional lease_ok nowMs ->
      fst (reserveApiKeyUsageV3 others clock available policy (rc_request_id c) route nowMs deferred (n2, s2)) = Ok (Granted c') ->
      rc_request_id c' = rc_request_id c -> scope_of (rc_policy c') <> scope_of (rc_policy c)).
Proof using All.
  intros Hk Hsc Hid Hwon Hlater.
  assert (forall c p n s d c', fst (beforeProviderDispatch others clock c p (n, s)) = Ok (Some d, c') ->
    won k (scope_of (rc_policy c)) (rc_request_id c) s (snd (snd (beforeProviderDispatch others clock c p (n, s))))) as Hspec.
  { intros c0 p n0 s0 d0 c0' H.
    pose proof (dispatch_loop_spec others clock k MAX_KV_RETRIES (rc_policy c0) (rc_request_id c0) (rc_route c0) p s0 n0) as Hs.
    unfold beforeProviderDispatch, kv_bind in *.
    destruct (dispatch_loop _ _ _ _ _ _ _ (n0, s0)) as [[e|[]] [n' s']]; cbn in *; [done| |done].
    by apply Hs. }
  destruct (Hspec _ _ _ _ _ _ Hwon) as (sa & _ & _ & _ & Hrank).
  assert (2 <= row_rank (request_row (kv_map s2) (scope_of (rc_policy c)) (rc_request_id c))) as Hr2.
  { pose proof (ue_rank _ _ _ Hlater (scope_of (rc_policy c)) (rc_request_id c) Hk). lia. }
  split.
  - intros d' c' H. destruct (Hspec _ _ _ _ _ _ H) as (sb & Hb & _ & Hone & _). rewrite Hsc, Hid in Hone.
    pose proof (ue_rank _ _ _ Hb (scope_of (rc_policy c)) (rc_request_id c) Hk). lia.
  - intros available policy route nowMs deferred c' Hnow H Ei Es.
    destruct (reserve_spec others clock k (usage_evolves k) ltac:(by intros ? ? [? _]) Hclock available policy (rc_request_id c)
      route nowMs deferred n2 s2 Hnow) as [_ Hs].
    destruct (Hs c' H) as (j & _ & Hcase). unfold admitted in Hcase. rewrite Ei, Es in Hcase.
    destruct Hcase as [[Hb ?]|(sb & [Hb _] & _ & ? & _)];
      pose proof (ue_rank _ _ _ Hb (scope_of (rc_policy c)) (rc_request_id c) Hk); lia.
Qed.
End theorems.

(** ** Reservations without interference *)

(** C31: on a well-formed scope and without interference, a reservation of a new
    request answers exactly by the live usage: it is granted when the policy has
    no limit or the dispatched requests and the reservations whose lease still
    runs are fewer than the limit, and answered 429 otherwise.  A lease that ran
    out never keeps a request from being admitted. *)
Theorem api_reserve_exact {S} `{Kv : !KvStoreOf ApiKeyValue S} clock policy P id route nowMs n (s : S) :
  id <> "" -> route <> "" -> count_ok nowMs -> date_ok (ap_usage_reset_at_ms P) ->
  livePolicyFromEntry (ap_token_hash policy) (entry_at (kv_map s) (apiKeyHashKey (ap_token_hash policy))) nowMs = Some P ->
  scope_ok P s -> request_row (kv_map s) (scope_of P) id = JNull ->
  let used := usage_count UDispatched (scope_of P) (kv_map s) + row_sum (live_row nowMs) (scope_of P) (kv_map s) in
  match fst (reserveApiKeyUsageV3 quiet clock true policy id route (Some nowMs) false (n, s)) with
  | Ok (Granted c) => c = reservationContext P id route
      /\ (ap_usage_limit_requests P = API_KEY_NO_USAGE_LIMIT \/ used < ap_usage_limit_requests P)
  | Ok (Refused response) => oe_status response = 429
      /\ ap_usage_limit_requests P <> API_KEY_NO_USAGE_LIMIT /\ ap_usage_limit_requests P <= used
  | _ => False
  end.
Proof.
  intros Hid Hroute Hnow Hdate Hlive Hok Hfresh used.
  pose proof (reserve_ready clock policy P id route nowMs n s Hid Hroute Hdate Hnow (Build_ready _ _ _ _ _ Hlive Hok Hfresh)) as H.
  cbn zeta in H. unfold full in H. fold used in H. unfold API_KEY_NO_USAGE_LIMIT in *.
  destruct (fst _) as [e|[c|d|response]]; [done| |done|]; (split; [by destruct H|]); destruct H as [_ H]; lia.
Qed.

(** ** Types *)

(** [p] is the write of one of the four planners, made from these rows. *)
Definition planned (policy : ApiKeyPolicy) (id route reason : string) (provider : ApiKeyUsageProvider)
    (expected : option string) (snapshot : ApiKeyUsageSnapshot) (nowMs : Z) (p : ApiKeyUsageWritePlan) : Prop :=
  planApiKeyUsageReservation policy id route snapshot nowMs = ReserveWrite p
  \/ planApiKeyUsageDispatch policy id route provider snapshot nowMs = DispatchWrite p
  \/ planApiKeyUsageReservedRelease policy id reason snapshot nowMs expected = ReleaseWrite p
  \/ planApiKeyUsageDispatchCancellation policy id route provider snapshot nowMs = ReleaseWrite p.

(** A policy whose window can be stored. *)
Record policy_ok (policy : ApiKeyPolicy) : Prop := {
  po_key : ap_key_id policy <> "";
  po_version : ap_policy_version policy <> "";
  po_start : count_ok (ap_window_start_ms policy);
  po_reset : count_ok (ap_usage_reset_at_ms policy);
  po_order : ap_window_start_ms policy < ap_usage_reset_at_ms policy }.

(** The window a plan starts from. *)
Definition base_window (policy : ApiKeyPolicy) (window : jsval) (nowMs : Z) : option ApiKeyUsageWindowV3 :=
  if is_null window then Some (makeApiKeyUsageWindowV3 policy nowMs) else matchingApiKeyUsageWindowV3 window policy.

Lemma base_window_wf policy window nowMs w :
  policy_ok policy -> count_ok nowMs -> base_window policy window nowMs = Some w ->
  window_wf w /\ uw_window_reset_at_ms w = ap_usage_reset_at_ms policy
  /\ window_counts window = Some (uw_committed_requests w, uw_reserved_requests w).
Proof.
  intros [] Hnow. unfold base_window. destruct (is_null window) eqn:En.
  - intros [= <-]. split; [|unfold window_counts; by rewrite En]. by constructor.
  - intros Hw. apply matching_normalized in Hw as (Hn & _ & _ & _ & Hr).
    split; [by eapply window_normalized|]. split; [done|by apply window_counts_normalized].
Qed.

(** A plan keeps the identity of its window and moves its counters by at most
    one, downwards only from a positive number. *)
Lemma planned_window policy id route reason provider expected request window nowMs p :
  planned policy id route reason provider expected (mkUsageSnapshot request window) nowMs p ->
  exists w, base_window policy window nowMs = Some w
    /\ uw_key_id (wp_window p) = uw_key_id w /\ uw_policy_version (wp_window p) = uw_policy_version w
    /\ uw_window_start_ms (wp_window p) = uw_window_start_ms w
    /\ uw_window_reset_at_ms (wp_window p) = uw_window_reset_at_ms w /\ uw_updated_at_ms (wp_window p) = nowMs
    /\ uw_committed_requests w - 1 <= uw_committed_requests (wp_window p) <= uw_committed_requests w + 1
    /\ uw_reserved_requests w - 1 <= uw_reserved_requests (wp_window p) <= uw_reserved_requests w + 1
    /\ (0 <= uw_committed_requests w -> 0 <= uw_committed_requests (wp_window p))
    /\ (0 <= uw_reserved_requests w -> 0 <= uw_reserved_requests (wp_window p)).
Proof.
  assert (forall w, matchingApiKeyUsageWindowV3 window policy = Some w -> base_window policy window nowMs = Some w) as Hbase.
  { intros w Hw. unfold base_window. by destruct window. }
  unfold planned, planApiKeyUsageReservation, planApiKeyUsageDispatch, planApiKeyUsageReservedRelease,
    planApiKeyUsageDispatchCancellation. cbn [us_request us_window]. fold (base_window policy window nowMs).
  destruct (normalizeApiKeyUsageRequestV3 request) as [r|] eqn:Er.
  - intros [H|[H|[H|H]]].
    + by repeat case_match.
    + plan_guards H. eexists. split; [by apply Hbase|]. cbn. split_and!; try done; lia.
    + destruct (_ || _); [done|]. plan_guards H. eexists. split; [by apply Hbase|]. cbn. split_and!; try done; lia.
    + destruct (_ || _); [done|]. plan_guards H. eexists. split; [by apply Hbase|]. cbn. split_and!; try done; lia.
  - intros [H|[H|[H|H]]]; [|done|by case_match..].
    destruct (negb _); [done|]. destruct (base_window policy window nowMs) as [w|]; [|done].
    destruct (_ && _); [done|]. injection H as <-. exists w. cbn. split_and!; try done; lia.
Qed.

(** C22: rows keep their types.  Whatever values are stored, each of the four
    planners writes a request and a window that the normalizers read back as
    exactly what was written, as long as the clock and the counters stay within
    the safe integers; and the window keeps the identity of its policy. *)
Theorem api_usage_typed policy id route reason provider expected request window nowMs p :
  policy_ok policy -> id <> "" -> route <> "" -> count_ok nowMs -> lease_ok nowMs ->
  (forall c r, window_counts window = Some (c, r) -> c < MAX_SAFE_INTEGER /\ r < MAX_SAFE_INTEGER) ->
  planned policy id route reason provider expected (mkUsageSnapshot request window) nowMs p ->
  normalizeApiKeyUsageWindowV3 (json_usage_window (wp_window p)) = Some (wp_window p)
  /\ normalizeApiKeyUsageRequestV3 (json_usage_request (wp_request p)) = Some (wp_request p)
  /\ matchingApiKeyUsageWindowV3 (json_usage_window (wp_window p)) policy = Some (wp_window p).
Proof.
  intros Hpol Hid Hroute Hnow Hlease Hcounts Hp.
  destruct (planned_window _ _ _ _ _ _ _ _ _ _ Hp) as (w & Hw & E1 & E2 & E3 & E4 & E5 & B1 & B2 & N1 & N2).
  destruct (base_window_wf _ _ _ _ Hpol Hnow Hw) as (Hwf & _ & Hc). destruct (Hcounts _ _ Hc) as [C1 C2].
  assert (window_wf (wp_window p)) as Hwf'.
  { destruct Hwf. unfold count_ok in *. constructor; rewrite ?E1, ?E2, ?E3, ?E4, ?E5; try done; unfold count_ok in *; lia. }
  assert (moves request window p) as Hmv.
  { destruct Hp as [Hp|[Hp|[Hp|Hp]]].
    - exact (plan_reservation_moves _ _ _ _ _ _ _ Hid Hroute Hlease Hp).
    - exact (proj1 (plan_dispatch_moves _ _ _ _ _ _ _ _ Hp)).
    - by eapply plan_release_moves.
    - by eapply plan_cancellation_moves. }
  split; [by apply window_reads_back|]. split; [apply request_reads_back, (mv_wf _ _ _ Hmv), Hwf'|].
  assert (uw_key_id w = ap_key_id policy /\ uw_policy_version w = ap_policy_version policy
    /\ uw_window_start_ms w = ap_window_start_ms policy /\ uw_window_reset_at_ms w = ap_usage_reset_at_ms policy) as (? & ? & ? & ?).
  { unfold base_window in Hw. destruct (is_null window); [by injection Hw as <-|].
    apply matching_normalized in Hw as (_ & ? & ? & ? & ?). done. }
  apply matching_reads_back; [done|congruence..].
Qed.

(** ** Witnesses *)

Lemma api_usage_exact_witness :
  triple (run_calls quiet Demo.clock
    [CallReserve true Demo.policy "r1" "/v1/responses" None true; CallDispatch (Demo.ctx "r1") Voyage;
     CallReserve true Demo.policy "r2" "/v1/responses" None true; CallRelease (Demo.ctx "r2") None; CallDelete "other"])
    Demo.store (fun _ s' =>
    forall sc w, sc_key_id sc = "key" -> normalizeApiKeyUsageWindowV3 (window_row (kv_map s') sc) = Some w ->
      uw_committed_requests w = usage_count UDispatched sc (kv_map s')
      /\ uw_reserved_requests w = usage_count UReserved sc (kv_map s')).
Proof.
  apply (api_usage_exact quiet Demo.clock "key" Demo.clock_ok); [apply Demo.store_inv|]. repeat constructor. cbn. discriminate.
Defined.

Lemma api_reserve_within_limit_witness :
  let s' := snd (snd (Demo.reserve "r1" (O, Demo.store))) in
  fst (Demo.reserve "r1" (O, Demo.store)) = Ok (Granted (Demo.ctx "r1")) /\ length (kv_log s') = 1%nat
  /\ exists m, livePolicyFromEntry "h" (entry_at m (apiKeyHashKey "h")) Demo.t0 = Some Demo.policy
     /\ row_rank (request_row m (scope_of Demo.policy) "r1") = 0
     /\ usage_count UDispatched (scope_of Demo.policy) (kv_map s')
        + usage_count UReserved (scope_of Demo.policy) (kv_map s') <= 1.
Proof.
  assert (fst (Demo.reserve "r1" (O, Demo.store)) = Ok (Granted (Demo.ctx "r1"))) as Eg by (vm_compute; reflexivity).
  assert (match kv_log (snd (snd (Demo.reserve "r1" (O, Demo.store)))) with
          | [(m, m')] => row_rank (request_row m (scope_of Demo.policy) "r1") = 0
                         /\ row_rank (request_row m' (scope_of Demo.policy) "r1") = 1
          | _ => False
          end) as Hown by (vm_compute; split; reflexivity).
  cbv zeta. unfold Demo.reserve in *. destruct (reserveApiKeyUsageV3 _ _ _ _ _ _ _ _ (O, Demo.store)) as [r [n' s']] eqn:E.
  cbn [fst snd] in *. subst r. split; [reflexivity|].
  destruct (api_reserve_within_limit quiet Demo.clock "key" Demo.clock_ok true Demo.policy "r1" "/v1/responses" None false
    O Demo.store (Demo.ctx "r1") n' s' I (fun n s => eq_refl) (Demo.store_inv _) E eq_refl)
    as (own & El & [[Hnone _]|(before & m & j & _ & _ & H0 & _ & _ & HP & [Hl|Hl])]); [|discriminate Hl|].
  - rewrite El in Hown. cbn in Hown. destruct own as [|[m m'] [|]]; [done| |done].
    apply Forall_inv in Hnone. destruct Hown as [H0 H1]. cbn in Hnone. rewrite (Hnone H0) in H1. discriminate H1.
  - destruct (kv_log s') as [|[m0 m0'] [|]]; try done. split; [reflexivity|]. exists m. exact (conj HP (conj H0 Hl)).
Defined.

Lemma api_dispatch_once_witness :
  fst (beforeProviderDispatch quiet Demo.clock (Demo.ctx "r1") Cerebras (fst Demo.reserved, snd Demo.reserved))
    = Ok (Some (providerDispatchContext Demo.policy "r1" "/v1/responses" Cerebras),
          mkReservationContext Demo.policy "r1" "/v1/responses" true)
  /\ ~ exists d' c', fst (beforeProviderDispatch quiet Demo.clock (Demo.ctx "r1") Voyage (O, snd Demo.dispatched)) = Ok (Some d', c').
Proof.
  assert (H : fst (beforeProviderDispatch quiet Demo.clock (Demo.ctx "r1") Cerebras (fst Demo.reserved, snd Demo.reserved))
    = Ok (Some (providerDispatchContext Demo.policy "r1" "/v1/responses" Cerebras),
          mkReservationContext Demo.policy "r1" "/v1/responses" true)) by (vm_compute; reflexivity).
  split; [exact H|]. intros (d' & c' & E). revert E.
  refine (proj1 (api_dispatch_once quiet Demo.clock "key" Demo.clock_ok (Demo.ctx "r1") Cerebras
    (fst Demo.reserved) (snd Demo.reserved) _ _ (Demo.ctx "r1") Voyage O (snd Demo.dispatched) _ _ _ H _) d' c').
  - reflexivity.
  - reflexivity.
  - reflexivity.
  - unfold Demo.dispatched. rewrite <- (surjective_pairing Demo.reserved). reflexivity.
Defined.

Lemma demo_scope_ok : scope_ok Demo.policy Demo.store.
Proof.
  constructor; [apply Demo.store_inv|left; vm_compute; reflexivity|].
  intros key v n H Hp. cbn in H. apply lookup_singleton_Some in H as [<- _]. done.
Qed.

Lemma api_reserve_exact_witness :
  exists c, fst (reserveApiKeyUsageV3 quiet Demo.clock true Demo.policy "r1" "/v1/responses" (Some Demo.t0) false (O, Demo.store))
    = Ok (Granted c) /\ c = reservationContext Demo.policy "r1" "/v1/responses"
    /\ (1 = API_KEY_NO_USAGE_LIMIT
        \/ usage_count UDispatched (scope_of Demo.policy) (kv_map Demo.store)
           + row_sum (live_row Demo.t0) (scope_of Demo.policy) (kv_map Demo.store) < 1).
Proof.
  pose proof (api_reserve_exact Demo.clock Demo.policy Demo.policy "r1" "/v1/responses" Demo.t0 O Demo.store) as H.
  exists (Demo.ctx "r1"). assert (E : fst (reserveApiKeyUsageV3 quiet Demo.clock true Demo.policy "r1" "/v1/responses" (Some Demo.t0) false
    (O, Demo.store)) = Ok (Granted (Demo.ctx "r1"))) by (vm_compute; reflexivity).
  rewrite E in H. split; [exact E|]. apply H.
  - discriminate.
  - discriminate.
  - vm_compute. split; discriminate.
  - vm_compute. split; discriminate.
  - vm_compute. reflexivity.
  - exact demo_scope_ok.
  - vm_compute. reflexivity.
Defined.

Definition demo_plan : ApiKeyUsageWritePlan :=
  match planApiKeyUsageReservation Demo.policy "r1" "/v1/responses" (mkUsageSnapshot JNull JNull) Demo.t0 with
  | ReserveWrite p => p
  | _ => writePlan [] (mkUsageRequest "" "" "" UReserved 0 0 None None None None) (makeApiKeyUsageWindowV3 Demo.policy 0) 0
  end.

Lemma api_usage_typed_witness :
  planned Demo.policy "r1" "/v1/responses" "" Voyage None (mkUsageSnapshot JNull JNull) Demo.t0 demo_plan
  /\ normalizeApiKeyUsageWindowV3 (json_usage_window (wp_window demo_plan)) = Some (wp_window demo_plan)
  /\ normalizeApiKeyUsageRequestV3 (json_usage_request (wp_request demo_plan)) = Some (wp_request demo_plan).
Proof.
  assert (P : planned Demo.policy "r1" "/v1/responses" "" Voyage None (mkUsageSnapshot JNull JNull) Demo.t0 demo_plan)
    by (left; vm_compute; reflexivity).
  split; [exact P|].
  pose proof (api_usage_typed Demo.policy "r1" "/v1/responses" "" Voyage None JNull JNull Demo.t0 demo_plan) as H.
  destruct H as (H1 & H2 & _); [|discriminate|discriminate|vm_compute; split; discriminate|vm_compute; discriminate| |exact P|].
  - constructor; vm_compute; try discriminate; try (split; discriminate).
  - intros c r [= <- <-]. vm_compute. split; reflexivity.
  - split; [exact H1|exact H2].
Defined.
