(* ===== verification/ApiKeyCache.v ===== *)
(** * How stale an authenticated policy can be

    [authenticateApiKeyToken] caches policies for [API_KEY_POLICY_CACHE_TTL_MS].
    When the window of a cached policy has ended, the entry moves to the next
    window and its time to live starts again, without a new read of the hash
    record.  For windows of at least twice the time to live this happens at most
    once per read ([policy_cache_bound]); for shorter windows it can go on for
    ever ([policy_cache_unbounded]). *)

From Stdlib Require Import ZArith QArith Lia.
From stdpp Require Import base gmap strings list.
From S2P Require Import Prelude Js KvStore KvLogic NativePaid ApiKeyUsage ApiKeyStore ApiKeyRows.
Open Scope string_scope.
Open Scope Z_scope.

(** ** Windows *)

(** The current window contains the time, has the policy's length and lies a
    whole number of lengths after the stored one. *)
Lemma current_window_spec reset W now :
  0 < W ->
  let w := currentApiKeyUsageWindow reset W now in
  wb_reset w = wb_start w + W /\ now < wb_reset w /\ reset <= wb_reset w
  /\ (reset <= now -> wb_start w <= now /\ reset + W <= wb_reset w)
  /\ exists i, 0 <= i /\ wb_reset w = reset + i * W.
Proof.
  intros HW. unfold currentApiKeyUsageWindow. destruct (Z.ltb_spec now reset) as [Hlt|Hge]; cbn.
  - split_and!; try lia. exists 0. lia.
  - assert (now - (reset - W) = W * ((now - (reset - W)) / W) + (now - (reset - W)) mod W) as Hd by (apply Z.div_mod; lia).
    pose proof (Z.mod_pos_bound (now - (reset - W)) W HW).
    assert (1 <= (now - (reset - W)) / W) by (apply Z.div_le_lower_bound; lia).
    split_and!; try nia. exists ((now - (reset - W)) / W). nia.
Qed.

Lemma rolled_spec policy now :
  0 < ap_window_ms policy -> ap_usage_reset_at_ms policy <= now ->
  now < ap_usage_reset_at_ms (rolled policy now)
  /\ ap_usage_reset_at_ms policy + ap_window_ms policy <= ap_usage_reset_at_ms (rolled policy now)
  /\ ap_window_ms (rolled policy now) = ap_window_ms policy
  /\ ap_expires_at_ms (rolled policy now) = ap_expires_at_ms policy.
Proof.
  intros HW Hr. destruct (current_window_spec (ap_usage_reset_at_ms policy) (ap_window_ms policy) now HW) as (_ & A & _ & B & _).
  destruct (B Hr). unfold rolled. cbn. lia.
Qed.

Section cache.
Context {S : Type} `{Kv : !KvStoreOf ApiKeyValue S}.
Context (others : Clients S) (sha256Base64Url : string -> string) (token : string).
Local Notation TTL := API_KEY_POLICY_CACHE_TTL_MS.
Local Notation hash := (sha256Base64Url token).
Local Notation authenticate := (authenticateApiKeyToken others sha256Base64Url true token).

(** ** Windows of at least twice the time to live *)

(** The entry holds what was read at [r]: it still has the window of the read,
    or it has moved on once. *)
Definition since (r : Z) (c : CachedPolicy) : Prop :=
  2 * TTL <= ap_window_ms (ch_policy c) -> 
  (ch_expires_at_ms c = r + TTL /\ r < ap_usage_reset_at_ms (ch_policy c))
  \/ (ch_expires_at_ms c < r + 2 * TTL /\ r + 2 * TTL < ap_usage_reset_at_ms (ch_policy c)).

Definition cached_since (r : Z) (cache : gmap string CachedPolicy) : Prop :=
  forall c, cache !! hash = Some c -> since r c.

Lemma expiry_checked_ok p now c cc q c' :
  expiry_checked hash p now c = (Authenticated q, c') -> c !! hash = Some cc -> q = p /\ c' !! hash = Some cc.
Proof. unfold expiry_checked. case_match; [done|]. by intros [= <- <-]. Qed.

Lemma window_ms_positive v : 0 < normalizeApiKeyWindowMs v.
Proof. unfold normalizeApiKeyWindowMs, USAGE_RESET_PERIOD_MS. repeat case_match; lia. Qed.

(** A policy just read has a window that ends later. *)
Lemma read_policy_reset h record now policy :
  apiKeyPolicyFromHashRecord h record now = Some policy -> now < ap_usage_reset_at_ms policy.
Proof.
  unfold apiKeyPolicyFromHashRecord. case_match; [done|]. intros [= <-]. cbn.
  by apply current_window_spec, window_ms_positive.
Qed.

Lemma authenticate_read_since now cache n s policy cache' w' :
  authenticate_read others hash now cache (n, s) = (Ok (Authenticated policy, cache'), w') ->
  fst w' = Datatypes.S n /\ cached_since now cache'.
Proof.
  unfold authenticate_read, kv_bind, get. cbn. destruct (hash_of _) as [record|]; [|done].
  case_match; [done|]. destruct (apiKeyPolicyFromHashRecord _ _ _) as [p|] eqn:Ep; [|done].
  intros [= E <-]. split; [done|]. apply (expiry_checked_ok _ _ _ (mkCached p (now + TTL))) in E as [-> E];
    [|apply lookup_insert_eq].
  intros c Hc. rewrite E in Hc. injection Hc as <-. intros _. left. split; [done|]. by eapply read_policy_reset.
Qed.

(** A policy is authenticated from a read of the hash record in the same call,
    or from a read less than twice the time to live ago, when its window has at
    least that length; and the cache it leaves holds what was read then. *)
Theorem policy_cache_bound r now n s cache policy cache' w' :
  cached_since r cache ->
  authenticate now cache (n, s) = (Ok (Authenticated policy, cache'), w') ->
  2 * TTL <= ap_window_ms policy ->
  (fst w' = Datatypes.S n /\ cached_since now cache')
  \/ (fst w' = n /\ now < r + 2 * TTL /\ cached_since r cache').
Proof.
  intros Hc. unfold authenticateApiKeyToken. destruct (looksLikeUosApiKey token); [cbn [negb]|done].
  assert (0 < TTL) as Httl by done.
  destruct (cache !! hash) as [c|] eqn:Ec; cbn [mbind option_bind];
    [|intros H _; left; by eapply authenticate_read_since].
  destruct (Z.ltb_spec now (ch_expires_at_ms c)) as [Hlive|]; [|intros Hrun _; left; by eapply authenticate_read_since].
  destruct (Z.leb_spec (ap_usage_reset_at_ms (ch_policy c)) now) as [Hroll|Hstay]; intros [= E <-] HW; right; (split; [done|]).
  - apply (expiry_checked_ok _ _ _ (mkCached (rolled (ch_policy c) now) (now + TTL))) in E as [-> E]; [|apply lookup_insert_eq].
    change (ap_window_ms (rolled (ch_policy c) now)) with (ap_window_ms (ch_policy c)) in HW.
    destruct (rolled_spec (ch_policy c) now ltac:(lia) Hroll) as (A & B & _ & _).
    destruct (Hc c Ec HW) as [[E1 E2]|[E1 E2]]; [|lia].
    split; [lia|]. intros c0 E0. rewrite E in E0. injection E0 as <-. intros _. right. cbn [ch_policy ch_expires_at_ms]. lia.
  - apply (expiry_checked_ok _ _ _ c) in E as [-> E]; [|done].
    destruct (Hc c Ec HW) as [[E1 E2]|[E1 E2]]; (split; [lia|]);
      intros c0 E0; rewrite E in E0; injection E0 as <-; intros _; [by left|by right].
Qed.

(** ** Shorter windows *)

Fixpoint authenticate_times (times : list Z) (cache : gmap string CachedPolicy) : KvM S (list ApiKeyPolicyDecision) :=
  match times with
  | [] => kv_ret []
  | t :: times =>
      kv_bind (authenticate t cache) (fun '(d, cache) =>
        kv_bind (authenticate_times times cache) (fun ds => kv_ret (d :: ds)))
  end.

(** The ends of [n] windows of length [W], from [R] on. *)
Fixpoint window_ends (R W : Z) (n : nat) : list Z :=
  match n with O => [] | Datatypes.S n => R :: window_ends (R + W) W n end.

Definition is_authenticated (d : ApiKeyPolicyDecision) : bool := match d with Authenticated _ => true | Rejected _ => false end.

(** A key whose window is shorter than the time to live stays authenticated for
    as long as it is used once per window, with no read of its hash record:
    neither a revocation nor a deletion ends it. *)
Theorem policy_cache_unbounded c cache count n s :
  looksLikeUosApiKey token = true -> cache !! hash = Some c ->
  0 < ap_window_ms (ch_policy c) < TTL -> ap_expires_at_ms (ch_policy c) = API_KEY_NO_EXPIRATION_MS ->
  ap_usage_reset_at_ms (ch_policy c) < ch_expires_at_ms c ->
  exists ds, authenticate_times (window_ends (ap_usage_reset_at_ms (ch_policy c)) (ap_window_ms (ch_policy c)) count) cache (n, s)
    = (Ok ds, (n, s)) /\ length ds = count /\ forallb is_authenticated ds = true.
Proof.
  intros Htoken. revert c cache. induction count as [|count IH]; intros c cache Hc HW He Hr; [by exists []|].
  cbn [window_ends authenticate_times]. set (R := ap_usage_reset_at_ms (ch_policy c)) in *.
  set (W := ap_window_ms (ch_policy c)) in *.
  assert (rolled (ch_policy c) R = ch_policy c <| ap_window_start_ms := R |> <| ap_usage_reset_at_ms := R + W |>) as Eroll.
  { unfold rolled. fold R W. unfold currentApiKeyUsageWindow. rewrite (proj2 (Z.ltb_ge R R)) by lia.
    replace (R - (R - W)) with W by lia. rewrite Z.div_same by lia. cbn. by replace (R - W + 1 * W) with R by lia. }
  assert (authenticate R cache (n, s) = (Ok (Authenticated (rolled (ch_policy c) R),
    <[hash := mkCached (rolled (ch_policy c) R) (R + TTL)]> cache), (n, s))) as Hstep.
  { unfold authenticateApiKeyToken. rewrite Htoken, Hc. cbn [negb mbind option_bind].
    rewrite (proj2 (Z.ltb_lt R (ch_expires_at_ms c))) by done. fold R. rewrite (proj2 (Z.leb_le R R)) by lia.
    unfold expiry_checked. rewrite Eroll. cbn. by rewrite He. }
  unfold kv_bind at 1. rewrite Hstep.
  destruct (IH (mkCached (rolled (ch_policy c) R) (R + TTL)) (<[hash := mkCached (rolled (ch_policy c) R) (R + TTL)]> cache))
    as (ds & Hrun & Hlen & Hall).
  - apply lookup_insert_eq.
  - by rewrite Eroll.
  - by rewrite Eroll.
  - cbn [ch_policy ch_expires_at_ms]. rewrite Eroll. cbn. lia.
  - cbn [ch_policy] in Hrun.
    assert (ap_usage_reset_at_ms (rolled (ch_policy c) R) = R + W) as E1 by by rewrite Eroll.
    assert (ap_window_ms (rolled (ch_policy c) R) = W) as E2 by done. rewrite E1, E2 in Hrun.
    unfold kv_bind. rewrite Hrun. eexists. split; [done|]. cbn. by rewrite Hlen, Hall.
Qed.
End cache.

(** A hash record without a complete quota policy is answered 503, but not when
    its key never expires: the marker of that, -1, is compared with the clock as
    if it were a time. *)
Theorem unavailable_non_expiring key stamp record nowMs :
  hr_revoked_at_ms record = None -> hr_expires_at_ms record = num_of_Z API_KEY_NO_EXPIRATION_MS -> 0 <= nowMs ->
  unavailablePolicyResponse (mkEntry key (HashValue record) stamp) nowMs = unauthorized.
Proof.
  intros Hr He Hn. unfold unavailablePolicyResponse. cbn. rewrite Hr, He. cbn.
  assert (Qle_bool (inject_Z API_KEY_NO_EXPIRATION_MS) (inject_Z nowMs) = true) as ->; [|done].
  apply Qle_bool_iff. rewrite <- Zle_Qle. unfold API_KEY_NO_EXPIRATION_MS. lia.
Qed.
