(* ===== verification/JsonRoundTrip.v ===== *)
(** * What is printed is parsed back

    The proofs behind [JSON_stringify] of JsonPrint.v: numbers, strings, values,
    and the order of own keys. *)

From Stdlib Require Import ZArith QArith Lia Sorted.
From stdpp Require Import base strings option list sets.
From S2P Require Import Prelude Js JsonText JsonScan WebText JsonPrint.
Open Scope Z_scope.

(** ** Digits *)

Definition all_digits (ds : text) : Prop := Forall (fun c => is_digit c = true) ds.

Lemma is_digit_spec c : is_digit c = true <-> 48 <= c <= 57.
Proof. unfold is_digit. rewrite andb_true_iff, !Z.leb_le. lia. Qed.

Lemma digits_value_snoc ds d : digits_value (ds ++ [d]) = 10 * digits_value ds + (d - 48).
Proof. unfold digits_value. by rewrite foldl_app. Qed.

Lemma digits_fuel_spec fuel z :
  0 <= z < 10 ^ Z.of_nat fuel ->
  all_digits (digits_fuel fuel z) /\ digits_value (digits_fuel fuel z) = z
  /\ (0 < z -> exists c r, digits_fuel fuel z = c :: r /\ 49 <= c).
Proof.
  revert z. induction fuel as [|fuel IH]; intros z Hz; [change (10 ^ Z.of_nat 0) with 1 in Hz|].
  - assert (z = 0) as -> by lia. split_and!; [constructor|done|lia].
  - cbn [digits_fuel]. destruct (Z.ltb_spec z 10).
    + split_and!; [repeat constructor; apply is_digit_spec; lia|unfold digits_value; cbn; lia|].
      intros Hp. exists (48 + z), []. split; [done|lia].
    + rewrite Nat2Z.inj_succ, Z.pow_succ_r in Hz by lia.
      pose proof (Z.mod_pos_bound z 10 ltac:(lia)). pose proof (Z.div_mod z 10 ltac:(lia)).
      destruct (IH (z / 10)) as (Hd & Hv & Hh); [split; [apply Z.div_pos; lia|apply Z.div_lt_upper_bound; lia]|].
      split_and!.
      * apply Forall_app. split; [done|]. repeat constructor. apply is_digit_spec. lia.
      * rewrite digits_value_snoc, Hv. lia.
      * intros _. destruct Hh as (c & r & -> & Hc); [apply Z.div_str_pos; lia|]. exists c, (r ++ [48 + z mod 10]). done.
Qed.

Lemma digits_bound z : 0 <= z -> z < 10 ^ Z.of_nat (S (Z.to_nat (Z.log2 z))).
Proof.
  intros Hz. destruct (Z.eq_dec z 0) as [->|]; [done|].
  pose proof (Z.log2_nonneg z). destruct (Z.log2_spec z) as [_ Hl]; [lia|].
  rewrite Nat2Z.inj_succ, Z2Nat.id by lia. eapply Z.lt_le_trans; [exact Hl|].
  apply Z.pow_le_mono_l. lia.
Qed.

Lemma digits_of_spec z :
  0 <= z -> all_digits (digits_of z) /\ digits_value (digits_of z) = z
  /\ (0 < z -> exists c r, digits_of z = c :: r /\ 49 <= c).
Proof. intros Hz. apply digits_fuel_spec. split; [done|by apply digits_bound]. Qed.

Lemma digits_of_nonempty z : digits_of z <> [].
Proof. unfold digits_of. cbn [digits_fuel]. destruct (z <? 10); [done|]. by destruct (digits_fuel _ _). Qed.

(** Digits are taken whole when no digit follows. *)
Definition no_digit (l : text) : Prop := match l with c :: _ => is_digit c = false | [] => True end.

Lemma span_digits_app ds rest : all_digits ds -> no_digit rest -> span_digits (ds ++ rest) = (ds, rest).
Proof.
  intros Hd Hr. induction Hd as [|c r Hc _ IH]; cbn [app span_digits].
  - destruct rest as [|c r]; [done|]. cbn in Hr |- *. by rewrite Hr.
  - by rewrite Hc, IH.
Qed.

Lemma int_part_app c r rest :
  49 <= c -> all_digits (c :: r) -> no_digit rest -> int_part (c :: r ++ rest) = Some (c :: r, rest).
Proof.
  intros Hc Hd Hr. inversion Hd as [|? ? Hc' Hd']; subst. apply is_digit_spec in Hc'. cbn.
  destruct (Z.eqb_spec c 48); [lia|]. rewrite (proj2 (Z.leb_le 49 c)), (proj2 (Z.leb_le c 57)) by lia. cbn.
  by rewrite (span_digits_app r rest).
Qed.

Lemma zeros_digits n : all_digits (zeros n).
Proof. apply Forall_replicate. by apply is_digit_spec. Qed.

Lemma digits_value_app_zeros ds n : 0 <= n -> digits_value (ds ++ zeros n) = digits_value ds * 10 ^ n.
Proof.
  intros Hn. unfold zeros. rewrite <- (Z2Nat.id n) at 2 by done. generalize (Z.to_nat n) as m. clear n Hn.
  induction m as [|m IH]; [cbn; rewrite app_nil_r; lia|].
  rewrite replicate_S_end, app_assoc, digits_value_snoc, IH, Nat2Z.inj_succ, Z.pow_succ_r by lia. lia.
Qed.

Lemma digits_value_zeros_app n ds : digits_value (48 :: zeros n ++ ds) = digits_value ds.
Proof.
  unfold digits_value, zeros. cbn [foldl]. rewrite foldl_app. f_equal.
  induction (Z.to_nat n) as [|m IH]; [done|]. by rewrite replicate_S_end, foldl_app, IH.
Qed.

(** ** Numbers *)

(** Nothing that would continue a number. *)
Definition number_end (l : text) : Prop :=
  match l with c :: _ => is_digit c = false /\ c <> 46 /\ c <> 101 /\ c <> 69 | [] => True end.

Lemma number_end_no_digit l : number_end l -> no_digit l.
Proof. destruct l; [done|]. by intros [? _]. Qed.
#[local] Hint Resolve number_end_no_digit : core.

Lemma fraction_end rest : number_end rest -> fraction rest = Some ([], rest).
Proof. destruct rest as [|c r]; [done|]. intros (_ & H & _). cbn. by destruct (Z.eqb_spec c 46). Qed.

Lemma exponent_end rest : number_end rest -> exponent rest = Some (0, rest).
Proof.
  destruct rest as [|c r]; [done|]. intros (_ & _ & H1 & H2). cbn.
  by destruct (Z.eqb_spec c 101), (Z.eqb_spec c 69).
Qed.

Lemma fraction_app ds rest :
  all_digits ds -> ds <> [] -> no_digit rest -> fraction (46 :: ds ++ rest) = Some (ds, rest).
Proof. intros Hd Hne Hr. cbn [fraction]. change (46 =? 46) with true. cbn [fraction]. rewrite (span_digits_app ds rest) by done. by destruct ds. Qed.

Lemma exponent_app m rest :
  number_end rest ->
  exponent (101 :: (if 0 <=? m then 43 else 45) :: digits_of (Z.abs m) ++ rest) = Some (m, rest).
Proof.
  intros Hr. destruct (digits_of_spec (Z.abs m)) as (Hd & Hv & _); [lia|]. cbn [exponent].
  change ((101 =? 101) || (101 =? 69)) with true. cbn match.
  assert (exponent_sign ((if 0 <=? m then 43 else 45) :: digits_of (Z.abs m) ++ rest) = (m <? 0, digits_of (Z.abs m) ++ rest)) as ->.
  { destruct (Z.leb_spec 0 m), (Z.ltb_spec m 0); cbn; try done; lia. }
  rewrite span_digits_app by auto. destruct (digits_of (Z.abs m)) as [|d r] eqn:E; [by apply digits_of_nonempty in E|].
  rewrite Hv. destruct (Z.ltb_spec m 0); do 2 f_equal; lia.
Qed.

Lemma number_parts int frac e l1 l2 rest c r :
  int = c :: r -> 48 <= c ->
  int_part (int ++ l1) = Some (int, l1) -> fraction l1 = Some (frac, l2) -> exponent l2 = Some (e, rest) ->
  number_token (int ++ l1) = Some (decimal_value (digits_value (int ++ frac)) (e - Z.of_nat (length frac)), rest).
Proof.
  intros -> Hc Hi Hf He. unfold number_token.
  assert (sign ((c :: r) ++ l1) = (false, (c :: r) ++ l1)) as -> by (cbn; by destruct (Z.eqb_spec c 45); [lia|]).
  rewrite Hi. cbn [mbind option_bind]. rewrite Hf. cbn [mbind option_bind]. by rewrite He.
Qed.

Lemma decimal_value_scale s n : 0 <= n -> decimal_value (s * 10 ^ n) (0 - 0) = decimal_value s n.
Proof. intros Hn. unfold decimal_value. rewrite (proj2 (Z.leb_le 0 n)) by lia. cbn. by rewrite Z.mul_1_r. Qed.

Section decimal.
Context (c : Z) (r rest : text) (e : Z).
Let ds : text := c :: r.
Let k : Z := Z.of_nat (length ds).
Let number : option (Js.number * text) := Some (decimal_value (digits_value ds) e, rest).
Hypothesis Hc : 49 <= c.
Hypothesis Hd : all_digits ds.
Hypothesis Hr : number_end rest.

Lemma whole_parses : 0 <= e -> number_token ((ds ++ zeros e) ++ rest) = number.
Proof using Hc Hd Hr.
  intros He.
  erewrite (number_parts (ds ++ zeros e) [] 0 rest rest rest); [|done|lia| |by apply fraction_end|by apply exponent_end].
  - rewrite app_nil_r, digits_value_app_zeros by lia. cbn [length]. change (Z.of_nat 0) with 0.
    by rewrite decimal_value_scale by lia.
  - apply (int_part_app c (r ++ zeros e)); [done| |auto].
    change (c :: r ++ zeros e) with (ds ++ zeros e). apply Forall_app. split; [done|apply zeros_digits].
Qed.

Lemma pointed_parses n :
  (1 <= n < length ds)%nat -> Z.of_nat n = k + e -> number_token ((take n ds ++ 46 :: drop n ds) ++ rest) = number.
Proof using Hc Hd Hr.
  intros Hn Hk. assert (Htd : take n ds = c :: take (n - 1) r) by (unfold ds; destruct n; [lia|]; cbn; by rewrite Nat.sub_0_r).
  rewrite <- app_assoc.
  erewrite (number_parts (take n ds) (drop n ds) 0 _ rest rest); [|exact Htd|lia| | |by apply exponent_end].
  - rewrite take_drop. unfold number. do 3 f_equal. rewrite length_drop. unfold k in *. lia.
  - rewrite Htd. apply int_part_app; [done| |done]. rewrite <- Htd. by apply Forall_take.
  - apply fraction_app; [by apply Forall_drop| |auto]. intros Hx. apply (f_equal length) in Hx.
    rewrite length_drop in Hx. unfold ds in *. cbn [length] in *. lia.
Qed.

Lemma leading_parses : k + e <= 0 -> number_token ((48 :: 46 :: zeros (- (k + e)) ++ ds) ++ rest) = number.
Proof using Hc Hd Hr.
  intros He. change ((48 :: 46 :: zeros (- (k + e)) ++ ds) ++ rest) with ([48] ++ 46 :: (zeros (- (k + e)) ++ ds) ++ rest).
  erewrite (number_parts [48] (zeros (- (k + e)) ++ ds) 0 _ rest rest 48 []); [|done|lia|done| |by apply exponent_end].
  - rewrite length_app. unfold zeros at 2. rewrite length_replicate.
    change ([48] ++ zeros (- (k + e)) ++ ds) with (48 :: zeros (- (k + e)) ++ ds). rewrite digits_value_zeros_app.
    unfold number. do 3 f_equal. unfold k in *. lia.
  - apply fraction_app; [apply Forall_app; split; [apply zeros_digits|done]| |auto].
    intros Hx. apply app_nil in Hx as [_ Hx]. done.
Qed.

Lemma scientific_parses :
  number_token ((take 1 ds ++ (match drop 1 ds with [] => [] | more => 46 :: more end)
    ++ 101 :: (if 0 <=? k + e - 1 then 43 else 45) :: digits_of (Z.abs (k + e - 1))) ++ rest) = number.
Proof using Hc Hd Hr.
  replace (k + e - 1) with (e + Z.of_nat (length r)) by (unfold k, ds; cbn [length]; lia). set (m := e + Z.of_nat (length r)).
  assert (Hd' : all_digits r) by by inversion Hd.
  rewrite <- app_assoc. unfold ds. cbn [take drop].
  erewrite (number_parts [c] r m _ (101 :: (if 0 <=? m then 43 else 45) :: digits_of (Z.abs m) ++ rest) rest c []);
    [|done|lia| | |by apply exponent_app].
  - unfold number, m. by rewrite Z.add_simpl_r.
  - apply (int_part_app c []); [done| |by destruct r]. constructor; [by inversion Hd|constructor].
  - destruct r as [|c' r']; [done|]. rewrite <- app_assoc. apply (fraction_app (c' :: r')); done.
Qed.

Lemma decimal_text_parses : number_token (decimal_text ds e ++ rest) = number.
Proof using Hc Hd Hr.
  assert (1 <= k) by (unfold k, ds; cbn [length]; lia). unfold decimal_text. fold k.
  destruct ((k <=? k + e) && (k + e <=? 21)) eqn:E1; [|destruct ((0 <? k + e) && (k + e <=? 21)) eqn:E2];
    [| |destruct ((-6 <? k + e) && (k + e <=? 0)) eqn:E3].
  - apply andb_true_iff in E1 as [E1%Z.leb_le _]. replace (k + e - k) with e by lia. apply whole_parses. lia.
  - apply andb_true_iff in E2 as [E2%Z.ltb_lt E2'%Z.leb_le]. rewrite (proj2 (Z.leb_le _ _) E2'), andb_true_r in E1.
    apply Z.leb_gt in E1. apply pointed_parses; unfold k in *; lia.
  - apply andb_true_iff in E3 as [_ E3%Z.leb_le]. by apply leading_parses.
  - apply scientific_parses.
Qed.
End decimal.

(** The numbers the printer finds digits for. *)
Definition printable_number (x : number) : bool :=
  match x with
  | Fin q =>
      match Qnum q with
      | Z0 => bool_decide (q = 0%Q)
      | Zpos _ => match shortest 17 1 (magnitude q) q with Some _ => true | None => false end
      | Zneg _ => match shortest 17 1 (magnitude (- q)) (- q) with Some _ => true | None => false end
      end
  | _ => false
  end.

Lemma round_half_even_nonneg n d : 0 <= n -> 0 < d -> 0 <= round_half_even n d.
Proof.
  intros Hn Hd. pose proof (Z.div_pos n d Hn Hd). unfold round_half_even.
  repeat match goal with |- context [if ?b then _ else _] => destruct b end; lia.
Qed.

Lemma scaled_nonneg q e : 0 <= Qnum q -> 0 <= scaled q e.
Proof.
  intros Hq. pose proof (Z.pow_pos_nonneg 10 e). pose proof (Z.pow_pos_nonneg 10 (- e)).
  unfold scaled. destruct (Z.leb_spec 0 e); apply round_half_even_nonneg; nia.
Qed.

Lemma decimal_value_zero e : decimal_value 0 e = Fin 0.
Proof. unfold decimal_value. by destruct (0 <=? e). Qed.

Lemma shortest_spec fuel k n q ds e :
  1 <= k -> 0 < Qnum q -> shortest fuel k n q = Some (ds, e) ->
  decimal_value (digits_value ds) e = Fin q /\ all_digits ds /\ exists c r, ds = c :: r /\ 49 <= c.
Proof.
  revert k. induction fuel as [|fuel IH]; intros k Hk Hq H; [done|]. cbn [shortest] in H.
  destruct (places k n q) as [ds' e'] eqn:Hp. destruct (bool_decide_reflect (decimal_value (digits_value ds') e' = Fin q)) as [Hv|];
    [|by apply (IH (k + 1)); [lia|..]].
  injection H as -> ->. split; [done|]. unfold places in Hp. set (z := scaled q (k - n)) in *.
  destruct (digits_of_spec z) as (Hd & _ & Hh); [apply scaled_nonneg; lia|].
  assert (0 <= z) by (apply scaled_nonneg; lia). destruct (Z.eq_dec z 0) as [Hz|].
  { exfalso. rewrite Hz in Hp. change (digits_of 0) with [48] in Hp.
    assert (ds = [48]) as ->.
    { destruct (Z.of_nat (length [48]) =? k); injection Hp as <- <-; [done|].
      destruct (Z.to_nat k) eqn:E; [lia|]. cbn. by rewrite take_nil. }
    change (digits_value [48]) with 0 in Hv. rewrite decimal_value_zero in Hv. injection Hv as <-. done. }
  destruct Hh as (c & r & Hr & Hc); [lia|]. rewrite Hr in Hp, Hd.
  destruct (Z.of_nat _ =? k); injection Hp as <- <-; [split; [done|by exists c, r]|].
  split; [by apply Forall_take|]. destruct (Z.to_nat k) as [|m] eqn:E; [lia|]. by exists c, (take m r).
Qed.

Lemma positive_text_parses q rest :
  0 < Qnum q -> is_Some (shortest 17 1 (magnitude q) q) -> number_end rest ->
  number_token (positive_text q ++ rest) = Some (Fin q, rest).
Proof.
  intros Hq [[ds e] H] Hr. unfold positive_text. rewrite H.
  apply shortest_spec in H as (Hv & Hd & c & r & -> & Hc); [|lia|done]. by rewrite decimal_text_parses, Hv.
Qed.

Lemma positive_text_head q : 0 < Qnum q -> exists c r, positive_text q = c :: r /\ 48 <= c <= 57.
Proof.
  intros Hq. unfold positive_text. destruct (shortest _ _ _ _) as [[ds e]|] eqn:H; [|by exists 48, []].
  apply shortest_spec in H as (_ & Hd & c & r & -> & Hc); [|lia|done].
  assert (48 <= c <= 57) by (apply is_digit_spec; by inversion Hd).
  unfold decimal_text. destruct (_ && _); [eexists _, _; split; [done|lia]|]. destruct ((0 <? _) && _) eqn:E2.
  - apply andb_true_iff in E2 as [E2%Z.ltb_lt _]. destruct (Z.to_nat _) eqn:E; [lia|]. eexists _, _; split; [done|lia].
  - match goal with |- context [if ?b then _ else _] => destruct b end; [by exists 48; eexists|].
    eexists c, _; split; [reflexivity|lia].
Qed.

Lemma number_token_minus c r n rest :
  48 <= c -> number_token (c :: r) = Some (n, rest) -> number_token (45 :: c :: r) = Some (neg n, rest).
Proof.
  intros Hc. unfold number_token. cbn [sign]. change (45 =? 45) with true. destruct (Z.eqb_spec c 45); [lia|].
  destruct (int_part _) as [[int l1]|]; [|done]. cbn. destruct (fraction l1) as [[frac l2]|]; [|done]. cbn.
  destruct (exponent l2) as [[e l3]|]; [|done]. cbn. congruence.
Qed.

Lemma number_text_parses x rest :
  printable_number x = true -> number_end rest -> number_token (number_text x ++ rest) = Some (x, rest).
Proof.
  intros Hx Hr. destruct x as [| |q]; try done. unfold printable_number in Hx. unfold number_text.
  destruct (Qnum q) as [|p|p] eqn:Hn.
  - apply bool_decide_eq_true in Hx as ->. erewrite (number_parts [48] [] 0 rest rest rest); [done..|by apply fraction_end|by apply exponent_end].
  - apply positive_text_parses; [lia| |done]. revert Hx. by destruct (shortest _ _ _ _).
  - assert (Hp : 0 < Qnum (- q)) by (cbn; lia).
    destruct (positive_text_head (- q) Hp) as (c & r & E & Hc).
    pose proof (positive_text_parses (- q) rest Hp) as H. rewrite E in H |- *. cbn [app] in H |- *.
    erewrite number_token_minus; [|lia|apply H; [|done]; revert Hx; by destruct (shortest _ _ _ _)].
    destruct q as [a b]. cbn in Hn. by subst a.
Qed.

Lemma number_text_head x : printable_number x = true -> exists c r, number_text x = c :: r /\ (c = 45 \/ 48 <= c <= 57).
Proof.
  destruct x as [| |q]; try done. intros _. unfold number_text. destruct (Qnum q) as [|p|p] eqn:Hn.
  - exists 48, []. split; [done|lia].
  - destruct (positive_text_head q) as (c & r & -> & Hc); [lia|]. exists c, r. auto.
  - eexists 45, _. split; [done|by left].
Qed.

(** ** Strings *)

Definition unit_ok (c : Z) : bool := (0 <=? c) && (c <? 65536).

Lemma hex_digit_spec v : 0 <= v < 16 -> hex (hex_digit v) = Some v.
Proof.
  intros Hv. unfold hex_digit, hex, is_digit. destruct (Z.ltb_spec v 10).
  - rewrite (proj2 (Z.leb_le 48 _)), (proj2 (Z.leb_le _ 57)) by lia. cbn. f_equal. lia.
  - rewrite (proj2 (Z.leb_gt _ 57)) by lia. rewrite andb_false_r.
    rewrite (proj2 (Z.leb_le 97 _)), (proj2 (Z.leb_le _ 102)) by lia. cbn. f_equal. lia.
Qed.

Lemma unicode_escape_parses c l :
  unit_ok c = true -> string_chars (unicode_escape c ++ l) = ('(s, rest) ← string_chars l; Some (c :: s, rest)).
Proof.
  intros Hc. apply andb_true_iff in Hc as [?%Z.leb_le ?%Z.ltb_lt]. unfold unicode_escape. cbn [app string_chars].
  change (92 =? 34) with false. change (92 <=? 31) with false. change (92 =? 92) with true. change (117 =? 117) with true. cbv iota.
  rewrite !hex_digit_spec by (apply Z.mod_pos_bound; lia). cbn [mbind option_bind].
  destruct (string_chars l) as [[s rest]|]; [|done]. cbn. do 3 f_equal.
  pose proof (Z.div_mod c 16 ltac:(lia)). pose proof (Z.div_mod (c / 16) 16 ltac:(lia)).
  pose proof (Z.div_mod (c / 256) 16 ltac:(lia)). pose proof (Z.div_mod (c / 4096) 16 ltac:(lia)).
  rewrite Z.div_div in * by lia. change (16 * 16) with 256 in *. change (256 * 16) with 4096 in *. change (4096 * 16) with 65536 in *.
  assert (c / 65536 = 0) by (apply Z.div_small; lia). lia.
Qed.

Lemma escape_parses u x l :
  u <> 117 -> escape u = Some x -> string_chars (92 :: u :: l) = ('(s, rest) ← string_chars l; Some (x :: s, rest)).
Proof.
  intros Hu He. cbn [string_chars]. change (92 =? 34) with false. change (92 <=? 31) with false. change (92 =? 92) with true.
  cbv iota. destruct (Z.eqb_spec u 117); [done|]. by rewrite He.
Qed.

Lemma plain_parses c l :
  31 < c -> c <> 34 -> c <> 92 -> string_chars (c :: l) = ('(s, rest) ← string_chars l; Some (c :: s, rest)).
Proof.
  intros H1 H2 H3. cbn [string_chars]. destruct (Z.eqb_spec c 34); [done|]. destruct (Z.leb_spec c 31); [lia|].
  by destruct (Z.eqb_spec c 92).
Qed.

Lemma quoted_unit_parses c l :
  unit_ok c = true -> string_chars (quoted_unit c ++ l) = ('(s, rest) ← string_chars l; Some (c :: s, rest)).
Proof.
  intros Hc. unfold quoted_unit.
  repeat match goal with
  | |- context [if c =? ?k then _ else _] => destruct (Z.eqb_spec c k) as [->|]; [by apply escape_parses|]
  end.
  destruct ((c <? 32) || _ || _) eqn:E; [by apply unicode_escape_parses|].
  apply orb_false_iff in E as [[?%Z.ltb_ge _]%orb_false_iff _]. apply plain_parses; lia.
Qed.

Lemma quoted_parses s rest :
  forallb unit_ok s = true -> string_chars (quoted s ++ 34 :: rest) = Some (s, rest).
Proof.
  remember (length s) as n eqn:Hn. revert s Hn. induction n as [n IH] using lt_wf_ind. intros s -> Hs.
  destruct s as [|c r]; [done|]. cbn in Hs. apply andb_true_iff in Hs as [Hc Hs]. cbn [quoted].
  destruct r as [|d r'].
  { by rewrite quoted_unit_parses. }
  destruct (high_surrogate c && low_surrogate d) eqn:E.
  - apply andb_true_iff in E as [[?%Z.leb_le ?%Z.leb_le]%andb_true_iff [?%Z.leb_le ?%Z.leb_le]%andb_true_iff].
    cbn in Hs. apply andb_true_iff in Hs as [_ Hs]. cbn [app].
    rewrite !plain_parses by lia. rewrite (IH (length r')); [done|cbn; lia|done|done].
  - rewrite <- app_assoc, quoted_unit_parses by done. rewrite (IH (length (d :: r'))); [done|cbn; lia|done|done].
Qed.

(** ** Values *)

Fixpoint printable (v : json) : bool :=
  match v with
  | JsNumber x => printable_number x
  | JsString s => forallb unit_ok s
  | JsArray items => forallb printable items
  | JsObject members => forallb (fun m => forallb unit_ok (fst m) && printable (snd m)) members
  | _ => true
  end.

Section json_induction.
Context (P : json -> Prop).
Hypothesis Hnull : P JsNull.
Hypothesis Hbool : forall b, P (JsBool b).
Hypothesis Hnumber : forall x, P (JsNumber x).
Hypothesis Hstring : forall s, P (JsString s).
Hypothesis Harray : forall items, Forall P items -> P (JsArray items).
Hypothesis Hobject : forall members, Forall (fun m => P (snd m)) members -> P (JsObject members).

(** Induction that reaches into arrays and objects. *)
Fixpoint json_nested (v : json) : P v :=
  match v with
  | JsNull => Hnull
  | JsBool b => Hbool b
  | JsNumber x => Hnumber x
  | JsString s => Hstring s
  | JsArray items =>
      Harray items ((fix all l : Forall P l :=
        match l with [] => List.Forall_nil _ | x :: r => List.Forall_cons _ x _ (json_nested x) (all r) end) items)
  | JsObject members =>
      Hobject members ((fix all (l : object) : Forall (fun m => P (snd m)) l :=
        match l with [] => List.Forall_nil _ | m :: r => List.Forall_cons _ m _ (json_nested (snd m)) (all r) end) members)
  end.
End json_induction.

Definition opens (l : text) : Prop := exists c r, l = c :: r /\ is_blank c = false /\ c <> 93 /\ c <> 125.

Lemma stringify_opens v : printable v = true -> opens (JSON_stringify v).
Proof.
  intros Hv. destruct v as [|b|x|s|items|members]; cbn in Hv |- *; try by eexists _, _; split_and!.
  - by destruct b; eexists _, _; split_and!.
  - destruct (number_text_head x Hv) as (c & r & -> & Hc). exists c, r. split_and!; [done| |lia|lia].
    unfold is_blank. rewrite !orb_false_iff, !Z.eqb_neq. lia.
Qed.

Lemma opens_skip l rest : opens l -> skipWhitespace (l ++ rest) = l ++ rest.
Proof. intros (c & r & -> & Hb & _). cbn. by rewrite Hb. Qed.

Lemma commas_cons p q ps : commas (p :: q :: ps) = p ++ 44 :: commas (q :: ps).
Proof. done. Qed.

Lemma list_next_close {A} close rest (fin more : text -> Parse A) :
  is_blank close = false -> list_next close (close :: rest) fin more = fin rest.
Proof. intros Hb. unfold list_next. cbn. by rewrite Hb, Z.eqb_refl. Qed.

Lemma list_next_comma {A} close rest (fin more : text -> Parse A) :
  close <> 44 -> list_next close (44 :: rest) fin more = more rest.
Proof. intros Hc. unfold list_next. change (skipWhitespace (44 :: rest)) with (44 :: rest). cbv iota.
  by rewrite (proj2 (Z.eqb_neq 44 close)) by done. Qed.

(** What one value promises to the lists around it. *)
Definition reads_back (v : json) : Prop :=
  printable v = true -> forall fuel rest, (2 * length (JSON_stringify v) + 1 <= fuel)%nat -> number_end rest ->
  json_value fuel (JSON_stringify v ++ rest) = Parsed v rest.

Lemma items_read_back items fuel rest :
  Forall reads_back items -> forallb printable items = true -> items <> [] ->
  (2 * length (commas (List.map JSON_stringify items)) + 2 <= fuel)%nat ->
  json_items fuel (commas (List.map JSON_stringify items) ++ 93 :: rest) = Parsed items rest.
Proof.
  intros HP. revert fuel. induction HP as [|v items Hv HP IH]; intros fuel Hp Hne Hf; [done|].
  cbn in Hp. apply andb_true_iff in Hp as [Hpv Hp]. destruct fuel as [|fuel]; [lia|]. cbn [json_items].
  destruct items as [|w items].
  - cbn [List.map commas fmap list_fmap concat] in Hf |- *. rewrite app_nil_r in Hf |- *.
    rewrite Hv by (done || lia || (split_and!; done)). cbn [parse_bind]. by apply list_next_close.
  - cbn [List.map] in Hf |- *. rewrite commas_cons in Hf |- *. rewrite length_app in Hf. cbn [length] in Hf.
    rewrite <- app_assoc. cbn [app].
    rewrite Hv by (done || lia || (split_and!; done)). cbn [parse_bind]. rewrite list_next_comma by done.
    change (JSON_stringify w :: List.map JSON_stringify items) with (List.map JSON_stringify (w :: items)) in *.
    rewrite IH; [done|done|done|lia].
Qed.

Definition member_text (m : text * json) : text := quote (fst m) ++ 58 :: JSON_stringify (snd m).

Lemma member_text_opens m : opens (member_text m).
Proof. by eexists _, _; split_and!. Qed.

Lemma commas_opens p ps : opens p -> opens (commas (p :: ps)).
Proof. intros (c & r & -> & H). by eexists _, _; split. Qed.

(** One member in front of what follows it. *)
Lemma member_reads_back fuel k v rest :
  forallb unit_ok k = true -> printable v = true -> reads_back v -> number_end rest ->
  (2 * length (JSON_stringify v) + 1 <= fuel)%nat ->
  json_members (S fuel) (member_text (k, v) ++ rest)
  = list_next 125 rest (Parsed [(k, v)])
      (fun rest => parse_bind (json_members fuel (skipWhitespace rest)) (fun ms rest => Parsed ((k, v) :: ms) rest)).
Proof.
  intros Hk Hp Hv Hr Hf. unfold member_text, quote. cbn [fst snd].
  cbn [app json_members]. change (34 =? 34) with true. cbv iota. rewrite <- !app_assoc. cbn [app].
  rewrite quoted_parses by done. cbn [parsed parse_bind].
  change (skipWhitespace (58 :: JSON_stringify v ++ rest)) with (58 :: JSON_stringify v ++ rest). cbv iota beta.
  change (58 =? 58) with true. cbv iota. by rewrite Hv.
Qed.

Lemma members_read_back members fuel rest :
  Forall (fun m => reads_back (snd m)) members ->
  forallb (fun m => forallb unit_ok (fst m) && printable (snd m)) members = true -> members <> [] ->
  (2 * length (commas (List.map member_text members)) + 2 <= fuel)%nat ->
  json_members fuel (commas (List.map member_text members) ++ 125 :: rest) = Parsed members rest.
Proof.
  intros HP. revert fuel. induction HP as [|[k v] members Hv HP IH]; intros fuel Hp Hne Hf; [done|].
  cbn in Hp. apply andb_true_iff in Hp as [[Hk Hpv]%andb_true_iff Hp]. destruct fuel as [|fuel]; [lia|].
  assert (Hl : (length (JSON_stringify v) < length (member_text (k, v)))%nat)
    by (unfold member_text; rewrite length_app; cbn; lia).
  destruct members as [|w members].
  - cbn [List.map commas fmap list_fmap concat] in Hf |- *. rewrite app_nil_r in Hf |- *.
    rewrite member_reads_back by (done || lia || (split_and!; done)). by apply list_next_close.
  - cbn [List.map] in Hf |- *. rewrite commas_cons in Hf |- *. rewrite length_app in Hf. cbn [length] in Hf.
    rewrite <- app_assoc. cbn [app]. rewrite member_reads_back by (done || lia || (split_and!; done)).
    rewrite list_next_comma by done. rewrite opens_skip by apply commas_opens, member_text_opens.
    change (member_text w :: List.map member_text members) with (List.map member_text (w :: members)) in *.
    rewrite IH; [done|done|done|lia].
Qed.

Lemma literal_reads fuel c r rest b v :
  is_blank c = false -> c <> 123 -> c <> 91 -> c <> 34 ->
  after_prefix true_text (c :: r ++ rest) = (if bool_decide (b = Some true) then Some rest else None) ->
  after_prefix false_text (c :: r ++ rest) = (if bool_decide (b = Some false) then Some rest else None) ->
  after_prefix null_text (c :: r ++ rest) = (if bool_decide (b = None) then Some rest else None) ->
  v = match b with Some b => JsBool b | None => JsNull end ->
  json_value (S fuel) (c :: r ++ rest) = Parsed v rest.
Proof.
  intros Hb H1 H2 H3 Ht Hf Hn ->. cbn [json_value].
  assert (skipWhitespace (c :: r ++ rest) = c :: r ++ rest) as -> by (cbn; by rewrite Hb).
  destruct (Z.eqb_spec c 123), (Z.eqb_spec c 91), (Z.eqb_spec c 34); try done.
  rewrite Ht, Hf, Hn. by destruct b as [[]|].
Qed.

Lemma value_reads_back v : reads_back v.
Proof.
  induction v as [|b|x|s|items IH|members IH] using json_nested; intros Hp fuel rest Hf Hr;
    (destruct fuel as [|fuel]; [lia|]).
  - by apply (literal_reads fuel 110 [117; 108; 108] rest None).
  - destruct b; [by apply (literal_reads fuel 116 [114; 117; 101] rest (Some true))|
      by apply (literal_reads fuel 102 [97; 108; 115; 101] rest (Some false))].
  - pose proof (number_text_parses x rest Hp Hr) as H. destruct (number_text_head x Hp) as (c & r & E & Hc).
    cbn [JSON_stringify]. rewrite E in H |- *. cbn [app] in H |- *. cbn [json_value].
    assert (skipWhitespace (c :: r ++ rest) = c :: r ++ rest) as ->.
    { cbn. replace (is_blank c) with false; [done|]. unfold is_blank. symmetry. rewrite !orb_false_iff, !Z.eqb_neq. lia. }
    destruct (Z.eqb_spec c 123), (Z.eqb_spec c 91), (Z.eqb_spec c 34); try lia.
    assert (forall d t, d <> 45 -> ~ 48 <= d <= 57 -> after_prefix (d :: t) (c :: r ++ rest) = None) as Hn.
    { intros d t Hd Hd'. cbn. destruct (Z.eqb_spec d c); [lia|done]. }
    unfold true_text, false_text, null_text. rewrite !Hn by lia. by rewrite H.
  - cbn [JSON_stringify]. unfold quote. cbn [app json_value skipWhitespace]. change (is_blank 34) with false. cbv iota.
    change (34 =? 123) with false. change (34 =? 91) with false. change (34 =? 34) with true. cbv iota.
    rewrite <- app_assoc. cbn [app]. by rewrite quoted_parses.
  - cbn [JSON_stringify] in Hf |- *. cbn [app json_value skipWhitespace]. change (is_blank 91) with false. cbv iota.
    change (91 =? 123) with false. change (91 =? 91) with true. cbv iota. rewrite <- app_assoc. cbn [app].
    destruct items as [|v items]; [done|]. cbn in Hp.
    assert (opens (commas (List.map JSON_stringify (v :: items)))) as Ho
      by (apply commas_opens, stringify_opens; by apply andb_true_iff in Hp as [? _]).
    rewrite opens_skip by done. destruct Ho as (c & r & E & _ & Hc & _). rewrite E. cbn [app].
    destruct (Z.eqb_spec c 93); [done|]. change (c :: r ++ 93 :: rest) with ((c :: r) ++ 93 :: rest). rewrite <- E.
    rewrite items_read_back; [done|done|done|done|]. cbn [length] in Hf. rewrite length_app in Hf. cbn [length] in Hf. lia.
  - cbn [JSON_stringify] in Hf |- *. fold member_text in Hf |- *. cbn [app json_value skipWhitespace].
    change (is_blank 123) with false. cbv iota.
    change (123 =? 123) with true. cbv iota. rewrite <- app_assoc. cbn [app].
    destruct members as [|m members]; [done|].
    assert (opens (commas (List.map member_text (m :: members)))) as Ho by apply commas_opens, member_text_opens.
    rewrite opens_skip by done. destruct Ho as (c & r & E & _ & _ & Hc). rewrite E. cbn [app].
    destruct (Z.eqb_spec c 125); [done|]. change (c :: r ++ 125 :: rest) with ((c :: r) ++ 125 :: rest). rewrite <- E.
    rewrite members_read_back; [done|done|done|done|]. cbn [length] in Hf. rewrite length_app in Hf. cbn [length] in Hf. lia.
Qed.

Lemma JSON_parse_stringify v : printable v = true -> JSON_parse (JSON_stringify v) = Some v.
Proof.
  intros Hv. unfold JSON_parse, json_fuel_for. rewrite <- (app_nil_r (JSON_stringify v)) at 2.
  by rewrite value_reads_back by (done || lia).
Qed.

(** ** Own keys in order *)

Definition key_before (k k' : text) : Prop :=
  match array_index k, array_index k' with Some i, Some j => i < j | None, Some _ => False | _, _ => True end.

Definition ordered (o : object) : Prop := NoDup o.*1 /\ StronglySorted key_before o.*1.

Lemma get_None k o : get k o = None <-> k ∉ o.*1.
Proof.
  induction o as [|[k' v] o IH]; cbn; [split; [intros _; apply not_elem_of_nil|done]|].
  rewrite not_elem_of_cons. destruct (bool_decide_reflect (k = k')); naive_solver.
Qed.

Lemma replace_keys k v o : (replace k v o).*1 = o.*1.
Proof. induction o as [|[k' v'] o IH]; [done|]. cbn. destruct (bool_decide (k = k')); [done|]. cbn. by f_equal. Qed.

Lemma insert_index_keys i k v o : (insert_index i k v o).*1 ≡ₚ k :: o.*1.
Proof.
  induction o as [|[k' v'] o IH]; [done|]. cbn. destruct (array_index k') as [j|]; [|done].
  destruct (j <? i); [|done]. cbn. rewrite IH. apply Permutation_swap.
Qed.

Lemma insert_index_sorted i k v o :
  array_index k = Some i -> k ∉ o.*1 -> (forall k', k' ∈ o.*1 -> array_index k' <> Some i) ->
  StronglySorted key_before o.*1 -> StronglySorted key_before (insert_index i k v o).*1.
Proof.
  intros Hk. induction o as [|[k' v'] o IH]; intros Hn Hd Hs; [by repeat constructor|].
  cbn in *. inversion Hs as [|? ? Hs' Hb]; subst. rewrite not_elem_of_cons in Hn.
  assert (Hbefore : forall j, array_index k' = Some j -> i < j -> Forall (key_before k) o.*1).
  { intros j Hj Hij. eapply Forall_impl; [exact Hb|]. intros k2. unfold key_before. rewrite Hj, Hk. destruct (array_index k2); lia. }
  destruct (array_index k') as [j|] eqn:Hj.
  - destruct (Z.ltb_spec j i).
    + cbn. constructor; [apply IH; [naive_solver|intros; apply Hd; set_solver|done]|].
      apply Forall_forall. intros k2 H2. rewrite insert_index_keys in H2. apply elem_of_cons in H2 as [->|H2].
      * unfold key_before. by rewrite Hj, Hk.
      * rewrite Forall_forall in Hb. by apply Hb.
    + assert (j <> i) by (intros ->; by eapply Hd; [left|]).
      cbn. constructor; [done|]. constructor; [unfold key_before; rewrite Hk, Hj; lia|]. by apply (Hbefore j); [|lia].
  - cbn. constructor; [done|]. constructor; [unfold key_before; by rewrite Hk, Hj|].
    eapply Forall_impl; [exact Hb|]. intros k2. unfold key_before. rewrite Hj, Hk. by destruct (array_index k2).
Qed.

(** No two keys are the same index. *)
Definition no_leading_zero (ds : text) : Prop := match ds with c :: _ => 49 <= c | [] => True end.

Lemma digits_value_nonneg ds : all_digits ds -> 0 <= digits_value ds.
Proof.
  induction ds as [|d ds IH] using rev_ind; [done|]. intros [Hd Hx]%Forall_app. rewrite digits_value_snoc.
  inversion Hx as [|? ? Hc%is_digit_spec]; subst. specialize (IH Hd). lia.
Qed.

Lemma digits_value_pos c r : all_digits (c :: r) -> 49 <= c -> 0 < digits_value (c :: r).
Proof.
  induction r as [|d r IH] using rev_ind; intros Hd Hc; [unfold digits_value; cbn; lia|].
  change (c :: r ++ [d]) with ((c :: r) ++ [d]) in *. apply Forall_app in Hd as [Hd Hx]. rewrite digits_value_snoc.
  inversion Hx as [|? ? Hd'%is_digit_spec]; subst. specialize (IH Hd Hc). lia.
Qed.

Lemma digits_value_inj ds ds' :
  all_digits ds -> all_digits ds' -> no_leading_zero ds -> no_leading_zero ds' ->
  digits_value ds = digits_value ds' -> ds = ds'.
Proof.
  assert (Hnil : forall l, all_digits l -> no_leading_zero l -> 0 = digits_value l -> [] = l).
  { intros [|c r] Hd Hz Hv; [done|]. pose proof (digits_value_pos c r Hd Hz). lia. }
  revert ds'. induction ds as [|d ds IH] using rev_ind; intros ds' Hd Hd' Hz Hz' Hv; [by apply Hnil|].
  destruct ds' as [|d' ds' _] using rev_ind; [symmetry; apply Hnil; [done..|]; by rewrite Hv|].
  rewrite !digits_value_snoc in Hv. apply Forall_app in Hd as [Hd Hx], Hd' as [Hd' Hx'].
  inversion Hx as [|? ? Hc%is_digit_spec]; inversion Hx' as [|? ? Hc'%is_digit_spec]; subst.
  assert (d = d' /\ digits_value ds = digits_value ds') as [<- Hv'] by lia.
  f_equal. apply IH; [done|done|by destruct ds|by destruct ds'|done].
Qed.

Lemma int_part_digits l ds rest :
  int_part l = Some (ds, rest) -> all_digits ds /\ l = ds ++ rest /\ (ds = [48] \/ (ds <> [] /\ no_leading_zero ds)).
Proof.
  assert (Hspan : forall l ds rest, span_digits l = (ds, rest) -> all_digits ds /\ l = ds ++ rest).
  { clear. induction l as [|c r IH]; intros ds rest H; cbn in H; [injection H as <- <-; split; [constructor|done]|].
    destruct (is_digit c) eqn:Hc; [|injection H as <- <-; split; [constructor|done]].
    destruct (span_digits r) as [ds' rest'] eqn:E. injection H as <- <-. destruct (IH _ _ eq_refl) as [? ->].
    split; [by constructor|done]. }
  destruct l as [|c r]; [done|]. cbn. destruct (Z.eqb_spec c 48) as [->|].
  { intros [= <- <-]. split_and!; [by repeat constructor|done|by left]. }
  destruct ((49 <=? c) && (c <=? 57)) eqn:E; [|done]. apply andb_true_iff in E as [E1%Z.leb_le E2%Z.leb_le].
  destruct (span_digits r) as [ds' rest'] eqn:Es. intros [= <- <-]. apply Hspan in Es as [Hd ->].
  split_and!; [constructor; [apply is_digit_spec; lia|done]|done|]. by right.
Qed.

Lemma array_index_inj k k' i : array_index k = Some i -> array_index k' = Some i -> k = k'.
Proof.
  assert (Hspec : forall k, array_index k = Some i ->
    all_digits k /\ digits_value k = i /\ (k = [48] \/ (k <> [] /\ no_leading_zero k))).
  { intros l H. unfold array_index in H. destruct (int_part l) as [[ds [|]]|] eqn:E; try done.
    apply int_part_digits in E as (Hd & -> & Hz). destruct (_ <? _); [|done]. injection H as <-. by rewrite app_nil_r. }
  intros (Hd & Hv & Hz)%Hspec (Hd' & Hv' & Hz')%Hspec.
  assert (Hzero : forall l, all_digits l -> l <> [] -> no_leading_zero l -> digits_value l <> 0).
  { intros [|c r] Hl Hne Hn; [done|]. pose proof (digits_value_pos c r Hl Hn). lia. }
  destruct Hz as [->|[Hne Hz]], Hz' as [->|[Hne' Hz']]; [done| | |apply digits_value_inj; congruence].
  - exfalso. by apply (Hzero k'); [..|rewrite Hv', <- Hv].
  - exfalso. by apply (Hzero k); [..|rewrite Hv, <- Hv'].
Qed.

Lemma own_set_ordered k v o : ordered o -> ordered (own_set k v o).
Proof.
  intros [Hn Hs]. unfold own_set. destruct (get k o) eqn:E; [split; by rewrite replace_keys|]. apply get_None in E.
  destruct (array_index k) as [i|] eqn:Hi.
  - split; [rewrite insert_index_keys; by constructor|]. apply insert_index_sorted; [done|done| |done].
    intros k' Hk' Hi'. by rewrite (array_index_inj _ _ _ Hi Hi') in E.
  - unfold ordered. rewrite fmap_app. split.
    + apply NoDup_app. split_and!; [done|set_solver|apply NoDup_singleton].
    + clear Hn E. induction Hs as [|k' ks Hs IH Hb]; cbn; [by repeat constructor|]. constructor; [done|].
      apply Forall_app. split; [done|]. repeat constructor. unfold key_before. rewrite Hi. by destruct (array_index k').
Qed.

(** ** Values as [JSON.parse] makes them *)

Definition normal (v : json) : Prop := js_value v = v.
Definition normal_object (o : object) : Prop := ordered o /\ Forall (fun m => normal (snd m)) o.

Lemma spread_ordered o from : ordered o -> ordered (spread o from).
Proof. unfold spread. revert o. induction from as [|m from IH]; intros o Ho; [done|]. cbn. by apply IH, own_set_ordered. Qed.

Lemma replace_values (P : json -> Prop) k v o :
  P v -> Forall (fun m => P (snd m)) o -> Forall (fun m => P (snd m)) (replace k v o).
Proof. intros Hv. induction 1 as [|[k' v'] o H Ho IH]; cbn; [constructor|]. destruct (bool_decide (k = k')); by constructor. Qed.

Lemma own_set_values (P : json -> Prop) k v o :
  P v -> Forall (fun m => P (snd m)) o -> Forall (fun m => P (snd m)) (own_set k v o).
Proof.
  intros Hv Ho. unfold own_set. destruct (get k o); [by apply replace_values|].
  destruct (array_index k) as [i|]; [|apply Forall_app; split; [done|by repeat constructor]].
  induction Ho as [|[k' v'] o H Ho IH]; cbn; [by repeat constructor|].
  destruct (array_index k'); [|by repeat constructor]. destruct (_ <? _); by repeat constructor.
Qed.

Lemma spread_values (P : json -> Prop) o from :
  Forall (fun m => P (snd m)) o -> Forall (fun m => P (snd m)) from -> Forall (fun m => P (snd m)) (spread o from).
Proof. unfold spread. intros Ho Hf. revert o Ho. induction Hf as [|m from Hm Hf IH]; intros o Ho; [done|]. cbn. by apply IH, own_set_values. Qed.

Lemma own_set_last k v o :
  k ∉ o.*1 -> Forall (fun k' => key_before k' k) o.*1 -> own_set k v o = o ++ [(k, v)].
Proof.
  intros Hn Hb. unfold own_set. rewrite (proj2 (get_None k o) Hn).
  destruct (array_index k) as [i|] eqn:Hi; [|done]. clear Hn. induction o as [|[k' v'] o IH]; [done|].
  cbn in *. inversion Hb as [|? ? H Hb']; subst. unfold key_before in H. rewrite Hi in H.
  destruct (array_index k') as [j|]; [|done]. rewrite (proj2 (Z.ltb_lt j i)) by lia. by rewrite IH.
Qed.

Lemma spread_append o from : ordered (o ++ from) -> spread o from = o ++ from.
Proof.
  unfold spread. revert o. induction from as [|[k v] from IH]; intros o [Hn Hs]; [by rewrite app_nil_r|].
  cbn [foldl fst snd]. rewrite fmap_app in Hn, Hs. cbn in Hn, Hs. rewrite own_set_last.
  - rewrite IH; rewrite <- app_assoc; cbn; [done|]. split; rewrite fmap_app; done.
  - apply NoDup_app in Hn as (_ & Hn & _). intros H. apply (Hn k H). by left.
  - clear Hn. induction o as [|[k' v'] o IHo]; [constructor|]. cbn in *. inversion Hs as [|? ? Hs' Hb]; subst.
    constructor; [|by apply IHo]. rewrite Forall_forall in Hb. apply Hb. apply elem_of_app. right. by left.
Qed.

Lemma spread_nil o : ordered o -> spread [] o = o.
Proof. intros Ho. by apply (spread_append []). Qed.

Lemma map_fixed {A} (f : A -> A) l : Forall (fun x => f x = x) l -> List.map f l = l.
Proof. induction 1 as [|x l H _ IH]; [done|]. cbn. by rewrite H, IH. Qed.

Lemma normal_JsObject o : normal_object o -> normal (JsObject o).
Proof.
  intros [Ho Hv]. unfold normal. cbn [js_value]. f_equal.
  rewrite (map_fixed (fun m => (fst m, js_value (snd m)))); [by apply spread_nil|].
  eapply Forall_impl; [exact Hv|]. intros [k v] H. cbn in *. by rewrite H.
Qed.

Lemma spread_normal o from : normal_object o -> normal_object from -> normal_object (spread o from).
Proof. intros [] []. split; [by apply spread_ordered|by apply spread_values]. Qed.

Lemma own_set_normal k v o : normal v -> normal_object o -> normal_object (own_set k v o).
Proof. intros Hv []. split; [by apply own_set_ordered|by apply own_set_values]. Qed.

Lemma normal_nil : normal_object [].
Proof. repeat constructor. Qed.

(** What [JSON.parse] returns is normal. *)
Lemma js_value_normal v :
  match js_value v with JsObject o => normal_object o | w => normal w end /\ normal (js_value v).
Proof.
  induction v as [|b|x|s|items IH|members IH] using json_nested; try done.
  - split; cbn; unfold normal; cbn [js_value]; f_equal; apply map_fixed; apply Forall_map;
      (eapply Forall_impl; [exact IH|]); intros v [_ H]; exact H.
  - cbn [js_value]. assert (H : normal_object (spread [] (List.map (fun m => (m.1, js_value m.2)) members))).
    { split; [apply spread_ordered; repeat constructor|]. apply spread_values; [constructor|].
      apply Forall_map. eapply Forall_impl; [exact IH|]. intros v [_ Hv]. exact Hv. }
    split; [done|by apply normal_JsObject].
Qed.

(** Parsing what was printed gives the value back. *)
Lemma JSON_round_trip v : printable v = true -> normal v -> JSON_parse_value (JSON_stringify v) = Some v.
Proof. intros Hp Hn. unfold JSON_parse_value. rewrite JSON_parse_stringify by done. cbn. by rewrite Hn. Qed.

(** ** Integers *)

Lemma round_half_even_floor n d : 0 < d -> n / d <= round_half_even n d.
Proof. intros Hd. unfold round_half_even. repeat match goal with |- context [if ?b then _ else _] => destruct b end; lia. Qed.

(** A safe integer that a rounded integer is read as is that integer. *)
Lemma safe_integer_round64 i j : 0 <= i -> safe_integer (round64 (inject_Z i)) = Some j -> j = i.
Proof.
  intros Hi. destruct i as [|p|p]; [by intros [= <-]| |lia]. clear Hi. unfold round64, inject_Z. cbn [Qnum Qden].
  unfold round_positive, ulp_exponent. change (Z.log2 1) with 0. rewrite Z.sub_0_r.
  set (l := Z.log2 (Zpos p)). assert (0 <= l) by apply Z.log2_nonneg.
  assert (Hlog : 2 ^ l <= Zpos p < 2 ^ (l + 1)) by (apply Z.log2_spec; lia). unfold pow2.
  rewrite (Z.max_l 0 (- l)), (Z.max_r 0 l) by lia. rewrite Z.pow_0_r, Z.mul_1_r, Z.mul_1_l.
  rewrite (proj2 (Z.ltb_ge _ _)) by lia. rewrite (Z.max_l (l - 52)) by lia. destruct (Z_le_gt_dec l 52) as [Hs|Hb].
  - rewrite (Z.max_r 0 (- (l - 52))), (Z.max_l 0 (l - 52)) by lia. rewrite Z.pow_0_r, !Z.mul_1_l.
    set (d := 2 ^ (- (l - 52))). assert (0 < d) by (apply Z.pow_pos_nonneg; lia).
    assert (round_half_even (Zpos p * d) 1 = Zpos p * d) as ->
      by (unfold round_half_even; rewrite Z.div_1_r, Z.mul_1_r, Z.sub_diag; done).
    destruct (_ <=? _); [done|]. cbn [safe_integer]. destruct (_ && _); [|done]. intros [= <-]. unfold trunc. cbn [Qnum Qden].
    rewrite Z2Pos.id, Z.mul_1_r by done. apply Z.quot_mul. lia.
  - rewrite (Z.max_l 0 (- (l - 52))), (Z.max_r 0 (l - 52)) by lia. rewrite Z.pow_0_r, Z.mul_1_r.
    set (d := 2 ^ (l - 52)). assert (0 < d) by (apply Z.pow_pos_nonneg; lia).
    assert (Hm : 2 ^ 53 <= round_half_even (Zpos p) d * d).
    { pose proof (round_half_even_floor (Zpos p) d ltac:(lia)).
      assert (2 ^ 52 <= Zpos p / d).
      { apply Z.div_le_lower_bound; [done|]. unfold d. rewrite <- Z.pow_add_r by lia. replace (l - 52 + 52) with l by lia. apply Hlog. }
      assert (2 ^ 1 <= d) by (apply Z.pow_le_mono_r; lia). change (2 ^ 53) with (2 ^ 52 * 2 ^ 1). nia. }
    destruct (_ <=? _); [done|]. cbn [safe_integer]. destruct (_ && _) eqn:E; [|done].
    apply andb_true_iff in E as [_ E%isSafeInteger_spec]. unfold trunc in E. cbn [Qnum Qden] in E.
    change (Z.pos (Z.to_pos 1)) with 1 in E. rewrite Z.quot_1_r in E. unfold MAX_SAFE_INTEGER in E. change (2 ^ 53) with 9007199254740992 in Hm. rewrite ?Z.mul_1_l in E. lia.
Qed.
