(* ===== verification/SseStream.v ===== *)
(** * Reading a Responses stream

    [src/responses-stream.ts]: the framer that cuts the bytes of an upstream
    response into server-sent events whatever the reads cut them into, the
    parser of one event, and the generator [readResponsesStream] with its
    session.  The reads of the upstream are a list of answers; the consumer of
    the generator may stop after any event. *)

From Stdlib Require Import ZArith QArith Lia.
From stdpp Require Import base strings option list.
From S2P Require Import Prelude Js JsonText JsonScan WebText JsonPrint.
Open Scope string_scope.
Open Scope list_scope.
Open Scope Z_scope.

(** ** Events *)

Inductive ResponsesStreamFailureKind :=
| malformed_event | premature_eof | read_error | inactivity_timeout | event_too_large
| upstream_http_4xx | upstream_http_5xx | upstream_http_error | empty_upstream_completion.

(** What the code throws: a [ResponsesStreamError], the reason of the aborted
    signal, or anything else. *)
Inductive StreamError := ResponsesStreamError (kind : ResponsesStreamFailureKind) | SignalReason | OtherError.

#[export] Instance ResponsesStreamFailureKind_eq_dec : EqDecision ResponsesStreamFailureKind.
Proof. solve_decision. Defined.
#[export] Instance StreamError_eq_dec : EqDecision StreamError.
Proof. solve_decision. Defined.

Record ResponsesStreamEvent := mkEvent {
  ev_raw : text;
  ev_value : object;
  ev_type : text;
  ev_terminal : bool }.

Definition MAX_RESPONSES_SSE_EVENT_BYTES : Z := 16 * 1024 * 1024.

Definition terminal_type (type : text) : bool :=
  bool_decide (type ∈ [text_of "error"; text_of "response.completed"; text_of "response.failed"; text_of "response.incomplete"]).

(** [value.key] of a record, [None] for [undefined]. *)
Definition field (key : string) (o : object) : option json := get (text_of key) o.

Definition is_record (v : option json) : bool :=
  match v with Some (JsObject _) | Some (JsArray _) => true | _ => false end.
Definition is_array (v : option json) : bool := match v with Some (JsArray _) => true | _ => false end.

(** [isRecord(v) && !Array.isArray(v)]. *)
Definition as_object (v : option json) : option object := match v with Some (JsObject o) => Some o | _ => None end.

Definition getString (v : option json) : option text := match v with Some (JsString s) => Some s | _ => None end.

(** [getString(v)?.trim()] where an empty string counts as absent. *)
Definition trimmed (v : option json) : option text :=
  s ← getString v; match trim_text s with [] => None | t => Some t end.

(** ** One event *)

(** [raw.split(/\r\n|\r|\n/)]. *)
Fixpoint split_lines (line : text) (l : text) : list text :=
  match l with
  | [] => [line]
  | c :: r =>
      if c =? 13 then
        match r with
        | d :: r' => if d =? 10 then line :: split_lines [] r' else line :: split_lines [] r
        | [] => line :: split_lines [] r
        end
      else if c =? 10 then line :: split_lines [] r
      else split_lines (line ++ [c]) r
  end.

(** The data of a line, if it is a data line. *)
Definition data_line (line : text) : option text :=
  if bool_decide (line = []) || bool_decide (head line = Some 58) then None
  else if bool_decide (line = text_of "data") then Some []
  else match after_prefix (text_of "data:") line with
       | Some (c :: r) => if c =? 32 then Some r else Some (c :: r)
       | Some [] => Some []
       | None => None
       end.

(** [parts.join("\n")]. *)
Fixpoint join_lines (parts : list text) : text :=
  match parts with [] => [] | [p] => p | p :: ps => p ++ 10 :: join_lines ps end.

Definition nonblank (v : option json) : bool := match trimmed v with Some _ => true | None => false end.

Definition is_flat_error (value : object) : bool :=
  (match field "code" value with Some JsNull => true | v => nonblank v end)
  && nonblank (field "message" value)
  && (match field "param" value with Some JsNull | Some (JsString _) => true | _ => false end).

Definition invalid_terminal (type : text) (value : object) : bool :=
  (bool_decide (type = text_of "error")
   && match field "error" value with Some e => negb (match e with JsObject _ => true | _ => false end) | None => negb (is_flat_error value) end)
  || (negb (bool_decide (type = text_of "error")) && terminal_type type
      && match as_object (field "response" value) with Some _ => false | None => true end).

(** [Ok None] is a block without data. *)
Definition parseEventBlock (raw : text) : Result StreamError (option ResponsesStreamEvent) :=
  match omap data_line (split_lines [] raw) with
  | [] => Ok None
  | data =>
      match JSON_parse_value (join_lines data) with
      | None => Err (ResponsesStreamError malformed_event)
      | Some value =>
          match value with
          | JsObject value =>
              match trimmed (field "type" value) with
              | None => Err (ResponsesStreamError malformed_event)
              | Some type =>
                  if invalid_terminal type value then Err (ResponsesStreamError malformed_event)
                  else Ok (Some (mkEvent raw value type (terminal_type type)))
              end
          (** An array is a record without a type; anything else is no record. *)
          | _ => Err (ResponsesStreamError malformed_event)
          end
      end
  end.

(** ** The framer *)

(** The bytes of the block so far ([buffer] up to [length]), the buffer's size
    and the last three bytes, [-1] for none. *)
Record Framer := mkFramer {
  fr_pending : list Z;
  fr_capacity : Z;
  fr_third : Z;
  fr_second : Z;
  fr_previous : Z }.

#[export] Instance eta_Framer : Eta Framer := fun f =>
  mkFramer (fr_pending f) (fr_capacity f) (fr_third f) (fr_second f) (fr_previous f).

Definition createSseEventFramer : Framer := mkFramer [] (Z.min 4096 MAX_RESPONSES_SSE_EVENT_BYTES) (-1) (-1) (-1).

Definition fr_length (f : Framer) : Z := Z.of_nat (length (fr_pending f)).
Definition byteLength (bytes : list Z) : Z := Z.of_nat (length bytes).

(** [buffer.set] throws a [RangeError] when the bytes do not fit. *)
Definition append (f : Framer) (value : list Z) : Result StreamError Framer :=
  let nextLength := fr_length f + byteLength value in
  if MAX_RESPONSES_SSE_EVENT_BYTES <? nextLength then Err (ResponsesStreamError event_too_large) else
  let f := if fr_capacity f <? nextLength
           then f <| fr_capacity := Z.min MAX_RESPONSES_SSE_EVENT_BYTES (Z.max nextLength (fr_capacity f * 2)) |> else f in
  if fr_capacity f <? nextLength then Err OtherError else Ok (f <| fr_pending := fr_pending f ++ value |>).

Definition take_block (f : Framer) : text * Framer :=
  (TextDecoder_decode (fr_pending f), mkFramer [] (fr_capacity f) (-1) (-1) (-1)).

Definition isBoundary (f : Framer) (byte : Z) : bool :=
  if byte =? 10 then (fr_previous f =? 10) || ((fr_previous f =? 13) && (fr_third f =? 13) && (fr_second f =? 10))
  else if negb (byte =? 13) then false
  else if fr_previous f =? 13 then true
  else (fr_previous f =? 10) && negb (fr_second f =? 13).

Definition advanceBoundaryState (f : Framer) (byte : Z) : Framer :=
  f <| fr_third := fr_second f |> <| fr_second := fr_previous f |> <| fr_previous := byte |>.

(** The loop of [frames]: [segment] holds the bytes of the chunk from
    [segmentStart]; the blocks yielded, and how the generator ends. *)
Fixpoint frames_from (f : Framer) (segment chunk : list Z) : list text * Result StreamError Framer :=
  match chunk with
  | [] => ([], match segment with [] => Ok f | _ => append f segment end)
  | byte :: r =>
      if MAX_RESPONSES_SSE_EVENT_BYTES <? fr_length f + (byteLength segment + 1)
      then ([], Err (ResponsesStreamError event_too_large))
      else if negb (isBoundary f byte) then frames_from (advanceBoundaryState f byte) (segment ++ [byte]) r
      else match append f (segment ++ [byte]) with
           | Err e => ([], Err e)
           | Ok f => let '(raw, f) := take_block f in let '(raws, result) := frames_from f [] r in (raw :: raws, result)
           end
  end.

Definition frames (f : Framer) (chunk : list Z) : list text * Result StreamError Framer := frames_from f [] chunk.

(** ** The session *)

(** The answer of one [nextChunk]: bytes, or what the stream does not go on
    from: the end, a read that failed, the deadline, an [onActivity] that threw,
    or a signal found aborted. *)
Inductive Ending := ReadDone | ReadFailed | ReadTimedOut | ActivityFailed (e : StreamError) | ReadAborted.
Inductive Read := ReadChunk (bytes : list Z) | ReadEnds (ending : Ending).

Record Session := mkSession {
  ss_framer : Framer;
  ss_readerDone : bool;
  ss_cancelStarted : bool;
  ss_sawEvent : bool }.

#[export] Instance eta_Session : Eta Session := fun s =>
  mkSession (ss_framer s) (ss_readerDone s) (ss_cancelStarted s) (ss_sawEvent s).

Definition createResponsesStreamSession : Session := mkSession createSseEventFramer false false false.

Definition cancelReaderOnce (s : Session) : Session :=
  if ss_cancelStarted s || ss_readerDone s then s else s <| ss_cancelStarted := true |>.

Definition markParsedEvent (ev : ResponsesStreamEvent) (s : Session) : Session :=
  let s := s <| ss_sawEvent := true |> in if ev_terminal ev then cancelReaderOnce s else s.

Definition dispose (s : Session) : Session := if ss_readerDone s then s else cancelReaderOnce s.

(** How the generator stands: it returned after a terminal event, threw, was
    returned by its consumer, or waits for a read. *)
Inductive Outcome := Finished | Failed (e : StreamError) | Abandoned | Waiting.

#[export] Instance Outcome_eq_dec : EqDecision Outcome.
Proof. solve_decision. Defined.

(** [demand] is how often the consumer asks again after an event. *)
Record Progress := mkProgress { pg_session : Session; pg_demand : nat }.

#[export] Instance eta_Progress : Eta Progress := fun p => mkProgress (pg_session p) (pg_demand p).

(** One event is yielded. *)
Definition yield_event (ev : ResponsesStreamEvent) (p : Progress) : Progress + (Session * Outcome) :=
  let s := markParsedEvent ev (pg_session p) in
  match pg_demand p with
  | O => inr (s, Abandoned)
  | S demand => if ev_terminal ev then inr (s, Finished) else inl (mkProgress s demand)
  end.

(** The events of the blocks one chunk completes. *)
Fixpoint takeEvents (raws : list text) (p : Progress) : list ResponsesStreamEvent * (Progress + (Session * Outcome)) :=
  match raws with
  | [] => ([], inl p)
  | raw :: raws =>
      match parseEventBlock raw with
      | Err e => ([], inr (pg_session p, Failed e))
      | Ok None => takeEvents raws p
      | Ok (Some ev) =>
          match yield_event ev p with
          | inr stop => ([ev], inr stop)
          | inl p => let '(evs, result) := takeEvents raws p in (ev :: evs, result)
          end
      end
  end.

(** The event of a stream that ended without a closing boundary. *)
Definition takeTrailingEvent (s : Session) : Result StreamError (option ResponsesStreamEvent * Session) :=
  if fr_length (ss_framer s) <=? 0 then Ok (None, s) else
  let '(raw, f) := take_block (ss_framer s) in
  let s := s <| ss_framer := f |> in
  match parseEventBlock raw with
  | Err e => Err e
  | Ok None => Ok (None, s)
  | Ok (Some ev) => Ok (Some ev, s)
  end.

(** [consumeResponsesStream], and the end of [readResponsesStream] that throws
    when there was no terminal event. *)
Definition finish_stream (p : Progress) : list ResponsesStreamEvent * (Session * Outcome) :=
  match takeTrailingEvent (pg_session p) with
  | Err e => ([], (pg_session p, Failed e))
  | Ok (None, s) => ([], (s, Failed (ResponsesStreamError premature_eof)))
  | Ok (Some ev, s) =>
      match yield_event ev (mkProgress s (pg_demand p)) with
      | inr stop => ([ev], stop)
      | inl p => ([ev], (pg_session p, Failed (ResponsesStreamError premature_eof)))
      end
  end.

Definition end_stream (p : Progress) (ending : Ending) : list ResponsesStreamEvent * (Session * Outcome) :=
  match ending with
  | ReadDone => finish_stream (p <| pg_session := pg_session p <| ss_readerDone := true |> |>)
  | ReadFailed => ([], (pg_session p, Failed OtherError))
  | ReadTimedOut => ([], (pg_session p, Failed (ResponsesStreamError inactivity_timeout)))
  | ActivityFailed e => ([], (pg_session p, Failed e))
  | ReadAborted => ([], (pg_session p, Failed SignalReason))
  end.

Fixpoint consume (p : Progress) (reads : list Read) : list ResponsesStreamEvent * (Session * Outcome) :=
  match reads with
  | [] => ([], (pg_session p, Waiting))
  | ReadEnds ending :: _ => end_stream p ending
  | ReadChunk bytes :: reads =>
      let '(raws, framed) := frames (ss_framer (pg_session p)) bytes in
      let '(evs, result) := takeEvents raws p in
      match result with
      | inr stop => (evs, stop)
      | inl p =>
          match framed with
          | Err e => (evs, (pg_session p, Failed e))
          | Ok f => let '(more, stop) := consume (p <| pg_session := pg_session p <| ss_framer := f |> |>) reads in (evs ++ more, stop)
          end
      end
  end.

(** What [readResponsesStream] throws for an error; [aborted] is the signal when
    the error is caught. *)
Definition rethrown (aborted : bool) (e : StreamError) : StreamError :=
  if aborted then SignalReason else
  match e with ResponsesStreamError _ | SignalReason => e | OtherError => ResponsesStreamError read_error end.

(** The [catch] and [finally] of [readResponsesStream]. *)
Definition close_session (aborted : bool) (stop : Session * Outcome) : Session * Outcome :=
  let '(s, outcome) := stop in
  match outcome with
  | Waiting => (s, Waiting)
  | Failed e =>
      (dispose (cancelReaderOnce s), Failed (rethrown aborted e))
  | _ => (dispose s, outcome)
  end.

Definition readResponsesStream (demand : nat) (reads : list Read) (aborted : bool) :
    list ResponsesStreamEvent * (Session * Outcome) :=
  let '(evs, stop) := consume (mkProgress createResponsesStreamSession demand) reads in (evs, close_session aborted stop).
