(* ===== verification/SseFraming.v ===== *)
(** * Framing does not depend on the reads

    The framer of SseStream.v keeps the last bytes of a block in three variables
    and a growing buffer; the reference here cuts the whole stream of bytes at
    the ends of blocks.  The events and the outcome of [readResponsesStream] are
    those of the reference, however the bytes were cut into reads. *)

From Stdlib Require Import ZArith QArith Lia.
From stdpp Require Import base strings option list.
From S2P Require Import Prelude Js JsonText JsonScan WebText JsonPrint JsonRoundTrip SseStream.
Open Scope Z_scope.

(** ** The reference *)

(** [last] has the bytes of a block from the last one. *)
Fixpoint ends_in (suffix last : list Z) : bool :=
  match suffix, last with
  | [], _ => true
  | a :: suffix, b :: last => (b =? a) && ends_in suffix last
  | _, [] => false
  end.

(** A block ends with an empty line: LF LF, CRLF CRLF, CR CR, or LF CR unless
    that CR follows a CRLF and may start another one. *)
Definition block_ends (last : list Z) : bool :=
  ends_in [10; 10] last || ends_in [10; 13; 10; 13] last || ends_in [13; 13] last
  || (ends_in [13; 10] last && negb (ends_in [13; 10; 13] last)).

(** The blocks of the bytes after those of [last]; then what is left of the last
    block, or [None] when a block grew beyond the limit. *)
Fixpoint sse_blocks (last bytes : list Z) : list (list Z) * option (list Z) :=
  match bytes with
  | [] => ([], Some last)
  | byte :: r =>
      if MAX_RESPONSES_SSE_EVENT_BYTES <? byteLength (byte :: last) then ([], None)
      else if block_ends (byte :: last)
      then let '(blocks, rest) := sse_blocks [] r in (reverse (byte :: last) :: blocks, rest)
      else sse_blocks (byte :: last) r
  end.

(** ** The framer *)

Definition nth_last (n : nat) (last : list Z) : Z := default (-1) (last !! n).

(** The framer's variables describe the bytes [last] of the open block, of which
    those of [segment] are not in the buffer yet. *)
Record tracks (f : Framer) (segment last : list Z) : Prop := {
  tr_bytes : last = reverse (fr_pending f ++ segment);
  tr_previous : fr_previous f = nth_last 0 last;
  tr_second : fr_second f = nth_last 1 last;
  tr_third : fr_third f = nth_last 2 last;
  tr_size : byteLength last <= MAX_RESPONSES_SSE_EVENT_BYTES }.

Lemma max_nonneg : 0 <= MAX_RESPONSES_SSE_EVENT_BYTES.
Proof. done. Qed.
#[local] Opaque MAX_RESPONSES_SSE_EVENT_BYTES.

Lemma tracks_length f segment last : tracks f segment last -> byteLength last = fr_length f + byteLength segment.
Proof. intros []. subst. unfold byteLength, fr_length. rewrite length_reverse, length_app. lia. Qed.

Lemma tracks_fresh : tracks createSseEventFramer [] [].
Proof. by split. Qed.

Lemma append_ok f value :
  fr_length f + byteLength value <= MAX_RESPONSES_SSE_EVENT_BYTES ->
  exists f', append f value = Ok f' /\ fr_pending f' = fr_pending f ++ value
    /\ fr_previous f' = fr_previous f /\ fr_second f' = fr_second f /\ fr_third f' = fr_third f.
Proof.
  intros Hl. unfold append. rewrite (proj2 (Z.ltb_ge _ _) Hl). set (next := fr_length f + byteLength value) in *.
  destruct (Z.ltb_spec (fr_capacity f) next) as [Hc|Hc]; cbn.
  - rewrite (proj2 (Z.ltb_ge _ next)) by lia. eexists. split; [done|]. done.
  - rewrite (proj2 (Z.ltb_ge _ next)) by lia. eexists. split; [done|]. done.
Qed.

Lemma block_ends_boundary f segment last byte :
  tracks f segment last -> isBoundary f byte = block_ends (byte :: last).
Proof.
  intros [_ H0 H1 H2 _]. unfold isBoundary, block_ends. rewrite H0, H1, H2. unfold nth_last.
  destruct last as [|p [|s [|t r]]]; cbn [lookup list_lookup default ends_in];
    destruct (Z.eqb_spec byte 10) as [->|]; try (destruct (Z.eqb_spec byte 13) as [->|]);
    rewrite ?Z.eqb_refl; try done; cbn;
    repeat match goal with |- context [?x =? ?y] => destruct (Z.eqb_spec x y); subst; cbn end; done.
Qed.

Definition framed_as (framed : list text * Result StreamError Framer) (blocks : list (list Z) * option (list Z)) : Prop :=
  framed.1 = TextDecoder_decode <$> blocks.1 /\
  match blocks.2 with
  | None => framed.2 = Err (ResponsesStreamError event_too_large)
  | Some last => exists f, framed.2 = Ok f /\ tracks f [] last
  end.

Lemma tracks_append f segment last :
  tracks f segment last -> exists f', append f segment = Ok f' /\ tracks f' [] last /\ fr_pending f' = reverse last.
Proof.
  intros H. pose proof (tracks_length _ _ _ H) as Hl. destruct H as [Hb H0 H1 H2 Hs].
  destruct (append_ok f segment) as (f' & -> & Hp & E0 & E1 & E2); [lia|]. exists f'. split; [done|]. split.
  - split; rewrite ?E0, ?E1, ?E2; try done. by rewrite Hp, app_nil_r.
  - by rewrite Hb, reverse_involutive, Hp.
Qed.

Lemma tracks_advance f segment last byte :
  tracks f segment last -> byteLength (byte :: last) <= MAX_RESPONSES_SSE_EVENT_BYTES ->
  tracks (advanceBoundaryState f byte) (segment ++ [byte]) (byte :: last).
Proof.
  intros [Hb H0 H1 H2 _] Hs. split; try done.
  change (fr_pending (advanceBoundaryState f byte)) with (fr_pending f).
  by rewrite app_assoc, (reverse_app _ [byte]), <- Hb.
Qed.

(** The boundary byte itself joins the buffer without being tracked. *)
Lemma tracks_block f segment last byte :
  tracks f segment last -> byteLength (byte :: last) <= MAX_RESPONSES_SSE_EVENT_BYTES ->
  exists f', append f (segment ++ [byte]) = Ok f' /\ fr_pending f' = reverse (byte :: last).
Proof.
  intros Hf Hs. destruct (tracks_append _ _ _ (tracks_advance _ _ _ _ Hf Hs)) as (f' & Ha & _ & Hp).
  destruct (append_ok f (segment ++ [byte])) as (f2 & -> & Hp2 & _).
  { pose proof (tracks_length _ _ _ Hf). unfold byteLength in *. rewrite length_app. cbn [length] in *. lia. }
  exists f2. split; [done|]. rewrite Hp2, reverse_cons. destruct Hf as [-> _ _ _ _].
  by rewrite reverse_involutive, app_assoc.
Qed.

Lemma frames_blocks chunk f segment last :
  tracks f segment last -> framed_as (frames_from f segment chunk) (sse_blocks last chunk).
Proof.
  revert f segment last. induction chunk as [|byte r IH]; intros f segment last Hf; cbn [frames_from sse_blocks].
  { split; [done|]. cbn. destruct segment as [|b segment]; [by exists f|].
    destruct (tracks_append _ _ _ Hf) as (f' & -> & Hf' & _). by exists f'. }
  replace (fr_length f + (byteLength segment + 1)) with (byteLength (byte :: last))
    by (pose proof (tracks_length _ _ _ Hf); unfold byteLength in *; cbn [length]; lia).
  destruct (Z.ltb_spec MAX_RESPONSES_SSE_EVENT_BYTES (byteLength (byte :: last))) as [|Hs]; [done|].
  rewrite (block_ends_boundary _ _ _ _ Hf). destruct (block_ends (byte :: last)); cbn [negb].
  - destruct (tracks_block _ _ _ _ Hf Hs) as (f' & -> & Hp). unfold take_block. rewrite Hp.
    assert (tracks (mkFramer [] (fr_capacity f') (-1) (-1) (-1)) [] []) as Hn by by split.
    specialize (IH _ _ _ Hn). destruct (frames_from _ [] r) as [raws result], (sse_blocks [] r) as [blocks rest].
    destruct IH as [H1 H2]. split; [|done]. cbn in *. by rewrite H1.
  - apply IH. by apply tracks_advance.
Qed.

(** ** The generator *)

(** The events of blocks until one is malformed, one is terminal or the consumer
    stops; [inl] is what is left of the demand. *)
Fixpoint reference_events (demand : nat) (raws : list text) : list ResponsesStreamEvent * (nat + Outcome) :=
  match raws with
  | [] => ([], inl demand)
  | raw :: raws =>
      match parseEventBlock raw with
      | Err e => ([], inr (Failed e))
      | Ok None => reference_events demand raws
      | Ok (Some ev) =>
          match demand with
          | O => ([ev], inr Abandoned)
          | S demand =>
              if ev_terminal ev then ([ev], inr Finished)
              else let '(evs, result) := reference_events demand raws in (ev :: evs, result)
          end
      end
  end.

(** The bytes after the last boundary are a block when the stream is done. *)
Definition reference_rest (last : list Z) (ending : option Ending) : list text * Outcome :=
  match ending with
  | None => ([], Waiting)
  | Some ReadDone =>
      (match last with [] => [] | _ => [TextDecoder_decode (reverse last)] end, Failed (ResponsesStreamError premature_eof))
  | Some ReadFailed => ([], Failed OtherError)
  | Some ReadTimedOut => ([], Failed (ResponsesStreamError inactivity_timeout))
  | Some (ActivityFailed e) => ([], Failed e)
  | Some ReadAborted => ([], Failed SignalReason)
  end.

(** The events of the bytes after [last] and of the ending, and the outcome. *)
Definition reference_from (demand : nat) (last bytes : list Z) (ending : option Ending) :
    list ResponsesStreamEvent * Outcome :=
  let '(blocks, rest) := sse_blocks last bytes in
  let '(more, outcome) := match rest with
    | Some last => reference_rest last ending
    | None => ([], Failed (ResponsesStreamError event_too_large))
    end in
  let '(evs, result) := reference_events demand ((TextDecoder_decode <$> blocks) ++ more) in
  (evs, match result with inl _ => outcome | inr stop => stop end).

Definition reference_read (demand : nat) (bytes : list Z) (ending : option Ending) (aborted : bool) :
    list ResponsesStreamEvent * Outcome :=
  let '(evs, outcome) := reference_from demand [] bytes ending in
  (evs, match outcome with Failed e => Failed (rethrown aborted e) | _ => outcome end).

Lemma takeEvents_reference raws p :
  (takeEvents raws p).1 = (reference_events (pg_demand p) raws).1 /\
  match (takeEvents raws p).2, (reference_events (pg_demand p) raws).2 with
  | inl p', inl demand => pg_demand p' = demand /\ ss_framer (pg_session p') = ss_framer (pg_session p)
                          /\ ss_readerDone (pg_session p') = ss_readerDone (pg_session p)
  | inr stop, inr outcome => stop.2 = outcome
  | _, _ => False
  end.
Proof.
  revert p. induction raws as [|raw raws IH]; intros p; [done|]. cbn [takeEvents reference_events].
  destruct (parseEventBlock raw) as [e|[ev|]]; [done| |apply IH]. unfold yield_event.
  destruct (pg_demand p) as [|demand]; [done|]. destruct (ev_terminal ev) eqn:Ht; [done|].
  specialize (IH (mkProgress (markParsedEvent ev (pg_session p)) demand)). cbn in IH.
  destruct (takeEvents raws _) as [evs result], (reference_events demand raws) as [evs' result']. cbn in *.
  destruct IH as [-> IH]. split; [done|]. unfold markParsedEvent in IH. rewrite Ht in IH. exact IH.
Qed.

Lemma reference_events_app demand raws raws' :
  reference_events demand (raws ++ raws')
  = let '(evs, result) := reference_events demand raws in
    match result with
    | inr stop => (evs, inr stop)
    | inl demand => let '(more, result) := reference_events demand raws' in (evs ++ more, result)
    end.
Proof.
  revert demand. induction raws as [|raw raws IH]; intros demand; cbn [app reference_events]; [by destruct (reference_events demand raws')|].
  destruct (parseEventBlock raw) as [e|[ev|]]; [done| |apply IH]. destruct demand as [|demand]; [done|].
  destruct (ev_terminal ev); [done|]. rewrite IH. destruct (reference_events demand raws) as [evs [d|stop]]; [|done].
  by destruct (reference_events d raws').
Qed.

Lemma sse_blocks_app last bytes bytes' :
  sse_blocks last (bytes ++ bytes')
  = let '(blocks, rest) := sse_blocks last bytes in
    match rest with
    | None => (blocks, None)
    | Some last => let '(more, rest) := sse_blocks last bytes' in (blocks ++ more, rest)
    end.
Proof.
  revert last. induction bytes as [|b bytes IH]; intros last; cbn [app sse_blocks]; [by destruct (sse_blocks last bytes')|].
  destruct (_ <? _); [done|]. destruct (block_ends _); [|apply IH]. rewrite IH.
  destruct (sse_blocks [] bytes) as [blocks [l|]]; [|done]. by destruct (sse_blocks l bytes').
Qed.

Definition reads_of (chunks : list (list Z)) (ending : option Ending) : list Read :=
  (ReadChunk <$> chunks) ++ match ending with Some e => [ReadEnds e] | None => [] end.

Definition observed (r : list ResponsesStreamEvent * (Session * Outcome)) : list ResponsesStreamEvent * Outcome := (r.1, r.2.2).

Lemma finish_reference p last :
  tracks (ss_framer (pg_session p)) [] last ->
  observed (finish_stream p) = reference_from (pg_demand p) last [] (Some ReadDone).
Proof.
  intros Hf. unfold finish_stream, takeTrailingEvent, reference_from. cbn [sse_blocks reference_rest fmap list_fmap app].
  pose proof (tracks_length _ _ _ Hf) as Hl. destruct Hf as [Hb _ _ _ _]. rewrite app_nil_r in Hb.
  unfold byteLength in Hl at 2. cbn [length] in Hl.
  destruct (Z.leb_spec (fr_length (ss_framer (pg_session p))) 0) as [Hz|Hz].
  - assert (last = []) as -> by (destruct last; [done|]; unfold byteLength in Hl; cbn [length] in Hl; lia). done.
  - destruct last as [|b last]; [unfold byteLength in Hl; cbn [length] in Hl; lia|]. unfold take_block.
    replace (fr_pending _) with (reverse (b :: last)) by by rewrite Hb, reverse_involutive.
    cbn [reference_events]. destruct (parseEventBlock _) as [e|[ev|]]; [done| |done].
    unfold yield_event. cbn [pg_demand]. destruct (pg_demand p); [done|]. by destruct (ev_terminal ev).
Qed.

Lemma consume_reference chunks p last ending :
  tracks (ss_framer (pg_session p)) [] last ->
  observed (consume p (reads_of chunks ending)) = reference_from (pg_demand p) last (concat chunks) ending.
Proof.
  revert p last. induction chunks as [|bytes chunks IH]; intros p last Hf.
  { destruct ending as [[]|]; cbn [reads_of fmap list_fmap app consume end_stream concat]; try done.
    destruct p as [[f rd cs sw] d]. exact (finish_reference (mkProgress (mkSession f true cs sw) d) last Hf). }
  change (reads_of (bytes :: chunks) ending) with (ReadChunk bytes :: reads_of chunks ending). cbn [consume concat].
  unfold reference_from. rewrite sse_blocks_app.
  destruct (frames_blocks bytes _ _ _ Hf) as [Hraws Hrest]. unfold frames.
  destruct (frames_from _ [] bytes) as [raws framed], (sse_blocks last bytes) as [blocks rest]. cbn [fst snd] in *. subst raws.
  pose proof (takeEvents_reference (TextDecoder_decode <$> blocks) p) as [Hevs Hres].
  destruct (takeEvents _ p) as [evs [p'|stop]], (reference_events (pg_demand p) (TextDecoder_decode <$> blocks)) as [evs' [d|outcome]] eqn:He;
    cbn [fst snd] in *; try done; subst evs'.
  - destruct Hres as (Hd & Hfr & _). destruct rest as [last'|].
    + destruct Hrest as (f' & -> & Hf').
      destruct p' as [[f rd cs sw] d']. specialize (IH (mkProgress (mkSession f' rd cs sw) d') last' Hf'). cbn in Hd.
      unfold reference_from in IH. destruct (sse_blocks last' (concat chunks)) as [more rest].
      destruct (match rest with Some last => _ | None => _ end) as [tail outcome].
      rewrite fmap_app, <- app_assoc, reference_events_app, He. subst d'. cbn [pg_demand] in IH.
      destruct (reference_events d _) as [evs2 result2].
      change (consume _ (reads_of chunks ending)) with (consume (mkProgress (mkSession f' rd cs sw) d) (reads_of chunks ending)).
      destruct (consume _ (reads_of chunks ending)) as [evs3 stop]. unfold observed in IH |- *. cbn [fst snd] in IH |- *.
      by injection IH as -> ->.
    + rewrite Hrest, app_nil_r, He. done.
  - assert (forall more, reference_events (pg_demand p) ((TextDecoder_decode <$> blocks) ++ more) = (evs, inr outcome)) as Hstop.
    { intros more. by rewrite reference_events_app, He. }
    destruct rest as [last'|]; [|rewrite app_nil_r, He; unfold observed; cbn; by rewrite Hres].
    destruct (sse_blocks last' _) as [more rest]. destruct (match rest with Some last => _ | None => _ end) as [tail outcome'].
    rewrite fmap_app, <- app_assoc, Hstop. unfold observed. cbn. by rewrite Hres.
Qed.

Lemma sse_reads_reference demand chunks ending aborted :
  observed (readResponsesStream demand (reads_of chunks ending) aborted)
  = reference_read demand (concat chunks) ending aborted.
Proof.
  unfold readResponsesStream, reference_read.
  pose proof (consume_reference chunks (mkProgress createResponsesStreamSession demand) [] ending tracks_fresh) as H.
  cbn [pg_demand] in H. rewrite <- H. destruct (consume _ _) as [evs [s outcome]]. unfold observed. cbn. by destruct outcome.
Qed.

(** ** What the generator promises to its consumers *)

(** An event as the parser and the rewriters make it. *)
Definition event_ok (ev : ResponsesStreamEvent) : Prop :=
  ev_terminal ev = terminal_type (ev_type ev) /\ trimmed (field "type" (ev_value ev)) = Some (ev_type ev).

Lemma parseEventBlock_ok raw ev :
  parseEventBlock raw = Ok (Some ev) ->
  event_ok ev /\ normal_object (ev_value ev) /\ invalid_terminal (ev_type ev) (ev_value ev) = false.
Proof.
  unfold parseEventBlock. destruct (omap data_line _) as [|d ds]; [done|].
  destruct (JSON_parse_value _) as [v|] eqn:Hv; [|done]. destruct v as [| | | | |value]; try done.
  destruct (trimmed (field "type" value)) as [type|] eqn:Ht; [|done].
  destruct (invalid_terminal type value) eqn:Hi; [done|]. intros [= <-]. split_and!; [done| |done].
  unfold JSON_parse_value in Hv. destruct (JSON_parse _) as [w|]; [|done]. injection Hv as Hv.
  pose proof (js_value_normal w) as [H _]. by rewrite Hv in H.
Qed.

(** Only the last event of a list is terminal. *)
Fixpoint terminal_last (evs : list ResponsesStreamEvent) : Prop :=
  match evs with [] => True | ev :: evs => (evs = [] \/ ev_terminal ev = false) /\ terminal_last evs end.

Definition ends_terminal (evs : list ResponsesStreamEvent) : Prop := exists ev, last evs = Some ev /\ ev_terminal ev = true.

Lemma reference_events_sound demand raws :
  let '(evs, result) := reference_events demand raws in
  Forall event_ok evs /\ terminal_last evs
  /\ match result with
     | inl _ | inr (Failed _) => Forall (fun ev => ev_terminal ev = false) evs
     | inr Finished => ends_terminal evs
     | inr _ => True
     end.
Proof.
  revert demand. induction raws as [|raw raws IH]; intros demand; [done|]. cbn [reference_events].
  destruct (parseEventBlock raw) as [e|[ev|]] eqn:He; [done| |apply IH]. apply parseEventBlock_ok in He as [He _].
  destruct demand as [|demand]; [split_and!; [by constructor|split; [by left|done]|done]|].
  destruct (ev_terminal ev) eqn:Ht; [split_and!; [by constructor|split; [by left|done]|by exists ev]|].
  specialize (IH demand). destruct (reference_events demand raws) as [evs result]. destruct IH as (H1 & H2 & H3).
  split_and!; [by constructor|split; [by right|done]|]. destruct result as [|[]]; try done; [by constructor| |by constructor].
  destruct H3 as (e & Hl & He'). exists e. split; [|done]. destruct evs; [done|]. exact Hl.
Qed.

(** The reader is not left behind: when the generator is over, the upstream is
    done or was cancelled. *)
Definition released (s : Session) : bool := ss_readerDone s || ss_cancelStarted s.

Lemma cancel_released s : released (cancelReaderOnce s) = true.
Proof. unfold cancelReaderOnce, released. destruct (ss_cancelStarted s) eqn:E, (ss_readerDone s) eqn:E'; cbn; by rewrite ?E, ?E'. Qed.

Lemma dispose_released s : released (dispose s) = true.
Proof. unfold dispose. destruct (ss_readerDone s) eqn:E; [unfold released; by rewrite E|apply cancel_released]. Qed.

Lemma reference_read_sound demand bytes ending aborted :
  let '(events, outcome) := reference_read demand bytes ending aborted in
  Forall event_ok events /\ terminal_last events
  /\ (outcome = Finished -> ends_terminal events)
  /\ (forall e, outcome = Failed e -> Forall (fun ev => ev_terminal ev = false) events).
Proof.
  unfold reference_read, reference_from. destruct (sse_blocks [] _) as [blocks rest].
  assert (Hrest : forall more o, match rest with Some last => reference_rest last ending | None => ([], Failed (ResponsesStreamError event_too_large)) end
    = (more, o) -> o <> Finished).
  { intros more o Ho. destruct rest as [last|]; [|by injection Ho as <- <-]. destruct ending as [[]|]; by injection Ho as <- <-. }
  destruct (match rest with Some last => _ | None => _ end) as [more o]. specialize (Hrest more o eq_refl).
  pose proof (reference_events_sound demand ((TextDecoder_decode <$> blocks) ++ more)) as Hsound.
  destruct (reference_events _ _) as [evs result]. destruct Hsound as (H1 & H2 & H3). split_and!; [done|done| |].
  - destruct result as [d|[]]; try done. by destruct o.
  - intros e. by destruct result as [d|[]].
Qed.

(** C11: Reading does not depend on how the network cut the bytes.  For every
    sequence of chunks and every way the reads end, the events and the outcome
    of [readResponsesStream] are those of the whole byte stream cut at its empty
    lines: an event is too large by its own size alone, the trailing block of a
    stream that ends is an event too, and the growing buffer never overflows.
    Only the last event can be terminal, and it is when the stream finished;
    a stream that failed had no terminal event; and once the generator is over, the upstream reader is done or cancelled. *)
Theorem sse_reads_exact demand chunks ending aborted :
  let '(events, (session, outcome)) := readResponsesStream demand (reads_of chunks ending) aborted in
  (events, outcome) = reference_read demand (concat chunks) ending aborted
  /\ Forall event_ok events /\ terminal_last events
  /\ (outcome = Finished -> ends_terminal events)
  /\ (forall e, outcome = Failed e -> Forall (fun ev => ev_terminal ev = false) events)
  /\ (outcome <> Waiting -> released session = true).
Proof.
  pose proof (sse_reads_reference demand chunks ending aborted) as H. unfold observed in H.
  pose proof (reference_read_sound demand (concat chunks) ending aborted) as Hsound. rewrite <- H in Hsound.
  destruct (readResponsesStream _ _ _) as [events [session outcome]] eqn:E. cbn [fst snd] in H, Hsound.
  destruct Hsound as (H1 & H2 & H3 & H4). split_and!; try done.
  intros Hw. unfold readResponsesStream in E. destruct (consume _ _) as [evs' [s stop]]. injection E as _ E. unfold close_session in E.
  destruct stop; injection E as <- Eo; try apply dispose_released. by rewrite <- Eo in Hw.
Qed.
