(* ===== verification/ResponsesEvents.v ===== *)
(** * Responses events

    The first half of [src/responses-failover-stream.ts]: which events carry
    output the client can see, which report progress, the buffer that holds a
    provider's events until one of them owns the attempt, and the events the
    gateway rewrites or writes itself.  A JSON value that may be [undefined] is
    an [option json]; a classification that may be undecided is an option of an
    option. *)

From Stdlib Require Import ZArith QArith Lia.
From stdpp Require Import base strings option list.
From S2P Require Import Prelude Js JsonText JsonScan WebText JsonPrint SseStream.
Open Scope string_scope.
Open Scope list_scope.
Open Scope Z_scope.

Inductive ResponsesSemanticKind := KText | KToolCall.

#[export] Instance ResponsesSemanticKind_eq_dec : EqDecision ResponsesSemanticKind.
Proof. solve_decision. Defined.

Definition MAX_RESPONSES_PRECOMMIT_EVENTS : Z := 10000.
Definition MAX_RESPONSES_PRECOMMIT_CHARS : Z := 32 * 1024 * 1024.

Definition one_of (type : text) (names : list string) : bool := bool_decide (type ∈ text_of <$> names).
Definition is_type (type : text) (name : string) : bool := bool_decide (type = text_of name).

Definition textTypes : list string := ["response.output_text.delta"; "response.output_text.done"].
Definition refusalTypes : list string := ["response.refusal.delta"; "response.refusal.done"].

Definition reasoningTextProgressField (type : text) : option string :=
  if one_of type ["response.reasoning_summary_text.delta"; "response.reasoning_text.delta"] then Some "delta"
  else if one_of type ["response.reasoning_summary_text.done"; "response.reasoning_text.done"] then Some "text"
  else None.

Definition reasoningSummaryPartProgressTypes : list string :=
  ["response.reasoning_summary_part.added"; "response.reasoning_summary_part.done"].
Definition executableToolTypes : list string := ["function_call"; "custom_tool_call"].
Definition hostedToolTypes : list string :=
  ["code_interpreter_call"; "computer_call"; "file_search_call"; "image_generation_call"; "mcp_call"; "web_search_call"].
Definition hostedToolTerminalEventTypes : list text :=
  lifecycle ← [".completed"; ".in_progress"; ".failed"];
  (fun type => text_of "response." ++ text_of type ++ text_of lifecycle) <$> hostedToolTypes.
Definition isHostedToolEvent (type : text) : bool := bool_decide (type ∈ hostedToolTerminalEventTypes).
Definition imagePartialEventType : string := "response.image_generation_call.partial_image".

(** ** Classification *)

Definition nonEmptyString (v : option json) : bool :=
  match getString v with Some (_ :: _) => true | _ => false end.
Definition nonEmptyText (value : object) : bool := nonEmptyString (field "delta" value) || nonEmptyString (field "text" value).
Definition is_string (v : option json) : bool := match getString v with Some _ => true | None => false end.

(** [v === name]. *)
Definition equals (v : option json) (name : string) : bool := bool_decide (getString v = Some (text_of name)).
Definition one_of_value (v : option json) (names : list string) : bool :=
  match getString v with Some type => one_of type names | None => false end.

Definition executableToolCallKind (item : object) : option ResponsesSemanticKind :=
  if negb (one_of_value (field "type" item) executableToolTypes) then None
  else if negb (nonblank (field "call_id" item)) || negb (nonblank (field "name" item)) then None
  else if equals (field "type" item) "function_call"
  then if is_string (field "arguments" item) then Some KToolCall else None
  else if is_string (field "input" item) then Some KToolCall else None.

Definition hostedToolItemKind (item : object) : option ResponsesSemanticKind :=
  if negb (one_of_value (field "type" item) hostedToolTypes) then None
  else if negb (one_of_value (field "status" item) ["in_progress"; "completed"; "failed"]) then None
  else Some KToolCall.

Definition contentPartSemanticKind (part : object) : option ResponsesSemanticKind :=
  if one_of_value (field "type" part) ["output_text"; "text"] && nonEmptyString (field "text" part) then Some KText
  else if equals (field "type" part) "refusal" && nonEmptyString (field "refusal" part) then Some KText
  else None.

(** An array has no [type], so only objects count. *)
Definition outputContentPartHasText (part : json) : bool :=
  match part with
  | JsObject part =>
      (one_of_value (field "type" part) ["output_text"; "text"] && nonEmptyString (field "text" part))
      || (equals (field "type" part) "refusal" && nonEmptyString (field "refusal" part))
  | _ => false
  end.

Definition semanticKindFromOutputItem (item : json) (ignoredOutputItemId : option text) : option ResponsesSemanticKind :=
  match item with
  | JsObject item =>
      if match ignoredOutputItemId with
         | Some ignored => bool_decide (trim_text <$> getString (field "id" item) = Some ignored)
         | None => false
         end then None
      else match executableToolCallKind item with
           | Some kind => Some kind
           | None =>
               match hostedToolItemKind item with
               | Some kind => Some kind
               | None =>
                   if equals (field "type" item) "reasoning" then None else
                   match field "content" item with
                   | Some (JsArray content) => if existsb outputContentPartHasText content then Some KText else None
                   | _ => None
                   end
               end
           end
  | _ => None
  end.

Definition semanticKindFromOutput (output : option json) (ignoredOutputItemId : option text) : option ResponsesSemanticKind :=
  match output with
  | Some (JsArray items) => head (omap (fun item => semanticKindFromOutputItem item ignoredOutputItemId) items)
  | _ => None
  end.

Definition imagePartialSemanticKind (value : object) : option ResponsesSemanticKind :=
  if existsb (fun key => nonEmptyString (field key value)) ["partial_image_b64"; "partial_image"; "result"]
  then Some KToolCall else None.

Definition textBearingEventSemanticKind (event : ResponsesStreamEvent) : option (option ResponsesSemanticKind) :=
  let value := ev_value event in
  if one_of (ev_type event) textTypes then Some (if nonEmptyText value then Some KText else None)
  else if one_of (ev_type event) refusalTypes
  then Some (if nonEmptyText value || nonEmptyString (field "refusal" value) then Some KText else None)
  else if negb (is_type (ev_type event) "response.content_part.done") then None
  else part ← as_object (field "part" value); kind ← contentPartSemanticKind part; Some (Some kind).

Definition directResponsesEventSemanticKind (event : ResponsesStreamEvent) : option (option ResponsesSemanticKind) :=
  match textBearingEventSemanticKind event with
  | Some kind => Some kind
  | None =>
      if isHostedToolEvent (ev_type event) then Some (Some KToolCall)
      else if is_type (ev_type event) imagePartialEventType then Some (imagePartialSemanticKind (ev_value event))
      else None
  end.

Definition outputItemEventSemanticKind (event : ResponsesStreamEvent) (item : object) (ignoredOutputItemId : option text) :
    option ResponsesSemanticKind :=
  if is_type (ev_type event) "response.output_item.done" && one_of_value (field "type" item) executableToolTypes
  then executableToolCallKind item
  else if one_of_value (field "type" item) hostedToolTypes
  then semanticKindFromOutput (Some (JsArray [JsObject item])) ignoredOutputItemId
  else if is_type (ev_type event) "response.output_item.added" then None
  else semanticKindFromOutput (Some (JsArray [JsObject item])) ignoredOutputItemId.

Definition isOutputItemEvent (type : text) : bool := one_of type ["response.output_item.added"; "response.output_item.done"].

(** An array is a record, but has no type and no output. *)
Definition outputItemResponsesEventSemanticKind (event : ResponsesStreamEvent) (ignoredOutputItemId : option text) :
    option (option ResponsesSemanticKind) :=
  if negb (isOutputItemEvent (ev_type event)) then None else
  match field "item" (ev_value event) with
  | Some (JsObject item) => Some (outputItemEventSemanticKind event item ignoredOutputItemId)
  | Some (JsArray _) => Some None
  | _ => None
  end.

Definition outputPayloadSemanticKind (event : ResponsesStreamEvent) (ignoredOutputItemId : option text) :
    option ResponsesSemanticKind :=
  match as_object (field "response" (ev_value event)) with
  | Some response => semanticKindFromOutput (field "output" response) ignoredOutputItemId
  | None => semanticKindFromOutput (field "output" (ev_value event)) ignoredOutputItemId
  end.

Definition responsesEventSemanticKindWithIgnoredOutputItem (event : ResponsesStreamEvent) (ignoredOutputItemId : option text) :
    option ResponsesSemanticKind :=
  match directResponsesEventSemanticKind event with
  | Some kind => kind
  | None =>
      match outputItemResponsesEventSemanticKind event ignoredOutputItemId with
      | Some kind => kind
      | None => outputPayloadSemanticKind event ignoredOutputItemId
      end
  end.

Definition responsesEventSemanticKind (event : ResponsesStreamEvent) : option ResponsesSemanticKind :=
  responsesEventSemanticKindWithIgnoredOutputItem event None.

Definition responsesPayloadHasAnswerBearingOutput (payload : object) : bool :=
  match semanticKindFromOutput (field "output" payload) None with Some _ => true | None => false end.

(** ** Progress *)

(** A number that is a safe integer of at least zero. *)
Definition index_of (v : option json) : option Z :=
  match v with Some (JsNumber n) => z ← safe_integer n; if 0 <=? z then Some z else None | _ => None end.
Definition is_index (v : option json) : bool := match index_of v with Some _ => true | None => false end.

Definition reasoning_item (event : ResponsesStreamEvent) : option object :=
  if isOutputItemEvent (ev_type event) then
    item ← as_object (field "item" (ev_value event)); if equals (field "type" item) "reasoning" then Some item else None
  else None.

Definition responsesEventReportsProgress (event : ResponsesStreamEvent) : bool :=
  let value := ev_value event in
  match reasoningTextProgressField (ev_type event) with
  | Some key =>
      let summary := match after_prefix (text_of "response.reasoning_summary_") (ev_type event) with Some _ => true | None => false end in
      nonEmptyString (field key value) && is_index (field (if summary then "summary_index" else "content_index") value)
  | None =>
      if one_of (ev_type event) reasoningSummaryPartProgressTypes then is_index (field "summary_index" value)
      else match reasoning_item event with
           | Some item => nonblank (field "id" item) && (is_array (field "summary" item) || is_array (field "content" item))
           | None => false
           end
  end.

(** [String(value)] of the index of an event that reports progress, a number. *)
Definition index_text (v : option json) : text := match v with Some (JsNumber n) => number_text n | _ => [] end.

Definition reasoningLifecycleProgressKey (event : ResponsesStreamEvent) : option text :=
  if one_of (ev_type event) reasoningSummaryPartProgressTypes
  then Some (ev_type event ++ 58 :: default [] (getString (field "item_id" (ev_value event)))
             ++ 58 :: index_text (field "summary_index" (ev_value event)))
  else item ← reasoning_item event; itemId ← trimmed (field "id" item); Some (ev_type event ++ 58 :: itemId).

(** ** The buffer before the commit *)

(** What the iterator answers. *)
Inductive Upstream := UpEvent (event : ResponsesStreamEvent) | UpEnd | UpError (e : StreamError).

Record PreparedResponsesStream := mkPrepared {
  pr_buffered : list ResponsesStreamEvent;
  pr_bufferedChars : Z;
  pr_semantic : option ResponsesStreamEvent;
  pr_semanticKind : option ResponsesSemanticKind;
  pr_terminal : option ResponsesStreamEvent }.

(** Before it returns a stream it may also throw (after the iterator has been
    returned), or wait for the iterator. *)
Inductive Preparation := Prepared (stream : PreparedResponsesStream) | PrepareFailed (e : StreamError) | Preparing.

Definition text_length (l : text) : Z := Z.of_nat (length l).

Definition appendResponsesPrecommitEvent (buffered : list ResponsesStreamEvent) (event : ResponsesStreamEvent) (bufferedChars : Z) :
    Result StreamError (list ResponsesStreamEvent * Z) :=
  let nextChars := bufferedChars + text_length (ev_raw event) in
  if (MAX_RESPONSES_PRECOMMIT_EVENTS <=? Z.of_nat (length buffered)) || (MAX_RESPONSES_PRECOMMIT_CHARS <? nextChars)
  then Err (ResponsesStreamError event_too_large)
  else Ok (buffered ++ [event], nextChars).

Section prepare.
(** The callbacks: [Some] is what they throw. *)
Context (onEvent onProgress : ResponsesStreamEvent -> option StreamError) (releaseOnProgress : bool).

(** Whether to release the stream, with the keys reported so far. *)
Definition reportProgressOnce (event : ResponsesStreamEvent) (reported : list text) : Result StreamError (bool * list text) :=
  if negb (responsesEventReportsProgress event) then Ok (false, reported) else
  let lifecycleKey := reasoningLifecycleProgressKey event in
  if match lifecycleKey with Some key => bool_decide (key ∈ reported) | None => false end then Ok (false, reported) else
  let reported := match lifecycleKey with Some key => key :: reported | None => reported end in
  match onProgress event with Some e => Err e | None => Ok (releaseOnProgress, reported) end.

Fixpoint prepare_loop (buffered : list ResponsesStreamEvent) (bufferedChars : Z) (reported : list text) (upstream : list Upstream) : Preparation :=
  match upstream with
  | [] => Preparing
  | UpEnd :: _ => PrepareFailed (ResponsesStreamError premature_eof)
  | UpError e :: _ => PrepareFailed e
  | UpEvent event :: upstream =>
      match appendResponsesPrecommitEvent buffered event bufferedChars with
      | Err e => PrepareFailed e
      | Ok (buffered, bufferedChars) =>
          match onEvent event with
          | Some e => PrepareFailed e
          | None =>
              match reportProgressOnce event reported with
              | Err e => PrepareFailed e
              | Ok (true, _) => Prepared (mkPrepared buffered bufferedChars None None None)
              | Ok (false, reported) =>
                  match responsesEventSemanticKind event with
                  | Some kind =>
                      Prepared (mkPrepared buffered bufferedChars (Some event) (Some kind) (if ev_terminal event then Some event else None))
                  | None =>
                      if ev_terminal event then Prepared (mkPrepared buffered bufferedChars None None (Some event))
                      else prepare_loop buffered bufferedChars reported upstream
                  end
              end
          end
      end
  end.

Definition prepareResponsesStreamForCommit (upstream : list Upstream) : Preparation := prepare_loop [] 0 [] upstream.
End prepare.

(** ** Events the gateway writes *)

(** An object literal. *)
Definition literal (properties : list (string * json)) : object :=
  foldl (fun o p => own_set (text_of (fst p)) (snd p) o) [] properties.
Definition assign (key : string) (v : json) (o : object) : object := own_set (text_of key) v o.
Definition str (s : string) : json := JsString (text_of s).

Definition sseRaw (value : object) : text :=
  text_of "event: " ++ default (text_of "message") (getString (field "type" value)) ++ 10 :: text_of "data: "
  ++ JSON_stringify (JsObject value) ++ [10; 10].

Definition responseEventFromValue (value : object) : Result StreamError ResponsesStreamEvent :=
  match trimmed (field "type" value) with
  | None => Err (ResponsesStreamError malformed_event)
  | Some type => Ok (mkEvent (sseRaw value) value type (terminal_type type))
  end.

Definition incrementOutputIndex (v : json) : json :=
  match index_of (Some v) with Some z => js_int (z + 1) | None => v end.

Definition withResponseOutputPrefix (response warningItem : object) : object :=
  assign "output" (JsArray (JsObject warningItem :: match field "output" response with Some (JsArray items) => items | _ => [] end)) response.

(** [{...event.value}] has the properties of the event in their order. *)
Definition rewriteResponsesEventForWarning (event : ResponsesStreamEvent) (warningItem : object) (sequenceNumber : Z) :
    Result StreamError ResponsesStreamEvent :=
  let value := assign "sequence_number" (js_int sequenceNumber) (ev_value event) in
  let value := match field "output_index" value with Some v => assign "output_index" (incrementOutputIndex v) value | None => value end in
  let value :=
    if one_of (ev_type event) ["response.completed"; "response.failed"; "response.incomplete"] then
      match as_object (field "response" value) with
      | Some response => assign "response" (JsObject (withResponseOutputPrefix response warningItem)) value
      | None => value
      end
    else value in
  responseEventFromValue value.

Definition rewriteResponsesEventSequence (event : ResponsesStreamEvent) (sequenceNumber : Z) : Result StreamError ResponsesStreamEvent :=
  responseEventFromValue (assign "sequence_number" (js_int sequenceNumber) (ev_value event)).

(** ** The failover warning *)

Definition FAILOVER_WARNING_ID_PREFIX : text := text_of "msg_failover_".
Definition FAILOVER_WARNING_PREFIX : text := 9888 :: text_of " Failover active: this response is from `removed_provider:".
Definition FAILOVER_WARNING_SUFFIX : text := text_of "` because the Codex upstream was unavailable.".
Definition failoverWarningText (actualModel : text) : text := FAILOVER_WARNING_PREFIX ++ actualModel ++ FAILOVER_WARNING_SUFFIX.

Definition starts_with (prefix l : text) : bool := match after_prefix prefix l with Some _ => true | None => false end.

Definition isGatewayFailoverWarningItem (v : option json) : bool :=
  match as_object v with
  | None => false
  | Some value =>
      equals (field "type" value) "message" && equals (field "role" value) "assistant"
      && match getString (field "id" value) with Some id => starts_with FAILOVER_WARNING_ID_PREFIX id | None => false end
      && match field "content" value with
         | Some (JsArray [JsObject content]) =>
             equals (field "type" content) "output_text"
             && match getString (field "text" content) with
                | Some text =>
                    starts_with FAILOVER_WARNING_PREFIX text && starts_with (reverse FAILOVER_WARNING_SUFFIX) (reverse text)
                    && (text_length FAILOVER_WARNING_PREFIX + text_length FAILOVER_WARNING_SUFFIX <? text_length text)
                | None => false
                end
         | _ => false
         end
  end.

(** [uuid] is what [crypto.randomUUID()] returns. *)
Definition without_dashes (uuid : text) : text := List.filter (fun c => negb (c =? 45)) uuid.

Definition warning_content (model : text) : json :=
  JsObject (literal [("type", str "output_text"); ("text", JsString (failoverWarningText model)); ("annotations", JsArray [])]).

Definition warning_item (itemId model : text) : object :=
  literal [("id", JsString itemId); ("type", str "message"); ("status", str "completed"); ("role", str "assistant");
           ("content", JsArray [warning_content model])].

Definition warning_values (itemId model responseId : text) : list object :=
  let place := [("response_id", JsString responseId); ("item_id", JsString itemId); ("output_index", js_int 0); ("content_index", js_int 0)] in
  let item := warning_item itemId model in
  [ literal [("type", str "response.output_item.added"); ("response_id", JsString responseId); ("output_index", js_int 0);
             ("item", JsObject (assign "content" (JsArray []) (assign "status" (str "in_progress") item)))];
    literal (("type", str "response.content_part.added") :: place
             ++ [("part", JsObject (literal [("type", str "output_text"); ("text", str ""); ("annotations", JsArray [])]))]);
    literal (("type", str "response.output_text.delta") :: place ++ [("delta", JsString (failoverWarningText model))]);
    literal (("type", str "response.output_text.done") :: place ++ [("text", JsString (failoverWarningText model))]);
    literal (("type", str "response.content_part.done") :: place ++ [("part", warning_content model)]);
    literal [("type", str "response.output_item.done"); ("response_id", JsString responseId); ("output_index", js_int 0);
             ("item", JsObject item)] ].

(** Values written with consecutive sequence numbers. *)
Fixpoint numbered_events (values : list object) (sequenceNumber : Z) : Result StreamError (list ResponsesStreamEvent) :=
  match values with
  | [] => Ok []
  | value :: values =>
      event ← responseEventFromValue (assign "sequence_number" (js_int sequenceNumber) value);
      events ← numbered_events values (sequenceNumber + 1); Ok (event :: events)
  end.

Definition buildFailoverWarningEvents (uuid actualModel responseId : text) (startingSequenceNumber : Z) :
    Result StreamError (object * list ResponsesStreamEvent) :=
  let itemId := FAILOVER_WARNING_ID_PREFIX ++ without_dashes uuid in
  events ← numbered_events (warning_values itemId actualModel responseId) startingSequenceNumber;
  Ok (warning_item itemId actualModel, events).

(** ** Identities and failures *)

Definition idsFromEvent (event : ResponsesStreamEvent) : list text :=
  option_list (trimmed (field "response_id" (ev_value event)))
  ++ option_list (response ← as_object (field "response" (ev_value event)); trimmed (field "id" response)).

Fixpoint merge_ids (responseId : option text) (ids : list text) : Result StreamError (option text) :=
  match ids with
  | [] => Ok responseId
  | candidate :: ids =>
      if match responseId with Some id => negb (bool_decide (id = candidate)) | None => false end
      then Err (ResponsesStreamError malformed_event) else merge_ids (Some candidate) ids
  end.

Definition responseIdFromEvents (events : list ResponsesStreamEvent) : Result StreamError (option text) :=
  merge_ids None (events ≫= idsFromEvent).

Definition failureEventAfterCommit (responseId : text) (sequenceNumber : Z) (output : list object) (responseTemplate : object) :
    Result StreamError ResponsesStreamEvent :=
  let response :=
    assign "output" (JsArray (JsObject <$> output))
      (assign "error" (JsObject (literal [("code", str "server_error"); ("message", str "The upstream stream ended unexpectedly.")]))
        (assign "status" (str "failed")
          (assign "object" (JsString (default (text_of "response") (getString (field "object" responseTemplate))))
            (assign "id" (JsString responseId) responseTemplate)))) in
  responseEventFromValue (literal [("type", str "response.failed"); ("sequence_number", js_int sequenceNumber); ("response", JsObject response)]).

Definition errorEventAfterCommit (sequenceNumber : Z) : Result StreamError ResponsesStreamEvent :=
  responseEventFromValue (literal [("type", str "error"); ("sequence_number", js_int sequenceNumber); ("code", str "server_error");
    ("message", str "The upstream stream ended unexpectedly."); ("param", JsNull)]).

Definition emptyCompletionEventAfterCommit (sequenceNumber : Z) : Result StreamError ResponsesStreamEvent :=
  responseEventFromValue (literal [("type", str "error"); ("sequence_number", js_int sequenceNumber); ("code", str "empty_upstream_completion");
    ("message", str "Upstream response completed with no translated semantic output."); ("param", JsNull)]).
