(* ===== verification/SseRoundTrip.v ===== *)
(** * What the gateway writes, a reader of the protocol reads

    The events of [responseEventFromValue], encoded, cut into chunks in any way
    and read by [readResponsesStream], are those events.  (The gateway does read
    its own stream: [src/responses-buffered.ts] collects the failover stream this
    way.) *)

From Stdlib Require Import ZArith QArith Lia.
From stdpp Require Import base strings option list.
From S2P Require Import Prelude Js JsonText JsonScan WebText JsonPrint JsonRoundTrip SseStream SseFraming ResponsesEvents.
Open Scope string_scope.
Open Scope list_scope.
Open Scope Z_scope.

(** ** Text without line breaks *)

Definition unbroken (l : text) : Prop := Forall (fun c => c <> 10 /\ c <> 13) l.
Definition clean (l : text) : Prop := unbroken l /\ well_formed l = true.

Lemma well_formed_app a b : well_formed a = true -> well_formed b = true -> well_formed (a ++ b) = true.
Proof.
  remember (length a) as n eqn:Hn. revert a Hn. induction n as [n IH] using lt_wf_ind. intros a -> Ha Hb.
  destruct a as [|c a]; [done|]. cbn [well_formed app] in *. apply andb_true_iff in Ha as [Hc Ha]. rewrite Hc. cbn [andb].
  destruct (high_surrogate c).
  - destruct a as [|d a]; [done|]. apply andb_true_iff in Ha as [Hd Ha]. cbn [app]. rewrite Hd. cbn [andb].
    apply (IH (length a)); [cbn; lia|done..].
  - apply andb_true_iff in Ha as [Hl Ha]. rewrite Hl. cbn [andb]. apply (IH (length a)); [cbn; lia|done..].
Qed.

Lemma clean_app a b : clean a -> clean b -> clean (a ++ b).
Proof. intros [] []. split; [by apply Forall_app|by apply well_formed_app]. Qed.

Lemma clean_nil : clean [].
Proof. by split; [constructor|]. Qed.

Lemma ascii_well_formed l : Forall (fun c => 32 <= c < 128) l -> well_formed l = true.
Proof.
  induction 1 as [|c l Hc _ IH]; [done|]. cbn [well_formed]. unfold high_surrogate, low_surrogate. rewrite IH.
  rewrite (proj2 (Z.leb_le 0 c)), (proj2 (Z.ltb_lt c 65536)), (proj2 (Z.leb_gt 55296 c)), (proj2 (Z.leb_gt 56320 c)) by lia. done.
Qed.

Lemma ascii_clean l : Forall (fun c => 32 <= c < 128) l -> clean l.
Proof. intros H. split; [|by apply ascii_well_formed]. eapply Forall_impl; [exact H|]. intros c ?. cbn in *. lia. Qed.

Lemma digits_ascii ds : all_digits ds -> Forall (fun c => 32 <= c < 128) ds.
Proof. intros H. eapply Forall_impl; [exact H|]. intros c Hc%is_digit_spec. lia. Qed.

Lemma decimal_text_ascii ds e : all_digits ds -> Forall (fun c => 32 <= c < 128) (decimal_text ds e).
Proof.
  intros Hd. pose proof (digits_ascii ds Hd) as Ha. pose proof (digits_ascii _ (zeros_digits (Z.of_nat (length ds) + e - Z.of_nat (length ds)))) as Hz.
  pose proof (digits_ascii _ (zeros_digits (- (Z.of_nat (length ds) + e)))) as Hz'. unfold decimal_text.
  repeat match goal with |- context [if ?b then _ else _] => destruct b end.
  all: repeat (apply Forall_app; split); try done; try (by apply Forall_take); try (by apply Forall_drop).
  all: repeat (constructor; [lia|]); try (by apply Forall_drop).
  all: try (apply Forall_app; split; done).
  all: try (destruct (drop 1 ds) eqn:E; [constructor|]; constructor; [lia|]; rewrite <- E; by apply Forall_drop).
  all: apply digits_ascii; by apply digits_of_spec; lia.
Qed.

Lemma number_text_clean x : printable_number x = true -> clean (number_text x).
Proof.
  intros Hx. apply ascii_clean. destruct x as [| |q]; try done. unfold number_text.
  assert (Hpos : forall q, 0 < Qnum q -> Forall (fun c => 32 <= c < 128) (positive_text q)).
  { intros p Hp. unfold positive_text. destruct (shortest _ _ _ _) as [[ds e]|] eqn:E; [|by repeat constructor].
    apply shortest_spec in E as (_ & Hd & _); [|lia|done]. by apply decimal_text_ascii. }
  destruct (Qnum q) as [|p|p] eqn:Hn; [by repeat constructor|apply Hpos; lia|]. constructor; [lia|]. apply Hpos. cbn. lia.
Qed.

Lemma hex_digit_ascii v : 0 <= v < 16 -> 32 <= hex_digit v < 128.
Proof. intros Hv. unfold hex_digit. destruct (v <? 10); lia. Qed.

Lemma quoted_unit_clean c : unit_ok c = true -> clean (quoted_unit c).
Proof.
  intros Hc. apply andb_true_iff in Hc as [?%Z.leb_le ?%Z.ltb_lt]. unfold quoted_unit.
  repeat match goal with |- context [if c =? ?k then _ else _] => destruct (Z.eqb_spec c k); [apply ascii_clean; repeat constructor; lia|] end.
  destruct ((c <? 32) || high_surrogate c || low_surrogate c) eqn:E.
  - apply ascii_clean. unfold unicode_escape. repeat constructor; try apply hex_digit_ascii, Z.mod_pos_bound; lia.
  - apply orb_false_iff in E as [[E1%Z.ltb_ge E2]%orb_false_iff E3]. split; [constructor; [lia|constructor]|].
    cbn [well_formed]. rewrite E2, E3, (proj2 (Z.leb_le 0 c)), (proj2 (Z.ltb_lt c 65536)) by lia. done.
Qed.

Lemma quoted_clean s : forallb unit_ok s = true -> clean (quoted s).
Proof.
  remember (length s) as n eqn:Hn. revert s Hn. induction n as [n IH] using lt_wf_ind. intros s -> Hs.
  destruct s as [|c r]; [apply clean_nil|]. cbn in Hs. apply andb_true_iff in Hs as [Hc Hs]. cbn [quoted].
  destruct r as [|d r]; [by apply quoted_unit_clean|]. destruct (high_surrogate c && low_surrogate d) eqn:E.
  - apply andb_true_iff in E as [Hh Hl]. cbn in Hs. apply andb_true_iff in Hs as [Hd Hs].
    change (c :: d :: quoted r) with ([c; d] ++ quoted r). apply clean_app; [|apply (IH (length r)); [cbn; lia|done|done]].
    split; [|cbn [well_formed]; unfold unit_ok in Hc; rewrite Hc, Hh, Hl; done].
    apply andb_true_iff in Hh as [?%Z.leb_le _], Hl as [?%Z.leb_le _]. repeat constructor; lia.
  - apply clean_app; [by apply quoted_unit_clean|]. apply (IH (length (d :: r))); [cbn; lia|done|done].
Qed.

Lemma quote_clean s : forallb unit_ok s = true -> clean (quote s).
Proof.
  intros Hs. unfold quote. change (34 :: quoted s ++ [34]) with ([34] ++ quoted s ++ [34]).
  repeat apply clean_app; try by apply quoted_clean. all: apply ascii_clean; repeat constructor; lia.
Qed.

Lemma commas_clean parts : Forall clean parts -> clean (commas parts).
Proof.
  destruct 1 as [|p parts Hp H]; [apply clean_nil|]. cbn [commas]. apply clean_app; [done|].
  induction H as [|q parts Hq _ IH]; [apply clean_nil|]. cbn [fmap list_fmap concat].
  change ((44 :: q) ++ concat ((fun x => 44 :: x) <$> parts)) with ([44] ++ q ++ concat ((fun x => 44 :: x) <$> parts)).
  repeat apply clean_app; try done. apply ascii_clean. repeat constructor; lia.
Qed.

Lemma bracketed_clean a l b : 32 <= a < 128 -> 32 <= b < 128 -> clean l -> clean (a :: l ++ [b]).
Proof.
  intros Ha Hb Hl. change (a :: l ++ [b]) with ([a] ++ l ++ [b]). repeat apply clean_app; try done; apply ascii_clean; repeat constructor; lia.
Qed.

Lemma stringify_clean v : printable v = true -> clean (JSON_stringify v).
Proof.
  induction v as [|b|x|s|items IH|members IH] using json_nested; intros Hp.
  - by split; [repeat constructor|].
  - destruct b; by split; [repeat constructor|].
  - by apply number_text_clean.
  - by apply quote_clean.
  - cbn [JSON_stringify]. apply bracketed_clean; [lia|lia|]. apply commas_clean. apply Forall_map. cbn in Hp.
    induction IH as [|v items Hv _ IHi]; [constructor|]. cbn in Hp. apply andb_true_iff in Hp as [Hp1 Hp2].
    constructor; [by apply Hv|by apply IHi].
  - cbn [JSON_stringify]. apply bracketed_clean; [lia|lia|]. apply commas_clean. apply Forall_map. cbn in Hp.
    induction IH as [|[k v] members Hv _ IHi]; [constructor|]. cbn in Hp. apply andb_true_iff in Hp as [[Hk Hp1]%andb_true_iff Hp2].
    constructor; [|by apply IHi]. cbn [fst snd] in *. apply clean_app; [by apply quote_clean|].
    change (58 :: JSON_stringify v) with ([58] ++ JSON_stringify v). apply clean_app; [apply ascii_clean; repeat constructor; lia|by apply Hv].
Qed.

(** ** Bytes without line breaks *)

Lemma encode_app a b : well_formed a = true -> TextEncoder_encode (a ++ b) = TextEncoder_encode a ++ TextEncoder_encode b.
Proof.
  remember (length a) as n eqn:Hn. revert a Hn. induction n as [n IH] using lt_wf_ind. intros a -> Ha.
  destruct a as [|c a]; [done|]. cbn [well_formed app TextEncoder_encode] in *. apply andb_true_iff in Ha as [_ Ha].
  destruct (high_surrogate c).
  - destruct a as [|d a]; [done|]. apply andb_true_iff in Ha as [Hd Ha]. cbn [app]. rewrite Hd.
    rewrite (IH (length a)); [by rewrite app_assoc|cbn; lia|done|done].
  - apply andb_true_iff in Ha as [_ Ha]. rewrite (IH (length a)); [by rewrite app_assoc|cbn; lia|done|done].
Qed.

Lemma encode_point_unbroken p : 0 <= p -> p <> 10 -> p <> 13 -> unbroken (encode_point p).
Proof.
  intros Hp H1 H2. unfold encode_point.
  assert (0 <= p / 64 /\ 0 <= p / 4096 /\ 0 <= p / 262144) by (split_and!; apply Z.div_pos; lia).
  pose proof (Z.mod_pos_bound p 64 ltac:(lia)). pose proof (Z.mod_pos_bound (p / 64) 64 ltac:(lia)). pose proof (Z.mod_pos_bound (p / 4096) 64 ltac:(lia)).
  repeat match goal with |- context [if ?b then _ else _] => destruct b end; repeat constructor; lia.
Qed.

Lemma encode_unbroken s : clean s -> unbroken (TextEncoder_encode s).
Proof.
  intros [Hu Hw]. remember (length s) as n eqn:Hn. revert s Hn Hu Hw. induction n as [n IH] using lt_wf_ind. intros s -> Hu Hw.
  destruct s as [|c s]; [constructor|]. inversion Hu as [|? ? Hc Hu']; subst. cbn [well_formed TextEncoder_encode] in *.
  apply andb_true_iff in Hw as [[?%Z.leb_le _]%andb_true_iff Hw]. destruct (high_surrogate c) eqn:Hh.
  - destruct s as [|d s]; [done|]. apply andb_true_iff in Hw as [Hd Hw]. rewrite Hd. inversion Hu' as [|? ? Hd' Hu'']; subst.
    apply andb_true_iff in Hh as [?%Z.leb_le _]. apply andb_true_iff in Hd as [?%Z.leb_le _].
    apply Forall_app. split; [apply encode_point_unbroken; lia|]. apply (IH (length s)); [cbn; lia|done..].
  - apply andb_true_iff in Hw as [Hl Hw]. apply negb_true_iff in Hl. rewrite Hl.
    apply Forall_app. split; [apply encode_point_unbroken; lia|]. apply (IH (length s)); [cbn; lia|done..].
Qed.

(** ** One written event is one block *)

Lemma block_ends_plain b last : b <> 10 -> b <> 13 -> block_ends (b :: last) = false.
Proof. intros H1 H2. unfold block_ends. cbn. rewrite (proj2 (Z.eqb_neq b 10)), (proj2 (Z.eqb_neq b 13)) by done. done. Qed.

Lemma block_ends_line b last : b <> 10 -> b <> 13 -> block_ends (10 :: b :: last) = false.
Proof.
  intros H1 H2. unfold block_ends. cbn. rewrite (proj2 (Z.eqb_neq b 10)), (proj2 (Z.eqb_neq b 13)) by done. done.
Qed.

Lemma byteLength_app a b : byteLength (a ++ b) = byteLength a + byteLength b.
Proof. unfold byteLength. rewrite length_app. lia. Qed.

Lemma byteLength_nonneg l : 0 <= byteLength l.
Proof. unfold byteLength. lia. Qed.

#[local] Opaque MAX_RESPONSES_SSE_EVENT_BYTES.

(** Bytes without a line break only extend the block. *)
Lemma blocks_unbroken bytes last rest :
  unbroken bytes -> byteLength last + byteLength bytes <= MAX_RESPONSES_SSE_EVENT_BYTES ->
  sse_blocks last (bytes ++ rest) = sse_blocks (reverse bytes ++ last) rest.
Proof.
  intros Hu. revert last. induction Hu as [|b bytes [H1 H2] _ IH]; intros last Hl; [done|]. cbn [app sse_blocks].
  assert (Hb : byteLength (b :: last) + byteLength bytes <= MAX_RESPONSES_SSE_EVENT_BYTES) by (unfold byteLength in *; cbn [length] in *; lia).
  pose proof (byteLength_nonneg bytes). rewrite (proj2 (Z.ltb_ge _ _)) by lia. rewrite block_ends_plain by done.
  rewrite IH by done. by rewrite reverse_cons, <- app_assoc.
Qed.

Lemma sse_blocks_step b last rest :
  byteLength (b :: last) <= MAX_RESPONSES_SSE_EVENT_BYTES ->
  sse_blocks last (b :: rest) = if block_ends (b :: last)
    then let '(blocks, tail) := sse_blocks [] rest in (reverse (b :: last) :: blocks, tail) else sse_blocks (b :: last) rest.
Proof. intros Hl. cbn [sse_blocks]. by rewrite (proj2 (Z.ltb_ge _ _)) by lia. Qed.

Lemma written_block a b rest :
  unbroken a -> a <> [] -> unbroken b -> b <> [] ->
  byteLength (a ++ 10 :: b ++ [10; 10]) <= MAX_RESPONSES_SSE_EVENT_BYTES ->
  sse_blocks [] ((a ++ 10 :: b ++ [10; 10]) ++ rest)
  = let '(blocks, tail) := sse_blocks [] rest in ((a ++ 10 :: b ++ [10; 10]) :: blocks, tail).
Proof.
  intros Ha Hna Hb Hnb Hl. rewrite byteLength_app in Hl. unfold byteLength in Hl. cbn [length] in Hl. rewrite length_app in Hl. cbn [length] in Hl.
  rewrite <- app_assoc. cbn [app]. rewrite blocks_unbroken; [|done|unfold byteLength; cbn [length]; lia]. rewrite app_nil_r.
  assert (Hlast : forall l, unbroken l -> l <> [] -> exists c r, reverse l = c :: r /\ c <> 10 /\ c <> 13).
  { intros l Hu Hne. destruct (reverse l) as [|c r] eqn:E; [by apply (f_equal reverse) in E; rewrite reverse_involutive in E|].
    exists c, r. split; [done|]. unfold unbroken in Hu. rewrite Forall_forall in Hu. apply Hu. apply elem_of_reverse. rewrite E. by left. }
  destruct (Hlast a Ha Hna) as (c & r & Ec & Hc1 & Hc2).
  assert (Hra : (length (reverse a) = length a)%nat) by apply length_reverse.
  rewrite sse_blocks_step by (unfold byteLength; cbn [length]; lia). rewrite Ec at 1. rewrite block_ends_line by done.
  rewrite <- app_assoc, blocks_unbroken; [|done|unfold byteLength; cbn [length]; lia].
  destruct (Hlast b Hb Hnb) as (d & r' & Ed & Hd1 & Hd2). assert (Hrb : (length (reverse b) = length b)%nat) by apply length_reverse.
  cbn [app]. rewrite sse_blocks_step by (unfold byteLength; cbn [length]; rewrite length_app; cbn [length]; lia).
  rewrite Ed at 1. cbn [app]. rewrite block_ends_line by done.
  rewrite sse_blocks_step by (unfold byteLength; cbn [length]; rewrite length_app; cbn [length]; lia).
  assert (block_ends (10 :: 10 :: reverse b ++ 10 :: reverse a) = true) as -> by (unfold block_ends; cbn; done).
  destruct (sse_blocks [] rest) as [blocks tail]. do 2 f_equal.
  rewrite !reverse_cons, reverse_app, reverse_cons, !reverse_involutive, <- !app_assoc. done.
Qed.

(** ** One written event is parsed back *)

Lemma split_line_unbroken line l rest :
  unbroken l -> split_lines line (l ++ 10 :: rest) = (line ++ l) :: split_lines [] rest.
Proof.
  intros Hu. revert line. induction Hu as [|c l [H1 H2] _ IH]; intros line; cbn [app split_lines].
  - change (10 =? 13) with false. change (10 =? 10) with true. cbv iota. by rewrite app_nil_r.
  - rewrite (proj2 (Z.eqb_neq c 13)), (proj2 (Z.eqb_neq c 10)) by done. by rewrite IH, <- app_assoc.
Qed.

Lemma data_line_event l : data_line (text_of "event: " ++ l) = None.
Proof. unfold data_line. by repeat (rewrite bool_decide_false by done). Qed.

Lemma data_line_data l : data_line (text_of "data: " ++ l) = Some l.
Proof. unfold data_line. by repeat (rewrite bool_decide_false by done). Qed.

(** A value the gateway may send: as [JSON.parse] makes them, with a type on one
    line and the payload its type needs, in an event within the limit. *)
Record sendable (value : object) : Prop := {
  se_normal : normal_object value;
  se_printable : printable (JsObject value) = true;
  se_type : exists type, getString (field "type" value) = Some type /\ clean type;
  se_payload : forall type, trimmed (field "type" value) = Some type -> invalid_terminal type value = false;
  se_size : byteLength (TextEncoder_encode (sseRaw value)) <= MAX_RESPONSES_SSE_EVENT_BYTES }.

Lemma sseRaw_lines value type :
  getString (field "type" value) = Some type ->
  sseRaw value = (text_of "event: " ++ type) ++ 10 :: (text_of "data: " ++ JSON_stringify (JsObject value)) ++ [10; 10].
Proof. intros Ht. unfold sseRaw. rewrite Ht. cbn [default]. by rewrite <- !app_assoc. Qed.

Lemma written_parses value ev :
  sendable value -> responseEventFromValue value = Ok ev -> parseEventBlock (ev_raw ev) = Ok (Some ev).
Proof.
  intros [Hn Hp (type & Ht & [Hu _]) Hpay _] He. unfold responseEventFromValue in He.
  destruct (trimmed (field "type" value)) as [t|] eqn:Htr; [|done]. injection He as <-. cbn [ev_raw]. unfold parseEventBlock.
  destruct (stringify_clean _ Hp) as [Hj _]. rewrite (sseRaw_lines value type Ht).
  set (raw := (text_of "event: " ++ type) ++ _).
  assert (split_lines [] raw = [text_of "event: " ++ type; text_of "data: " ++ JSON_stringify (JsObject value); []; []]) as ->.
  { unfold raw. rewrite split_line_unbroken by (apply Forall_app; split; [by repeat constructor|done]). cbn [app]. f_equal.
    rewrite (split_line_unbroken [] (text_of "data: " ++ JSON_stringify (JsObject value)) [10]) by (apply Forall_app; split; [by repeat constructor|done]).
    done. }
  cbn [omap list_omap]. rewrite data_line_event, data_line_data. change (data_line []) with (@None text). cbv iota.
  cbn [join_lines]. rewrite JSON_round_trip by (done || by apply normal_JsObject). cbv iota. rewrite Htr.
  rewrite (Hpay t eq_refl). unfold raw. by rewrite <- (sseRaw_lines value type Ht).
Qed.

Lemma sseRaw_well_formed value : sendable value -> well_formed (sseRaw value) = true /\ head (sseRaw value) <> Some 65279.
Proof.
  intros [_ Hp (type & Ht & [_ Hw]) _ _]. destruct (stringify_clean _ Hp) as [_ Hj]. rewrite (sseRaw_lines value type Ht). split; [|done].
  apply well_formed_app; [by apply well_formed_app|].
  apply (well_formed_app [10] ((text_of "data: " ++ JSON_stringify (JsObject value)) ++ [10; 10])); [done|].
  apply well_formed_app; [by apply well_formed_app|done].
Qed.

(** The bytes of a written event are one block. *)
Lemma written_bytes value rest :
  sendable value ->
  sse_blocks [] (TextEncoder_encode (sseRaw value) ++ rest)
  = let '(blocks, tail) := sse_blocks [] rest in (TextEncoder_encode (sseRaw value) :: blocks, tail).
Proof.
  intros Hs. pose proof Hs as [_ Hp (type & Ht & Hc) _ Hsize]. pose proof (stringify_clean _ Hp) as Hj.
  set (a := text_of "event: " ++ type). set (b := text_of "data: " ++ JSON_stringify (JsObject value)).
  assert (Ha : clean a) by (apply clean_app; [by split; [repeat constructor|]|done]).
  assert (Hb : clean b) by (apply clean_app; [by split; [repeat constructor|]|done]).
  assert (Heq : TextEncoder_encode (sseRaw value) = TextEncoder_encode a ++ 10 :: TextEncoder_encode b ++ [10; 10]).
  { rewrite (sseRaw_lines value type Ht). fold a b. rewrite encode_app by apply Ha. f_equal.
    change (TextEncoder_encode (10 :: b ++ [10; 10])) with (10 :: TextEncoder_encode (b ++ [10; 10])). by rewrite encode_app by apply Hb. }
  rewrite Heq in Hsize |- *. apply written_block; try done; by apply encode_unbroken.
Qed.

Lemma written_stream values events :
  Forall sendable values -> Forall2 (fun value event => responseEventFromValue value = Ok event) values events ->
  sse_blocks [] (concat ((fun event => TextEncoder_encode (ev_raw event)) <$> events))
  = ((fun event => TextEncoder_encode (ev_raw event)) <$> events, Some []).
Proof.
  intros Hs Hw. induction Hw as [|value event values events He _ IH]; [done|]. inversion Hs as [|? ? Hv Hs']; subst.
  cbn [fmap list_fmap concat].
  assert (ev_raw event = sseRaw value) as ->.
  { unfold responseEventFromValue in He. destruct (trimmed _); [|done]. by injection He as <-. }
  rewrite written_bytes by done. by rewrite IH.
Qed.

Lemma written_events values events demand :
  Forall sendable values -> Forall2 (fun value event => responseEventFromValue value = Ok event) values events ->
  terminal_last events -> (length events <= demand)%nat ->
  exists result, reference_events demand (ev_raw <$> events) = (events, result)
    /\ match result with
       | inl _ => ~ ends_terminal events
       | inr outcome => outcome = Finished /\ ends_terminal events
       end.
Proof.
  intros Hs Hw. revert demand. induction Hw as [|value event values events He _ IH]; intros demand Ht Hd.
  { exists (inl demand). split; [done|]. by intros (ev & Hl & _). }
  inversion Hs as [|? ? Hv Hs']; subst. destruct demand as [|demand]; [cbn in Hd; lia|]. destruct Ht as [Hlast Ht].
  cbn [fmap list_fmap reference_events]. rewrite (written_parses value event Hv He). destruct (ev_terminal event) eqn:E.
  { destruct Hlast as [-> |]; [|done]. exists (inr Finished). split; [done|]. split; [done|]. by exists event. }
  destruct (IH Hs' demand Ht ltac:(cbn in Hd; lia)) as (result & Hr & Hres). rewrite Hr. exists result. split; [done|].
  assert (ends_terminal (event :: events) <-> ends_terminal events) as Hends.
  { unfold ends_terminal. destruct events; [|done]. split; [intros (e & [= <-] & He')|intros (e & [=] & _)]. congruence. }
  destruct result; [|destruct Hres]; naive_solver.
Qed.

(** C12: What the gateway writes is read back.  Any sendable values, written as
    events, encoded and cut into chunks in any way, are read by
    [readResponsesStream] as exactly those events in order; it ends normally when
    the last of them is terminal and with [premature_eof] when it is not. *)
Theorem responses_round_trip values events chunks demand aborted :
  Forall sendable values -> Forall2 (fun value event => responseEventFromValue value = Ok event) values events ->
  terminal_last events -> (length events <= demand)%nat ->
  concat chunks = concat ((fun event => TextEncoder_encode (ev_raw event)) <$> events) ->
  exists outcome, observed (readResponsesStream demand (reads_of chunks (Some ReadDone)) aborted) = (events, outcome)
    /\ (outcome = Finished <-> ends_terminal events)
    /\ (~ ends_terminal events -> outcome = Failed (rethrown aborted (ResponsesStreamError premature_eof))).
Proof.
  intros Hs Hw Ht Hd Hc. pose proof (sse_reads_reference demand chunks (Some ReadDone) aborted) as H. rewrite Hc in H.
  unfold reference_read, reference_from in H. rewrite (written_stream values events Hs Hw) in H. cbn [reference_rest] in H.
  rewrite app_nil_r in H.
  assert (TextDecoder_decode <$> ((fun event => TextEncoder_encode (ev_raw event)) <$> events) = ev_raw <$> events) as Hdec.
  { clear - Hs Hw. induction Hw as [|value event values events He _ IH]; [done|]. inversion Hs as [|? ? Hv Hs']; subst.
    cbn [fmap list_fmap]. rewrite IH by done. f_equal. destruct (sseRaw_well_formed value Hv) as [H1 H2].
    unfold responseEventFromValue in He. destruct (trimmed _); [|done]. injection He as <-. by apply TextDecoder_round_trip. }
  rewrite Hdec in H. destruct (written_events values events demand Hs Hw Ht Hd) as (result & Hr & Hres). rewrite Hr in H.
  eexists. split; [exact H|]. destruct result as [d|outcome]; [naive_solver|]. destruct Hres as [-> Hends]. naive_solver.
Qed.

(** ** Literals are sendable *)

Lemma literal_normal ps : Forall (fun p => normal (snd p)) ps -> normal_object (literal ps).
Proof.
  unfold literal. intros H. assert (Ho : normal_object []) by apply normal_nil. revert Ho. generalize (@nil (text * json)) as o.
  induction H as [|p ps Hp _ IH]; intros o Ho; [done|]. cbn [foldl]. by apply IH, own_set_normal.
Qed.

Module Written.

Definition delta : object := literal [("type", str "response.output_text.delta"); ("delta", str "hi"); ("sequence_number", js_int 12)].
Definition failed : object :=
  literal [("type", str "error"); ("code", JsNull); ("message", str "upstream"); ("param", JsNull); ("sequence_number", js_int 13)].
Definition event (value : object) : ResponsesStreamEvent :=
  match responseEventFromValue value with Ok ev => ev | Err _ => mkEvent [] [] [] false end.

Lemma delta_sendable : sendable delta.
Proof.
  split; [apply literal_normal; by repeat constructor|vm_compute; reflexivity| | |vm_compute; discriminate].
  - eexists. split; [vm_compute; reflexivity|]. by split; [repeat constructor|].
  - intros type Ht. vm_compute in Ht. injection Ht as <-. vm_compute. reflexivity.
Qed.

Lemma failed_sendable : sendable failed.
Proof.
  split; [apply literal_normal; by repeat constructor|vm_compute; reflexivity| | |vm_compute; discriminate].
  - eexists. split; [vm_compute; reflexivity|]. by split; [repeat constructor|].
  - intros type Ht. vm_compute in Ht. injection Ht as <-. vm_compute. reflexivity.
Qed.
End Written.

(** Two events, a byte at a time. *)
Lemma responses_round_trip_witness :
  exists outcome, observed (readResponsesStream 2
      (reads_of ((fun b => [b]) <$> TextEncoder_encode (sseRaw Written.delta ++ sseRaw Written.failed)) (Some ReadDone)) false)
      = ([Written.event Written.delta; Written.event Written.failed], outcome)
    /\ (outcome = Finished <-> ends_terminal [Written.event Written.delta; Written.event Written.failed])
    /\ (~ ends_terminal [Written.event Written.delta; Written.event Written.failed] ->
        outcome = Failed (rethrown false (ResponsesStreamError premature_eof))).
Proof.
  apply (responses_round_trip [Written.delta; Written.failed]).
  - constructor; [apply Written.delta_sendable|]. constructor; [apply Written.failed_sendable|constructor].
  - constructor; [vm_compute; reflexivity|]. constructor; [vm_compute; reflexivity|constructor].
  - split; [right; vm_compute; reflexivity|]. split; [by left|done].
  - cbn. lia.
  - vm_compute. reflexivity.
Defined.
