(* ===== verification/ResponsesOwned.v ===== *)
(** * The stream the client reads

    The second half of [src/responses-failover-stream.ts]:
    [createOwnedResponsesStream], the stream that owns what the client sees once
    an attempt is committed, with [codexContextFailureEvent] of
    [src/codex/responses-error.ts].  The variables of the closure are a record.
    The stream's consumer calls [pull] (one at a time) and [cancel]; between the
    [await]s of a pull the consumer may cancel and the signals may abort, so a
    pull is a [Stage] and each of its continuations a step.  An event that was
    rewritten carries the upstream's event, which the code keeps in a weak map.
    What was delivered is the list of the events as they were enqueued; the
    bytes are their raw texts, and the text of an upstream's last event need not
    end in an empty line. *)

From Stdlib Require Import ZArith QArith Lia.
From stdpp Require Import base strings option list.
From S2P Require Import Prelude Js JsonText JsonScan WebText JsonPrint SseStream ResponsesEvents.
Open Scope string_scope.
Open Scope list_scope.
Open Scope Z_scope.

(** ** State *)

Record Visible := mkVisible { vi_event : ResponsesStreamEvent; vi_original : option ResponsesStreamEvent }.

Record Accumulated := mkAccumulated { ac_id : text; ac_text : text; ac_completed : bool; ac_refusal : bool }.

Record OwnedResponsesStreamFailureDetails := mkDetails {
  fd_failureKind : ResponsesStreamFailureKind;
  fd_responseCreatedObserved : bool;
  fd_semanticCommitmentObserved : bool;
  fd_syntheticTerminalType : option text;
  fd_upstreamTerminal : option ResponsesStreamEvent }.

(** The calls out of the stream; [synthetic] events are those of the weak set. *)
Inductive Callback :=
| OnEvent (event : ResponsesStreamEvent) (synthetic : bool)
| OnFailure (e : StreamError) (details : OwnedResponsesStreamFailureDetails)
| AbortUpstream
| OnCancel.

(** Where the pull stands: none; waiting for the iterator; [nextVisible] has an
    event, or [null], or threw; waiting for [iterator.return] with calls to make
    after it; the promise of the pull was rejected. *)
Inductive Stage :=
| Idle
| Reading
| Delivering (event : option Visible)
| PullFailing (e : StreamError)
| Returning (after : list Callback)
| Rejected (e : StreamError).

Record Owned := mkOwned {
  os_queue : list Visible;
  os_responseId : option text;
  os_sequenceNumber : Z;
  os_closed : bool;
  os_terminalEmitted : bool;
  os_responseCreatedObserved : bool;
  os_semanticCommitmentObserved : bool;
  os_responseTemplate : object;
  os_completedOutputItems : list object;
  os_completedOutputItemIds : list (text * nat);
  os_accumulatedText : list Accumulated;
  os_warningItem : option object;
  (** The controller: what was enqueued, and [close]; the consumer's [cancel];
      the signals; calls of [iterator.return]; the calls out. *)
  os_delivered : list ResponsesStreamEvent;
  os_controllerClosed : bool;
  os_cancelled : bool;
  os_aborted : bool;
  os_returns : nat;
  os_callbacks : list Callback;
  os_stage : Stage }.

#[export] Instance eta_Owned : Eta Owned := fun s =>
  mkOwned (os_queue s) (os_responseId s) (os_sequenceNumber s) (os_closed s) (os_terminalEmitted s)
    (os_responseCreatedObserved s) (os_semanticCommitmentObserved s) (os_responseTemplate s) (os_completedOutputItems s)
    (os_completedOutputItemIds s) (os_accumulatedText s) (os_warningItem s) (os_delivered s) (os_controllerClosed s)
    (os_cancelled s) (os_aborted s) (os_returns s) (os_callbacks s) (os_stage s).

(** ** Identities of items *)

Definition warningItemId (s : Owned) : option text :=
  item ← os_warningItem s; trim_text <$> getString (field "id" item).

Definition eventItemId (event : ResponsesStreamEvent) : option text :=
  match trimmed (field "item_id" (ev_value event)) with
  | Some id => Some id
  | None => item ← as_object (field "item" (ev_value event)); trim_text <$> getString (field "id" item)
  end.

Definition isWarningEvent (s : Owned) (event : ResponsesStreamEvent) : bool :=
  match warningItemId s with Some id => bool_decide (eventItemId event = Some id) | None => false end.

Definition itemHasOutputText (item : object) : bool :=
  match field "content" item with
  | Some (JsArray parts) =>
      existsb (fun part => match part with
        | JsObject part => one_of_value (field "type" part) ["output_text"; "text"] && nonEmptyString (field "text" part)
        | _ => false
        end) parts
  | _ => false
  end.

(** ** Recovered text *)

Definition textFieldForEventType (type : text) : option string :=
  if one_of type ["response.output_text.delta"; "response.refusal.delta"] then Some "delta"
  else if is_type type "response.output_text.done" then Some "text"
  else if is_type type "response.refusal.done" then Some "refusal"
  else None.

Definition accumulated (id : text) (l : list Accumulated) : option Accumulated :=
  List.find (fun a => bool_decide (ac_id a = id)) l.

(** [accumulatedText.set]: a known id keeps its place. *)
Definition accumulate (a : Accumulated) (l : list Accumulated) : list Accumulated :=
  match accumulated (ac_id a) l with
  | Some _ => (fun b => if bool_decide (ac_id b = ac_id a) then a else b) <$> l
  | None => l ++ [a]
  end.

Definition recovered_id (event : ResponsesStreamEvent) (size : nat) : text :=
  match eventItemId event with
  | Some id => id
  | None => text_of "msg_recovered_" ++ default (digits_of (Z.of_nat size)) (getString (field "output_index" (ev_value event)))
  end.

Definition rememberText (event : ResponsesStreamEvent) (s : Owned) : Owned :=
  if isWarningEvent s event then s else
  let refusal := one_of (ev_type event) refusalTypes in
  match (key ← textFieldForEventType (ev_type event); getString (field key (ev_value event))) with
  | None | Some [] => s
  | Some text =>
      let id := recovered_id event (length (os_accumulatedText s)) in
      let current := accumulated id (os_accumulatedText s) in
      if one_of (ev_type event) ["response.output_text.done"; "response.refusal.done"] then
        if match current with None => true | Some current => starts_with (ac_text current) text end
        then s <| os_accumulatedText := accumulate (mkAccumulated id text true refusal) (os_accumulatedText s) |>
        else s
      else
        let a := mkAccumulated id (match current with Some c => ac_text c | None => [] end ++ text)
                   (match current with Some c => ac_completed c | None => false end) refusal in
        s <| os_accumulatedText := accumulate a (os_accumulatedText s) |>
  end.

(** ** Completed items *)

Fixpoint index_of_id (id : text) (ids : list (text * nat)) : option nat :=
  match ids with [] => None | (k, i) :: r => if bool_decide (k = id) then Some i else index_of_id id r end.

(** An item replaces the one with its id, or comes last. *)
Definition record_item (item : object) (s : Owned) : Owned :=
  let id := trimmed (field "id" item) in
  match (id ← id; index_of_id id (os_completedOutputItemIds s)) with
  | Some i => s <| os_completedOutputItems := <[i := item]> (os_completedOutputItems s) |>
  | None =>
      let n := length (os_completedOutputItems s) in
      s <| os_completedOutputItemIds := match id with Some id => (id, n) :: os_completedOutputItemIds s | None => os_completedOutputItemIds s end |>
        <| os_completedOutputItems := os_completedOutputItems s ++ [item] |>
  end.

Definition compatibilityOutputOf (event : ResponsesStreamEvent) : option json :=
  if negb (is_type (ev_type event) "response.output") then None else
  match field "output" (ev_value event) with
  | Some JsNull | None => response ← as_object (field "response" (ev_value event)); field "output" response
  | explicit => explicit
  end.

(** [isRecord] keeps arrays; spread, one is the object of its indices. *)
Definition spread_value (v : json) : option object :=
  match v with
  | JsObject o => Some o
  | JsArray items => Some (imap (fun i item => (digits_of (Z.of_nat i), item)) items)
  | _ => None
  end.

Definition recordCompatibilityOutput (output : option json) (s : Owned) : Owned :=
  match output with
  | Some (JsArray items) => foldl (fun s item => match spread_value item with Some item => record_item item s | None => s end) s items
  | _ => s
  end.

Fixpoint until_dot (l : text) : text :=
  match l with [] => [] | c :: r => if c =? 46 then [] else c :: until_dot r end.

(** The part of a type after its last dot. *)
Definition hostedToolLifecycle (type : text) : text := reverse (until_dot (reverse type)).

Definition hostedToolItemStatus (lifecycle : text) : string :=
  if is_type lifecycle "completed" then "completed" else if is_type lifecycle "failed" then "failed" else "in_progress".

Definition visibleItemFromEvent (event : ResponsesStreamEvent) (s : Owned) : option object :=
  match (if isOutputItemEvent (ev_type event) then as_object (field "item" (ev_value event)) else None) with
  | Some item => Some (if is_type (ev_type event) "response.output_item.added" then assign "status" (str "incomplete") item else item)
  | None =>
      if negb (isHostedToolEvent (ev_type event)) then None else
      let lifecycle := hostedToolLifecycle (ev_type event) in
      let type := drop 9 (take (length (ev_type event) - (length lifecycle + 1)) (ev_type event)) in
      let existing := match eventItemId event with
        | Some (c :: r) => i ← index_of_id (c :: r) (os_completedOutputItemIds s); os_completedOutputItems s !! i
        | _ => None
        end in
      let id := default (text_of "tool_recovered_" ++ digits_of (Z.of_nat (length (os_completedOutputItems s)))) (eventItemId event) in
      Some (assign "status" (str (hostedToolItemStatus lifecycle))
             (assign "type" (JsString type) (assign "id" (JsString id) (default [] existing))))
  end.

(** ** Observing an event *)

(** The response id after one more candidate; an empty id is not compared. *)
Definition join_id (responseId candidate : option text) : Result StreamError (option text) :=
  match responseId, candidate with
  | Some (c :: r), Some id => if bool_decide (id = c :: r) then Ok (Some (c :: r)) else Err (ResponsesStreamError malformed_event)
  | Some id, _ => Ok (Some id)
  | None, candidate => Ok candidate
  end.

Definition observeResponseIdentity (event : ResponsesStreamEvent) (s : Owned) : Result StreamError Owned :=
  candidate ← responseIdFromEvents [event];
  responseId ← join_id (os_responseId s) candidate;
  let s := s <| os_responseId := responseId |> in
  Ok (match as_object (field "response" (ev_value event)) with
      | Some response => s <| os_responseTemplate := spread (os_responseTemplate s) response |>
      | None => s
      end).

(** The flags are set even when the identity throws. *)
Definition observe_flags (event : ResponsesStreamEvent) (s : Owned) : Owned :=
  let s := if is_type (ev_type event) "response.created" then s <| os_responseCreatedObserved := true |> else s in
  if negb (isWarningEvent s event)
     && match responsesEventSemanticKindWithIgnoredOutputItem event (warningItemId s) with Some _ => true | None => false end
  then s <| os_semanticCommitmentObserved := true |> else s.

Definition record_output (event : ResponsesStreamEvent) (s : Owned) : Owned :=
  if isWarningEvent s event then s else
  let s := recordCompatibilityOutput (compatibilityOutputOf event) s in
  match visibleItemFromEvent event s with Some item => record_item item s | None => s end.

(** The state after [observeVisibleEvent], and what it threw. *)
Definition observeVisibleEvent (event : ResponsesStreamEvent) (s : Owned) : Owned * option StreamError :=
  let s := observe_flags event s in
  match observeResponseIdentity event s with
  | Err e => (s, Some e)
  | Ok s => (record_output event (rememberText event s), None)
  end.

(** ** The output of a failure *)

(** The output so far and the places of its ids. *)
Notation Output := (list object * list (text * nat))%type.

Definition push_item (id : option text) (item : object) (o : Output) : Output :=
  (fst o ++ [item], match id with Some id => (id, length (fst o)) :: snd o | None => snd o end).

Definition mergeCompletedOutputItems (items : list object) (o : Output) : Output :=
  foldl (fun o item =>
    let id := trimmed (field "id" item) in
    match (id ← id; index_of_id id (snd o)) with Some _ => o | None => push_item id item o end) o items.

Definition recovered_message (a : Accumulated) : object :=
  literal [("id", JsString (ac_id a)); ("type", str "message"); ("status", str (if ac_completed a then "completed" else "incomplete"));
    ("role", str "assistant");
    ("content", JsArray [JsObject (if ac_refusal a then literal [("type", str "refusal"); ("refusal", JsString (ac_text a))]
       else literal [("type", str "output_text"); ("text", JsString (ac_text a)); ("annotations", JsArray [])])])].

Definition merge_recovered (o : Output) (a : Accumulated) : Output :=
  match index_of_id (ac_id a) (snd o) with
  | None => push_item (Some (ac_id a)) (recovered_message a) o
  | Some i =>
      match fst o !! i with
      | Some existing => if itemHasOutputText existing then o else (<[i := spread existing (recovered_message a)]> (fst o), snd o)
      | None => o
      end
  end.

Definition mergeRecoveredText (l : list Accumulated) (o : Output) : Output := foldl merge_recovered o l.

Definition failureOutput (s : Owned) : list object :=
  let output := option_list (os_warningItem s) in
  let ids := match warningItemId s with Some (c :: r) => [(c :: r, O)] | _ => [] end in
  fst (mergeRecoveredText (os_accumulatedText s) (mergeCompletedOutputItems (os_completedOutputItems s) (output, ids))).

(** ** [codexContextFailureEvent] *)

Definition has_id (id : text) (v : json) : bool :=
  match v with JsObject o => bool_decide (getString (field "id" o) = Some id) | _ => false end.

(** A visible item replaces the item with its id in the template's output. *)
Definition place_visible (output : list json) (item : object) : list json :=
  match getString (field "id" item) with
  | Some (c :: r) =>
      match list_find (has_id (c :: r)) output with
      | Some (i, _) => <[i := JsObject item]> output
      | None => output ++ [JsObject item]
      end
  | _ => output ++ [JsObject item]
  end.

Definition codexContextFailureEvent (event : ResponsesStreamEvent) (responseId : option text) (responseTemplate : object)
    (visibleOutput : list object) : ResponsesStreamEvent :=
  match responseId with
  | Some (c :: r) =>
      if negb (is_type (ev_type event) "error") then event else
      let error := match as_object (field "error" (ev_value event)) with
        | Some nested => nested
        | None => List.filter (fun m => negb (bool_decide (fst m = text_of "type")) && negb (bool_decide (fst m = text_of "sequence_number"))) (ev_value event)
        end in
      if negb (equals (field "code" error) "context_length_exceeded") then event else
      let output := foldl place_visible (match field "output" responseTemplate with Some (JsArray items) => items | _ => [] end) visibleOutput in
      let response :=
        assign "output" (JsArray output) (assign "error" (JsObject error) (assign "status" (str "failed")
          (assign "object" (JsString (default (text_of "response") (getString (field "object" responseTemplate))))
            (assign "id" (JsString (c :: r)) responseTemplate)))) in
      let value := assign "response" (JsObject response)
        (match field "sequence_number" (ev_value event) with
         | Some n => literal [("type", str "response.failed"); ("sequence_number", n)]
         | None => literal [("type", str "response.failed")]
         end) in
      mkEvent (text_of "event: response.failed" ++ 10 :: text_of "data: " ++ JSON_stringify (JsObject value) ++ [10; 10])
        value (text_of "response.failed") true
  | _ => event
  end.

(** ** The stream *)

Section owned.
(** The options: the compatibility of Codex clients, the validator ([Some] is
    what it throws), and the identifiers [crypto.randomUUID] returns. *)
Context (codexContextErrorCompatibility : bool) (validateEvent : ResponsesStreamEvent -> option StreamError)
  (warningUuid responseUuid : text).

Definition validate (event : ResponsesStreamEvent) : Result StreamError unit :=
  match validateEvent event with Some e => Err e | None => Ok tt end.

Fixpoint validate_all (events : list ResponsesStreamEvent) : Result StreamError unit :=
  match events with [] => Ok tt | event :: events => _ ← validate event; validate_all events end.

Fixpoint rewrite_all (rewrite : ResponsesStreamEvent -> Z -> Result StreamError ResponsesStreamEvent)
    (events : list ResponsesStreamEvent) (sequenceNumber : Z) : Result StreamError (list Visible) :=
  match events with
  | [] => Ok []
  | event :: events =>
      rewritten ← rewrite event sequenceNumber;
      more ← rewrite_all rewrite events (sequenceNumber + 1);
      Ok (mkVisible rewritten (Some event) :: more)
  end.

(** The first event of a type and the events without it. *)
Fixpoint split_type (name : string) (events : list ResponsesStreamEvent) : option (ResponsesStreamEvent * list ResponsesStreamEvent) :=
  match events with
  | [] => None
  | event :: events =>
      if is_type (ev_type event) name then Some (event, events)
      else '(found, rest) ← split_type name events; Some (found, event :: rest)
  end.

Definition isLeadingSetupEvent (event : ResponsesStreamEvent) : bool :=
  one_of (ev_type event) ["response.in_progress"; "response.queued"].

Fixpoint split_leading (events : list ResponsesStreamEvent) : list ResponsesStreamEvent * list ResponsesStreamEvent :=
  match events with
  | event :: r => if isLeadingSetupEvent event then let '(l, rest) := split_leading r in (event :: l, rest) else ([], events)
  | [] => ([], [])
  end.

(** The queue, the warning item and the next sequence number. *)
Definition queueWarningPreamble (initial : list ResponsesStreamEvent) (responseId model : text) (sequenceNumber : Z) :
    Result StreamError (list Visible * object * Z) :=
  '(created, initial) ← or_throw (split_type "response.created" initial) (ResponsesStreamError malformed_event);
  _ ← validate created;
  rewrittenCreated ← rewriteResponsesEventSequence created sequenceNumber;
  let '(leadingSetup, initial) := split_leading initial in
  _ ← validate_all leadingSetup;
  leading ← rewrite_all rewriteResponsesEventSequence leadingSetup (sequenceNumber + 1);
  let sequenceNumber := sequenceNumber + 1 + Z.of_nat (length leading) in
  '(item, events) ← buildFailoverWarningEvents warningUuid model responseId sequenceNumber;
  let sequenceNumber := sequenceNumber + Z.of_nat (length events) in
  _ ← validate_all initial;
  rest ← rewrite_all (fun event => rewriteResponsesEventForWarning event item) initial sequenceNumber;
  Ok (mkVisible rewrittenCreated (Some created) :: leading ++ ((fun event => mkVisible event None) <$> events) ++ rest,
      item, sequenceNumber + Z.of_nat (length rest)).

(** The sequence number of an event, when it is a safe integer. *)
Definition sequence_of (event : ResponsesStreamEvent) : option Z :=
  match field "sequence_number" (ev_value event) with Some (JsNumber n) => safe_integer n | _ => None end.

Definition initial_sequence (initial : list ResponsesStreamEvent) : Z :=
  foldl (fun m event => match sequence_of event with Some z => Z.max m (z + 1) | None => m end) 0 initial.

Definition opened (queue : list Visible) (responseId : option text) (sequenceNumber : Z) (warningItem : option object) : Owned :=
  mkOwned queue responseId sequenceNumber false false false false [] [] [] [] warningItem [] false false false 0 [] Idle.

Definition createOwnedResponsesStream (initial : list ResponsesStreamEvent) (responseId warning : option text) : Result StreamError Owned :=
  match warning with
  | Some model =>
      match responseId with
      | None | Some [] => Err (ResponsesStreamError malformed_event)
      | Some id =>
          '(queue, item, sequenceNumber) ← queueWarningPreamble initial id model 0;
          Ok (opened queue responseId sequenceNumber (Some item))
      end
  | None =>
      _ ← validate_all initial;
      Ok (opened ((fun event => mkVisible event None) <$> initial) responseId (initial_sequence initial) None)
  end.

(** [controller.enqueue] and [controller.close] throw once the stream is closed. *)
Definition enqueue (event : ResponsesStreamEvent) (s : Owned) : Result StreamError Owned :=
  if os_controllerClosed s || os_cancelled s then Err OtherError else Ok (s <| os_delivered := os_delivered s ++ [event] |>).

Definition close_controller (s : Owned) : Result StreamError Owned :=
  if os_controllerClosed s || os_cancelled s then Err OtherError else Ok (s <| os_controllerClosed := true |>).

Definition failureKindFor (e : StreamError) : ResponsesStreamFailureKind :=
  match e with ResponsesStreamError kind => kind | _ => read_error end.

Definition failureDetails (e : StreamError) (syntheticTerminalType : option text) (upstreamTerminal : option ResponsesStreamEvent) (s : Owned) :
    OwnedResponsesStreamFailureDetails :=
  mkDetails (failureKindFor e) (os_responseCreatedObserved s) (os_semanticCommitmentObserved s) syntheticTerminalType upstreamTerminal.

Definition syntheticTerminalTypeOf (event : ResponsesStreamEvent) : option text :=
  if one_of (ev_type event) ["response.failed"; "error"] then Some (ev_type event) else None.

Definition syntheticFailure (s : Owned) : Result StreamError (ResponsesStreamEvent * Owned) :=
  event ← (if os_semanticCommitmentObserved s
           then failureEventAfterCommit (default (text_of "resp_" ++ without_dashes responseUuid) (os_responseId s))
                  (os_sequenceNumber s) (failureOutput s) (os_responseTemplate s)
           else errorEventAfterCommit (os_sequenceNumber s));
  Ok (event, s <| os_sequenceNumber := os_sequenceNumber s + 1 |>).

Definition advanceSequence (event : ResponsesStreamEvent) (s : Owned) : Owned :=
  match sequence_of event with
  | Some z => if os_sequenceNumber s <=? z then s <| os_sequenceNumber := z + 1 |> else s
  | None => s
  end.

Definition stage (g : Stage) (s : Owned) : Owned := s <| os_stage := g |>.
Definition call (l : list Callback) (s : Owned) : Owned := s <| os_callbacks := os_callbacks s ++ l |>.

(** [iterator.return]; the pull waits for it. *)
Definition return_iterator (after : list Callback) (s : Owned) : Owned :=
  stage (Returning after) (s <| os_returns := S (os_returns s) |>).

Definition close_with (event : ResponsesStreamEvent) (s : Owned) : Result StreamError Owned :=
  s ← enqueue event (s <| os_terminalEmitted := true |> <| os_closed := true |>); close_controller s.

Definition emitFailureTerminal (failure : ResponsesStreamEvent) (e : StreamError) (upstreamTerminal : option ResponsesStreamEvent) (s : Owned) :
    Result StreamError Owned :=
  let details := failureDetails e (syntheticTerminalTypeOf failure) upstreamTerminal s in
  s ← close_with failure s;
  Ok (return_iterator [OnEvent failure true; OnFailure e details] s).

(** What [nextVisible] makes of the iterator's answer: the next stage. *)
Definition next_upstream (answer : Upstream) (s : Owned) : Owned :=
  match answer with
  | UpEnd => stage (Delivering None) s
  | UpError e => stage (PullFailing e) s
  | UpEvent event =>
      match validate event with
      | Err e => stage (PullFailing e) s
      | Ok _ =>
          match (candidate ← responseIdFromEvents [event]; join_id (os_responseId s) candidate) with
          | Err e => stage (PullFailing e) s
          | Ok responseId =>
              let s := s <| os_responseId := responseId |> in
              match os_warningItem s with
              | None => stage (Delivering (Some (mkVisible event None))) s
              | Some item =>
                  let s' := s <| os_sequenceNumber := os_sequenceNumber s + 1 |> in
                  match rewriteResponsesEventForWarning event item (os_sequenceNumber s) with
                  | Err e => stage (PullFailing e) s'
                  | Ok rewritten => stage (Delivering (Some (mkVisible rewritten (Some event)))) s'
                  end
              end
          end
      end
  end.

(** A pull that throws goes to its handler, with the state before the call that
    threw: while the stream is open the controller does not throw, so no
    assignment is lost. *)
Definition or_fail (before : Owned) (m : Result StreamError Owned) : Owned :=
  match m with Ok s => s | Err e => stage (PullFailing e) before end.

Definition prematureEofError : StreamError := ResponsesStreamError premature_eof.

Definition deliver_missing (s : Owned) : Result StreamError Owned :=
  '(failure, s) ← syntheticFailure s;
  let details := failureDetails prematureEofError (syntheticTerminalTypeOf failure) None s in
  s ← close_with failure s;
  Ok (stage Idle (call [OnEvent failure true; OnFailure prematureEofError details] s)).

(** An event that was observed. *)
Definition deliver_observed (v : Visible) (s : Owned) : Result StreamError Owned :=
  let event := vi_event v in
  if is_type (ev_type event) "response.completed" && negb (os_semanticCommitmentObserved s) then
    failure ← emptyCompletionEventAfterCommit (os_sequenceNumber s);
    emitFailureTerminal failure (ResponsesStreamError empty_upstream_completion) (Some (default event (vi_original v)))
      (s <| os_sequenceNumber := os_sequenceNumber s + 1 |>)
  else
    let visibleEvent :=
      if codexContextErrorCompatibility && is_type (ev_type event) "error"
      then codexContextFailureEvent event (os_responseId s) (os_responseTemplate s) (failureOutput s) else event in
    s ← enqueue visibleEvent (s <| os_terminalEmitted := ev_terminal event |>);
    let s := call [OnEvent event false] s in
    if ev_terminal event then s ← close_controller (s <| os_closed := true |>); Ok (return_iterator [] s)
    else Ok (stage Idle s).

Definition deliverNextEvent (event : option Visible) (s : Owned) : Owned :=
  if os_closed s then stage Idle s else
  match event with
  | None => or_fail s (deliver_missing s)
  | Some v =>
      if os_terminalEmitted s then stage Idle s else
      match observeVisibleEvent (vi_event v) s with
      | (s, Some e) => stage (PullFailing e) s
      | (s, None) => let s := advanceSequence (vi_event v) s in or_fail s (deliver_observed v s)
      end
  end.

(** An exception of the handler rejects the pull. *)
Definition handlePullFailure (e : StreamError) (s : Owned) : Owned :=
  if os_closed s then stage Idle s else
  let handled :=
    if os_aborted s || os_cancelled s then
      s ← close_controller (s <| os_closed := true |>);
      Ok (return_iterator [OnFailure e (failureDetails e None None s)] s)
    else '(failure, s) ← syntheticFailure s; emitFailureTerminal failure e None s in
  match handled with Ok s => s | Err e => stage (Rejected e) s end.

(** ** Steps *)

Inductive Input :=
| Pull
| Answer (answer : Upstream)
| Resume
| Returned
| Cancel
| Abort.

(** What the stream does on an input; [None] when it cannot come. *)
Definition step (s : Owned) (input : Input) : option Owned :=
  match input, os_stage s with
  | Pull, Idle =>
      if os_controllerClosed s || os_cancelled s then None
      else if os_closed s then Some s
      else match os_queue s with
           | v :: queue => Some (stage (Delivering (Some v)) (s <| os_queue := queue |>))
           | [] => Some (stage Reading s)
           end
  | Answer answer, Reading => Some (next_upstream answer s)
  | Resume, Delivering event => Some (deliverNextEvent event s)
  | Resume, PullFailing e => Some (handlePullFailure e s)
  | Returned, Returning after => Some (stage Idle (call after s))
  | Cancel, _ =>
      if os_cancelled s then None
      else let s := s <| os_cancelled := true |> in
           if os_closed s then Some s
           else Some (call [AbortUpstream; OnCancel] (s <| os_closed := true |> <| os_returns := S (os_returns s) |>))
  | Abort, _ => Some (s <| os_aborted := true |>)
  | _, _ => None
  end.

Fixpoint run (s : Owned) (inputs : list Input) : option Owned :=
  match inputs with [] => Some s | input :: inputs => s ← step s input; run s inputs end.
End owned.
