(* ===== verification/ResponsesSafety.v ===== *)
(** * What the owned stream keeps

    Fields of assigned objects, the events the gateway writes itself, and the
    invariant of [createOwnedResponsesStream]'s steps. *)

From Stdlib Require Import ZArith QArith Lia.
From stdpp Require Import base strings option list.
From S2P Require Import Prelude Js JsonText JsonScan WebText JsonPrint JsonRoundTrip SseStream SseFraming ResponsesEvents ResponsesOwned.
Open Scope string_scope.
Open Scope list_scope.
Open Scope Z_scope.

(** ** Fields *)

Lemma code_unit_inj a b : code_unit a = code_unit b -> a = b.
Proof.
  unfold code_unit. intros H%Nat2Z.inj. rewrite <- (Ascii.ascii_nat_embedding a), <- (Ascii.ascii_nat_embedding b). by rewrite H.
Qed.

Lemma text_of_inj s t : text_of s = text_of t -> s = t.
Proof.
  unfold text_of. revert t. induction s as [|a s IH]; intros [|b t] H; try done. cbn in H. injection H as H1 H2.
  f_equal; [by apply code_unit_inj|by apply IH].
Qed.

Lemma get_replace k k' v o :
  get k (replace k' v o) = if bool_decide (k = k') then (fun _ => v) <$> get k' o else get k o.
Proof.
  induction o as [|[k2 v2] o IH]; cbn; [by destruct (bool_decide (k = k'))|].
  destruct (bool_decide_reflect (k' = k2)) as [<-|]; cbn.
  - by destruct (bool_decide (k = k')).
  - rewrite IH. destruct (bool_decide_reflect (k = k')) as [->|]; [|done].
    by destruct (bool_decide_reflect (k' = k2)).
Qed.

Lemma get_insert_index k i k' v o :
  get k' o = None -> get k (insert_index i k' v o) = if bool_decide (k = k') then Some v else get k o.
Proof.
  induction o as [|[k2 v2] o IH]; cbn; [done|]. destruct (bool_decide_reflect (k' = k2)) as [|Hne]; [done|]. intros Hn.
  destruct (array_index k2) as [j|]; [destruct (j <? i)|]; cbn; [|done..].
  rewrite IH by done. destruct (bool_decide_reflect (k = k2)) as [->|]; [|done]. by destruct (bool_decide_reflect (k2 = k')).
Qed.

Lemma get_app k o o' : get k (o ++ o') = match get k o with Some v => Some v | None => get k o' end.
Proof. induction o as [|[k2 v2] o IH]; [done|]. cbn. by destruct (bool_decide (k = k2)). Qed.

Lemma get_own_set k k' v o : get k (own_set k' v o) = if bool_decide (k = k') then Some v else get k o.
Proof.
  unfold own_set. destruct (get k' o) eqn:E; [rewrite get_replace, E; by destruct (bool_decide (k = k'))|].
  destruct (array_index k'); [by apply get_insert_index|]. rewrite get_app. cbn.
  destruct (bool_decide_reflect (k = k')) as [->|]; [by rewrite E|by destruct (get k o)].
Qed.

Lemma field_assign_eq key v o : field key (assign key v o) = Some v.
Proof. unfold field, assign. rewrite get_own_set. by rewrite bool_decide_true. Qed.

Lemma field_assign_ne key key' v o : key <> key' -> field key (assign key' v o) = field key o.
Proof. intros H. unfold field, assign. rewrite get_own_set. rewrite bool_decide_false; [done|]. by intros ?%text_of_inj. Qed.

(** The last property of that name in a literal. *)
Lemma field_literal key ps :
  field key (literal ps) = snd <$> List.find (fun p => String.eqb (fst p) key) (reverse ps).
Proof.
  unfold literal. induction ps as [|[k v] ps IH] using rev_ind; [done|].
  rewrite foldl_app, reverse_app. set (o := foldl _ [] ps) in *. change (foldl _ o [(k, v)]) with (assign k v o).
  change (reverse [(k, v)] ++ reverse ps) with ((k, v) :: reverse ps). cbn [List.find fst].
  destruct (String.eqb_spec k key) as [->|]; [by rewrite field_assign_eq|]. rewrite field_assign_ne by done. exact IH.
Qed.

(** ** Events the gateway writes *)

Lemma written_event value ev :
  responseEventFromValue value = Ok ev -> event_ok ev /\ ev_value ev = value /\ ev_raw ev = sseRaw value.
Proof. unfold responseEventFromValue. destruct (trimmed _) eqn:E; [|done]. by intros [= <-]. Qed.

(** A literal with a type becomes an event of that type. *)
Lemma written_literal type ps :
  field "type" (literal ps) = Some (str type) -> trimmed (Some (str type)) = Some (text_of type) ->
  exists ev, responseEventFromValue (literal ps) = Ok ev /\ ev_type ev = text_of type /\ ev_value ev = literal ps
    /\ event_ok ev /\ ev_terminal ev = terminal_type (text_of type).
Proof.
  intros Hf Ht. unfold responseEventFromValue. rewrite Hf, Ht. eexists. split_and!; try done. split; [done|]. cbn [ev_value ev_type]. by rewrite Hf.
Qed.

Lemma failureEvent_written responseId n output template :
  exists ev, failureEventAfterCommit responseId n output template = Ok ev /\ ev_type ev = text_of "response.failed"
    /\ ev_terminal ev = true /\ event_ok ev /\ field "sequence_number" (ev_value ev) = Some (js_int n).
Proof.
  unfold failureEventAfterCommit. set (response := JsObject _). clearbody response.
  edestruct (written_literal "response.failed") as (ev & -> & Ht & Hv & Hok & Htt); [by rewrite field_literal|by vm_compute|].
  exists ev. rewrite Hv, field_literal. by split_and!.
Qed.

Lemma errorEvent_written n code message :
  exists ev, responseEventFromValue (literal [("type", str "error"); ("sequence_number", js_int n); ("code", str code);
      ("message", str message); ("param", JsNull)]) = Ok ev /\ ev_type ev = text_of "error"
    /\ ev_terminal ev = true /\ event_ok ev /\ field "sequence_number" (ev_value ev) = Some (js_int n).
Proof.
  edestruct (written_literal "error") as (ev & -> & Ht & Hv & Hok & Htt); [by rewrite field_literal|by vm_compute|].
  exists ev. rewrite Hv, field_literal. by split_and!.
Qed.

(** ** Observing does not touch the stream *)

(** What an observation leaves alone. *)
Definition control (s : Owned) :=
  (os_queue s, os_sequenceNumber s, os_closed s, os_terminalEmitted s, os_warningItem s,
   (os_delivered s, os_controllerClosed s, os_cancelled s, os_aborted s, os_stage s)).

Lemma rememberText_control event s :
  control (rememberText event s) = control s /\ os_responseId (rememberText event s) = os_responseId s
  /\ os_semanticCommitmentObserved (rememberText event s) = os_semanticCommitmentObserved s.
Proof.
  unfold rememberText. destruct (isWarningEvent s event); [done|]. destruct (_ ≫= _) as [[|c r]|]; try done.
  destruct (one_of _ _); [|done]. by destruct (match accumulated _ _ with Some _ => _ | None => _ end).
Qed.

Lemma record_item_control item s :
  control (record_item item s) = control s /\ os_responseId (record_item item s) = os_responseId s
  /\ os_semanticCommitmentObserved (record_item item s) = os_semanticCommitmentObserved s.
Proof. unfold record_item. by destruct (_ ≫= _). Qed.

Lemma recordCompatibilityOutput_control output s :
  control (recordCompatibilityOutput output s) = control s /\ os_responseId (recordCompatibilityOutput output s) = os_responseId s
  /\ os_semanticCommitmentObserved (recordCompatibilityOutput output s) = os_semanticCommitmentObserved s.
Proof.
  destruct output as [[| | | |items|]|]; try done. cbn. revert s. induction items as [|item items IH]; intros s; [done|]. cbn.
  destruct (spread_value item) as [o|]; [|apply IH]. destruct (record_item_control o s) as (<- & <- & <-). apply IH.
Qed.

Lemma record_output_control event s :
  control (record_output event s) = control s /\ os_responseId (record_output event s) = os_responseId s
  /\ os_semanticCommitmentObserved (record_output event s) = os_semanticCommitmentObserved s.
Proof.
  unfold record_output. destruct (isWarningEvent s event); [done|].
  destruct (recordCompatibilityOutput_control (compatibilityOutputOf event) s) as (<- & <- & <-).
  destruct (visibleItemFromEvent _ _); [apply record_item_control|done].
Qed.

(** The event makes the stream committed. *)
Definition commits (s : Owned) (event : ResponsesStreamEvent) : bool :=
  negb (isWarningEvent s event)
  && match responsesEventSemanticKindWithIgnoredOutputItem event (warningItemId s) with Some _ => true | None => false end.

Lemma observe_flags_control event s :
  control (observe_flags event s) = control s /\ os_responseId (observe_flags event s) = os_responseId s
  /\ os_semanticCommitmentObserved (observe_flags event s) = os_semanticCommitmentObserved s || commits s event.
Proof.
  unfold observe_flags, commits. set (s' := if is_type _ _ then _ else s).
  assert (control s' = control s /\ os_responseId s' = os_responseId s
    /\ os_semanticCommitmentObserved s' = os_semanticCommitmentObserved s
    /\ isWarningEvent s' event = isWarningEvent s event /\ warningItemId s' = warningItemId s) as (H1 & H2 & H3 & H4 & H5)
    by (unfold s'; by destruct (is_type _ _)). clearbody s'. rewrite H4, H5.
  destruct (negb _ && _); [by rewrite orb_true_r|]. by rewrite orb_false_r.
Qed.

Lemma observe_control event s s' r :
  observeVisibleEvent event s = (s', r) ->
  control s' = control s
  /\ os_semanticCommitmentObserved s' = os_semanticCommitmentObserved s || commits s event.
Proof.
  unfold observeVisibleEvent. destruct (observe_flags_control event s) as (H1 & _ & H3). set (s1 := observe_flags event s) in *.
  unfold observeResponseIdentity. destruct (responseIdFromEvents [event]) as [e|candidate]; cbn; [by intros [= <- <-]|].
  destruct (join_id _ _) as [e|id]; cbn; [by intros [= <- <-]|]. set (s2 := match as_object _ with Some _ => _ | None => _ end).
  assert (control s2 = control s1 /\ os_semanticCommitmentObserved s2 = os_semanticCommitmentObserved s1) as [H4 H5]
    by (unfold s2; by destruct (as_object _)). clearbody s2. intros [= <- <-].
  destruct (rememberText_control event s2) as (H6 & _ & H7), (record_output_control event (rememberText event s2)) as (H8 & _ & H9).
  split; congruence.
Qed.

Lemma advance_control event s :
  os_queue (advanceSequence event s) = os_queue s /\ os_closed (advanceSequence event s) = os_closed s
  /\ os_terminalEmitted (advanceSequence event s) = os_terminalEmitted s /\ os_warningItem (advanceSequence event s) = os_warningItem s
  /\ os_delivered (advanceSequence event s) = os_delivered s /\ os_controllerClosed (advanceSequence event s) = os_controllerClosed s
  /\ os_cancelled (advanceSequence event s) = os_cancelled s /\ os_aborted (advanceSequence event s) = os_aborted s
  /\ os_semanticCommitmentObserved (advanceSequence event s) = os_semanticCommitmentObserved s.
Proof. unfold advanceSequence. destruct (sequence_of event); [|done]. by destruct (_ <=? _). Qed.

(** ** The invariant *)

Definition completed (event : ResponsesStreamEvent) : bool := is_type (ev_type event) "response.completed".

Definition stage_ok (g : Stage) : Prop :=
  match g with Delivering (Some v) => event_ok (vi_event v) | Rejected _ => False | _ => True end.

(** What is true while the stream is open. *)
Record open_ok (s : Owned) : Prop := {
  oo_controller : os_controllerClosed s = false;
  oo_cancelled : os_cancelled s = false;
  oo_terminal : os_terminalEmitted s = false;
  oo_delivered : Forall (fun ev => ev_terminal ev = false) (os_delivered s);
  oo_stage : match os_stage s with Returning _ => False | _ => True end;
  oo_commit : match os_stage s with
    | PullFailing _ => True
    | _ => os_semanticCommitmentObserved s = true -> Exists (fun ev => commits s ev = true) (os_delivered s)
    end }.

(** What is true once it is closed: the client cancelled, or the controller was
    closed after a terminal event or after an abort. *)
Definition closed_ok (s : Owned) : Prop :=
  os_cancelled s = true \/ (os_controllerClosed s = true /\ (ends_terminal (os_delivered s) \/ os_aborted s = true)).

Record inv (s : Owned) : Prop := {
  i_queue : Forall (fun v => event_ok (vi_event v)) (os_queue s);
  i_stage : stage_ok (os_stage s);
  i_last : terminal_last (os_delivered s);
  i_completed : forall ev, ev ∈ os_delivered s -> completed ev = true -> Exists (fun ev => commits s ev = true) (os_delivered s);
  i_open : os_closed s = false -> open_ok s;
  i_closed : os_closed s = true -> closed_ok s }.

Lemma commits_ext s s' event : os_warningItem s' = os_warningItem s -> commits s' event = commits s event.
Proof. intros H. unfold commits, isWarningEvent, warningItemId. by rewrite H. Qed.

Lemma terminal_last_snoc evs ev : Forall (fun e => ev_terminal e = false) evs -> terminal_last (evs ++ [ev]).
Proof. induction 1 as [|e evs He _ IH]; cbn; [by split; [left|]|]. split; [by right|done]. Qed.

Lemma terminal_last_open evs : Forall (fun e => ev_terminal e = false) evs -> terminal_last evs.
Proof. induction 1 as [|e evs He _ IH]; cbn; [done|]. split; [by right|done]. Qed.

Lemma exists_commits s s' evs : os_warningItem s' = os_warningItem s ->
  Exists (fun ev => commits s ev = true) evs -> Exists (fun ev => commits s' ev = true) evs.
Proof. intros H He. eapply Exists_impl; [exact He|]. intros ev Hev. by rewrite (commits_ext s s'). Qed.

(** The stream is closed with a terminal event. *)
Lemma inv_finish s s' ev :
  inv s -> os_closed s = false -> os_queue s' = os_queue s -> os_warningItem s' = os_warningItem s ->
  os_delivered s' = os_delivered s ++ [ev] -> ev_terminal ev = true -> os_closed s' = true -> os_controllerClosed s' = true ->
  stage_ok (os_stage s') -> (completed ev = true -> Exists (fun ev => commits s ev = true) (os_delivered s ++ [ev])) -> inv s'.
Proof.
  intros Hi Hc Hq Hw Hd Ht Hc' Hcc Hs Hcomp. destruct (i_open _ Hi Hc). split; rewrite ?Hq, ?Hd, ?Hc'; try done.
  - apply Hi.
  - by apply terminal_last_snoc.
  - intros e He Hce. apply (exists_commits s); [done|]. apply elem_of_app in He as [He| ->%list_elem_of_singleton]; [|auto].
    apply Exists_app. left. by apply (i_completed _ Hi e).
  - intros _. right. split; [done|]. left. exists ev. split; [|done]. by rewrite Hd, last_snoc.
Qed.

Lemma nonterminal ev name :
  event_ok ev -> ev_terminal ev = false -> terminal_type (text_of name) = true -> is_type (ev_type ev) name = false.
Proof.
  intros [Hok _] Ht Hn. unfold is_type. destruct (bool_decide_reflect (ev_type ev = text_of name)) as [E|]; [|done]. congruence.
Qed.

(** An event that is not terminal is delivered. *)
Lemma inv_forward s s' ev :
  inv s -> os_closed s = false -> os_queue s' = os_queue s -> os_warningItem s' = os_warningItem s ->
  os_delivered s' = os_delivered s ++ [ev] -> event_ok ev -> ev_terminal ev = false -> os_closed s' = false ->
  os_controllerClosed s' = false -> os_cancelled s' = false -> os_terminalEmitted s' = false -> os_stage s' = Idle ->
  (os_semanticCommitmentObserved s' = true -> Exists (fun ev => commits s ev = true) (os_delivered s ++ [ev])) -> inv s'.
Proof.
  intros Hi Hc Hq Hw Hd Hok Ht Hc' Hcc Hcn Hte Hst Hcommit. destruct (i_open _ Hi Hc).
  split; rewrite ?Hq, ?Hd, ?Hc', ?Hst; try done; try apply Hi.
  - by apply terminal_last_snoc.
  - intros e He Hce. apply (exists_commits s); [done|]. apply Exists_app. left.
    apply elem_of_app in He as [He| ->%list_elem_of_singleton]; [by apply (i_completed _ Hi e)|].
    unfold completed in Hce. by rewrite nonterminal in Hce.
  - intros _. split; rewrite ?Hst, ?Hd; try done; [apply Forall_app; split; [done|by repeat constructor]|].
    intros Hs. apply (exists_commits s); auto.
Qed.

(** A step of the pull that only moves its stage and its sequence number. *)
Lemma inv_move s s' :
  inv s -> os_queue s' = os_queue s \/ (exists v, os_queue s = v :: os_queue s' /\ os_stage s' = Delivering (Some v)) ->
  os_warningItem s' = os_warningItem s -> os_delivered s' = os_delivered s -> os_closed s' = os_closed s ->
  os_terminalEmitted s' = os_terminalEmitted s -> os_controllerClosed s' = os_controllerClosed s ->
  os_cancelled s' = os_cancelled s -> (os_aborted s = true -> os_aborted s' = true) ->
  stage_ok (os_stage s') ->
  (os_closed s = false -> match os_stage s' with
    | Returning _ => False
    | PullFailing _ => True
    | _ => os_semanticCommitmentObserved s' = true -> Exists (fun ev => commits s ev = true) (os_delivered s)
    end) -> inv s'.
Proof.
  intros Hi Hq Hw Hd Hc Ht Hcc Hcn Ha Hs Hst. split; rewrite ?Hd, ?Hc; try done; try apply Hi.
  - pose proof (i_queue _ Hi) as H. destruct Hq as [-> |(v & Hv & _)]; [done|]. rewrite Hv in H. by inversion H.
  - intros e He Hce. apply (exists_commits s); [done|]. by apply (i_completed _ Hi e).
  - intros Ho. destruct (i_open _ Hi Ho). specialize (Hst Ho). split; try congruence; try by rewrite Hd.
    + by destruct (os_stage s').
    + rewrite Hd. destruct (os_stage s'); try done; intros Hsem; apply (exists_commits s); auto.
  - intros Ho. pose proof (i_closed _ Hi Ho) as H. unfold closed_ok in *. rewrite Hcn, Hcc, Hd. naive_solver.
Qed.

(** Nothing moves once the stream is closed. *)
Lemma inv_idle s : inv s -> os_closed s = true -> inv (stage Idle s).
Proof. intros Hi Hc. apply (inv_move s); try done; auto. by rewrite Hc. Qed.

Lemma inv_called s after : inv s -> inv (call after s).
Proof.
  intros Hi. apply (inv_move s); try done; auto; [apply Hi|]. intros Hc. destruct (i_open _ Hi Hc) as [_ _ _ _ H5 H6].
  change (os_stage (call after s)) with (os_stage s). by destruct (os_stage s).
Qed.

Section steps.
Context (codexContextErrorCompatibility : bool) (validateEvent : ResponsesStreamEvent -> option StreamError)
  (warningUuid responseUuid : text).

Local Notation step := (step codexContextErrorCompatibility validateEvent responseUuid).

Lemma close_with_open ev s :
  os_controllerClosed s = false -> os_cancelled s = false ->
  close_with ev s = Ok (s <| os_terminalEmitted := true |> <| os_closed := true |> <| os_delivered := os_delivered s ++ [ev] |>
                          <| os_controllerClosed := true |>).
Proof. intros H1 H2. unfold close_with, enqueue, close_controller. cbn. by rewrite !H1, !H2. Qed.

Lemma syntheticFailure_ok s :
  exists ev, syntheticFailure responseUuid s = Ok (ev, s <| os_sequenceNumber := os_sequenceNumber s + 1 |>)
    /\ ev_terminal ev = true /\ completed ev = false /\ event_ok ev
    /\ field "sequence_number" (ev_value ev) = Some (js_int (os_sequenceNumber s)).
Proof.
  unfold syntheticFailure. destruct (os_semanticCommitmentObserved s).
  - edestruct failureEvent_written as (ev & -> & Ht & Hterm & Hok & Hn). exists ev. split_and!; try done.
    unfold completed. by rewrite Ht.
  - unfold errorEventAfterCommit. edestruct errorEvent_written as (ev & -> & Ht & Hterm & Hok & Hn). exists ev. split_and!; try done.
    unfold completed. by rewrite Ht.
Qed.

Lemma handlePullFailure_inv e s : inv s -> inv (handlePullFailure responseUuid e s).
Proof.
  intros Hi. unfold handlePullFailure. destruct (os_closed s) eqn:Hc; [by apply inv_idle|].
  destruct (i_open _ Hi Hc) as [H1 H2 H3 H4 H5 H6]. rewrite H2, orb_false_r. destruct (os_aborted s) eqn:Ha.
  - unfold close_controller. cbn. rewrite H1, H2. cbn. split; try apply Hi; try done. intros _. right. split; [done|]. by right.
  - destruct (syntheticFailure_ok s) as (ev & -> & Ht & Hnc & _). cbn. unfold emitFailureTerminal.
    rewrite close_with_open by done. cbn. apply (inv_finish s _ ev); try done. by rewrite Hnc.
Qed.
Lemma next_upstream_inv answer s :
  (match answer with UpEvent event => event_ok event | _ => True end) -> os_stage s = Reading -> inv s ->
  inv (next_upstream validateEvent answer s).
Proof.
  intros Ha Hst Hi.
  assert (Hcommit : os_closed s = false -> os_semanticCommitmentObserved s = true -> Exists (fun ev => commits s ev = true) (os_delivered s)).
  { intros Hc. pose proof (oo_commit _ (i_open _ Hi Hc)) as H. by rewrite Hst in H. }
  assert (Hfail : forall e, inv (stage (PullFailing e) s)) by (intros e; apply (inv_move s); try done; auto).
  destruct answer as [event| |e]; cbn; [|by apply (inv_move s); try done; auto|apply Hfail].
  destruct (validate _ event); [apply Hfail|]. destruct (_ ≫= _) as [e|id]; [apply Hfail|].
  destruct (os_warningItem s) as [item|] eqn:Hw; [|apply (inv_move s); try done; auto].
  cbn. destruct (rewriteResponsesEventForWarning _ _ _) as [e|ev] eqn:Hr; apply (inv_move s); try done; auto.
  unfold rewriteResponsesEventForWarning in Hr. by apply written_event in Hr as [? _].
Qed.

Lemma codexContext_terminal event responseId template output :
  event_ok event -> is_type (ev_type event) "error" = true ->
  ev_terminal (codexContextFailureEvent event responseId template output) = true
  /\ completed (codexContextFailureEvent event responseId template output) = false.
Proof.
  intros [Hok _] He. unfold is_type in He. apply bool_decide_eq_true in He. rewrite He in Hok.
  unfold codexContextFailureEvent, completed, is_type. rewrite He.
  assert (ev_terminal event = true /\ bool_decide (text_of "error" = text_of "response.completed") = false) as [H1 H2]
    by (split; [rewrite Hok|]; by vm_compute).
  destruct responseId as [[|c r]|]; rewrite ?He; try done. cbn [negb]. destruct (negb (bool_decide _)) eqn:E; [by rewrite He|].
  destruct (negb (equals _ _)); [by rewrite He|]. done.
Qed.

(** An observed event is delivered, or replaced by a failure when it would
    complete a response without output. *)
Lemma deliver_observed_inv v s s' :
  inv s -> os_closed s = false -> event_ok (vi_event v) -> match os_stage s with PullFailing _ => False | _ => True end ->
  os_queue s' = os_queue s -> os_warningItem s' = os_warningItem s -> os_delivered s' = os_delivered s -> os_closed s' = os_closed s ->
  os_controllerClosed s' = os_controllerClosed s -> os_cancelled s' = os_cancelled s -> os_aborted s' = os_aborted s ->
  os_semanticCommitmentObserved s' = os_semanticCommitmentObserved s || commits s (vi_event v) ->
  inv (or_fail s' (deliver_observed codexContextErrorCompatibility v s')).
Proof.
  intros Hi Hc Hok Hst Hq Hw Hd Hc' Hcc Hcn Ha Hsem. destruct (i_open _ Hi Hc) as [H1 H2 H3 H4 H5 H6].
  assert (Hcommit : os_semanticCommitmentObserved s' = true ->
    forall ev, (commits s (vi_event v) = true -> ev = vi_event v) -> Exists (fun ev => commits s ev = true) (os_delivered s ++ [ev])).
  { rewrite Hsem. intros [Hs|Hs]%orb_true_iff ev Hev; apply Exists_app; [left|right; constructor; by rewrite Hev].
    by destruct (os_stage s); try done; apply H6. }
  unfold deliver_observed. fold (completed (vi_event v)).
  destruct (completed (vi_event v) && negb (os_semanticCommitmentObserved s')) eqn:Hempty.
  - unfold emptyCompletionEventAfterCommit.
    edestruct errorEvent_written as (ev & -> & Ht & Hterm & _). cbn [mbind result_bind]. unfold emitFailureTerminal.
    rewrite close_with_open by (cbn; congruence). cbn. apply (inv_finish s _ ev); try done; cbn; try congruence.
    intros Hx. exfalso. revert Hx. unfold completed. by rewrite Ht.
  - set (visible := if _ && _ then _ else vi_event v).
    assert (ev_terminal visible = ev_terminal (vi_event v) /\ (completed visible = true -> visible = vi_event v)) as (Hvt & Hvc).
    { unfold visible. destruct (codexContextErrorCompatibility && is_type (ev_type (vi_event v)) "error") eqn:E; [|done].
      apply andb_true_iff in E as [_ E].
      destruct (codexContext_terminal (vi_event v) (os_responseId s') (os_responseTemplate s') (failureOutput s') Hok E) as [-> Hnc].
      split_and!; [|by rewrite Hnc]. destruct Hok as [-> _]. unfold is_type in E. apply bool_decide_eq_true in E. by rewrite E. }
    unfold enqueue. cbn. rewrite Hcc, Hcn, H1, H2. cbn. destruct (ev_terminal (vi_event v)) eqn:Ht.
    + unfold close_controller. cbn. rewrite ?Hcc, ?Hcn, ?H1, ?H2. cbn. apply (inv_finish s _ visible); try done; cbn; try congruence.
      intros Hx. pose proof Hx as Hx'. rewrite (Hvc Hx) in Hx'. rewrite Hx' in Hempty. apply negb_false_iff in Hempty.
      apply Hcommit; [done|]. intros _. by apply Hvc.
    + assert (visible = vi_event v) as -> by (unfold visible; by rewrite (nonterminal (vi_event v)), andb_false_r).
      apply (inv_forward s _ (vi_event v)); try done; cbn; try congruence. intros Hs. by apply Hcommit.
Qed.

Lemma deliverNextEvent_inv event s :
  inv s -> os_stage s = Delivering event -> inv (deliverNextEvent codexContextErrorCompatibility responseUuid event s).
Proof.
  intros Hi Hst. unfold deliverNextEvent. destruct (os_closed s) eqn:Hc; [by apply inv_idle|].
  destruct (i_open _ Hi Hc) as [H1 H2 H3 H4 H5 H6]. destruct event as [v|].
  - rewrite H3. pose proof (i_stage _ Hi) as Hok. rewrite Hst in Hok. cbn in Hok.
    destruct (observeVisibleEvent (vi_event v) s) as [s' [e|]] eqn:Ho; apply observe_control in Ho as [Hctl Hsem];
      injection Hctl as E1 E2 E3 E4 E5 E6 E7 E8 E9 E10.
    + apply (inv_move s); try done; auto. by rewrite <- E9.
    + destruct (advance_control (vi_event v) s') as (A1 & A2 & A3 & A4 & A5 & A6 & A7 & A8 & A9).
      apply (deliver_observed_inv v s); rewrite ?Hst; try done; congruence.
  - unfold deliver_missing. destruct (syntheticFailure_ok s) as (ev & -> & Ht & Hnc & _). cbn.
    rewrite close_with_open by done. cbn. apply (inv_finish s _ ev); try done. by rewrite Hnc.
Qed.

Definition input_ok (input : Input) : Prop := match input with Answer (UpEvent event) => event_ok event | _ => True end.

Lemma step_inv s input s' : input_ok input -> inv s -> step s input = Some s' -> inv s'.
Proof.
  intros Hin Hi. destruct input as [|answer| | | |]; cbn; intros H.
  - destruct (os_stage s) eqn:Hst; try done. destruct (os_controllerClosed s || os_cancelled s); [done|].
    destruct (os_closed s) eqn:Hc; [by injection H as <-|].
    pose proof (oo_commit _ (i_open _ Hi Hc)) as Hcm. rewrite Hst in Hcm.
    destruct (os_queue s) as [|v queue] eqn:Hq; injection H as <-; apply (inv_move s); try done; auto.
    + right. by exists v.
    + cbn. pose proof (i_queue _ Hi) as Hall. rewrite Hq in Hall. by inversion Hall.
  - destruct (os_stage s) eqn:Hst; try done. injection H as <-. by apply next_upstream_inv.
  - destruct (os_stage s) eqn:Hst; try done; injection H as <-; [by apply deliverNextEvent_inv|by apply handlePullFailure_inv].
  - destruct (os_stage s) eqn:Hst; try done. injection H as <-. apply inv_idle; [by apply inv_called|].
    destruct (os_closed s) eqn:Hc; [done|]. pose proof (oo_stage _ (i_open _ Hi Hc)) as Hno. by rewrite Hst in Hno.
  - destruct (os_cancelled s) eqn:Hcn; [done|]. destruct (os_closed s) eqn:Hc.
    + injection H as <-.
      split; try apply Hi; cbn; [done|]. intros _. by left.
    + injection H as <-.
      apply inv_called. split; try apply Hi; try done. intros _. by left.
  - injection H as <-. apply (inv_move s); try done; auto; [apply Hi|]. intros Hc. destruct (i_open _ Hi Hc) as [_ _ _ _ H5 H6].
    change (os_stage (s <| os_aborted := true |>)) with (os_stage s). by destruct (os_stage s).
Qed.
End steps.

(** ** The stream at its start *)

(** Events with consecutive sequence numbers. *)
Fixpoint numbered (n : Z) (events : list ResponsesStreamEvent) : Prop :=
  match events with
  | [] => True
  | event :: events => field "sequence_number" (ev_value event) = Some (js_int n) /\ numbered (n + 1) events
  end.

Lemma numbered_app n events events' :
  numbered n (events ++ events') <-> numbered n events /\ numbered (n + Z.of_nat (length events)) events'.
Proof.
  revert n. induction events as [|event events IH]; intros n; [cbn; rewrite Z.add_0_r; naive_solver|].
  cbn [app numbered]. rewrite IH. replace (n + 1 + Z.of_nat (length events)) with (n + Z.of_nat (length (event :: events))) by (cbn [length]; lia).
  naive_solver.
Qed.

(** What a rewriter promises: an event of the same type with its number. *)
Definition rewrites (rewrite : ResponsesStreamEvent -> Z -> Result StreamError ResponsesStreamEvent) : Prop :=
  forall event n ev, rewrite event n = Ok ev ->
    event_ok ev /\ field "sequence_number" (ev_value ev) = Some (js_int n) /\ (event_ok event -> ev_type ev = ev_type event).

Lemma written_type value ev event :
  responseEventFromValue value = Ok ev -> field "type" value = field "type" (ev_value event) -> event_ok event -> ev_type ev = ev_type event.
Proof. intros H Hf [_ Ht]. unfold responseEventFromValue in H. rewrite Hf, Ht in H. by injection H as <-. Qed.

Lemma rewriteSequence_spec : rewrites rewriteResponsesEventSequence.
Proof.
  intros event n ev H. pose proof H as (Hok & Hv & _)%written_event. rewrite Hv, field_assign_eq. split_and!; [done|done|].
  intros Hev. by eapply written_type; [exact H|by rewrite field_assign_ne|].
Qed.

Lemma rewriteForWarning_spec item : rewrites (fun event => rewriteResponsesEventForWarning event item).
Proof.
  intros event n ev H. unfold rewriteResponsesEventForWarning in H.
  set (v1 := assign "sequence_number" _ _) in H. set (v2 := match field "output_index" v1 with Some _ => _ | None => v1 end) in H.
  set (v3 := if one_of _ _ then _ else v2) in H.
  assert (Hkeep : forall key, key <> "output_index" -> key <> "response" -> field key v3 = field key v1).
  { intros key H1 H2. transitivity (field key v2).
    - unfold v3. destruct (one_of _ _); [|done]. destruct (as_object _); [|done]. by rewrite field_assign_ne.
    - unfold v2. destruct (field "output_index" v1); [|done]. by rewrite field_assign_ne. }
  clearbody v3. clear v2. pose proof H as (Hok & Hv & _)%written_event.
  rewrite Hv, Hkeep by done. split_and!; [done|by unfold v1; rewrite field_assign_eq|].
  intros Hev. eapply written_type; [exact H| |done]. rewrite Hkeep by done. unfold v1. by rewrite field_assign_ne.
Qed.

Lemma rewrite_all_spec rewrite events n l :
  rewrites rewrite -> rewrite_all rewrite events n = Ok l ->
  Forall (fun v => event_ok (vi_event v)) l /\ numbered n (vi_event <$> l).
Proof.
  intros Hr. revert n l. induction events as [|event events IH]; intros n l H; cbn in H; [by injection H as <-|].
  destruct (rewrite event n) as [|ev] eqn:E; [done|]. cbn in H. destruct (rewrite_all rewrite events (n + 1)) as [|l'] eqn:El; [done|].
  injection H as <-. apply Hr in E as (H1 & H2 & _). apply IH in El as [H3 H4]. split; [by constructor|]. done.
Qed.

Lemma numbered_events_spec values n l : numbered_events values n = Ok l -> Forall event_ok l /\ numbered n l.
Proof.
  revert n l. induction values as [|value values IH]; intros n l H; cbn in H; [by injection H as <-|].
  destruct (responseEventFromValue _) as [|ev] eqn:E; [done|]. cbn in H. destruct (numbered_events values (n + 1)) as [|l'] eqn:El; [done|].
  injection H as <-. apply written_event in E as (H1 & H2 & _). apply IH in El as [H3 H4]. split; [by constructor|].
  split; [|done]. by rewrite H2, field_assign_eq.
Qed.

Lemma preamble_spec validateEvent warningUuid initial responseId model queue item n :
  queueWarningPreamble validateEvent warningUuid initial responseId model 0 = Ok (queue, item, n) ->
  Forall (fun v => event_ok (vi_event v)) queue /\ numbered 0 (vi_event <$> queue) /\ n = Z.of_nat (length queue).
Proof.
  unfold queueWarningPreamble. intros H. inv_ok.
  repeat match goal with
  | H : rewrite_all rewriteResponsesEventSequence _ _ = Ok _ |- _ => apply (rewrite_all_spec _ _ _ _ rewriteSequence_spec) in H as [? ?]
  | H : rewrite_all (fun event => _) _ _ = Ok _ |- _ => apply (rewrite_all_spec _ _ _ _ (rewriteForWarning_spec _)) in H as [? ?]
  | H : rewriteResponsesEventSequence _ _ = Ok _ |- _ => apply rewriteSequence_spec in H as (? & ? & _)
  | H : buildFailoverWarningEvents _ _ _ _ = Ok _ |- _ => unfold buildFailoverWarningEvents in H; inv_ok
  | H : numbered_events _ _ = Ok _ |- _ => apply numbered_events_spec in H as [? ?]
  end.
  split_and!.
  - constructor; [done|]. rewrite !Forall_app, Forall_fmap. done.
  - cbn [fmap list_fmap vi_event]. split; [done|]. rewrite !fmap_app, !numbered_app, <- list_fmap_compose. cbn [compose vi_event].
    rewrite !length_fmap. rewrite list_fmap_id. done.
  - cbn [length]. rewrite !length_app, length_fmap. lia.
Qed.

Lemma opened_inv queue responseId n item :
  Forall (fun v => event_ok (vi_event v)) queue -> inv (opened queue responseId n item).
Proof. intros Hq. split; try done. intros ev Hev. by apply not_elem_of_nil in Hev. Qed.

Lemma create_inv validateEvent warningUuid initial responseId warning s :
  Forall event_ok initial -> createOwnedResponsesStream validateEvent warningUuid initial responseId warning = Ok s -> inv s.
Proof.
  intros Hok. unfold createOwnedResponsesStream. destruct warning as [model|].
  - destruct responseId as [[|c r]|]; try done. intros H. inv_ok.
    match goal with H : queueWarningPreamble _ _ _ _ _ _ = Ok _ |- _ => apply preamble_spec in H as (? & _ & _) end.
    by apply opened_inv.
  - intros H. inv_ok. apply opened_inv. by apply Forall_fmap.
Qed.

Section runs.
Context (codexContextErrorCompatibility : bool) (validateEvent : ResponsesStreamEvent -> option StreamError) (responseUuid : text).

Lemma run_inv inputs s s' :
  Forall input_ok inputs -> inv s -> run codexContextErrorCompatibility validateEvent responseUuid s inputs = Some s' -> inv s'.
Proof.
  intros Hin. revert s. induction Hin as [|input inputs Hi _ IH]; intros s Hs H; cbn in H; [by injection H as <-|].
  destruct (step _ _ _ s input) as [s1|] eqn:E; [|done]. apply (IH s1); [|done]. by eapply step_inv.
Qed.

(** Once closed, the stream delivers nothing more. *)
Lemma step_closed s input s' :
  os_closed s = true -> step codexContextErrorCompatibility validateEvent responseUuid s input = Some s' ->
  os_closed s' = true /\ os_delivered s' = os_delivered s.
Proof.
  intros Hc. destruct input as [|answer| | | |]; cbn; intros H.
  - destruct (os_stage s); try done. destruct (_ || _); [done|]. rewrite Hc in H. by injection H as <-.
  - destruct (os_stage s); try done. injection H as <-. unfold next_upstream. destruct answer as [event| |e]; try done.
    destruct (validate _ event); [done|]. destruct (_ ≫= _); [done|]. cbn. destruct (os_warningItem s); [|done].
    by destruct (rewriteResponsesEventForWarning _ _ _).
  - destruct (os_stage s); try done; injection H as <-; [unfold deliverNextEvent|unfold handlePullFailure]; by rewrite Hc.
  - destruct (os_stage s); try done. by injection H as <-.
  - destruct (os_cancelled s); [done|]. rewrite Hc in H. by injection H as <-.
  - by injection H as <-.
Qed.

Lemma run_closed inputs s s' :
  os_closed s = true -> run codexContextErrorCompatibility validateEvent responseUuid s inputs = Some s' ->
  os_closed s' = true /\ os_delivered s' = os_delivered s.
Proof.
  revert s. induction inputs as [|input inputs IH]; intros s Hc H; cbn in H; [by injection H as <-|].
  destruct (step _ _ _ s input) as [s1|] eqn:E; [|done]. apply step_closed in E as [Hc1 <-]; [|done]. by apply IH.
Qed.
End runs.
