(* ===== verification/ResponsesTheorems.v ===== *)
(** * What the client of a Responses stream gets

    The guarantees of ResponsesOwned.v and of the buffer of ResponsesEvents.v. *)

From Stdlib Require Import ZArith QArith Lia.
From stdpp Require Import base strings option list.
From S2P Require Import Prelude Js JsonText JsonScan WebText JsonPrint JsonRoundTrip SseStream SseFraming ResponsesEvents ResponsesOwned ResponsesSafety.
Open Scope string_scope.
Open Scope list_scope.
Open Scope Z_scope.

(** [s] is reached from a fresh stream by these inputs; the events come from
    [parseEventBlock] or [responseEventFromValue]. *)
Definition reachable (codexContextErrorCompatibility : bool) (validateEvent : ResponsesStreamEvent -> option StreamError)
    (warningUuid responseUuid : text) (initial : list ResponsesStreamEvent) (responseId warning : option text)
    (inputs : list Input) (s : Owned) : Prop :=
  Forall event_ok initial /\ Forall input_ok inputs /\
  exists s0, createOwnedResponsesStream validateEvent warningUuid initial responseId warning = Ok s0
    /\ run codexContextErrorCompatibility validateEvent responseUuid s0 inputs = Some s.

Lemma owned_reachable_inv codex validateEvent wu ru initial responseId warning inputs s :
  reachable codex validateEvent wu ru initial responseId warning inputs s -> inv s.
Proof. intros (Hi & Hin & s0 & Hc & Hr). eapply run_inv; [exact Hin| |exact Hr]. by eapply create_inv. Qed.

(** C17: The client sees at most one terminal event and nothing after it.
    Whatever the upstream answers, whenever the client cancels and the signals
    abort, only the last event delivered can be terminal; a stream that is closed
    without a cancellation was closed after a terminal event, or after an abort;
    while it is open no terminal event was delivered; once it is closed nothing is
    delivered any more; and no call on the controller ever throws, so no pull is
    rejected. *)
Theorem owned_one_terminal codex validateEvent wu ru initial responseId warning inputs s :
  reachable codex validateEvent wu ru initial responseId warning inputs s ->
  terminal_last (os_delivered s)
  /\ (os_closed s = true ->
      os_cancelled s = true \/ (os_controllerClosed s = true /\ (ends_terminal (os_delivered s) \/ os_aborted s = true)))
  /\ (os_closed s = false -> Forall (fun ev => ev_terminal ev = false) (os_delivered s))
  /\ (forall more s', os_closed s = true -> run codex validateEvent ru s more = Some s' -> os_delivered s' = os_delivered s)
  /\ (forall e, os_stage s <> Rejected e).
Proof.
  intros Hi%owned_reachable_inv. split_and!.
  - apply Hi.
  - apply Hi.
  - intros Hc. apply (i_open _ Hi Hc).
  - intros more s' Hc Hr. by eapply run_closed.
  - intros e He. pose proof (i_stage _ Hi) as H. by rewrite He in H.
Qed.

(** C20: An empty completion is never passed off as an answer.  When the client
    was told [response.completed], an event it was given carries output: it is
    not part of the failover warning, and it is text, a refusal or a tool call by
    the gateway's own classification. *)
Theorem owned_no_empty_success codex validateEvent wu ru initial responseId warning inputs s :
  reachable codex validateEvent wu ru initial responseId warning inputs s ->
  forall event, event ∈ os_delivered s -> ev_type event = text_of "response.completed" ->
  exists output, output ∈ os_delivered s /\ isWarningEvent s output = false
    /\ responsesEventSemanticKindWithIgnoredOutputItem output (warningItemId s) <> None.
Proof.
  intros Hi%owned_reachable_inv event Hin Ht.
  assert (completed event = true) as Hc by (unfold completed, is_type; by rewrite Ht, bool_decide_true).
  pose proof (i_completed _ Hi event Hin Hc) as (ev & Hev & Hcm)%Exists_exists. exists ev. unfold commits in Hcm.
  apply andb_true_iff in Hcm as [Hw Hk]. split_and!; [done|by apply negb_true_iff|]. by destruct (responsesEventSemanticKindWithIgnoredOutputItem _ _).
Qed.

(** ** A consumer that keeps pulling *)

Section progress.
Context (codexContextErrorCompatibility : bool) (validateEvent : ResponsesStreamEvent -> option StreamError) (responseUuid : text).
Local Notation step := (step codexContextErrorCompatibility validateEvent responseUuid).

(** The continuation of a pull, and its handler when it throws. *)
Definition resume (s : Owned) : option Owned :=
  s ← step s Resume; match os_stage s with PullFailing _ => step s Resume | _ => Some s end.

(** One pull, with the iterator's next answer if it asks for it. *)
Definition pull_once (s : Owned) (upstream : list Upstream) : option (Owned * list Upstream) :=
  s ← step s Pull;
  match os_stage s, upstream with
  | Reading, [] => None
  | Reading, answer :: upstream => s ← step s (Answer answer); s ← resume s; Some (s, upstream)
  | _, _ => s ← resume s; Some (s, upstream)
  end.

Fixpoint drive (pulls : nat) (s : Owned) (upstream : list Upstream) : option Owned :=
  match pulls with
  | O => Some s
  | S pulls => if os_closed s then Some s else '(s, upstream) ← pull_once s upstream; drive pulls s upstream
  end.

(** The client's cancellation and the signals. *)
Definition signals (s : Owned) : bool * bool := (os_aborted s, os_cancelled s).

(** An answer after which the upstream has nothing more to say. *)
Definition final (answer : Upstream) : bool := match answer with UpEvent event => ev_terminal event | _ => true end.

Lemma handle_closes e s : inv s -> os_closed s = false ->
  let s' := handlePullFailure responseUuid e s in
  os_closed s' = true /\ signals s' = signals s /\ (forall e, os_stage s' <> PullFailing e).
Proof.
  intros Hi Hc. destruct (i_open _ Hi Hc) as [H1 H2 _ _ _ _]. unfold handlePullFailure. rewrite Hc, H2, orb_false_r.
  destruct (os_aborted s) eqn:Ha.
  - unfold close_controller. cbn. rewrite H1, H2. cbn. unfold signals. cbn. by rewrite Ha, H2.
  - destruct (syntheticFailure_ok responseUuid s) as (ev & -> & _). cbn. unfold emitFailureTerminal. rewrite close_with_open by done.
    cbn. unfold signals. cbn. by rewrite Ha, H2.
Qed.

(** A delivery closes the stream, fails, or leaves it open for the next pull. *)
Lemma deliver_progress event s :
  inv s -> os_closed s = false -> os_stage s = Delivering event ->
  let s' := deliverNextEvent codexContextErrorCompatibility responseUuid event s in
  signals s' = signals s /\
  (os_closed s' = true /\ (forall e, os_stage s' <> PullFailing e)
   \/ os_closed s' = false /\ ((exists e, os_stage s' = PullFailing e)
      \/ (os_stage s' = Idle /\ os_queue s' = os_queue s /\ exists v, event = Some v /\ ev_terminal (vi_event v) = false))).
Proof.
  intros Hi Hc Hst. destruct (i_open _ Hi Hc) as [H1 H2 H3 _ _ _]. unfold deliverNextEvent. rewrite Hc. destruct event as [v|].
  - rewrite H3. destruct (observeVisibleEvent (vi_event v) s) as [s' [e|]] eqn:Ho; apply observe_control in Ho as [Hctl _];
      injection Hctl as E1 E2 E3 E4 E5 E6 E7 E8 E9 E10; [cbn; split; [unfold signals; cbn; congruence|]; right; split; [unfold signals in *; cbn; congruence|]; left; by exists e|].
    destruct (advance_control (vi_event v) s') as (A1 & A2 & A3 & A4 & A5 & A6 & A7 & A8 & A9). set (s2 := advanceSequence _ _) in *.
    unfold deliver_observed. destruct (_ && negb _).
    + unfold emptyCompletionEventAfterCommit. edestruct errorEvent_written as (ev & -> & _). cbn [mbind result_bind]. unfold emitFailureTerminal.
      rewrite close_with_open by (cbn; congruence). cbn. split; [unfold signals in *; cbn; congruence|]. by left.
    + unfold enqueue, close_controller. cbn. rewrite A6, A7, E7, E8, H1, H2. cbn. destruct (ev_terminal (vi_event v)) eqn:Ht; cbn.
      * rewrite ?A6, ?A7, ?E7, ?E8, ?H1, ?H2. cbn. split; [unfold signals in *; cbn; congruence|]. by left.
      * split; [unfold signals in *; cbn; congruence|]. right. split; [unfold signals in *; cbn; congruence|]. right. split_and!; [done|congruence|by exists v].
  - unfold deliver_missing. destruct (syntheticFailure_ok responseUuid s) as (ev & -> & _). cbn. rewrite close_with_open by done. cbn.
    split; [done|]. by left.
Qed.

Lemma resume_progress s :
  inv s -> os_closed s = false -> (exists event, os_stage s = Delivering event) \/ (exists e, os_stage s = PullFailing e) ->
  exists s', resume s = Some s' /\ inv s' /\ signals s' = signals s
    /\ (os_closed s' = true
        \/ (os_closed s' = false /\ os_stage s' = Idle /\ os_queue s' = os_queue s
            /\ exists v, os_stage s = Delivering (Some v) /\ ev_terminal (vi_event v) = false)).
Proof.
  intros Hi Hc Hst. unfold resume. destruct Hst as [[event Hst]|[e Hst]]; cbn; rewrite Hst; cbn.
  - destruct (deliver_progress event s Hi Hc Hst) as [Ha Hd]. pose proof (deliverNextEvent_inv codexContextErrorCompatibility responseUuid event s Hi Hst) as Hi'.
    set (s1 := deliverNextEvent _ _ event s) in *. destruct Hd as [[Hc1 Hn]|[Hc1 [[e He]|(Hs1 & Hq & v & -> & Hv)]]].
    + exists s1. split_and!; [|done|done|by left]. destruct (os_stage s1) eqn:E; try done. by destruct (Hn e).
    + rewrite He. destruct (handle_closes e s1 Hi' Hc1) as (Hcl & Hab & _). exists (handlePullFailure responseUuid e s1).
      split_and!; [done|by apply handlePullFailure_inv|congruence|by left].
    + rewrite Hs1. exists s1. split_and!; [done|done|done|]. right. split_and!; [done|done|done|by exists v].
  - destruct (handle_closes e s Hi Hc) as (Hcl & Hab & Hn). pose proof (handlePullFailure_inv responseUuid e s Hi) as Hi'.
    set (s1 := handlePullFailure responseUuid e s) in *. exists s1. split_and!; [|done|done|by left].
    destruct (os_stage s1) eqn:E; try done. by destruct (Hn e0).
Qed.

Lemma answer_progress answer s :
  input_ok (Answer answer) -> os_closed s = false ->
  let s' := next_upstream validateEvent answer s in
  os_closed s' = false /\ signals s' = signals s /\ os_queue s' = os_queue s
  /\ ((exists e, os_stage s' = PullFailing e)
      \/ exists event, os_stage s' = Delivering event
          /\ (final answer = true -> match event with Some v => ev_terminal (vi_event v) = true | None => True end)).
Proof.
  intros Hok Hc. destruct answer as [event| |e]; cbn; [|by split_and!; eauto..].
  destruct (validate _ event); [by split_and!; eauto|]. destruct (_ ≫= _); [by split_and!; eauto|]. cbn.
  destruct (os_warningItem s) as [item|]; [|by split_and!; eauto].
  destruct (rewriteResponsesEventForWarning _ _ _) as [e|ev] eqn:Hr; [by split_and!; eauto|].
  apply (rewriteForWarning_spec item) in Hr as ([Hok' _] & _ & Ht). split_and!; [done|done|done|]. right. eexists. split; [done|].
  cbn. intros Hf. rewrite Hok', Ht by done. cbn in Hok. by rewrite <- (proj1 Hok).
Qed.

(** A pull either closes the stream or uses up one event. *)
Lemma pull_progress s upstream :
  inv s -> os_closed s = false -> os_stage s = Idle -> Forall (fun answer => input_ok (Answer answer)) upstream ->
  Exists (fun answer => final answer = true) upstream ->
  exists s' upstream', pull_once s upstream = Some (s', upstream') /\ inv s' /\ signals s' = signals s
    /\ (os_closed s' = true
        \/ (os_closed s' = false /\ os_stage s' = Idle /\ Forall (fun answer => input_ok (Answer answer)) upstream'
            /\ Exists (fun answer => final answer = true) upstream'
            /\ (length (os_queue s') + length upstream' < length (os_queue s) + length upstream)%nat)).
Proof.
  intros Hi Hc Hst Hok Hfin. destruct (i_open _ Hi Hc) as [H1 H2 _ _ _ _].
  unfold pull_once. assert (Hpull : forall s1, step s Pull = Some s1 -> inv s1)
    by (intros s1 H; by apply (step_inv codexContextErrorCompatibility validateEvent responseUuid s Pull s1)).
  destruct (os_queue s) as [|v queue] eqn:Hq.
  - set (s1 := stage Reading s). assert (Hs1 : step s Pull = Some s1) by (cbn; by rewrite Hst, H1, H2, Hc, Hq).
    rewrite Hs1. specialize (Hpull _ Hs1). cbn [mbind option_bind]. change (os_stage s1) with Reading.
    destruct upstream as [|answer upstream]; [by inversion Hfin|]. inversion Hok as [|? ? Ha Hok']; subst.
    change (step s1 (Answer answer)) with (Some (next_upstream validateEvent answer s1)). cbn [mbind option_bind].
    destruct (answer_progress answer s1 Ha Hc) as (Hc2 & Ha2 & Hq2 & Hs2).
    pose proof (next_upstream_inv validateEvent answer s1 ltac:(by destruct answer) eq_refl Hpull) as Hi2.
    set (s2 := next_upstream validateEvent answer s1) in *.
    destruct (resume_progress s2 Hi2 Hc2) as (s3 & -> & Hi3 & Ha3 & Hs3); [naive_solver|]. cbn [mbind option_bind].
    exists s3, upstream. split_and!; [done|done|by rewrite Ha3, Ha2|]. destruct Hs3 as [|(Hc3 & Hst3 & Hq3 & v & Hv & Htv)]; [by left|]. right.
    split_and!; [done|done|done| |rewrite Hq3, Hq2; change (os_queue s1) with (os_queue s); rewrite Hq; cbn [length]; lia].
    destruct Hs2 as [[e He]|(event & He & Hev)]; [congruence|]. rewrite He in Hv. injection Hv as ->.
    inversion Hfin as [? ? Hfa|]; subst; [|done]. rewrite Hev in Htv; done.
  - set (s1 := stage (Delivering (Some v)) (s <| os_queue := queue |>)).
    assert (Hs1 : step s Pull = Some s1) by (clear - Hst H1 H2 Hc Hq; destruct s; cbn in *; by subst).
    rewrite Hs1. specialize (Hpull _ Hs1). destruct (resume_progress s1 Hpull Hc) as (s3 & Hr & Hi3 & Ha3 & Hs3); [left; by eexists|].
    cbn [mbind option_bind]. change (os_stage s1) with (Delivering (Some v)). cbv iota. rewrite Hr. cbn [mbind option_bind].
    exists s3, upstream. split_and!; [done|done|done|]. destruct Hs3 as [|(Hc3 & Hst3 & Hq3 & _)]; [by left|]. right.
    split_and!; try done. rewrite Hq3. change (os_queue s1) with queue. cbn [length]. lia.
Qed.
End progress.

(** C16: A stream that is read ends.  From any reachable state between two pulls,
    if the upstream ends, fails or sends a terminal event, a client that keeps
    pulling and does not cancel has the stream closed after at most as many pulls
    as there are queued events and upstream answers, so no request is left
    hanging on a dead upstream; and unless a signal was aborted the last event
    the stream enqueues is a terminal one.  This is said of the events as they
    are enqueued, each with its own text.  It does not say that a client parses a
    terminal event from the bytes: an upstream event whose text came without its
    closing empty line is enqueued as it came, and on the wire the next event's
    text joins its block ([SseKeepalive.trailing_event_hides_failure]). *)
Theorem owned_stream_ends codex validateEvent wu ru initial responseId warning inputs s upstream :
  reachable codex validateEvent wu ru initial responseId warning inputs s ->
  os_closed s = false -> os_stage s = Idle ->
  Forall (fun answer => input_ok (Answer answer)) upstream -> Exists (fun answer => final answer = true) upstream ->
  exists s', drive codex validateEvent ru (length (os_queue s) + length upstream) s upstream = Some s'
    /\ os_closed s' = true /\ (os_aborted s = false -> ends_terminal (os_delivered s')).
Proof.
  intros Hr%owned_reachable_inv. remember (length (os_queue s) + length upstream)%nat as n eqn:Hn.
  assert (Hle : (length (os_queue s) + length upstream <= n)%nat) by lia. clear Hn. revert s upstream Hr Hle.
  induction n as [|n IH]; intros s upstream Hi Hle Hc Hst Hok Hfin.
  { destruct upstream; [by inversion Hfin|cbn in Hle; lia]. }
  cbn [drive]. rewrite Hc.
  destruct (pull_progress codex validateEvent ru s upstream Hi Hc Hst Hok Hfin) as (s1 & upstream1 & -> & Hi1 & Ha1 & Hs1).
  cbn [mbind option_bind]. destruct Hs1 as [Hc1|(Hc1 & Hst1 & Hok1 & Hfin1 & Hlt)].
  - exists s1. split_and!; [by destruct n; cbn; rewrite ?Hc1|done|]. intros Ha. injection Ha1 as Ha1 Hcn1.
    pose proof (oo_cancelled _ (i_open _ Hi Hc)). destruct (i_closed _ Hi1 Hc1) as [|[_ [|]]]; [congruence|done|congruence].
  - injection Ha1 as Ha1 _. rewrite <- Ha1. apply IH; try done. lia.
Qed.

(** ** Sequence numbers *)

Section sequence.
Context (codexContextErrorCompatibility : bool) (validateEvent : ResponsesStreamEvent -> option StreamError) (responseUuid : text).
Local Notation step := (step codexContextErrorCompatibility validateEvent responseUuid).

(** The event a pull has taken and not delivered yet. *)
Definition in_flight (s : Owned) : list ResponsesStreamEvent :=
  match os_stage s with Delivering (Some v) => [vi_event v] | _ => [] end.

(** The events that have their numbers. *)
Definition lined_up (s : Owned) : list ResponsesStreamEvent := os_delivered s ++ in_flight s ++ (vi_event <$> os_queue s).

(** All but the last are numbered by their place, the last not below it. *)
Definition well_numbered (events : list ResponsesStreamEvent) : Prop :=
  numbered 0 events \/
  exists before event n, events = before ++ [event] /\ numbered 0 before
    /\ field "sequence_number" (ev_value event) = Some (js_int n) /\ Z.of_nat (length before) <= n.

Record numbers (s : Owned) : Prop := {
  n_delivered : os_closed s = false -> numbered 0 (os_delivered s) /\ Z.of_nat (length (os_delivered s)) <= os_sequenceNumber s;
  n_lined_up : os_closed s = false -> match os_stage s with
    | PullFailing _ => True
    | _ => numbered 0 (lined_up s) /\ os_sequenceNumber s = Z.of_nat (length (lined_up s))
    end;
  n_reading : os_stage s = Reading -> os_queue s = [];
  n_closed : os_closed s = true -> well_numbered (os_delivered s);
  n_warning : os_warningItem s <> None }.

Lemma numbers_finish s s' ev n :
  numbers s -> os_closed s = false -> os_closed s' = true -> os_delivered s' = os_delivered s ++ [ev] ->
  field "sequence_number" (ev_value ev) = Some (js_int n) -> Z.of_nat (length (os_delivered s)) <= n ->
  os_warningItem s' = os_warningItem s -> (os_stage s' = Reading -> os_queue s' = []) -> numbers s'.
Proof.
  intros Hn Hc Hc' Hd Hf Hle Hw Hr. destruct (n_delivered _ Hn Hc) as [H1 _]. split; rewrite ?Hc'; try done; [|rewrite Hw; apply Hn].
  intros _. right. rewrite Hd. by exists (os_delivered s), ev, n.
Qed.

Lemma numbers_stop s s' :
  numbers s -> os_closed s = false -> os_closed s' = true -> os_delivered s' = os_delivered s -> os_warningItem s' = os_warningItem s ->
  (os_stage s' = Reading -> os_queue s' = []) -> numbers s'.
Proof.
  intros Hn Hc Hc' Hd Hw Hr. destruct (n_delivered _ Hn Hc) as [H1 _]. split; rewrite ?Hc'; try done; [|rewrite Hw; apply Hn].
  intros _. left. by rewrite Hd.
Qed.

Lemma numbers_closed s s' :
  numbers s -> os_closed s = true -> os_closed s' = true -> os_delivered s' = os_delivered s -> os_warningItem s' = os_warningItem s ->
  (os_stage s' = Reading -> os_queue s' = []) -> numbers s'.
Proof. intros Hn Hc Hc' Hd Hw Hr. split; rewrite ?Hc'; try done; [|rewrite Hw; apply Hn]. intros _. rewrite Hd. by apply Hn. Qed.

Lemma numbers_fail s s' e :
  numbers s -> os_closed s = false -> os_closed s' = false -> os_stage s' = PullFailing e -> os_delivered s' = os_delivered s ->
  os_sequenceNumber s <= os_sequenceNumber s' -> os_warningItem s' = os_warningItem s -> numbers s'.
Proof.
  intros Hn Hc Hc' Hs Hd Hle Hw. destruct (n_delivered _ Hn Hc) as [H1 H2].
  split; rewrite ?Hc', ?Hs, ?Hd; try done; [intros _; split; [done|lia]|rewrite Hw; apply Hn].
Qed.

(** Numbers that were given are read back, so they do not move the counter. *)
Lemma advance_numbered event s n :
  field "sequence_number" (ev_value event) = Some (js_int n) -> 0 <= n < os_sequenceNumber s -> advanceSequence event s = s.
Proof.
  intros Hf Hn. unfold advanceSequence, sequence_of. rewrite Hf. cbn [js_int].
  destruct (safe_integer (round64 (inject_Z n))) as [z|] eqn:E; [|done]. apply (safe_integer_round64 n z ltac:(lia)) in E as ->.
  by rewrite (proj2 (Z.leb_gt _ _)) by lia.
Qed.

Lemma codexContext_sequence event responseId template output n :
  field "sequence_number" (ev_value event) = Some n ->
  field "sequence_number" (ev_value (codexContextFailureEvent event responseId template output)) = Some n.
Proof.
  intros Hf. unfold codexContextFailureEvent. destruct responseId as [[|c r]|]; try done. destruct (negb _); [done|].
  destruct (negb (equals _ _)); [done|]. cbn [ev_value]. rewrite Hf, field_assign_ne by done. by rewrite field_literal.
Qed.

Lemma handle_numbers e s : inv s -> numbers s -> os_stage s = PullFailing e -> numbers (handlePullFailure responseUuid e s).
Proof.
  intros Hi Hn Hst. unfold handlePullFailure. destruct (os_closed s) eqn:Hc.
  { by apply (numbers_closed s). }
  destruct (i_open _ Hi Hc) as [H1 H2 _ _ _ _]. rewrite H2, orb_false_r. destruct (os_aborted s) eqn:Ha.
  - unfold close_controller. cbn. rewrite H1, H2. cbn. by apply (numbers_stop s).
  - destruct (syntheticFailure_ok responseUuid s) as (ev & -> & _ & _ & _ & Hf). cbn. unfold emitFailureTerminal.
    rewrite close_with_open by done. cbn. apply (numbers_finish s _ ev (os_sequenceNumber s)); try done. apply (n_delivered _ Hn Hc).
Qed.

Lemma deliver_numbers event s :
  inv s -> numbers s -> os_stage s = Delivering event -> numbers (deliverNextEvent codexContextErrorCompatibility responseUuid event s).
Proof.
  intros Hi Hn Hst. unfold deliverNextEvent. destruct (os_closed s) eqn:Hc; [by apply (numbers_closed s)|].
  destruct (i_open _ Hi Hc) as [H1 H2 H3 _ _ _]. destruct (n_delivered _ Hn Hc) as [Hnd Hle]. destruct event as [v|].
  - rewrite H3. pose proof (n_lined_up _ Hn Hc) as Hl. rewrite Hst in Hl. unfold lined_up, in_flight in Hl. rewrite Hst in Hl.
    destruct Hl as [Hl Hseq]. rewrite numbered_app in Hl. destruct Hl as [_ [Hf Hq]]. cbn [app] in Hf, Hq, Hseq.
    rewrite length_app in Hseq. cbn [length] in Hseq.
    destruct (observeVisibleEvent (vi_event v) s) as [s' [e|]] eqn:Ho; apply observe_control in Ho as [Hctl _];
      injection Hctl as E1 E2 E3 E4 E5 E6 E7 E8 E9 E10.
    { apply (numbers_fail s _ e); try done; cbn; first [congruence|lia]. }
    rewrite (advance_numbered _ s' (0 + Z.of_nat (length (os_delivered s)))) by (done || lia).
    unfold deliver_observed. destruct (_ && negb _).
    + unfold emptyCompletionEventAfterCommit. edestruct errorEvent_written as (ev & -> & _ & _ & _ & Hev). cbn [mbind result_bind].
      unfold emitFailureTerminal. rewrite close_with_open by (cbn; congruence). cbn.
      apply (numbers_finish s _ ev (os_sequenceNumber s')); try done; cbn; first [congruence|lia].
    + set (visible := if _ && _ then _ else vi_event v).
      assert (Hv : field "sequence_number" (ev_value visible) = Some (js_int (Z.of_nat (length (os_delivered s))))).
      { unfold visible. destruct (_ && _); [by apply codexContext_sequence|done]. }
      unfold enqueue, close_controller. cbn. rewrite E7, E8, H1, H2. cbn. destruct (ev_terminal (vi_event v)) eqn:Ht; cbn.
      * rewrite ?E7, ?E8, ?H1, ?H2. cbn. apply (numbers_finish s _ visible (Z.of_nat (length (os_delivered s)))); try done; cbn; first [congruence|lia].
      * assert (Hall : numbered 0 (os_delivered s ++ [visible] ++ (vi_event <$> os_queue s))).
        { rewrite numbered_app. split; [done|]. split; [done|]. exact Hq. }
        assert (Hlen : os_sequenceNumber s' = Z.of_nat (length (os_delivered s ++ [visible] ++ (vi_event <$> os_queue s))))
          by (rewrite length_app; cbn [length app]; lia).
        split; cbn; unfold lined_up, in_flight; cbn; rewrite ?E6, ?E1, ?E3, ?E5; [| |done|congruence|apply Hn].
        -- intros _. split; [|rewrite Hlen, !length_app; cbn [length]; lia].
           rewrite app_assoc, numbered_app in Hall. apply Hall.
        -- intros _. rewrite <- app_assoc. done.
  - unfold deliver_missing. destruct (syntheticFailure_ok responseUuid s) as (ev & -> & _ & _ & _ & Hf). cbn. rewrite close_with_open by done. cbn.
    by apply (numbers_finish s _ ev (os_sequenceNumber s)).
Qed.

Lemma answer_stage answer s :
  os_warningItem (next_upstream validateEvent answer s) = os_warningItem s /\ os_stage (next_upstream validateEvent answer s) <> Reading.
Proof.
  unfold next_upstream. destruct answer as [event| |]; try done. destruct (validate _ event); [done|]. destruct (_ ≫= _); [done|]. cbn.
  destruct (os_warningItem s) eqn:E; [|by rewrite <- E]. by destruct (rewriteResponsesEventForWarning _ _ _).
Qed.

Lemma answer_numbers answer s : numbers s -> os_stage s = Reading -> numbers (next_upstream validateEvent answer s).
Proof.
  intros Hn Hst. destruct (os_closed s) eqn:Hc.
  { destruct (step_closed codexContextErrorCompatibility validateEvent responseUuid s (Answer answer) (next_upstream validateEvent answer s)) as [Hc' Hd];
      [done|cbn; by rewrite Hst|]. destruct (answer_stage answer s) as [Hw Hs]. by apply (numbers_closed s). }
  pose proof (n_lined_up _ Hn Hc) as Hl. rewrite Hst in Hl. unfold lined_up, in_flight in Hl. rewrite Hst in Hl. cbn [app] in Hl.
  assert (Hfail : forall e, numbers (stage (PullFailing e) s)) by (intros e; by apply (numbers_fail s _ e)).
  destruct answer as [event| |e]; cbn.
  - destruct (validate _ event); [apply Hfail|]. destruct (_ ≫= _) as [e|id]; [apply Hfail|]. cbn.
    destruct (os_warningItem s) as [item|] eqn:Hw; [|by destruct (n_warning _ Hn)].
    destruct (rewriteResponsesEventForWarning _ _ _) as [e|ev] eqn:Hr; [apply (numbers_fail s _ e); try done; cbn; lia|].
    apply (rewriteForWarning_spec item) in Hr as (_ & Hf & _). destruct (n_delivered _ Hn Hc) as [H1 H2].
    rewrite (n_reading _ Hn Hst), app_nil_r in Hl. destruct Hl as [Hl Hseq]. split; cbn; rewrite ?Hw; try done.
    + intros _. split; [done|lia].
    + intros _. unfold lined_up, in_flight. cbn. rewrite (n_reading _ Hn Hst). cbn. rewrite numbered_app, length_app. cbn [numbered length].
      rewrite Z.add_0_l, <- Hseq. split; [done|lia].
    + congruence.
  - split; try done; cbn; unfold lined_up, in_flight; cbn; try apply Hn; done.
  - apply Hfail.
Qed.

Lemma step_numbers s input s' : inv s -> numbers s -> step s input = Some s' -> numbers s'.
Proof.
  intros Hi Hn. destruct input as [|answer| | | |]; cbn; intros H.
  - destruct (os_stage s) eqn:Hst; try done. destruct (_ || _); [done|]. destruct (os_closed s) eqn:Hc; [by injection H as <-|].
    pose proof (n_lined_up _ Hn Hc) as Hl. rewrite Hst in Hl. unfold lined_up, in_flight in Hl. rewrite Hst in Hl.
    destruct (os_queue s) as [|v queue] eqn:Hq; injection H as <-; split; cbn; unfold lined_up, in_flight; cbn; rewrite ?Hc, ?Hq; try done;
      first [apply (n_warning _ Hn)|intros _; apply (n_delivered _ Hn Hc)].
  - destruct (os_stage s) eqn:Hst; try done. injection H as <-. by apply answer_numbers.
  - destruct (os_stage s) eqn:Hst; try done; injection H as <-; [by apply deliver_numbers|by apply handle_numbers].
  - destruct (os_stage s) eqn:Hst; try done. injection H as <-. apply (numbers_closed s); try done; cbn;
      (destruct (os_closed s) eqn:Hc; [done|]); pose proof (oo_stage _ (i_open _ Hi Hc)) as Hno; by rewrite Hst in Hno.
  - destruct (os_cancelled s); [done|]. destruct (os_closed s) eqn:Hc; injection H as <-;
      [apply (numbers_closed s)|apply (numbers_stop s)]; try done; apply Hn.
  - injection H as <-. split; try apply Hn.
Qed.

Lemma run_numbers inputs s s' :
  Forall input_ok inputs -> inv s -> numbers s -> run codexContextErrorCompatibility validateEvent responseUuid s inputs = Some s' -> numbers s'.
Proof.
  intros Hin. revert s. induction Hin as [|input inputs Ho _ IH]; intros s Hi Hn H; cbn in H; [by injection H as <-|].
  destruct (step s input) as [s1|] eqn:E; [|done]. apply (IH s1); [by eapply step_inv|by eapply step_numbers|done].
Qed.
End sequence.

Lemma numbered_lookup n events i event :
  numbered n events -> events !! i = Some event -> field "sequence_number" (ev_value event) = Some (js_int (n + Z.of_nat i)).
Proof.
  revert n i. induction events as [|e events IH]; intros n [|i] Hn Hl; try done; cbn in Hn, Hl; destruct Hn as [H1 H2].
  - injection Hl as <-. by rewrite Z.add_0_r.
  - rewrite (IH _ _ H2 Hl). do 2 f_equal. lia.
Qed.

(** C28: With a failover warning the gateway numbers the events itself: each
    event the client gets has its place in the stream as its sequence number,
    from zero, across the events of the warning and of the upstream; only the
    last may have a larger one, when it replaces events that were numbered and
    never delivered. *)
Theorem owned_sequence_numbers codex validateEvent wu ru initial responseId model inputs s :
  reachable codex validateEvent wu ru initial responseId (Some model) inputs s ->
  forall i event, os_delivered s !! i = Some event ->
  exists n, field "sequence_number" (ev_value event) = Some (js_int n) /\ Z.of_nat i <= n
    /\ ((S i < length (os_delivered s))%nat -> n = Z.of_nat i).
Proof.
  intros (Hini & Hin & s0 & Hcreate & Hrun). pose proof (create_inv _ _ _ _ _ _ Hini Hcreate) as Hi0.
  assert (Hn0 : numbers s0).
  { cbn in Hcreate. destruct responseId as [[|c r]|]; try done. inv_ok.
    match goal with H : queueWarningPreamble _ _ _ _ _ _ = Ok _ |- _ => apply preamble_spec in H as (_ & ? & ->) end.
    split; cbn; try done; intros _; unfold lined_up, in_flight; cbn; rewrite ?length_fmap; split; [done|lia|done|done]. }
  pose proof (run_numbers _ _ _ _ _ _ Hin Hi0 Hn0 Hrun) as Hn. intros i event Hl.
  assert (well_numbered (os_delivered s)) as [Hall|(before & last & n & Hd & Hb & Hf & Hle)].
  { destruct (os_closed s) eqn:Hc; [by apply (n_closed _ Hn)|]. left. by apply (n_delivered _ Hn). }
  - exists (Z.of_nat i). rewrite (numbered_lookup 0 _ i event Hall Hl). done.
  - rewrite Hd in Hl |- *. rewrite length_app. cbn [length]. destruct (decide (i < length before)%nat).
    + rewrite lookup_app_l in Hl by done. exists (Z.of_nat i). rewrite (numbered_lookup 0 _ i event Hb Hl). done.
    + rewrite lookup_app_r in Hl by lia. apply list_lookup_singleton_Some in Hl as [Hi <-]. exists n. split_and!; [done|lia|lia].
Qed.

(** ** The buffer before the commit *)

Definition total_chars (events : list ResponsesStreamEvent) : Z := foldr (fun event n => text_length (ev_raw event) + n) 0 events.

(** An event that leaves the attempt undecided. *)
Definition undecided (event : ResponsesStreamEvent) : Prop := responsesEventSemanticKind event = None /\ ev_terminal event = false.

Definition fits (events : list ResponsesStreamEvent) : Prop :=
  Z.of_nat (length events) <= MAX_RESPONSES_PRECOMMIT_EVENTS /\ total_chars events <= MAX_RESPONSES_PRECOMMIT_CHARS.

Lemma total_chars_snoc events event : total_chars (events ++ [event]) = total_chars events + text_length (ev_raw event).
Proof. unfold total_chars. induction events as [|e events IH]; cbn [app foldr]; [lia|]. rewrite IH. lia. Qed.

(** What the answer of the preparation says about the upstream. *)
Definition prepared_from (onEvent onProgress : ResponsesStreamEvent -> option StreamError) (releaseOnProgress : bool)
    (upstream : list Upstream) (result : Preparation) : Prop :=
  match result with
  | Prepared stream =>
      exists before last rest, pr_buffered stream = before ++ [last] /\ upstream = (UpEvent <$> pr_buffered stream) ++ rest
        /\ Forall undecided before /\ fits (pr_buffered stream) /\ pr_bufferedChars stream = total_chars (pr_buffered stream)
        /\ (pr_semantic stream = Some last /\ pr_semanticKind stream = responsesEventSemanticKind last
              /\ pr_semanticKind stream <> None /\ pr_terminal stream = (if ev_terminal last then Some last else None)
            \/ pr_semantic stream = None /\ pr_semanticKind stream = None
               /\ (pr_terminal stream = Some last /\ responsesEventSemanticKind last = None /\ ev_terminal last = true
                   \/ pr_terminal stream = None /\ releaseOnProgress = true /\ responsesEventReportsProgress last = true))
  | PrepareFailed e =>
      exists before rest, upstream = (UpEvent <$> before) ++ rest /\ Forall undecided before /\ fits before
        /\ match rest with
           | UpEnd :: _ => e = ResponsesStreamError premature_eof
           | UpError thrown :: _ => e = thrown
           | UpEvent event :: _ =>
               (e = ResponsesStreamError event_too_large /\ ~ fits (before ++ [event]))
               \/ onEvent event = Some e \/ onProgress event = Some e
           | [] => False
           end
  | Preparing => exists before, upstream = UpEvent <$> before /\ Forall undecided before /\ fits before
  end.

Section prepare.
Context (onEvent onProgress : ResponsesStreamEvent -> option StreamError) (releaseOnProgress : bool).

Lemma report_spec event reported :
  match reportProgressOnce onProgress releaseOnProgress event reported with
  | Err e => onProgress event = Some e
  | Ok (release, _) => release = true -> releaseOnProgress = true /\ responsesEventReportsProgress event = true
  end.
Proof.
  unfold reportProgressOnce. destruct (responsesEventReportsProgress event); [|done]. cbn [negb].
  destruct (match reasoningLifecycleProgressKey event with Some _ => _ | None => _ end); [done|].
  by destruct (onProgress event).
Qed.

Lemma append_spec buffered event :
  fits buffered ->
  match appendResponsesPrecommitEvent buffered event (total_chars buffered) with
  | Err e => e = ResponsesStreamError event_too_large /\ ~ fits (buffered ++ [event])
  | Ok (buffered', chars) => buffered' = buffered ++ [event] /\ chars = total_chars buffered' /\ fits buffered'
  end.
Proof.
  intros [Hl Hc]. unfold appendResponsesPrecommitEvent, fits. rewrite total_chars_snoc, length_app. cbn [length].
  destruct (Z.leb_spec MAX_RESPONSES_PRECOMMIT_EVENTS (Z.of_nat (length buffered))); cbn [orb]; [split; [done|]; intros []; lia|].
  destruct (Z.ltb_spec MAX_RESPONSES_PRECOMMIT_CHARS (total_chars buffered + text_length (ev_raw event))); [split; [done|]; intros []; lia|].
  rewrite total_chars_snoc, length_app. cbn [length]. split_and!; [done|done|lia|lia].
Qed.

Lemma prepare_loop_spec upstream before reported :
  Forall undecided before -> fits before ->
  prepared_from onEvent onProgress releaseOnProgress ((UpEvent <$> before) ++ upstream)
    (prepare_loop onEvent onProgress releaseOnProgress before (total_chars before) reported upstream).
Proof.
  revert before reported. induction upstream as [|[event| |e] upstream IH]; intros before reported Hu Hf; cbn [prepare_loop].
  - exists before. by rewrite app_nil_r.
  - pose proof (append_spec before event Hf) as Ha. destruct (appendResponsesPrecommitEvent _ _ _) as [e|[buffered chars]].
    { exists before, (UpEvent event :: upstream). split_and!; try done. by left. }
    destruct Ha as (-> & -> & Hf'). destruct (onEvent event) as [e|] eqn:Ho.
    { exists before, (UpEvent event :: upstream). split_and!; try done. by right; left. }
    pose proof (report_spec event reported) as Hr. destruct (reportProgressOnce _ _ _ _) as [e|[[|] reported']].
    { exists before, (UpEvent event :: upstream). split_and!; try done. by right; right. }
    { exists before, event, upstream. cbn. rewrite fmap_app, <- app_assoc. destruct (Hr eq_refl). split_and!; try done. right. split_and!; try done. by right. }
    destruct (responsesEventSemanticKind event) as [kind|] eqn:Hk.
    { exists before, event, upstream. cbn. rewrite fmap_app, <- app_assoc. split_and!; try done. left. by split_and!. }
    destruct (ev_terminal event) eqn:Ht.
    { exists before, event, upstream. cbn. rewrite fmap_app, <- app_assoc. split_and!; try done. right. split_and!; try done. by left. }
    replace ((UpEvent <$> before) ++ UpEvent event :: upstream) with ((UpEvent <$> before ++ [event]) ++ upstream)
      by (by rewrite fmap_app, <- app_assoc).
    apply IH; [|done]. apply Forall_app. split; [done|]. by repeat constructor.
  - exists before, (UpEnd :: upstream). by split_and!.
  - exists before, (UpError e :: upstream). by split_and!.
Qed.
End prepare.

(** C8: The attempt is owned by the first event that decides it.  The events
    that [prepareResponsesStreamForCommit] returns are those of the upstream, in
    order and without a gap, so nothing is lost before the commit; all but the
    last carry no output and are not terminal, and the last carries output, is
    terminal, or reports progress when the caller asked to release on it.  The
    buffer holds at most its limits of events and characters.  It fails only
    when the upstream ends or fails first, when the next event does not fit, or
    when a callback throws; and it waits only while every event so far left the
    attempt undecided and fits. *)
Theorem prepare_exact onEvent onProgress releaseOnProgress upstream :
  prepared_from onEvent onProgress releaseOnProgress upstream
    (prepareResponsesStreamForCommit onEvent onProgress releaseOnProgress upstream).
Proof. apply (prepare_loop_spec _ _ _ upstream [] []); [done|]. by split. Qed.

(** ** A stream that fails over *)

Module Demo.

Definition event (properties : list (string * json)) : ResponsesStreamEvent :=
  match responseEventFromValue (literal properties) with Ok ev => ev | Err _ => mkEvent [] [] [] false end.

Definition created : ResponsesStreamEvent :=
  event [("type", str "response.created"); ("response", JsObject (literal [("id", str "resp_1")]))].
Definition delta : ResponsesStreamEvent :=
  event [("type", str "response.output_text.delta"); ("item_id", str "msg_1"); ("output_index", js_int 0); ("delta", str "hello")].
Definition finished : ResponsesStreamEvent :=
  event [("type", str "response.completed"); ("response", JsObject (literal [("id", str "resp_1"); ("output", JsArray [])]))].

Definition accept : ResponsesStreamEvent -> option StreamError := fun _ => None.
Definition uuid : text := text_of "0-1".

Definition start : Owned :=
  match createOwnedResponsesStream accept uuid [created] (Some (text_of "resp_1")) (Some (text_of "model")) with
  | Ok s => s
  | Err _ => opened [] None 0 None
  end.

(** The queued events, then the upstream's answers. *)
Definition pulls (n : nat) : list Input := concat (replicate n [Pull; Resume]).
Definition inputs : list Input :=
  pulls 7 ++ [Pull; Answer (UpEvent delta); Resume; Pull; Answer (UpEvent finished); Resume; Returned].

Definition after (l : list Input) : Owned := default start (run false accept uuid start l).

Lemma events_ok : event_ok created /\ event_ok delta /\ event_ok finished.
Proof. split_and!; split; vm_compute; reflexivity. Qed.

Lemma start_ok : createOwnedResponsesStream accept uuid [created] (Some (text_of "resp_1")) (Some (text_of "model")) = Ok start.
Proof. vm_compute. reflexivity. Qed.

Lemma demo_reached : reachable false accept uuid uuid [created] (Some (text_of "resp_1")) (Some (text_of "model")) inputs (after inputs).
Proof.
  destruct events_ok as (H1 & H2 & H3). split; [by repeat constructor|]. split.
  - repeat constructor; done.
  - exists start. split; [apply start_ok|]. vm_compute. reflexivity.
Qed.

Lemma reached_queue : reachable false accept uuid uuid [created] (Some (text_of "resp_1")) (Some (text_of "model")) (pulls 1) (after (pulls 1)).
Proof.
  destruct events_ok as (H1 & H2 & H3). split; [by repeat constructor|]. split; [by repeat constructor|].
  exists start. split; [apply start_ok|]. vm_compute. reflexivity.
Qed.
End Demo.

Lemma owned_one_terminal_witness :
  os_closed (Demo.after Demo.inputs) = true /\ length (os_delivered (Demo.after Demo.inputs)) = 9%nat
  /\ terminal_last (os_delivered (Demo.after Demo.inputs)).
Proof.
  split; [vm_compute; reflexivity|]. split; [vm_compute; reflexivity|]. exact (proj1 (owned_one_terminal _ _ _ _ _ _ _ _ _ Demo.demo_reached)).
Defined.

Lemma owned_no_empty_success_witness :
  exists output, output ∈ os_delivered (Demo.after Demo.inputs) /\ isWarningEvent (Demo.after Demo.inputs) output = false
    /\ responsesEventSemanticKindWithIgnoredOutputItem output (warningItemId (Demo.after Demo.inputs)) <> None.
Proof.
  apply (owned_no_empty_success _ _ _ _ _ _ _ _ _ Demo.demo_reached (List.nth 8 (os_delivered (Demo.after Demo.inputs)) Demo.created)).
  - apply (list_elem_of_lookup_2 _ 8). vm_compute. reflexivity.
  - vm_compute. reflexivity.
Defined.

Lemma owned_stream_ends_witness :
  os_closed (Demo.after (Demo.pulls 1)) = false /\
  exists s', drive false Demo.accept Demo.uuid (length (os_queue (Demo.after (Demo.pulls 1))) + 2) (Demo.after (Demo.pulls 1)) [UpEvent Demo.delta; UpEnd] = Some s'
    /\ os_closed s' = true /\ (os_aborted (Demo.after (Demo.pulls 1)) = false -> ends_terminal (os_delivered s')).
Proof.
  split; [vm_compute; reflexivity|].
  apply (owned_stream_ends _ _ _ _ _ _ _ _ _ [UpEvent Demo.delta; UpEnd] Demo.reached_queue); try (vm_compute; reflexivity).
  - constructor; [exact (proj1 (proj2 Demo.events_ok))|]. by repeat constructor.
  - right. by left.
Defined.

Lemma owned_sequence_numbers_witness :
  exists n, field "sequence_number" (ev_value (List.nth 7 (os_delivered (Demo.after Demo.inputs)) Demo.created)) = Some (js_int n) /\ 7 <= n
    /\ ((8 < length (os_delivered (Demo.after Demo.inputs)))%nat -> n = 7).
Proof.
  apply (owned_sequence_numbers _ _ _ _ _ _ _ _ _ Demo.demo_reached 7). vm_compute. reflexivity.
Defined.
