(* ===== verification/SseRelay.v ===== *)
(** * Relaying a stream to the client

    The rest of [src/responses-stream.ts]: [preflightResponsesStream],
    [proxyResponsesStreamIterator] and [withSseKeepalive].  A stream is the
    variables of its closure and the state of its controller; the consumer calls
    [pull] one at a time and may [cancel] while a pull waits, so what a pull does
    after an [await] is a step of its own. *)

From Stdlib Require Import ZArith QArith Lia.
From stdpp Require Import base strings option list.
From S2P Require Import Prelude Js JsonText JsonScan WebText JsonPrint SseStream ResponsesEvents.
Open Scope string_scope.
Open Scope list_scope.
Open Scope Z_scope.

(** ** The first event *)

(** What the caller gets: the first event, with the iterator to go on reading;
    an error, after the iterator was cancelled and returned; or it still waits. *)
Inductive Preflight :=
| Preflighted (first : ResponsesStreamEvent)
| PreflightFailed (e : StreamError)
| Preflighting.

(** [next] runs the generator until its first event, or to its end. *)
Definition preflightResponsesStream (reads : list Read) (aborted : bool) : Preflight :=
  match readResponsesStream 0 reads aborted with
  | (first :: _, _) => Preflighted first
  | ([], (_, Failed e)) => PreflightFailed e
  | ([], (_, Waiting)) => Preflighting
  | ([], _) => PreflightFailed (ResponsesStreamError premature_eof)
  end.

(** ** The proxy *)

Definition errorEvent (message : string) : text :=
  text_of "event: error" ++ 10 :: text_of "data: "
  ++ JSON_stringify (JsObject (literal [("type", str "error");
       ("error", JsObject (literal [("type", str "server_error"); ("code", str "upstream_stream_error"); ("message", str message); ("param", JsNull)]))]))
  ++ [10; 10].

Module Proxy.

Inductive Callback := OnEvent (event : ResponsesStreamEvent) | OnFailure (e : StreamError) | OnCancel | AbortUpstream.

(** [px_reading]: a pull waits for [iterator.next]; [px_delivered]: what was
    enqueued, encoded; [px_aborted]: one of the signals of the options. *)
Record Proxy := mkProxy {
  px_pending : option ResponsesStreamEvent;
  px_closed : bool;
  px_reading : bool;
  px_delivered : list (list Z);
  px_controllerClosed : bool;
  px_cancelled : bool;
  px_aborted : bool;
  px_returns : nat;
  px_callbacks : list Callback }.

#[export] Instance eta_Proxy : Eta Proxy := fun s =>
  mkProxy (px_pending s) (px_closed s) (px_reading s) (px_delivered s) (px_controllerClosed s) (px_cancelled s) (px_aborted s)
    (px_returns s) (px_callbacks s).

Definition proxyResponsesStreamIterator (initialEvent : option ResponsesStreamEvent) : Proxy :=
  mkProxy initialEvent false false [] false false false 0 [].

Definition is_open (s : Proxy) : bool := negb (px_controllerClosed s) && negb (px_cancelled s).

(** [controller.enqueue] and [controller.close] throw when the stream is not open. *)
Definition enqueue (raw : text) (s : Proxy) : Result StreamError Proxy :=
  if is_open s then Ok (s <| px_delivered := px_delivered s ++ [TextEncoder_encode raw] |>) else Err OtherError.
Definition close_controller (s : Proxy) : Result StreamError Proxy :=
  if is_open s then Ok (s <| px_controllerClosed := true |>) else Err OtherError.
Definition invoke (c : Callback) (s : Proxy) : Proxy := s <| px_callbacks := px_callbacks s ++ [c] |>.

(** The [catch] of a pull; the consumer's cancellation aborts [localAbort]. *)
Definition pull_failed (e : StreamError) (s : Proxy) : Result StreamError Proxy :=
  if px_closed s then Ok s else
  s ← (if px_cancelled s || px_aborted s then Ok s else enqueue (errorEvent "The upstream stream ended unexpectedly.") s);
  s ← close_controller (s <| px_closed := true |>);
  Ok (invoke (OnFailure e) s).

(** The [try] of a pull after [next]. *)
Definition pull_next (answer : Upstream) (s : Proxy) : Result StreamError Proxy :=
  match answer with
  | UpError e => Err e
  | UpEnd =>
      let s := s <| px_pending := None |> in
      if px_closed s then Ok s else close_controller (s <| px_closed := true |>)
  | UpEvent event =>
      let s := s <| px_pending := None |> in
      if px_closed s then Ok s else
      s ← enqueue (ev_raw event) s;
      let s := invoke (OnEvent event) s in
      if ev_terminal event
      then s ← close_controller (s <| px_closed := true |>); Ok (s <| px_returns := S (px_returns s) |>)
      else Ok s
  end.

Inductive Input := Pull | Answer (answer : Upstream) | Cancel | Abort.

(** A pull that throws goes to its [catch] with the state before the call that
    threw; while the stream is not closed only the iterator throws. *)
Definition settle_pull (answer : Upstream) (s : Proxy) : option Proxy :=
  let s := s <| px_reading := false |> in
  match pull_next answer s with
  | Ok s => Some s
  | Err e => match pull_failed e s with Ok s => Some s | Err _ => None end
  end.

Definition step (s : Proxy) (input : Input) : option Proxy :=
  match input with
  | Pull =>
      if px_reading s || negb (is_open s) then None
      else if px_closed s then Some s
      else match px_pending s with
           | Some event => settle_pull (UpEvent event) s
           | None => Some (s <| px_reading := true |>)
           end
  | Answer answer => if px_reading s then settle_pull answer s else None
  | Cancel =>
      if negb (is_open s) then None
      else let s := s <| px_cancelled := true |> in
           if px_closed s then Some s
           else Some ((invoke AbortUpstream (invoke OnCancel (s <| px_closed := true |>))) <| px_returns := S (px_returns s) |>)
  | Abort => Some (s <| px_aborted := true |>)
  end.

Fixpoint run (s : Proxy) (inputs : list Input) : option Proxy :=
  match inputs with [] => Some s | input :: inputs => s ← step s input; run s inputs end.
End Proxy.

(** ** Keepalives *)

Definition SSE_KEEPALIVE_INTERVAL_MS : Z := 15000.
Definition SSE_KEEPALIVE_FRAME : list Z := TextEncoder_encode (text_of ": keepalive" ++ [10; 10]).

Module Keepalive.

(** The answer of [reader.read]. *)
Inductive SourceAnswer := SourceBytes (bytes : list Z) | SourceDone | SourceError (e : StreamError).

(** [pendingRead]: null, a promise not settled yet, or one that is. *)
Inductive PendingRead := NoRead | Outstanding | Settled (answer : SourceAnswer).

(** A pull: none; waiting for the race of the read and the timer; the race was
    decided and the pull goes on. *)
Inductive PullStage := Idle | Racing | HeartbeatWon | ReadWon (answer : SourceAnswer).

Inductive Controller := Readable | Closed | Errored (e : StreamError).

(** [kp_armed]: [clearPendingHeartbeat] and [resolveHeartbeat], which are set and
    cleared together; [kp_reads]: the calls of [reader.read]. *)
Record Kept := mkKept {
  kp_heartbeats : bool;
  kp_closed : bool;
  kp_armed : bool;
  kp_pendingRead : PendingRead;
  kp_stage : PullStage;
  kp_delivered : list (list Z);
  kp_controller : Controller;
  kp_cancelled : bool;
  kp_reads : nat;
  kp_sourceCancelled : bool }.

#[export] Instance eta_Kept : Eta Kept := fun s =>
  mkKept (kp_heartbeats s) (kp_closed s) (kp_armed s) (kp_pendingRead s) (kp_stage s) (kp_delivered s) (kp_controller s)
    (kp_cancelled s) (kp_reads s) (kp_sourceCancelled s).

(** [intervalMs > 0] for the configured interval. *)
Definition heartbeats (configured : option number) : bool :=
  match default (Fin (inject_Z SSE_KEEPALIVE_INTERVAL_MS)) configured with Fin q => negb (Qle_bool q 0) | _ => false end.

Definition withSseKeepalive (intervalMs : option number) : Kept :=
  mkKept (heartbeats intervalMs) false false NoRead Idle [] Readable false 0 false.

Definition kept_open (s : Kept) : bool := match kp_controller s with Readable => negb (kp_cancelled s) | _ => false end.

(** Resolving the heartbeat decides the race of a pull that waits. *)
Definition heartbeat_resolves (s : Kept) : Kept :=
  match kp_stage s with Racing => s <| kp_stage := HeartbeatWon |> | _ => s end.

Definition stopHeartbeat (s : Kept) : Kept :=
  if kp_armed s then heartbeat_resolves (s <| kp_armed := false |>) else s.

(** The [catch] of a pull. *)
Definition pull_errors (e : StreamError) (s : Kept) : Kept :=
  if kp_closed s then s else stopHeartbeat (s <| kp_closed := true |>) <| kp_controller := Errored e |>.

(** [controller.enqueue] throws when the stream is not open. *)
Definition enqueue_chunk (bytes : list Z) (s : Kept) : Kept :=
  if kept_open s then s <| kp_delivered := kp_delivered s ++ [bytes] |> else pull_errors OtherError s.

Definition close_kept (s : Kept) : Kept :=
  if kept_open s then s <| kp_controller := Closed |> else pull_errors OtherError s.

(** A pull after the race. *)
Definition pull_continues (s : Kept) : Kept :=
  match kp_stage s with
  | Idle | Racing => s
  | HeartbeatWon => let s := s <| kp_stage := Idle |> in if kp_closed s then s else enqueue_chunk SSE_KEEPALIVE_FRAME s
  | ReadWon (SourceError e) => pull_errors e (s <| kp_stage := Idle |>)
  | ReadWon answer =>
      let s := stopHeartbeat (s <| kp_stage := Idle |>) <| kp_pendingRead := NoRead |> in
      if kp_closed s then s else
      match answer with
      | SourceBytes bytes => enqueue_chunk bytes s
      | _ => close_kept (s <| kp_closed := true |>)
      end
  end.

(** A pull up to the race. *)
Definition pull_starts (s : Kept) : Kept :=
  let s := match kp_pendingRead s with
    | NoRead => s <| kp_pendingRead := Outstanding |> <| kp_reads := S (kp_reads s) |>
    | _ => s
    end in
  let s := if kp_heartbeats s then s <| kp_armed := true |> else s in
  match kp_pendingRead s with
  | Settled answer => s <| kp_stage := ReadWon answer |>
  | _ => s <| kp_stage := Racing |>
  end.

Inductive KeepInput := Pull | Answer (answer : SourceAnswer) | Timer | Resume | Cancel.

Definition keep_step (s : Kept) (input : KeepInput) : option Kept :=
  match input, kp_stage s with
  | Pull, Idle => if negb (kept_open s) then None else if kp_closed s then Some s else Some (pull_starts s)
  | Answer answer, g =>
      match kp_pendingRead s with
      | Outstanding =>
          let s := s <| kp_pendingRead := Settled answer |> in
          Some (match g with Racing => s <| kp_stage := ReadWon answer |> | _ => s end)
      | _ => None
      end
  | Timer, _ => if kp_armed s then Some (heartbeat_resolves (s <| kp_armed := false |>)) else None
  | Resume, HeartbeatWon | Resume, ReadWon _ => Some (pull_continues s)
  | Cancel, _ =>
      if negb (kept_open s) then None
      else let s := s <| kp_cancelled := true |> in
           if kp_closed s then Some s
           else Some (stopHeartbeat (s <| kp_closed := true |>) <| kp_sourceCancelled := true |>)
  | _, _ => None
  end.

Fixpoint keep_run (s : Kept) (inputs : list KeepInput) : option Kept :=
  match inputs with [] => Some s | input :: inputs => s ← keep_step s input; keep_run s inputs end.
End Keepalive.
