(* ===== verification/SseKeepalive.v ===== *)
(** * Keepalives and proxies do not change what the client reads

    The guarantees of SseRelay.v.  The client is modelled by the gateway's own
    reader, [readResponsesStream]. *)

From Stdlib Require Import ZArith QArith Lia.
From stdpp Require Import base strings option list.
From S2P Require Import Prelude Js JsonText JsonScan WebText JsonPrint JsonRoundTrip SseStream SseFraming ResponsesEvents SseRoundTrip ResponsesOwned ResponsesTheorems SseRelay.
Open Scope string_scope.
Open Scope list_scope.
Open Scope Z_scope.

(** ** Whole chunks *)

(** The chunk ends where a block ends. *)
Definition whole (chunk : list Z) : Prop := exists blocks, sse_blocks [] chunk = (blocks, Some []).

Lemma whole_reference chunk blocks rest demand ending :
  sse_blocks [] chunk = (blocks, Some []) ->
  reference_from demand [] (chunk ++ rest) ending
  = let '(evs, result) := reference_events demand (TextDecoder_decode <$> blocks) in
    match result with
    | inr stop => (evs, stop)
    | inl demand => let '(more, outcome) := reference_from demand [] rest ending in (evs ++ more, outcome)
    end.
Proof.
  intros Hb. unfold reference_from. rewrite sse_blocks_app, Hb. destruct (sse_blocks [] rest) as [more tail].
  destruct (match tail with Some last => _ | None => _ end) as [texts outcome].
  rewrite fmap_app, <- app_assoc, reference_events_app. destruct (reference_events demand _) as [evs [d|stop]]; [|done].
  by destruct (reference_events d _).
Qed.

Lemma keepalive_frame_block : sse_blocks [] SSE_KEEPALIVE_FRAME = ([SSE_KEEPALIVE_FRAME], Some []).
Proof. vm_compute. reflexivity. Qed.

Lemma keepalive_frame_parses : parseEventBlock (TextDecoder_decode SSE_KEEPALIVE_FRAME) = Ok None.
Proof. vm_compute. reflexivity. Qed.
#[local] Opaque SSE_KEEPALIVE_FRAME errorEvent.

(** A comment between whole chunks is not seen. *)
Lemma comments_invisible kept demand ending :
  Forall whole (omap id kept) ->
  reference_from demand [] (concat (default SSE_KEEPALIVE_FRAME <$> kept)) ending
  = reference_from demand [] (concat (omap id kept)) ending.
Proof.
  revert demand. induction kept as [|[chunk|] kept IH]; intros demand Hw; [done| |]; cbn [fmap list_fmap omap list_omap concat default id] in *.
  - inversion Hw as [|? ? [blocks Hb] Hw']; subst. rewrite !(whole_reference _ _ _ _ _ Hb).
    destruct (reference_events _ _) as [evs [d|stop]]; [|done]. by rewrite IH.
  - rewrite (whole_reference _ _ _ _ _ keepalive_frame_block). cbn [fmap list_fmap reference_events]. rewrite keepalive_frame_parses.
    rewrite IH by done. by destruct (reference_from _ _ _ _).
Qed.

Lemma reads_invisible kept demand ending aborted :
  Forall whole (omap id kept) ->
  observed (readResponsesStream demand (reads_of (default SSE_KEEPALIVE_FRAME <$> kept) ending) aborted)
  = observed (readResponsesStream demand (reads_of (omap id kept) ending) aborted).
Proof. intros Hw. rewrite !sse_reads_reference. unfold reference_read. by rewrite comments_invisible. Qed.

(** What the gateway writes is whole. *)
Lemma written_whole value : sendable value -> whole (TextEncoder_encode (sseRaw value)).
Proof. intros Hs. pose proof (written_bytes value [] Hs) as H. rewrite app_nil_r in H. cbn [sse_blocks] in H. by eexists. Qed.

(** ** Keepalives *)

Module KeepaliveProofs.
Import Keepalive.

Definition bytes_of (answer : SourceAnswer) : option (list Z) := match answer with SourceBytes bytes => Some bytes | _ => None end.

(** The answers of the source. *)
Definition answers (inputs : list KeepInput) : list SourceAnswer :=
  omap (fun input => match input with Answer answer => Some answer | _ => None end) inputs.

(** What a pull has read and not passed on. *)
Definition settled_bytes (s : Kept) : list (list Z) :=
  match kp_pendingRead s with Settled answer => option_list (bytes_of answer) | _ => [] end.

Definition outstanding (s : Kept) : nat := match kp_pendingRead s with Outstanding => 1%nat | _ => O end.

(** [kept] says which chunk is a keepalive; [held] was read and not delivered. *)
Record tracked (given : list SourceAnswer) (kept : list (option (list Z))) (held : list (list Z)) (s : Kept) : Prop := {
  t_delivered : kp_delivered s = default SSE_KEEPALIVE_FRAME <$> kept;
  t_given : omap bytes_of given = omap id kept ++ held;
  t_held : (length held + outstanding s <= 1)%nat;
  t_open_held : kp_closed s = false -> held = settled_bytes s;
  t_reads : kp_reads s = (length given + outstanding s)%nat;
  t_settled : forall answer, kp_pendingRead s = Settled answer -> last given = Some answer;
  t_stage : match kp_stage s with
    | Racing => kp_pendingRead s = Outstanding /\ (kp_closed s = false -> kp_heartbeats s = true -> kp_armed s = true)
    | ReadWon answer => kp_pendingRead s = Settled answer
    | _ => True
    end;
  t_open : kp_closed s = false -> kept_open s = true;
  t_ended : kp_controller s = Closed -> kp_closed s = true /\ held = [] /\ last given = Some SourceDone /\ kp_pendingRead s = NoRead }.

Lemma tracked_fresh intervalMs : tracked [] [] [] (withSseKeepalive intervalMs).
Proof. by split; cbn; try lia. Qed.

(** A step that neither delivers nor reads. *)
Lemma tracked_move given kept held s s' :
  tracked given kept held s -> kp_delivered s' = kp_delivered s -> kp_reads s' = kp_reads s ->
  kp_pendingRead s' = kp_pendingRead s -> kp_controller s' = kp_controller s ->
  (kp_closed s' = false -> kp_closed s = false /\ kp_cancelled s' = kp_cancelled s) -> (kp_closed s = true -> kp_closed s' = true) ->
  match kp_stage s' with
  | Racing => kp_pendingRead s' = Outstanding /\ (kp_closed s' = false -> kp_heartbeats s' = true -> kp_armed s' = true)
  | ReadWon answer => kp_pendingRead s' = Settled answer
  | _ => True
  end -> tracked given kept held s'.
Proof.
  intros [H1 H2 H3 H4 H5 H6 H7 H8 H9] Ed Er Ep Ec Hc Hc' Hs.
  split; unfold outstanding, settled_bytes, kept_open in *; rewrite ?Ed, ?Er, ?Ep, ?Ec in *; try done.
  - intros E. by apply H4, Hc.
  - intros E. destruct (Hc E) as [E' ->]. by apply H8.
  - intros E. destruct (H9 E) as (E1 & ?). split; [by apply Hc'|done].
Qed.

Lemma pull_starts_tracked given kept held s :
  tracked given kept held s -> kp_closed s = false -> tracked given kept held (pull_starts s).
Proof.
  intros [H1 H2 H3 H4 H5 H6 H7 H8 H9] Hc. pose proof (H4 Hc) as Hh. specialize (H8 Hc).
  destruct s as [hb cl ar pr st de co ca re sc]; cbn in *. subst cl. unfold settled_bytes in *. cbn in *.
  destruct co; try done; destruct pr as [| |a], hb; cbn in *; split; unfold kept_open, settled_bytes in *; cbn in *; subst; try done; try lia.
Qed.

Lemma answer_tracked given kept held s answer s' :
  tracked given kept held s -> keep_step s (Answer answer) = Some s' ->
  tracked (given ++ [answer]) kept (held ++ option_list (bytes_of answer)) s'.
Proof.
  intros [H1 H2 H3 H4 H5 H6 H7 H8 H9] Hs. cbn in Hs. destruct (kp_pendingRead s) eqn:Hp; try done. injection Hs as <-.
  unfold outstanding in *. rewrite Hp in *. assert (held = []) as -> by (destruct held; [done|cbn in H3; lia]).
  assert (Hlen : (length (option_list (bytes_of answer)) <= 1)%nat) by by destruct answer; cbn; lia.
  assert (kp_controller s <> Closed) as Hnc by (intros E; by destruct (H9 E) as (_ & _ & _ & ?)).
  assert (omap bytes_of (given ++ [answer]) = omap id kept ++ option_list (bytes_of answer)) as Hg.
  { rewrite omap_app, H2, app_nil_r. by destruct answer. }
  assert (length (given ++ [answer]) = S (length given)) as Hl by (rewrite length_app; cbn; lia).
  cbn [app]. destruct (kp_stage s) as [| | |a] eqn:Hst; [..|done]; split; cbn; rewrite ?Hst, ?Hl; try done; try lia;
    intros a [= <-]; apply last_snoc.
Qed.

Lemma stopHeartbeat_tracked given kept held s :
  tracked given kept held s -> kp_closed s = true -> tracked given kept held (stopHeartbeat s).
Proof.
  intros Ht Hc. unfold stopHeartbeat, heartbeat_resolves. destruct (kp_armed s); [|done].
  pose proof (t_stage _ _ _ _ Ht) as Hst.
  cbn. destruct (kp_stage s) eqn:E; apply (tracked_move _ _ _ _ _ Ht); try done; cbn; rewrite ?E; naive_solver.
Qed.

Lemma deliver_tracked given kept held s s' chunk :
  tracked given kept held s -> kp_closed s = false ->
  match chunk with Some bytes => held = [bytes] /\ kp_pendingRead s' = NoRead | None => kp_pendingRead s' = kp_pendingRead s end ->
  kp_delivered s' = kp_delivered s ++ [default SSE_KEEPALIVE_FRAME chunk] -> kp_reads s' = kp_reads s ->
  kp_closed s' = false -> kp_controller s' = kp_controller s -> kp_cancelled s' = kp_cancelled s -> kp_stage s' = Idle ->
  tracked given (kept ++ [chunk]) (match chunk with Some _ => [] | None => held end) s'.
Proof.
  intros [H1 H2 H3 H4 H5 H6 H7 H8 H9] Hc Hch Ed Er Ec Eco Eca Es. specialize (H8 Hc). specialize (H4 Hc).
  assert (kp_controller s <> Closed) as Hnc by (intros E; destruct (H9 E); congruence).
  split; rewrite ?Es, ?Ed, ?Er, ?Eco; try done; rewrite ?fmap_app, ?omap_app, ?H1, ?H2; try done.
  - destruct chunk as [bytes|]; cbn; [|by rewrite app_nil_r]. destruct Hch as [-> _]. by rewrite app_nil_r.
  - unfold outstanding in *. destruct chunk; [destruct Hch as [_ ->]|rewrite Hch]; cbn; lia.
  - unfold settled_bytes in *. by destruct chunk; [destruct Hch as [_ ->]|rewrite Hch].
  - unfold outstanding in *. destruct chunk as [bytes|]; [|by rewrite Hch]. destruct Hch as [Hh ->]. rewrite Hh in H3. cbn in H3.
    destruct (kp_pendingRead s); cbn in *; lia.
  - intros a. destruct chunk; [by destruct Hch as [_ ->]|rewrite Hch; apply H6].
  - intros _. unfold kept_open in *. by rewrite Eco, Eca.
Qed.

Lemma pull_failed_tracked given kept held s e :
  tracked given kept held s -> kp_stage s = Idle -> tracked given kept held (pull_errors e s).
Proof.
  intros Ht Hst. unfold pull_errors. destruct (kp_closed s) eqn:Hc; [done|].
  assert (Hctl : kp_controller s <> Closed) by (intros E; destruct (t_ended _ _ _ _ Ht E); congruence).
  assert (tracked given kept held (stopHeartbeat (s <| kp_closed := true |>))) as [H1 H2 H3 H4 H5 H6 H7 H8 H9].
  { apply stopHeartbeat_tracked; [|done]. apply (tracked_move _ _ _ _ _ Ht); try done. cbn. by rewrite Hst. }
  unfold stopHeartbeat, heartbeat_resolves in *. destruct s as [hb cl ar pr st de co ca re sc]. cbn in *. subst.
  by destruct ar; split; cbn in *.
Qed.

(** A read that comes too late is dropped. *)
Lemma drop_tracked given kept held s :
  tracked given kept held s -> kp_closed s = true -> kp_stage s = Idle -> outstanding s = O ->
  tracked given kept held (s <| kp_pendingRead := NoRead |>).
Proof.
  intros [H1 H2 H3 H4 H5 H6 H7 H8 H9] Hc Hs Ho. rewrite Ho in *.
  split; cbn; rewrite ?Hs, ?Hc; try done. intros E. by destruct (H9 E) as (? & ? & ? & ?).
Qed.

Lemma pull_continues_tracked given kept held s :
  tracked given kept held s -> exists kept' held', tracked given kept' held' (pull_continues s).
Proof.
  intros Ht. pose proof (t_stage _ _ _ _ Ht) as Hst. pose proof (t_open _ _ _ _ Ht) as Ho. pose proof (t_open_held _ _ _ _ Ht) as Hh.
  destruct s as [hb cl ar pr st de co ca re sc]. unfold pull_continues, stopHeartbeat, heartbeat_resolves, enqueue_chunk, close_kept, kept_open in *.
  destruct st as [| | |a]; cbn in *; [by eauto..| |].
  - destruct cl; [exists kept, held; by apply (tracked_move _ _ _ _ _ Ht)|]. specialize (Ho eq_refl). destruct co; try done. rewrite Ho.
    exists (kept ++ [None]), held. by apply (deliver_tracked _ _ _ _ _ None Ht).
  - subst pr. assert (Hi : forall ar', tracked given kept held (mkKept hb cl ar' (Settled a) Idle de co ca re sc))
      by (intros ar'; by apply (tracked_move _ _ _ _ _ Ht)).
    destruct cl; [destruct a as [bytes| |e]; exists kept, held; [..|by apply (pull_failed_tracked _ _ _ _ _ (Hi ar))]; destruct ar;
      by apply (drop_tracked _ _ _ _ (Hi false))|].
    specialize (Ho eq_refl). specialize (Hh eq_refl). destruct co; try done. destruct a as [bytes| |e].
    + exists (kept ++ [Some bytes]), []. destruct ar; cbn; rewrite Ho; by apply (deliver_tracked _ _ _ _ _ (Some bytes) Ht).
    + exists kept, []. cbn in Hh. subst held. destruct Ht as [H1 H2 H3 H4 H5 H6 H7 H8 H9]. cbn in *.
      destruct ar; cbn; rewrite Ho; (split; cbn; try done; intros _; split_and!; try done; by apply H6).
    + exists kept, held. by apply (pull_failed_tracked _ _ _ _ _ (Hi ar)).
Qed.

Lemma step_tracked given kept held s input s' :
  tracked given kept held s -> keep_step s input = Some s' ->
  exists kept' held', tracked (given ++ answers [input]) kept' held' s'.
Proof.
  intros Ht Hs. pose proof (t_stage _ _ _ _ Ht) as Hst. destruct input as [|answer| | |]; cbn [answers omap list_omap]; rewrite ?app_nil_r.
  - cbn in Hs. destruct (kp_stage s); try done. destruct (negb _); [done|].
    destruct (kp_closed s) eqn:Hc; injection Hs as <-; [by eauto|]. exists kept, held. by apply pull_starts_tracked.
  - eexists _, _. by eapply answer_tracked.
  - cbn in Hs. destruct (kp_armed s); [|done]. injection Hs as <-. exists kept, held. unfold heartbeat_resolves. cbn.
    destruct (kp_stage s) eqn:E; apply (tracked_move _ _ _ _ _ Ht); try done; cbn; by rewrite ?E.
  - cbn in Hs. destruct (kp_stage s); try done; injection Hs as <-; by apply (pull_continues_tracked _ _ _ _ Ht).
  - exists kept, held. cbn in Hs. destruct (negb (kept_open s)) eqn:Ho; [done|].
    destruct (kp_closed s) eqn:Hc; injection Hs as <-.
    { apply (tracked_move _ _ _ _ _ Ht); try done; cbn; try congruence; destruct (kp_stage s); naive_solver. }
    assert (tracked given kept held (stopHeartbeat (s <| kp_cancelled := true |> <| kp_closed := true |>))) as H.
    { apply stopHeartbeat_tracked; [|done]. apply (tracked_move _ _ _ _ _ Ht); try done. cbn. destruct (kp_stage s); naive_solver. }
    apply (tracked_move _ _ _ _ _ H); try done. apply (t_stage _ _ _ _ H).
Qed.

Lemma run_tracked inputs given kept held s s' :
  tracked given kept held s -> keep_run s inputs = Some s' ->
  exists kept' held', tracked (given ++ answers inputs) kept' held' s'.
Proof.
  revert given kept held s. induction inputs as [|input inputs IH]; intros given kept held s Ht Hr; cbn [keep_run] in Hr.
  { injection Hr as <-. rewrite app_nil_r. by eauto. }
  destruct (keep_step s input) as [s1|] eqn:Hs; [|done]. cbn in Hr.
  destruct (step_tracked _ _ _ _ _ _ Ht Hs) as (kept1 & held1 & Ht1).
  destruct (IH _ _ _ _ Ht1 Hr) as (kept2 & held2 & Ht2). exists kept2, held2.
  replace (answers (input :: inputs)) with (answers [input] ++ answers inputs) by (unfold answers; by rewrite <- omap_app).
  by rewrite app_assoc.
Qed.

End KeepaliveProofs.

(** The chunks a source answered with. *)
Definition source_chunks (inputs : list Keepalive.KeepInput) : list (list Z) :=
  omap KeepaliveProofs.bytes_of (KeepaliveProofs.answers inputs).

(** C39: Keepalives are invisible and lose nothing.  When each chunk of the
    source is made of whole events, a client that reads the stream with its
    keepalive frames sees the events and the outcome it would see without them, of
    the chunks relayed so far: all the source answered, but for the one that the
    pull at hand has read or that came after a cancellation.  The stream closes
    only after the source is done and all was relayed; at most one read is
    outstanding, so a heartbeat never starts a second one; and while the source is
    quiet each expiry of the timer sends a frame and keeps the read. *)
Theorem keepalive_transparent intervalMs inputs s :
  Keepalive.keep_run (Keepalive.withSseKeepalive intervalMs) inputs = Some s -> Forall whole (source_chunks inputs) ->
  (exists relayed held, source_chunks inputs = relayed ++ held /\ (length held <= 1)%nat
    /\ (forall demand ending aborted,
          observed (readResponsesStream demand (reads_of (Keepalive.kp_delivered s) ending) aborted)
          = observed (readResponsesStream demand (reads_of relayed ending) aborted))
    /\ (Keepalive.kp_closed s = false -> held = KeepaliveProofs.settled_bytes s)
    /\ (Keepalive.kp_controller s = Keepalive.Closed ->
        held = [] /\ last (KeepaliveProofs.answers inputs) = Some Keepalive.SourceDone))
  /\ Keepalive.kp_reads s = (length (KeepaliveProofs.answers inputs) + KeepaliveProofs.outstanding s)%nat
  /\ (Keepalive.kp_stage s = Keepalive.Racing -> Keepalive.kp_closed s = false -> Keepalive.kp_heartbeats s = true ->
      exists s', Keepalive.keep_run s [Keepalive.Timer; Keepalive.Resume] = Some s'
        /\ Keepalive.kp_delivered s' = Keepalive.kp_delivered s ++ [SSE_KEEPALIVE_FRAME]
        /\ Keepalive.kp_stage s' = Keepalive.Idle /\ Keepalive.kp_pendingRead s' = Keepalive.Outstanding
        /\ Keepalive.kp_reads s' = Keepalive.kp_reads s).
Proof.
  intros Hr Hw. destruct (KeepaliveProofs.run_tracked _ _ _ _ _ _ (KeepaliveProofs.tracked_fresh intervalMs) Hr) as (kept & held & Ht).
  cbn [app] in Ht. destruct Ht as [H1 H2 H3 H4 H5 H6 H7 H8 H9]. split_and!; [|done|].
  - exists (omap id kept), held. split_and!; [done|lia| |done|naive_solver]. intros demand ending aborted. rewrite H1.
    apply reads_invisible. unfold source_chunks in Hw. rewrite H2 in Hw. by apply Forall_app in Hw as [Hw _].
  - intros Es Hc Hb. rewrite Es in H7. destruct H7 as [Hp Ha]. specialize (Ha Hc Hb). specialize (H8 Hc).
    clear - Es Hc Ha H8 Hp. destruct s as [hb cl ar pr st de co ca re sc]. cbn in *. subst. unfold Keepalive.kept_open in H8. cbn in H8.
    destruct co; try done. eexists. cbn. unfold Keepalive.pull_continues, Keepalive.enqueue_chunk, Keepalive.kept_open. cbn. by rewrite H8.
Qed.

(** A quiet source between two events, and one that is done. *)
Module Kept.
Definition chunk : list Z := TextEncoder_encode (sseRaw Written.delta).
Definition inputs : list Keepalive.KeepInput :=
  [Keepalive.Pull; Keepalive.Timer; Keepalive.Resume; Keepalive.Pull; Keepalive.Answer (Keepalive.SourceBytes chunk); Keepalive.Resume;
   Keepalive.Pull].
Definition state : Keepalive.Kept := default (Keepalive.withSseKeepalive None) (Keepalive.keep_run (Keepalive.withSseKeepalive None) inputs).
End Kept.

Lemma keepalive_transparent_witness :
  Keepalive.kp_delivered Kept.state = [SSE_KEEPALIVE_FRAME; Kept.chunk]
  /\ (exists relayed held, source_chunks Kept.inputs = relayed ++ held /\ (length held <= 1)%nat
    /\ (forall demand ending aborted,
          observed (readResponsesStream demand (reads_of (Keepalive.kp_delivered Kept.state) ending) aborted)
          = observed (readResponsesStream demand (reads_of relayed ending) aborted))
    /\ (Keepalive.kp_closed Kept.state = false -> held = KeepaliveProofs.settled_bytes Kept.state)
    /\ (Keepalive.kp_controller Kept.state = Keepalive.Closed ->
        held = [] /\ last (KeepaliveProofs.answers Kept.inputs) = Some Keepalive.SourceDone)).
Proof.
  split; [vm_compute; reflexivity|]. apply (keepalive_transparent None Kept.inputs Kept.state).
  - vm_compute. reflexivity.
  - constructor; [|constructor]. exact (written_whole Written.delta Written.delta_sendable).
Defined.

(** ** The proxy *)

(** What the proxy is told by a generator that yields these events and then
    returns or throws. *)
Definition proxy_answers (events : list ResponsesStreamEvent) (outcome : Outcome) : list Upstream :=
  (UpEvent <$> events) ++ match outcome with Failed e => [UpError e] | Finished => [UpEnd] | _ => [] end.

(** A client that pulls while the stream is open. *)
Fixpoint proxied (s : Proxy.Proxy) (upstream : list Upstream) : option Proxy.Proxy :=
  if Proxy.px_closed s then Some s else
  match upstream with
  | [] => Some s
  | answer :: upstream => s ← Proxy.run s [Proxy.Pull; Proxy.Answer answer]; proxied s upstream
  end.

Definition quiet (delivered : list (list Z)) (returns : nat) (callbacks : list Proxy.Callback) : Proxy.Proxy :=
  Proxy.mkProxy None false false delivered false false false returns callbacks.

Lemma proxied_events events delivered callbacks outcome :
  terminal_last events -> (outcome = Finished -> ends_terminal events) -> (forall e, outcome = Failed e -> ~ ends_terminal events) ->
  (outcome = Finished \/ exists e, outcome = Failed e) ->
  exists s, proxied (quiet delivered 0 callbacks) (proxy_answers events outcome) = Some s /\ Proxy.px_closed s = true
    /\ Proxy.px_controllerClosed s = true
    /\ Proxy.px_delivered s = delivered ++ ((fun ev => TextEncoder_encode (ev_raw ev)) <$> events)
        ++ match outcome with Failed _ => [TextEncoder_encode (errorEvent "The upstream stream ended unexpectedly.")] | _ => [] end.
Proof.
  revert delivered callbacks. induction events as [|ev events IH]; intros delivered callbacks Hl Hf Hfail Ho.
  { destruct Ho as [->|[e ->]]; [by destruct (Hf eq_refl) as (? & ? & _)|]. eexists. by split. }
  destruct Hl as [Hlast Hl]. unfold proxy_answers. cbn [fmap list_fmap app proxied Proxy.run].
  destruct (ev_terminal ev) eqn:Ht.
  - destruct Hlast as [-> |]; [|done]. destruct Ho as [->|[e ->]].
    2:{ destruct (Hfail e eq_refl). by exists ev. }
    eexists. cbn. unfold Proxy.settle_pull. cbn. rewrite Ht. cbn. by split.
  - destruct (IH (delivered ++ [TextEncoder_encode (ev_raw ev)]) (callbacks ++ [Proxy.OnEvent ev])) as (s & Hs & H1 & H2 & H3); try done.
    + intros Eo. destruct (Hf Eo) as (e & He & Hte). destruct events; [injection He as <-; congruence|]. by exists e.
    + intros e He Hend. destruct (Hfail e He). destruct Hend as (x & Hx & Htx). exists x. split; [|done]. by destruct events.
    + exists s. rewrite <- app_assoc in H3. split_and!; try done.
      cbn. unfold Proxy.settle_pull. cbn. rewrite Ht. cbn. exact Hs.
Qed.

(** The proxy of a reader passes on every event it reads, and ends either with
    the terminal event that was read or with one error event. *)
Theorem proxy_exact demand chunks aborted ending events outcome :
  observed (readResponsesStream demand (reads_of chunks ending) aborted) = (events, outcome) ->
  (outcome = Finished \/ exists e, outcome = Failed e) ->
  exists s, proxied (Proxy.proxyResponsesStreamIterator None) (proxy_answers events outcome) = Some s /\ Proxy.px_closed s = true
    /\ Proxy.px_delivered s = ((fun ev => TextEncoder_encode (ev_raw ev)) <$> events)
        ++ match outcome with Failed _ => [TextEncoder_encode (errorEvent "The upstream stream ended unexpectedly.")] | _ => [] end.
Proof.
  intros Hr Ho. rewrite sse_reads_reference in Hr. pose proof (reference_read_sound demand (concat chunks) ending aborted) as H.
  rewrite Hr in H. destruct H as (_ & H2 & H3 & H4).
  destruct (proxied_events events [] [] outcome) as (s & Hs & Hc & _ & Hd); try done; [|by exists s].
  intros e He (ev & Hev & Ht). pose proof (H4 e He) as Hall. apply last_Some in Hev as [l ->]. apply Forall_app in Hall as [_ Hall].
  inversion Hall; congruence.
Qed.

(** ** A trailing event that was not closed *)

(** The upstream ends after a delta without an empty line.  The reader takes it
    for an event and the owned stream relays its text as it came, so the failure
    event written next is part of the same block: the client gets a malformed
    event and no terminal one. *)
Module Trailing.
Definition bytes : list Z := TextEncoder_encode (text_of "data: " ++ JSON_stringify (JsObject Written.delta) ++ [10]).
Definition events : list ResponsesStreamEvent :=
  fst (observed (readResponsesStream 9 (reads_of [bytes] (Some ReadDone)) false)).
Definition stream : option Owned :=
  match createOwnedResponsesStream (fun _ => None) [] events None None with
  | Ok s => drive false (fun _ => None) [] 3 s [UpError (ResponsesStreamError premature_eof)]
  | Err _ => None
  end.
Definition delivered : list ResponsesStreamEvent := match stream with Some s => os_delivered s | None => [] end.
End Trailing.

Lemma trailing_event_hides_failure :
  (ev_type <$> Trailing.delivered) = [text_of "response.output_text.delta"; text_of "response.failed"]
  /\ observed (readResponsesStream 9 (reads_of ((fun ev => TextEncoder_encode (ev_raw ev)) <$> Trailing.delivered) (Some ReadDone)) false)
     = ([], Failed (ResponsesStreamError malformed_event)).
Proof. split; vm_compute; reflexivity. Qed.
