(* ===== verification/BankedReset.v ===== *)
(** * Banked resets: records, policy and inventory

    The pure part of [src/codex/banked-reset.ts], [banked-reset-claim.ts] and
    [banked-reset-provider.ts].  A banked reset spends a credit of an upstream
    account to reopen its quota; the record of a redemption is kept per account
    and quota window and validated whenever it is read.  Times, generations and
    limits are integers.  Telemetry, which never changes what the code does, is
    left out. *)

From Stdlib Require Import ZArith QArith Lia.
From stdpp Require Import base gmap strings list pretty.
From S2P Require Import Prelude Js KvStore HttpDate ApiKeyUsage ApiKeyStore.
Open Scope string_scope.
Open Scope Z_scope.

(** ** Constants and keys *)

Definition CODEX_RESET_REDEMPTION_KV_PREFIX : KvKey := [KStr "uos_ai"; KStr "codex_reset_redemption"; KStr "v1"].
Definition CODEX_RESET_ACCOUNT_DAILY_KV_PREFIX : KvKey :=
  [KStr "uos_ai"; KStr "codex_reset_redemption"; KStr "account_day"; KStr "v1"].
Definition CODEX_BANKED_RESET_LEASE_MS : Z := 30000.
Definition CODEX_BANKED_RESET_INVENTORY_MAX_AGE_MS : Z := 30000.
Definition MAX_CAS_ATTEMPTS : nat := 4.

Definition codexResetRedemptionKey (accountIdHash quotaGeneration : string) : KvKey :=
  (CODEX_RESET_REDEMPTION_KV_PREFIX ++ [KStr accountIdHash; KStr quotaGeneration])%list.
Definition codexResetAccountDailyKey (accountIdHash day : string) : KvKey :=
  (CODEX_RESET_ACCOUNT_DAILY_KV_PREFIX ++ [KStr accountIdHash; KStr day])%list.

(** ** Configuration *)

Inductive CodexBankedResetMode := ModeDisabled | ModeShadow | ModeLive.

#[export] Instance CodexBankedResetMode_eq_dec : EqDecision CodexBankedResetMode.
Proof. solve_decision. Defined.

Record CodexBankedResetConfig := mkResetConfig {
  bc_enabled : bool;
  bc_mode : CodexBankedResetMode;
  bc_maxPerAccountPerDay : Z;
  bc_maxPerAccountPerWindow : Z }.

Definition loadCodexBankedResetConfig : CodexBankedResetConfig := mkResetConfig true ModeLive 1 1.

(** ** Records *)

Inductive CodexResetRedemptionState := RClaimed | RSubmitted | RUnknown | RVerified | RRejected.

#[export] Instance CodexResetRedemptionState_eq_dec : EqDecision CodexResetRedemptionState.
Proof. solve_decision. Defined.

Record CodexResetRedemptionRecord := mkRedemption {
  rr_account_id_hash : string;
  rr_credential_version : string;
  rr_quota_generation : string;
  rr_routing_generation : Z;
  rr_idempotency_key_hash : string;
  rr_state : CodexResetRedemptionState;
  rr_owner_token : string;
  rr_fence : Z;
  rr_lease_expires_at_ms : Z;
  rr_provider_receipt_id : option string;
  rr_created_at_ms : Z;
  rr_updated_at_ms : Z;
  rr_submitted_at_ms : option Z;
  rr_verified_at_ms : option Z;
  rr_last_error_code : option string }.

#[export] Instance CodexResetRedemptionRecord_eta : Eta CodexResetRedemptionRecord := fun r =>
  mkRedemption (rr_account_id_hash r) (rr_credential_version r) (rr_quota_generation r) (rr_routing_generation r)
    (rr_idempotency_key_hash r) (rr_state r) (rr_owner_token r) (rr_fence r) (rr_lease_expires_at_ms r)
    (rr_provider_receipt_id r) (rr_created_at_ms r) (rr_updated_at_ms r) (rr_submitted_at_ms r) (rr_verified_at_ms r)
    (rr_last_error_code r).

#[export] Instance CodexResetRedemptionRecord_eq_dec : EqDecision CodexResetRedemptionRecord.
Proof. solve_decision. Defined.

Record CodexResetGlobalDailyRecord := mkDaily { dr_day : string; dr_submission_count : Z; dr_updated_at_ms : Z }.

(** ** Reading rows *)

(** [isSafeMs] and [isSafeNonnegativeInteger] of a number the code computed. *)
Definition isSafeMs (z : Z) : bool := isSafeInteger z && (0 <=? z).

Definition isNonEmptyText (max : Z) (v : jsval) : option string :=
  match v with JStr s => if (0 <? str_length s) && (str_length s <=? max) then Some s else None | _ => None end.

(** The same of a string. *)
Definition nonEmptyText (max : Z) (s : string) : bool := (0 <? str_length s) && (str_length s <=? max).

Definition STATES : list (string * CodexResetRedemptionState) :=
  [("claimed", RClaimed); ("submitted", RSubmitted); ("unknown", RUnknown); ("verified", RVerified); ("rejected", RRejected)].

Definition isState (v : jsval) : option CodexResetRedemptionState := match v with JStr s => assoc s STATES | _ => None end.

Definition state_text (s : CodexResetRedemptionState) : string :=
  match s with
  | RClaimed => "claimed" | RSubmitted => "submitted" | RUnknown => "unknown" | RVerified => "verified" | RRejected => "rejected"
  end.

Definition is_none {A} (o : option A) : bool := match o with None => true | Some _ => false end.

Definition redemptionRecordStateIsConsistent (r : CodexResetRedemptionRecord) : bool :=
  match rr_state r with
  | RClaimed => is_none (rr_provider_receipt_id r) && is_none (rr_submitted_at_ms r) && is_none (rr_verified_at_ms r)
                && is_none (rr_last_error_code r)
  | RSubmitted => negb (is_none (rr_submitted_at_ms r)) && is_none (rr_verified_at_ms r) && is_none (rr_last_error_code r)
  | RUnknown => negb (is_none (rr_submitted_at_ms r)) && is_none (rr_verified_at_ms r) && negb (is_none (rr_last_error_code r))
  | RVerified => negb (is_none (rr_submitted_at_ms r)) && negb (is_none (rr_verified_at_ms r)) && is_none (rr_last_error_code r)
  | RRejected => is_none (rr_verified_at_ms r) && negb (is_none (rr_last_error_code r))
  end.

(** [x === null || x >= bound]. *)
Definition null_or_from (o : option Z) (bound : Z) : bool := match o with None => true | Some x => bound <=? x end.
Definition null_or_to (o : option Z) (bound : Z) : bool := match o with None => true | Some x => x <=? bound end.

Definition redemptionRecordTimestampsAreOrdered (r : CodexResetRedemptionRecord) : bool :=
  (rr_created_at_ms r <=? rr_updated_at_ms r)
  && null_or_from (rr_submitted_at_ms r) (rr_created_at_ms r)
  && null_or_to (rr_submitted_at_ms r) (rr_updated_at_ms r)
  && match rr_verified_at_ms r with
     | None => true
     | Some verified => match rr_submitted_at_ms r with Some submitted => submitted <=? verified | None => false end
     end
  && null_or_to (rr_verified_at_ms r) (rr_updated_at_ms r).

Definition parseCodexResetRedemptionRecord (value : jsval) : option CodexResetRedemptionRecord :=
  if negb (isRecord value) || negb (is_int (prop value "v") 1) then None else
  account_id_hash ← isNonEmptyText 512 (prop value "account_id_hash");
  credential_version ← isNonEmptyText 512 (prop value "credential_version");
  quota_generation ← isNonEmptyText 512 (prop value "quota_generation");
  idempotency_key_hash ← isNonEmptyText 512 (prop value "idempotency_key_hash");
  state ← isState (prop value "state");
  owner_token ← isNonEmptyText 512 (prop value "owner_token");
  routing_generation ← nonNegativeSafeInteger (prop value "routing_generation");
  fence ← nonNegativeSafeInteger (prop value "fence");
  lease_expires_at_ms ← nonNegativeSafeInteger (prop value "lease_expires_at_ms");
  created_at_ms ← nonNegativeSafeInteger (prop value "created_at_ms");
  updated_at_ms ← nonNegativeSafeInteger (prop value "updated_at_ms");
  provider_receipt_id ← nullable (isNonEmptyText 512) (prop value "provider_receipt_id");
  submitted_at_ms ← nullable nonNegativeSafeInteger (prop value "submitted_at_ms");
  verified_at_ms ← nullable nonNegativeSafeInteger (prop value "verified_at_ms");
  last_error_code ← nullable (isNonEmptyText 128) (prop value "last_error_code");
  let r := mkRedemption account_id_hash credential_version quota_generation routing_generation idempotency_key_hash state
             owner_token fence lease_expires_at_ms provider_receipt_id created_at_ms updated_at_ms submitted_at_ms
             verified_at_ms last_error_code in
  if redemptionRecordTimestampsAreOrdered r && redemptionRecordStateIsConsistent r then Some r else None.

(** A record as it is stored. *)
Definition json_redemption (r : CodexResetRedemptionRecord) : jsval :=
  JObj [("v", jint 1); ("account_id_hash", JStr (rr_account_id_hash r)); ("credential_version", JStr (rr_credential_version r));
    ("quota_generation", JStr (rr_quota_generation r)); ("routing_generation", jint (rr_routing_generation r));
    ("idempotency_key_hash", JStr (rr_idempotency_key_hash r)); ("state", JStr (state_text (rr_state r)));
    ("owner_token", JStr (rr_owner_token r)); ("fence", jint (rr_fence r));
    ("lease_expires_at_ms", jint (rr_lease_expires_at_ms r)); ("provider_receipt_id", json_option JStr (rr_provider_receipt_id r));
    ("created_at_ms", jint (rr_created_at_ms r)); ("updated_at_ms", jint (rr_updated_at_ms r));
    ("submitted_at_ms", json_option jint (rr_submitted_at_ms r)); ("verified_at_ms", json_option jint (rr_verified_at_ms r));
    ("last_error_code", json_option JStr (rr_last_error_code r))].

Definition parseAccountDayRecord (value : jsval) (day : string) : option CodexResetGlobalDailyRecord :=
  if negb (isRecord value) || negb (is_int (prop value "v") 1) || negb (is_str (prop value "day") day) then None else
  updated_at_ms ← nonNegativeSafeInteger (prop value "updated_at_ms");
  submission_count ← nonNegativeSafeInteger (prop value "submission_count");
  Some (mkDaily day submission_count updated_at_ms).

Definition json_daily (d : CodexResetGlobalDailyRecord) : jsval :=
  JObj [("v", jint 1); ("day", JStr (dr_day d)); ("submission_count", jint (dr_submission_count d)); ("updated_at_ms", jint (dr_updated_at_ms d))].

(** ** Days, leases and fences *)

Definition utcDay (nowMs : Z) : option string :=
  if negb (isSafeMs nowMs) then None else
  match toISOString nowMs with Ok iso => Some (slice0 iso 10) | Err _ => None end.

Definition claimedDuringCurrentUtcDay (record : CodexResetRedemptionRecord) (nowMs : Z) : bool :=
  match utcDay (rr_created_at_ms record) with Some day => bool_decide (utcDay nowMs = Some day) | None => false end.

Definition leaseUntil (nowMs : Z) : option Z :=
  let next := nowMs + CODEX_BANKED_RESET_LEASE_MS in if isSafeMs next then Some next else None.

Definition nextFence (fence : Z) : option Z := if isSafeInteger (fence + 1) then Some (fence + 1) else None.

(** ** Candidates and contexts *)

Record ResetInventoryCredit := mkCredit {
  ic_id : string;
  ic_status : string;
  ic_resetType : string;
  ic_expiresAtMs : option Z }.

(** [fc_isCurrent] is [None] when it throws. *)
Record CodexBankedResetFence := mkFence { fc_key : KvKey; fc_isCurrent : jsval -> option bool }.

(** [cd_authorization] is the account of a manual action. *)
Record CodexBankedResetCandidate := mkCandidate {
  cd_accountId : string;
  cd_authorization : option string;
  cd_credentialVersion : string;
  cd_quotaResetAtMs : Z;
  cd_routingGeneration : Z;
  cd_fences : list CodexBankedResetFence;
  cd_selectedCredit : option ResetInventoryCredit }.

Definition manual (candidate : CodexBankedResetCandidate) : bool := negb (is_none (cd_authorization candidate)).

Record ResetContext := mkContext {
  rc_accountId : string;
  rc_accountIdHash : string;
  rc_credentialVersion : string;
  rc_quotaGeneration : string;
  rc_idempotencyKey : string;
  rc_idempotencyKeyHash : string }.

(** The character U+0000 between the parts of a hashed input. *)
Definition NUL : string := String (Ascii.ascii_of_nat 0) "".

(** [hash] is [None] when it throws. *)
Definition makeResetContext (hash : string -> option string) (candidate : CodexBankedResetCandidate) : option ResetContext :=
  if negb (nonEmptyText 1024 (cd_accountId candidate)) || negb (nonEmptyText 512 (cd_credentialVersion candidate))
     || negb (isSafeMs (cd_quotaResetAtMs candidate)) || negb (isSafeMs (cd_routingGeneration candidate)) then None else
  accountIdHash ← hash (cd_accountId candidate);
  credentialHash ← hash ("uos_ai" +:+ NUL +:+ "codex_reset_credential_version" +:+ NUL +:+ cd_credentialVersion candidate);
  let credentialVersion := "v1:" +:+ credentialHash in
  generationHash ← hash ("uos_ai" +:+ NUL +:+ "codex_reset_generation" +:+ NUL +:+ accountIdHash +:+ NUL
                         +:+ pretty (cd_quotaResetAtMs candidate));
  let quotaGeneration := "v1:" +:+ generationHash in
  keyHash ← hash ("uos_ai" +:+ NUL +:+ "codex_reset_idempotency" +:+ NUL +:+ accountIdHash +:+ NUL +:+ quotaGeneration);
  let idempotencyKey := "uos_ai_codex_reset_v1_" +:+ keyHash in
  idempotencyKeyHash ← hash idempotencyKey;
  if negb (nonEmptyText 512 accountIdHash) || negb (nonEmptyText 512 credentialVersion) || negb (nonEmptyText 512 quotaGeneration)
     || negb (nonEmptyText 512 idempotencyKeyHash) then None else
  Some (mkContext (cd_accountId candidate) accountIdHash credentialVersion quotaGeneration idempotencyKey idempotencyKeyHash).

Definition matchesContext (record : CodexResetRedemptionRecord) (context : ResetContext) : bool :=
  bool_decide (rr_account_id_hash record = rc_accountIdHash context)
  && bool_decide (rr_credential_version record = rc_credentialVersion context)
  && bool_decide (rr_quota_generation record = rc_quotaGeneration context)
  && bool_decide (rr_idempotency_key_hash record = rc_idempotencyKeyHash context).

Definition ownedBy (current : CodexResetRedemptionRecord) (context : ResetContext) (expected : CodexResetRedemptionRecord) : bool :=
  matchesContext current context && bool_decide (rr_owner_token current = rr_owner_token expected)
  && (rr_fence current =? rr_fence expected).

Definition isOwnedRecordInState (current : option CodexResetRedemptionRecord) (context : ResetContext)
    (expected : CodexResetRedemptionRecord) (state : CodexResetRedemptionState) : option CodexResetRedemptionRecord :=
  current ← current;
  if ownedBy current context expected && bool_decide (rr_state current = state) then Some current else None.

Definition quotaWindowIsOpen (candidate : CodexBankedResetCandidate) (nowMs : Z) : bool := nowMs <? cd_quotaResetAtMs candidate.

(** [None] when the clock throws or its value is not a time. *)
Definition readClock (value : option number) : option Z := n ← value; nonNegativeSafeInteger (JNum n).

Definition stateWith (record : CodexResetRedemptionRecord) (state : CodexResetRedemptionState) (nowMs : Z) : CodexResetRedemptionRecord :=
  record <| rr_state := state |> <| rr_updated_at_ms := nowMs |>.

(** ** The provider *)

(** The contract is read as an untyped value; a call is [None] when it throws or
    rejects. *)
Record CodexUsageResetProvider := mkProvider {
  pv_contract : jsval;
  pv_readInventory : nat -> option jsval;
  pv_redeem : nat -> option jsval;
  pv_lookup : nat -> option jsval;
  pv_verifyApplied : nat -> option jsval }.

(** [isRecord] of the provider's file, which excludes arrays. *)
Definition is_plain (v : jsval) : bool := match v with JObj _ => true | _ => false end.

Definition truthy (v : jsval) : bool :=
  match v with
  | JUndefined | JNull => false
  | JBool b => b
  | JNum NaN => false
  | JNum n => negb (is_zero n)
  | JStr s => negb (empty s)
  | _ => true
  end.

Definition is_true (v : jsval) : bool := match v with JBool true => true | _ => false end.

Definition hasNonEmptyResetType (v : jsval) : bool := match v with JStr s => negb (empty (trim s)) | _ => false end.

Definition supportedResetTypes (provider : CodexUsageResetProvider) : list jsval :=
  match prop (pv_contract provider) "supportedResetTypes" with JArr items => items | _ => [] end.

Definition providerSupportsResetType (provider : CodexUsageResetProvider) (resetType : string) : bool :=
  is_plain (pv_contract provider) && hasNonEmptyResetType (JStr resetType)
  && existsb (fun supported => is_str supported resetType && hasNonEmptyResetType supported) (supportedResetTypes provider).

Definition providerReceiptIdsSafeToPersistAndLog (provider : CodexUsageResetProvider) : bool :=
  is_plain (pv_contract provider) && is_true (prop (pv_contract provider) "receiptIdsSafeToPersistAndLog").

Definition providerTreatsRedeemOutcomeAsFinal (provider : CodexUsageResetProvider) : bool :=
  is_plain (pv_contract provider) && is_true (prop (pv_contract provider) "redeemOutcomeIsFinal").

Definition providerSupportsLiveRedemption (provider : CodexUsageResetProvider) : bool :=
  let contract := pv_contract provider in
  is_plain contract && is_plain (prop contract "idempotency") && is_plain (prop contract "lookup")
  && is_plain (prop contract "verification")
  && existsb hasNonEmptyResetType (supportedResetTypes provider)
  && truthy (prop (prop contract "idempotency") "callerSupplied")
  && (is_true (prop contract "redeemOutcomeIsFinal")
      || (negb (is_none (positiveSafeInteger (prop (prop contract "idempotency") "retentionMs")))
          && truthy (prop (prop contract "lookup") "byIdempotencyKey")
          && truthy (prop (prop contract "verification") "independentlyVerifiable"))).

Definition terminalOutcomeCannotReconcile (provider : CodexUsageResetProvider) : bool :=
  let contract := pv_contract provider in
  providerTreatsRedeemOutcomeAsFinal provider
  && negb (truthy (prop (prop contract "lookup") "byIdempotencyKey"))
  && negb (truthy (prop (prop contract "lookup") "byProviderReceiptId"))
  && negb (truthy (prop (prop contract "verification") "independentlyVerifiable")).

(** ** Policy *)

(** The reason a submission is not allowed. *)
Definition policyReason (config : CodexBankedResetConfig) (manual : bool) : option string :=
  if negb (bc_enabled config) then Some "feature_disabled"
  else if bool_decide (bc_mode config = ModeDisabled) then Some "mode_disabled"
  else if bool_decide (bc_mode config = ModeShadow) && negb manual then None
  else if (bc_maxPerAccountPerDay config <=? 0) || (manual && negb (bc_maxPerAccountPerDay config =? 1))
  then Some "per_account_day_limit_invalid"
  else if negb (bc_maxPerAccountPerWindow config =? 1) then Some "per_account_window_limit_invalid"
  else None.

Definition providerPolicyReason (config : CodexBankedResetConfig) (provider : CodexUsageResetProvider) (manual : bool) : option string :=
  if (negb manual && negb (bool_decide (bc_mode config = ModeLive))) || (bc_maxPerAccountPerDay config =? 1) then None
  else if providerTreatsRedeemOutcomeAsFinal provider then Some "terminal_outcome_account_day_limit_must_be_one"
  else Some "per_account_day_limit_invalid".

(** [config] is [None] when [reloadConfig] throws. *)
Definition loadLiveSubmissionConfig (config : option CodexBankedResetConfig) (provider : CodexUsageResetProvider) (manual : bool) :
    CodexBankedResetConfig + string :=
  match config with
  | None => inr "configuration_unavailable"
  | Some config =>
      let reason := match policyReason config manual with Some r => Some r | None => providerPolicyReason config provider manual end in
      match reason with
      | Some r => inr r
      | None => if negb manual && negb (bool_decide (bc_mode config = ModeLive)) then inr "mode_not_live" else inl config
      end
  end.

(** ** Inventory and results *)

Definition receiptId (v : jsval) : option string := isNonEmptyText 512 v.

Definition durableReceiptId (provider : CodexUsageResetProvider) (v : jsval) : option string :=
  if providerReceiptIdsSafeToPersistAndLog provider then receiptId v else None.

Record ResetInventory := mkInventory { in_availableCount : Z; in_credits : list ResetInventoryCredit }.

Definition valid_credit (credit : jsval) : option ResetInventoryCredit :=
  if negb (isRecord credit) then None else
  id ← isNonEmptyText 512 (prop credit "id");
  status ← isNonEmptyText 128 (prop credit "status");
  resetType ← isNonEmptyText 128 (prop credit "resetType");
  expiresAtMs ← nullable nonNegativeSafeInteger (prop credit "expiresAtMs");
  Some (mkCredit id status resetType expiresAtMs).

Definition available (credit : ResetInventoryCredit) : bool := bool_decide (ic_status credit = "available").

Definition validInventory (inventory : jsval) (nowMs : Z) : option ResetInventory :=
  if negb (isRecord inventory) then None else
  availableCount ← nonNegativeSafeInteger (prop inventory "availableCount");
  observedAtMs ← nonNegativeSafeInteger (prop inventory "observedAtMs");
  match prop inventory "credits" with
  | JArr items =>
      if negb (observedAtMs <=? nowMs) || negb (nowMs - observedAtMs <=? CODEX_BANKED_RESET_INVENTORY_MAX_AGE_MS) then None else
      credits ← mapM valid_credit items;
      if bool_decide (NoDup (ic_id <$> credits)) && (Z.of_nat (length (List.filter available credits)) =? availableCount)
      then Some (mkInventory availableCount credits) else None
  | _ => None
  end.

Inductive InventoryCreditSelection := CreditSelected (credit : ResetInventoryCredit) | InventoryEmpty | NoEligibleCredit.

Definition eligible (provider : CodexUsageResetProvider) (nowMs : Z) (credit : ResetInventoryCredit) : bool :=
  available credit && bool_decide (ic_resetType credit = "codex_rate_limits") && providerSupportsResetType provider (ic_resetType credit)
  && match ic_expiresAtMs credit with None => true | Some t => nowMs <? t end.

(** [localeCompare] is that of the runtime's locale; the sort is stable. *)
Definition credit_before (localeCompare : string -> string -> Z) (left right : ResetInventoryCredit) : bool :=
  match ic_expiresAtMs left, ic_expiresAtMs right with
  | Some l, Some r => if l =? r then localeCompare (ic_id left) (ic_id right) <=? 0 else l <? r
  | Some _, None => true
  | None, Some _ => false
  | None, None => localeCompare (ic_id left) (ic_id right) <=? 0
  end.

Fixpoint insert_credit (localeCompare : string -> string -> Z) (c : ResetInventoryCredit) (l : list ResetInventoryCredit) :
    list ResetInventoryCredit :=
  match l with
  | [] => [c]
  | d :: r => if credit_before localeCompare c d then c :: l else d :: insert_credit localeCompare c r
  end.

Definition sort_credits (localeCompare : string -> string -> Z) (l : list ResetInventoryCredit) : list ResetInventoryCredit :=
  foldr (insert_credit localeCompare) [] l.

Definition selectInventoryCredit (localeCompare : string -> string -> Z) (inventory : ResetInventory) (provider : CodexUsageResetProvider)
    (nowMs : Z) : InventoryCreditSelection :=
  if in_availableCount inventory =? 0 then InventoryEmpty else
  match sort_credits localeCompare (List.filter (eligible provider nowMs) (in_credits inventory)) with
  | [] => NoEligibleCredit
  | best :: _ => CreditSelected best
  end.

Definition isUsableSelectedCredit (credit : ResetInventoryCredit) (provider : CodexUsageResetProvider) (nowMs : Z) : bool :=
  nonEmptyText 512 (ic_id credit) && available credit && bool_decide (ic_resetType credit = "codex_rate_limits")
  && providerSupportsResetType provider (ic_resetType credit)
  && match ic_expiresAtMs credit with None => true | Some t => isSafeMs t && (nowMs <? t) end.

Inductive RedeemResetResult :=
| RedeemCompleted (providerReceiptId : jsval)
| RedeemAccepted (providerReceiptId : jsval)
| RedeemAlready (providerReceiptId : jsval)
| RedeemRejected
| RedeemUnknown (providerReceiptId : jsval).

Definition validRedeemResult (value : jsval) : option RedeemResetResult :=
  if negb (isRecord value) then None else
  let receipt := prop value "providerReceiptId" in
  match prop value "kind" with
  | JStr kind =>
      if bool_decide (kind = "completed") then (if is_none (receiptId receipt) then None else Some (RedeemCompleted receipt))
      else if bool_decide (kind = "accepted") then (if is_none (receiptId receipt) then None else Some (RedeemAccepted receipt))
      else if bool_decide (kind = "already_redeemed") then (if is_none (receiptId receipt) then None else Some (RedeemAlready receipt))
      else if bool_decide (kind = "rejected") then match prop value "reason" with JStr _ => Some RedeemRejected | _ => None end
      else if bool_decide (kind = "unknown")
      then (if is_null receipt || negb (is_none (receiptId receipt)) then Some (RedeemUnknown receipt) else None)
      else None
  | _ => None
  end.

(** ** Outcomes *)

Inductive OutcomeKind := OVerified | OPending | ORejected | OSkipped.

Record CodexBankedResetOutcome := mkOutcome {
  oc_kind : OutcomeKind;
  oc_reason : string;
  oc_context : option ResetContext;
  oc_record : option CodexResetRedemptionRecord }.

Inductive ClaimResult :=
| ClaimSubmit (record : CodexResetRedemptionRecord)
| ClaimReconcile (record : CodexResetRedemptionRecord)
| ClaimVerified (record : CodexResetRedemptionRecord)
| ClaimRejected (record : CodexResetRedemptionRecord)
| ClaimInProgress (record : CodexResetRedemptionRecord)
| ClaimNoTransaction
| ClaimAccountDayLimit
| ClaimFailure (code : string).

Definition existingRecordDisposition (record : CodexResetRedemptionRecord) (context : ResetContext) (candidate : CodexBankedResetCandidate)
    (nowMs : Z) (allowNewSubmission : bool) : option ClaimResult :=
  if negb (matchesContext record context) then Some (ClaimFailure "redemption_record_context_mismatch")
  else if bool_decide (rr_state record = RVerified) then Some (ClaimVerified record)
  else if bool_decide (rr_state record = RRejected) then Some (ClaimRejected record)
  else if nowMs <? rr_lease_expires_at_ms record then Some (ClaimInProgress record)
  else if bool_decide (rr_state record = RClaimed) && negb allowNewSubmission then Some (ClaimInProgress record)
  else if bool_decide (rr_state record = RClaimed) && negb (quotaWindowIsOpen candidate nowMs) then Some (ClaimFailure "quota_window_expired")
  else None.

Definition settledRecordDisposition (context : ResetContext) (candidate : CodexBankedResetCandidate)
    (existing : option CodexResetRedemptionRecord) : option CodexBankedResetOutcome :=
  existing ← existing;
  match rr_state existing with
  | RVerified =>
      if negb (rr_routing_generation existing =? cd_routingGeneration candidate)
      then Some (mkOutcome OSkipped "verified_routing_generation_stale" (Some context) (Some existing))
      else Some (mkOutcome OVerified "previously_verified" (Some context) (Some existing))
  | RRejected =>
      Some (mkOutcome ORejected (default "previously_rejected" (rr_last_error_code existing)) (Some context) (Some existing))
  | _ => None
  end.

Definition renewedLeaseRecord (current : CodexResetRedemptionRecord) (nowMs : Z) : CodexResetRedemptionRecord + string :=
  match leaseUntil nowMs, nextFence (rr_fence current) with
  | None, _ => inr "invalid_clock"
  | _, None => inr "owner_fence_exhausted"
  | Some expiresAtMs, Some renewedFence =>
      inl (current <| rr_fence := renewedFence |> <| rr_lease_expires_at_ms := expiresAtMs |> <| rr_updated_at_ms := nowMs |>)
  end.
