(* ===== verification/BankedResetStore.v ===== *)
(** * Banked resets over the key-value store

    The claim, submission, redemption and reconciliation of a banked reset:
    [src/codex/banked-reset-claim.ts], [banked-reset-submission.ts], the usage
    gate of [banked-reset.ts] and [reset-settings.ts].  Other clients act at
    every [await], a storage call may throw, and a commit that throws may have
    been applied.  The world keeps a history variable beside the store: what the
    call read, committed and asked the provider for, in order.  No code reads it;
    the theorems speak of it. *)

From Stdlib Require Import ZArith Lia.
From stdpp Require Import base gmap strings list pretty.
From S2P Require Import Prelude Js KvStore KernelStore BankedReset.
Open Scope string_scope.
Open Scope Z_scope.
Open Scope kv_scope.

(** ** The world *)

Record RedeemResetInput := mkRedeemInput {
  ri_accountId : string;
  ri_accountIdHash : string;
  ri_quotaGeneration : string;
  ri_idempotencyKey : string;
  ri_creditId : string }.

(** What a call does and sees: the value of a row it reads; the entries before
    and after a commit; a reading of the clock and of the configuration; the
    answer of a provider to the question for its inventory, asked for the account
    of a slot of a cohort or by an attempt of its own ([None]); and the request
    that asks a provider to redeem. *)
Inductive Event :=
| ERead (key : KvKey) (value : jsval)
| ECommit (before after : KvMapOf jsval)
| EClock (now : option Z)
| EConfig (config : option CodexBankedResetConfig)
| EInventory (slot : option Z) (answer : option jsval)
| ERedeem (input : RedeemResetInput).

(** The store, and what happened, the oldest first. *)
Record World (S : Type) := mkWorld { w_store : S; w_trace : list Event }.
Arguments mkWorld {S} _ _.
Arguments w_store {S} _.
Arguments w_trace {S} _.

Definition happens {S} (e : Event) (w : World S) : World S := mkWorld (w_store w) (w_trace w ++ [e])%list.

(** The redemptions the provider was asked for. *)
Definition redeem_of (e : Event) : option RedeemResetInput := match e with ERedeem input => Some input | _ => None end.
Definition w_redeemed {S} (w : World S) : list RedeemResetInput := omap redeem_of (w_trace w).

#[export] Program Instance world_kv {S} `{Kv : !KvStoreOf jsval S} : KvStoreOf jsval (World S) := {
  kv_map w := kv_map (w_store w);
  kv_version w := kv_version (w_store w);
  kv_log w := kv_log (w_store w);
  kv_get w k := kv_get (w_store w) k;
  kv_list w p := kv_list (w_store w) p;
  kv_commit cs ms w :=
    let '(ok, s) := kv_commit cs ms (w_store w) in
    if ok : bool then (true, mkWorld s (w_trace w ++ [ECommit (kv_map (w_store w)) (kv_map s)])%list) else (false, w) }.
Next Obligation. intros S Kv w k v n H. by apply (kv_version_bound (w_store w) k v n). Qed.
Next Obligation. intros. apply kv_get_spec. Qed.
Next Obligation. intros. apply kv_list_spec. Qed.
Next Obligation.
  intros S Kv cs ms [s l] w' H. cbn in *. destruct (kv_commit cs ms s) as [[] s1] eqn:E; [|done]. injection H as <-. by apply kv_commit_ok.
Qed.
Next Obligation.
  intros S Kv cs ms [s l] w' H. cbn in *. destruct (kv_commit cs ms s) as [[] s1] eqn:E; [|done]. injection H as <-. by eapply kv_commit_logged.
Qed.
Next Obligation.
  intros S Kv cs ms [s l] w' H. cbn in *. destruct (kv_commit cs ms s) as [[] s1] eqn:E; [done|]. by injection H as <-.
Qed.
Next Obligation.
  intros S Kv cs ms [s l] H. cbn in *. pose proof (kv_commit_holds cs ms s H). by destruct (kv_commit cs ms s) as [[] ?].
Qed.

(** What happens to a storage call: it throws before or after it took effect. *)
Inductive Fault := Healthy | FailsBefore | FailsAfter.

(** ** Keys of the settings *)

Definition codexResetUsageKey (accountIdHash : string) : KvKey :=
  [KStr "uos_ai"; KStr "codex_reset_usage"; KStr "account"; KStr "v1"; KStr accountIdHash].
Definition CODEX_BANKED_RESET_USAGE_LEGACY_KEY : KvKey := [KStr "uos_ai"; KStr "codex_banked_reset_usage"; KStr "v1"].
Definition CODEX_RESET_USAGE_MIGRATION_KEY : KvKey := [KStr "uos_ai"; KStr "migrations"; KStr "codex_reset_usage_legacy_global_v1"].
Definition CODEX_AUTH_POOL_KV_KEY : KvKey := [KStr "ubq_ai"; KStr "codex_auth"].

Definition isLegacyOptOut (v : jsval) : bool := match v with JNull => false | JBool b => negb b | _ => true end.

Definition enabled_row (enabled : bool) : jsval := JObj [("enabled", JBool enabled)].

Notation Entry := (KvEntryOf jsval).

Section banked.
Context {S : Type} `{Kv : !KvStoreOf jsval S}.
Local Notation W := (World S).
Local Notation M := (KvM (World S)).

(** The environment: the other clients; the faults of the store; the injected
    clock ([None]: it throws) and [Date.now]; the client's signal; the live
    configuration ([None]: reading it throws); the tokens ([None]: their source
    throws); whether the store can be opened; the parser of the auth pool, which
    gives the ids of its accounts; the hashes; the locale; and the provider. *)
Context (others : Clients (World S)) (faults : nat -> Fault) (clock : nat -> option number) (dateNow : nat -> Z) (aborted : nat -> bool)
  (liveConfig : nat -> option CodexBankedResetConfig) (newOwnerToken : nat -> option string) (kvOpens : nat -> bool)
  (parseCodexAuthPool : jsval -> Result string (option (list string))) (sha256Hex : string -> string)
  (hash : string -> option string) (localeCompare : string -> string -> Z) (provider : CodexUsageResetProvider).

(** A reading of the environment, and a call that is awaited. *)
Definition observe {A} (f : nat -> A) : M A := fun '(n, w) => (Ok (f n), (Datatypes.S n, w)).
Definition await_call {A} (f : nat -> A) : M A := fun '(n, w) => (Ok (f n), (Datatypes.S n, others n w)).

(** [None]: the call threw. *)
Definition try_get (k : KvKey) : M (option Entry) := fun '(n, w) =>
  match faults n with
  | Healthy =>
      let '(r, (n, w)) := get others k (n, w) in
      match r with
      | Ok e => (Ok (Some e), (n, happens (ERead k (entry_value e)) w))
      | Err e => (Err e, (n, w))
      end
  | _ => (Ok None, (Datatypes.S n, others n w))
  end.

Definition try_commit (cs : list Entry) (ms : list (KvMutationOf jsval)) : M (option bool) := fun '(n, w) =>
  match faults n with
  | Healthy => let '(r, w) := commit others cs ms (n, w) in (match r with Ok ok => Ok (Some ok) | Err e => Err e end, w)
  | FailsBefore => (Ok None, (Datatypes.S n, others n w))
  | FailsAfter => let '(_, w) := commit others cs ms (n, w) in (Ok None, w)
  end.

Definition read_clock : M (option Z) := fun '(n, w) =>
  let now := readClock (clock n) in (Ok now, (Datatypes.S n, happens (EClock now) w)).

Definition read_config : M (option CodexBankedResetConfig) := fun '(n, w) =>
  (Ok (liveConfig n), (Datatypes.S n, happens (EConfig (liveConfig n)) w)).

(** [provider.readInventory], called and awaited. *)
Definition read_inventory (slot : option Z) (provider : CodexUsageResetProvider) : M (option jsval) := fun '(n, w) =>
  let answer := pv_readInventory provider n in (Ok answer, (Datatypes.S n, happens (EInventory slot answer) (others n w))).

(** [provider.redeem], called and awaited. *)
Definition call_redeem (input : RedeemResetInput) : M (option jsval) := fun '(n, w) =>
  (Ok (pv_redeem provider n), (Datatypes.S n, others n (happens (ERedeem input) w))).

(** ** Settings *)

Definition get_or_throw (k : KvKey) : M Entry :=
  let! e := try_get k in match e with Some e => kv_ret e | None => kv_throw "kv_unavailable" end.
Definition commit_or_throw (cs : list Entry) (ms : list (KvMutationOf jsval)) : M bool :=
  let! ok := try_commit cs ms in match ok with Some ok => kv_ret ok | None => kv_throw "kv_unavailable" end.

(** The rows to seed for the accounts, with their checks. *)
Fixpoint seed_rows (accountIdHashes : list string) : M (list Entry * list (KvMutationOf jsval)) :=
  match accountIdHashes with
  | [] => kv_ret ([], [])
  | accountIdHash :: rest =>
      let! entry := get_or_throw (codexResetUsageKey accountIdHash) in
      let! '(cs, ms) := seed_rows rest in
      kv_ret (if is_null (entry_value entry)
              then (entry :: cs, MSet (codexResetUsageKey accountIdHash) (enabled_row false) None :: ms) else (cs, ms))
  end.

(** Whether the migration is done. *)
Definition migrateLegacyCodexResetOptOut : M bool :=
  let! marker := get_or_throw CODEX_RESET_USAGE_MIGRATION_KEY in
  if negb (is_null (entry_value marker)) then kv_ret true else
  let! legacy := get_or_throw CODEX_BANKED_RESET_USAGE_LEGACY_KEY in
  let! poolEntry := get_or_throw CODEX_AUTH_POOL_KV_KEY in
  let! pool := kv_lift (parseCodexAuthPool (entry_value poolEntry)) in
  match pool with
  | None => kv_ret false
  | Some accountIds =>
      let preservedOptOut := isLegacyOptOut (entry_value legacy) in
      let! '(cs, ms) := seed_rows (if preservedOptOut then sha256Hex <$> accountIds else []) in
      let! now := observe dateNow in
      commit_or_throw ([poolEntry; legacy; marker] ++ cs)%list
        (ms ++ [MSet CODEX_RESET_USAGE_MIGRATION_KEY
                  (JObj [("completed_at_ms", jint now); ("preserved_opt_out", JBool preservedOptOut)]) None])%list
  end.

Definition ensureLegacyGlobalOptOutMigratedForAccount (accountIdHash : string) : M unit :=
  let! marker := get_or_throw CODEX_RESET_USAGE_MIGRATION_KEY in
  let! legacy := get_or_throw CODEX_BANKED_RESET_USAGE_LEGACY_KEY in
  if negb (is_null (entry_value marker)) || negb (isLegacyOptOut (entry_value legacy)) then kv_ret tt else
  let key := codexResetUsageKey accountIdHash in
  let! _ := commit_or_throw [marker; mkEntry key JNull None] [MSet key (enabled_row false) None] in
  kv_ret tt.

Definition readCodexResetUsage (accountIdHash : string) : M (bool * list Entry) :=
  let! done := migrateLegacyCodexResetOptOut in
  let! _ := if done then kv_ret tt else ensureLegacyGlobalOptOutMigratedForAccount accountIdHash in
  let! entry := get_or_throw (codexResetUsageKey accountIdHash) in
  let value := entry_value entry in
  kv_ret (is_null value || (isRecord value && is_true (prop value "enabled")), [entry]).

Definition readUsageGate (accountIdHash : string) (authorization : option string) : M (list Entry + string) :=
  if bool_decide (authorization = Some accountIdHash) then kv_ret (inl []) else
  let! usage := kv_catch (let! u := readCodexResetUsage accountIdHash in kv_ret (Some u)) (fun _ => kv_ret None) in
  match usage with
  | None => kv_ret (inr "configuration_unavailable")
  | Some (allowed, entries) => kv_ret (if allowed then inl entries else inr "usage_disabled")
  end.

(** ** Fences *)

Inductive FenceRead := FencesValid (entries : list Entry) | FencesStale | FencesFailure (code : string).

Fixpoint read_fences (fences : list CodexBankedResetFence) : M FenceRead :=
  match fences with
  | [] => kv_ret (FencesValid [])
  | fence :: fences =>
      let! entry := try_get (fc_key fence) in
      match entry with
      | None => kv_ret (FencesFailure "kv_unavailable")
      | Some entry =>
          match fc_isCurrent fence (entry_value entry) with
          | Some true =>
              let! more := read_fences fences in
              kv_ret (match more with FencesValid entries => FencesValid (entry :: entries) | _ => more end)
          | _ => kv_ret FencesStale
          end
      end
  end.

Definition readCurrentFences (candidate : CodexBankedResetCandidate) : M FenceRead :=
  match cd_fences candidate with [] => kv_ret (FencesFailure "routing_fence_missing") | fences => read_fences fences end.

Definition readRequiredFences (candidate : CodexBankedResetCandidate) : M (list Entry + string) :=
  let! fences := readCurrentFences candidate in
  kv_ret (match fences with
          | FencesFailure code => inr code
          | FencesStale => inr "routing_fence_stale"
          | FencesValid entries => inl entries
          end).

(** ** The claim *)

Definition redemption_key (context : ResetContext) : KvKey :=
  codexResetRedemptionKey (rc_accountIdHash context) (rc_quotaGeneration context).

(** The record of a context, or why it cannot be read. *)
Definition readExistingRecord (context : ResetContext) : M (option CodexResetRedemptionRecord + string) :=
  let! entry := try_get (redemption_key context) in
  kv_ret (match entry with
          | None => inr "kv_unavailable"
          | Some entry =>
              if is_null (entry_value entry) then inl None else
              match parseCodexResetRedemptionRecord (entry_value entry) with
              | Some record => inl (Some record)
              | None => inr "redemption_record_invalid"
              end
          end).

Definition created_record (context : ResetContext) (candidate : CodexBankedResetCandidate) (nowMs : Z) (ownerToken : string)
    (expiresAtMs : Z) : CodexResetRedemptionRecord :=
  {| rr_account_id_hash := rc_accountIdHash context;
     rr_credential_version := rc_credentialVersion context;
     rr_quota_generation := rc_quotaGeneration context;
     rr_routing_generation := cd_routingGeneration candidate;
     rr_idempotency_key_hash := rc_idempotencyKeyHash context;
     rr_state := RClaimed;
     rr_owner_token := ownerToken;
     rr_fence := 1;
     rr_lease_expires_at_ms := expiresAtMs;
     rr_provider_receipt_id := None;
     rr_created_at_ms := nowMs;
     rr_updated_at_ms := nowMs;
     rr_submitted_at_ms := None;
     rr_verified_at_ms := None;
     rr_last_error_code := None |}.

(** [None]: the commit lost a race, and the caller tries again. *)
Definition createClaimRecord (context : ResetContext) (candidate : CodexBankedResetCandidate) (nowMs : Z) (ownerToken : string)
    (allowNewSubmission : bool) (expiresAtMs : Z) (entry : Entry) : M (option ClaimResult) :=
  if negb allowNewSubmission then kv_ret (Some ClaimNoTransaction) else
  if negb (quotaWindowIsOpen candidate nowMs) then kv_ret (Some (ClaimFailure "quota_window_expired")) else
  let! fences := readRequiredFences candidate in
  match fences with
  | inr code => kv_ret (Some (ClaimFailure code))
  | inl fenceEntries =>
      let created := created_record context candidate nowMs ownerToken expiresAtMs in
      let! nowBeforeClaim := read_clock in
      match nowBeforeClaim with
      | None => kv_ret (Some (ClaimFailure "invalid_clock"))
      | Some nowBeforeClaim =>
          if negb (quotaWindowIsOpen candidate nowBeforeClaim) then kv_ret (Some (ClaimFailure "quota_window_expired")) else
          let! committed := try_commit (entry :: fenceEntries) [MSet (redemption_key context) (json_redemption created) None] in
          kv_ret (match committed with
                  | None => Some (ClaimFailure "kv_unavailable")
                  | Some true => Some (ClaimSubmit created)
                  | Some false => None
                  end)
      end
  end.

Definition takeOverFences (candidate : CodexBankedResetCandidate) (record : CodexResetRedemptionRecord) : M (list Entry + string) :=
  if negb (bool_decide (rr_state record = RClaimed)) then kv_ret (inl []) else
  if negb (rr_routing_generation record =? cd_routingGeneration candidate) then kv_ret (inr "routing_fence_stale") else
  readRequiredFences candidate.

Definition commitTakeOver (context : ResetContext) (candidate : CodexBankedResetCandidate) (record : CodexResetRedemptionRecord)
    (nowMs : Z) (ownerToken : string) (expiresAtMs : Z) (fenceEntries : list Entry) (entry : Entry) : M (option ClaimResult) :=
  let! nowBeforeTakeover := read_clock in
  match nowBeforeTakeover with
  | None => kv_ret (Some (ClaimFailure "invalid_clock"))
  | Some nowBeforeTakeover =>
      if bool_decide (rr_state record = RClaimed) && negb (quotaWindowIsOpen candidate nowBeforeTakeover)
      then kv_ret (Some (ClaimFailure "quota_window_expired")) else
      match nextFence (rr_fence record) with
      | None => kv_ret (Some (ClaimFailure "owner_fence_exhausted"))
      | Some renewedFence =>
          let takenOver := record <| rr_owner_token := ownerToken |> <| rr_fence := renewedFence |>
                             <| rr_lease_expires_at_ms := expiresAtMs |> <| rr_updated_at_ms := nowMs |> in
          let! committed := try_commit (entry :: fenceEntries) [MSet (redemption_key context) (json_redemption takenOver) None] in
          kv_ret (match committed with
                  | None => Some (ClaimFailure "kv_unavailable")
                  | Some false => None
                  | Some true => Some (if bool_decide (rr_state record = RClaimed) then ClaimSubmit takenOver else ClaimReconcile takenOver)
                  end)
      end
  end.

Definition claimAttempt (context : ResetContext) (candidate : CodexBankedResetCandidate) (nowMs : Z) (ownerToken : string)
    (allowNewSubmission : bool) (expiresAtMs : Z) : M (option ClaimResult) :=
  let! entry := try_get (redemption_key context) in
  match entry with
  | None => kv_ret (Some (ClaimFailure "kv_unavailable"))
  | Some entry =>
      if is_null (entry_value entry)
      then createClaimRecord context candidate nowMs ownerToken allowNewSubmission expiresAtMs entry
      else match parseCodexResetRedemptionRecord (entry_value entry) with
           | None => kv_ret (Some (ClaimFailure "redemption_record_invalid"))
           | Some record =>
               match existingRecordDisposition record context candidate nowMs allowNewSubmission with
               | Some disposition => kv_ret (Some disposition)
               | None =>
                   let! fences := takeOverFences candidate record in
                   match fences with
                   | inr code => kv_ret (Some (ClaimFailure code))
                   | inl fenceEntries => commitTakeOver context candidate record nowMs ownerToken expiresAtMs fenceEntries entry
                   end
               end
           end
  end.

(** At most [tries] compare-and-set attempts. *)
Fixpoint cas_loop {A} (tries : nat) (attempt : M (option A)) (exhausted : A) : M A :=
  match tries with
  | O => kv_ret exhausted
  | Datatypes.S tries => let! r := attempt in match r with Some a => kv_ret a | None => cas_loop tries attempt exhausted end
  end.

Definition claimTransaction (context : ResetContext) (candidate : CodexBankedResetCandidate) (nowMs : Z) (ownerToken : string)
    (allowNewSubmission : bool) : M ClaimResult :=
  match leaseUntil nowMs with
  | None => kv_ret (ClaimFailure "invalid_clock")
  | Some expiresAtMs =>
      cas_loop MAX_CAS_ATTEMPTS (claimAttempt context candidate nowMs ownerToken allowNewSubmission expiresAtMs)
        (ClaimFailure "kv_cas_exhausted")
  end.

(** ** Updates by the owner *)

Definition update_attempt (context : ResetContext) (expected : CodexResetRedemptionRecord)
    (mutate : CodexResetRedemptionRecord -> CodexResetRedemptionRecord) : M (option (option CodexResetRedemptionRecord)) :=
  let! entry := try_get (redemption_key context) in
  match entry with
  | None => kv_ret (Some None)
  | Some entry =>
      match parseCodexResetRedemptionRecord (entry_value entry) with
      | None => kv_ret (Some None)
      | Some current =>
          if negb (ownedBy current context expected) then kv_ret (Some None) else
          let next := mutate current in
          let! committed := try_commit [entry] [MSet (redemption_key context) (json_redemption next) None] in
          kv_ret (match committed with None => Some None | Some true => Some (Some next) | Some false => None end)
      end
  end.

Definition updateOwnedRecord (context : ResetContext) (expected : CodexResetRedemptionRecord)
    (mutate : CodexResetRedemptionRecord -> CodexResetRedemptionRecord) : M (option CodexResetRedemptionRecord) :=
  cas_loop MAX_CAS_ATTEMPTS (update_attempt context expected mutate) None.

Definition rejectOwned (context : ResetContext) (record : CodexResetRedemptionRecord) (nowMs : Z) (code : string) :
    M (option CodexResetRedemptionRecord) :=
  updateOwnedRecord context record (fun current => stateWith (current <| rr_last_error_code := Some code |>) RRejected nowMs).

Definition unknownOwned (context : ResetContext) (record : CodexResetRedemptionRecord) (nowMs : Z) (code : string)
    (providerReceiptId : option string) : M (option CodexResetRedemptionRecord) :=
  updateOwnedRecord context record (fun current =>
    stateWith (current <| rr_provider_receipt_id := match providerReceiptId with Some r => Some r | None => rr_provider_receipt_id current end |>
                       <| rr_last_error_code := Some code |>) RUnknown nowMs).

Definition preserveReceipt (context : ResetContext) (record : CodexResetRedemptionRecord) (nowMs : Z)
    (providerReceiptId : option string) : M (option CodexResetRedemptionRecord) :=
  updateOwnedRecord context record (fun current =>
    stateWith (current <| rr_provider_receipt_id := providerReceiptId |>
                       <| rr_submitted_at_ms := Some (default nowMs (rr_submitted_at_ms current)) |>
                       <| rr_last_error_code := None |>) RSubmitted nowMs).

Definition verifiedOwned (context : ResetContext) (record : CodexResetRedemptionRecord) (nowMs : Z) : M (option CodexResetRedemptionRecord) :=
  updateOwnedRecord context record (fun current =>
    stateWith (current <| rr_verified_at_ms := Some nowMs |> <| rr_last_error_code := None |>) RVerified nowMs).

(** ** The submission *)

Definition readDailySubmissionBudget (dailyKey : KvKey) (day : string) (maxPerAccountPerDay : Z) : M ((Entry * Z) + string) :=
  let! dailyEntry := try_get dailyKey in
  kv_ret (match dailyEntry with
          | None => inr "kv_unavailable"
          | Some dailyEntry =>
              let count := if is_null (entry_value dailyEntry) then Some 0
                           else dr_submission_count <$> parseAccountDayRecord (entry_value dailyEntry) day in
              match count with
              | None => inr "account_day_record_invalid"
              | Some submissionCount =>
                  if maxPerAccountPerDay <=? submissionCount then inr "account_day_limit_reached" else inl (dailyEntry, submissionCount)
              end
          end).

Definition submitted_record (current : CodexResetRedemptionRecord) (nowMs expiresAtMs : Z) : CodexResetRedemptionRecord :=
  stateWith (current <| rr_submitted_at_ms := Some nowMs |> <| rr_last_error_code := None |>) RSubmitted nowMs
    <| rr_lease_expires_at_ms := expiresAtMs |>.

(** The commit of a submission, after its reads. *)
Definition commit_submission (context : ResetContext) (candidate : CodexBankedResetCandidate) (current : CodexResetRedemptionRecord)
    (entry : Entry) (nowMs expiresAtMs : Z) (day : string) (fences usage : list Entry) (dailyEntry : Entry) (submissionCount : Z) :
    M (option (CodexResetRedemptionRecord + string)) :=
  let! nowBeforeCommit := read_clock in
  match nowBeforeCommit with
  | None => kv_ret (Some (inr "invalid_clock"))
  | Some nowBeforeCommit =>
      if negb (quotaWindowIsOpen candidate nowBeforeCommit) then kv_ret (Some (inr "quota_window_expired")) else
      if negb (claimedDuringCurrentUtcDay current nowBeforeCommit) then kv_ret (Some (inr "claim_day_elapsed")) else
      let submitted := submitted_record current nowMs expiresAtMs in
      let! committed := try_commit (entry :: dailyEntry :: (fences ++ usage)%list)
        [MSet (redemption_key context) (json_redemption submitted) None;
         MSet (codexResetAccountDailyKey (rc_accountIdHash context) day) (json_daily (mkDaily day (submissionCount + 1) nowMs)) None] in
      kv_ret (match committed with
              | None => Some (inr "kv_unavailable")
              | Some true => Some (inl submitted)
              | Some false => None
              end)
  end.

Definition prepareSubmissionAttempt (context : ResetContext) (candidate : CodexBankedResetCandidate) (expected : CodexResetRedemptionRecord)
    (nowMs maxPerAccountPerDay expiresAtMs : Z) (day : string) : M (option (CodexResetRedemptionRecord + string)) :=
  let! entry := try_get (redemption_key context) in
  match entry with
  | None => kv_ret (Some (inr "kv_unavailable"))
  | Some entry =>
      match isOwnedRecordInState (parseCodexResetRedemptionRecord (entry_value entry)) context expected RClaimed with
      | None => kv_ret (Some (inr "stale_owner"))
      | Some current =>
          if negb (claimedDuringCurrentUtcDay current nowMs) then kv_ret (Some (inr "claim_day_elapsed")) else
          if negb (rr_routing_generation current =? cd_routingGeneration candidate) || (rr_lease_expires_at_ms current <=? nowMs)
          then kv_ret (Some (inr "stale_owner")) else
          let! fences := readRequiredFences candidate in
          match fences with
          | inr code => kv_ret (Some (inr code))
          | inl fences =>
              let! usage := readUsageGate (rc_accountIdHash context) (cd_authorization candidate) in
              match usage with
              | inr code => kv_ret (Some (inr code))
              | inl usage =>
                  let! budget := readDailySubmissionBudget (codexResetAccountDailyKey (rc_accountIdHash context) day) day maxPerAccountPerDay in
                  match budget with
                  | inr code => kv_ret (Some (inr code))
                  | inl (dailyEntry, submissionCount) =>
                      commit_submission context candidate current entry nowMs expiresAtMs day fences usage dailyEntry submissionCount
                  end
              end
          end
      end
  end.

Definition prepareSubmission (context : ResetContext) (candidate : CodexBankedResetCandidate) (expected : CodexResetRedemptionRecord)
    (nowMs maxPerAccountPerDay : Z) : M (CodexResetRedemptionRecord + string) :=
  match leaseUntil nowMs, utcDay nowMs with
  | Some expiresAtMs, Some day =>
      cas_loop MAX_CAS_ATTEMPTS (prepareSubmissionAttempt context candidate expected nowMs maxPerAccountPerDay expiresAtMs day)
        (inr "kv_cas_exhausted")
  | _, _ => kv_ret (inr "invalid_clock")
  end.

(** ** The renewal before the redemption *)

Definition renewalCommitGate (current : CodexResetRedemptionRecord) (candidate : CodexBankedResetCandidate) : M (Z + string) :=
  let! now := read_clock in
  kv_ret (match now with
          | None => inr "invalid_clock"
          | Some nowMs =>
              if negb (quotaWindowIsOpen candidate nowMs) then inr "quota_window_expired"
              else if negb (claimedDuringCurrentUtcDay current nowMs) then inr "claim_day_elapsed"
              else if rr_lease_expires_at_ms current <=? nowMs then inr "stale_owner"
              else inl nowMs
          end).

Definition commit_renewal (context : ResetContext) (candidate : CodexBankedResetCandidate) (current : CodexResetRedemptionRecord)
    (entry : Entry) (fences usage : list Entry) : M (option (CodexResetRedemptionRecord + string)) :=
  let! gate := renewalCommitGate current candidate in
  match gate with
  | inr code => kv_ret (Some (inr code))
  | inl nowMs =>
      match renewedLeaseRecord current nowMs with
      | inr code => kv_ret (Some (inr code))
      | inl renewed =>
          let! committed := try_commit (entry :: (fences ++ usage)%list) [MSet (redemption_key context) (json_redemption renewed) None] in
          kv_ret (match committed with
                  | None => Some (inr "kv_unavailable")
                  | Some true => Some (inl renewed)
                  | Some false => None
                  end)
      end
  end.

Definition renewSubmittedAttempt (context : ResetContext) (candidate : CodexBankedResetCandidate) (expected : CodexResetRedemptionRecord) :
    M (option (CodexResetRedemptionRecord + string)) :=
  let! nowBeforeRead := read_clock in
  match nowBeforeRead with
  | None => kv_ret (Some (inr "invalid_clock"))
  | Some nowBeforeRead =>
      if negb (quotaWindowIsOpen candidate nowBeforeRead) then kv_ret (Some (inr "quota_window_expired")) else
      let! entry := try_get (redemption_key context) in
      match entry with
      | None => kv_ret (Some (inr "kv_unavailable"))
      | Some entry =>
          match isOwnedRecordInState (parseCodexResetRedemptionRecord (entry_value entry)) context expected RSubmitted with
          | None => kv_ret (Some (inr "stale_owner"))
          | Some current =>
              if negb (rr_routing_generation current =? cd_routingGeneration candidate) || (rr_lease_expires_at_ms current <=? nowBeforeRead)
              then kv_ret (Some (inr "stale_owner")) else
              if negb (claimedDuringCurrentUtcDay current nowBeforeRead) then kv_ret (Some (inr "claim_day_elapsed")) else
              let! usage := readUsageGate (rc_accountIdHash context) (cd_authorization candidate) in
              match usage with
              | inr code => kv_ret (Some (inr code))
              | inl usage =>
                  let! fences := readRequiredFences candidate in
                  match fences with
                  | inr code => kv_ret (Some (inr code))
                  | inl fences => commit_renewal context candidate current entry fences usage
                  end
              end
          end
      end
  end.

Definition renewSubmittedForRedeem (context : ResetContext) (candidate : CodexBankedResetCandidate) (expected : CodexResetRedemptionRecord) :
    M (CodexResetRedemptionRecord + string) :=
  cas_loop MAX_CAS_ATTEMPTS (renewSubmittedAttempt context candidate expected) (inr "kv_cas_exhausted").

(** ** Verification *)

Definition outcome (kind : OutcomeKind) (reason : string) (context : ResetContext) (record : CodexResetRedemptionRecord) : CodexBankedResetOutcome :=
  mkOutcome kind reason (Some context) (Some record).
Definition no_record (kind : OutcomeKind) (reason : string) (context : ResetContext) : CodexBankedResetOutcome :=
  mkOutcome kind reason (Some context) None.

(** The record becomes [unknown], and the outcome is pending. *)
Definition unknown_outcome (context : ResetContext) (record : CodexResetRedemptionRecord) (nowMs : Z) (reason : string)
    (providerReceiptId : option string) : M CodexBankedResetOutcome :=
  let! unknown := unknownOwned context record nowMs reason providerReceiptId in
  kv_ret (outcome OPending reason context (default record unknown)).

(** The same at a clock that is read now. *)
Definition unknown_now (context : ResetContext) (record : CodexResetRedemptionRecord) (reason : string) (providerReceiptId : option string) :
    M CodexBankedResetOutcome :=
  let! now := read_clock in
  match now with
  | None => kv_ret (outcome OPending "invalid_clock" context record)
  | Some nowMs => unknown_outcome context record nowMs reason providerReceiptId
  end.

Definition rejected_outcome (context : ResetContext) (record : CodexResetRedemptionRecord) (nowMs : Z) (reason : string) :
    M CodexBankedResetOutcome :=
  let! rejected := rejectOwned context record nowMs reason in
  kv_ret (outcome ORejected reason context (default record rejected)).

Definition verifyOwned (context : ResetContext) (record : CodexResetRedemptionRecord) : M CodexBankedResetOutcome :=
  let! stopped := observe aborted in
  if stopped : bool then kv_ret (outcome OPending "client_aborted_before_verification" context record) else
  let! result := await_call (pv_verifyApplied provider) in
  match result with
  | None => unknown_now context record "verification_unavailable" (rr_provider_receipt_id record)
  | Some result =>
      let! now := read_clock in
      match now with
      | None => kv_ret (outcome OPending "invalid_clock" context record)
      | Some nowMs =>
          if negb (is_true result) then
            let reason := match result with JBool _ => "verification_not_applied" | _ => "verification_response_invalid" end in
            unknown_outcome context record nowMs reason (rr_provider_receipt_id record)
          else
            let! finalized := verifiedOwned context record nowMs in
            kv_ret (match finalized with
                    | None => outcome OPending "verification_cas_failed" context record
                    | Some finalized => outcome OVerified "verified" context finalized
                    end)
      end
  end.

Definition finalizeDocumentedRedeemOutcome (context : ResetContext) (record : CodexResetRedemptionRecord) (nowMs : Z) (redeemOutcome : string) :
    M CodexBankedResetOutcome :=
  let! finalized := verifiedOwned context record nowMs in
  kv_ret (match finalized with
          | None => outcome OPending "redeem_outcome_finalization_cas_failed" context record
          | Some finalized => outcome OVerified ("redeem_outcome_" +:+ redeemOutcome) context finalized
          end).

(** ** Reconciliation *)

Definition reconcileOwned (context : ResetContext) (record : CodexResetRedemptionRecord) : M CodexBankedResetOutcome :=
  let! stopped := observe aborted in
  if stopped : bool then kv_ret (outcome OPending "client_aborted_before_reconciliation" context record) else
  if terminalOutcomeCannotReconcile provider then kv_ret (outcome OPending "terminal_outcome_ambiguous" context record) else
  let! lookedUp := await_call (pv_lookup provider) in
  match lookedUp with
  | None => unknown_now context record "lookup_unavailable" (rr_provider_receipt_id record)
  | Some lookedUp =>
      let! now := read_clock in
      match now with
      | None => kv_ret (outcome OPending "invalid_clock" context record)
      | Some nowMs =>
          match validRedeemResult lookedUp with
          | None => unknown_outcome context record nowMs "lookup_response_invalid" (rr_provider_receipt_id record)
          | Some RedeemRejected | Some (RedeemUnknown _) => verifyOwned context record
          | Some (RedeemCompleted receipt) | Some (RedeemAccepted receipt) | Some (RedeemAlready receipt) =>
              match receiptId receipt with
              | None => unknown_outcome context record nowMs "lookup_response_invalid" (rr_provider_receipt_id record)
              | Some _ =>
                  let! submitted := preserveReceipt context record nowMs (durableReceiptId provider receipt) in
                  match submitted with
                  | None => kv_ret (outcome OPending "lookup_cas_failed" context record)
                  | Some submitted => verifyOwned context submitted
                  end
              end
          end
      end
  end.

(** ** Before the submission *)

Definition rejectIfClaimWindowClosed (context : ResetContext) (record : CodexResetRedemptionRecord) (candidate : CodexBankedResetCandidate)
    (nowMs : Z) : M (option CodexBankedResetOutcome) :=
  if negb (claimedDuringCurrentUtcDay record nowMs) then
    let! rejected := rejected_outcome context record nowMs "claim_day_elapsed" in kv_ret (Some rejected)
  else if negb (quotaWindowIsOpen candidate nowMs) then
    let! rejected := rejected_outcome context record nowMs "quota_window_expired" in kv_ret (Some rejected)
  else kv_ret None.

(** The reason of [liveSubmissionPolicyReason], read now. *)
Definition live_policy (candidate : CodexBankedResetCandidate) : M (CodexBankedResetConfig + string) :=
  let! config := read_config in kv_ret (loadLiveSubmissionConfig config provider (manual candidate)).

Definition submissionPreflight (context : ResetContext) (record : CodexResetRedemptionRecord) (candidate : CodexBankedResetCandidate) :
    M (Z + CodexBankedResetOutcome) :=
  let! policy := live_policy candidate in
  match policy with
  | inr reason => kv_ret (inr (outcome OPending ("new_submission_" +:+ reason) context record))
  | inl _ =>
      let! now := read_clock in
      match now with
      | None => kv_ret (inr (outcome OPending "invalid_clock" context record))
      | Some nowMs =>
          let! closed := rejectIfClaimWindowClosed context record candidate nowMs in
          match closed with
          | Some closed => kv_ret (inr closed)
          | None =>
              let! stopped := observe aborted in
              if stopped : bool then
                let! rejected := rejected_outcome context record nowMs "client_aborted_before_submission" in kv_ret (inr rejected)
              else kv_ret (inl nowMs)
          end
      end
  end.

Definition resolveInventoryCredit (context : ResetContext) (record : CodexResetRedemptionRecord) (candidate : CodexBankedResetCandidate) :
    M ((ResetInventoryCredit * Z) + CodexBankedResetOutcome) :=
  let! inventory := read_inventory None provider in
  let! now := read_clock in
  match now with
  | None => kv_ret (inr (outcome OPending "invalid_clock" context record))
  | Some nowMs =>
      match inventory with
      | None => let! rejected := rejected_outcome context record nowMs "inventory_unavailable" in kv_ret (inr rejected)
      | Some inventory =>
          let! closed := rejectIfClaimWindowClosed context record candidate nowMs in
          match closed with
          | Some closed => kv_ret (inr closed)
          | None =>
              match validInventory inventory nowMs with
              | None =>
                  let! rejected := rejected_outcome context record nowMs "inventory_response_invalid_or_unsupported" in kv_ret (inr rejected)
              | Some inventory =>
                  match selectInventoryCredit localeCompare inventory provider nowMs with
                  | CreditSelected credit => kv_ret (inl (credit, nowMs))
                  | InventoryEmpty => let! rejected := rejected_outcome context record nowMs "inventory_empty" in kv_ret (inr rejected)
                  | NoEligibleCredit =>
                      let! rejected := rejected_outcome context record nowMs "inventory_no_eligible_codex_credit" in kv_ret (inr rejected)
                  end
              end
          end
      end
  end.

Definition resolveSelectedCredit (context : ResetContext) (record : CodexResetRedemptionRecord) (candidate : CodexBankedResetCandidate)
    (nowBeforeInventory : Z) : M ((ResetInventoryCredit * Z) + CodexBankedResetOutcome) :=
  let! resolved := match cd_selectedCredit candidate with
    | Some credit => kv_ret (inl (credit, nowBeforeInventory))
    | None => resolveInventoryCredit context record candidate
    end in
  match resolved with
  | inr outcome => kv_ret (inr outcome)
  | inl (credit, nowMs) =>
      if negb (isUsableSelectedCredit credit provider nowMs) then
        let! rejected := rejected_outcome context record nowMs "selected_credit_invalid_or_expired" in kv_ret (inr rejected)
      else
        let! closed := rejectIfClaimWindowClosed context record candidate nowMs in
        kv_ret (match closed with Some closed => inr closed | None => inl (credit, nowMs) end)
  end.

Definition prepareLiveSubmission (context : ResetContext) (record : CodexResetRedemptionRecord) (candidate : CodexBankedResetCandidate)
    (nowAfterInventory : Z) : M (CodexResetRedemptionRecord + CodexBankedResetOutcome) :=
  let! policy := live_policy candidate in
  match policy with
  | inr reason => kv_ret (inr (outcome OPending ("new_submission_" +:+ reason) context record))
  | inl config =>
      let! stopped := observe aborted in
      if stopped : bool then
        let! rejected := rejected_outcome context record nowAfterInventory "client_aborted_before_submission" in kv_ret (inr rejected)
      else
        let! now := read_clock in
        match now with
        | None => kv_ret (inr (outcome OPending "invalid_clock" context record))
        | Some nowMs =>
            let! closed := rejectIfClaimWindowClosed context record candidate nowMs in
            match closed with
            | Some closed => kv_ret (inr closed)
            | None =>
                let! prepared := prepareSubmission context candidate record nowMs (bc_maxPerAccountPerDay config) in
                kv_ret (match prepared with
                        | inr code => inr (outcome (if bool_decide (code = "account_day_limit_reached") then OSkipped else OPending)
                                             code context record)
                        | inl prepared => inl prepared
                        end)
            end
        end
  end.

(** ** The redemption *)

(** [None]: nothing stands against the call. *)
Definition redeemGate (candidate : CodexBankedResetCandidate) (record : CodexResetRedemptionRecord) (context : ResetContext) :
    M (option CodexBankedResetOutcome) :=
  let! now := read_clock in
  kv_ret (match now with
          | None => Some (outcome OPending "invalid_clock" context record)
          | Some nowMs =>
              if negb (claimedDuringCurrentUtcDay record nowMs) then Some (outcome OPending "claim_day_elapsed" context record)
              else if negb (quotaWindowIsOpen candidate nowMs) then Some (outcome OPending "quota_window_expired" context record)
              else if rr_lease_expires_at_ms record <=? nowMs then Some (outcome OPending "stale_owner" context record)
              else None
          end).

Definition persistReceiptAndVerify (context : ResetContext) (record : CodexResetRedemptionRecord) (nowMs : Z) (receipt : jsval) :
    M CodexBankedResetOutcome :=
  let! persisted := preserveReceipt context record nowMs (durableReceiptId provider receipt) in
  match persisted with
  | None => kv_ret (outcome OPending "receipt_cas_failed" context record)
  | Some persisted => verifyOwned context persisted
  end.

(** A result that is not final by the contract. *)
Definition settle_receipt (context : ResetContext) (record : CodexResetRedemptionRecord) (nowMs : Z) (receipt : jsval) : M CodexBankedResetOutcome :=
  match receiptId receipt with
  | None => unknown_outcome context record nowMs "submit_response_invalid" None
  | Some _ => persistReceiptAndVerify context record nowMs receipt
  end.

(** The call and its outcome; [finalizeTerminalRedeemResult] is written out in
    the cases of a completed and of an earlier redemption. *)
Definition redeemSubmittedOwned (context : ResetContext) (record : CodexResetRedemptionRecord) (credit : ResetInventoryCredit) :
    M CodexBankedResetOutcome :=
  let! result := call_redeem (mkRedeemInput (rc_accountId context) (rc_accountIdHash context) (rc_quotaGeneration context)
                                (rc_idempotencyKey context) (ic_id credit)) in
  match result with
  | None => unknown_now context record "submit_transport_unknown" None
  | Some result =>
      let! now := read_clock in
      match now with
      | None => kv_ret (outcome OPending "invalid_clock" context record)
      | Some nowMs =>
          match validRedeemResult result with
          | None => unknown_outcome context record nowMs "submit_response_invalid" None
          | Some RedeemRejected => rejected_outcome context record nowMs "provider_rejected"
          | Some (RedeemUnknown receipt) =>
              unknown_outcome context record nowMs "provider_commit_unknown" (durableReceiptId provider receipt)
          | Some (RedeemCompleted receipt) =>
              if providerTreatsRedeemOutcomeAsFinal provider then finalizeDocumentedRedeemOutcome context record nowMs "reset"
              else settle_receipt context record nowMs receipt
          | Some (RedeemAlready receipt) =>
              if providerTreatsRedeemOutcomeAsFinal provider then finalizeDocumentedRedeemOutcome context record nowMs "already_redeemed"
              else settle_receipt context record nowMs receipt
          | Some (RedeemAccepted receipt) => settle_receipt context record nowMs receipt
          end
      end
  end.

Definition renewAndRedeem (context : ResetContext) (candidate : CodexBankedResetCandidate) (credit : ResetInventoryCredit)
    (preparedRecord : CodexResetRedemptionRecord) : M CodexBankedResetOutcome :=
  let! before := live_policy candidate in
  match before with
  | inr reason => kv_ret (outcome OPending ("new_submission_" +:+ reason) context preparedRecord)
  | inl _ =>
      let! stopped := observe aborted in
      if stopped : bool then unknown_now context preparedRecord "client_aborted_after_submission" None else
      let! renewed := renewSubmittedForRedeem context candidate preparedRecord in
      match renewed with
      | inr code => kv_ret (outcome OPending code context preparedRecord)
      | inl renewed =>
          let! after := live_policy candidate in
          match after with
          | inr reason => kv_ret (outcome OPending ("new_submission_" +:+ reason) context renewed)
          | inl _ =>
              let! stopped := observe aborted in
              if stopped : bool then unknown_now context renewed "client_aborted_after_submission" None else
              let! gate := redeemGate candidate renewed context in
              match gate with
              | Some gate => kv_ret gate
              | None => redeemSubmittedOwned context renewed credit
              end
          end
      end
  end.

Definition submitClaimed (context : ResetContext) (record : CodexResetRedemptionRecord) (candidate : CodexBankedResetCandidate) :
    M CodexBankedResetOutcome :=
  let! preflight := submissionPreflight context record candidate in
  match preflight with
  | inr outcome => kv_ret outcome
  | inl nowMs =>
      let! resolution := resolveSelectedCredit context record candidate nowMs in
      match resolution with
      | inr outcome => kv_ret outcome
      | inl (credit, nowMs) =>
          let! preparation := prepareLiveSubmission context record candidate nowMs in
          match preparation with
          | inr outcome => kv_ret outcome
          | inl prepared => renewAndRedeem context candidate credit prepared
          end
      end
  end.

(** ** An attempt *)

Definition resolveNewSubmissionAllowance (candidate : CodexBankedResetCandidate) (context : ResetContext) (reconcileOnly : bool) :
    M (bool + CodexBankedResetOutcome) :=
  if reconcileOnly then kv_ret (inr (no_record OSkipped "no_existing_transaction" context)) else
  let! usage := if manual candidate then kv_ret (Some true)
    else kv_catch (let! u := readCodexResetUsage (rc_accountIdHash context) in kv_ret (Some (fst u))) (fun _ => kv_ret None) in
  match usage with
  | None => kv_ret (inr (no_record OSkipped "configuration_unavailable" context))
  | Some false => kv_ret (inr (no_record OSkipped "usage_disabled" context))
  | Some true =>
      let! config := read_config in
      kv_ret (match config with
              | None => inr (no_record OSkipped "configuration_unavailable" context)
              | Some config =>
                  match policyReason config (manual candidate), providerPolicyReason config provider (manual candidate) with
                  | Some reason, _ | None, Some reason => inr (no_record OSkipped reason context)
                  | None, None =>
                      if bool_decide (bc_mode config = ModeShadow) && negb (manual candidate)
                      then inr (no_record OSkipped "shadow" context) else inl true
                  end
              end)
  end.

(** Whether this call may make a new submission. *)
Definition resolveSubmissionAllowance (candidate : CodexBankedResetCandidate) (context : ResetContext)
    (existing : option CodexResetRedemptionRecord) (reconcileOnly : bool) : M (bool + CodexBankedResetOutcome) :=
  match existing with
  | None => resolveNewSubmissionAllowance candidate context reconcileOnly
  | Some existing =>
      if negb (bool_decide (rr_state existing = RClaimed)) then kv_ret (inl false) else
      if reconcileOnly then kv_ret (inr (outcome OPending "unsubmitted_transaction" context existing)) else
      let! policy := live_policy candidate in
      kv_ret (match policy with
              | inr reason => inr (outcome OPending ("new_submission_" +:+ reason) context existing)
              | inl _ => inl true
              end)
  end.

Definition handleClaimResult (context : ResetContext) (candidate : CodexBankedResetCandidate) (claimed : ClaimResult) : M CodexBankedResetOutcome :=
  match claimed with
  | ClaimFailure code => kv_ret (no_record OSkipped code context)
  | ClaimNoTransaction => kv_ret (no_record OSkipped "no_existing_transaction" context)
  | ClaimAccountDayLimit => kv_ret (no_record OSkipped "account_day_limit_reached" context)
  | ClaimInProgress record => kv_ret (outcome OPending "transaction_in_progress" context record)
  | ClaimRejected record => kv_ret (outcome ORejected (default "previously_rejected" (rr_last_error_code record)) context record)
  | ClaimVerified record => kv_ret (outcome OVerified "previously_verified" context record)
  | ClaimSubmit record => submitClaimed context record candidate
  | ClaimReconcile record => reconcileOwned context record
  end.

Definition safeOwnerToken (token : option string) : option string := t ← token; if nonEmptyText 256 t then Some t else None.

Definition attemptInternal (candidate : CodexBankedResetCandidate) (reconcileOnly : bool) : M CodexBankedResetOutcome :=
  match makeResetContext hash candidate with
  | None => kv_ret (mkOutcome OSkipped "invalid_quota_generation" None None)
  | Some context =>
      let! opened := await_call kvOpens in
      if negb opened then kv_ret (no_record OSkipped "kv_unavailable" context) else
      let! existing := readExistingRecord context in
      match existing with
      | inr code => kv_ret (no_record OSkipped code context)
      | inl existing =>
          if match existing with Some record => negb (matchesContext record context) | None => false end
          then kv_ret (mkOutcome OSkipped "redemption_record_context_mismatch" (Some context) existing) else
          match settledRecordDisposition context candidate existing with
          | Some settled => kv_ret settled
          | None =>
              let! allowance := resolveSubmissionAllowance candidate context existing reconcileOnly in
              match allowance with
              | inr outcome => kv_ret outcome
              | inl allowNewSubmission =>
                  if negb (providerSupportsLiveRedemption provider)
                  then kv_ret (mkOutcome OSkipped "provider_contract_unproven" (Some context) existing) else
                  let! now := read_clock in
                  match now with
                  | None => kv_ret (mkOutcome OSkipped "invalid_clock" (Some context) existing)
                  | Some nowMs =>
                      let! token := observe (fun n => safeOwnerToken (newOwnerToken n)) in
                      match token with
                      | None => kv_ret (mkOutcome OSkipped "owner_token_unavailable" (Some context) existing)
                      | Some ownerToken =>
                          let! claimed := claimTransaction context candidate nowMs ownerToken allowNewSubmission in
                          handleClaimResult context candidate claimed
                      end
                  end
              end
          end
      end
  end.

Definition attemptCodexBankedReset (candidate : CodexBankedResetCandidate) : M CodexBankedResetOutcome := attemptInternal candidate false.
Definition reconcileCodexBankedReset (candidate : CodexBankedResetCandidate) : M CodexBankedResetOutcome := attemptInternal candidate true.
End banked.
