(* ===== verification/BankedResetRows.v ===== *)
(** * Rows of the banked resets

    What the stored rows read back as, how the record of a quota window and the
    budget of an account's day may change, and the keys of the rows. *)

From Stdlib Require Import ZArith Lia.
From stdpp Require Import base gmap strings list pretty.
From S2P Require Import Prelude Js KvStore KvLogic HttpDate ApiKeyUsage ApiKeyStore ApiKeyRows BankedReset BankedResetStore.
Open Scope string_scope.
Open Scope Z_scope.

(** ** Rows read back *)

#[local] Arguments isNonEmptyText : simpl never.
#[local] Arguments isState : simpl never.
#[local] Arguments nullable : simpl never.
#[local] Arguments redemptionRecordTimestampsAreOrdered : simpl never.
#[local] Arguments redemptionRecordStateIsConsistent : simpl never.

Lemma isState_text s : isState (JStr (state_text s)) = Some s.
Proof. by destruct s. Qed.

Lemma isNonEmptyText_Some max v s : isNonEmptyText max v = Some s <-> v = JStr s /\ nonEmptyText max s = true.
Proof.
  unfold isNonEmptyText, nonEmptyText. destruct v as [| | | |t| |]; try naive_solver.
  destruct (_ && _) eqn:E; naive_solver congruence.
Qed.

Lemma nullable_inv {A} (f : jsval -> option A) (g : A -> jsval) o o' :
  (forall a a', f (g a) = Some a' -> a' = a) -> (forall a, g a <> JNull) -> nullable f (json_option g o) = Some o' -> o' = o.
Proof.
  intros Hf Hg. unfold nullable. destruct o as [a|]; cbn; [|by intros [= <-]].
  destruct (is_null (g a)) eqn:E; [destruct (Hg a); by destruct (g a)|].
  destruct (f (g a)) eqn:Ef; cbn; [|done]. intros [= <-]. by apply Hf in Ef as ->.
Qed.

Lemma isNonEmptyText_inv max s s' : isNonEmptyText max (JStr s) = Some s' -> s' = s.
Proof. intros [[= ->] _]%isNonEmptyText_Some. done. Qed.

(** Read as a step of the parser: one field. *)
Ltac field_back H := let x := fresh "x" in let E := fresh "E" in apply bind_some in H as (x & E & H).

(** A row reads back as what was stored, or not at all. *)
Lemma parse_json_redemption r r' : parseCodexResetRedemptionRecord (json_redemption r) = Some r' -> r' = r.
Proof.
  unfold parseCodexResetRedemptionRecord, json_redemption. cbn. intros H. do 15 field_back H. destruct (_ && _); [|done].
  injection H as <-.
  repeat match goal with
  | E : isNonEmptyText _ _ = Some _ |- _ => apply isNonEmptyText_inv in E
  | E : isState _ = Some _ |- _ => rewrite isState_text in E; injection E as E
  | E : nonNegativeSafeInteger _ = Some _ |- _ => apply count_jint_inv in E
  | E : nullable (isNonEmptyText _) _ = Some _ |- _ => apply nullable_inv in E; [|intros ??; apply isNonEmptyText_inv|done]
  | E : nullable nonNegativeSafeInteger _ = Some _ |- _ => apply nullable_inv in E; [|intros ??; apply count_jint_inv|done]
  end.
  subst. by destruct r.
Qed.

(** A claimed record was not submitted. *)
Lemma claimed_not_submitted v r :
  parseCodexResetRedemptionRecord v = Some r -> rr_state r = RClaimed -> rr_submitted_at_ms r = None.
Proof.
  unfold parseCodexResetRedemptionRecord. case_match; [done|]. intros H'. do 15 field_back H'.
  destruct (_ && _) eqn:Eok; [|done]. injection H' as <-. cbn. intros ->. apply andb_true_iff in Eok as [_ Eok].
  unfold redemptionRecordStateIsConsistent in Eok. cbn in Eok. destruct x11; [|done]. cbn in Eok. by rewrite andb_false_r in Eok.
Qed.

(** The submissions an account's day counts, an absent row none. *)
Definition daily_count (day : string) (v : jsval) : option Z :=
  if is_null v then Some 0 else dr_submission_count <$> parseAccountDayRecord v day.

Lemma daily_count_json day c now : count_ok c -> count_ok now -> daily_count day (json_daily (mkDaily day c now)) = Some c.
Proof.
  intros Hc Hn. unfold daily_count, parseAccountDayRecord, json_daily. cbn. rewrite bool_decide_true by done. cbn.
  apply count_jint in Hc, Hn. by rewrite Hn, Hc.
Qed.

Lemma daily_count_nonneg day v c : daily_count day v = Some c -> 0 <= c.
Proof.
  unfold daily_count, parseAccountDayRecord. case_match; [by intros [= <-]|]. case_match; [done|]. intros E.
  apply fmap_Some in E as (d & E & ->). do 2 field_back E. injection E as <-. cbn. by apply count_Some in E1 as [].
Qed.

(** ** How a record changes *)

(** How far a row has gone: absent, claimed, submitted, closed.  A row that does
    not parse is closed: every call refuses it. *)
Definition stage (v : jsval) : Z :=
  if is_null v then 0 else
  match parseCodexResetRedemptionRecord v with
  | None => 3
  | Some r => match rr_state r with RClaimed => 1 | RSubmitted | RUnknown => 2 | RVerified | RRejected => 3 end
  end.

(** The same redemption: its identity and its submission stand, and its owner
    changes only under a larger fence. *)
Record continues (r r' : CodexResetRedemptionRecord) : Prop := {
  ct_account : rr_account_id_hash r' = rr_account_id_hash r;
  ct_credential : rr_credential_version r' = rr_credential_version r;
  ct_generation : rr_quota_generation r' = rr_quota_generation r;
  ct_routing : rr_routing_generation r' = rr_routing_generation r;
  ct_idempotency : rr_idempotency_key_hash r' = rr_idempotency_key_hash r;
  ct_created : rr_created_at_ms r' = rr_created_at_ms r;
  ct_submitted t : rr_submitted_at_ms r = Some t -> rr_submitted_at_ms r' = Some t;
  ct_fence : rr_fence r <= rr_fence r';
  ct_owner : rr_owner_token r' = rr_owner_token r \/ rr_fence r < rr_fence r' }.

#[export] Instance continues_preorder : PreOrder continues.
Proof.
  split.
  - intros r. constructor; auto; lia.
  - intros r1 r2 r3 [] []. constructor; try congruence; auto; try lia.
    destruct ct_owner0, ct_owner1; [left; congruence|right; lia..].
Qed.

(** An open row goes forward; a closed one stays. *)
Definition record_moves (v v' : jsval) : Prop :=
  v' = v
  \/ stage v <= 2 /\ 1 <= stage v' /\ stage v <= stage v'
     /\ forall r r', parseCodexResetRedemptionRecord v = Some r -> parseCodexResetRedemptionRecord v' = Some r' -> continues r r'.

Lemma stage_parses v : 1 <= stage v <= 2 -> exists r, parseCodexResetRedemptionRecord v = Some r.
Proof.
  unfold stage. destruct (is_null v) eqn:E; [lia|]. destruct (parseCodexResetRedemptionRecord v) as [r|]; [by exists r|lia].
Qed.

#[export] Instance record_moves_preorder : PreOrder record_moves.
Proof.
  split; [by left|]. intros v1 v2 v3 [->|(A & B & C & D)] [->|(A' & B' & C' & D')]; [by left|by right..|right].
  split_and!; [lia..|]. intros r r' H H'. destruct (stage_parses v2) as [r2 H2]; [lia|]. etrans; eauto.
Qed.

(** A count only grows. *)
Definition daily_moves (day : string) (v v' : jsval) : Prop :=
  v' = v \/ exists c c', daily_count day v = Some c /\ daily_count day v' = Some c' /\ c < c'.

#[export] Instance daily_moves_preorder day : PreOrder (daily_moves day).
Proof.
  split; [by left|]. intros v1 v2 v3 [->|(c1 & c2 & H1 & H2 & H)] [->|(c3 & c4 & H3 & H4 & H')]; [by left|right; eauto 6..|right].
  exists c1, c4. split_and!; [done..|]. rewrite H2 in H3. injection H3 as ->. lia.
Qed.

Lemma record_moves_stage v v' : record_moves v v' -> stage v <= stage v'.
Proof. intros [->|(_ & _ & H & _)]; [done|lia]. Qed.

Lemma daily_moves_count day v v' c : daily_moves day v v' -> daily_count day v = Some c -> exists c', daily_count day v' = Some c' /\ c <= c'.
Proof. intros [->|(c1 & c2 & H1 & H2 & H)] E; [eauto with lia|]. exists c2. split; [done|]. rewrite E in H1. injection H1 as ->. lia. Qed.

(** An open record that is rewritten past its claim. *)
Definition open_state (s : CodexResetRedemptionState) : Prop := s <> RVerified /\ s <> RRejected.

Lemma stage_record v r : parseCodexResetRedemptionRecord v = Some r ->
  stage v = match rr_state r with RClaimed => 1 | RSubmitted | RUnknown => 2 | RVerified | RRejected => 3 end.
Proof. intros H. unfold stage. rewrite H. destruct v; cbn; try done. Qed.

Lemma stage_json r : 1 <= stage (json_redemption r).
Proof. unfold stage. cbn. case_match; [|lia]. repeat case_match; lia. Qed.

Lemma stage_json_past r : rr_state r <> RClaimed -> 2 <= stage (json_redemption r).
Proof.
  intros Hs. unfold stage. cbn [is_null json_redemption].
  destruct (parseCodexResetRedemptionRecord (json_redemption r)) eqn:E; [|lia]. apply parse_json_redemption in E as ->.
  destruct (rr_state r); done || lia.
Qed.

Lemma record_rewritten v r r' :
  parseCodexResetRedemptionRecord v = Some r -> open_state (rr_state r) -> rr_state r = rr_state r' \/ rr_state r' <> RClaimed ->
  continues r r' -> record_moves v (json_redemption r').
Proof.
  intros E [Hv Hr] Hs Hc. right. rewrite (stage_record v r E). split_and!.
  - destruct (rr_state r); done || lia.
  - apply stage_json.
  - destruct Hs as [Hs|Hs%stage_json_past]; [|destruct (rr_state r); done || lia].
    unfold stage. cbn [is_null json_redemption].
    destruct (parseCodexResetRedemptionRecord (json_redemption r')) eqn:E'; [|destruct (rr_state r); done || lia].
    apply parse_json_redemption in E' as ->. by rewrite <- Hs.
  - intros r1 r2 E1 E2. apply parse_json_redemption in E2 as ->. rewrite E in E1. by injection E1 as <-.
Qed.

Lemma record_created v r : is_null v = true -> record_moves v (json_redemption r).
Proof.
  intros Hv. right. pose proof (stage_json r). unfold stage at 1 3. rewrite Hv. split_and!; [lia..|].
  intros r1 r2 E1. by destruct v.
Qed.

(** ** Keys *)

Lemma redemption_key_inj a g a' g' : codexResetRedemptionKey a g = codexResetRedemptionKey a' g' -> a = a' /\ g = g'.
Proof. unfold codexResetRedemptionKey. cbn. intros [= -> ->]. done. Qed.
Lemma daily_key_inj a d a' d' : codexResetAccountDailyKey a d = codexResetAccountDailyKey a' d' -> a = a' /\ d = d'.
Proof. unfold codexResetAccountDailyKey. cbn. intros [= -> ->]. done. Qed.
Lemma redemption_not_daily a g a' d : codexResetRedemptionKey a g <> codexResetAccountDailyKey a' d.
Proof. done. Qed.

#[global] Arguments codexResetRedemptionKey : simpl never.
#[global] Arguments codexResetAccountDailyKey : simpl never.
