(* ===== verification/BankedResetLogic.v ===== *)
(** * Interference between calls for banked resets

    What one call may see another do: the rows only go forward, and a row that
    carries one of a call's owner tokens is written by that call alone.  Then
    the trace of a call, and what its storage calls do. *)

From Stdlib Require Import ZArith Lia.
From stdpp Require Import base gmap strings list pretty.
From S2P Require Import Prelude Js KvStore KvLogic KernelStore ApiKeyRows BankedReset BankedResetStore BankedResetRows.
Open Scope string_scope.
Open Scope Z_scope.

(** ** The trace *)

(** Neither a redemption nor an inventory of a cohort. *)
Definition quiet_event (e : Event) : Prop :=
  match e with ERedeem _ | EInventory (Some _) _ => False | _ => True end.

(** The inventories of a cohort that were read, with their slots. *)
Definition inventory_of (e : Event) : option (Z * option jsval) :=
  match e with EInventory (Some slot) answer => Some (slot, answer) | _ => None end.
Definition inventories (l : list Event) : list (Z * option jsval) := omap inventory_of l.

Lemma quiet_nothing l : Forall quiet_event l -> omap redeem_of l = [] /\ inventories l = [].
Proof. induction 1 as [|e l He _ [IH1 IH2]]; [done|]. by destruct e as [| | | |[]|]. Qed.

Section trace.
Context {S : Type}.
Local Notation W := (World S).

(** Only quiet events happened. *)
Definition silent (w w' : W) : Prop := exists l, w_trace w' = (w_trace w ++ l)%list /\ Forall quiet_event l.

(** An event happened between two worlds. *)
Definition saw (e : Event) (w w' : W) : Prop := exists l, w_trace w' = (w_trace w ++ l)%list /\ e ∈ l.

#[export] Instance silent_preorder : PreOrder silent.
Proof.
  split; [intros w; exists []; by rewrite app_nil_r|]. intros w1 w2 w3 (l & E & H) (l' & E' & H'). exists (l ++ l')%list.
  rewrite E', E, app_assoc. split; [done|]. by apply Forall_app.
Qed.

Lemma silent_event e (w : W) : quiet_event e -> silent w (happens e w).
Proof. intros H. exists [e]. split; [done|]. by constructor. Qed.

Lemma saw_event e (w : W) : saw e w (happens e w).
Proof. exists [e]. split; [done|]. by left. Qed.

Lemma saw_later e (w w1 w' : W) : saw e w w1 -> silent w1 w' -> saw e w w'.
Proof. intros (l & E & H) (l' & E' & _). exists (l ++ l')%list. rewrite E', E, app_assoc. split; [done|]. apply elem_of_app. by left. Qed.

Lemma saw_earlier e (w w1 w' : W) : silent w w1 -> saw e w1 w' -> saw e w w'.
Proof. intros (l & E & _) (l' & E' & H). exists (l ++ l')%list. rewrite E', E, app_assoc. split; [done|]. apply elem_of_app. by right. Qed.

(** Two events happened, the one after the other. *)
Definition in_turn (e e' : Event) (w w' : W) : Prop :=
  exists l l', w_trace w' = (w_trace w ++ l ++ l')%list /\ e ∈ l /\ e' ∈ l'.

Lemma saw_in_turn e e' (w w1 w' : W) : saw e w w1 -> saw e' w1 w' -> in_turn e e' w w'.
Proof. intros (l & E & H) (l' & E' & H'). exists l, l'. by rewrite E', E, app_assoc. Qed.

Lemma in_turn_earlier e e' (w w1 w' : W) : silent w w1 -> in_turn e e' w1 w' -> in_turn e e' w w'.
Proof.
  intros (l0 & E0 & _) (l & l' & E & H & H'). exists (l0 ++ l)%list, l'. rewrite E, E0, !app_assoc. split_and!; [done| |done].
  apply elem_of_app. by right.
Qed.

Lemma silent_redeemed (w w' : W) : silent w w' -> w_redeemed w' = w_redeemed w.
Proof. intros (l & E & H). unfold w_redeemed. by rewrite E, omap_app, (proj1 (quiet_nothing _ H)), app_nil_r. Qed.

Lemma redeemed_event input (w : W) : w_redeemed (happens (ERedeem input) w) = (w_redeemed w ++ [input])%list.
Proof. unfold w_redeemed. cbn. by rewrite omap_app. Qed.
End trace.

(** ** Relations on worlds *)

Section relations.
Context {S : Type} `{Kv : !KvStoreOf jsval S}.
Local Notation W := (World S).

Definition row (w : W) (k : KvKey) : jsval := entry_value (entry_at (kv_map w) k).

(** The rows of every quota window and of every account's day go forward. *)
Record reset_evolves (w w' : W) : Prop := {
  re_advances : advances w w';
  re_record a g : record_moves (row w (codexResetRedemptionKey a g)) (row w' (codexResetRedemptionKey a g));
  re_daily a d : daily_moves d (row w (codexResetAccountDailyKey a d)) (row w' (codexResetAccountDailyKey a d)) }.

(** The row is kept, or has an owner that is not one of [P]. *)
Definition spares (P : string -> Prop) (v v' : jsval) : Prop :=
  v' = v \/ forall r, parseCodexResetRedemptionRecord v' = Some r -> ~ P (rr_owner_token r).

(** ... and no row is written with a token of [P]. *)
Record reset_interferes (P : string -> Prop) (w w' : W) : Prop := {
  ri_evolves : reset_evolves w w';
  ri_spares a g : spares P (row w (codexResetRedemptionKey a g)) (row w' (codexResetRedemptionKey a g)) }.

(** ... and nothing is redeemed, nor read of a cohort. *)
Record reset_rely (P : string -> Prop) (w w' : W) : Prop := {
  rl_interferes : reset_interferes P w w';
  rl_silent : silent w w' }.

#[export] Instance spares_preorder P : PreOrder (spares P).
Proof. split; [by left|]. intros v1 v2 v3 [->|H] [->|H2]; [by left|right; assumption..]. Qed.

#[export] Instance reset_evolves_preorder : PreOrder reset_evolves.
Proof.
  split; [intros w; constructor; auto using advances_refl; reflexivity|].
  intros w1 w2 w3 [A B C] [A' B' C']. constructor; [by eapply advances_trans|intros; etrans; eauto..].
Qed.

#[export] Instance reset_interferes_preorder P : PreOrder (reset_interferes P).
Proof.
  split; [intros w; constructor; reflexivity|]. intros w1 w2 w3 [A B] [A' B']. constructor; [by etrans|intros; etrans; eauto].
Qed.

#[export] Instance reset_rely_preorder P : PreOrder (reset_rely P).
Proof. split; [intros w; constructor; reflexivity|]. intros w1 w2 w3 [A B] [A' B']. constructor; by etrans. Qed.

Lemma spares_weaken (P Q : string -> Prop) v v' : (forall t, Q t -> P t) -> spares P v v' -> spares Q v v'.
Proof. intros H [->|Hs]; [by left|right]. intros r Hr Hq. by apply (Hs r Hr), H. Qed.

Lemma reset_rely_weaken (P Q : string -> Prop) w w' : (forall t, Q t -> P t) -> reset_rely P w w' -> reset_rely Q w w'.
Proof. intros H [[A B] C]. constructor; [constructor; [done|]|done]. intros. by eapply spares_weaken. Qed.

(** Only the trace differs. *)
Lemma interferes_trace P (w : W) l : reset_interferes P w (mkWorld (w_store w) l).
Proof. constructor; [constructor|]; try (intros; reflexivity). constructor; [cbn; lia|by left]. Qed.

Lemma rely_event P e (w : W) : quiet_event e -> reset_rely P w (happens e w).
Proof. intros He. constructor; [apply interferes_trace|by apply silent_event]. Qed.

(** What another client does: it writes rows, and nothing of this trace, which
    holds what one call did. *)
Record reset_others (P : string -> Prop) (w w' : W) : Prop := {
  ro_interferes : reset_interferes P w w';
  ro_trace : w_trace w' = w_trace w }.

Lemma others_rely P w w' : reset_others P w w' -> reset_rely P w w'.
Proof. intros [H E]. constructor; [done|]. exists []. by rewrite E, app_nil_r. Qed.

(** ** What a submission needs *)

(** Every fence holds of the row it names. *)
Definition fences_current (fences : list CodexBankedResetFence) (w : W) : Prop :=
  Forall (fun f => fc_isCurrent f (row w (fc_key f)) = Some true) fences.

(** The account's setting, absent or enabled. *)
Definition usage_allows (setting : jsval) : bool := is_null setting || (isRecord setting && is_true (prop setting "enabled")).

(** The reset was authorised for the account, or its setting allows it. *)
Definition consents (h : string) (authorization : option string) (w : W) : Prop :=
  authorization = Some h \/ usage_allows (row w (codexResetUsageKey h)) = true.

(** ** Commits *)

(** A mutation the relations allow. *)
Definition write_ok (P : string -> Prop) (w : W) (mu : KvMutationOf jsval) : Prop :=
  match mu with
  | MSet k v _ =>
      (forall a g, k = codexResetRedemptionKey a g -> record_moves (row w k) v /\ spares P (row w k) v)
      /\ (forall a d, k = codexResetAccountDailyKey a d -> daily_moves d (row w k) v)
  | MDelete k => (forall a g, k <> codexResetRedemptionKey a g) /\ (forall a d, k <> codexResetAccountDailyKey a d)
  end.

(** The value a mutation leaves. *)
Definition mutation_value (mu : KvMutationOf jsval) : jsval := match mu with MSet _ v _ => v | MDelete _ => JNull end.

Lemma mutated_value n ms (m : KvMapOf jsval) k :
  entry_value (entry_at (apply_mutations n ms m) k) = entry_value (entry_at m k)
  \/ exists mu, mu ∈ ms /\ mutation_key mu = k /\ entry_value (entry_at (apply_mutations n ms m) k) = mutation_value mu.
Proof.
  revert m. induction ms as [|mu ms IH]; intros m; [by left|]. rewrite apply_mutations_cons.
  destruct (IH (apply_mutation n m mu)) as [E|(mu' & H1 & H2 & H3)]; [|right; exists mu'; set_solver].
  rewrite E. destruct (decide (mutation_key mu = k)) as [<-|Hne].
  - right. exists mu. split_and!; [set_solver|done|]. destruct mu; cbn; unfold entry_at; by rewrite ?lookup_insert_eq, ?lookup_delete_eq.
  - left. destruct mu; cbn in *; unfold entry_at; by rewrite ?lookup_insert_ne, ?lookup_delete_ne.
Qed.

Lemma commit_rows cs ms (w w' : W) k :
  kv_commit cs ms w = (true, w') -> row w' k = row w k \/ exists mu, mu ∈ ms /\ mutation_key mu = k /\ row w' k = mutation_value mu.
Proof. intros Hc. destruct (kv_commit_ok _ _ _ _ Hc) as (_ & _ & Hm). unfold row. rewrite Hm. apply mutated_value. Qed.

Lemma commit_trace cs ms (w w' : W) :
  kv_commit cs ms w = (true, w') -> w_trace w' = (w_trace w ++ [ECommit (kv_map w) (kv_map w')])%list.
Proof. cbn. destruct (kv_commit cs ms (w_store w)) as [[] s]; [|done]. by intros [= <-]. Qed.

Lemma commit_silent cs ms (w w' : W) : kv_commit cs ms w = (true, w') -> silent w w'.
Proof. intros Hc%commit_trace. eexists. split; [exact Hc|]. by constructor. Qed.

Lemma commit_redeemed cs ms (w w' : W) : kv_commit cs ms w = (true, w') -> w_redeemed w' = w_redeemed w.
Proof. intros Hc. by eapply silent_redeemed, commit_silent. Qed.

Lemma write_ok_record P w mu a g : write_ok P w mu -> mutation_key mu = codexResetRedemptionKey a g ->
  record_moves (row w (codexResetRedemptionKey a g)) (mutation_value mu) /\ spares P (row w (codexResetRedemptionKey a g)) (mutation_value mu).
Proof. intros H Hk. destruct mu as [k v e|k]; cbn in Hk; subst; [by apply (proj1 H a g)|]. by destruct H as [H _], (H a g). Qed.

Lemma write_ok_daily P w mu a d : write_ok P w mu -> mutation_key mu = codexResetAccountDailyKey a d ->
  daily_moves d (row w (codexResetAccountDailyKey a d)) (mutation_value mu).
Proof. intros H Hk. destruct mu as [k v e|k]; cbn in Hk; subst; [by apply (proj2 H a d)|]. by destruct H as [_ H], (H a d). Qed.

Lemma commit_allowed P cs ms (w w' : W) :
  kv_commit cs ms w = (true, w') -> Forall (write_ok P w) ms -> reset_rely P w w'.
Proof.
  intros Hc Hok. rewrite Forall_forall in Hok. constructor; [constructor; [constructor|]|by eapply commit_silent].
  - by eapply commit_advances.
  - intros a g. destruct (commit_rows _ _ _ _ (codexResetRedemptionKey a g) Hc) as [->|(mu & Hmu & Hk & ->)]; [reflexivity|].
    by apply (write_ok_record P w mu a g); auto.
  - intros a d. destruct (commit_rows _ _ _ _ (codexResetAccountDailyKey a d) Hc) as [->|(mu & Hmu & Hk & ->)]; [reflexivity|].
    by apply (write_ok_daily P w mu a d); auto.
  - intros a g. destruct (commit_rows _ _ _ _ (codexResetRedemptionKey a g) Hc) as [->|(mu & Hmu & Hk & ->)]; [reflexivity|].
    by apply (write_ok_record P w mu a g); auto.
Qed.

(** A row that was read earlier, is checked, and is written. *)
Lemma commit_checked k v e cs ms (w0 w1 w2 : W) :
  advances w0 w1 -> kv_commit (entry_at (kv_map w0) k :: cs) (MSet k v e :: ms) w1 = (true, w2) ->
  Forall (fun mu => mutation_key mu <> k) ms -> row w1 k = row w0 k /\ row w2 k = v.
Proof.
  intros Hadv Hc Hk. split.
  - unfold row. f_equal. eapply (checked_unchanged _ _ w0 w1 w2); [done..|set_solver].
  - destruct (kv_commit_ok _ _ _ _ Hc) as (_ & _ & Hm). unfold row. rewrite Hm, apply_mutations_cons. cbn.
    unfold entry_at. rewrite apply_mutations_other by done. by rewrite lookup_insert_eq.
Qed.
End relations.

(** ** The storage calls *)

Section calls.
Context {S : Type} `{Kv : !KvStoreOf jsval S} {rely : World S -> World S -> Prop} `{Hpre : !PreOrder rely}.
Context {others : Clients (World S)} `{Hothers : !RelyOn rely others} {faults : nat -> Fault}.

Lemma triple_observe {A} (f : nat -> A) w (Q : Result string A -> World S -> Prop) :
  (forall n, Q (Ok (f n)) w) -> triple (observe f) w Q.
Proof. intros H n. apply H. Qed.

Lemma triple_await {A} (f : nat -> A) w (Q : Result string A -> World S -> Prop) :
  (forall n w1, rely w w1 -> Q (Ok (f n)) w1) -> triple (await_call others f) w Q.
Proof. intros H n. apply H, relies. Qed.

Lemma triple_clock clock w (Q : Result string (option Z) -> World S -> Prop) :
  (forall n, Q (Ok (readClock (clock n))) (happens (EClock (readClock (clock n))) w)) -> triple (read_clock clock) w Q.
Proof. intros H n. apply H. Qed.

Lemma triple_config liveConfig w (Q : Result string (option CodexBankedResetConfig) -> World S -> Prop) :
  (forall n, Q (Ok (liveConfig n)) (happens (EConfig (liveConfig n)) w)) -> triple (read_config liveConfig) w Q.
Proof. intros H n. apply H. Qed.

Lemma triple_inventory slot provider w (Q : Result string (option jsval) -> World S -> Prop) :
  (forall n w1, rely w w1 -> Q (Ok (pv_readInventory provider n)) (happens (EInventory slot (pv_readInventory provider n)) w1)) ->
  triple (read_inventory others slot provider) w Q.
Proof. intros H n. apply H, relies. Qed.

Lemma triple_try_get k w (Q : Result string (option Entry) -> World S -> Prop) :
  (forall w1, rely w w1 ->
     Q (Ok (Some (entry_at (kv_map w1) k))) (happens (ERead k (entry_value (entry_at (kv_map w1) k))) w1)) ->
  (forall w1, rely w w1 -> Q (Ok None) w1) ->
  triple (try_get others faults k) w Q.
Proof.
  intros Hs Hn n. unfold try_get. destruct (faults n); [|apply Hn, relies..]. unfold get. rewrite kv_get_spec. apply Hs, relies.
Qed.

Lemma triple_try_commit cs ms w (Q : Result string (option bool) -> World S -> Prop) :
  (forall w1 w2, rely w w1 -> kv_commit cs ms w1 = (true, w2) -> Q (Ok (Some true)) w2 /\ Q (Ok None) w2) ->
  (forall w1, rely w w1 -> Q (Ok (Some false)) w1) -> (forall w1, rely w w1 -> Q (Ok None) w1) ->
  triple (try_commit others faults cs ms) w Q.
Proof.
  intros Ht Hf Hn n. unfold try_commit, commit. destruct (faults n) eqn:Ef; [|apply Hn, relies|].
  all: destruct (kv_commit cs ms (others n w)) as [[] w2] eqn:E; [by apply (Ht (others n w) w2 (relies n w))|].
  all: apply kv_commit_failed in E as ->; eauto using (relies (rely := rely)).
Qed.

Lemma triple_call_redeem provider input w (Q : Result string (option jsval) -> World S -> Prop) :
  (forall n w1, rely (happens (ERedeem input) w) w1 -> Q (Ok (pv_redeem provider n)) w1) ->
  triple (call_redeem others provider input) w Q.
Proof. intros H n. apply H, relies. Qed.

Lemma guarantees_observe {A} (f : nat -> A) : guarantees rely (observe (S := S) f).
Proof. intros w. apply triple_observe. reflexivity. Qed.
Lemma guarantees_await {A} (f : nat -> A) : guarantees rely (await_call others f).
Proof. intros w. apply triple_await. auto. Qed.
End calls.

(** What is recorded of a read is quiet. *)
Section quietly.
Context {S : Type} `{Kv : !KvStoreOf jsval S} {P : string -> Prop}.
Local Notation rely := (reset_rely (S := S) P).
Context {others : Clients (World S)} `{Hothers : !RelyOn rely others} {faults : nat -> Fault}.

Lemma guarantees_clock clock : guarantees rely (read_clock clock).
Proof. intros w. apply triple_clock. intros n. by apply rely_event. Qed.
Lemma guarantees_config liveConfig : guarantees rely (read_config liveConfig).
Proof. intros w. apply triple_config. intros n. by apply rely_event. Qed.
Lemma guarantees_inventory provider : guarantees rely (read_inventory others None provider).
Proof. intros w. apply triple_inventory. intros n w1 H. etrans; [exact H|]. by apply rely_event. Qed.

(** A read, with the row as it is right after it. *)
Lemma triple_read k w (Q : Result string (option Entry) -> World S -> Prop) :
  (forall w1, rely w w1 -> saw (ERead k (row w1 k)) w w1 -> Q (Ok (Some (entry_at (kv_map w1) k))) w1) ->
  (forall w1, rely w w1 -> Q (Ok None) w1) -> triple (try_get others faults k) w Q.
Proof.
  intros Hs Hn. apply triple_try_get; [|done]. intros w1 H1.
  apply (Hs (happens (ERead k (entry_value (entry_at (kv_map w1) k))) w1)); [etrans; [exact H1|]; by apply rely_event|].
  eapply saw_earlier; [apply H1|]. apply saw_event.
Qed.

Lemma triple_row k w (Q : Result string (option Entry) -> World S -> Prop) :
  (forall w1, rely w w1 -> Q (Ok (Some (entry_at (kv_map w1) k))) w1) -> (forall w1, rely w w1 -> Q (Ok None) w1) ->
  triple (try_get others faults k) w Q.
Proof. intros Hs Hn. apply triple_read; auto. Qed.

Lemma guarantees_try_get k : guarantees rely (try_get others faults k).
Proof. intros w. apply triple_row; auto. Qed.
End quietly.

#[export] Hint Extern 1 (guarantees _ (observe _)) => apply guarantees_observe : gateway.
#[export] Hint Extern 1 (guarantees _ (read_clock _)) => apply guarantees_clock : gateway.
#[export] Hint Extern 1 (guarantees _ (read_config _)) => apply guarantees_config : gateway.
#[export] Hint Extern 1 (guarantees _ (read_inventory _ None _)) => apply guarantees_inventory : gateway.
#[export] Hint Extern 1 (guarantees _ (await_call _ _)) => apply guarantees_await : gateway.
#[export] Hint Extern 1 (guarantees _ (try_get _ _ _)) => apply guarantees_try_get : gateway.
