(* ===== verification/BankedResetGuarantee.v ===== *)
(** * What a call for a banked reset guarantees

    Whatever the other calls do within their interference, a call writes rows
    that go forward, under its own tokens only, and updates only an open
    record. *)

From Stdlib Require Import ZArith Lia.
From stdpp Require Import base gmap strings list pretty.
From S2P Require Import Prelude Js KvStore KvLogic KernelStore ApiKeyRows BankedReset BankedResetStore BankedResetRows BankedResetLogic.
Open Scope string_scope.
Open Scope Z_scope.
Open Scope kv_scope.

Section guarantee.
Context {S : Type} `{Kv : !KvStoreOf jsval S}.
Local Notation W := (World S).
Local Notation M := (KvM (World S)).

(** The tokens of this call and those of another, which differ. *)
Context (Mine Yours : string -> Prop) (Hdisjoint : forall t, Mine t -> ~ Yours t).
Context (others : Clients (World S)) (faults : nat -> Fault) (clock : nat -> option number) (dateNow : nat -> Z) (aborted : nat -> bool)
  (liveConfig : nat -> option CodexBankedResetConfig)
  (parseCodexAuthPool : jsval -> Result string (option (list string))) (sha256Hex : string -> string)
  (localeCompare : string -> string -> Z) (provider : CodexUsageResetProvider).
Local Notation rely := (reset_rely (fun t => Mine t \/ Yours t)).
Local Notation calm := (reset_rely Yours).
Context `{Hothers : !RelyOn rely others}.

Lemma rely_calm (w w' : W) : rely w w' -> calm w w'.
Proof. apply reset_rely_weaken. by right. Qed.

(** ** Neutral calls: those that touch no record *)

Lemma guarantees_get_or_throw k : guarantees rely (get_or_throw others faults k).
Proof. apply guarantees_bind; [auto with gateway|]. intros []; auto with gateway. Qed.

(** A mutation of the settings. *)
Definition settings_write (mu : KvMutationOf jsval) : Prop :=
  match mu with
  | MSet k _ _ => (exists a, k = codexResetUsageKey a) \/ k = CODEX_RESET_USAGE_MIGRATION_KEY
  | MDelete _ => False
  end.

Lemma settings_write_ok (w : W) P mu : settings_write mu -> write_ok P w mu.
Proof. destruct mu as [k v e|k]; [|done]. by intros [[a ->]| ->]; split. Qed.

Lemma guarantees_commit cs ms :
  (forall w : W, Forall (write_ok (fun t => Mine t \/ Yours t) w) ms) -> guarantees rely (commit_or_throw others faults cs ms).
Proof.
  intros Hms. apply guarantees_bind; [|intros []; auto with gateway]. intros w. apply triple_try_commit; [|auto..].
  intros w1 w2 H1 Hc. assert (rely w w2); [|done]. etrans; [done|]. by eapply commit_allowed.
Qed.

Lemma guarantees_settings cs ms :
  Forall settings_write ms -> guarantees rely (commit_or_throw others faults cs ms).
Proof. intros Hms. apply guarantees_commit. intros w. eapply Forall_impl; [done|]. intros mu. apply settings_write_ok. Qed.

Lemma seed_rows_spec hashes w :
  triple (seed_rows others faults hashes) w (fun r w' =>
    rely w w' /\ forall cs ms, r = Ok (cs, ms) -> Forall settings_write ms).
Proof.
  revert w. induction hashes as [|h hashes IH]; intros w; cbn [seed_rows].
  - apply triple_ret. split; [reflexivity|]. by intros cs ms [= <- <-].
  - apply triple_bind. eapply triple_mono; [apply guarantees_get_or_throw|]. intros [e|entry] w1 H1; [done|].
    apply triple_bind. eapply triple_mono; [apply IH|]. intros [e|[cs ms]] w2 [H2 Hms]; [by split; [etrans|]|].
    apply triple_ret. split; [by etrans|]. intros cs' ms' E. specialize (Hms _ _ eq_refl).
    destruct (is_null _); injection E as <- <-; [|done]. constructor; [|done]. left. eauto.
Qed.

Lemma guarantees_migrate : guarantees rely (migrateLegacyCodexResetOptOut others faults dateNow parseCodexAuthPool sha256Hex).
Proof.
  apply guarantees_bind; [apply guarantees_get_or_throw|]. intros marker. case_match; [auto with gateway|].
  apply guarantees_bind; [apply guarantees_get_or_throw|]. intros legacy.
  apply guarantees_bind; [apply guarantees_get_or_throw|]. intros poolEntry.
  apply guarantees_bind; [auto with gateway|]. intros [ids|]; [|auto with gateway].
  intros w. apply triple_bind. eapply triple_mono; [apply seed_rows_spec|]. intros [e|[cs ms]] w1 [H1 Hms]; [done|].
  eapply triple_mono; [|intros r w' Hg; etrans; [exact H1|exact Hg]]. clear H1. revert w1.
  change (guarantees rely (let! now := observe dateNow in commit_or_throw others faults
    ([poolEntry; legacy; marker] ++ cs)%list (ms ++ [MSet CODEX_RESET_USAGE_MIGRATION_KEY (JObj [("completed_at_ms", jint now);
      ("preserved_opt_out", JBool (isLegacyOptOut (entry_value legacy)))]) None])%list)).
  apply guarantees_bind; [auto with gateway|]. intros now. apply guarantees_settings, Forall_app. split; [by eapply Hms|].
  constructor; [by right|done].
Qed.

Lemma guarantees_ensure h : guarantees rely (ensureLegacyGlobalOptOutMigratedForAccount others faults h).
Proof.
  apply guarantees_bind; [apply guarantees_get_or_throw|]. intros marker.
  apply guarantees_bind; [apply guarantees_get_or_throw|]. intros legacy. case_match; [auto with gateway|].
  apply guarantees_bind; [|auto with gateway]. apply guarantees_settings. constructor; [|done]. left. eauto.
Qed.

Lemma guarantees_readUsage h : guarantees rely (readCodexResetUsage others faults dateNow parseCodexAuthPool sha256Hex h).
Proof.
  apply guarantees_bind; [apply guarantees_migrate|]. intros done.
  apply guarantees_bind; [|intros _; apply guarantees_bind; [apply guarantees_get_or_throw|intros entry; apply guarantees_ret]].
  destruct done; [auto with gateway|apply guarantees_ensure].
Qed.

Lemma guarantees_readUsageGate h auth : guarantees rely (readUsageGate others faults dateNow parseCodexAuthPool sha256Hex h auth).
Proof.
  unfold readUsageGate. case_match; [auto with gateway|].
  apply guarantees_bind; [|intros [[[] ?]|]; auto with gateway].
  apply guarantees_catch; [|auto with gateway]. apply guarantees_bind; [apply guarantees_readUsage|auto with gateway].
Qed.

Lemma guarantees_read_fences fences : guarantees rely (read_fences others faults fences).
Proof.
  induction fences as [|f fences IH]; cbn [read_fences]; [auto with gateway|].
  apply guarantees_bind; [auto with gateway|]. intros [e|]; [|auto with gateway].
  destruct (fc_isCurrent f (entry_value e)) as [[]|]; [|auto with gateway..].
  apply guarantees_bind; [done|auto with gateway].
Qed.

Lemma guarantees_readRequiredFences candidate : guarantees rely (readRequiredFences others faults candidate).
Proof.
  apply guarantees_bind; [|auto with gateway]. unfold readCurrentFences.
  destruct (cd_fences candidate) as [|f fs]; [auto with gateway|apply (guarantees_read_fences (f :: fs))].
Qed.

(** What was read of the fences: each entry, when it was read, showed its fence
    current, and the store has evolved since. *)
Definition fences_read (fences : list CodexBankedResetFence) (es : list Entry) (w : W) : Prop :=
  Forall2 (fun f e => exists wi, rely wi w /\ e = entry_at (kv_map wi) (fc_key f) /\ fc_isCurrent f (entry_value e) = Some true) fences es.

Lemma fences_read_later fences es w w' : rely w w' -> fences_read fences es w -> fences_read fences es w'.
Proof. intros H Hf. eapply Forall2_impl; [exact Hf|]. intros f e (wi & Hi & He). exists wi. split; [by etrans|done]. Qed.

Lemma read_fences_spec fences w :
  triple (read_fences others faults fences) w (fun r w' =>
    rely w w' /\ forall es, r = Ok (FencesValid es) -> fences_read fences es w').
Proof.
  revert w. induction fences as [|f fences IH]; intros w; cbn [read_fences].
  { apply triple_ret. split; [reflexivity|]. intros es [= <-]. constructor. }
  apply triple_bind, triple_row; [|by intros w1 H1; apply triple_ret; split]. intros w1 H1.
  destruct (fc_isCurrent f _) as [[]|] eqn:Ef; [|by apply triple_ret; split..].
  apply triple_bind. eapply triple_mono; [apply IH|]. intros [e|more] w2 [H2 Hr]; [by split; [etrans|]|].
  apply triple_ret. split; [by etrans|]. intros es [= E]. destruct more as [es'| |]; [|done..]. injection E as <-.
  constructor; [by exists w1|by apply Hr].
Qed.

Lemma required_fences_spec candidate w :
  triple (readRequiredFences others faults candidate) w (fun r w' =>
    rely w w' /\ forall es, r = Ok (inl es) -> fences_read (cd_fences candidate) es w').
Proof.
  apply triple_bind. unfold readCurrentFences. destruct (cd_fences candidate) as [|f fs] eqn:E.
  - apply triple_ret, triple_ret. split; [reflexivity|done].
  - eapply triple_mono; [apply (read_fences_spec (f :: fs))|]. intros [e|read] w1 [H1 Hr]; [by split|].
    apply triple_ret. split; [done|]. intros es [= Ee]. destruct read; [|done..]. injection Ee as <-. by apply Hr.
Qed.

(** What was read of the settings. *)
Definition consent_read (h : string) (authorization : option string) (es : list Entry) (w : W) : Prop :=
  authorization = Some h
  \/ exists wi, rely wi w /\ entry_at (kv_map wi) (codexResetUsageKey h) ∈ es /\ usage_allows (row wi (codexResetUsageKey h)) = true.

Lemma consent_read_later h auth es w w' : rely w w' -> consent_read h auth es w -> consent_read h auth es w'.
Proof. intros H [?|(wi & Hi & He)]; [by left|right]. exists wi. split; [by etrans|done]. Qed.

Lemma usage_spec h w :
  triple (readCodexResetUsage others faults dateNow parseCodexAuthPool sha256Hex h) w (fun r w' =>
    rely w w' /\ forall allowed es, r = Ok (allowed, es) ->
      es = [entry_at (kv_map w') (codexResetUsageKey h)] /\ allowed = usage_allows (row w' (codexResetUsageKey h))
      /\ saw (ERead (codexResetUsageKey h) (row w' (codexResetUsageKey h))) w w').
Proof.
  apply triple_bind. eapply triple_mono; [apply guarantees_migrate|]. intros [e|done] w1 H1; [by split|].
  apply triple_bind. eapply (triple_mono _ _ (fun _ w' => rely w1 w')).
  { destruct done; [apply triple_ret; reflexivity|]. apply guarantees_ensure. }
  intros [e|u] w2 H2; [by split; [etrans|]|]. apply triple_bind, triple_bind, triple_read.
  - intros w3 H3 Hsaw. do 2 apply triple_ret. split; [etrans; [done|]; by etrans|]. intros allowed es [= <- <-]. split_and!; [done..|].
    eapply saw_earlier; [apply H1|]. eapply saw_earlier; [apply H2|done].
  - intros w3 H3. apply triple_throw. split; [etrans; [done|]; by etrans|done].
Qed.

Lemma gate_spec h auth w :
  triple (readUsageGate others faults dateNow parseCodexAuthPool sha256Hex h auth) w (fun r w' =>
    rely w w' /\ forall es, r = Ok (inl es) -> consent_read h auth es w').
Proof.
  unfold readUsageGate. case_bool_decide as Ha; [apply triple_ret; split; [reflexivity|by left]|].
  apply triple_bind, triple_catch, triple_bind. eapply triple_mono; [apply usage_spec|]. intros [e|[allowed es]] w1 [H1 Hu].
  - do 2 apply triple_ret. by split.
  - do 2 apply triple_ret. split; [done|]. intros es' [= E]. destruct (Hu _ _ eq_refl) as (-> & -> & _).
    destruct (usage_allows _) eqn:Eu; [|done]. injection E as <-. right. exists w1. split_and!; [reflexivity|left|done].
Qed.

Lemma guarantees_takeOverFences candidate record : guarantees rely (takeOverFences others faults candidate record).
Proof. unfold takeOverFences. repeat case_match; auto with gateway. apply guarantees_readRequiredFences. Qed.

Lemma guarantees_live_policy candidate : guarantees rely (live_policy liveConfig provider candidate).
Proof. apply guarantees_bind; auto with gateway. Qed.

Lemma guarantees_budget k day max : guarantees rely (readDailySubmissionBudget others faults k day max).
Proof. apply guarantees_bind; auto with gateway. Qed.

(** ** The record this call owns *)

Context (context : ResetContext).
Local Notation key := (redemption_key context).

(** The row is open if it carries a token of this call. *)
Definition mine_open (w : W) : Prop :=
  forall r, parseCodexResetRedemptionRecord (row w key) = Some r -> Mine (rr_owner_token r) -> open_state (rr_state r).

(** The run ends calmly, with [Q] of its result and of whether the row of this
    call is still known to be open. *)
Definition ends {A} (Q : A -> Prop -> Prop) (m : M A) (w : W) : Prop :=
  triple m w (fun r w' => calm w w' /\ forall a, r = Ok a -> Q a (mine_open w')).

Lemma calm_event e w : quiet_event e -> calm w (happens e w).
Proof. apply rely_event. Qed.

Lemma mine_open_rely w w' : rely w w' -> mine_open w -> mine_open w'.
Proof.
  intros [[_ Hs] _] Ho r Hr Hm. destruct (Hs (rc_accountIdHash context) (rc_quotaGeneration context)) as [E|Hn].
  - apply Ho; [|done]. unfold redemption_key in *. by rewrite E in Hr.
  - destruct (Hn r Hr). by left.
Qed.

Lemma ends_ret {A} (Q : A -> Prop -> Prop) a w : Q a (mine_open w) -> ends Q (kv_ret a) w.
Proof. intros HQ. apply triple_ret. split; [reflexivity|]. by intros a' [= <-]. Qed.

Lemma ends_bind {A B} (QA : A -> Prop -> Prop) (Q : B -> Prop -> Prop) (m : M A) (k : A -> M B) w :
  ends QA m w -> (forall a w', calm w w' -> QA a (mine_open w') -> ends Q (k a) w') -> ends Q (kv_bind m k) w.
Proof.
  intros Hm Hk. apply triple_bind. eapply triple_mono; [exact Hm|]. intros [e|a] w1 [H1 HQ]; [by split|].
  eapply triple_mono; [by apply Hk, HQ|]. intros r w2 [H2 H]. split; [by etrans|done].
Qed.

Lemma ends_mono {A} (Q Q' : A -> Prop -> Prop) (m : M A) w : (forall a I, Q a I -> Q' a I) -> ends Q m w -> ends Q' m w.
Proof. intros HQ Hm. eapply triple_mono; [exact Hm|]. intros r w' [? H]. split; [done|]. auto. Qed.

Lemma ends_neutral {A} (m : M A) w : guarantees rely m -> ends (fun _ I => mine_open w -> I) m w.
Proof.
  intros Hm. eapply triple_mono; [apply Hm|]. intros r w' H. split; [by apply rely_calm|]. intros a _. by apply mine_open_rely.
Qed.

Lemma ends_from {A} (Q : A -> Prop -> Prop) (m : M A) w w1 :
  calm w w1 -> ends Q m w1 -> triple m w1 (fun r w' => calm w w' /\ forall a, r = Ok a -> Q a (mine_open w')).
Proof. intros H Hm. eapply triple_mono; [exact Hm|]. intros r w' [? ?]. split; [by etrans|done]. Qed.

(** The continuation of a neutral call. *)
Lemma ends_after {A B} (Q : B -> Prop -> Prop) (m : M A) (k : A -> M B) w :
  guarantees rely m -> (forall a w', rely w w' -> ends Q (k a) w') -> ends Q (kv_bind m k) w.
Proof.
  intros Hm Hk. apply triple_bind. eapply triple_mono; [apply Hm|]. intros [e|a] w1 H1; [by split; [apply rely_calm|]|].
  apply ends_from; [by apply rely_calm|auto].
Qed.

(** The continuation of a read. *)
Lemma ends_get {B} (Q : B -> Prop -> Prop) k (f : option Entry -> M B) w :
  (forall w1, rely w w1 -> ends Q (f (Some (entry_at (kv_map w1) k))) w1) -> (forall w1, rely w w1 -> ends Q (f None) w1) ->
  ends Q (kv_bind (try_get others faults k) f) w.
Proof using Hothers.
  intros Hs Hn. apply triple_bind, triple_row; intros w1 H1; apply ends_from; auto using rely_calm.
Qed.

(** A loop whose attempts keep [R] when they are tried again. *)
Lemma ends_cas_loop {A} (R : Prop -> Prop) (Q : A -> Prop -> Prop) tries (attempt : M (option A)) exhausted w :
  (forall w, R (mine_open w) -> ends (fun o I => match o with Some a => Q a I | None => R I end) attempt w) ->
  (forall I, Q exhausted I) -> R (mine_open w) -> ends Q (cas_loop tries attempt exhausted) w.
Proof.
  intros Ha He. revert w. induction tries as [|tries IH]; intros w Ho; cbn [cas_loop]; [by apply ends_ret|].
  eapply ends_bind; [by apply Ha|]. cbn. intros [a|] w1 _ H; [by apply ends_ret|auto].
Qed.

(** A record this call writes over what it read. *)
Lemma commit_own w0 w1 w2 cs ms next :
  rely w0 w1 -> kv_commit (entry_at (kv_map w0) key :: cs) (MSet key (json_redemption next) None :: ms) w1 = (true, w2) ->
  record_moves (row w0 key) (json_redemption next) -> Mine (rr_owner_token next) ->
  Forall (fun mu => mutation_key mu <> key /\ write_ok Yours w1 mu) ms ->
  calm w1 w2 /\ row w1 key = row w0 key /\ row w2 key = json_redemption next /\ (open_state (rr_state next) -> mine_open w2).
Proof using Hdisjoint.
  intros H Hc Hm Ht Hms. pose proof (re_advances _ _ (ri_evolves _ _ _ (rl_interferes _ _ _ H))) as Hadv.
  destruct (commit_checked _ _ _ _ _ w0 w1 w2 Hadv Hc) as [E1 E2]; [by eapply Forall_impl; [done|]; cbn; tauto|].
  split_and!; [|done..|].
  - eapply commit_allowed; [done|]. constructor; [|by eapply Forall_impl; [done|]; cbn; tauto]. split; [|done].
    intros a g _. rewrite E1. split; [done|]. right. intros r Hr%parse_json_redemption. subst. by apply Hdisjoint.
  - intros Ho r Hr _. rewrite E2 in Hr. by apply parse_json_redemption in Hr as ->.
Qed.

(** Such a commit, which may fail, or throw before or after it is applied. *)
Lemma own_commit_ends {A} (Q : A -> Prop -> Prop) (f : option bool -> A) cs next w0 w :
  rely w0 w -> record_moves (row w0 key) (json_redemption next) -> Mine (rr_owner_token next) ->
  (forall I : Prop, (open_state (rr_state next) -> I) -> Q (f (Some true)) I) ->
  (forall I : Prop, (mine_open w -> I) -> Q (f (Some false)) I) -> (forall I, Q (f None) I) ->
  ends Q (let! committed := try_commit others faults (entry_at (kv_map w0) key :: cs) [MSet key (json_redemption next) None] in
          kv_ret (f committed)) w.
Proof using Hdisjoint Hothers.
  intros H0 Hm Ht Htrue Hfalse Hnone. apply triple_bind, triple_try_commit.
  - intros w1 w2 H1 Hc. destruct (commit_own w0 w1 w2 cs [] next) as (H2 & _ & _ & Ho); [by etrans|done..|].
    assert (calm w w2) by (etrans; [by apply rely_calm|done]).
    split; apply triple_ret; (split; [done|]); intros a [= <-]; auto.
  - intros w1 H1. apply triple_ret. split; [by apply rely_calm|]. intros a [= <-]. apply Hfalse. by apply mine_open_rely.
  - intros w1 H1. apply triple_ret. split; [by apply rely_calm|]. intros a [= <-]. apply Hnone.
Qed.

(** ** Updates by the owner *)

(** An update keeps the owner, goes on with the redemption and does not go back
    to a claim. *)
Definition forward (mutate : CodexResetRedemptionRecord -> CodexResetRedemptionRecord) : Prop :=
  forall r, continues r (mutate r) /\ rr_owner_token (mutate r) = rr_owner_token r /\ rr_state (mutate r) <> RClaimed.

Definition updated (mutate : CodexResetRedemptionRecord -> CodexResetRedemptionRecord) (o : option CodexResetRedemptionRecord)
    (I : Prop) : Prop :=
  match o with
  | Some r => (exists current, r = mutate current) /\ Mine (rr_owner_token r) /\ (open_state (rr_state r) -> I)
  | None => True
  end.

Lemma owned_token current expected : ownedBy current context expected = true -> rr_owner_token current = rr_owner_token expected.
Proof. unfold ownedBy. intros H. by repeat (apply andb_true_iff in H as [H ?]); case_bool_decide. Qed.

Lemma update_attempt_ends expected mutate w :
  Mine (rr_owner_token expected) -> forward mutate -> mine_open w ->
  ends (fun o I => match o with Some a => updated mutate a I | None => I end) (update_attempt others faults context expected mutate) w.
Proof using Hdisjoint Hothers.
  intros Ht Hf Ho. apply ends_get; [|by intros; apply ends_ret]. intros w0 H0. pose proof (mine_open_rely _ _ H0 Ho) as Ho0.
  destruct (parseCodexResetRedemptionRecord _) as [cur|] eqn:Ep; [|by apply ends_ret].
  destruct (ownedBy cur context expected) eqn:Eo; cbn [negb]; [|by apply ends_ret].
  apply owned_token in Eo. destruct (Hf cur) as (Hcont & Hown & Hst).
  assert (Mine (rr_owner_token cur)) as Hcur by by rewrite Eo.
  apply own_commit_ends; [reflexivity| |by rewrite Hown| |auto|done].
  - by eapply record_rewritten; [|apply Ho0| |]; eauto.
  - intros I HI. cbn. rewrite Hown. eauto.
Qed.

Lemma update_ends expected mutate w :
  Mine (rr_owner_token expected) -> forward mutate -> mine_open w ->
  ends (updated mutate) (updateOwnedRecord others faults context expected mutate) w.
Proof using Hdisjoint Hothers.
  intros Ht Hf Ho. apply (ends_cas_loop (fun I => I)); [|done..]. intros w'. by apply update_attempt_ends.
Qed.

(** The updates of the code go forward. *)
Ltac forward := let r := fresh in intros r; split_and!; [constructor; cbn; auto; try lia|done..].

Lemma reject_forward nowMs code : forward (fun current => stateWith (current <| rr_last_error_code := Some code |>) RRejected nowMs).
Proof. forward. Qed.

Lemma unknown_forward nowMs code receipt : forward (fun current =>
  stateWith (current <| rr_provider_receipt_id := match receipt with Some r => Some r | None => rr_provider_receipt_id current end |>
                     <| rr_last_error_code := Some code |>) RUnknown nowMs).
Proof. forward. Qed.

Lemma receipt_forward nowMs receipt : forward (fun current =>
  stateWith (current <| rr_provider_receipt_id := receipt |>
                     <| rr_submitted_at_ms := Some (default nowMs (rr_submitted_at_ms current)) |>
                     <| rr_last_error_code := None |>) RSubmitted nowMs).
Proof. forward. by intros t ->. Qed.

Lemma verified_forward nowMs : forward (fun current =>
  stateWith (current <| rr_verified_at_ms := Some nowMs |> <| rr_last_error_code := None |>) RVerified nowMs).
Proof. forward. Qed.

(** ** Calls that end with an update *)

(** They may close the record; nothing is updated after them. *)
Definition closes {A} (m : M A) : Prop := forall w, mine_open w -> ends (fun _ _ => True) m w.

Lemma closes_ret {A} (a : A) : closes (kv_ret a).
Proof. intros w _. by apply ends_ret. Qed.

Lemma closes_after {A B} (m : M A) (k : A -> M B) : guarantees rely m -> (forall a, closes (k a)) -> closes (kv_bind m k).
Proof. intros Hm Hk w Ho. apply ends_after; [done|]. intros a w' H. by apply Hk, (mine_open_rely w). Qed.

Lemma closes_then {A B} (m : M A) (f : A -> B) : closes m -> closes (let! a := m in kv_ret (f a)).
Proof. intros Hm w Ho. eapply ends_bind; [by apply Hm|]. intros a w' _ _. by apply ends_ret. Qed.

Lemma closes_update expected mutate :
  Mine (rr_owner_token expected) -> forward mutate -> closes (updateOwnedRecord others faults context expected mutate).
Proof using Hdisjoint Hothers. intros Ht Hf w Ho. eapply ends_mono; [|by apply update_ends]. done. Qed.

Lemma closes_unknown record nowMs reason receipt :
  Mine (rr_owner_token record) -> closes (unknown_outcome others faults context record nowMs reason receipt).
Proof using Hdisjoint Hothers. intros Ht. apply closes_then, closes_update; [done|apply unknown_forward]. Qed.

Lemma closes_rejected record nowMs reason :
  Mine (rr_owner_token record) -> closes (rejected_outcome others faults context record nowMs reason).
Proof using Hdisjoint Hothers. intros Ht. apply closes_then, closes_update; [done|apply reject_forward]. Qed.

Lemma closes_verified record nowMs : Mine (rr_owner_token record) -> closes (verifiedOwned others faults context record nowMs).
Proof using Hdisjoint Hothers. intros Ht. apply closes_update; [done|apply verified_forward]. Qed.

Lemma closes_unknown_now record reason receipt :
  Mine (rr_owner_token record) -> closes (unknown_now others faults clock context record reason receipt).
Proof using Hdisjoint Hothers.
  intros Ht. apply closes_after; [auto with gateway|]. intros []; [by apply closes_unknown|apply closes_ret].
Qed.

Lemma closes_verify record : Mine (rr_owner_token record) -> closes (verifyOwned others faults clock aborted provider context record).
Proof using Hdisjoint Hothers.
  intros Ht. apply closes_after; [auto with gateway|]. intros []; [apply closes_ret|].
  apply closes_after; [auto with gateway|]. intros [result|]; [|by apply closes_unknown_now].
  apply closes_after; [auto with gateway|]. intros [now|]; [|apply closes_ret].
  destruct (is_true result); cbn [negb]; [by apply closes_then, closes_verified|by apply closes_unknown].
Qed.

(** The receipt is stored, and then the redemption verified. *)
Lemma closes_preserve record nowMs receipt (failed : CodexBankedResetOutcome) :
  Mine (rr_owner_token record) ->
  closes (let! persisted := preserveReceipt others faults context record nowMs receipt in
          match persisted with
          | None => kv_ret failed
          | Some persisted => verifyOwned others faults clock aborted provider context persisted
          end).
Proof using Hdisjoint Hothers.
  intros Ht w Ho. eapply ends_bind; [apply update_ends; [done|apply receipt_forward|done]|].
  intros [r|] w1 _; [|by intros; apply ends_ret]. intros ([cur ->] & Hr & Ho1). apply closes_verify; [done|]. by apply Ho1.
Qed.

Lemma closes_finalize record nowMs text :
  Mine (rr_owner_token record) -> closes (finalizeDocumentedRedeemOutcome others faults context record nowMs text).
Proof using Hdisjoint Hothers. intros Ht. by apply closes_then, closes_verified. Qed.

Lemma closes_reconcile record :
  Mine (rr_owner_token record) -> closes (reconcileOwned others faults clock aborted provider context record).
Proof using Hdisjoint Hothers.
  intros Ht. apply closes_after; [auto with gateway|]. intros []; [apply closes_ret|]. case_match; [apply closes_ret|].
  apply closes_after; [auto with gateway|]. intros [result|]; [|by apply closes_unknown_now].
  apply closes_after; [auto with gateway|]. intros [now|]; [|apply closes_ret].
  destruct (validRedeemResult result) as [[receipt|receipt|receipt| |receipt]|];
    [| | |by apply closes_verify|by apply closes_verify|by apply closes_unknown].
  all: destruct (receiptId receipt); [by apply closes_preserve|by apply closes_unknown].
Qed.

Lemma closes_settle record nowMs receipt :
  Mine (rr_owner_token record) -> closes (settle_receipt others faults clock aborted provider context record nowMs receipt).
Proof using Hdisjoint Hothers.
  intros Ht. unfold settle_receipt. case_match; [by apply closes_preserve|by apply closes_unknown].
Qed.
(** ** The submission *)

(** The step that submits the redemption of a quota window: it finds the window
    claimed under [t] and the account's day unused, and leaves both used. *)
Record submission (a g day t : string) (w1 w2 : W) : Prop := {
  sm_claimed : exists r, parseCodexResetRedemptionRecord (row w1 (codexResetRedemptionKey a g)) = Some r
                         /\ rr_state r = RClaimed /\ rr_owner_token r = t;
  sm_submitted : 2 <= stage (row w2 (codexResetRedemptionKey a g));
  sm_unused : daily_count day (row w1 (codexResetAccountDailyKey a day)) = Some 0;
  sm_used : daily_count day (row w2 (codexResetAccountDailyKey a day)) = Some 1 }.

(** A run from [w] that calmly ends, with [Q] of its ends. *)
Definition finds {A} (Q : W -> A -> W -> Prop) (m : M A) (w : W) : Prop :=
  triple m w (fun r w' => calm w w' /\ forall a, r = Ok a -> Q w a w').

Lemma finds_ret {A} (Q : W -> A -> W -> Prop) a w : Q w a w -> finds Q (kv_ret a) w.
Proof. intros HQ. apply triple_ret. split; [reflexivity|]. by intros a' [= <-]. Qed.

(** [Q] holds from an earlier start. *)
Definition anchored {A} (Q : W -> A -> W -> Prop) : Prop := forall w w1 a w', calm w w1 -> Q w1 a w' -> Q w a w'.

Lemma finds_earlier {A} (Q : W -> A -> W -> Prop) (m : M A) w w1 :
  anchored Q -> calm w w1 -> finds Q m w1 -> triple m w1 (fun r w' => calm w w' /\ forall a, r = Ok a -> Q w a w').
Proof. intros Ha H Hm. eapply triple_mono; [exact Hm|]. intros r w' [H' HQ]. split; [by etrans|]. eauto. Qed.

Lemma finds_after {A B} (Q : W -> B -> W -> Prop) (m : M A) (k : A -> M B) w :
  anchored Q -> guarantees rely m -> (forall a w1, rely w w1 -> finds Q (k a) w1) -> finds Q (kv_bind m k) w.
Proof.
  intros Ha Hm Hk. apply triple_bind. eapply triple_mono; [apply Hm|]. intros [e|a] w1 H1.
  - split; [by apply rely_calm|done].
  - apply finds_earlier; [done|by apply rely_calm|by apply Hk].
Qed.

(** The same, with what the call read. *)
Lemma finds_read {A B} (Q : W -> B -> W -> Prop) (R : Result string A -> W -> Prop) (m : M A) (k : A -> M B) w :
  anchored Q -> triple m w (fun r w' => rely w w' /\ R r w') ->
  (forall a w1, rely w w1 -> R (Ok a) w1 -> finds Q (k a) w1) -> finds Q (kv_bind m k) w.
Proof.
  intros Ha Hm Hk. apply triple_bind. eapply triple_mono; [exact Hm|]. intros [e|a] w1 [H1 HR].
  - split; [by apply rely_calm|done].
  - apply finds_earlier; [done|by apply rely_calm|by apply Hk].
Qed.

Lemma finds_cas_loop {A} (Q : W -> A -> W -> Prop) tries (attempt : M (option A)) exhausted w :
  anchored Q -> (forall w, finds (fun w o w' => forall a, o = Some a -> Q w a w') attempt w) -> (forall w, Q w exhausted w) ->
  finds Q (cas_loop tries attempt exhausted) w.
Proof.
  intros Hq Ha He. revert w. induction tries as [|tries IH]; intros w; cbn [cas_loop]; [by apply finds_ret|].
  apply triple_bind. eapply triple_mono; [apply Ha|]. intros [e|[a|]] w1 [H1 HQ]; [by split| |by apply finds_earlier].
  apply triple_ret. split; [done|]. intros a' [= <-]. by eapply HQ.
Qed.

(** The commit from [w1] to [w2], in a run from [w], is a submission, under the
    fences and the consent. *)
Record submitted_in (candidate : CodexBankedResetCandidate) (day t : string) (w w1 w2 : W) : Prop := {
  si_calm : calm w w1;
  si_submission : submission (rc_accountIdHash context) (rc_quotaGeneration context) day t w1 w2;
  si_fences : fences_current (cd_fences candidate) w1;
  si_consent : consents (rc_accountIdHash context) (cd_authorization candidate) w1;
  si_commit : w_trace w2 = (w_trace w1 ++ [ECommit (kv_map w1) (kv_map w2)])%list }.

Lemma submitted_earlier candidate day t w0 w w1 w2 : calm w0 w -> submitted_in candidate day t w w1 w2 -> submitted_in candidate day t w0 w1 w2.
Proof. intros H []. constructor; [by etrans|done..]. Qed.

(** A submission was made, in the last step. *)
Definition submitted_by (candidate : CodexBankedResetCandidate) (day : string) (w : W) (o : CodexResetRedemptionRecord + string) (w' : W) : Prop :=
  match o with
  | inl r => Mine (rr_owner_token r) /\ mine_open w' /\ exists w1, submitted_in candidate day (rr_owner_token r) w w1 w'
  | inr _ => True
  end.

Definition submits (candidate : CodexBankedResetCandidate) (day : string) (w : W) (o : option (CodexResetRedemptionRecord + string)) (w' : W) : Prop :=
  forall a, o = Some a -> submitted_by candidate day w a w'.

Lemma submitted_by_anchored candidate day : anchored (submitted_by candidate day).
Proof. intros w w1 [r|] w' H; [|done]. intros (A & B & w2 & C). split_and!; [done..|]. exists w2. by eapply submitted_earlier. Qed.

Lemma submits_anchored candidate day : anchored (submits candidate day).
Proof. intros w w1 o w' H HS a E. eapply submitted_by_anchored; eauto. Qed.

Local Notation dailyKey day := (codexResetAccountDailyKey (rc_accountIdHash context) day).

Lemma further_left {A} (a b : A) (l r : list A) : l ⊆ a :: b :: (l ++ r).
Proof. intros x Hx. right. right. apply elem_of_app. by left. Qed.
Lemma further_right {A} (a b : A) (l r : list A) : r ⊆ a :: b :: (l ++ r).
Proof. intros x Hx. right. right. apply elem_of_app. by right. Qed.

(** What was read and is checked holds at the commit. *)
Lemma fences_checked fences es cs ms w1 w2 :
  fences_read fences es w1 -> kv_commit cs ms w1 = (true, w2) -> es ⊆ cs -> fences_current fences w1.
Proof.
  intros Hf Hc. induction Hf as [|f e fences es (wi & Hi & He & Hcur) _ IH]; intros Hsub; [constructor|].
  constructor; [|apply IH; intros x Hx; apply Hsub; by right]. rewrite <- Hcur. f_equal. unfold row. rewrite He. f_equal.
  eapply (checked_unchanged _ _ wi w1 w2); [apply Hi|done|]. rewrite <- He. apply Hsub. left.
Qed.

Lemma consent_checked h auth es cs ms w1 w2 :
  consent_read h auth es w1 -> kv_commit cs ms w1 = (true, w2) -> es ⊆ cs -> consents h auth w1.
Proof.
  intros [?|(wi & Hi & He & Ha)] Hc Hsub; [by left|right]. rewrite <- Ha. unfold row. do 2 f_equal.
  eapply (checked_unchanged _ _ wi w1 w2); [apply Hi|done|by apply Hsub].
Qed.

(** The run ends here without a submission. *)
Ltac no_submission := by apply triple_ret; split; [reflexivity|intros ? [= <-] ? [= <-]].

Lemma submitted_continues v current nowMs expiresAtMs :
  parseCodexResetRedemptionRecord v = Some current -> rr_state current = RClaimed ->
  continues current (submitted_record current nowMs expiresAtMs).
Proof.
  intros Hp Hs. pose proof (claimed_not_submitted _ _ Hp Hs) as Hn. constructor; cbn; auto; try lia. by rewrite Hn.
Qed.

Lemma commit_submission_finds candidate current nowMs expiresAtMs day fences usage w0 wd w :
  count_ok nowMs -> rely w0 w -> rely wd w -> parseCodexResetRedemptionRecord (row w0 key) = Some current ->
  rr_state current = RClaimed -> Mine (rr_owner_token current) -> daily_count day (row wd (dailyKey day)) = Some 0 ->
  fences_read (cd_fences candidate) fences w -> consent_read (rc_accountIdHash context) (cd_authorization candidate) usage w ->
  finds (submits candidate day)
    (commit_submission others faults clock context candidate current (entry_at (kv_map w0) key) nowMs expiresAtMs day fences usage
       (entry_at (kv_map wd) (dailyKey day)) 0) w.
Proof using Hdisjoint Hothers.
  intros Hnow H0 Hd Hp Hs Ht Hc0 Hf Hu. apply triple_bind, triple_clock. intros n.
  set (wc := happens _ w). assert (rely w wc) as Hwc by by apply rely_event. clearbody wc.
  apply (finds_earlier (submits candidate day)); [apply submits_anchored|by apply rely_calm|].
  apply (fences_read_later _ _ _ _ Hwc) in Hf. apply (consent_read_later _ _ _ _ _ Hwc) in Hu.
  assert (rely w0 wc) as H0c by by etrans. assert (rely wd wc) as Hdc by by etrans. clear w Hwc H0 Hd. rename wc into w, H0c into H0, Hdc into Hd.
  destruct (readClock (clock n)) as [t|]; [|no_submission].
  destruct (quotaWindowIsOpen _ _); cbn [negb]; [|no_submission].
  destruct (claimedDuringCurrentUtcDay _ _); cbn [negb]; [|no_submission].
  apply triple_bind, triple_try_commit.
  2,3: intros w1 H1; apply triple_ret; split; [by apply rely_calm|by intros ? [= <-] ? [= <-]].
  intros w1 w2 H1 Hc. set (next := submitted_record current nowMs expiresAtMs) in *.
  assert (rely w0 w1) as H01 by by etrans. assert (rely wd w1) as Hd1 by by etrans.
  assert (row w1 (dailyKey day) = row wd (dailyKey day)) as Ed.
  { unfold row. f_equal. eapply (checked_unchanged _ _ wd w1 w2); [|done|right; left]. apply Hd1. }
  assert (daily_count day (json_daily (mkDaily day (0 + 1) nowMs)) = Some 1) as Hc1 by (apply daily_count_json; [done|done]).
  destruct (commit_own w0 w1 w2 _ _ next H01 Hc) as (H2 & E1 & E2 & Ho).
  - eapply record_rewritten; [done|by rewrite Hs|by right|by eapply submitted_continues].
  - done.
  - constructor; [|done]. split; [by apply not_eq_sym, redemption_not_daily|]. split.
    + intros a g E. by destruct (redemption_not_daily a g (rc_accountIdHash context) day).
    + intros a d E. apply daily_key_inj in E as [_ <-]. rewrite Ed. right. exists 0, 1. split_and!; [done..|lia].
  - assert (calm w w2) by (etrans; [by apply rely_calm|done]).
    split; apply triple_ret; (split; [done|]); intros ? [= <-] ? [= <-]; [|done]. cbn. split_and!; [done|by apply Ho|].
    apply (fences_read_later _ _ _ _ H1) in Hf. apply (consent_read_later _ _ _ _ _ H1) in Hu.
    exists w1. constructor; [by apply rely_calm| |apply (fences_checked _ _ _ _ _ _ Hf Hc), further_left
      |apply (consent_checked _ _ _ _ _ _ _ Hu Hc), further_right|by eapply commit_trace]. constructor.
    + exists current. unfold redemption_key in E1. by rewrite E1.
    + unfold redemption_key in E2. rewrite E2. by apply stage_json_past.
    + by rewrite Ed.
    + destruct (kv_commit_ok _ _ _ _ Hc) as (_ & _ & Hm). unfold row, entry_at. rewrite Hm. cbn. by rewrite lookup_insert_eq.
Qed.
Lemma owned_in_state current expected state r :
  isOwnedRecordInState current context expected state = Some r ->
  current = Some r /\ rr_owner_token r = rr_owner_token expected /\ rr_state r = state.
Proof.
  unfold isOwnedRecordInState. intros H. apply bind_some in H as (c & -> & H). destruct (_ && _) eqn:E; [|done].
  injection H as ->. apply andb_true_iff in E as [E%owned_token Es]. by case_bool_decide.
Qed.

Lemma budget_spec day w :
  triple (readDailySubmissionBudget others faults (dailyKey day) day 1) w (fun r w' =>
    rely w w' /\ forall e c, r = Ok (inl (e, c)) ->
      e = entry_at (kv_map w') (dailyKey day) /\ c = 0 /\ daily_count day (row w' (dailyKey day)) = Some 0).
Proof using Hothers.
  apply triple_bind, triple_row; [|by intros w1 H1; apply triple_ret; split]. intros w1 H1. apply triple_ret. split; [done|].
  intros e c [= E]. change (if is_null _ then _ else _) with (daily_count day (row w1 (dailyKey day))) in E.
  destruct (daily_count day (row w1 (dailyKey day))) as [c'|] eqn:Ec; [|done]. pose proof (daily_count_nonneg _ _ _ Ec).
  destruct (1 <=? c') eqn:El; [done|]. apply Z.leb_gt in El. injection E as <- <-. assert (c' = 0) as -> by lia. done.
Qed.

Lemma prepareSubmissionAttempt_finds candidate expected nowMs expiresAtMs day w :
  Mine (rr_owner_token expected) -> count_ok nowMs ->
  finds (submits candidate day)
    (prepareSubmissionAttempt others faults clock dateNow parseCodexAuthPool sha256Hex context candidate expected nowMs 1 expiresAtMs day) w.
Proof using Hdisjoint Hothers.
  intros Ht Hnow. pose proof (submits_anchored candidate day) as Ha.
  apply triple_bind, triple_row; [|by intros w1 H1; apply triple_ret; split; [apply rely_calm|intros ? [= <-] ? [= <-]]].
  intros w0 H0. apply (finds_earlier (submits candidate day) _ w); [done|by apply rely_calm|].
  destruct (isOwnedRecordInState _ _ _ _) as [cur|] eqn:Eo; [|no_submission]. apply owned_in_state in Eo as (Ep & Et & Es).
  destruct (claimedDuringCurrentUtcDay _ _); cbn [negb]; [|no_submission]. destruct (_ || _); [no_submission|].
  apply (finds_read (submits candidate day) _ _ _ _ Ha (required_fences_spec candidate w0)).
  intros [fences|] w1 H1 Hf; [|no_submission]. specialize (Hf _ eq_refl).
  apply (finds_read (submits candidate day) _ _ _ _ Ha (gate_spec _ _ w1)).
  intros [usage|] w2 H2 Hu; [|no_submission]. specialize (Hu _ eq_refl).
  apply triple_bind. eapply triple_mono; [apply budget_spec|]. intros [e|[[e c]|]] w3 [H3 Hb]; [by split; [apply rely_calm|]| |].
  - destruct (Hb e c eq_refl) as (-> & -> & Hc). apply (finds_earlier (submits candidate day) _ w2); [done|by apply rely_calm|].
    assert (rely w1 w3) by by etrans.
    apply commit_submission_finds; [done|by etrans|reflexivity|done|done|by rewrite Et|done|by apply (fences_read_later _ _ w1 w3)
      |by apply (consent_read_later _ _ _ w2 w3)].
  - apply triple_ret. split; [by apply rely_calm|]. by intros ? [= <-] ? [= <-].
Qed.

Lemma prepareSubmission_finds candidate expected nowMs w :
  Mine (rr_owner_token expected) -> count_ok nowMs ->
  finds (fun w o w' => forall r, o = inl r -> exists day, utcDay nowMs = Some day /\ submitted_by candidate day w o w')
    (prepareSubmission others faults clock dateNow parseCodexAuthPool sha256Hex context candidate expected nowMs 1) w.
Proof using Hdisjoint Hothers.
  intros Ht Hnow. unfold prepareSubmission.
  destruct (leaseUntil nowMs) as [e|]; [|by apply finds_ret].
  destruct (utcDay nowMs) as [day|]; [|by apply finds_ret].
  eapply triple_mono; [apply (finds_cas_loop (submitted_by candidate day)); [apply submitted_by_anchored| |done]|].
  - intros w'. by apply prepareSubmissionAttempt_finds.
  - intros r w' [H1 HQ]. split; [done|]. intros a E r' _. exists day. split; [done|]. by apply HQ.
Qed.

(** ** The renewal *)

Definition renewed (o : CodexResetRedemptionRecord + string) (I : Prop) : Prop :=
  match o with inl r => Mine (rr_owner_token r) /\ I | inr _ => True end.

Lemma renewed_continues current nowMs r : renewedLeaseRecord current nowMs = inl r ->
  continues current r /\ rr_owner_token r = rr_owner_token current /\ rr_state r = rr_state current.
Proof.
  unfold renewedLeaseRecord, nextFence. destruct (leaseUntil nowMs); [|done]. destruct (isSafeInteger _); [|done].
  intros [= <-]. split_and!; [|done..]. constructor; cbn; auto; lia.
Qed.

Lemma commit_renewal_ends candidate current fences usage w0 w :
  rely w0 w -> parseCodexResetRedemptionRecord (row w0 key) = Some current -> rr_state current = RSubmitted ->
  Mine (rr_owner_token current) -> mine_open w ->
  ends (fun o I => match o with Some a => renewed a I | None => I end)
    (commit_renewal others faults clock context candidate current (entry_at (kv_map w0) key) fences usage) w.
Proof using Hdisjoint Hothers.
  intros H0 Hp Hs Ht Ho. apply ends_after; [apply guarantees_bind; auto with gateway|]. intros [now|] w1 H1; [|by apply ends_ret].
  destruct (renewedLeaseRecord current now) as [r|] eqn:Er; [|by apply ends_ret].
  apply renewed_continues in Er as (Hc & Hown & Est).
  apply own_commit_ends; [by etrans| |by rewrite Hown| | |done].
  - eapply record_rewritten; [done|by rewrite Hs|by left|done].
  - intros I HI. cbn. rewrite Hown, Est, Hs in *. split; [done|]. by apply HI.
  - intros I HI. apply HI. by eapply mine_open_rely.
Qed.

Lemma renewSubmittedAttempt_ends candidate expected w :
  Mine (rr_owner_token expected) -> mine_open w ->
  ends (fun o I => match o with Some a => renewed a I | None => I end)
    (renewSubmittedAttempt others faults clock dateNow parseCodexAuthPool sha256Hex context candidate expected) w.
Proof using Hdisjoint Hothers.
  intros Ht Ho. apply ends_after; [auto with gateway|]. intros [now|] w1 H1; [|by apply ends_ret].
  destruct (quotaWindowIsOpen _ _); cbn [negb]; [|by apply ends_ret].
  apply ends_get; [|by intros; apply ends_ret]. intros w2 H2.
  destruct (isOwnedRecordInState _ _ _ _) as [cur|] eqn:Eo; [|by apply ends_ret]. apply owned_in_state in Eo as (Ep & Et & Es).
  destruct (_ || _); [by apply ends_ret|]. destruct (claimedDuringCurrentUtcDay _ _); cbn [negb]; [|by apply ends_ret].
  apply ends_after; [apply guarantees_readUsageGate|]. intros [usage|] w3 H3; [|by apply ends_ret].
  apply ends_after; [apply guarantees_readRequiredFences|]. intros [fences|] w4 H4; [|by apply ends_ret].
  apply commit_renewal_ends; [by etrans|done|done|by rewrite Et|].
  eapply mine_open_rely; [|done]. etrans; [done|]. etrans; [done|]. by etrans.
Qed.

Lemma renew_ends candidate expected w :
  Mine (rr_owner_token expected) -> mine_open w ->
  ends renewed (renewSubmittedForRedeem others faults clock dateNow parseCodexAuthPool sha256Hex context candidate expected) w.
Proof using Hdisjoint Hothers.
  intros Ht Ho. apply (ends_cas_loop (fun I => I)); [|done..]. intros w'. by apply renewSubmittedAttempt_ends.
Qed.
(** ** The claim *)

(** A record to work on is this call's and open; one to submit needs the
    permission for a new submission. *)
Definition claimed_ok (allow : bool) (c : ClaimResult) (I : Prop) : Prop :=
  match c with
  | ClaimSubmit r => allow = true /\ Mine (rr_owner_token r) /\ I
  | ClaimReconcile r => Mine (rr_owner_token r) /\ I
  | _ => True
  end.

Definition claim_ok (allow : bool) (o : option ClaimResult) (I : Prop) : Prop :=
  match o with Some c => claimed_ok allow c I | None => True end.

Lemma createClaim_ends candidate nowMs token allow expiresAtMs w0 w :
  rely w0 w -> Mine token -> is_null (row w0 key) = true ->
  ends (claim_ok allow)
    (createClaimRecord others faults clock context candidate nowMs token allow expiresAtMs (entry_at (kv_map w0) key)) w.
Proof using Hdisjoint Hothers.
  intros H0 Ht Hn. unfold createClaimRecord. destruct allow; [|by apply ends_ret]. cbn [negb]. destruct (negb _); [by apply ends_ret|].
  apply ends_after; [apply guarantees_readRequiredFences|]. intros [fences|] w1 H1; [|by apply ends_ret].
  apply ends_after; [auto with gateway|]. intros [now|] w2 H2; [|by apply ends_ret]. destruct (negb _); [by apply ends_ret|].
  apply own_commit_ends; [etrans; [done|]; by etrans|by apply record_created|done| |done|done].
  intros I HI. split_and!; [done..|]. by apply HI.
Qed.

Lemma commitTakeOver_ends candidate record nowMs token allow expiresAtMs fences w0 w :
  rely w0 w -> Mine token -> parseCodexResetRedemptionRecord (row w0 key) = Some record -> open_state (rr_state record) ->
  (rr_state record = RClaimed -> allow = true) ->
  ends (claim_ok allow)
    (commitTakeOver others faults clock context candidate record nowMs token expiresAtMs fences (entry_at (kv_map w0) key)) w.
Proof using Hdisjoint Hothers.
  intros H0 Ht Hp Hopen Hallow. apply ends_after; [auto with gateway|]. intros [now|] w1 H1; [|by apply ends_ret].
  destruct (_ && _); [by apply ends_ret|]. unfold nextFence. destruct (isSafeInteger _); [|by apply ends_ret].
  apply own_commit_ends; [by etrans| |done| |done|done].
  - eapply record_rewritten; [done|done|by left|]. constructor; cbn; auto; lia.
  - intros I HI. cbn. case_bool_decide; split_and!; try done; try by apply HI. by apply Hallow.
Qed.

Lemma disposition_open record candidate nowMs allow :
  existingRecordDisposition record context candidate nowMs allow = None ->
  open_state (rr_state record) /\ (rr_state record = RClaimed -> allow = true).
Proof.
  unfold existingRecordDisposition. destruct (negb (matchesContext _ _)); [done|]. case_bool_decide; [done|]. case_bool_decide; [done|].
  case_match; [done|]. intros Hd. split; [done|]. intros Hs. rewrite bool_decide_true in Hd by done. by destruct allow.
Qed.

Lemma claimAttempt_ends candidate nowMs token allow expiresAtMs w :
  Mine token -> ends (claim_ok allow) (claimAttempt others faults clock context candidate nowMs token allow expiresAtMs) w.
Proof using Hdisjoint Hothers.
  intros Ht. apply ends_get; [|by intros; apply ends_ret]. intros w1 H1. destruct (is_null _) eqn:En.
  - by apply createClaim_ends.
  - destruct (parseCodexResetRedemptionRecord _) as [record|] eqn:Ep; [|by apply ends_ret].
    destruct (existingRecordDisposition _ _ _ _ _) as [d|] eqn:Ed.
    + apply ends_ret. revert Ed. unfold existingRecordDisposition. repeat case_match; by intros [= <-].
    + apply disposition_open in Ed as [Hopen Hallow]. apply ends_after; [apply guarantees_takeOverFences|].
      intros [fences|] w2 H2; [|by apply ends_ret]. by apply commitTakeOver_ends.
Qed.

Lemma claimTransaction_ends candidate nowMs token allow w :
  Mine token -> ends (claimed_ok allow) (claimTransaction others faults clock context candidate nowMs token allow) w.
Proof using Hdisjoint Hothers.
  intros Ht. unfold claimTransaction. destruct (leaseUntil nowMs) as [e|]; [|by apply ends_ret].
  apply (ends_cas_loop (fun _ => True)); [|done..]. intros w' _. by apply claimAttempt_ends.
Qed.

(** ** Before the submission *)

Lemma ends_closed {A B} (Q : B -> Prop -> Prop) (m : M A) (f : A -> B) w :
  closes m -> mine_open w -> (forall a I, Q (f a) I) -> ends Q (let! a := m in kv_ret (f a)) w.
Proof. intros Hm Ho HQ. eapply ends_bind; [by apply Hm|]. intros a w' _ _. by apply ends_ret. Qed.

Lemma window_ends record candidate nowMs w :
  Mine (rr_owner_token record) -> mine_open w ->
  ends (fun o I => match o with None => I | Some _ => True end) (rejectIfClaimWindowClosed others faults context record candidate nowMs) w.
Proof using Hdisjoint Hothers.
  intros Ht Ho. unfold rejectIfClaimWindowClosed. destruct (negb _); [apply ends_closed; [by apply closes_rejected|done..]|].
  destruct (negb _); [apply ends_closed; [by apply closes_rejected|done..]|by apply ends_ret].
Qed.

(** The continuation of a call that keeps the record open. *)
Lemma finds_then {A B} (QA : A -> Prop -> Prop) (Q : W -> B -> W -> Prop) (m : M A) (k : A -> M B) w :
  anchored Q -> ends QA m w -> (forall a w1, calm w w1 -> QA a (mine_open w1) -> finds Q (k a) w1) -> finds Q (kv_bind m k) w.
Proof.
  intros Ha Hm Hk. apply triple_bind. eapply triple_mono; [exact Hm|]. intros [e|a] w1 [H1 HQ]; [by split|].
  apply finds_earlier; [done..|]. by apply Hk, HQ.
Qed.

(** A stop with an outcome, after an update that may close the record. *)
Lemma finds_stop {A} (Q : W -> A + CodexBankedResetOutcome -> W -> Prop) (m : M CodexBankedResetOutcome) w :
  (forall w o w', Q w (inr o) w') -> closes m -> mine_open w -> finds Q (let! o := m in kv_ret (inr o)) w.
Proof.
  intros HQ Hm Ho. eapply triple_mono; [apply (ends_closed (fun o _ => match o with inl _ => False | inr _ => True end)); done|].
  intros r w' [H HR]. split; [done|]. intros a Ha. specialize (HR a Ha). by destruct a.
Qed.

(** A result at a time the call read from the clock, with the record open. *)
Definition timed {A} (now : A -> Z) (w : W) (o : A + CodexBankedResetOutcome) (w' : W) : Prop :=
  match o with inl a => mine_open w' /\ saw (EClock (Some (now a))) w w' | inr _ => True end.

Lemma timed_anchored {A} (now : A -> Z) : anchored (timed now).
Proof. intros w w1 [a|] w' H; [|done]. intros [Ho Hs]. split; [done|]. eapply saw_earlier; [apply H|done]. Qed.

(** Reading the clock, and going on at that time. *)
Lemma finds_clock {A} (now : A -> Z) (k : option Z -> M (A + CodexBankedResetOutcome)) w :
  mine_open w ->
  (forall t w1, mine_open w1 -> ends (fun o I => match o with inl a => now a = t /\ I | inr _ => True end) (k (Some t)) w1) ->
  (forall w1, ends (fun o I => match o with inl _ => False | inr _ => True end) (k None) w1) ->
  finds (timed now) (kv_bind (read_clock clock) k) w.
Proof.
  intros Ho Hs Hn. apply triple_bind, triple_clock. intros n. set (wc := happens _ w).
  assert (calm w wc) as Hwc by by apply calm_event. destruct (readClock (clock n)) as [t|] eqn:Et.
  - eapply triple_mono; [by apply Hs|]. intros r w' [H HQ]. split; [by etrans|]. intros [a|o] Er; [|done].
    destruct (HQ _ Er) as [<- Ho']. split; [done|]. eapply saw_later; [apply saw_event|apply H].
  - eapply triple_mono; [by apply Hn|]. intros r w' [H HQ]. split; [by etrans|]. intros [a|o] Er; [by specialize (HQ _ Er)|done].
Qed.

Lemma preflight_finds record candidate w :
  Mine (rr_owner_token record) -> mine_open w ->
  finds (timed id) (submissionPreflight others faults clock aborted liveConfig provider context record candidate) w.
Proof using Hdisjoint Hothers.
  intros Ht Ho. apply finds_after; [apply timed_anchored|apply guarantees_live_policy|]. intros [config|] w1 H1; [|by apply finds_ret].
  apply finds_clock; [by eapply mine_open_rely| |by intros; apply ends_ret]. intros now w2 Ho2. cbv iota.
  eapply ends_bind; [by apply window_ends|]. intros [closed|] w3 _ Ho3; [by apply ends_ret|].
  apply ends_after; [auto with gateway|]. intros [] w4 H4; apply (mine_open_rely _ _ H4) in Ho3; [|by apply ends_ret].
  apply ends_closed; [by apply closes_rejected|done..].
Qed.

(** The credit a candidate comes with, if any. *)
Definition is_selected (candidate : CodexBankedResetCandidate) (credit : ResetInventoryCredit) : Prop :=
  forall c, cd_selectedCredit candidate = Some c -> credit = c.

Lemma inventory_finds record candidate w :
  Mine (rr_owner_token record) -> mine_open w ->
  finds (timed snd) (resolveInventoryCredit others faults clock localeCompare provider context record candidate) w.
Proof using Hdisjoint Hothers.
  intros Ht Ho. apply finds_after; [apply timed_anchored|auto with gateway|]. intros inventory w1 H1.
  apply finds_clock; [by eapply mine_open_rely| |by intros; apply ends_ret]. intros now w2 Ho2. cbv iota.
  destruct inventory as [inventory|]; [|apply ends_closed; [by apply closes_rejected|done..]].
  eapply ends_bind; [by apply window_ends|]. intros [closed|] w3 _ Ho3; [by apply ends_ret|].
  destruct (validInventory _ _) as [inv|]; [|apply ends_closed; [by apply closes_rejected|done..]].
  destruct (selectInventoryCredit _ _ _ _); [by apply ends_ret|apply ends_closed; [by apply closes_rejected|done..]..].
Qed.

(** A credit the code may spend, at the time it was given or one it read. *)
Definition usable (candidate : CodexBankedResetCandidate) (before : Z) (w : W)
    (o : (ResetInventoryCredit * Z) + CodexBankedResetOutcome) (w' : W) : Prop :=
  match o with
  | inl (credit, nowMs) =>
      isUsableSelectedCredit credit provider nowMs = true /\ is_selected candidate credit /\ mine_open w'
      /\ (nowMs = before \/ saw (EClock (Some nowMs)) w w')
  | inr _ => True
  end.

Lemma usable_anchored candidate before : anchored (usable candidate before).
Proof.
  intros w w1 [[c now]|] w' H; [|done]. intros (A & B & C & D). split_and!; [done..|].
  destruct D as [?|D]; [by left|right]. eapply saw_earlier; [apply H|done].
Qed.

(** The last checks of a credit. *)
Lemma credit_finds record candidate credit now w :
  Mine (rr_owner_token record) -> mine_open w -> is_selected candidate credit ->
  finds (usable candidate now)
    (if negb (isUsableSelectedCredit credit provider now) then
       let! rejected := rejected_outcome others faults context record now "selected_credit_invalid_or_expired" in kv_ret (inr rejected)
     else
       let! closed := rejectIfClaimWindowClosed others faults context record candidate now in
       kv_ret (match closed with Some closed => inr closed | None => inl (credit, now) end)) w.
Proof using Hdisjoint Hothers.
  intros Ht Ho Hc. destruct (isUsableSelectedCredit credit provider now) eqn:Eu; cbn [negb].
  - eapply finds_then; [apply usable_anchored|by apply window_ends|]. intros [closed|] w2 _ Ho2; apply finds_ret; [done|].
    split_and!; [done..|by left].
  - apply finds_stop; [done|by apply closes_rejected|done].
Qed.

Lemma selected_finds record candidate nowMs w :
  Mine (rr_owner_token record) -> mine_open w ->
  finds (usable candidate nowMs) (resolveSelectedCredit others faults clock localeCompare provider context record candidate nowMs) w.
Proof using Hdisjoint Hothers.
  intros Ht Ho. unfold resolveSelectedCredit. destruct (cd_selectedCredit candidate) as [c|] eqn:Ec.
  - apply triple_bind, triple_ret. apply credit_finds; [done..|]. intros c' E. rewrite E in Ec. by injection Ec as ->.
  - apply triple_bind. eapply triple_mono; [by apply inventory_finds|]. intros [e|[[credit now]|o]] w1 [H1 Hq]; [done| |].
    2:{ apply triple_ret. split; [done|]. by intros ? [= <-]. }
    destruct (Hq _ eq_refl) as [Ho1 Hsaw]. eapply triple_mono; [apply credit_finds; [done|done|]|].
    { intros c' E. by rewrite E in Ec. }
    intros r w' [H2 HU]. split; [by etrans|]. intros [[credit' now']|o] Er; [|done]. destruct (HU _ Er) as (A & B & C & D).
    split_and!; [done..|]. right. destruct D as [->|D]; [eapply saw_later; [exact Hsaw|apply H2]|eapply saw_earlier; [apply H1|done]].
Qed.

(** Every live configuration allows one submission of an account a day. *)
Lemma live_max config manual c : loadLiveSubmissionConfig config provider manual = inl c -> bc_maxPerAccountPerDay c = 1.
Proof.
  unfold loadLiveSubmissionConfig, providerPolicyReason. destruct config as [config|]; [|done].
  destruct (policyReason config manual); [done|]. destruct manual; cbn [negb andb orb].
  - destruct (bc_maxPerAccountPerDay config =? 1) eqn:E; [|by destruct (providerTreatsRedeemOutcomeAsFinal provider)].
    intros [= <-]. by apply Z.eqb_eq in E.
  - destruct (bool_decide (bc_mode config = ModeLive)); cbn [negb]; [|done].
    destruct (bc_maxPerAccountPerDay config =? 1) eqn:E; [|by destruct (providerTreatsRedeemOutcomeAsFinal provider)].
    intros [= <-]. by apply Z.eqb_eq in E.
Qed.

Lemma readClock_ok value t : readClock value = Some t -> count_ok t.
Proof. unfold readClock. intros H. apply bind_some in H as (n & _ & H). by eapply count_Some. Qed.

(** A submission was made, on the day of a time the call read before it. *)
Definition prepared (candidate : CodexBankedResetCandidate) (w : W) (o : CodexResetRedemptionRecord + CodexBankedResetOutcome) (w' : W) : Prop :=
  match o with
  | inl r => Mine (rr_owner_token r) /\ mine_open w'
             /\ exists day at_ w1, submitted_in candidate day (rr_owner_token r) w w1 w' /\ utcDay at_ = Some day
                                   /\ saw (EClock (Some at_)) w w1
  | inr _ => True
  end.

Lemma prepared_anchored candidate : anchored (prepared candidate).
Proof.
  intros w w1 [r|] w' H; [|done]. intros (A & B & day & at_ & w2 & C & D & E). split_and!; [done..|].
  exists day, at_, w2. split_and!; [by eapply submitted_earlier|done|]. eapply saw_earlier; [apply H|done].
Qed.

Lemma prepareLive_finds record candidate nowMs w :
  Mine (rr_owner_token record) -> mine_open w ->
  finds (prepared candidate) (prepareLiveSubmission others faults clock dateNow aborted liveConfig parseCodexAuthPool sha256Hex provider context
                    record candidate nowMs) w.
Proof using Hdisjoint Hothers.
  intros Ht Ho. apply triple_bind, triple_bind, triple_config. intros n. apply triple_ret.
  set (w0 := happens _ w). assert (calm w w0) as Hw0 by by apply calm_event. assert (mine_open w0) as Ho0 by exact Ho.
  apply (finds_earlier (prepared candidate)); [apply prepared_anchored|done|]. clearbody w0. clear w Ho Hw0.
  destruct (loadLiveSubmissionConfig _ _ _) as [config|] eqn:Ec; [|by apply (finds_ret (prepared candidate))]. apply live_max in Ec.
  apply triple_bind, triple_observe. intros n1. destruct (aborted n1); [by apply finds_stop; [|apply closes_rejected|]|].
  apply triple_bind, triple_clock. intros n2. set (wc := happens _ w0). assert (calm w0 wc) as Hwc by by apply calm_event.
  assert (mine_open wc) as Hoc by exact Ho0. pose proof (saw_event (EClock (readClock (clock n2))) w0) as Hsaw. fold wc in Hsaw.
  clearbody wc. destruct (readClock (clock n2)) as [now|] eqn:En; [|by apply triple_ret; split; [|intros ? [= <-]]].
  apply triple_bind. eapply triple_mono; [by apply window_ends|]. intros [e|closed] w1 [H1 Ho1]; [by split; [etrans|]|].
  specialize (Ho1 _ eq_refl). assert (calm w0 w1) as H01 by by etrans.
  destruct closed as [closed|]; [by apply triple_ret; split; [|intros ? [= <-]]|]. rewrite Ec. apply triple_bind.
  eapply triple_mono; [apply prepareSubmission_finds; [done|by eapply readClock_ok]|].
  intros [e|o] w2 [H2 HQ]; [by split; [etrans|]|]. apply triple_ret. split; [by etrans|]. intros a [= <-]. specialize (HQ _ eq_refl).
  destruct o as [r|code]; [|done]. destruct (HQ r eq_refl) as (day & Hday & Hm & Ho2 & wx & Hx). split_and!; [done..|].
  exists day, now, wx. split_and!; [by eapply submitted_earlier|done|].
  eapply saw_later; [exact Hsaw|]. etrans; [apply H1|]. apply Hx.
Qed.

(** ** The redemption *)

Definition redemption (credit : ResetInventoryCredit) : RedeemResetInput :=
  mkRedeemInput (rc_accountId context) (rc_accountIdHash context) (rc_quotaGeneration context) (rc_idempotencyKey context) (ic_id credit).

(** Nothing but quiet events happened, or the redemption among them. *)
Definition redeems (input : RedeemResetInput) (w w' : W) : Prop :=
  exists w1, calm w w1 /\ silent (happens (ERedeem input) w1) w'.

Definition quiet_or_redeems (credit : ResetInventoryCredit) (w w' : W) : Prop :=
  reset_interferes Yours w w' /\ (silent w w' \/ redeems (redemption credit) w w').

Lemma calm_quiet credit w w' : calm w w' -> quiet_or_redeems credit w w'.
Proof. intros [H1 H2]. split; [done|by left]. Qed.

Lemma quiet_earlier credit w w1 w' : calm w w1 -> quiet_or_redeems credit w1 w' -> quiet_or_redeems credit w w'.
Proof.
  intros H [Hi HR]. split; [etrans; [apply H|done]|]. destruct HR as [HR|(w2 & H2 & HR)]; [left; etrans; [apply H|done]|right].
  exists w2. split; [by etrans|done].
Qed.

Lemma closes_quiet (m : M CodexBankedResetOutcome) credit w :
  closes m -> mine_open w -> triple m w (fun _ w' => quiet_or_redeems credit w w').
Proof. intros Hm Ho. eapply triple_mono; [by apply Hm|]. intros r w' [H _]. by apply calm_quiet. Qed.

Lemma redeem_spec record credit w :
  Mine (rr_owner_token record) -> mine_open w ->
  triple (redeemSubmittedOwned others faults clock aborted provider context record credit) w (fun _ w' => quiet_or_redeems credit w w').
Proof using Hdisjoint Hothers.
  intros Ht Ho. apply triple_bind, triple_call_redeem. intros n w1 H1. fold (redemption credit) in H1.
  assert (mine_open (happens (ERedeem (redemption credit)) w)) as Ho' by exact Ho.
  apply (mine_open_rely _ _ H1) in Ho'. apply rely_calm in H1.
  eapply (triple_mono _ _ (fun _ w' => calm w1 w')).
  2: { intros r w' H2. assert (calm (happens (ERedeem (redemption credit)) w) w') as [Hi Hs] by by etrans.
       split; [etrans; [apply interferes_trace|exact Hi]|]. right. exists w. split; [reflexivity|done]. }
  assert (forall m : M CodexBankedResetOutcome, closes m -> triple m w1 (fun _ w' => calm w1 w')) as Hend.
  { intros m Hm. eapply triple_mono; [by apply Hm|]. by intros r w' [H _]. }
  apply Hend. destruct (pv_redeem provider n) as [result|]; [|by apply closes_unknown_now].
  apply closes_after; [auto with gateway|]. intros [now|]; [|apply closes_ret].
  destruct (validRedeemResult result) as [[receipt|receipt|receipt| |receipt]|].
  all: try (destruct (providerTreatsRedeemOutcomeAsFinal provider)).
  all: auto using closes_unknown, closes_rejected, closes_finalize, closes_settle.
Qed.

(** The continuation of a neutral call. *)
Lemma quiet_after {A B} credit (m : M A) (k : A -> M B) w :
  guarantees rely m -> mine_open w ->
  (forall a w1, mine_open w1 -> triple (k a) w1 (fun _ w' => quiet_or_redeems credit w1 w')) ->
  triple (kv_bind m k) w (fun _ w' => quiet_or_redeems credit w w').
Proof.
  intros Hm Ho Hk. apply triple_bind. eapply triple_mono; [apply Hm|]. intros [e|a] w1 H1; [by apply calm_quiet, rely_calm|].
  eapply triple_mono; [by apply Hk, (mine_open_rely w)|]. intros r w'. by apply quiet_earlier, rely_calm.
Qed.

Lemma renewAndRedeem_spec candidate credit record w :
  Mine (rr_owner_token record) -> mine_open w ->
  triple (renewAndRedeem others faults clock dateNow aborted liveConfig parseCodexAuthPool sha256Hex provider context candidate credit record)
    w (fun _ w' => quiet_or_redeems credit w w').
Proof using Hdisjoint Hothers.
  intros Ht Ho. apply quiet_after; [apply guarantees_live_policy|done|]. clear w Ho. intros [policy|reason] w Ho; [|by apply triple_ret, calm_quiet].
  apply quiet_after; [auto with gateway|done|]. clear w Ho. intros [] w Ho; [by apply closes_quiet; [apply closes_unknown_now|]|].
  apply triple_bind. eapply triple_mono; [by apply renew_ends|]. intros [e|o] w1 [H1 Ho1]; [by apply calm_quiet|].
  specialize (Ho1 _ eq_refl). destruct o as [renewed|]; [|by apply triple_ret, calm_quiet]. destruct Ho1 as [Hr Ho1].
  eapply (triple_mono _ _ (fun _ w' => quiet_or_redeems credit w1 w')); [|intros r w'; by apply quiet_earlier]. clear w Ho H1.
  apply quiet_after; [apply guarantees_live_policy|done|]. clear w1 Ho1. intros [policy2|reason] w Ho; [|by apply triple_ret, calm_quiet].
  apply quiet_after; [auto with gateway|done|]. clear w Ho. intros [] w Ho; [by apply closes_quiet; [apply closes_unknown_now|]|].
  apply quiet_after; [apply guarantees_bind; auto with gateway|done|]. clear w Ho. intros [gate|] w Ho; [by apply triple_ret, calm_quiet|].
  by apply redeem_spec.
Qed.

(** ** An attempt *)

(** A credit was redeemed, after this call submitted the window: the commit of
    the submission, from [w1] to [w2], and the redemption are its own.  It found
    the credit usable at the time [nowMs] it read, and used the day of the time
    [at_] it read after that. *)
Record spent (candidate : CodexBankedResetCandidate) (credit : ResetInventoryCredit) (nowMs at_ : Z) (day t : string) (w w1 w2 w' : W) : Prop := {
  so_usable : isUsableSelectedCredit credit provider nowMs = true;
  so_selected : is_selected candidate credit;
  so_mine : Mine t;
  so_submitted : submitted_in candidate day t w w1 w2;
  so_day : utcDay at_ = Some day;
  so_clock : in_turn (EClock (Some nowMs)) (EClock (Some at_)) w w1;
  so_redeemed : redeems (redemption credit) w2 w';
  so_later : reset_interferes Yours w2 w' }.

Definition at_most_once (candidate : CodexBankedResetCandidate) (w w' : W) : Prop :=
  reset_interferes Yours w w'
  /\ (silent w w' \/ exists credit nowMs at_ day t w1 w2, spent candidate credit nowMs at_ day t w w1 w2 w').

Lemma calm_once candidate w w' : calm w w' -> at_most_once candidate w w'.
Proof. intros [H1 H2]. split; [done|by left]. Qed.

Lemma spent_from candidate credit nowMs at_ day t w0 w w1 w2 w' :
  calm w0 w -> spent candidate credit nowMs at_ day t w w1 w2 w' -> spent candidate credit nowMs at_ day t w0 w1 w2 w'.
Proof.
  intros H []. constructor; try done; [by eapply submitted_earlier|eapply in_turn_earlier; [apply H|done]].
Qed.

Lemma once_earlier candidate w w1 w' : calm w w1 -> at_most_once candidate w1 w' -> at_most_once candidate w w'.
Proof.
  intros H [H2 HR]. split; [etrans; [apply H|done]|]. destruct HR as [HR|(credit & nowMs & at_ & day & t & wa & wb & HR)].
  - left. etrans; [apply H|done].
  - right. exists credit, nowMs, at_, day, t, wa, wb. by eapply spent_from.
Qed.

Lemma submitClaimed_spec record candidate w :
  Mine (rr_owner_token record) -> mine_open w ->
  triple (submitClaimed others faults clock dateNow aborted liveConfig parseCodexAuthPool sha256Hex localeCompare provider context record
            candidate) w (fun _ w' => at_most_once candidate w w').
Proof using Hdisjoint Hothers.
  intros Ht Ho. apply triple_bind. eapply triple_mono; [by apply preflight_finds|]. intros [e|[now|]] w1 [H1 Q1];
    [by apply calm_once| |by apply triple_ret, calm_once]. destruct (Q1 _ eq_refl) as [Ho1 Hsaw1].
  apply triple_bind. eapply triple_mono; [by apply selected_finds|]. intros [e|[[credit now']|]] w2 [H2 Q2];
    [by apply calm_once; etrans| |by apply triple_ret, calm_once; etrans]. destruct (Q2 _ eq_refl) as (Hu & Hsel & Ho2 & Hnow).
  assert (calm w w2) as H02 by by etrans. assert (saw (EClock (Some now')) w w2) as Hsaw2.
  { destruct Hnow as [->|Hnow]; [eapply saw_later; [exact Hsaw1|apply H2]|eapply saw_earlier; [apply H1|done]]. }
  apply triple_bind. eapply triple_mono; [by apply prepareLive_finds|].
  intros [e|[prepared|]] w3 [H3 Q3]; [by apply calm_once; etrans| |by apply triple_ret, calm_once; etrans].
  destruct (Q3 _ eq_refl) as (Hm & Ho3 & day & at_ & wc & Hs & Hday & Hat).
  eapply triple_mono; [by apply renewAndRedeem_spec|]. intros r w' [H4 HR]. assert (calm w w3) as H03 by by etrans.
  split; [etrans; [apply H03|done]|]. destruct HR as [HR|HR]; [left; etrans; [apply H03|done]|right].
  exists credit, now', at_, day, (rr_owner_token prepared), wc, w3. constructor; try done.
  - by apply (submitted_earlier _ _ _ _ w2).
  - by eapply saw_in_turn.
Qed.

Lemma handleClaim_spec candidate allow claimed w :
  claimed_ok allow claimed (mine_open w) ->
  triple (handleClaimResult others faults clock dateNow aborted liveConfig parseCodexAuthPool sha256Hex localeCompare provider context
            candidate claimed) w (fun _ w' => at_most_once candidate w w' /\ (allow = false -> calm w w')).
Proof using Hdisjoint Hothers.
  intros Hc. destruct claimed; cbn [handleClaimResult]; try (by apply triple_ret; split; [apply calm_once|]).
  - destruct Hc as (-> & Ht & Ho). eapply triple_mono; [by apply submitClaimed_spec|]. done.
  - destruct Hc as [Ht Ho]. eapply triple_mono; [by apply closes_reconcile|]. intros r w' [H _]. split; [by apply calm_once|done].
Qed.
End guarantee.
