(* ===== verification/BankedResetAlone.v ===== *)
(** * A call for a banked reset that runs alone

    When no other call runs and nothing fails, a call for a fresh quota window
    redeems its credit, once, and leaves the record verified.  The clock moves
    between its readings, by less than the half minute of a lease. *)

From Stdlib Require Import ZArith Lia.
From stdpp Require Import base gmap strings list pretty.
From S2P Require Import Prelude Js KvStore KvLogic KernelStore HttpDate ApiKeyUsage ApiKeyStore ApiKeyRows BankedReset BankedResetStore BankedResetRows BankedResetLogic BankedResetGuarantee.
Open Scope string_scope.
Open Scope Z_scope.
Open Scope kv_scope.

(** ** A record that reads back *)

#[local] Arguments isNonEmptyText : simpl never.
#[local] Arguments isState : simpl never.
#[local] Arguments nullable : simpl never.
#[local] Arguments redemptionRecordTimestampsAreOrdered : simpl never.
#[local] Arguments redemptionRecordStateIsConsistent : simpl never.

Record redemption_wf (r : CodexResetRedemptionRecord) : Prop := {
  wf_account : nonEmptyText 512 (rr_account_id_hash r) = true;
  wf_credential : nonEmptyText 512 (rr_credential_version r) = true;
  wf_generation : nonEmptyText 512 (rr_quota_generation r) = true;
  wf_idempotency : nonEmptyText 512 (rr_idempotency_key_hash r) = true;
  wf_owner : nonEmptyText 512 (rr_owner_token r) = true;
  wf_routing : count_ok (rr_routing_generation r);
  wf_fence : count_ok (rr_fence r);
  wf_lease : count_ok (rr_lease_expires_at_ms r);
  wf_created : count_ok (rr_created_at_ms r);
  wf_updated : count_ok (rr_updated_at_ms r);
  wf_receipt : optional (fun s => nonEmptyText 512 s = true) (rr_provider_receipt_id r);
  wf_submitted : optional count_ok (rr_submitted_at_ms r);
  wf_verified : optional count_ok (rr_verified_at_ms r);
  wf_error : optional (fun s => nonEmptyText 128 s = true) (rr_last_error_code r);
  wf_ordered : redemptionRecordTimestampsAreOrdered r = true;
  wf_consistent : redemptionRecordStateIsConsistent r = true }.

Lemma text_json max s : nonEmptyText max s = true -> isNonEmptyText max (JStr s) = Some s.
Proof. intros H. by apply isNonEmptyText_Some. Qed.

Lemma redemption_reads_back r : redemption_wf r -> parseCodexResetRedemptionRecord (json_redemption r) = Some r.
Proof.
  intros []. unfold parseCodexResetRedemptionRecord, json_redemption. cbn.
  repeat (first [rewrite text_json by done | rewrite isState_text | rewrite (proj2 (count_jint _)) by done]; cbn).
  rewrite (nullable_json (isNonEmptyText 512) JStr) by (try done; intros ? E; rewrite E in *; by apply text_json). cbn.
  rewrite (nullable_json nonNegativeSafeInteger jint) by (try done; intros ? E; rewrite E in *; by apply count_jint). cbn.
  rewrite (nullable_json nonNegativeSafeInteger jint) by (try done; intros ? E; rewrite E in *; by apply count_jint). cbn.
  rewrite (nullable_json (isNonEmptyText 128) JStr) by (try done; intros ? E; rewrite E in *; by apply text_json). cbn.
  destruct r. cbn in *. by rewrite wf_ordered0, wf_consistent0.
Qed.

(** A context has texts a record can carry. *)
Lemma context_texts hash candidate context :
  makeResetContext hash candidate = Some context ->
  nonEmptyText 512 (rc_accountIdHash context) = true /\ nonEmptyText 512 (rc_credentialVersion context) = true
  /\ nonEmptyText 512 (rc_quotaGeneration context) = true /\ nonEmptyText 512 (rc_idempotencyKeyHash context) = true
  /\ count_ok (cd_routingGeneration candidate).
Proof.
  unfold makeResetContext. intros Hc. destruct (_ || _) eqn:E1 in Hc; [done|]. repeat (apply bind_some in Hc as (? & _ & Hc)).
  destruct (_ || _) eqn:E2 in Hc; [done|]. injection Hc as <-. rewrite !orb_false_iff, !negb_false_iff in E1, E2.
  destruct E1 as [[[_ _] _] Hr], E2 as [[[? ?] ?] ?]. apply andb_true_iff in Hr as [Hr1 Hr2]. apply isSafeInteger_spec in Hr1.
  apply Z.leb_le in Hr2. split_and!; try done. unfold count_ok, MAX_SAFE_INTEGER in *. lia.
Qed.

(** A completed redemption has a receipt. *)
Lemma receipt_known v receipt :
  validRedeemResult v = Some (RedeemCompleted receipt) \/ validRedeemResult v = Some (RedeemAlready receipt) ->
  exists id, receiptId receipt = Some id.
Proof.
  unfold validRedeemResult. destruct (negb _); [naive_solver|]. destruct (prop v "kind"); try naive_solver.
  destruct (receiptId (prop v "providerReceiptId")) as [id|] eqn:E; cbn [is_none]; repeat case_match; intros [H'|H']; try done;
    injection H' as <-; eauto.
Qed.

Lemma durable_text provider receipt : optional (fun s => nonEmptyText 512 s = true) (durableReceiptId provider receipt).
Proof.
  unfold durableReceiptId, receiptId. case_match; [|done]. destruct (isNonEmptyText 512 receipt) eqn:E; [|done].
  by apply isNonEmptyText_Some in E as [].
Qed.

(** ** Running alone *)

Definition healthy : nat -> Fault := fun _ => Healthy.

Section steps.
Context {S : Type} `{Kv : !KvStoreOf jsval S}.
Local Notation W := (World S).
Local Notation M := (KvM (World S)).

(** The clock is followed from the [start]-th step on. *)
Context (clock : nat -> option number) (start : nat).

(** The same store, and the same redemptions. *)
Definition same (w w' : W) : Prop := w_store w' = w_store w /\ w_redeemed w' = w_redeemed w.

Lemma same_event e (w w' : W) : quiet_event e -> same w w' -> same w (happens e w').
Proof.
  intros He [E1 E2]. split; [done|]. rewrite <- E2. apply silent_redeemed. by apply silent_event.
Qed.

(** No reading of the clock from the [n]-th step on is before [lo]. *)
Definition not_before (lo : Z) (n : nat) : Prop := forall i t, (n <= i)%nat -> readClock (clock i) = Some t -> lo <= t.

(** The call ends in [Q] from every world like [w], when the clock is not before
    [lo]. *)
Definition alone {A} (m : M A) (lo : Z) (w : W) (Q : Result string A -> W -> Prop) : Prop :=
  forall n w0, (start <= n)%nat -> not_before lo n -> same w w0 -> let '(r, (_, w')) := m (n, w0) in Q r w'.

(** The call gives [a] and changes nothing. *)
Definition gives {A} (m : M A) (w : W) (a : A) : Prop :=
  forall n w0, same w w0 -> let '(r, (n', w')) := m (n, w0) in r = Ok a /\ same w w' /\ (n <= n')%nat.

Lemma gives_ret {A} (a : A) w : gives (kv_ret a) w a.
Proof. intros n w0 H. cbn. auto. Qed.

Lemma gives_bind {A B} (m : M A) (k : A -> M B) w a b : gives m w a -> gives (k a) w b -> gives (kv_bind m k) w b.
Proof.
  intros Hm Hk n w0 H. specialize (Hm n w0 H). unfold kv_bind. destruct (m (n, w0)) as [r [n1 w1]]. destruct Hm as (-> & H1 & Hn).
  specialize (Hk n1 w1 H1). destruct (k a (n1, w1)) as [r2 [n2 w2]]. destruct Hk as (-> & H2 & Hn2). split_and!; [done..|lia].
Qed.

Lemma gives_catch {A} (m : M A) h w a : gives m w a -> gives (kv_catch m h) w a.
Proof.
  intros Hm n w0 H. specialize (Hm n w0 H). unfold kv_catch. destruct (m (n, w0)) as [r [n1 w1]]. by destruct Hm as (-> & H1 & Hn).
Qed.

Lemma gives_observe {A} (f : nat -> A) w a : (forall n, f n = a) -> gives (observe f) w a.
Proof. intros Hf n w0 H. cbn. rewrite Hf. auto. Qed.

Lemma gives_await {A} (f : nat -> A) w a : (forall n, f n = a) -> gives (await_call quiet f) w a.
Proof. intros Hf n w0 H. cbn. rewrite Hf. auto. Qed.

Lemma gives_config liveConfig w a : (forall n, liveConfig n = a) -> gives (read_config liveConfig) w a.
Proof. intros Hf n w0 H. cbn. rewrite Hf. split_and!; [done|by apply same_event|lia]. Qed.

Lemma gives_get k w : gives (try_get quiet healthy k) w (Some (entry_at (kv_map w) k)).
Proof.
  intros n w0 H. unfold try_get, healthy, get, quiet. rewrite kv_get_spec. cbn. split_and!; [|by apply same_event|lia].
  destruct H as [-> _]. done.
Qed.

Lemma alone_ret {A} (a : A) lo w (Q : Result string A -> W -> Prop) : (forall w', same w w' -> Q (Ok a) w') -> alone (kv_ret a) lo w Q.
Proof. intros H n w0 _ _ Hs. by apply H. Qed.

Lemma alone_bind {A B} (m : M A) (k : A -> M B) lo w a (Q : Result string B -> W -> Prop) :
  gives m w a -> alone (k a) lo w Q -> alone (kv_bind m k) lo w Q.
Proof.
  intros Hm Hk n w0 Hn Hlo Hs. specialize (Hm n w0 Hs). unfold kv_bind. destruct (m (n, w0)) as [r [n1 w1]].
  destruct Hm as (-> & H1 & Hn1). apply Hk; [lia| |done]. intros i t Hi. apply Hlo. lia.
Qed.

Lemma alone_step {A B} (a : A) (k : A -> M B) lo w (Q : Result string B -> W -> Prop) : alone (k a) lo w Q -> alone (kv_bind (kv_ret a) k) lo w Q.
Proof. apply alone_bind, gives_ret. Qed.

(** What follows a sequence of calls follows its last one. *)
Lemma alone_assoc {A B C} (m : M A) (k : A -> M B) (k' : B -> M C) lo w (Q : Result string C -> W -> Prop) :
  alone (kv_bind m (fun a => kv_bind (k a) k')) lo w Q -> alone (kv_bind (kv_bind m k) k') lo w Q.
Proof.
  intros H n w0 Hn Hlo Hs. specialize (H n w0 Hn Hlo Hs). unfold kv_bind in *. by destruct (m (n, w0)) as [[] ?].
Qed.

(** An entry as it is now. *)
Definition current (w : W) (e : Entry) : Prop := exists k, e = entry_at (kv_map w) k.

Lemma commit_same cs ms (w w0 w' : W) :
  same w w0 -> kv_commit cs ms w0 = (true, w') -> exists w1, kv_commit cs ms w = (true, w1) /\ same w1 w'.
Proof.
  intros [E1 E2] Hc. pose proof (commit_redeemed _ _ _ _ Hc) as Er. cbn in Hc |- *. rewrite E1 in Hc.
  destruct (kv_commit cs ms (w_store w)) as [[] s] eqn:Es; [|done]. injection Hc as <-. eexists. split; [done|]. split; [done|].
  rewrite Er, E2. symmetry. apply (commit_redeemed cs ms). cbn. by rewrite Es.
Qed.

Lemma alone_commit {B} cs ms (k : option bool -> M B) lo w (Q : Result string B -> W -> Prop) :
  Forall (current w) cs -> (forall w', kv_commit cs ms w = (true, w') -> alone (k (Some true)) lo w' Q) ->
  alone (kv_bind (try_commit quiet healthy cs ms) k) lo w Q.
Proof.
  intros Hcs Hk n w0 Hn Hlo Hs. unfold kv_bind, try_commit, healthy.
  assert (checks_hold (kv_map w0) cs = true) as Hch.
  { change (kv_map w0) with (kv_map (w_store w0)). rewrite (proj1 Hs). by apply checks_current. }
  destruct (commit_quiet cs ms n w0 Hch) as (w' & -> & Hc & _). destruct (commit_same _ _ _ _ _ Hs Hc) as (w1 & Hc1 & Hs1).
  apply (Hk w1 Hc1); [lia| |done]. intros i t Hi. apply Hlo. lia.
Qed.

(** Nothing changed but the rows of [ks]. *)
Definition only (ks : list KvKey) (w w' : W) : Prop := forall k, k ∉ ks -> row w' k = row w k.

Lemma commit_only cs ms (w w' : W) : kv_commit cs ms w = (true, w') -> only (mutation_key <$> ms) w w'.
Proof.
  intros Hc k Hk. destruct (commit_rows _ _ _ _ k Hc) as [E|(mu & Hmu & <- & _)]; [done|]. destruct Hk. by apply list_elem_of_fmap_2.
Qed.

Lemma committed_one cs k v e (w w' : W) : kv_commit cs [MSet k v e] w = (true, w') -> row w' k = v.
Proof. intros Hc. destruct (kv_commit_ok _ _ _ _ Hc) as (_ & _ & Hm). unfold row, entry_at. rewrite Hm. cbn. by rewrite lookup_insert_eq. Qed.

Lemma same_row (w w' : W) k : same w w' -> row w' k = row w k.
Proof. intros [E _]. unfold row. cbn. by rewrite E. Qed.

(** ** The settings and the fences *)

Context (dateNow : nat -> Z) (parseCodexAuthPool : jsval -> Result string (option (list string))) (sha256Hex : string -> string).

(** The migration is done, and the account's resets are not disabled. *)
Definition usage_enabled (h : string) (w : W) : Prop :=
  is_null (row w CODEX_RESET_USAGE_MIGRATION_KEY) = false /\ usage_allows (row w (codexResetUsageKey h)) = true.

Lemma gives_get_or_throw k w : gives (get_or_throw quiet healthy k) w (entry_at (kv_map w) k).
Proof. eapply gives_bind; [apply gives_get|apply gives_ret]. Qed.

Lemma gives_usage h w : usage_enabled h w ->
  gives (readCodexResetUsage quiet healthy dateNow parseCodexAuthPool sha256Hex h) w (true, [entry_at (kv_map w) (codexResetUsageKey h)]).
Proof.
  intros [Hm Hu]. eapply gives_bind.
  - eapply gives_bind; [apply gives_get_or_throw|]. unfold row in Hm. rewrite Hm. apply gives_ret.
  - eapply gives_bind; [apply gives_ret|]. eapply gives_bind; [apply gives_get_or_throw|]. unfold usage_allows, row in Hu. cbn beta zeta.
    rewrite Hu. apply gives_ret.
Qed.

Lemma gives_gate h auth w : auth = Some h \/ usage_enabled h w ->
  exists es, gives (readUsageGate quiet healthy dateNow parseCodexAuthPool sha256Hex h auth) w (inl es) /\ Forall (current w) es.
Proof.
  intros H. unfold readUsageGate. case_bool_decide; [exists []; split; [apply gives_ret|done]|].
  destruct H as [?|H]; [done|]. exists [entry_at (kv_map w) (codexResetUsageKey h)]. split; [|by repeat constructor; eexists].
  eapply (gives_bind _ _ _ (Some (true, [entry_at (kv_map w) (codexResetUsageKey h)]))); [|apply gives_ret].
  by apply gives_catch; eapply gives_bind; [apply gives_usage|apply gives_ret].
Qed.

Lemma gives_fences candidate w : cd_fences candidate <> [] -> fences_current (cd_fences candidate) w ->
  exists es, gives (readRequiredFences quiet healthy candidate) w (inl es) /\ Forall (current w) es.
Proof.
  intros Hne Hf. assert (exists es, gives (read_fences quiet healthy (cd_fences candidate)) w (FencesValid es) /\ Forall (current w) es) as (es & He & Hc).
  { clear Hne. induction Hf as [|f fs Hf _ IH]; [exists []; split; [apply gives_ret|done]|]. destruct IH as (es & He & Hc).
    exists (entry_at (kv_map w) (fc_key f) :: es). split; [|constructor; [by eexists|done]].
    eapply gives_bind; [apply gives_get|]. cbv beta iota. unfold row in Hf. rewrite Hf. eapply gives_bind; [exact He|apply gives_ret]. }
  exists es. split; [|done]. eapply (gives_bind _ _ _ (FencesValid es)); [|apply gives_ret]. unfold readCurrentFences. by destruct (cd_fences candidate).
Qed.

(** ** An update by the owner *)

Lemma alone_update {B} context expected current mutate (k : option CodexResetRedemptionRecord -> M B) lo w (Q : Result string B -> W -> Prop) :
  parseCodexResetRedemptionRecord (row w (redemption_key context)) = Some current -> ownedBy current context expected = true ->
  (forall w', only [redemption_key context] w w' -> w_redeemed w' = w_redeemed w ->
     row w' (redemption_key context) = json_redemption (mutate current) -> alone (k (Some (mutate current))) lo w' Q) ->
  alone (kv_bind (updateOwnedRecord quiet healthy context expected mutate) k) lo w Q.
Proof.
  intros Hp Ho Hk. unfold updateOwnedRecord, MAX_CAS_ATTEMPTS. cbn [cas_loop]. apply alone_assoc. unfold update_attempt. apply alone_assoc.
  eapply alone_bind; [apply gives_get|]. cbv beta iota. unfold row in Hp. rewrite Hp, Ho. cbn [negb]. apply alone_assoc.
  apply alone_commit; [by repeat constructor; eexists|]. intros w' Hc. do 2 apply alone_step.
  apply Hk; [by apply commit_only in Hc|by eapply commit_redeemed|by eapply committed_one].
Qed.
End steps.

(** ** The favourable case *)

Section alone.
Context {S : Type} `{Kv : !KvStoreOf jsval S}.
Local Notation W := (World S).
Local Notation M := (KvM (World S)).
Context (clock : nat -> option number) (dateNow : nat -> Z) (aborted : nat -> bool) (liveConfig : nat -> option CodexBankedResetConfig)
  (newOwnerToken : nat -> option string) (kvOpens : nat -> bool)
  (parseCodexAuthPool : jsval -> Result string (option (list string))) (sha256Hex : string -> string)
  (hash : string -> option string) (localeCompare : string -> string -> Z) (provider : CodexUsageResetProvider).
Context (candidate : CodexBankedResetCandidate) (context : ResetContext) (credit : ResetInventoryCredit) (start : nat) (begun : Z)
  (token day : string) (config : CodexBankedResetConfig).
Local Notation key := (redemption_key context).
Local Notation dailyKey := (codexResetAccountDailyKey (rc_accountIdHash context) day).

(** The half minute from [begun] on. *)
Definition in_time (t : Z) : Prop := begun <= t < begun + 30000.

(** The credit is the candidate's, or the one the inventory offers at any time. *)
Definition offered : Prop :=
  cd_selectedCredit candidate = Some credit
  \/ cd_selectedCredit candidate = None
     /\ forall n t, in_time t -> exists v i, pv_readInventory provider n = Some v /\ validInventory v t = Some i
                              /\ selectInventoryCredit localeCompare i provider t = CreditSelected credit.

(** The provider's answer settles the redemption: by its contract, or by a
    verification that confirms it. *)
Definition settles (result : jsval) : Prop :=
  exists receipt,
    (validRedeemResult result = Some (RedeemCompleted receipt) \/ validRedeemResult result = Some (RedeemAlready receipt))
    /\ (providerTreatsRedeemOutcomeAsFinal provider = true \/ forall n, pv_verifyApplied provider n = Some (JBool true)).

Record favourable_call : Prop := {
  fv_context : makeResetContext hash candidate = Some context;
  fv_opens n : kvOpens n = true;
  fv_clock i : (start <= i)%nat -> exists t, readClock (clock i) = Some t /\ in_time t;
  fv_order i j t u : (start <= i <= j)%nat -> readClock (clock i) = Some t -> readClock (clock j) = Some u -> t <= u;
  fv_safe : begun + 60000 <= MAX_SAFE_INTEGER;
  fv_day t : in_time t -> utcDay t = Some day;
  fv_window : begun + 30000 <= cd_quotaResetAtMs candidate;
  fv_running n : aborted n = false;
  fv_config n : liveConfig n = Some config;
  fv_live : loadLiveSubmissionConfig (Some config) provider (manual candidate) = inl config;
  fv_token n : newOwnerToken n = Some token;
  fv_token_text : nonEmptyText 256 token = true;
  fv_support : providerSupportsLiveRedemption provider = true;
  fv_offered : offered;
  fv_usable t : in_time t -> isUsableSelectedCredit credit provider t = true;
  fv_fences : cd_fences candidate <> [];
  fv_fence_keys : Forall (fun f => fc_key f ∉ [key; dailyKey]) (cd_fences candidate);
  fv_answer n : exists result, pv_redeem provider n = Some result /\ settles result }.

(** The fences hold, and the account's resets are authorised or not disabled. *)
Definition ambient (w : W) : Prop :=
  fences_current (cd_fences candidate) w
  /\ (cd_authorization candidate = Some (rc_accountIdHash context) \/ usage_enabled (rc_accountIdHash context) w).

Record favourable_store (w : W) : Prop := {
  fs_fresh : is_null (row w key) = true;
  fs_budget : daily_count day (row w dailyKey) = Some 0;
  fs_ambient : ambient w }.

Context (Hcall : favourable_call).
Local Notation alone := (alone (S := S) clock start).

Lemma settings_outside k : k = CODEX_RESET_USAGE_MIGRATION_KEY \/ (exists h, k = codexResetUsageKey h) -> k ∉ [key; dailyKey].
Proof.
  intros Hk H. apply list_elem_of_In in H. unfold redemption_key, codexResetRedemptionKey, codexResetAccountDailyKey in H.
  destruct Hk as [->|[h ->]], H as [H|[H|[]]]; discriminate H.
Qed.

Lemma daily_outside : dailyKey ∉ [key].
Proof. intros H. apply list_elem_of_In in H as [H|[]]. by apply redemption_not_daily in H. Qed.

Lemma ambient_only w w' : only [key; dailyKey] w w' -> ambient w -> ambient w'.
Proof.
  intros Ho [Hf Hu]. split.
  - unfold fences_current in *. pose proof (fv_fence_keys Hcall) as Hk. rewrite !Forall_forall in *. intros f Hin. rewrite Ho by auto. auto.
  - destruct Hu as [?|[Hm Hu]]; [by left|right]. unfold usage_enabled.
    rewrite !Ho; [done|apply settings_outside; eauto..].
Qed.

(** *** Times *)

Lemma alone_clock {B} (k : option Z -> M B) lo w (Q : Result string B -> W -> Prop) :
  (forall t, in_time t -> lo <= t -> alone (k (Some t)) t w Q) -> alone (kv_bind (read_clock clock) k) lo w Q.
Proof using Hcall.
  intros Hk n w0 Hn Hlo Hs. unfold kv_bind, read_clock. destruct (fv_clock Hcall n Hn) as (t & Et & Ht). rewrite Et.
  apply (Hk t Ht); [by eapply Hlo|lia| |by apply same_event]. intros i u Hi Eu. apply (fv_order Hcall n i); [lia|done..].
Qed.

Lemma in_time_ok t : in_time t -> count_ok t.
Proof using Hcall.
  intros [H1 H2]. destruct (fv_clock Hcall start ltac:(lia)) as (u & [Hu _]%readClock_ok & H). pose proof (fv_safe Hcall).
  pose proof (fv_day Hcall begun) as Hd. unfold utcDay, isSafeMs in Hd.
  destruct (isSafeInteger begun && (0 <=? begun)) eqn:E; [|discriminate Hd; unfold in_time; lia].
  apply andb_true_iff in E as [_ E%Z.leb_le]. unfold count_ok, MAX_SAFE_INTEGER in *. lia.
Qed.

Lemma lease_at t : in_time t -> leaseUntil t = Some (t + 30000).
Proof using Hcall.
  intros Ht. pose proof (in_time_ok t Ht) as [H0 _]. pose proof (fv_safe Hcall). destruct Ht. unfold leaseUntil, isSafeMs.
  change CODEX_BANKED_RESET_LEASE_MS with 30000. rewrite (proj2 (isSafeInteger_spec _)).
  - by rewrite (proj2 (Z.leb_le _ _)) by lia.
  - unfold MAX_SAFE_INTEGER in *. lia.
Qed.

Lemma lease_ok_at t : in_time t -> count_ok (t + 30000).
Proof using Hcall.
  intros Ht. pose proof (in_time_ok t Ht) as [H0 _]. pose proof (fv_safe Hcall). destruct Ht. unfold count_ok, MAX_SAFE_INTEGER in *. lia.
Qed.

(** A lease taken in the half minute outlasts it. *)
Lemma lease_runs t u : in_time t -> in_time u -> (t + 30000 <=? u) = false.
Proof. unfold in_time. intros. apply Z.leb_gt. lia. Qed.

Lemma window_open t : in_time t -> quotaWindowIsOpen candidate t = true.
Proof using Hcall. intros [_ H]. pose proof (fv_window Hcall). apply Z.ltb_lt. lia. Qed.

Lemma claimed_today r t u : in_time t -> in_time u -> rr_created_at_ms r = u -> claimedDuringCurrentUtcDay r t = true.
Proof using Hcall.
  intros Ht Hu E. unfold claimedDuringCurrentUtcDay. rewrite E, !(fv_day Hcall) by done. by rewrite bool_decide_true.
Qed.

(** ** The records of the call *)

Definition created (t0 : Z) : CodexResetRedemptionRecord := created_record context candidate t0 token (t0 + 30000).
Definition submitted (t0 t1 : Z) : CodexResetRedemptionRecord := submitted_record (created t0) t1 (t1 + 30000).
Definition renewed_once (t0 t1 t2 : Z) : CodexResetRedemptionRecord :=
  submitted t0 t1 <| rr_fence := 2 |> <| rr_lease_expires_at_ms := t2 + 30000 |> <| rr_updated_at_ms := t2 |>.

Lemma created_wf t0 : in_time t0 -> redemption_wf (created t0).
Proof using Hcall.
  intros H0. pose proof (in_time_ok t0 H0) as Hnow. pose proof (lease_ok_at t0 H0). pose proof (fv_token_text Hcall) as Ht.
  destruct (context_texts _ _ _ (fv_context Hcall)) as (? & ? & ? & ? & ?). constructor; cbn; try done.
  - unfold nonEmptyText in *. apply andb_true_iff in Ht as [-> Ht]. apply Z.leb_le in Ht. apply Z.leb_le. lia.
  - unfold redemptionRecordTimestampsAreOrdered. cbn. by rewrite Z.leb_refl.
Qed.

(** The times of the call's records. *)
Lemma times_ordered r t0 t1 t2 : rr_created_at_ms r = t0 -> rr_submitted_at_ms r = Some t1 -> rr_updated_at_ms r = t2 ->
  t0 <= t1 <= t2 -> rr_verified_at_ms r = None \/ rr_verified_at_ms r = Some t2 -> redemptionRecordTimestampsAreOrdered r = true.
Proof.
  unfold redemptionRecordTimestampsAreOrdered. intros -> -> -> [H1 H2] [->| ->]; cbn; rewrite ?andb_true_iff, ?Z.leb_le; lia.
Qed.

Lemma submitted_wf t0 t1 : in_time t0 -> in_time t1 -> t0 <= t1 -> redemption_wf (submitted t0 t1).
Proof using Hcall.
  intros H0 H1 Hle. pose proof (in_time_ok t1 H1). pose proof (lease_ok_at t1 H1). destruct (created_wf t0 H0).
  constructor; cbn in *; try done. apply (times_ordered _ t0 t1 t1); auto; lia.
Qed.

Lemma renewed_wf t0 t1 t2 : in_time t0 -> in_time t1 -> in_time t2 -> t0 <= t1 -> t1 <= t2 -> redemption_wf (renewed_once t0 t1 t2).
Proof using Hcall.
  intros H0 H1 H2 Hle Hle2. pose proof (in_time_ok t2 H2). pose proof (lease_ok_at t2 H2). destruct (submitted_wf t0 t1 H0 H1 Hle).
  constructor; cbn in *; try done. apply (times_ordered _ t0 t1 t2); auto.
Qed.

Lemma verified_wf r t0 t1 t : in_time t -> redemption_wf r -> rr_created_at_ms r = t0 -> rr_submitted_at_ms r = Some t1 -> t0 <= t1 <= t ->
  redemption_wf (stateWith (r <| rr_verified_at_ms := Some t |> <| rr_last_error_code := None |>) RVerified t).
Proof using Hcall.
  intros Ht [] E1 E2 Hle. pose proof (in_time_ok t Ht). constructor; cbn in *; try done; [apply (times_ordered _ t0 t1 t); cbn; auto|].
  unfold redemptionRecordStateIsConsistent. cbn. by rewrite E2.
Qed.

Lemma owned_self r : rr_account_id_hash r = rc_accountIdHash context -> rr_credential_version r = rc_credentialVersion context ->
  rr_quota_generation r = rc_quotaGeneration context -> rr_idempotency_key_hash r = rc_idempotencyKeyHash context ->
  ownedBy r context r = true.
Proof. intros E1 E2 E3 E4. unfold ownedBy, matchesContext. rewrite E1, E2, E3, E4, !bool_decide_true by done. by rewrite Z.eqb_refl. Qed.

(** ** The claim *)

Lemma alone_claim {B} (k : ClaimResult -> M B) t0 w (Q : Result string B -> W -> Prop) :
  in_time t0 -> favourable_store w ->
  (forall w' t, in_time t -> t0 <= t -> only [key] w w' -> w_redeemed w' = w_redeemed w -> row w' key = json_redemption (created t0) ->
     alone (k (ClaimSubmit (created t0))) t w' Q) ->
  alone (kv_bind (claimTransaction quiet healthy clock context candidate t0 token true) k) t0 w Q.
Proof using Hcall.
  intros H0 [Hfresh _ [Hf _]] Hk. unfold claimTransaction, MAX_CAS_ATTEMPTS. rewrite lease_at by done. cbn [cas_loop].
  apply alone_assoc. unfold claimAttempt. apply alone_assoc. eapply alone_bind; [apply gives_get|]. cbv beta iota. unfold row in Hfresh.
  rewrite Hfresh. unfold createClaimRecord. rewrite window_open by done. cbn [negb]. apply alone_assoc.
  destruct (gives_fences candidate w (fv_fences Hcall) Hf) as (es & He & Hes). eapply alone_bind; [exact He|]. cbv beta iota zeta.
  apply alone_assoc, alone_clock. intros t Ht Hle. cbv beta iota. rewrite window_open by done. cbn [negb]. apply alone_assoc.
  apply alone_commit; [constructor; [by eexists|done]|]. intros w' Hc. do 2 apply alone_step.
  apply Hk; [done|done|by apply commit_only in Hc|by eapply commit_redeemed|by eapply committed_one].
Qed.

(** ** Before the submission *)

Lemma gives_policy (w : W) : gives (live_policy liveConfig provider candidate) w (inl config).
Proof using Hcall.
  eapply gives_bind; [apply gives_config, (fv_config Hcall)|]. cbv beta. rewrite (fv_live Hcall). apply gives_ret.
Qed.

Lemma gives_running (w : W) : gives (observe aborted) w false.
Proof using Hcall. apply gives_observe, (fv_running Hcall). Qed.

Lemma gives_open_window r t t0 (w : W) : in_time t -> in_time t0 -> rr_created_at_ms r = t0 ->
  gives (rejectIfClaimWindowClosed quiet healthy context r candidate t) w None.
Proof using Hcall.
  intros Ht H0 Hr. unfold rejectIfClaimWindowClosed. rewrite (claimed_today r t t0), window_open by done. apply gives_ret.
Qed.

Lemma alone_preflight {B} (k : Z + CodexBankedResetOutcome -> M B) t0 lo w (Q : Result string B -> W -> Prop) :
  in_time t0 -> (forall t, in_time t -> lo <= t -> alone (k (inl t)) t w Q) ->
  alone (kv_bind (submissionPreflight quiet healthy clock aborted liveConfig provider context (created t0) candidate) k) lo w Q.
Proof using Hcall.
  intros H0 Hk. unfold submissionPreflight. apply alone_assoc. eapply alone_bind; [apply gives_policy|]. cbv beta iota.
  apply alone_assoc, alone_clock. intros t Ht Hle. cbv beta iota. apply alone_assoc.
  eapply alone_bind; [by apply (gives_open_window _ _ t0)|]. cbv beta iota. apply alone_assoc.
  eapply alone_bind; [apply gives_running|]. cbv beta iota. apply alone_step. by apply Hk.
Qed.

Lemma alone_inventory {B} (k : option jsval -> M B) lo w (Q : Result string B -> W -> Prop) :
  (forall n, alone (k (pv_readInventory provider n)) lo w Q) -> alone (kv_bind (read_inventory quiet None provider) k) lo w Q.
Proof.
  intros Hk n w0 Hn Hlo Hs. unfold kv_bind, read_inventory, quiet. apply Hk; [lia| |by apply same_event]. intros i t Hi. apply Hlo. lia.
Qed.

(** The last checks of the credit. *)
Lemma gives_checked t0 t (w : W) : in_time t0 -> in_time t ->
  gives (if negb (isUsableSelectedCredit credit provider t) then
           let! rejected := rejected_outcome quiet healthy context (created t0) t "selected_credit_invalid_or_expired" in kv_ret (inr rejected)
         else
           let! closed := rejectIfClaimWindowClosed quiet healthy context (created t0) candidate t in
           kv_ret (match closed with Some closed => inr closed | None => inl (credit, t) end)) w (inl (credit, t)).
Proof using Hcall.
  intros H0 Ht. rewrite (fv_usable Hcall) by done. cbn [negb]. eapply gives_bind; [by apply (gives_open_window _ _ t0)|apply gives_ret].
Qed.

Lemma alone_credit {B} (k : (ResetInventoryCredit * Z) + CodexBankedResetOutcome -> M B) t0 tb w (Q : Result string B -> W -> Prop) :
  in_time t0 -> in_time tb -> (forall t, in_time t -> tb <= t -> alone (k (inl (credit, t))) t w Q) ->
  alone (kv_bind (resolveSelectedCredit quiet healthy clock localeCompare provider context (created t0) candidate tb) k) tb w Q.
Proof using Hcall.
  intros H0 Htb Hk. unfold resolveSelectedCredit. apply alone_assoc. destruct (fv_offered Hcall) as [->|[-> Hi]].
  - apply alone_step. cbv beta iota. eapply alone_bind; [by apply gives_checked|]. by apply Hk; [|lia].
  - unfold resolveInventoryCredit. apply alone_assoc, alone_inventory. intros n.
    apply alone_assoc, alone_clock. intros t Ht Hle. cbv beta iota.
    destruct (Hi n t Ht) as (v & i & -> & Hv & Hsel). cbv beta iota. apply alone_assoc.
    eapply alone_bind; [by apply (gives_open_window _ _ t0)|]. cbv beta iota. rewrite Hv, Hsel. cbv beta iota. apply alone_step. cbv beta iota.
    eapply alone_bind; [by apply gives_checked|]. by apply Hk.
Qed.

(** ** The submission *)

Lemma only_weaken ks ks' (w w' : W) : ks ⊆ ks' -> only ks w w' -> only ks' w w'.
Proof. intros Hs Ho k Hk. apply Ho. set_solver. Qed.

Lemma config_max : bc_maxPerAccountPerDay config = 1.
Proof using Hcall. eapply live_max, (fv_live Hcall). Qed.

Lemma alone_prepare {B} (k : CodexResetRedemptionRecord + CodexBankedResetOutcome -> M B) t0 ta w (Q : Result string B -> W -> Prop) :
  in_time t0 -> t0 <= ta -> row w key = json_redemption (created t0) -> ambient w -> daily_count day (row w dailyKey) = Some 0 ->
  (forall w' t1 t, in_time t1 -> t0 <= t1 -> in_time t -> t1 <= t -> only [key; dailyKey] w w' -> w_redeemed w' = w_redeemed w ->
     row w' key = json_redemption (submitted t0 t1) -> daily_count day (row w' dailyKey) = Some 1 ->
     alone (k (inl (submitted t0 t1))) t w' Q) ->
  alone (kv_bind (prepareLiveSubmission quiet healthy clock dateNow aborted liveConfig parseCodexAuthPool sha256Hex provider context (created t0)
                     candidate ta) k) ta w Q.
Proof using Hcall.
  intros H0 H0a Hrow [Hf Hu] Hb Hk. unfold prepareLiveSubmission. apply alone_assoc. eapply alone_bind; [apply gives_policy|]. cbv beta iota.
  apply alone_assoc. eapply alone_bind; [apply gives_running|]. cbv beta iota. apply alone_assoc, alone_clock. intros t1 H1 Hle1. cbv beta iota.
  apply alone_assoc. eapply alone_bind; [by apply (gives_open_window _ _ t0)|]. cbv beta iota. rewrite config_max. apply alone_assoc.
  unfold prepareSubmission, MAX_CAS_ATTEMPTS. rewrite lease_at, (fv_day Hcall) by done. cbn [cas_loop].
  apply alone_assoc. unfold prepareSubmissionAttempt. apply alone_assoc.
  eapply alone_bind; [apply gives_get|]. cbv beta iota. unfold row in Hrow. rewrite Hrow, redemption_reads_back by by apply created_wf.
  unfold isOwnedRecordInState. cbn [mbind option_bind]. rewrite owned_self, bool_decide_true by done. cbn [andb].
  rewrite (claimed_today _ t1 t0) by done. cbn [negb created created_record rr_routing_generation rr_lease_expires_at_ms].
  rewrite Z.eqb_refl, lease_runs by done. cbn [negb orb]. apply alone_assoc.
  destruct (gives_fences candidate w (fv_fences Hcall) Hf) as (es & He & Hes). eapply alone_bind; [exact He|]. cbv beta iota. apply alone_assoc.
  destruct (gives_gate dateNow parseCodexAuthPool sha256Hex _ _ w Hu) as (us & Hg & Hus). eapply alone_bind; [exact Hg|]. cbv beta iota.
  apply alone_assoc. eapply (alone_bind _ _ _ _ _ _ (inl (entry_at (kv_map w) dailyKey, 0))).
  { eapply gives_bind; [apply gives_get|]. cbv beta iota zeta. unfold daily_count, row in Hb. rewrite Hb. apply gives_ret. }
  cbv beta iota. unfold commit_submission. apply alone_assoc, alone_clock. intros t Ht Hle. cbv beta iota.
  rewrite window_open, (claimed_today _ t t0) by done. cbn [negb]. cbv zeta. apply alone_assoc. apply alone_commit.
  { constructor; [by eexists|]. constructor; [by eexists|]. by apply Forall_app. }
  intros w' Hc. do 3 apply alone_step. apply Hk; [done|lia|done|done|by apply commit_only in Hc|by eapply commit_redeemed|..].
  - destruct (kv_commit_ok _ _ _ _ Hc) as (_ & _ & Hm). unfold row, entry_at. rewrite Hm. cbn.
    by rewrite lookup_insert_ne, lookup_insert_eq by done.
  - destruct (kv_commit_ok _ _ _ _ Hc) as (_ & _ & Hm). unfold row, entry_at. rewrite Hm. cbn. rewrite lookup_insert_eq.
    apply daily_count_json; [done|by apply in_time_ok].
Qed.

(** ** The renewal *)

Lemma alone_renew {B} (k : CodexResetRedemptionRecord + string -> M B) t0 t1 lo w (Q : Result string B -> W -> Prop) :
  in_time t0 -> in_time t1 -> t0 <= t1 -> t1 <= lo -> row w key = json_redemption (submitted t0 t1) -> ambient w ->
  (forall w' t2, in_time t2 -> t1 <= t2 -> only [key] w w' -> w_redeemed w' = w_redeemed w ->
     row w' key = json_redemption (renewed_once t0 t1 t2) -> alone (k (inl (renewed_once t0 t1 t2))) t2 w' Q) ->
  alone (kv_bind (renewSubmittedForRedeem quiet healthy clock dateNow parseCodexAuthPool sha256Hex context candidate (submitted t0 t1)) k) lo w Q.
Proof using Hcall.
  intros H0 H1 H01 H1l Hrow [Hf Hu] Hk. unfold renewSubmittedForRedeem, MAX_CAS_ATTEMPTS. cbn [cas_loop]. apply alone_assoc.
  unfold renewSubmittedAttempt. apply alone_assoc, alone_clock. intros t Ht Hle. cbv beta iota. rewrite window_open by done. cbn [negb].
  apply alone_assoc. eapply alone_bind; [apply gives_get|]. cbv beta iota. unfold row in Hrow.
  rewrite Hrow, redemption_reads_back by by apply submitted_wf.
  unfold isOwnedRecordInState. cbn [mbind option_bind]. rewrite owned_self, bool_decide_true by done. cbn [andb].
  change (rr_routing_generation (submitted t0 t1)) with (cd_routingGeneration candidate).
  change (rr_lease_expires_at_ms (submitted t0 t1)) with (t1 + 30000).
  rewrite Z.eqb_refl, lease_runs, (claimed_today _ t t0) by done. cbn [negb orb]. apply alone_assoc.
  destruct (gives_gate dateNow parseCodexAuthPool sha256Hex _ _ w Hu) as (us & Hg & Hus). eapply alone_bind; [exact Hg|]. cbv beta iota.
  apply alone_assoc. destruct (gives_fences candidate w (fv_fences Hcall) Hf) as (es & He & Hes). eapply alone_bind; [exact He|]. cbv beta iota.
  unfold commit_renewal. apply alone_assoc. unfold renewalCommitGate. apply alone_assoc, alone_clock. intros t2 H2 Hle2. cbv beta iota.
  rewrite window_open, (claimed_today _ t2 t0) by done. cbn [negb].
  change (rr_lease_expires_at_ms (submitted t0 t1)) with (t1 + 30000). rewrite lease_runs by done. apply alone_step. cbv beta iota.
  unfold renewedLeaseRecord. rewrite lease_at by done. change (nextFence (rr_fence (submitted t0 t1))) with (Some 2). cbv iota. apply alone_assoc.
  apply alone_commit; [constructor; [by eexists|by apply Forall_app]|]. intros w' Hc. do 2 apply alone_step.
  apply Hk; [done|lia|by apply commit_only in Hc|by eapply commit_redeemed|by eapply committed_one].
Qed.

(** ** The redemption *)

(** The redemption is verified, and the window's credit was asked for once. *)
Definition redeemed_once (w : W) (r : Result string CodexBankedResetOutcome) (w' : W) : Prop :=
  (exists o, r = Ok o /\ oc_kind o = OVerified)
  /\ w_redeemed w' = (w_redeemed w ++ [redemption context credit])%list
  /\ (exists record, parseCodexResetRedemptionRecord (row w' key) = Some record /\ rr_state record = RVerified
                     /\ rr_owner_token record = token)
  /\ daily_count day (row w' dailyKey) = Some 1.

(** A finished redemption. *)
Lemma alone_verified (k : option CodexResetRedemptionRecord -> CodexBankedResetOutcome) r t0 t1 t lo w0 w :
  in_time t -> t0 <= t1 <= t -> row w key = json_redemption r -> redemption_wf r -> rr_created_at_ms r = t0 -> rr_submitted_at_ms r = Some t1 ->
  rr_owner_token r = token -> ownedBy r context r = true -> daily_count day (row w dailyKey) = Some 1 ->
  w_redeemed w = (w_redeemed w0 ++ [redemption context credit])%list ->
  (forall r', oc_kind (k (Some r')) = OVerified) ->
  alone (let! finalized := verifiedOwned quiet healthy context r t in kv_ret (k finalized)) lo w (redeemed_once w0).
Proof using Hcall.
  intros Hin Hle Hrow Hwf Hc Hs Ht Ho Hd Hr Hk. eapply alone_update; [rewrite Hrow; by apply redemption_reads_back|done|].
  intros w1 Honly Er Hrow'. apply alone_ret. intros w' Hsame. split_and!; [by eexists|by rewrite (proj2 Hsame), Er| |].
  - eexists. rewrite (same_row _ _ _ Hsame), Hrow'. split; [by apply redemption_reads_back, (verified_wf _ t0 t1)|]. done.
  - rewrite (same_row _ _ _ Hsame), Honly; [done|apply daily_outside].
Qed.

(** The record with the receipt of the redemption. *)
Lemma settled_wf r receipt t0 t1 t2 t : in_time t -> redemption_wf r -> rr_created_at_ms r = t0 -> rr_submitted_at_ms r = Some t1 ->
  rr_verified_at_ms r = None -> t0 <= t1 <= t ->
  redemption_wf (stateWith (r <| rr_provider_receipt_id := durableReceiptId provider receipt |>
                              <| rr_submitted_at_ms := Some (default t2 (rr_submitted_at_ms r)) |>
                              <| rr_last_error_code := None |>) RSubmitted t).
Proof using Hcall.
  intros Ht [] E1 E2 E3 Hle. pose proof (in_time_ok t Ht). constructor; cbn in *; try done; [apply durable_text|by rewrite E2 in *| |].
  - apply (times_ordered _ t0 t1 t); cbn; auto. by rewrite E2.
  - unfold redemptionRecordStateIsConsistent. cbn. by rewrite E3.
Qed.

(** The provider confirms a redemption it has answered. *)
Lemma alone_verify r t0 t1 t w0 w :
  t0 <= t1 <= t -> row w key = json_redemption r -> redemption_wf r -> rr_created_at_ms r = t0 -> rr_submitted_at_ms r = Some t1 ->
  rr_owner_token r = token -> ownedBy r context r = true -> daily_count day (row w dailyKey) = Some 1 ->
  w_redeemed w = (w_redeemed w0 ++ [redemption context credit])%list ->
  (forall n, pv_verifyApplied provider n = Some (JBool true)) ->
  alone (verifyOwned quiet healthy clock aborted provider context r) t w (redeemed_once w0).
Proof using Hcall.
  intros Hle Hrow Hwf Hc Hs Ht Ho Hd Hr Hv. unfold verifyOwned. eapply alone_bind; [apply gives_running|]. cbv iota.
  eapply alone_bind; [apply gives_await, Hv|]. cbv beta iota. apply alone_clock. intros u Hu Hlu. cbv beta iota. cbn [is_true negb].
  apply (alone_verified _ _ t0 t1); try done. lia.
Qed.

Lemma alone_settle r receipt id t0 t1 t w0 w :
  in_time t -> t0 <= t1 <= t -> row w key = json_redemption r -> redemption_wf r -> rr_created_at_ms r = t0 -> rr_submitted_at_ms r = Some t1 ->
  rr_verified_at_ms r = None -> rr_owner_token r = token -> (forall r', rr_account_id_hash r' = rr_account_id_hash r ->
     rr_credential_version r' = rr_credential_version r -> rr_quota_generation r' = rr_quota_generation r ->
     rr_idempotency_key_hash r' = rr_idempotency_key_hash r -> ownedBy r' context r' = true) ->
  daily_count day (row w dailyKey) = Some 1 ->
  w_redeemed w = (w_redeemed w0 ++ [redemption context credit])%list ->
  receiptId receipt = Some id -> (forall n, pv_verifyApplied provider n = Some (JBool true)) ->
  alone (settle_receipt quiet healthy clock aborted provider context r t receipt) t w (redeemed_once w0).
Proof using Hcall.
  intros Ht Hle Hrow Hwf Hc Hs Hn Hown Ho Hd Hr Hid Hv. unfold settle_receipt. rewrite Hid. eapply alone_update.
  { rewrite Hrow. by apply redemption_reads_back. }
  { by apply Ho. }
  intros w1 Honly Er Hrow1. cbv beta iota. apply (alone_verify _ t0 t1).
  - done.
  - done.
  - by apply (settled_wf _ _ t0 t1).
  - done.
  - cbn. by rewrite Hs.
  - done.
  - by apply Ho.
  - rewrite Honly; [done|apply daily_outside].
  - by rewrite Er.
  - done.
Qed.

Lemma alone_call {B} input (k : option jsval -> M B) lo w (Q : Result string B -> W -> Prop) :
  (forall n, alone (k (pv_redeem provider n)) lo (happens (ERedeem input) w) Q) ->
  alone (kv_bind (call_redeem quiet provider input) k) lo w Q.
Proof.
  intros Hk n w0 Hn Hlo Hs. unfold kv_bind, call_redeem, quiet. apply Hk; [lia| |].
  - intros i t Hi. apply Hlo. lia.
  - destruct Hs as [E1 E2]. split; [done|]. by rewrite !redeemed_event, E2.
Qed.

Lemma alone_redeem t0 t1 t2 lo w0 w :
  in_time t0 -> in_time t1 -> in_time t2 -> t0 <= t1 -> t1 <= t2 -> t2 <= lo ->
  row w key = json_redemption (renewed_once t0 t1 t2) -> daily_count day (row w dailyKey) = Some 1 -> w_redeemed w = w_redeemed w0 ->
  alone (redeemSubmittedOwned quiet healthy clock aborted provider context (renewed_once t0 t1 t2) credit) lo w (redeemed_once w0).
Proof using Hcall.
  intros H0 H1 H2 L01 L12 L2 Hrow Hd Hr. unfold redeemSubmittedOwned. apply alone_call. intros n.
  fold (redemption context credit). destruct (fv_answer Hcall n) as (result & -> & receipt & Hv & Hfinal).
  apply alone_clock. intros t Ht Hle. cbv beta iota. set (w1 := happens _ w).
  assert (w_redeemed w1 = (w_redeemed w0 ++ [redemption context credit])%list) as Hr1 by (unfold w1; by rewrite redeemed_event, Hr).
  change (row w key) with (row w1 key) in Hrow. change (row w dailyKey) with (row w1 dailyKey) in Hd. clearbody w1.
  destruct (receipt_known _ _ Hv) as [id Hid].
  assert (forall text, alone (if providerTreatsRedeemOutcomeAsFinal provider
            then finalizeDocumentedRedeemOutcome quiet healthy context (renewed_once t0 t1 t2) t text
            else settle_receipt quiet healthy clock aborted provider context (renewed_once t0 t1 t2) t receipt) t w1 (redeemed_once w0)) as Hend.
  { intros text. destruct (providerTreatsRedeemOutcomeAsFinal provider).
    - apply (alone_verified _ _ t0 t1); try done; [lia|by apply renewed_wf|by apply owned_self].
    - destruct Hfinal as [?|Hfinal]; [done|].
      apply (alone_settle _ _ id t0 t1); try done; [lia|by apply renewed_wf|intros; by apply owned_self]. }
  destruct Hv as [-> | ->]; apply Hend.
Qed.

Lemma alone_gate t0 t1 t2 {B} (k : option CodexBankedResetOutcome -> M B) lo w (Q : Result string B -> W -> Prop) :
  in_time t0 -> in_time t2 -> (forall t, in_time t -> lo <= t -> alone (k None) t w Q) ->
  alone (kv_bind (redeemGate clock candidate (renewed_once t0 t1 t2) context) k) lo w Q.
Proof using Hcall.
  intros H0 H2 Hk. unfold redeemGate. apply alone_assoc, alone_clock. intros t Ht Hle. cbv beta iota.
  rewrite (claimed_today _ t t0), window_open by done. cbn [negb].
  change (rr_lease_expires_at_ms (renewed_once t0 t1 t2)) with (t2 + 30000). rewrite lease_runs by done. apply alone_step. by apply Hk.
Qed.

Lemma alone_submit t0 lo w :
  in_time t0 -> t0 <= lo -> row w key = json_redemption (created t0) -> ambient w -> daily_count day (row w dailyKey) = Some 0 ->
  alone (submitClaimed quiet healthy clock dateNow aborted liveConfig parseCodexAuthPool sha256Hex localeCompare provider context (created t0)
            candidate) lo w (redeemed_once w).
Proof using Hcall.
  intros H0 Hlo Hrow Ha Hb. unfold submitClaimed. apply alone_preflight; [done|]. intros tp Hp Hlp. cbv beta iota.
  apply alone_credit; [done..|]. intros ta Hta Hla. cbv beta iota.
  apply alone_prepare; [done|lia|done..|]. intros w1 t1 t H1 L01 Ht L1t Honly1 Er1 Hrow1 Hd1. apply (ambient_only _ _ Honly1) in Ha. cbv beta iota.
  unfold renewAndRedeem. eapply alone_bind; [apply gives_policy|]. cbv beta iota. eapply alone_bind; [apply gives_running|]. cbv iota.
  apply (alone_renew _ t0 t1); [done..|]. intros w2 t2 H2 L12 Honly2 Er2 Hrow2. cbv beta iota.
  eapply alone_bind; [apply gives_policy|]. cbv beta iota. eapply alone_bind; [apply gives_running|]. cbv iota.
  apply alone_gate; [done..|]. intros t3 H3 L23. cbv beta iota.
  apply alone_redeem; [done..| |congruence]. rewrite Honly2; [done|apply daily_outside].
Qed.

(** ** The attempt *)

Lemma gives_allowance w : ambient w ->
  gives (resolveNewSubmissionAllowance quiet healthy dateNow liveConfig parseCodexAuthPool sha256Hex provider candidate context false) w
    (inl true).
Proof using Hcall.
  intros [_ Hu]. apply (gives_bind _ _ _ (Some true)).
  - unfold manual. destruct (cd_authorization candidate) as [h|]; cbn [is_none negb]; [apply gives_ret|].
    destruct Hu as [?|Hu]; [done|]. apply gives_catch. eapply gives_bind; [by apply gives_usage|apply gives_ret].
  - cbv beta iota. eapply gives_bind; [apply gives_config, (fv_config Hcall)|]. cbv beta iota.
    pose proof (fv_live Hcall) as Hl. unfold loadLiveSubmissionConfig in Hl.
    destruct (policyReason config (manual candidate)); [done|]. destruct (providerPolicyReason config provider (manual candidate)); [done|].
    destruct (manual candidate); cbn [negb andb] in *; [rewrite andb_false_r; apply gives_ret|].
    destruct (bool_decide (bc_mode config = ModeLive)) eqn:Em; [|done]. apply bool_decide_eq_true in Em. rewrite Em. apply gives_ret.
Qed.

Lemma alone_attempt w :
  favourable_store w ->
  alone (attemptCodexBankedReset quiet healthy clock dateNow aborted liveConfig newOwnerToken kvOpens parseCodexAuthPool sha256Hex hash
            localeCompare provider candidate) begun w (redeemed_once w).
Proof using Hcall.
  intros Hs. unfold attemptCodexBankedReset, attemptInternal. rewrite (fv_context Hcall).
  eapply alone_bind; [apply gives_await, (fv_opens Hcall)|]. cbn [negb].
  eapply (alone_bind _ _ _ _ _ _ (inl None)).
  { eapply gives_bind; [apply gives_get|]. cbv beta iota. pose proof (fs_fresh _ Hs) as Hf. unfold row in Hf. rewrite Hf. apply gives_ret. }
  cbv beta iota. cbn [settledRecordDisposition mbind option_bind resolveSubmissionAllowance].
  eapply alone_bind; [apply gives_allowance, Hs|]. cbv beta iota. rewrite (fv_support Hcall). cbn [negb].
  apply alone_clock. intros t0 H0 L0. cbv beta iota.
  eapply (alone_bind _ _ _ _ _ _ (Some token)).
  { apply gives_observe. intros n. unfold safeOwnerToken. rewrite (fv_token Hcall). cbn. by rewrite (fv_token_text Hcall). }
  cbv beta iota. apply alone_claim; [done..|]. intros w1 t Ht L0t Honly Er Hrow. cbn [handleClaimResult].
  assert (only [key; dailyKey] w w1) as Honly' by (eapply only_weaken; [|done]; set_solver).
  intros n w0 Hn Hlo Hsame.
  assert (ambient w1) as Ha by apply (ambient_only _ _ Honly'), Hs.
  assert (daily_count day (row w1 dailyKey) = Some 0) as Hd by (rewrite Honly; [apply Hs|apply daily_outside]).
  pose proof (alone_submit t0 t w1 H0 L0t Hrow Ha Hd n w0 Hn Hlo Hsame) as H.
  destruct (submitClaimed _ _ _ _ _ _ _ _ _ _ _ _ _ _) as [r [n' w']]. destruct H as (R1 & R2 & R3 & R4).
  split; [done|]. split; [by rewrite <- Er|done].
Qed.
End alone.
