(* ===== verification/BankedResetTheorems.v ===== *)
(** * Banked resets are spent once

    Whatever other calls run, and whichever storage calls throw: a call redeems
    at most one credit, after it submitted its quota window and used the budget
    of the account's day, which no other call then does; and every call moves the
    rows forward only. *)

From Stdlib Require Import ZArith Lia.
From stdpp Require Import base gmap strings list pretty.
From S2P Require Import Prelude Js KvStore KvLogic KernelStore HttpDate ApiKeyStore ApiKeyRows BankedReset BankedResetStore BankedResetRows BankedResetLogic BankedResetGuarantee BankedResetAlone.
Open Scope string_scope.
Open Scope Z_scope.
Open Scope kv_scope.

Section theorems.
Context {S : Type} `{Kv : !KvStoreOf jsval S}.
Local Notation W := (World S).
Local Notation M := (KvM (World S)).
Context (Mine Yours : string -> Prop).
Context (others : Clients (World S)) (faults : nat -> Fault) (clock : nat -> option number) (dateNow : nat -> Z) (aborted : nat -> bool)
  (liveConfig : nat -> option CodexBankedResetConfig) (newOwnerToken : nat -> option string) (kvOpens : nat -> bool)
  (parseCodexAuthPool : jsval -> Result string (option (list string))) (sha256Hex : string -> string)
  (hash : string -> option string) (localeCompare : string -> string -> Z) (provider : CodexUsageResetProvider).
Local Notation rely := (reset_rely (fun t => Mine t \/ Yours t)).
Local Notation calm := (reset_rely Yours).
Local Notation attempt_internal := (attemptInternal others faults clock dateNow aborted liveConfig newOwnerToken kvOpens
  parseCodexAuthPool sha256Hex hash localeCompare provider).

(** ** One timeline *)

(** No submission of a window follows one of that window, or of the account's day. *)
Lemma submission_once a g g' day day' t t' (w1 w2 u1 u2 : W) :
  submission a g day t w1 w2 -> submission a g' day' t' u1 u2 -> g' = g \/ day' = day -> reset_evolves w2 u1 -> False.
Proof.
  intros [_ Hs _ Hu] [(r & Hr & Hc & _) _ Hn _] E Hev. destruct E as [->| ->].
  - pose proof (record_moves_stage _ _ (re_record _ _ Hev a g)) as Hst.
    rewrite (stage_record _ _ Hr), Hc in Hst. lia.
  - destruct (daily_moves_count _ _ _ _ (re_daily _ _ Hev a day) Hu) as (c & E & Hle). rewrite E in Hn. injection Hn as ->. lia.
Qed.

(** ** The attempt *)

Context (Hdisjoint : forall t, Mine t -> ~ Yours t) (Htokens : forall n t, newOwnerToken n = Some t -> Mine t).
Context `{Hothers : !RelyOn rely others}.

(** What an attempt did: it moved the rows forward, and redeemed at most once,
    only with permission for a new submission. *)
Definition attempted (candidate : CodexBankedResetCandidate) (reconcileOnly : bool) (w w' : W) : Prop :=
  calm w w'
  \/ reconcileOnly = false
     /\ exists context, makeResetContext hash candidate = Some context /\ at_most_once Mine Yours provider context candidate w w'.

Lemma attempted_earlier candidate ro w w1 w' : calm w w1 -> attempted candidate ro w1 w' -> attempted candidate ro w w'.
Proof.
  intros H [H'|(E & context & Ec & Ho)]; [left; by etrans|right]. split; [done|]. exists context. split; [done|].
  by eapply once_earlier.
Qed.

Lemma attempted_after {A B} candidate ro (m : M A) (k : A -> M B) w :
  guarantees rely m -> (forall a w1, triple (k a) w1 (fun _ w' => attempted candidate ro w1 w')) ->
  triple (kv_bind m k) w (fun _ w' => attempted candidate ro w w').
Proof.
  intros Hm Hk. apply triple_bind. eapply triple_mono; [apply Hm|]. intros [e|a] w1 H1; [left; by apply rely_calm in H1|].
  eapply triple_mono; [apply Hk|]. intros r w'. apply attempted_earlier. by eapply rely_calm.
Qed.

Lemma attempted_ret {A} candidate ro (a : A) w : triple (kv_ret a) w (fun _ w' => attempted candidate ro w w').
Proof. apply triple_ret. left. reflexivity. Qed.

Lemma guarantees_existing context : guarantees rely (readExistingRecord others faults context).
Proof using Hothers. apply guarantees_bind; auto with gateway. Qed.

Lemma guarantees_newAllowance candidate context ro :
  guarantees rely (resolveNewSubmissionAllowance others faults dateNow liveConfig parseCodexAuthPool sha256Hex provider candidate context ro).
Proof using Hothers.
  unfold resolveNewSubmissionAllowance. destruct ro; [auto with gateway|]. apply guarantees_bind.
  - destruct (manual candidate); [auto with gateway|]. apply guarantees_catch; [|auto with gateway].
    apply guarantees_bind; [by apply guarantees_readUsage|auto with gateway].
  - intros [[]|]; [|auto with gateway..]. apply guarantees_bind; auto with gateway.
Qed.

Lemma guarantees_allowance candidate context existing ro :
  guarantees rely (resolveSubmissionAllowance others faults dateNow liveConfig parseCodexAuthPool sha256Hex provider candidate context existing ro).
Proof using Hothers.
  unfold resolveSubmissionAllowance. destruct existing as [r|]; [|apply guarantees_newAllowance]. destruct (negb _); [auto with gateway|].
  destruct ro; [auto with gateway|]. apply guarantees_bind; [by apply guarantees_live_policy|auto with gateway].
Qed.

(** A reconciliation is never allowed a new submission. *)
Lemma allowance_reconcile candidate context existing w :
  triple (resolveSubmissionAllowance others faults dateNow liveConfig parseCodexAuthPool sha256Hex provider candidate context existing true)
    w (fun r _ => r <> Ok (inl true)).
Proof.
  unfold resolveSubmissionAllowance, resolveNewSubmissionAllowance. destruct existing as [r|]; [|by apply triple_ret].
  destruct (negb _); by apply triple_ret.
Qed.

Lemma claim_handled candidate ro context allow nowMs token w :
  makeResetContext hash candidate = Some context -> Mine token -> (ro = true -> allow = false) ->
  triple (let! claimed := claimTransaction others faults clock context candidate nowMs token allow in
          handleClaimResult others faults clock dateNow aborted liveConfig parseCodexAuthPool sha256Hex localeCompare provider context
            candidate claimed) w (fun _ w' => attempted candidate ro w w').
Proof using Hdisjoint Hothers.
  intros Ec Ht Hro. apply triple_bind.
  eapply triple_mono; [by apply (claimTransaction_ends Mine Yours Hdisjoint)|]. intros [e|c] w1 [H1 HQ]; [by left|].
  eapply triple_mono; [apply (handleClaim_spec Mine Yours Hdisjoint) with (allow := allow); [done|by apply HQ]|]. intros r w' [Ho Hcalm].
  apply (attempted_earlier _ _ w w1); [done|]. destruct ro; [left; by apply Hcalm, Hro|right]. split; [done|]. by exists context.
Qed.

Lemma reset_attempt_spec candidate ro w : triple (attempt_internal candidate ro) w (fun _ w' => attempted candidate ro w w').
Proof using Hdisjoint Htokens Hothers.
  unfold attemptInternal. destruct (makeResetContext hash candidate) as [context|] eqn:Ec; [|apply attempted_ret].
  apply attempted_after; [auto with gateway|]. intros [] w1; cbn [negb]; [|apply attempted_ret].
  apply attempted_after; [apply guarantees_existing|]. intros [existing|] w2; [|apply attempted_ret].
  destruct (match existing with Some _ => _ | None => _ end); [apply attempted_ret|].
  destruct (settledRecordDisposition _ _ _); [apply attempted_ret|]. apply triple_bind.
  assert (triple (resolveSubmissionAllowance others faults dateNow liveConfig parseCodexAuthPool sha256Hex provider candidate context
            existing ro) w2 (fun r w' => rely w2 w' /\ (ro = true -> r <> Ok (inl true)))) as Hal.
  { intros n. pose proof (guarantees_allowance candidate context existing ro w2 n) as Hg.
    pose proof (allowance_reconcile candidate context existing w2 n) as Hn.
    destruct ro; [|by destruct (resolveSubmissionAllowance _ _ _ _ _ _ _ _ _ _ _ _) as [r [n' w']]; split].
    by destruct (resolveSubmissionAllowance _ _ _ _ _ _ _ _ _ _ _ _) as [r [n' w']]. }
  eapply triple_mono; [exact Hal|]. intros [e|allow] w3 [H3 Hro]; [left; by eapply rely_calm|].
  eapply (triple_mono _ _ (fun _ w' => attempted candidate ro w3 w')); [|intros r w'; apply attempted_earlier; by eapply rely_calm].
  destruct allow as [allow|]; [|apply attempted_ret]. destruct (negb _); [apply attempted_ret|].
  apply attempted_after; [auto with gateway|]. intros [now|] w4; [|apply attempted_ret].
  apply triple_bind, triple_observe. intros n. unfold safeOwnerToken. destruct (newOwnerToken n) as [t|] eqn:Et; cbn; [|apply attempted_ret].
  destruct (nonEmptyText 256 t); [|apply attempted_ret].
  apply claim_handled; [done|by eapply Htokens|]. intros ->. destruct allow; [by destruct Hro|done].
Qed.

(** C21: Every call, whatever the others do, moves the records forward only: a
    record is never removed, a verified, rejected or unreadable one never
    changes, a submitted one is never claimed again; its account, window,
    idempotency key, routing generation and times of creation and submission
    stay, and its owner changes only under a larger fence; the count of an
    account's day only grows.  A call writes no record under another call's
    token, so each call is one the others can rely on; and a reconciliation
    redeems nothing. *)
Theorem reset_calls_go_forward candidate reconcileOnly n w r n' w' :
  attempt_internal candidate reconcileOnly (n, w) = (r, (n', w')) ->
  reset_interferes Yours w w' /\ (reconcileOnly = true -> reset_rely Yours w w').
Proof using Hdisjoint Htokens Hothers.
  intros E. pose proof (reset_attempt_spec candidate reconcileOnly w) as H. apply (triple_run _ _ _ _ _ _ _ H) in E.
  destruct E as [Hc|(-> & context & _ & Hi & _)]; [|done]. split; [apply Hc|done].
Qed.
End theorems.

Section once.
Context {S : Type} `{Kv : !KvStoreOf jsval S}.
Local Notation W := (World S).
Context (Mine Yours : string -> Prop).
Context (others : Clients (World S)) (faults : nat -> Fault) (clock : nat -> option number) (dateNow : nat -> Z) (aborted : nat -> bool)
  (liveConfig : nat -> option CodexBankedResetConfig) (newOwnerToken : nat -> option string) (kvOpens : nat -> bool)
  (parseCodexAuthPool : jsval -> Result string (option (list string))) (sha256Hex : string -> string)
  (hash : string -> option string) (localeCompare : string -> string -> Z) (provider : CodexUsageResetProvider).
Context (Hdisjoint : forall t, Mine t -> ~ Yours t) (Htokens : forall n t, newOwnerToken n = Some t -> Mine t).
Context `{Hothers : !RelyOn (reset_others (fun t => Mine t \/ Yours t)) others}.

(** The events of a call that spent a credit. *)
Lemma spent_trace candidate context credit nowMs at_ day t (w w1 w2 w' : W) :
  spent Mine Yours provider context candidate credit nowMs at_ day t w w1 w2 w' ->
  exists chosen before between after,
    w_trace w' = (w_trace w ++ chosen ++ before ++ ECommit (kv_map w1) (kv_map w2) :: between ++ ERedeem (redemption context credit) :: after)%list
    /\ EClock (Some nowMs) ∈ chosen /\ EClock (Some at_) ∈ before
    /\ Forall quiet_event (chosen ++ before ++ between ++ after).
Proof.
  intros []. destruct so_submitted, so_clock as (l1 & l2 & E1 & Hn & Ha). destruct so_redeemed as (w3 & [_ (l3 & E3 & H3)] & l4 & E4 & H4).
  destruct si_calm as [_ (l0 & E0 & H0)]. rewrite E1 in E0. apply app_inv_head in E0 as <-. apply Forall_app in H0 as [? ?].
  exists l1, l2, l3, l4. split_and!; [|done..|by rewrite !Forall_app].
  rewrite E4. cbn. rewrite E3, si_commit, E1, <- !app_assoc. done.
Qed.

(** C35: A credit is spent at most once per quota window and per account and
    day.  Whatever other calls do under their own tokens, and whichever storage
    calls throw (before or after they took effect), an attempt redeems nothing,
    or exactly one credit under the window's idempotency key.  In the latter
    case the trace of the attempt, which no other call writes, has, in this
    order: a reading [nowMs] of the clock, at which the credit is usable; a
    reading [at_], whose UTC day is [day]; one commit of the attempt, from the
    store of [w1] to the store of [w2]; and the redemption.  That commit is the
    submission of the window: the store it found had the record claimed under
    the attempt's token, the account's [day] unused, every fence of the
    candidate current and the account's consent in force, and the store it left
    has both used.  No other submission, of the same window or of another
    window of the account on that day, comes before or after it on any timeline
    of the store. *)
Theorem reset_redeemed_at_most_once candidate n w r n' w' :
  attemptCodexBankedReset others faults clock dateNow aborted liveConfig newOwnerToken kvOpens parseCodexAuthPool sha256Hex hash
    localeCompare provider candidate (n, w) = (r, (n', w')) ->
  w_redeemed w' = w_redeemed w
  \/ exists context credit nowMs at_ day t w1 w2 chosen before between after,
       makeResetContext hash candidate = Some context
       /\ w_trace w' = (w_trace w ++ chosen ++ before ++ ECommit (kv_map w1) (kv_map w2)
                          :: between ++ ERedeem (redemption context credit) :: after)%list
       /\ Forall quiet_event (chosen ++ before ++ between ++ after)
       /\ EClock (Some nowMs) ∈ chosen /\ isUsableSelectedCredit credit provider nowMs = true /\ is_selected candidate credit
       /\ EClock (Some at_) ∈ before /\ utcDay at_ = Some day /\ Mine t
       /\ reset_evolves w w1 /\ submission (rc_accountIdHash context) (rc_quotaGeneration context) day t w1 w2
       /\ fences_current (cd_fences candidate) w1 /\ consents (rc_accountIdHash context) (cd_authorization candidate) w1
       /\ reset_evolves w2 w'
       /\ forall g' day' t' u1 u2, submission (rc_accountIdHash context) g' day' t' u1 u2 ->
            g' = rc_quotaGeneration context \/ day' = day -> ~ reset_evolves w2 u1 /\ ~ reset_evolves u2 w1.
Proof using Hdisjoint Htokens Hothers.
  intros E. assert (RelyOn (reset_rely (fun t => Mine t \/ Yours t)) others) as Hr by (intros i u; apply others_rely, Hothers).
  eapply triple_run in E; [|by apply (reset_attempt_spec Mine Yours) with (ro := false)].
  destruct E as [[_ E%silent_redeemed]|(_ & context & Ec & Hi & [E%silent_redeemed|(credit & nowMs & at_ & day & t & w1 & w2 & Hs)])];
    [by left..|right]. destruct (spent_trace _ _ _ _ _ _ _ _ _ _ _ Hs) as (chosen & before & between & after & Et & Hn & Ha & Hq).
  destruct Hs, so_submitted.
  exists context, credit, nowMs, at_, day, t, w1, w2, chosen, before, between, after. split_and!; [done..|apply si_calm|done|done|done|apply so_later|].
  intros g' day' t' u1 u2 Hu Heq. split; intros Hev.
  - by eapply (submission_once _ _ g' day day').
  - eapply (submission_once _ g' _ day' day); [exact Hu|exact si_submission| |exact Hev]. naive_solver.
Qed.
End once.



(** ** Concrete calls *)

Module DemoReset.
(** Time passes: a tenth of a second between two steps, for ten seconds. *)
Definition time (n : nat) : Z := 1000 + 100 * Z.min (Z.of_nat n) 100.
Definition clock (n : nat) : option number := Some (num_of_Z (time n)).
Definition hash : string -> option string := fun s => Some (slice0 s 3).
Definition config : nat -> option CodexBankedResetConfig := fun _ => Some loadCodexBankedResetConfig.
Definition credit : ResetInventoryCredit := mkCredit "credit" "available" "codex_rate_limits" None.
Definition provider : CodexUsageResetProvider := {|
  pv_contract := JObj [("supportedResetTypes", JArr [JStr "codex_rate_limits"]); ("idempotency", JObj [("callerSupplied", JBool true)]);
    ("lookup", JObj []); ("verification", JObj []); ("redeemOutcomeIsFinal", JBool true)];
  pv_readInventory := fun _ => None;
  pv_redeem := fun _ => Some (JObj [("kind", JStr "completed"); ("providerReceiptId", JStr "receipt")]);
  pv_lookup := fun _ => None;
  pv_verifyApplied := fun _ => None |}.
Definition candidate : CodexBankedResetCandidate := {|
  cd_accountId := "account"; cd_authorization := Some "acc"; cd_credentialVersion := "1"; cd_quotaResetAtMs := 50000;
  cd_routingGeneration := 7; cd_fences := [mkFence [KStr "routing"] (fun _ => Some true)]; cd_selectedCredit := Some credit |}.
Definition context : ResetContext := mkContext "account" "acc" "v1:uos" "v1:uos" "uos_ai_codex_reset_v1_uos" "uos".
Definition w0 : World (MemoryKvOf jsval) := mkWorld memory_empty [].
(** A run under a token, with what the other clients do meanwhile. *)
Definition run_as (others : Clients (World (MemoryKvOf jsval))) (token : string) (reconcileOnly : bool) (w : World (MemoryKvOf jsval)) :=
  attemptInternal others healthy clock (fun _ => 0) (fun _ => false) config (fun _ => Some token) (fun _ => true) (fun _ => Ok None)
    (fun s => s) hash (fun _ _ => 0) provider candidate reconcileOnly (O, w).
Definition run : bool -> World (MemoryKvOf jsval) -> _ := run_as quiet "owner".
(** From some time on, a rival attempts the same reset at every step. *)
Definition rival : Clients (World (MemoryKvOf jsval)) := fun n w =>
  if (n <? 9)%nat then w else mkWorld (w_store (snd (snd (run_as quiet "rival" false w)))) (w_trace w).
Definition mine (t : string) : Prop := t = "owner".
Definition yours (t : string) : Prop := t = "other".

Lemma distinct t : mine t -> ~ yours t.
Proof. by intros ->. Qed.
Lemma tokens (n : nat) t : Some "owner" = Some t -> mine t.
Proof. by intros [= <-]. Qed.
Lemma alone : RelyOn (reset_rely (fun t => mine t \/ yours t)) (quiet : Clients (World (MemoryKvOf jsval))).
Proof. intros n w. reflexivity. Qed.
Lemma split_run {A B C : Type} (x : A * (B * C)) : x = (fst x, (fst (snd x), snd (snd x))).
Proof. by destruct x as [? []]. Qed.

(** What a call does is what another call relies on. *)
Lemma rival_relies : RelyOn (reset_others (fun t => mine t \/ yours t)) rival.
Proof.
  intros n w. unfold rival. destruct (n <? 9)%nat; [by constructor|].
  assert (RelyOn (reset_rely (fun t => t = "rival" \/ (mine t \/ yours t))) (quiet : Clients (World (MemoryKvOf jsval)))) as Hq
    by (intros ??; reflexivity).
  assert (reset_interferes (fun t => mine t \/ yours t) w (snd (snd (run_as quiet "rival" false w)))) as Hi.
  { pose proof (split_run (run_as quiet "rival" false w)) as E.
    eapply triple_run in E; [|apply (reset_attempt_spec (fun t => t = "rival") (fun t => mine t \/ yours t))].
    - by destruct E as [[H _]|(_ & context & _ & H & _)].
    - by intros t -> [H|H].
    - by intros ?? [= <-].
    - done. }
  constructor; [|done]. etrans; [exact Hi|]. apply interferes_trace.
Qed.




End DemoReset.

Lemma reset_redeemed_at_most_once_witness :
  let w' := snd (snd (DemoReset.run_as DemoReset.rival "owner" false DemoReset.w0)) in
  w_redeemed w' = [redemption DemoReset.context DemoReset.credit]
  /\ exists context credit nowMs at_ day t (w1 w2 : World (MemoryKvOf jsval)) chosen before between after,
       makeResetContext DemoReset.hash DemoReset.candidate = Some context
       /\ w_trace w' = (chosen ++ before ++ ECommit (kv_map w1) (kv_map w2) :: between ++ ERedeem (redemption context credit) :: after)%list
       /\ EClock (Some nowMs) ∈ chosen /\ isUsableSelectedCredit credit DemoReset.provider nowMs = true
       /\ EClock (Some at_) ∈ before /\ utcDay at_ = Some day /\ DemoReset.mine t
       /\ submission (rc_accountIdHash context) (rc_quotaGeneration context) day t w1 w2.
Proof.
  assert (w_redeemed (snd (snd (DemoReset.run_as DemoReset.rival "owner" false DemoReset.w0)))
          = [redemption DemoReset.context DemoReset.credit]) as E by (vm_compute; reflexivity).
  split; [exact E|].
  destruct (reset_redeemed_at_most_once DemoReset.mine DemoReset.yours DemoReset.rival healthy DemoReset.clock (fun _ => 0) (fun _ => false)
    DemoReset.config (fun _ => Some "owner") (fun _ => true) (fun _ => Ok None) (fun s => s) DemoReset.hash (fun _ _ => 0)
    DemoReset.provider DemoReset.distinct DemoReset.tokens (Hothers := DemoReset.rival_relies) DemoReset.candidate O DemoReset.w0 _ _ _
    (DemoReset.split_run (DemoReset.run_as DemoReset.rival "owner" false DemoReset.w0)))
    as [H|(context & credit & nowMs & at_ & day & t & w1 & w2 & chosen & before & between & after & H1 & H2 & _ & H3 & H4 & _ & H5 & H6 & H7 & _ & H8 & _)].
  - rewrite E in H. discriminate H.
  - exists context, credit, nowMs, at_, day, t, w1, w2, chosen, before, between, after.
    exact (conj H1 (conj H2 (conj H3 (conj H4 (conj H5 (conj H6 (conj H7 H8))))))).
Defined.

Lemma reset_calls_go_forward_witness :
  let w1 := snd (snd (DemoReset.run false DemoReset.w0)) in
  oc_reason <$> (match fst (DemoReset.run true w1) with Ok o => Some o | Err _ => None end) = Some "previously_verified"
  /\ reset_rely DemoReset.yours w1 (snd (snd (DemoReset.run true w1))).
Proof.
  split; [vm_compute; reflexivity|].
  exact (proj2 (reset_calls_go_forward DemoReset.mine DemoReset.yours quiet healthy DemoReset.clock (fun _ => 0) (fun _ => false)
    DemoReset.config (fun _ => Some "owner") (fun _ => true) (fun _ => Ok None) (fun s => s) DemoReset.hash (fun _ _ => 0)
    DemoReset.provider DemoReset.distinct DemoReset.tokens (Hothers := DemoReset.alone) DemoReset.candidate true O _ _ _ _
    (DemoReset.split_run (DemoReset.run true _))) eq_refl).
Defined.

