(* ===== verification/BankedResetPool.v ===== *)
(** * Banked resets of a blocked cohort

    [src/codex/banked-reset-pool.ts]: from the accounts that are blocked together,
    one credit is selected and spent, or in shadow mode only recorded.  What
    [Promise.all] reads at once is read one after another here, with the other
    clients between any two reads.  Slots are integers. *)

From Stdlib Require Import ZArith Lia.
From stdpp Require Import base gmap strings list pretty.
From S2P Require Import Prelude Js KvStore KernelStore ApiKeyUsage BankedReset BankedResetStore.
Open Scope string_scope.
Open Scope Z_scope.
Open Scope kv_scope.

(** ** Records *)

Record ShadowFence := mkShadowFence {
  sf_slot : Z;
  sf_account_id_hash : string;
  sf_quota_generation : string;
  sf_routing_generation : Z;
  sf_quota_reset_at_ms : Z }.

#[export] Instance ShadowFence_eq_dec : EqDecision ShadowFence.
Proof. solve_decision. Defined.

Record CodexResetShadowDecisionRecord := mkDecision {
  sd_episode_hash : string;
  sd_created_at_ms : Z;
  sd_expires_at_ms : Z;
  sd_decision_reason : string;
  sd_selected_account_id_hash : option string;
  sd_selected_credit_id_hash : option string;
  sd_selected_credit_expires_at_ms : option Z;
  sd_fences : list ShadowFence }.

Definition CODEX_RESET_SHADOW_DECISION_KV_PREFIX : KvKey := [KStr "uos_ai"; KStr "codex_reset_shadow_decision"; KStr "v1"].
Definition codexResetShadowDecisionKey (episodeHash : string) : KvKey :=
  (CODEX_RESET_SHADOW_DECISION_KV_PREFIX ++ [KStr episodeHash])%list.

Definition parseShadowDecisionFence (value : jsval) : option ShadowFence :=
  if negb (isRecord value) then None else
  slot ← nonNegativeSafeInteger (prop value "slot");
  account_id_hash ← isNonEmptyText 512 (prop value "account_id_hash");
  quota_generation ← isNonEmptyText 512 (prop value "quota_generation");
  routing_generation ← nonNegativeSafeInteger (prop value "routing_generation");
  quota_reset_at_ms ← nonNegativeSafeInteger (prop value "quota_reset_at_ms");
  Some (mkShadowFence slot account_id_hash quota_generation routing_generation quota_reset_at_ms).

Definition parseCodexResetShadowDecisionRecord (value : jsval) : option CodexResetShadowDecisionRecord :=
  if negb (isRecord value) || negb (is_int (prop value "v") 1) then None else
  episode_hash ← isNonEmptyText 512 (prop value "episode_hash");
  created_at_ms ← nonNegativeSafeInteger (prop value "created_at_ms");
  expires_at_ms ← nonNegativeSafeInteger (prop value "expires_at_ms");
  if expires_at_ms <? created_at_ms then None else
  decision_reason ← isNonEmptyText 128 (prop value "decision_reason");
  match prop value "fences" with
  | JArr items =>
      selected_account_id_hash ← nullable (isNonEmptyText 512) (prop value "selected_account_id_hash");
      selected_credit_id_hash ← nullable (isNonEmptyText 512) (prop value "selected_credit_id_hash");
      selected_credit_expires_at_ms ← nullable nonNegativeSafeInteger (prop value "selected_credit_expires_at_ms");
      if negb (Bool.eqb (is_none selected_account_id_hash) (is_none selected_credit_id_hash)) then None else
      fences ← mapM parseShadowDecisionFence items;
      if bool_decide (fences = []) || negb (bool_decide (NoDup (sf_slot <$> fences))) then None else
      Some (mkDecision episode_hash created_at_ms expires_at_ms decision_reason selected_account_id_hash selected_credit_id_hash
              selected_credit_expires_at_ms fences)
  | _ => None
  end.

Definition json_shadow_fence (f : ShadowFence) : jsval :=
  JObj [("slot", jint (sf_slot f)); ("account_id_hash", JStr (sf_account_id_hash f)); ("quota_generation", JStr (sf_quota_generation f));
    ("routing_generation", jint (sf_routing_generation f)); ("quota_reset_at_ms", jint (sf_quota_reset_at_ms f))].

Definition json_decision (d : CodexResetShadowDecisionRecord) : jsval :=
  JObj [("v", jint 1); ("episode_hash", JStr (sd_episode_hash d)); ("created_at_ms", jint (sd_created_at_ms d));
    ("expires_at_ms", jint (sd_expires_at_ms d)); ("decision_reason", JStr (sd_decision_reason d));
    ("selected_account_id_hash", json_option JStr (sd_selected_account_id_hash d));
    ("selected_credit_id_hash", json_option JStr (sd_selected_credit_id_hash d));
    ("selected_credit_expires_at_ms", json_option jint (sd_selected_credit_expires_at_ms d));
    ("fences", JArr (json_shadow_fence <$> sd_fences d))].

(** ** Candidates *)

Record CodexBankedResetPoolCandidate := mkPool {
  pc_slot : Z;
  pc_candidate : CodexBankedResetCandidate;
  pc_provider : CodexUsageResetProvider }.

Record ResolvedPoolCandidate := mkResolved { rp_pool : CodexBankedResetPoolCandidate; rp_context : ResetContext }.

Record SelectedPoolCredit := mkSelected {
  sp_resolved : ResolvedPoolCandidate;
  sp_credit : ResetInventoryCredit;
  sp_creditIdHash : string }.

(** A shadow outcome, or the kind of a reset's outcome. *)
Inductive PoolOutcomeKind := PoolShadow | PoolReset (kind : OutcomeKind).

Record CodexBankedResetPoolOutcome := mkPoolOutcome {
  po_kind : PoolOutcomeKind;
  po_reason : string;
  po_selected : option CodexBankedResetPoolCandidate;
  po_reset : option CodexBankedResetOutcome }.

Definition pool_skipped (reason : string) : CodexBankedResetPoolOutcome := mkPoolOutcome (PoolReset OSkipped) reason None None.

(** [config] is [None] when [reloadConfig] throws. *)
Definition loadCurrentPoolConfig (config : option CodexBankedResetConfig) : CodexBankedResetConfig + string :=
  match config with
  | None => inr "configuration_unavailable"
  | Some config =>
      if negb (bc_enabled config) then inr "feature_disabled"
      else if bool_decide (bc_mode config = ModeDisabled) then inr "mode_disabled"
      else if bc_maxPerAccountPerDay config <=? 0 then inr "per_account_day_limit_invalid"
      else if negb (bc_maxPerAccountPerWindow config =? 1) then inr "per_account_window_limit_invalid"
      else inl config
  end.

(** The sort by slot, which is stable. *)
Fixpoint insert_pool (p : CodexBankedResetPoolCandidate) (l : list CodexBankedResetPoolCandidate) : list CodexBankedResetPoolCandidate :=
  match l with [] => [p] | q :: r => if pc_slot p <=? pc_slot q then p :: l else q :: insert_pool p r end.

Definition sort_pool (l : list CodexBankedResetPoolCandidate) : list CodexBankedResetPoolCandidate := foldr insert_pool [] l.

Fixpoint slots_valid (previous : option Z) (ordered : list CodexBankedResetPoolCandidate) : bool :=
  match ordered with
  | [] => true
  | p :: rest => isSafeMs (pc_slot p) && negb (bool_decide (previous = Some (pc_slot p))) && slots_valid (Some (pc_slot p)) rest
  end.

Definition poolSlotsAreValid (ordered : list CodexBankedResetPoolCandidate) : bool := slots_valid None ordered.

Definition orderPoolCandidates (candidates : list CodexBankedResetPoolCandidate) : list CodexBankedResetPoolCandidate + string :=
  match candidates with
  | [] => inr "full_pool_missing"
  | _ => let ordered := sort_pool candidates in if poolSlotsAreValid ordered then inl ordered else inr "full_pool_invalid"
  end.

Definition anyPoolProviderTreatsRedeemOutcomeAsFinal (ordered : list CodexBankedResetPoolCandidate) : bool :=
  existsb (fun p => providerTreatsRedeemOutcomeAsFinal (pc_provider p)) ordered.

Definition loadPoolSubmissionConfig (ordered : list CodexBankedResetPoolCandidate) (config : option CodexBankedResetConfig) :
    CodexBankedResetConfig + string :=
  match loadCurrentPoolConfig config with
  | inr reason => inr reason
  | inl config =>
      if bool_decide (bc_mode config = ModeLive) && negb (bc_maxPerAccountPerDay config =? 1)
      then inr (if anyPoolProviderTreatsRedeemOutcomeAsFinal ordered then "terminal_outcome_account_day_limit_must_be_one"
                else "per_account_day_limit_invalid")
      else inl config
  end.

Definition resolvePoolCandidates (hash : string -> option string) (ordered : list CodexBankedResetPoolCandidate) :
    option (list ResolvedPoolCandidate) :=
  mapM (fun pool => mkResolved pool <$> makeResetContext hash (pc_candidate pool)) ordered.

Definition poolFences (complete : list ResolvedPoolCandidate) : list ShadowFence :=
  (fun r => mkShadowFence (pc_slot (rp_pool r)) (rc_accountIdHash (rp_context r)) (rc_quotaGeneration (rp_context r))
              (cd_routingGeneration (pc_candidate (rp_pool r))) (cd_quotaResetAtMs (pc_candidate (rp_pool r)))) <$> complete.

(** U+0001, between the fences of a hashed episode. *)
Definition SOH : string := String (Ascii.ascii_of_nat 1) "".

Definition join (separator : string) (parts : list string) : string :=
  match parts with [] => "" | p :: rest => foldl (fun text part => text +:+ separator +:+ part) p rest end.

(** A version as a text: versions are opaque to the code, which only joins them. *)
Definition version_text (e : KvEntryOf jsval) : string := match versionstamp e with Some n => pretty n | None => "unset" end.

Definition fence_text (f : ShadowFence) : string :=
  pretty (sf_slot f) +:+ NUL +:+ sf_account_id_hash f +:+ NUL +:+ sf_quota_generation f +:+ NUL +:+ pretty (sf_routing_generation f)
  +:+ NUL +:+ pretty (sf_quota_reset_at_ms f).

(** What is hashed to name an episode. *)
Definition episode_text (settingsVersion : string) (fences : list ShadowFence) : string :=
  "uos_ai" +:+ NUL +:+ "codex_reset_shadow_episode" +:+ NUL +:+ settingsVersion +:+ NUL +:+ join SOH (fence_text <$> fences).

(** ** Inventories and the decision *)

Definition expired_credit (nowMs : Z) (credit : ResetInventoryCredit) : bool :=
  available credit && match ic_expiresAtMs credit with Some t => t <=? nowMs | None => false end.

(** The inventory, if it may be selected from. *)
Definition poolInventoryIsUsable (inventory : jsval) (nowMs : Z) : option ResetInventory :=
  i ← validInventory inventory nowMs; if existsb (expired_credit nowMs) (in_credits i) then None else Some i.

(** The order of the selected credits: expiry, then slot, then id. *)
Definition selected_before (localeCompare : string -> string -> Z) (left right : SelectedPoolCredit) : bool :=
  let by_slot := let l := pc_slot (rp_pool (sp_resolved left)) in let r := pc_slot (rp_pool (sp_resolved right)) in
    if l =? r then localeCompare (ic_id (sp_credit left)) (ic_id (sp_credit right)) <=? 0 else l <? r in
  match ic_expiresAtMs (sp_credit left), ic_expiresAtMs (sp_credit right) with
  | Some l, Some r => if l =? r then by_slot else l <? r
  | Some _, None => true
  | None, Some _ => false
  | None, None => by_slot
  end.

Fixpoint insert_selected (localeCompare : string -> string -> Z) (c : SelectedPoolCredit) (l : list SelectedPoolCredit) : list SelectedPoolCredit :=
  match l with
  | [] => [c]
  | d :: r => if selected_before localeCompare c d then c :: l else d :: insert_selected localeCompare c r
  end.

Definition sort_selected (localeCompare : string -> string -> Z) (l : list SelectedPoolCredit) : list SelectedPoolCredit :=
  foldr (insert_selected localeCompare) [] l.

(** [Math.min]; [None] is infinity. *)
Definition min_ms (a b : option Z) : option Z :=
  match a, b with Some a, Some b => Some (Z.min a b) | Some a, None | None, Some a => Some a | None, None => None end.

Definition buildShadowDecision (episodeHash : string) (nowMs : Z) (decisionReason : string) (selected : option SelectedPoolCredit)
    (fences : list ShadowFence) : CodexResetShadowDecisionRecord + CodexBankedResetPoolOutcome :=
  let creditExpiry := s ← selected; ic_expiresAtMs (sp_credit s) in
  match foldr min_ms creditExpiry ((fun f => Some (sf_quota_reset_at_ms f)) <$> fences) with
  | Some expires =>
      if negb (isSafeMs expires) || (expires <=? nowMs) then inr (pool_skipped "shadow_decision_expired") else
      inl (mkDecision episodeHash nowMs expires decisionReason ((fun s => rc_accountIdHash (rp_context (sp_resolved s))) <$> selected)
             (sp_creditIdHash <$> selected) creditExpiry fences)
  | None => inr (pool_skipped "shadow_decision_expired")
  end.

Definition duplicateShadowDecision (value : jsval) (record : CodexResetShadowDecisionRecord) (nowMs : Z) :
    option CodexResetShadowDecisionRecord :=
  existing ← parseCodexResetShadowDecisionRecord value;
  if negb (bool_decide (sd_episode_hash existing = sd_episode_hash record)) || (sd_expires_at_ms existing <=? nowMs) then None
  else Some existing.

Record PoolSelection := mkSelection { ps_selected : option SelectedPoolCredit; ps_decisionReason : string }.

Record PoolEpisode := mkEpisode {
  pe_complete : list ResolvedPoolCandidate;
  pe_eligible : list ResolvedPoolCandidate;
  pe_settingsEntries : list Entry;
  pe_fences : list ShadowFence;
  pe_episodeHash : string }.

Record PoolInventoryObservation := mkObservation { ob_resolved : ResolvedPoolCandidate; ob_inventory : jsval }.

Section pool.
Context {S : Type} `{Kv : !KvStoreOf jsval S}.
Local Notation W := (World S).
Local Notation M := (KvM (World S)).
Context (others : Clients (World S)) (faults : nat -> Fault) (clock : nat -> option number) (dateNow : nat -> Z) (aborted : nat -> bool)
  (liveConfig : nat -> option CodexBankedResetConfig) (newOwnerToken : nat -> option string) (kvOpens : nat -> bool)
  (parseCodexAuthPool : jsval -> Result string (option (list string))) (sha256Hex : string -> string)
  (hash : string -> option string) (localeCompare : string -> string -> Z).

(** A hash whose failure is not caught. *)
Definition hash_or_throw (text : string) : M string := match hash text with Some h => kv_ret h | None => kv_throw "hash_unavailable" end.

(** ** The episode *)

Definition poolEpisodeHash (settingsVersion : string) (fences : list ShadowFence) : M (option string) :=
  let! h := hash_or_throw (episode_text settingsVersion fences) in kv_ret (if nonEmptyText 512 h then Some h else None).

(** The reason a fence of the cohort does not hold. *)
Fixpoint stalePoolFenceReason (complete : list ResolvedPoolCandidate) : M (option string) :=
  match complete with
  | [] => kv_ret None
  | r :: rest =>
      let! current := readCurrentFences others faults (pc_candidate (rp_pool r)) in
      match current with
      | FencesValid _ => stalePoolFenceReason rest
      | FencesStale => kv_ret (Some "routing_fence_stale")
      | FencesFailure code => kv_ret (Some code)
      end
  end.

(** The settings of the accounts, in order. *)
Fixpoint read_settings (complete : list ResolvedPoolCandidate) : M (list (ResolvedPoolCandidate * (bool * list Entry))) :=
  match complete with
  | [] => kv_ret []
  | r :: rest =>
      let! usage := readCodexResetUsage others faults dateNow parseCodexAuthPool sha256Hex (rc_accountIdHash (rp_context r)) in
      let! more := read_settings rest in
      kv_ret ((r, usage) :: more)
  end.

Definition windows_open (complete : list ResolvedPoolCandidate) (nowMs : Z) : bool :=
  forallb (fun r => quotaWindowIsOpen (pc_candidate (rp_pool r)) nowMs) complete.

Definition preparePoolEpisode (ordered : list CodexBankedResetPoolCandidate) (nowMs : Z) : M (PoolEpisode + CodexBankedResetPoolOutcome) :=
  match resolvePoolCandidates hash ordered with
  | None => kv_ret (inr (pool_skipped "invalid_quota_generation"))
  | Some complete =>
      if negb (windows_open complete nowMs) then kv_ret (inr (pool_skipped "quota_window_expired")) else
      let! settings := kv_catch (let! s := read_settings complete in kv_ret (Some s)) (fun _ => kv_ret None) in
      match settings with
      | None => kv_ret (inr (pool_skipped "configuration_unavailable"))
      | Some settings =>
          let eligible := fst <$> List.filter (fun e => fst (snd e)) settings in
          match eligible with
          | [] => kv_ret (inr (pool_skipped "usage_disabled"))
          | _ =>
              let settingsEntries := List.concat ((fun e => snd (snd e)) <$> settings) in
              let fences := poolFences complete in
              let! episodeHash := poolEpisodeHash (join "," (version_text <$> settingsEntries)) fences in
              kv_ret (match episodeHash with
                      | None => inr (pool_skipped "episode_hash_unavailable")
                      | Some episodeHash => inl (mkEpisode complete eligible settingsEntries fences episodeHash)
                      end)
          end
      end
  end.

(** ** Shadow decisions *)

Definition readShadowDecision (episodeHash : string) : M (option CodexResetShadowDecisionRecord) :=
  let! entry := try_get others faults (codexResetShadowDecisionKey episodeHash) in
  kv_ret (entry ← entry; if is_null (entry_value entry) then None else parseCodexResetShadowDecisionRecord (entry_value entry)).

Definition existingShadowDecisionOutcome (config : CodexBankedResetConfig) (complete : list ResolvedPoolCandidate) (episodeHash : string)
    (fences : list ShadowFence) (nowMs : Z) : M (option CodexBankedResetPoolOutcome) :=
  if negb (bool_decide (bc_mode config = ModeShadow)) then kv_ret None else
  let! existing := readShadowDecision episodeHash in
  match existing with
  | None => kv_ret None
  | Some existing =>
      if (sd_expires_at_ms existing <=? nowMs) || negb (bool_decide (sd_fences existing = fences)) then kv_ret None else
      let selected := List.find (fun r => bool_decide (sd_selected_account_id_hash existing = Some (rc_accountIdHash (rp_context r)))) complete in
      let! gate := match selected with
        | Some r => readUsageGate others faults dateNow parseCodexAuthPool sha256Hex (rc_accountIdHash (rp_context r)) None
        | None => kv_ret (inl [])
        end in
      kv_ret (match gate with
              | inr code => Some (pool_skipped code)
              | inl _ =>
                  let wouldSpend := bool_decide (sd_decision_reason existing = "selected")
                    && negb (is_none (sd_selected_account_id_hash existing)) && negb (is_none (sd_selected_credit_id_hash existing))
                    && negb (is_none selected) in
                  Some (mkPoolOutcome PoolShadow (if wouldSpend then "already_would_spend_once" else sd_decision_reason existing)
                          (if wouldSpend then rp_pool <$> selected else None) None)
              end)
  end.

(** Whether the record was written now, and the record that stands; [None]: it
    could not be established. *)
Definition shadow_attempt (record : CodexResetShadowDecisionRecord) (nowMs : Z) (settingsEntries : list Entry) :
    M (option (option (bool * CodexResetShadowDecisionRecord))) :=
  let key := codexResetShadowDecisionKey (sd_episode_hash record) in
  let! entry := try_get others faults key in
  match entry with
  | None => kv_ret (Some None)
  | Some entry =>
      if negb (is_null (entry_value entry)) then kv_ret (Some (pair false <$> duplicateShadowDecision (entry_value entry) record nowMs)) else
      kv_catch
        (let! usage := match sd_selected_account_id_hash record with
           | Some h => if empty h then kv_ret (true, []) else readCodexResetUsage others faults dateNow parseCodexAuthPool sha256Hex h
           | None => kv_ret (true, [])
           end in
         if negb (fst usage) then kv_ret (Some None) else
         let! committed := commit_or_throw others faults (entry :: (snd usage ++ settingsEntries)%list) [MSet key (json_decision record) None] in
         kv_ret (if committed then Some (Some (true, record)) else None))
        (fun _ => kv_ret (Some None))
  end.

Definition shadowDecisionRecord (record : CodexResetShadowDecisionRecord) (nowMs : Z) (settingsEntries : list Entry) :
    M (option (bool * CodexResetShadowDecisionRecord)) :=
  cas_loop MAX_CAS_ATTEMPTS (shadow_attempt record nowMs settingsEntries) None.

Definition persistShadowDecisionOutcome (decision : CodexResetShadowDecisionRecord) (settingsEntries : list Entry) (selection : PoolSelection)
    (nowMs : Z) : M CodexBankedResetPoolOutcome :=
  let! persisted := shadowDecisionRecord decision nowMs settingsEntries in
  let pool := (fun s => rp_pool (sp_resolved s)) <$> ps_selected selection in
  kv_ret (match persisted with
          | None => pool_skipped "shadow_decision_unavailable"
          | Some (false, _) => mkPoolOutcome PoolShadow "already_would_spend_once" pool None
          | Some (true, _) =>
              mkPoolOutcome PoolShadow (if is_none (ps_selected selection) then ps_decisionReason selection else "shadow_selected") pool None
          end).

(** ** Inventories *)

Fixpoint readPoolInventories (complete : list ResolvedPoolCandidate) : M (list PoolInventoryObservation) :=
  match complete with
  | [] => kv_ret []
  | r :: rest =>
      let! inventory := read_inventory others (Some (pc_slot (rp_pool r))) (pc_provider (rp_pool r)) in
      let! more := readPoolInventories rest in
      kv_ret (mkObservation r (default JNull inventory) :: more)
  end.

Definition observePoolInventories (complete : list ResolvedPoolCandidate) :
    M ((list PoolInventoryObservation * Z) + CodexBankedResetPoolOutcome) :=
  let! inventoryResults := readPoolInventories complete in
  let! now := read_clock clock in
  match now with
  | None => kv_ret (inr (pool_skipped "invalid_clock"))
  | Some nowMs =>
      if existsb (fun o => is_null (ob_inventory o)) inventoryResults then kv_ret (inr (pool_skipped "inventory_unavailable")) else
      let! stale := stalePoolFenceReason complete in
      kv_ret (match stale with
              | Some reason => inr (pool_skipped reason)
              | None => if negb (windows_open complete nowMs) then inr (pool_skipped "quota_window_expired") else inl (inventoryResults, nowMs)
              end)
  end.

(** The loop over the observations, with the credits and the reason so far. *)
Fixpoint select_loop (observations : list PoolInventoryObservation) (nowMs : Z) (credits : list SelectedPoolCredit) (reason : string) :
    M ((list SelectedPoolCredit * string) + CodexBankedResetPoolOutcome) :=
  match observations with
  | [] => kv_ret (inl (credits, reason))
  | o :: rest =>
      if is_null (ob_inventory o) then select_loop rest nowMs credits reason else
      match poolInventoryIsUsable (ob_inventory o) nowMs with
      | None => kv_ret (inl ([], "inventory_response_invalid_or_expired"))
      | Some inventory =>
          match selectInventoryCredit localeCompare inventory (pc_provider (rp_pool (ob_resolved o))) nowMs with
          | CreditSelected credit =>
              let! creditIdHash := hash_or_throw ("uos_ai" +:+ NUL +:+ "codex_reset_credit" +:+ NUL +:+ ic_id credit) in
              if negb (nonEmptyText 512 creditIdHash) then kv_ret (inr (pool_skipped "credit_hash_unavailable")) else
              select_loop rest nowMs (credits ++ [mkSelected (ob_resolved o) credit creditIdHash])%list reason
          | NoEligibleCredit => select_loop rest nowMs credits "inventory_no_eligible_codex_credit"
          | InventoryEmpty => select_loop rest nowMs credits reason
          end
      end
  end.

Definition selectPoolCredits (inventoryResults : list PoolInventoryObservation) (nowMs : Z) : M (PoolSelection + CodexBankedResetPoolOutcome) :=
  let! looped := select_loop inventoryResults nowMs [] "inventory_empty" in
  kv_ret (match looped with
          | inr outcome => inr outcome
          | inl (credits, reason) =>
              inl (match sort_selected localeCompare credits with
                   | selected :: _ => mkSelection (Some selected) "selected"
                   | [] => mkSelection None (if bool_decide (reason = "inventory_empty") then "no_eligible_credit" else reason)
                   end)
          end).

(** ** The evaluation *)

(** The selected candidate, fenced by the whole cohort and bound to its credit. *)
Definition live_candidate (complete : list ResolvedPoolCandidate) (selected : SelectedPoolCredit) : CodexBankedResetCandidate :=
  let c := pc_candidate (rp_pool (sp_resolved selected)) in
  mkCandidate (cd_accountId c) (cd_authorization c) (cd_credentialVersion c) (cd_quotaResetAtMs c) (cd_routingGeneration c)
    (List.concat ((fun r => cd_fences (pc_candidate (rp_pool r))) <$> complete)) (Some (sp_credit selected)).

Definition runLivePoolSubmission (complete : list ResolvedPoolCandidate) (selection : PoolSelection) : M CodexBankedResetPoolOutcome :=
  match ps_selected selection with
  | None => kv_ret (pool_skipped (ps_decisionReason selection))
  | Some selected =>
      let! reset := attemptCodexBankedReset others faults clock dateNow aborted liveConfig newOwnerToken kvOpens parseCodexAuthPool sha256Hex
        hash localeCompare (pc_provider (rp_pool (sp_resolved selected))) (live_candidate complete selected) in
      kv_ret (mkPoolOutcome (PoolReset (oc_kind reset)) (oc_reason reset) (Some (rp_pool (sp_resolved selected))) (Some reset))
  end.

Definition evaluateCodexBankedResetPool (candidates : list CodexBankedResetPoolCandidate) : M CodexBankedResetPoolOutcome :=
  let! now := read_clock clock in
  match now with
  | None => kv_ret (pool_skipped "invalid_clock")
  | Some nowMs =>
      match orderPoolCandidates candidates with
      | inr reason => kv_ret (pool_skipped reason)
      | inl ordered =>
          let! configured := read_config liveConfig in
          match loadPoolSubmissionConfig ordered configured with
          | inr reason => kv_ret (pool_skipped reason)
          | inl config =>
              let! opened := await_call others kvOpens in
              if negb opened then kv_ret (pool_skipped "kv_unavailable") else
              let! episode := preparePoolEpisode ordered nowMs in
              match episode with
              | inr outcome => kv_ret outcome
              | inl episode =>
                  let! stale := stalePoolFenceReason (pe_complete episode) in
                  match stale with
                  | Some reason => kv_ret (pool_skipped reason)
                  | None =>
                      let! duplicate := existingShadowDecisionOutcome config (pe_complete episode) (pe_episodeHash episode) (pe_fences episode) nowMs in
                      match duplicate with
                      | Some duplicate => kv_ret duplicate
                      | None =>
                          let! observed := observePoolInventories (pe_eligible episode) in
                          match observed with
                          | inr outcome => kv_ret outcome
                          | inl (inventoryResults, nowMs) =>
                              let! selection := selectPoolCredits inventoryResults nowMs in
                              match selection with
                              | inr outcome => kv_ret outcome
                              | inl selection =>
                                  match buildShadowDecision (pe_episodeHash episode) nowMs (ps_decisionReason selection) (ps_selected selection)
                                          (pe_fences episode) with
                                  | inr outcome => kv_ret outcome
                                  | inl decision =>
                                      if bool_decide (bc_mode config = ModeShadow)
                                      then persistShadowDecisionOutcome decision (pe_settingsEntries episode) selection nowMs
                                      else runLivePoolSubmission (pe_complete episode) selection
                                  end
                              end
                          end
                      end
                  end
              end
          end
      end
  end.
End pool.
