(* ===== verification/BankedResetPoolTheorems.v ===== *)
(** * A cohort spends one credit, the one that expires first

    An evaluation of a blocked cohort redeems at most one credit, under the
    fences of every account of the cohort; the credit it selects expires no
    later than any other it may select. *)

From Stdlib Require Import ZArith Lia Sorted.
From stdpp Require Import base gmap strings list pretty.
From S2P Require Import Prelude Js KvStore KvLogic KernelStore ApiKeyUsage ApiKeyRows BankedReset BankedResetStore BankedResetRows BankedResetLogic BankedResetGuarantee BankedResetAlone BankedResetTheorems BankedResetPool.
Open Scope string_scope.
Open Scope Z_scope.
Open Scope kv_scope.

(** ** The sorts *)

Lemma insert_pool_perm p l : insert_pool p l ≡ₚ p :: l.
Proof. induction l as [|q l IH]; cbn; [done|]. case_match; [done|]. rewrite IH. constructor. Qed.

Lemma sort_pool_perm l : sort_pool l ≡ₚ l.
Proof. induction l as [|p l IH]; cbn; [done|]. rewrite insert_pool_perm. by constructor. Qed.

(** Valid slots, in order, are the slots of different accounts. *)
Lemma insert_pool_sorted p l :
  StronglySorted (fun p q => pc_slot p <= pc_slot q) l -> StronglySorted (fun p q => pc_slot p <= pc_slot q) (insert_pool p l).
Proof.
  induction 1 as [|q l Hl IH Hq]; cbn; [by repeat constructor|]. destruct (Z.leb_spec (pc_slot p) (pc_slot q)) as [Hle|Hlt].
  - constructor; [by constructor|]. constructor; [done|]. eapply Forall_impl; [exact Hq|]. cbn. lia.
  - constructor; [done|]. rewrite insert_pool_perm. constructor; [lia|done].
Qed.

Lemma sort_pool_sorted l : StronglySorted (fun p q => pc_slot p <= pc_slot q) (sort_pool l).
Proof. induction l as [|p l IH]; cbn; [constructor|by apply insert_pool_sorted]. Qed.

Lemma slots_distinct previous l :
  StronglySorted (fun p q => pc_slot p <= pc_slot q) l -> slots_valid previous l = true ->
  NoDup (pc_slot <$> l) /\ forall s, previous = Some s -> Forall (fun p => s <= pc_slot p) l -> Forall (fun p => s < pc_slot p) l.
Proof.
  intros Hl. revert previous. induction Hl as [|p l Hl IH Hp]; intros previous; cbn [slots_valid]; [by split; [constructor|]|].
  rewrite !andb_true_iff, negb_true_iff, bool_decide_eq_false. intros [[_ Hne] Hv]. destruct (IH _ Hv) as [Hd Hlt].
  specialize (Hlt _ eq_refl Hp). split.
  - cbn. constructor; [|done]. intros (q & E & Hq)%list_elem_of_fmap_1. rewrite Forall_forall in Hlt. specialize (Hlt q Hq). lia.
  - intros s -> [Hs _]%Forall_cons. assert (s < pc_slot p) by (destruct (decide (s = pc_slot p)); [congruence|lia]).
    constructor; [done|]. eapply Forall_impl; [exact Hlt|]. cbn. lia.
Qed.

Lemma ordered_pools candidates ordered :
  orderPoolCandidates candidates = inl ordered -> ordered ≡ₚ candidates /\ NoDup (pc_slot <$> candidates).
Proof.
  unfold orderPoolCandidates. destruct candidates as [|c cs]; [done|]. cbv zeta. generalize (c :: cs). clear c cs. intros l.
  destruct (poolSlotsAreValid (sort_pool l)) eqn:Ev; [|done]. intros [= <-]. split; [apply sort_pool_perm|].
  destruct (slots_distinct None _ (sort_pool_sorted l) Ev) as [Hd _]. by rewrite sort_pool_perm in Hd.
Qed.

(** The first credit expires no later than the second. *)
Definition expires_by (c d : ResetInventoryCredit) : Prop :=
  match ic_expiresAtMs c, ic_expiresAtMs d with Some x, Some y => x <= y | None, Some _ => False | _, None => True end.

#[export] Instance expires_by_preorder : PreOrder expires_by.
Proof.
  split; unfold expires_by.
  - intros c. destruct (ic_expiresAtMs c); [lia|done].
  - intros c d e. destruct (ic_expiresAtMs c), (ic_expiresAtMs d), (ic_expiresAtMs e); lia || done.
Qed.

Lemma credit_before_expires lc c d :
  (credit_before lc c d = true -> expires_by c d) /\ (credit_before lc c d = false -> expires_by d c).
Proof.
  unfold credit_before, expires_by. destruct (ic_expiresAtMs c) as [x|], (ic_expiresAtMs d) as [y|]; try done.
  destruct (Z.eqb_spec x y) as [->|Hne]; [done|]. split; intros H; [apply Z.ltb_lt in H|apply Z.ltb_ge in H]; lia.
Qed.

Lemma selected_before_expires lc s t :
  (selected_before lc s t = true -> expires_by (sp_credit s) (sp_credit t))
  /\ (selected_before lc s t = false -> expires_by (sp_credit t) (sp_credit s)).
Proof.
  unfold selected_before, expires_by. destruct (ic_expiresAtMs (sp_credit s)) as [x|], (ic_expiresAtMs (sp_credit t)) as [y|]; try done.
  destruct (Z.eqb_spec x y) as [->|Hne]; [done|]. split; intros H; [apply Z.ltb_lt in H|apply Z.ltb_ge in H]; lia.
Qed.

Lemma Forall_concat_in {A} (P : A -> Prop) (l : list A) (ls : list (list A)) : Forall P (List.concat ls) -> l ∈ ls -> Forall P l.
Proof.
  intros H Hl. induction Hl as [l ls|l l' ls Hl IH]; cbn in H; apply Forall_app in H as [H1 H2]; [done|by apply IH].
Qed.

(** An insertion sort puts a least element first. *)
Section least.
Context {A : Type} (before : A -> A -> bool) (f : A -> ResetInventoryCredit) (insert : A -> list A -> list A).
Context (Hinsert : forall c l, insert c l = match l with [] => [c] | d :: r => if before c d then c :: l else d :: insert c r end).
Context (Hbefore : forall c d, (before c d = true -> expires_by (f c) (f d)) /\ (before c d = false -> expires_by (f d) (f c))).

Lemma insert_elements c l x : x ∈ insert c l <-> x = c \/ x ∈ l.
Proof.
  clear Hbefore f. induction l as [|d l IH]; rewrite Hinsert; [set_solver|]. destruct (before c d); [set_solver|].
  rewrite elem_of_cons, IH. set_solver.
Qed.

Lemma sorted_elements l x : x ∈ foldr insert [] l <-> x ∈ l.
Proof. clear Hbefore f. induction l as [|c l IH]; cbn; [done|]. rewrite insert_elements, IH. set_solver. Qed.

Lemma sorted_least l h t : foldr insert [] l = h :: t -> forall x, x ∈ l -> expires_by (f h) (f x).
Proof.
  revert h t. induction l as [|c l IH]; cbn; intros h t E x Hx; [by apply not_elem_of_nil in Hx|].
  rewrite Hinsert in E. destruct (foldr insert [] l) as [|d r] eqn:El.
  - injection E as <- <-. apply elem_of_cons in Hx as [->|Hx]; [reflexivity|]. apply sorted_elements in Hx.
    rewrite El in Hx. by apply not_elem_of_nil in Hx.
  - specialize (IH _ _ eq_refl). destruct (Hbefore c d) as [Ht Hf]. destruct (before c d).
    + injection E as <- <-. apply elem_of_cons in Hx as [->|Hx]; [reflexivity|]. etrans; [by apply Ht|]. by apply IH.
    + injection E as <- <-. apply elem_of_cons in Hx as [->|Hx]; [by apply Hf|by apply IH].
Qed.
End least.

Lemma selected_credit_least lc inventory provider nowMs best :
  selectInventoryCredit lc inventory provider nowMs = CreditSelected best ->
  (best ∈ in_credits inventory /\ eligible provider nowMs best = true)
  /\ forall c, c ∈ in_credits inventory -> eligible provider nowMs c = true -> expires_by best c.
Proof.
  unfold selectInventoryCredit. destruct (_ =? 0); [done|]. destruct (sort_credits lc _) as [|b t] eqn:E; [done|]. intros [= <-].
  assert (forall x, x ∈ List.filter (eligible provider nowMs) (in_credits inventory) <-> x ∈ in_credits inventory /\ eligible provider nowMs x = true) as Hf.
  { intros x. by rewrite !list_elem_of_In, filter_In. }
  split.
  - apply Hf, (sorted_elements (credit_before lc) (insert_credit lc) ltac:(by intros c [])). unfold sort_credits in E. rewrite E. left.
  - intros c Hc He. apply (sorted_least (credit_before lc) id (insert_credit lc) ltac:(by intros ? []) (credit_before_expires lc) _ _ _ E).
    by apply Hf.
Qed.

(** An inventory whose available count is zero, or none of whose credits is
    selected, has no eligible credit. *)
Lemma unselected_none lc inventory value provider nowMs :
  validInventory value nowMs = Some inventory ->
  (forall best, selectInventoryCredit lc inventory provider nowMs <> CreditSelected best) ->
  forall c, c ∈ in_credits inventory -> eligible provider nowMs c = false.
Proof.
  intros Hv Hn c Hc. apply not_true_is_false. intros He. unfold selectInventoryCredit in Hn.
  assert (c ∈ List.filter (eligible provider nowMs) (in_credits inventory)) as Hf by by rewrite list_elem_of_In, filter_In, <- list_elem_of_In.
  destruct (Z.eqb_spec (in_availableCount inventory) 0) as [E|_].
  - assert (Z.of_nat (length (List.filter available (in_credits inventory))) = in_availableCount inventory) as Hcount.
    { clear - Hv. unfold validInventory in Hv. repeat (case_match; simplify_option_eq; try done). by apply Z.eqb_eq; eapply andb_prop. }
    rewrite E in Hcount. apply andb_prop in He as [He _]. apply andb_prop in He as [He _]. apply andb_prop in He as [He _].
    assert (c ∈ List.filter available (in_credits inventory)) as Ha by by rewrite list_elem_of_In, filter_In, <- list_elem_of_In.
    destruct (List.filter available _); [by apply not_elem_of_nil in Ha|cbn in Hcount; lia].
  - destruct (sort_credits lc _) as [|b t] eqn:Es; [|by apply (Hn b)].
    apply (sorted_elements (credit_before lc) (insert_credit lc) ltac:(by intros ? [])) in Hf. unfold sort_credits in Es. rewrite Es in Hf.
    by apply not_elem_of_nil in Hf.
Qed.

(** ** The selection *)

Section selection.
Context {S : Type} (hash : string -> option string) (localeCompare : string -> string -> Z) (nowMs : Z).

(** A credit that an inventory of an account offers. *)
Definition offered_by (pool : CodexBankedResetPoolCandidate) (answer : jsval) (c : ResetInventoryCredit) : Prop :=
  exists inventory, poolInventoryIsUsable answer nowMs = Some inventory /\ c ∈ in_credits inventory
    /\ eligible (pc_provider pool) nowMs c = true.

Definition offers (o : PoolInventoryObservation) (c : ResetInventoryCredit) : Prop := offered_by (rp_pool (ob_resolved o)) (ob_inventory o) c.

Definition selectable (o : PoolInventoryObservation) : Prop := is_Some (poolInventoryIsUsable (ob_inventory o) nowMs).

(** A credit of an observation, which expires no later than any it offers. *)
Definition earliest_of (o : PoolInventoryObservation) (s : SelectedPoolCredit) : Prop :=
  sp_resolved s = ob_resolved o /\ offers o (sp_credit s) /\ forall c, offers o c -> expires_by (sp_credit s) c.

(** The credits found are one of each observation that offers any. *)
Record found_in (observations : list PoolInventoryObservation) (found : list SelectedPoolCredit) : Prop := {
  fi_sound s : s ∈ found -> exists o, o ∈ observations /\ earliest_of o s;
  fi_complete o : o ∈ observations -> (exists s, s ∈ found /\ earliest_of o s) \/ forall c, ~ offers o c }.

Lemma found_cons o observations found s :
  earliest_of o s -> found_in observations found -> found_in (o :: observations) (s :: found).
Proof.
  intros Hs [H1 H2]. split.
  - intros s' [->|H]%elem_of_cons; [exists o; split; [left|done]|]. destruct (H1 s' H) as (o' & ? & ?). exists o'. split; [by right|done].
  - intros o' [->|H]%elem_of_cons; [left; exists s; split; [left|done]|].
    destruct (H2 o' H) as [(s' & ? & ?)|?]; [left; exists s'; split; [by right|done]|by right].
Qed.

Lemma found_skip o observations found :
  (forall c, ~ offers o c) -> found_in observations found -> found_in (o :: observations) found.
Proof.
  intros Hn [H1 H2]. split.
  - intros s H. destruct (H1 s H) as (o' & ? & ?). exists o'. split; [by right|done].
  - intros o' [->|H]%elem_of_cons; [by right|by apply H2].
Qed.

(** A hash that is a usable audit key. *)
Definition hashes : Prop := forall text, exists h, hash text = Some h /\ nonEmptyText 512 h = true.

Lemma no_hash text o : hash text = o -> (if o is Some h then nonEmptyText 512 h = false else True) -> ~ hashes.
Proof. intros E Ho Hh. destruct (Hh text) as (h & Eh & Hn). rewrite Eh in E. subst o. congruence. Qed.

Definition loop_result (observations : list PoolInventoryObservation) (credits : list SelectedPoolCredit)
    (r : Result string ((list SelectedPoolCredit * string) + CodexBankedResetPoolOutcome)) : Prop :=
  match r with
  | Ok (inl (l, reason)) =>
      (l = [] /\ reason = "inventory_response_invalid_or_expired" /\ ~ Forall selectable observations)
      \/ (Forall selectable observations /\ exists found, l = (credits ++ found)%list /\ found_in observations found)
  | _ => ~ hashes
  end.

(** The next observation, from which [s] was taken, if any. *)
Lemma loop_result_cons o observations credits s r :
  selectable o -> (if s is Some s then earliest_of o s else forall c, ~ offers o c) ->
  loop_result observations (credits ++ option_list s) r -> loop_result (o :: observations) credits r.
Proof.
  intros Ho Hs. destruct r as [e|[[l reason]|out]]; cbn; [done| |done].
  intros [(-> & -> & Hn)|(Hall & found & -> & Hf)].
  - left. split_and!; [done..|]. by intros [_ ?]%Forall_cons.
  - right. split; [by constructor|]. exists (option_list s ++ found)%list. split; [by rewrite app_assoc|].
    destruct s; cbn; [by apply found_cons|by apply found_skip].
Qed.

Lemma select_loop_spec observations credits reason (p : nat * World S) :
  Forall (fun o => is_null (ob_inventory o) = false) observations ->
  exists r, select_loop hash localeCompare observations nowMs credits reason p = (r, p) /\ loop_result observations credits r.
Proof.
  revert credits reason. induction observations as [|o observations IH]; intros credits reason Hnn.
  { eexists. split; [reflexivity|]. right. split; [done|]. exists []. split; [by rewrite app_nil_r|]. split; intros ? H; by apply not_elem_of_nil in H. }
  apply Forall_cons in Hnn as [Ho Hnn]. cbn [select_loop]. rewrite Ho.
  destruct (poolInventoryIsUsable (ob_inventory o) nowMs) as [inventory|] eqn:Eu.
  2:{ eexists. split; [reflexivity|]. left. split_and!; [done..|]. intros [[? ?] _]%Forall_cons. congruence. }
  assert (selectable o) as Hsel by by eexists.
  assert (validInventory (ob_inventory o) nowMs = Some inventory) as Hv.
  { revert Eu. unfold poolInventoryIsUsable. destruct (validInventory _ _); cbn; [|done]. destruct (existsb _ _); congruence. }
  destruct (selectInventoryCredit localeCompare inventory _ nowMs) as [best| |] eqn:Es.
  - destruct (selected_credit_least _ _ _ _ _ Es) as [[Hin He] Hleast].
    assert (forall h, earliest_of o (mkSelected (ob_resolved o) best h)) as Hearly.
    { intros h. split_and!; [done|by exists inventory|]. intros c (i & Ei & Hc & Hce). replace i with inventory in Hc by congruence. by apply Hleast. }
    unfold kv_bind, hash_or_throw. destruct (hash _) as [h|] eqn:Eh; cbn.
    2:{ eexists. split; [reflexivity|]. by eapply no_hash. }
    destruct (nonEmptyText 512 h) eqn:En; cbn.
    2:{ eexists. split; [reflexivity|]. by eapply no_hash; [exact Eh|]. }
    destruct (IH (credits ++ [mkSelected (ob_resolved o) best h])%list reason Hnn) as (r & E & Hr).
    exists r. split; [exact E|]. by apply (loop_result_cons _ _ _ (Some (mkSelected (ob_resolved o) best h))).
  - destruct (IH credits reason Hnn) as (r & E & Hr). exists r. split; [exact E|].
    apply (loop_result_cons _ _ _ None); [done| |by rewrite app_nil_r].
    intros c (i & Ei & Hc & Hce). replace i with inventory in Hc by congruence.
    rewrite (unselected_none localeCompare _ _ _ _ Hv) in Hce; [done|congruence|done].
  - destruct (IH credits "inventory_no_eligible_codex_credit" Hnn) as (r & E & Hr). exists r. split; [exact E|].
    apply (loop_result_cons _ _ _ None); [done| |by rewrite app_nil_r].
    intros c (i & Ei & Hc & Hce). replace i with inventory in Hc by congruence.
    rewrite (unselected_none localeCompare _ _ _ _ Hv) in Hce; [done|congruence|done].
Qed.

(** What a selection from the observations is. *)
Definition selection_ok (observations : list PoolInventoryObservation) (selection : PoolSelection) : Prop :=
  match ps_selected selection with
  | Some s => Forall selectable observations
              /\ (exists o, o ∈ observations /\ sp_resolved s = ob_resolved o /\ offers o (sp_credit s))
              /\ forall o c, o ∈ observations -> offers o c -> expires_by (sp_credit s) c
  | None => Forall selectable observations -> forall o c, o ∈ observations -> ~ offers o c
  end.

Lemma select_spec observations (p : nat * World S) :
  Forall (fun o => is_null (ob_inventory o) = false) observations ->
  exists r, selectPoolCredits hash localeCompare observations nowMs p = (r, p)
    /\ match r with Ok (inl selection) => selection_ok observations selection | _ => ~ hashes end.
Proof.
  intros Hnn. destruct (select_loop_spec observations [] "inventory_empty" p Hnn) as (r & E & Hr).
  unfold selectPoolCredits, kv_bind. rewrite E. destruct r as [e|[[l reason]|out]]; [by eexists..| |by eexists].
  eexists. split; [reflexivity|]. unfold selection_ok. destruct (sort_selected localeCompare l) as [|s t] eqn:Es; cbn.
  - destruct Hr as [(_ & _ & Hn)|(_ & found & -> & [_ Hf])]; [done|]. intros _ o c Ho Hc. cbn in Es.
    destruct (Hf o Ho) as [(s & Hs & _)|Hn]; [|by eapply Hn].
    apply (sorted_elements (selected_before localeCompare) (insert_selected localeCompare) ltac:(by intros ? [])) in Hs.
    unfold sort_selected in Es. rewrite Es in Hs. by apply not_elem_of_nil in Hs.
  - destruct Hr as [(-> & _ & _)|(Hall & found & -> & [Hs Hf])]; [done|]. cbn in Es.
    assert (s ∈ found) as Hin.
    { apply (sorted_elements (selected_before localeCompare) (insert_selected localeCompare) ltac:(by intros ? [])).
      unfold sort_selected in Es. rewrite Es. left. }
    destruct (Hs s Hin) as (o & Ho & E1 & E2 & _). split_and!; [done|by exists o|]. intros o' c Ho' Hc.
    destruct (Hf o' Ho') as [(s' & Hs' & _ & _ & Hleast)|Hn]; [|by apply Hn in Hc]. etrans; [|by apply Hleast].
    by apply (sorted_least (selected_before localeCompare) sp_credit (insert_selected localeCompare) ltac:(by intros ? [])
      (selected_before_expires localeCompare) _ _ _ Es).
Qed.
End selection.

(** ** The cohort *)

Section pool.
Context {S : Type} `{Kv : !KvStoreOf jsval S}.
Local Notation W := (World S).
Local Notation M := (KvM (World S)).
Context (Mine Yours : string -> Prop).
Context (others : Clients (World S)) (faults : nat -> Fault) (clock : nat -> option number) (dateNow : nat -> Z) (aborted : nat -> bool)
  (liveConfig : nat -> option CodexBankedResetConfig) (newOwnerToken : nat -> option string) (kvOpens : nat -> bool)
  (parseCodexAuthPool : jsval -> Result string (option (list string))) (sha256Hex : string -> string)
  (hash : string -> option string) (localeCompare : string -> string -> Z).
Local Notation rely := (reset_rely (fun t => Mine t \/ Yours t)).
Local Notation calm := (reset_rely Yours).
Context (Hdisjoint : forall t, Mine t -> ~ Yours t) (Htokens : forall n t, newOwnerToken n = Some t -> Mine t).
Context `{Hothers : !RelyOn rely others}.

(** A neutral call, and what is known of its answer. *)
Definition yields {A} (F : A -> Prop) (m : M A) : Prop := forall w, triple m w (fun r w' => rely w w' /\ forall a, r = Ok a -> F a).

Lemma yields_ret {A} (F : A -> Prop) a : F a -> yields F (kv_ret a).
Proof. intros H w. apply triple_ret. split; [reflexivity|]. by intros ? [= <-]. Qed.

Lemma yields_any {A} (m : M A) : guarantees rely m -> yields (fun _ => True) m.
Proof. intros H w. eapply triple_mono; [apply H|]. done. Qed.

Lemma yields_bind {A B} (F : A -> Prop) (G : B -> Prop) (m : M A) (k : A -> M B) :
  yields F m -> (forall a, F a -> yields G (k a)) -> yields G (kv_bind m k).
Proof.
  intros Hm Hk w. apply triple_bind. eapply triple_mono; [apply Hm|]. intros [e|a] w1 [H1 HF]; [done|].
  eapply triple_mono; [apply Hk; auto|]. intros r w' [H2 HG]. split; [by etrans|done].
Qed.

Lemma yields_after {A B} (G : B -> Prop) (m : M A) (k : A -> M B) :
  guarantees rely m -> (forall a, yields G (k a)) -> yields G (kv_bind m k).
Proof. intros Hm Hk. by eapply yields_bind; [apply yields_any|]. Qed.

Lemma yields_catch {A} (F : A -> Prop) (m : M A) h : yields F m -> (forall e, yields F (h e)) -> yields F (kv_catch m h).
Proof.
  intros Hm Hh w. apply triple_catch. eapply triple_mono; [apply Hm|]. intros [e|a] w1 [H1 HF]; [|done].
  eapply triple_mono; [apply Hh|]. intros r w' [H2 HG]. split; [by etrans|done].
Qed.

Lemma guarantees_hash text : guarantees rely (hash_or_throw (S := S) hash text).
Proof. unfold hash_or_throw. case_match; auto with gateway. Qed.

(** *** What precedes a submission *)

Lemma guarantees_currentFences candidate : guarantees rely (readCurrentFences others faults candidate).
Proof. unfold readCurrentFences. destruct (cd_fences candidate) as [|f fs]; [auto with gateway|by apply (guarantees_read_fences Mine Yours)]. Qed.

Lemma guarantees_stale complete : guarantees rely (stalePoolFenceReason others faults complete).
Proof.
  induction complete as [|r complete IH]; cbn [stalePoolFenceReason]; [auto with gateway|].
  apply guarantees_bind; [apply guarantees_currentFences|]. intros []; auto with gateway.
Qed.

(** The account's setting was read, and does not allow its resets. *)
Definition disallowed (w w' : W) (r : ResolvedPoolCandidate) : Prop :=
  exists v, saw (ERead (codexResetUsageKey (rc_accountIdHash (rp_context r))) v) w w' /\ usage_allows v = false.

Lemma disallowed_later w w1 w' r : silent w1 w' -> disallowed w w1 r -> disallowed w w' r.
Proof. intros H (v & Hv & Hu). exists v. split; [by eapply saw_later|done]. Qed.

Lemma disallowed_earlier w w1 w' r : silent w w1 -> disallowed w1 w' r -> disallowed w w' r.
Proof. intros H (v & Hv & Hu). exists v. split; [by eapply saw_earlier|done]. Qed.

Lemma settings_spec complete w :
  triple (read_settings others faults dateNow parseCodexAuthPool sha256Hex complete) w (fun r w' =>
    rely w w' /\ forall l, r = Ok l -> l.*1 = complete /\ Forall (fun e => fst (snd e) = false -> disallowed w w' (fst e)) l).
Proof.
  revert w. induction complete as [|r complete IH]; intros w; cbn [read_settings].
  { apply triple_ret. split; [reflexivity|]. by intros l [= <-]. }
  apply triple_bind. eapply triple_mono; [by apply (usage_spec Mine Yours)|]. intros [e|[allowed es]] w1 [H1 Hu]; [by split|].
  destruct (Hu _ _ eq_refl) as (_ & Ha & Hsaw). apply triple_bind. eapply triple_mono; [apply IH|].
  intros [e|more] w2 [H2 Hm]; [by split; [etrans|]|]. destruct (Hm _ eq_refl) as [<- Hall]. apply triple_ret. split; [by etrans|].
  intros l [= <-]. split; [done|]. constructor.
  - cbn. intros ->. apply (disallowed_later _ w1); [apply H2|]. by exists (row w1 (codexResetUsageKey (rc_accountIdHash (rp_context r)))).
  - eapply Forall_impl; [exact Hall|]. intros e He Hf. apply (disallowed_earlier _ w1); [apply H1|auto].
Qed.

(** An episode of the cohort: every account in it with its context, and some of
    them eligible. *)
Definition episode_of (ordered : list CodexBankedResetPoolCandidate) (e : PoolEpisode) : Prop :=
  rp_pool <$> pe_complete e = ordered
  /\ Forall (fun r => makeResetContext hash (pc_candidate (rp_pool r)) = Some (rp_context r)) (pe_complete e)
  /\ pe_eligible e ⊆ pe_complete e.

Lemma resolved_pools ordered complete :
  resolvePoolCandidates hash ordered = Some complete ->
  rp_pool <$> complete = ordered /\ Forall (fun r => makeResetContext hash (pc_candidate (rp_pool r)) = Some (rp_context r)) complete.
Proof.
  intros H%mapM_Some. induction H as [|pool r ordered complete Hr H [IH1 IH2]]; [done|].
  apply fmap_Some in Hr as (context & Ec & ->). cbn. split; [by f_equal|]. by constructor.
Qed.

Lemma guarantees_episode_hash version fences : guarantees rely (poolEpisodeHash (S := S) hash version fences).
Proof. apply guarantees_bind; [apply guarantees_hash|auto with gateway]. Qed.

Lemma episode_spec ordered nowMs w :
  triple (preparePoolEpisode others faults dateNow parseCodexAuthPool sha256Hex hash ordered nowMs) w (fun r w' =>
    rely w w' /\ forall e, r = Ok (inl e) ->
      episode_of ordered e /\ forall x, x ∈ pe_complete e -> x ∈ pe_eligible e \/ disallowed w w' x).
Proof.
  unfold preparePoolEpisode. assert (forall o : CodexBankedResetPoolOutcome, triple (kv_ret (inr o)) w (fun r w' => rely w w' /\ forall e, r = Ok (inl e) ->
      episode_of ordered e /\ forall x, x ∈ pe_complete e -> x ∈ pe_eligible e \/ disallowed w w' x)) as Hret.
  { intros o. apply triple_ret. by split; [reflexivity|]. }
  destruct (resolvePoolCandidates hash ordered) as [complete|] eqn:Er; [|apply Hret].
  destruct (negb _); [apply Hret|]. clear Hret. apply triple_bind, triple_catch, triple_bind.
  eapply triple_mono; [apply settings_spec|]. intros [err|settings] w1 [H1 Hs]; apply triple_ret; [by apply triple_ret; split|].
  destruct (Hs _ eq_refl) as [Hc Hd]. destruct (fst <$> List.filter _ settings) as [|r l] eqn:El; [by apply triple_ret; split|].
  apply triple_bind. eapply triple_mono; [apply guarantees_episode_hash|].
  intros [err|h] w2 H2; [by split; [etrans|]|]. apply triple_ret. split; [by etrans|]. intros e [= E].
  destruct h as [h|]; [|done]. injection E as <-. destruct (resolved_pools _ _ Er) as [E1 E2]. cbn. rewrite <- El, <- Hc.
  split; [split_and!; [cbn; congruence|cbn; congruence|]|].
  - intros x (y & -> & Hy)%list_elem_of_fmap_1. apply list_elem_of_fmap_2. apply list_elem_of_In, filter_In in Hy as [Hy _].
    by apply list_elem_of_In.
  - intros x (y & -> & Hy)%list_elem_of_fmap_1. destruct (fst (snd y)) eqn:Ey.
    + left. apply list_elem_of_fmap_2, list_elem_of_In, filter_In. split; [by apply list_elem_of_In|done].
    + right. rewrite Forall_forall in Hd. apply (disallowed_later _ w1); [apply H2|auto].
Qed.

Lemma guarantees_existing_decision config complete h fences nowMs :
  guarantees rely (existingShadowDecisionOutcome others faults dateNow parseCodexAuthPool sha256Hex config complete h fences nowMs).
Proof.
  unfold existingShadowDecisionOutcome. destruct (negb _); [auto with gateway|].
  apply guarantees_bind; [apply guarantees_bind; [apply guarantees_try_get|auto with gateway]|]. intros [d|]; [|auto with gateway].
  destruct (_ || _); [auto with gateway|]. apply guarantees_bind; [|auto with gateway].
  case_match; [by apply (guarantees_readUsageGate Mine Yours)|auto with gateway].
Qed.

(** *** The inventories *)

(** The events of a reading of inventories. *)
Definition reading (w w' : W) (read : list Event) : Prop :=
  reset_interferes Yours w w' /\ w_trace w' = (w_trace w ++ read)%list /\ omap redeem_of read = [].

Lemma reading_nil w : reading w w [].
Proof. split_and!; [reflexivity|by rewrite app_nil_r|done]. Qed.

Lemma reading_app w w1 w' read more : reading w w1 read -> reading w1 w' more -> reading w w' (read ++ more).
Proof.
  intros (A & B & C) (A' & B' & C'). split_and!; [by etrans|by rewrite B', B, app_assoc|by rewrite omap_app, C, C'].
Qed.

Lemma reading_calm w w' : calm w w' -> exists quietly, reading w w' quietly /\ Forall quiet_event quietly.
Proof. intros [Hi (l & E & H)]. exists l. split; [|done]. split_and!; [done..|]. apply (quiet_nothing _ H). Qed.

Lemma inventories_app l l' : inventories (l ++ l') = (inventories l ++ inventories l')%list.
Proof. apply omap_app. Qed.

(** The answers are those of the accounts, in order. *)
Definition answered (o : PoolInventoryObservation) (i : Z * option jsval) : Prop :=
  fst i = pc_slot (rp_pool (ob_resolved o)) /\ ob_inventory o = default JNull (snd i).

Lemma read_inventories_spec eligible w :
  triple (readPoolInventories others eligible) w (fun r w' =>
    exists read, reading w w' read
      /\ forall l, r = Ok l -> ob_resolved <$> l = eligible /\ Forall2 answered l (inventories read)).
Proof.
  revert w. induction eligible as [|r eligible IH]; intros w; cbn [readPoolInventories].
  { apply triple_ret. exists []. split; [apply reading_nil|]. intros l [= <-]. split; [done|constructor]. }
  apply triple_bind, (triple_inventory (rely := rely)). intros n w1 H1. set (e := EInventory _ _). apply triple_bind.
  eapply triple_mono; [apply IH|]. intros o w' (read & Hr & Hl). apply (rely_calm Mine Yours) in H1.
  destruct (reading_calm _ _ H1) as (quietly & Hq & Hquiet).
  assert (reading w w' (quietly ++ [e] ++ read)) as Hread.
  { eapply reading_app; [exact Hq|]. eapply reading_app; [|exact Hr]. split_and!; [apply interferes_trace|done|done]. }
  assert (inventories (quietly ++ [e] ++ read) = (pc_slot (rp_pool r), pv_readInventory (pc_provider (rp_pool r)) n) :: inventories read) as Ei.
  { rewrite !inventories_app, (proj2 (quiet_nothing _ Hquiet)). done. }
  destruct o as [err|more]; [by exists (quietly ++ [e] ++ read)%list|]. destruct (Hl _ eq_refl) as [<- Ha].
  apply triple_ret. exists (quietly ++ [e] ++ read)%list. split; [done|]. intros l [= <-]. split; [done|].
  rewrite Ei. by repeat constructor.
Qed.

(** The accounts in the order they were read, with their answers, none null. *)
Record observed (eligible : list ResolvedPoolCandidate) (l : list PoolInventoryObservation) (read : list Event) : Prop := {
  ov_accounts : ob_resolved <$> l = eligible;
  ov_answers : Forall (fun o => is_null (ob_inventory o) = false) l;
  ov_inventories : inventories read = (fun o => (pc_slot (rp_pool (ob_resolved o)), Some (ob_inventory o))) <$> l }.

Lemma answered_observed eligible l read :
  ob_resolved <$> l = eligible -> Forall2 answered l (inventories read) -> existsb (fun o => is_null (ob_inventory o)) l = false ->
  observed eligible l read.
Proof.
  intros E Ha Hn. constructor; [done|..].
  - apply Forall_forall. intros o Ho. apply not_true_is_false. intros Hnull. apply not_true_iff_false in Hn. apply Hn, existsb_exists.
    exists o. split; [by apply list_elem_of_In|done].
  - clear E. induction Ha as [|o [slot answer] l answers [E1 E2] Ha IH]; [done|]. cbn in *. apply orb_false_iff in Hn as [Hn Hn'].
    rewrite (IH Hn'). destruct answer as [answer|]; cbn in E2; [by subst|by rewrite E2 in Hn].
Qed.

Lemma observe_spec eligible w :
  triple (observePoolInventories others faults clock eligible) w (fun r w' =>
    exists events, reading w w' events
      /\ forall l t, r = Ok (inl (l, t)) -> exists read checked,
           events = (read ++ EClock (Some t) :: checked)%list /\ Forall quiet_event checked /\ observed eligible l read).
Proof.
  apply triple_bind. eapply triple_mono; [apply read_inventories_spec|]. intros [err|l] w1 (read & Hr & Hl); [by exists read|].
  destruct (Hl _ eq_refl) as [El Ha]. apply triple_bind, triple_clock. intros n. set (e := EClock _). set (wc := happens e w1).
  assert (reading w wc (read ++ [e])) as Hrc.
  { eapply reading_app; [exact Hr|]. split_and!; [apply interferes_trace|done..]. }
  destruct (readClock (clock n)) as [now|]; [|apply triple_ret; by exists (read ++ [e])%list].
  destruct (existsb _ l) eqn:En; [apply triple_ret; by exists (read ++ [e])%list|].
  apply triple_bind. eapply triple_mono; [apply guarantees_stale|]. intros stale w2 H2%(rely_calm Mine Yours).
  destruct (reading_calm _ _ H2) as (checked & Hc & Hq). pose proof (reading_app _ _ _ _ _ Hrc Hc) as Hall.
  rewrite <- app_assoc in Hall. destruct stale as [err|stale]; [by eexists|]. apply triple_ret. eexists. split; [exact Hall|].
  intros l' t' [= E]. destruct stale as [reason|]; [done|]. destruct (negb _); [done|]. injection E as <- <-.
  exists read, checked. split_and!; [done..|]. by apply answered_observed.
Qed.

Lemma selection_yields l t :
  Forall (fun o => is_null (ob_inventory o) = false) l ->
  yields (fun o => forall selection, o = inl selection -> selection_ok t l selection) (selectPoolCredits (S := S) hash localeCompare l t).
Proof.
  intros Hn w n. destruct (select_spec hash localeCompare t l (n, w) Hn) as (r & -> & Hr). split; [reflexivity|].
  intros o -> selection ->. exact Hr.
Qed.

Lemma guarantees_cas_loop {A} tries (attempt : M (option A)) exhausted :
  guarantees rely attempt -> guarantees rely (cas_loop tries attempt exhausted).
Proof.
  intros Ha. induction tries as [|tries IH]; cbn [cas_loop]; [auto with gateway|]. apply guarantees_bind; [done|]. intros []; auto with gateway.
Qed.

Lemma guarantees_shadow_attempt record nowMs entries :
  guarantees rely (shadow_attempt others faults dateNow parseCodexAuthPool sha256Hex record nowMs entries).
Proof.
  apply guarantees_bind; [apply guarantees_try_get|]. intros [entry|]; [|auto with gateway]. destruct (negb _); [auto with gateway|].
  apply guarantees_catch; [|auto with gateway]. apply guarantees_bind.
  - destruct (sd_selected_account_id_hash record); [|auto with gateway]. destruct (empty _); [auto with gateway|by apply (guarantees_readUsage Mine Yours)].
  - intros usage. destruct (negb _); [auto with gateway|]. apply guarantees_bind; [|auto with gateway].
    apply (guarantees_commit Mine Yours); [done|]. intros w. repeat constructor; done.
Qed.

Lemma guarantees_persist decision entries selection nowMs :
  guarantees rely (persistShadowDecisionOutcome others faults dateNow parseCodexAuthPool sha256Hex decision entries selection nowMs).
Proof. apply guarantees_bind; [by apply guarantees_cas_loop, guarantees_shadow_attempt|intros p; apply guarantees_ret]. Qed.

(** *** The submission *)

(** What the evaluation read before it submitted: [looked] is what it read
    first, [read] are the inventories, [nowMs] is the time after them. *)
Record chosen (candidates : list CodexBankedResetPoolCandidate) (looked read : list Event) (nowMs : Z)
    (pool : CodexBankedResetPoolCandidate) (credit : ResetInventoryCredit) : Prop := {
  (** The configuration is live. *)
  ch_live : exists config, EConfig (Some config) ∈ looked /\ bc_mode config = ModeLive;
  (** The slots tell the accounts apart. *)
  ch_slots : NoDup (pc_slot <$> candidates);
  (** Every account was asked for its inventory, unless its setting disables its
      resets; and every inventory is usable. *)
  ch_asked p : p ∈ candidates ->
    (exists answer, (pc_slot p, Some answer) ∈ inventories read /\ is_Some (poolInventoryIsUsable answer nowMs))
    \/ exists context v, makeResetContext hash (pc_candidate p) = Some context
                         /\ ERead (codexResetUsageKey (rc_accountIdHash context)) v ∈ looked /\ usage_allows v = false;
  (** The credit is one the account's inventory offers ... *)
  ch_pool : pool ∈ candidates;
  ch_offered : exists answer, (pc_slot pool, Some answer) ∈ inventories read /\ offered_by nowMs pool answer credit;
  (** ... and expires no later than any that an account's inventory offers. *)
  ch_earliest p answer c : p ∈ candidates -> (pc_slot p, Some answer) ∈ inventories read -> offered_by nowMs p answer c ->
    expires_by credit c }.

(** The readings between [w] and [w'], and the choice from them. *)
Definition choice (candidates : list CodexBankedResetPoolCandidate) (s : SelectedPoolCredit) (w w' : W) : Prop :=
  exists looked read nowMs checked,
    reading w w' (looked ++ read ++ EClock (Some nowMs) :: checked)
    /\ Forall quiet_event looked /\ Forall quiet_event checked
    /\ chosen candidates looked read nowMs (rp_pool (sp_resolved s)) (sp_credit s).

(** What an evaluation did: nothing, or one attempt, bound to the credit chosen
    and to the fences of the cohort. *)
Definition pool_spent (candidates : list CodexBankedResetPoolCandidate) (w w' : W) : Prop :=
  (exists events, reading w w' events)
  \/ exists complete s wd, rp_pool <$> complete ≡ₚ candidates /\ choice candidates s w wd
       /\ attempted Mine Yours hash (pc_provider (rp_pool (sp_resolved s))) (live_candidate complete s) false wd w'.

Lemma calm_spent candidates w w' : calm w w' -> pool_spent candidates w w'.
Proof. intros (l & H & _)%reading_calm. left. by exists l. Qed.

(** The evaluation goes on from [w1], where all was calm since [w]. *)
Lemma spent_after {A B} candidates (m : M A) (k : A -> M B) w w1 :
  calm w w1 -> guarantees rely m -> (forall a w2, calm w w2 -> rely w1 w2 -> triple (k a) w2 (fun _ w' => pool_spent candidates w w')) ->
  triple (kv_bind m k) w1 (fun _ w' => pool_spent candidates w w').
Proof.
  intros H Hm Hk. apply triple_bind. eapply triple_mono; [apply Hm|]. intros [e|a] w2 H2.
  - apply calm_spent. etrans; [exact H|]. by apply (rely_calm Mine Yours).
  - apply Hk; [|done]. etrans; [exact H|]. by apply (rely_calm Mine Yours).
Qed.

Lemma spent_neutral {A} candidates (m : M A) w w1 events :
  reading w w1 events -> guarantees rely m -> triple m w1 (fun _ w' => pool_spent candidates w w').
Proof.
  intros H Hm. eapply triple_mono; [apply Hm|]. intros r w' (l & H1 & _)%(rely_calm Mine Yours)%reading_calm. left. eexists.
  by eapply reading_app.
Qed.

Lemma spent_ret {A} candidates (a : A) w w1 : calm w w1 -> triple (kv_ret a) w1 (fun _ w' => pool_spent candidates w w').
Proof. intros H. by apply triple_ret, calm_spent. Qed.

Lemma pool_config_mode ordered configured config :
  loadPoolSubmissionConfig ordered configured = inl config -> configured = Some config /\ bc_mode config <> ModeDisabled.
Proof.
  unfold loadPoolSubmissionConfig, loadCurrentPoolConfig. destruct configured as [c|]; [|done]. destruct (negb (bc_enabled c)); [done|].
  case_bool_decide; [done|]. destruct (bc_maxPerAccountPerDay c <=? 0); [done|]. destruct (negb (_ =? _)); [done|].
  destruct (bool_decide _ && _); [done|]. by intros [= <-].
Qed.

(** Two accounts of one slot are one. *)
Lemma same_slot candidates p q : NoDup (pc_slot <$> candidates) -> p ∈ candidates -> q ∈ candidates -> pc_slot p = pc_slot q -> p = q.
Proof.
  induction candidates as [|c l IH]; cbn; [by intros _ ?%not_elem_of_nil|]. intros [Hc Hd]%NoDup_cons Hp Hq E.
  apply elem_of_cons in Hp as [->|Hp], Hq as [->|Hq]; [done| | |by apply IH]; destruct Hc; [rewrite E|rewrite <- E]; by apply list_elem_of_fmap_2.
Qed.

(** A selection from the inventories of a cohort is chosen from them. *)
Lemma selection_chosen candidates ordered e l t selection s config w w1 looked read :
  ordered ≡ₚ candidates -> NoDup (pc_slot <$> candidates) -> episode_of ordered e ->
  (forall x, x ∈ pe_complete e -> x ∈ pe_eligible e \/ disallowed w w1 x) -> observed (pe_eligible e) l read ->
  selection_ok t l selection -> ps_selected selection = Some s -> saw (EConfig (Some config)) w w1 -> bc_mode config = ModeLive ->
  w_trace w1 = (w_trace w ++ looked)%list ->
  chosen candidates looked read t (rp_pool (sp_resolved s)) (sp_credit s).
Proof.
  intros Ho Hslots (Hp & Hctx & He) Hall [Hl Hn Hi] Hok Es Hc Hlive Ew. unfold selection_ok in Hok. rewrite Es in Hok.
  destruct Hok as (Hsel & (o & Hin & Eo & Hoff) & Hleast).
  assert (forall ev, saw ev w w1 -> ev ∈ looked) as Hlook.
  { intros ev (l' & E' & H). rewrite Ew in E'. by apply app_inv_head in E' as <-. }
  assert (forall o, o ∈ l -> rp_pool (ob_resolved o) ∈ candidates) as Hcand.
  { intros o' Ho'. rewrite <- Ho, <- Hp. apply list_elem_of_fmap_2, He. rewrite <- Hl. by apply list_elem_of_fmap_2. }
  assert (forall o, o ∈ l -> (pc_slot (rp_pool (ob_resolved o)), Some (ob_inventory o)) ∈ inventories read) as Hread.
  { intros o' Ho'. rewrite Hi. by apply (list_elem_of_fmap_2 (fun o => (pc_slot (rp_pool (ob_resolved o)), Some (ob_inventory o)))). }
  rewrite Eo. constructor; [by exists config; auto|done| |by apply Hcand|exists (ob_inventory o); auto|].
  - intros p Hpc. rewrite <- Ho, <- Hp in Hpc. apply list_elem_of_fmap_1 in Hpc as (x & -> & Hx).
    destruct (Hall x Hx) as [Hx'|(v & Hv & Hu)].
    + left. rewrite <- Hl in Hx'. apply list_elem_of_fmap_1 in Hx' as (o' & -> & Ho'). exists (ob_inventory o'). split; [auto|].
      rewrite Forall_forall in Hsel. by apply Hsel.
    + right. exists (rp_context x), v. rewrite Forall_forall in Hctx. auto.
  - intros p answer c Hpc Ha Hoffer. rewrite Hi in Ha. apply list_elem_of_fmap_1 in Ha as (o' & [= E ->] & Ho').
    rewrite (same_slot candidates p (rp_pool (ob_resolved o'))) in Hoffer by auto. by apply (Hleast o').
Qed.

Lemma live_spec candidates e selection w w1 events :
  reading w w1 events -> rp_pool <$> pe_complete e ≡ₚ candidates -> (forall s, ps_selected selection = Some s -> choice candidates s w w1) ->
  triple (runLivePoolSubmission others faults clock dateNow aborted liveConfig newOwnerToken kvOpens parseCodexAuthPool sha256Hex hash
            localeCompare (pe_complete e) selection) w1 (fun _ w' => pool_spent candidates w w').
Proof.
  intros Hr Hp Hs. unfold runLivePoolSubmission. destruct (ps_selected selection) as [s|].
  2:{ eapply spent_neutral; [exact Hr|auto with gateway]. }
  apply triple_bind. eapply triple_mono; [apply (reset_attempt_spec Mine Yours); [done..|exact Hothers]|].
  assert (forall w', attempted Mine Yours hash (pc_provider (rp_pool (sp_resolved s))) (live_candidate (pe_complete e) s) false w1 w' ->
    pool_spent candidates w w') as H by (intros w' H; right; exists (pe_complete e), s, w1; auto).
  intros [r|r] w' H'; [by apply H|]. apply triple_ret. by apply H.
Qed.

(** From the inventories on. *)
Lemma choose_spec candidates ordered e config w w1 :
  ordered ≡ₚ candidates -> NoDup (pc_slot <$> candidates) -> bc_mode config <> ModeDisabled -> calm w w1 -> episode_of ordered e ->
  (forall x, x ∈ pe_complete e -> x ∈ pe_eligible e \/ disallowed w w1 x) -> saw (EConfig (Some config)) w w1 ->
  triple (let! observed := observePoolInventories others faults clock (pe_eligible e) in
          match observed with
          | inr outcome => kv_ret outcome
          | inl (inventoryResults, nowMs) =>
              let! selection := selectPoolCredits hash localeCompare inventoryResults nowMs in
              match selection with
              | inr outcome => kv_ret outcome
              | inl selection =>
                  match buildShadowDecision (pe_episodeHash e) nowMs (ps_decisionReason selection) (ps_selected selection) (pe_fences e) with
                  | inr outcome => kv_ret outcome
                  | inl decision =>
                      if bool_decide (bc_mode config = ModeShadow)
                      then persistShadowDecisionOutcome others faults dateNow parseCodexAuthPool sha256Hex decision (pe_settingsEntries e)
                             selection nowMs
                      else runLivePoolSubmission others faults clock dateNow aborted liveConfig newOwnerToken kvOpens parseCodexAuthPool
                             sha256Hex hash localeCompare (pe_complete e) selection
                  end
              end
          end) w1 (fun _ w' => pool_spent candidates w w').
Proof.
  intros Ho Hslots Hmode H1 He Hall Hcfg. destruct (reading_calm _ _ H1) as (looked & Hlook & Hq). apply triple_bind.
  eapply triple_mono; [apply observe_spec|]. intros [err|r] w2 (events & Hev & Hl); [left; eexists; by eapply reading_app|].
  pose proof (reading_app _ _ _ _ _ Hlook Hev) as Hboth.
  destruct r as [[l t]|out]; [|by eapply spent_neutral; [exact Hboth|auto with gateway]].
  destruct (Hl _ _ eq_refl) as (read & checked & -> & Hqc & Hobs). apply triple_bind.
  eapply triple_mono; [by apply selection_yields, (ov_answers _ _ _ Hobs)|]. intros selection w3 [H3 Hsel].
  apply (rely_calm Mine Yours) in H3. destruct (reading_calm _ _ H3) as (more & Hm & Hqm).
  assert (reading w w3 (looked ++ read ++ EClock (Some t) :: (checked ++ more))) as H.
  { pose proof (reading_app _ _ _ _ _ Hboth Hm) as H. by rewrite <- !app_assoc in H. }
  destruct selection as [err|[selection|out]]; [left; by eexists| |by eapply spent_neutral; [exact H|auto with gateway]].
  specialize (Hsel _ eq_refl _ eq_refl). destruct (buildShadowDecision _ _ _ _ _) as [decision|];
    [|by eapply spent_neutral; [exact H|auto with gateway]].
  case_bool_decide as Hsh; [eapply spent_neutral; [exact H|apply guarantees_persist]|].
  eapply live_spec; [exact H|by rewrite (proj1 He)|]. intros s Es. exists looked, read, t, (checked ++ more)%list.
  split_and!; [done..|by apply Forall_app|]. eapply selection_chosen; try done; [by destruct (bc_mode config)|apply Hlook].
Qed.

Lemma evaluate_spec candidates w :
  triple (evaluateCodexBankedResetPool others faults clock dateNow aborted liveConfig newOwnerToken kvOpens parseCodexAuthPool sha256Hex hash
            localeCompare candidates) w (fun _ w' => pool_spent candidates w w').
Proof.
  apply spent_after; [reflexivity|auto with gateway|]. intros [now|] w1 H1 _; [|by apply spent_ret].
  destruct (orderPoolCandidates candidates) as [ordered|] eqn:Eo; [|by apply spent_ret]. apply ordered_pools in Eo as [Ho Hslots].
  apply triple_bind, triple_config. intros n. set (configured := liveConfig n). set (w2 := happens _ w1).
  assert (calm w w2) as H2 by (etrans; [exact H1|]; by apply rely_event).
  assert (saw (EConfig configured) w w2) as Hcfg by (eapply saw_earlier; [apply H1|apply saw_event]). clearbody w2 configured.
  destruct (loadPoolSubmissionConfig ordered configured) as [config|] eqn:Ec; [|by apply spent_ret].
  apply pool_config_mode in Ec as [-> Hmode].
  apply spent_after; [done|auto with gateway|]. intros [] w3 H3 R3; cbn [negb]; [|by apply spent_ret].
  apply (saw_later _ _ _ w3) in Hcfg; [|apply R3]. apply triple_bind. eapply triple_mono; [apply episode_spec|].
  intros [err|e] w4 [R4 He]; pose proof (transitivity H3 (rely_calm Mine Yours _ _ R4)) as H4; [by apply calm_spent|].
  destruct e as [e|]; [|by apply spent_ret]. destruct (He _ eq_refl) as [Hep Hall]. apply (saw_later _ _ _ w4) in Hcfg; [|apply R4].
  apply spent_after; [done|apply guarantees_stale|]. intros [reason|] w5 H5 R5; [by apply spent_ret|].
  apply spent_after; [done|apply guarantees_existing_decision|]. intros [d|] w6 H6 R6; [by apply spent_ret|].
  assert (silent w4 w6) as R46 by (etrans; [apply R5|apply R6]).
  apply (choose_spec candidates ordered); try done; [|by eapply saw_later].
  intros x Hx. destruct (Hall x Hx) as [?|Hd]; [by left|right]. apply (disallowed_earlier _ w3); [apply H3|].
  by apply (disallowed_later _ w4).
Qed.

(** An evaluation moves the records forward only. *)
Lemma pool_forward candidates w w' : pool_spent candidates w w' -> reset_interferes Yours w w'.
Proof.
  intros [(ev & H & _)|(complete & s & wd & _ & (looked & read & nowMs & checked & [Hi _] & _) & [[H _]|(_ & context & _ & H & _)])]; [done|by etrans..].
Qed.
End pool.

Section cohort.
Context {S : Type} `{Kv : !KvStoreOf jsval S}.
Local Notation W := (World S).
Context (Mine Yours : string -> Prop).
Context (others : Clients (World S)) (faults : nat -> Fault) (clock : nat -> option number) (dateNow : nat -> Z) (aborted : nat -> bool)
  (liveConfig : nat -> option CodexBankedResetConfig) (newOwnerToken : nat -> option string) (kvOpens : nat -> bool)
  (parseCodexAuthPool : jsval -> Result string (option (list string))) (sha256Hex : string -> string)
  (hash : string -> option string) (localeCompare : string -> string -> Z).
Context (Hdisjoint : forall t, Mine t -> ~ Yours t) (Htokens : forall n t, newOwnerToken n = Some t -> Mine t).
Context `{Hothers : !RelyOn (reset_others (fun t => Mine t \/ Yours t)) others}.

(** The fences of the whole cohort guard the live attempt. *)
Lemma cohort_fences complete s candidates (w : W) :
  rp_pool <$> complete ≡ₚ candidates -> fences_current (cd_fences (live_candidate complete s)) w ->
  forall p, p ∈ candidates -> fences_current (cd_fences (pc_candidate p)) w.
Proof.
  intros Hp Hf p Hpc. rewrite <- Hp in Hpc. apply list_elem_of_fmap_1 in Hpc as (x & -> & Hx).
  apply (Forall_concat_in _ _ _ Hf). by apply (list_elem_of_fmap_2 (fun r => cd_fences (pc_candidate (rp_pool r)))).
Qed.

(** C27: A blocked cohort spends one credit at most, and the right one.
    Whatever other calls do under their own tokens and whichever storage calls
    throw, an evaluation moves the records forward only, and redeems nothing or
    exactly one credit.  In the latter case the trace of the evaluation, which
    no other call writes, has, in this order: [looked], with a live
    configuration; [read], with the inventories; a reading [nowMs] of the
    clock; a reading [usedMs], at which the credit is usable; a reading [at_],
    whose UTC day is [day]; the commit of the submission, from the store of
    [w1] to the store of [w2]; and the redemption.  Every account of the cohort
    has a usable inventory in [read], or a setting in [looked] that disables
    its resets.  The credit is one that the account's inventory in [read]
    offers at [nowMs], and expires no later than any credit that any account's
    inventory in [read] offers.  The store that the commit found had the
    account's window claimed under the evaluation's token and its [day] unused,
    every fence of every account of the cohort current, and the account's
    consent in force. *)
Theorem pool_redeems_at_most_once candidates n w r n' w' :
  evaluateCodexBankedResetPool others faults clock dateNow aborted liveConfig newOwnerToken kvOpens parseCodexAuthPool sha256Hex hash
    localeCompare candidates (n, w) = (r, (n', w')) ->
  reset_interferes Yours w w'
  /\ (w_redeemed w' = w_redeemed w
      \/ exists pool context credit nowMs usedMs at_ day t w1 w2 looked read checked used before between after,
           w_trace w' = (w_trace w ++ looked ++ read ++ EClock (Some nowMs) :: checked ++ used ++ before
                          ++ ECommit (kv_map w1) (kv_map w2) :: between ++ ERedeem (redemption context credit) :: after)%list
           /\ w_redeemed w' = (w_redeemed w ++ [redemption context credit])%list
           /\ Forall quiet_event (looked ++ checked ++ used ++ before ++ between ++ after)
           /\ chosen hash candidates looked read nowMs pool credit
           /\ makeResetContext hash (pc_candidate pool) = Some context
           /\ EClock (Some usedMs) ∈ used /\ isUsableSelectedCredit credit (pc_provider pool) usedMs = true
           /\ EClock (Some at_) ∈ before /\ utcDay at_ = Some day /\ Mine t
           /\ reset_evolves w w1 /\ submission (rc_accountIdHash context) (rc_quotaGeneration context) day t w1 w2
           /\ (forall p, p ∈ candidates -> fences_current (cd_fences (pc_candidate p)) w1)
           /\ consents (rc_accountIdHash context) (cd_authorization (pc_candidate pool)) w1
           /\ reset_evolves w2 w').
Proof using Hdisjoint Htokens Hothers.
  intros E. assert (RelyOn (reset_rely (fun t => Mine t \/ Yours t)) others) as Hr by (intros i u; apply others_rely, Hothers).
  eapply triple_run in E; [|by apply (evaluate_spec Mine Yours)].
  destruct E as [(ev & Hi & Et & En)|(complete & s & wd & Hp & (looked & read & nowMs & checked & (Hi & Et & En) & Hq & Hqc & Hch) & Hat)].
  { split; [done|left]. unfold w_redeemed. by rewrite Et, omap_app, En, app_nil_r. }
  assert (w_redeemed wd = w_redeemed w) as Ewd by (unfold w_redeemed; by rewrite Et, omap_app, En, app_nil_r).
  destruct Hat as [[Hi' E%silent_redeemed]|(_ & context & Ec & Hi' & [E%silent_redeemed|(credit & usedMs & at_ & day & t & w1 & w2 & Hs)])];
    (split; [by etrans|]); [left; congruence..|right].
  edestruct (spent_trace Mine Yours) as (used & before & between & after & Et' & Hu & Hb & Hq'); [exact Hs|].
  destruct Hs, so_submitted. rewrite (so_selected _ eq_refl) in *.
  exists (rp_pool (sp_resolved s)), context, (sp_credit s), nowMs, usedMs, at_, day, t, w1, w2, looked, read, checked, used, before, between, after.
  split_and!; try done.
  - rewrite Et', Et. by rewrite <- !app_assoc.
  - rewrite <- Ewd. unfold w_redeemed. rewrite !Forall_app in Hq'. destruct Hq' as (Q1 & Q2 & Q3 & Q4).
    destruct (quiet_nothing _ Q1) as [N1 _], (quiet_nothing _ Q2) as [N2 _], (quiet_nothing _ Q3) as [N3 _], (quiet_nothing _ Q4) as [N4 _].
    rewrite Et', !omap_app. cbn. rewrite !omap_app. cbn. by rewrite N1, N2, N3, N4.
  - by rewrite !Forall_app in *.
  - etrans; [apply Hi|apply si_calm].
  - by eapply cohort_fences.
  - apply so_later.
Qed.
End cohort.

(** A selection, when the hashes are usable and every inventory was read, takes
    an earliest credit of those offered; it takes none only when none is
    offered, or an inventory is not usable. *)
Theorem pool_selects_earliest {S} hash localeCompare observations nowMs n (w : World S) :
  hashes hash -> Forall (fun o => is_null (ob_inventory o) = false) observations ->
  exists selection, selectPoolCredits hash localeCompare observations nowMs (n, w) = (Ok (inl selection), (n, w))
    /\ selection_ok nowMs observations selection.
Proof.
  intros Hh Hn. destruct (select_spec hash localeCompare nowMs observations (n, w) Hn) as (r & E & Hr).
  destruct r as [e|[selection|o]]; [by apply Hr in Hh| |by apply Hr in Hh]. by exists selection.
Qed.

(** ** A concrete cohort *)

Module DemoPool.
Definition credit (id : string) (expiresAtMs : Z) : ResetInventoryCredit := mkCredit id "available" "codex_rate_limits" (Some expiresAtMs).
Definition json_credit (c : ResetInventoryCredit) : jsval :=
  JObj [("id", JStr (ic_id c)); ("status", JStr (ic_status c)); ("resetType", JStr (ic_resetType c));
    ("expiresAtMs", json_option jint (ic_expiresAtMs c))].
Definition inventory (credits : list ResetInventoryCredit) : jsval :=
  JObj [("availableCount", jint (Z.of_nat (length credits))); ("credits", JArr (json_credit <$> credits)); ("observedAtMs", jint 1000)].
Definition pool (slot : Z) (account routing : string) (credits : list ResetInventoryCredit) : CodexBankedResetPoolCandidate :=
  mkPool slot (mkCandidate account None "1" 50000 7 [mkFence [KStr routing] (fun _ => Some true)] None)
    {| pv_contract := pv_contract DemoReset.provider; pv_readInventory := fun _ => Some (inventory credits);
       pv_redeem := pv_redeem DemoReset.provider; pv_lookup := fun _ => None; pv_verifyApplied := fun _ => None |}.
Definition first : CodexBankedResetPoolCandidate := pool 0 "first" "routing0" [credit "a" 40000].
Definition second : CodexBankedResetPoolCandidate := pool 1 "second" "routing1" [credit "b" 90000; credit "c" 30000].
Definition run_as (others : Clients (World (MemoryKvOf jsval))) (token : string) (w : World (MemoryKvOf jsval)) :=
  evaluateCodexBankedResetPool others healthy DemoReset.clock (fun _ => 0) (fun _ => false) DemoReset.config (fun _ => Some token)
    (fun _ => true) (fun _ => Ok None) (fun s => s) DemoReset.hash (fun _ _ => 0) [second; first] (O, w).
(** From some time on, a rival evaluates the same cohort at every step. *)
Definition rival : Clients (World (MemoryKvOf jsval)) := fun n w =>
  if (n <? 40)%nat then w else mkWorld (w_store (snd (snd (run_as quiet "rival" w)))) (w_trace w).

(** What an evaluation does is what another relies on. *)
Lemma rival_cohort_relies : RelyOn (reset_others (fun t => DemoReset.mine t \/ DemoReset.yours t)) rival.
Proof.
  intros n w. unfold rival. destruct (n <? 40)%nat; [by constructor|].
  assert (reset_interferes (fun t => DemoReset.mine t \/ DemoReset.yours t) w (snd (snd (run_as quiet "rival" w)))) as Hi.
  { pose proof (DemoReset.split_run (run_as quiet "rival" w)) as E.
    eapply triple_run in E; [|apply (evaluate_spec (fun t => t = "rival") (fun t => DemoReset.mine t \/ DemoReset.yours t))].
    - exact (pool_forward _ _ _ _ _ _ E).
    - by intros t -> [H|H].
    - by intros ?? [= <-].
    - intros ??. reflexivity. }
  constructor; [|done]. etrans; [exact Hi|]. apply interferes_trace.
Qed.
End DemoPool.

Lemma pool_redeems_at_most_once_witness :
  let w' := snd (snd (DemoPool.run_as DemoPool.rival "owner" DemoReset.w0)) in
  ri_creditId <$> w_redeemed w' = ["c"]
  /\ exists pool context credit nowMs day t (w1 w2 : World (MemoryKvOf jsval)) looked read,
       w_redeemed w' = [redemption context credit]
       /\ chosen DemoReset.hash [DemoPool.second; DemoPool.first] looked read nowMs pool credit
       /\ submission (rc_accountIdHash context) (rc_quotaGeneration context) day t w1 w2
       /\ forall p, p ∈ [DemoPool.second; DemoPool.first] -> fences_current (cd_fences (pc_candidate p)) w1.
Proof.
  assert (ri_creditId <$> w_redeemed (snd (snd (DemoPool.run_as DemoPool.rival "owner" DemoReset.w0))) = ["c"]) as E
    by (vm_compute; reflexivity).
  split; [exact E|].
  destruct (pool_redeems_at_most_once DemoReset.mine DemoReset.yours DemoPool.rival healthy DemoReset.clock (fun _ => 0) (fun _ => false)
    DemoReset.config (fun _ => Some "owner") (fun _ => true) (fun _ => Ok None) (fun s => s) DemoReset.hash (fun _ _ => 0)
    DemoReset.distinct DemoReset.tokens (Hothers := DemoPool.rival_cohort_relies) [DemoPool.second; DemoPool.first] O DemoReset.w0 _ _ _
    (DemoReset.split_run (DemoPool.run_as DemoPool.rival "owner" DemoReset.w0)))
    as [_ [H|(pool & context & credit & nowMs & usedMs & at_ & day & t & w1 & w2 & looked & read & checked & used & before & between & after
              & _ & H1 & _ & H2 & _ & _ & _ & _ & _ & _ & _ & H3 & H4 & _)]].
  - rewrite H in E. discriminate E.
  - exists pool, context, credit, nowMs, day, t, w1, w2, looked, read. exact (conj H1 (conj H2 (conj H3 H4))).
Defined.
